(* ===== verification/_CoqProject ===== *)
-Q . S2P
Prelude.v
Memory.v
Ctype.v
StrScan.v
StrCmp.v
StrCopy.v
Strto.v
Mbyte.v
MbString.v
Calendar.v
Tzset.v
Mktime.v
NanoMalloc.v
NanoHeap.v
NanoSpec.v
Mprec.v
MprecNum.v
MprecBits.v
MprecHeap.v
MprecOps.v
MprecConv.v
MprecSpec.v
Rust.v
Frame.v
Paging.v
KHeap.v
FileSystem.v
Vfs.v
Process.v
Sched.v
Context.v
Syscall.v
SyscallSpec.v
Descriptors.v
Disk.v
Fat12.v
FatTable.v
FatDisk.v
FatName.v
FatSpec.v
FatOps.v
FatVolume.v
FatVfs.v
SuperBlock.v
Console.v
ConsoleRing.v
ConsoleDraw.v
ConsoleSpec.v
