(* ===== verification/Prelude.v ===== *)
(** * Verification of the Eucalypt kernel and its C library

    The repository holds a kernel written in Rust (one directory per crate) and,
    under src/ports/newlib, the C library newlib. This development covers both:
    the crates of the kernel that manage memory, files and processes, and the
    parts of newlib/libc that compute on memory, numbers, text and dates.

    ** Parts

    The kernel hands out frames of physical memory from a bitmap
    (memory/src/frame_allocator.rs), maps them in page tables (vmm.rs, mmio.rs)
    and carves a heap from the same memory (allocator.rs). The VFS (vfs) gives
    paths and open nodes over file system drivers behind a trait. A process
    (process) has a stack on the heap, an address space and descriptors of VFS
    nodes. The scheduler (sched) picks the next process at each timer interrupt,
    and the interrupt handler (kernel/src/idt.rs) switches stacks. System calls
    (syscall) work on the descriptors and the memory of the current process. The
    drivers of file systems are RamFs (in vfs), FAT12 (fat12) and the start of
    one of its own (eucalypt_fs); the latter two use sectors of a disk. The text
    console (framebuffer) prints on the screen. The C library is independent of
    the kernel in the sources: no crate refers to it.

    ** Conventions

    An integer is a [Z]; every conversion that may change it is written out
    ([u32], [s32], [u64], ... of this file). A pointer is its address and the
    null pointer is 0.

    C code: the target is LP64 and little-endian. A function that reads or
    writes memory takes the memory and yields [None] when an access faults, so a
    theorem that it returns also says that all its accesses are in bounds. Loops
    are [loop], a body iterated at most a given number of times.

    Rust code: a function on statics is a value of [ST S A], a state monad with
    failure over the record [S] of these statics. It yields [None] when the code
    panics, touches memory that is not mapped, or spins for ever on a lock that
    is held. The profile is dev, the default of
    kernel/GNUmakefile, so an overflow panics.
    Memory is a map from addresses to words of 64 bits.

    ** Files of the C library (paths relative to src/ports/newlib/newlib/libc)

    - Prelude.v: machine integers, [loop] with its rules ([loop_inv],
      [loop_inv_nat], [loop_inv_eq]), bit lemmas, tactics, the hints [cint].
    - Memory.v: memory as a map from addresses to bytes, words of 8 bytes,
      ranges and C strings in memory.
    - StrScan.v, StrCmp.v, StrCopy.v: string/. Searching (strlen, strchr,
      memchr, ...), comparing (memcmp, strcmp, strncmp) and copying (memcpy,
      memmove, memset, strcpy, strlcpy, ...), word at a time as in the source.
    - Ctype.v: ctype/. The class table and the functions that index it.
    - Strto.v: stdlib/ strtol.c, strtoul.c, strtoll.c, strtoull.c, atoi.c,
      atol.c, utoa.c, itoa.c.
    - Mbyte.v: stdlib/ mbtowc_r.c and wctomb_r.c, one decoder and encoder for
      each of ASCII, UTF-8, Shift-JIS, EUC-JP and JIS.
    - MbString.v: stdlib/ mbstowcs_r.c, wcstombs_r.c, mbrtowc.c and others, over
      the class [Codec] that stands for the function pointers of a locale.
    - Calendar.v: time/ gmtime_r.c, month_lengths.c. Tzset.v: tzset_r.c,
      tzcalc_limits.c, gettzinfo.c, tzvars.c, and the conversions %hu and %11[...]
      of stdio/vfscanf.c. Mktime.v: mktime.c, lcltime_r.c.
    - NanoMalloc.v: stdlib/nano-mallocr.c, the allocator, in a state monad over
      memory and the free list. It asks for memory through the class [System].
      NanoHeap.v proves its invariant; NanoSpec.v states what callers get.
    - Mprec.v: stdlib/mprec.c, integers of any size for the conversion of
      floating-point numbers, on a heap of structs with free lists. It asks for
      structs through the class [Calloc]. MprecNum.v and MprecBits.v are about
      the word loops, MprecHeap.v about ownership of structs, MprecOps.v and
      MprecConv.v about each routine, MprecSpec.v about what callers see.

    ** Files of the kernel (paths relative to src)

    - Rust.v: checked arithmetic, the monad [ST], results, loops over ranges,
      words of memory, and the rules [wp] to reason about them.
    - Frame.v: memory/src/addr.rs, frame_allocator.rs. Paging.v: vmm.rs, mmio.rs.
      KHeap.v: allocator.rs.
    - FileSystem.v: the trait of vfs/src/lib.rs as the class [FileSystem], its
      contract [FileSystemSpec], and the driver RamFs, an instance of both.
    - Vfs.v: the rest of vfs/src/lib.rs, over any [FileSystem].
    - Process.v: process/src/lib.rs. The record [kernel] puts the statics of all
      crates over one memory; [on_mm], [on_heap] and [on_vfs] run a call of one
      crate on its part.
    - Sched.v: sched/src/lib.rs. Context.v: the timer handler of
      kernel/src/idt.rs, from the registers pushed to the registers popped.
    - Syscall.v: syscall/src/lib.rs and the calls of the other crates it makes,
      over the record [kernel] and the memory of a process. SyscallSpec.v states
      what callers get; Descriptors.v is about all runs of calls and interrupts.
    - Disk.v: the class [Disk], what the file systems use of the crate ide, with
      its laws [DiskLaws] and an instance in memory.
    - Fat12.v: fat12/src/lib.rs over any disk. FatTable.v is about entries and
      chains of the table, FatDisk.v about runs of sectors and clusters,
      FatName.v about names and entries, FatSpec.v about volumes as stores of
      files, FatOps.v about each operation. FatVolume.v relates a volume to the
      map from names to contents that the contract of file systems speaks of, for
      operations that fit (an instance of [FileSystemSpec] it is not, since others
      fail); FatVfs.v puts the driver under the VFS.
    - SuperBlock.v: eucalypt_fs/src, the super block and the formatter.
    - Console.v: framebuffer/src/lib.rs. ConsoleRing.v relates the ring of lines
      to a terminal, ConsoleDraw.v is about pixels, ConsoleSpec.v about both.

    ** Theorems about the kernel

    - Memory: [frame_allocator_correct] and [heap_client_safety] are invariants
      of all runs of clients (those of the heap without [sbrk]).
      [map_page_correct] is stated against the walk of the processor through the
      tables, for pages that are not in a huge page; [map_unmap_roundtrip],
      [address_space_isolation] and [map_mmio_correct] follow from the same
      invariant on tables. Flaws: [heap_frames_shared] (the frame allocator gives
      out the pages of the heap), [alloc_misaligned], [sbrk_shrink_reuses] and
      [map_mmio_huge] (a huge page taken for a table).
    - Files: [ramfs_refines] relates RamFs to a map from names to contents. Over
      every driver that keeps the contract, [vfs_write_read_roundtrip],
      [vfs_reads_sequential] and [vfs_write_effect] say what is read and written,
      [vfs_tables_typed] that the tables stay well formed. Flaws:
      [vfs_append_overwrites], [vfs_lock_leak].
    - Processes: [process_table_typed] is the invariant of the process table;
      [timer_interrupt_correct] gives the effect of an interrupt, and
      [ready_process_runs] bounds the time a ready process that is not of Idle
      priority waits. Flaw:
      [yield_keeps_processor].
    - Context switch: [context_switch_correct], and [first_activation] for the
      stack of a new process.
    - System calls: [file_calls_roundtrip] writes and reads a file through all
      layers, for every driver that keeps the contract; [descriptors_own_nodes]
      says that open nodes and descriptors correspond in all runs;
      [syscall_errors] covers the refused calls, [plot_point_bounds] the pixels.
    - FAT12: [fat12_refines] relates a volume to a map from names to contents
      under any sequence of operations that fit, [fat12_durable] mounts the disk
      again, [vfs_fat12_roundtrip] goes through the VFS. Flaws:
      [fat12_failed_create], [fat12_open_creat].
    - Formatter: [format_correct], the super block read back and its regions.
    - Console: [console_shows] says that a screen that was black shows the last
      rows of a terminal that got the first 512 bytes of text of each call, pixel by
      pixel, and that no other pixel of the frame buffer changes.

    ** Theorems about the C library

    - Allocator: [client_safety] is an invariant of all runs of a client that
      uses only blocks it holds, in a build without DEBUG and on a heap of less than
      2 GiB. Each entry point refines an operation on lists
      of chunks ([nano_malloc_correct], [nano_free_correct], ...), and a free
      undoes an allocation ([malloc_free_restores]). Flaws: [nano_malloc_leak] (an
      int remainder loses memory of chunks over 2 GiB) and [nano_malloc_assert]
      (with DEBUG an assertion fails where the last free chunk is extended).
    - Multiple precision: [mprec_refines] relates every reachable state to a map
      from pointers to integers, and every call to arithmetic on it. Conversion
      of doubles is exact ([d2b_correct], [b2d_correct], [d2b_b2d_roundtrip]).
    - Strings and memory: each function computes its result on byte lists and
      changes nothing else; versions for speed and for size agree. The zero-byte
      test is exact ([DETECT_exact]). [memrchr_alignment] is a flaw: it loads
      words at addresses that are not aligned.
    - Text: [strtol_correct] covers every base and every string that is not a
      prefix 0x without a digit, limits and errors included, with the documented
      form of a number ([parse_longest]); [itoa_strtol_roundtrip] reads back what is
      written.
    - Multibyte text: [utf8_mbtowc_correct] covers byte sequences in all cuts,
      surrogates and numbers over 10FFFF apart; [wcstombs_mbstowcs_roundtrip] holds for every lawful [Codec], and
      the five encodings are shown to be lawful.
    - Time: [gmtime_r_correct] against the Gregorian calendar; [mktime_correct]
      for fields in range or not, in every zone TZ may give whose offsets differ by
      a day at most; [localtime_mktime_roundtrip] for times within 3*10^11 seconds of
      1970 in zones whose daylight saving time, if any, is east of standard time and
      the year the same in local time as in UTC. [tzset_returns], [tzset_wf] and
      [tzset_again] are about the reading of TZ; [tzset_overread] is a flaw.

    ** Bounds

    The loops of the kernel run over ranges, lists or fuel that follows from the
    state: the search of the free list gets one round more than there are words
    of memory, and [heap_client_safety] shows that it ends. A walk along a chain
    of FAT12 gets 4096 rounds, one for each value of an entry; on a chain with a
    cycle the code would not end and the model fails. In the C library a loop over
    memory gets [fuel m], one more than the number of mapped bytes:
    each round visits a new one, or faults. A loop that counts down gets one
    round more than its counter. In mprec.c the loops over words get one round
    more than the words there are, and those that shift a 32-bit word at most
    33. The month loops of mktime.c get |tm_mday| + 2 rounds, the year loops the
    distance to 1970. The theorems are about results ([Some]), so they show
    that these bounds are enough. Times are bounded by 2^55 seconds and fields
    of a broken-down time by 2^28, so that the year still fits an int.

    ** Assumptions

    Code outside the sources, or reached through a pointer, is a parameter: the
    system call _sbrk ([System], laws [SystemLaws]), _calloc_r for mprec.c
    ([Calloc], [CallocLaws]), and the decoder and encoder of a locale ([Codec],
    [CodecLaws]). The value of TZ, the success of the allocation of its copy, and
    the macro DEBUG of nano-mallocr.c are arguments.
    The disk of the file systems is the class [Disk]: a driver whose device is
    ready reads the sector last written ([DiskLaws]). The formatter of print
    arguments is a parameter, the pieces of text it writes.
    The classes have instances, with which the witnesses compute.

    ** Not modelled

    - Drivers and machine setup of the kernel (ahci, ide, pci, usb, bare_x86_64,
      boot and descriptor tables): what they do is decided by devices, ports and
      machine instructions. The translation cache: the model reads the tables.
      The text of most messages.
    - More than one processor: the statics have no locks but that of the VFS.
    - Floating-point arithmetic: libm, dtoa.c, strtod.c, gdtoa, [ratio] and
      [_mprec_log10] of mprec.c.
    - Input and output (but for two conversions of sscanf), system calls, locale data, generated Unicode tables,
      code for particular processors (stdio, reent, syscalls, locale, iconv,
      machine, sys, libgloss). Locks: the models are of a single thread.
    - [nano_malloc_stats], which prints; sb_charsets.c, tables of single-byte
      character sets; mbsnrtowcs.c and wcsnrtombs.c.
    - Not done yet, though the memory model would do: strstr and the tokenizers,
      search/ (qsort, bsearch, tsearch), the allocator _mallocr.c, the random
      generators, argz/, the regular expressions of posix/. *)

From stdpp Require Export prelude gmap list numbers list_numbers.
From Stdlib Require Export ZArith Lia.
From Stdlib Require Export Btauto.

#[global] Open Scope Z_scope.

(** ** Notations *)

Declare Scope c_scope.
Delimit Scope c_scope with C.

(** A loop body either goes round again with a new loop state, or leaves the
    loop with a result; both may fail when the body faults. *)
Abbreviation continue s := (Some (inl s)).
Abbreviation leave r := (Some (inr r)).

(** ** Machine integers

    A [w]-bit unsigned integer is a [Z] in [0 .. 2^w - 1]; [wrapu] is the
    conversion to it.  [wraps] is the conversion to the two's complement
    signed integer of the same width. *)

Definition wrapu (w x : Z) : Z := x mod 2 ^ w.
Definition wraps (w x : Z) : Z :=
  let y := x mod 2 ^ w in if y <? 2 ^ (w - 1) then y else y - 2 ^ w.

Abbreviation u8 := (wrapu 8).
Abbreviation u16 := (wrapu 16).
Abbreviation u32 := (wrapu 32).
Abbreviation u64 := (wrapu 64).
Abbreviation s32 := (wraps 32).
Abbreviation s64 := (wraps 64).

(** C's conversion of a condition to a truth value. *)
Definition truth (x : Z) : bool := negb (x =? 0).

Create HintDb cint.
Create Rewrite HintDb cint.

(** ** Loops

    [loop n body s] runs [body] from [s] at most [n] times.  [None] means
    that the body faulted or that [n] rounds were not enough. *)
Fixpoint loop {S R : Type} (n : nat) (body : S → option (S + R)) (s : S) : option R :=
  match n with
  | O => None
  | S n' => r ← body s; match r with inl s' => loop n' body s' | inr x => Some x end
  end.

(** ** Tactics *)

(** Split conjunctions in the context and use every equation between
    constructors. *)
Ltac crush_hyps := repeat (destruct_and! || simplify_option_eq).

(** Turn boolean comparisons of [Z] in the context into propositions. *)
Ltac zb :=
  repeat match goal with
  | H : (_ =? _) = true |- _ => apply Z.eqb_eq in H
  | H : (_ =? _) = false |- _ => apply Z.eqb_neq in H
  | H : (_ <? _) = true |- _ => apply Z.ltb_lt in H
  | H : (_ <? _) = false |- _ => apply Z.ltb_ge in H
  | H : (_ <=? _) = true |- _ => apply Z.leb_le in H
  | H : (_ <=? _) = false |- _ => apply Z.leb_gt in H
  | H : negb _ = true |- _ => apply negb_true_iff in H
  | H : negb _ = false |- _ => apply negb_false_iff in H
  | H : (_ && _) = true |- _ => apply andb_true_iff in H; destruct H
  | H : (_ || _) = false |- _ => apply orb_false_iff in H; destruct H
  end.

(** Equality of tuples, component by component, with integer arithmetic. *)
Ltac tuple_eq :=
  repeat match goal with |- (_, _) = (_, _) => apply (f_equal2 pair) end; try done; try lia.

(** Case analysis on the first boolean test of the goal. *)
Ltac case_if_goal :=
  match goal with |- context [if ?b then _ else _] => destruct b eqn:? end.

(** ** Loops

    One round, for proofs by induction on what is left to do. *)
Lemma loop_S {St R} n (body : St → option (St + R)) s :
  loop (S n) body s = r ← body s; match r with inl s' => loop n body s' | inr x => Some x end.
Proof. done. Qed.

(** ** The loop rule

    Total correctness: an invariant, a natural measure that every round
    decreases and a postcondition established by every exit. *)
Lemma loop_inv {St R : Type} (I : St → Prop) (Q : R → Prop) (μ : St → Z)
    (body : St → option (St + R)) (n : nat) (s : St) :
  (∀ s, I s → 0 ≤ μ s ∧
     match body s with
     | Some (inl s') => I s' ∧ μ s' < μ s
     | Some (inr r) => Q r
     | None => False
     end) →
  I s → μ s < Z.of_nat n →
  ∃ r, loop n body s = Some r ∧ Q r.
Proof.
  intros Hstep. revert s. induction n as [|n IH]; intros s HI Hμ.
  { destruct (Hstep s HI). lia. }
  cbn [loop]. destruct (Hstep s HI) as [H0 Hb].
  destruct (body s) as [[s'|r]|]; simpl; [|eauto|done].
  destruct Hb as [HI' Hlt]. apply IH; [done|lia].
Qed.

#[global] Arguments loop : simpl never.
#[global] Arguments wrapu : simpl never.
#[global] Arguments wraps : simpl never.

(** The same rule with the measure as an index of the invariant. *)
Lemma loop_inv_nat {St R : Type} (I : nat → St → Prop) (Q : R → Prop)
    (body : St → option (St + R)) (n k : nat) (s : St) :
  (∀ k s, I k s →
     match body s with
     | Some (inl s') => ∃ k', (k' < k)%nat ∧ I k' s'
     | Some (inr r) => Q r
     | None => False
     end) →
  I k s → (k < n)%nat →
  ∃ r, loop n body s = Some r ∧ Q r.
Proof.
  intros Hstep. revert k s. induction n as [|n IH]; intros k s HI Hk; [lia|].
  change (loop (S n) body s) with
    (x ← body s; match x with inl s' => loop n body s' | inr r => Some r end).
  specialize (Hstep k s HI).
  destruct (body s) as [[s'|r]|]; simpl; [|eauto|done].
  destruct Hstep as (k' & Hk' & HI'). apply (IH k'); [done|lia].
Qed.

(** The same rule when the result is a function of the invariant's parameters. *)
Lemma loop_inv_eq {St R : Type} (I : St → Prop) (r0 : R) (μ : St → Z)
    (body : St → option (St + R)) (n : nat) (s : St) :
  (∀ s, I s → 0 ≤ μ s ∧
     match body s with
     | Some (inl s') => I s' ∧ μ s' < μ s
     | Some (inr r) => r = r0
     | None => False
     end) →
  I s → μ s < Z.of_nat n → loop n body s = Some r0.
Proof.
  intros Hstep HI Hμ.
  destruct (loop_inv I (eq r0) μ body n s) as (r & -> & <-); [|done..].
  intros s' HI'. pose proof (Hstep s' HI').
  destruct (body s') as [[?|?]|]; intuition congruence.
Qed.

(** ** Machine integer lemmas *)

Lemma wrapu_range w x : 0 ≤ w → 0 ≤ wrapu w x < 2 ^ w.
Proof. intros. apply Z.mod_pos_bound. lia. Qed.

Lemma wrapu_small w x : 0 ≤ x < 2 ^ w → wrapu w x = x.
Proof. apply Z.mod_small. Qed.

Lemma wrapu_wrapu w x : wrapu w (wrapu w x) = wrapu w x.
Proof. unfold wrapu. by rewrite Zmod_mod. Qed.

Lemma wraps_wrapu w x : wraps w (wrapu w x) = wraps w x.
Proof. unfold wraps, wrapu. by rewrite Zmod_mod. Qed.

Lemma wraps_range w x : 0 < w → - 2 ^ (w - 1) ≤ wraps w x < 2 ^ (w - 1).
Proof.
  intros Hw. unfold wraps.
  assert (2 ^ w = 2 * 2 ^ (w - 1)) as Hp
    by (rewrite <- Z.pow_succ_r by lia; f_equal; lia).
  pose proof (Z.mod_pos_bound x (2 ^ w)).
  destruct (Z.ltb_spec (x mod 2 ^ w) (2 ^ (w - 1))); lia.
Qed.

Lemma wraps_small w x : 0 < w → - 2 ^ (w - 1) ≤ x < 2 ^ (w - 1) → wraps w x = x.
Proof.
  intros Hw Hx. unfold wraps.
  assert (2 ^ w = 2 * 2 ^ (w - 1)) as Hp
    by (rewrite <- Z.pow_succ_r by lia; f_equal; lia).
  destruct (decide (0 ≤ x)).
  - rewrite Z.mod_small by lia. destruct (Z.ltb_spec x (2 ^ (w - 1))); lia.
  - replace (x mod 2 ^ w) with (x + 2 ^ w).
    + destruct (Z.ltb_spec (x + 2 ^ w) (2 ^ (w - 1))); lia.
    + apply (Z.mod_unique _ _ (-1)); lia.
Qed.

Lemma u8_range x : 0 ≤ u8 x < 256.
Proof. apply (wrapu_range 8). lia. Qed.
Lemma u8_small x : 0 ≤ x < 256 → u8 x = x.
Proof. apply (wrapu_small 8). Qed.
Lemma u32_range x : 0 ≤ u32 x < 4294967296.
Proof. apply (wrapu_range 32). lia. Qed.
Lemma u32_small x : 0 ≤ x < 4294967296 → u32 x = x.
Proof. apply (wrapu_small 32). Qed.
Lemma u64_range x : 0 ≤ u64 x < 18446744073709551616.
Proof. apply (wrapu_range 64). lia. Qed.
Lemma u64_small x : 0 ≤ x < 18446744073709551616 → u64 x = x.
Proof. apply (wrapu_small 64). Qed.
Lemma s64_small x :
  -9223372036854775808 ≤ x < 9223372036854775808 → s64 x = x.
Proof. apply (wraps_small 64). lia. Qed.
Lemma s32_small x : -2147483648 ≤ x < 2147483648 → s32 x = x.
Proof. apply (wraps_small 32). lia. Qed.

#[export] Hint Rewrite u8_small u32_small u64_small s64_small s32_small using lia : cint.
#[export] Hint Rewrite wrapu_wrapu : cint.
#[export] Hint Resolve u8_range u32_range u64_range : cint.

Lemma truth_true x : truth x = true ↔ x ≠ 0.
Proof. unfold truth. destruct (Z.eqb_spec x 0); naive_solver. Qed.
Lemma truth_false x : truth x = false ↔ x = 0.
Proof. unfold truth. destruct (Z.eqb_spec x 0); naive_solver. Qed.

(** ** Bitwise arithmetic *)

Lemma testbit_small n x i : 0 ≤ x < 2 ^ n → 0 ≤ n ≤ i → Z.testbit x i = false.
Proof.
  intros Hx Hn. rewrite <- (Z.mod_small x (2 ^ n)) by done.
  apply Z.mod_pow2_bits_high. lia.
Qed.

(** The bits of a number split at position [n]. *)
Lemma testbit_split n b y i : 0 ≤ n → 0 ≤ b < 2 ^ n → 0 ≤ i →
  Z.testbit (b + 2 ^ n * y) i =
    if decide (i < n) then Z.testbit b i else Z.testbit y (i - n).
Proof.
  intros Hn Hb Hi. rewrite (Z.mul_comm _ y), <- Z.shiftl_mul_pow2 by done.
  rewrite Z.add_nocarry_lxor.
  - rewrite Z.lxor_spec, Z.shiftl_spec by done. case_decide.
    + rewrite (Z.testbit_neg_r y) by lia. apply xorb_false_r.
    + rewrite (testbit_small n) by lia. apply xorb_false_l.
  - apply Z.bits_inj'. intros j Hj.
    rewrite Z.land_spec, Z.shiftl_spec, Z.bits_0 by done.
    destruct (decide (j < n)).
    + rewrite (Z.testbit_neg_r y) by lia. apply andb_false_r.
    + by rewrite (testbit_small n) by lia.
Qed.

Section split_ops.
Context (n : Z) (Hn : 0 ≤ n) (a b x y : Z)
  (Ha : 0 ≤ a < 2 ^ n) (Hb : 0 ≤ b < 2 ^ n).

Lemma land_bound : 0 ≤ Z.land a b < 2 ^ n.
Proof using Ha Hb Hn.
  assert (0 ≤ Z.land a b) as H0 by (apply Z.land_nonneg; lia). split; [done|].
  destruct (decide (Z.land a b = 0)) as [->|]; [lia|].
  apply Z.log2_lt_pow2; [lia|].
  pose proof (Z.log2_land a b ltac:(lia) ltac:(lia)).
  destruct (decide (a = 0)) as [->|]; [rewrite Z.land_0_l in *; lia|].
  pose proof (Z.log2_lt_pow2 a n). lia.
Qed.

Lemma lor_bound : 0 ≤ Z.lor a b < 2 ^ n.
Proof using Ha Hb Hn.
  assert (0 ≤ Z.lor a b) as H0 by (apply Z.lor_nonneg; lia). split; [done|].
  destruct (decide (Z.lor a b = 0)) as [->|]; [lia|].
  apply Z.log2_lt_pow2; [lia|]. rewrite Z.log2_lor by lia.
  destruct (decide (n = 0)) as [->|].
  { assert (a = 0) as -> by lia. assert (b = 0) as -> by lia. done. }
  pose proof (λ H, Z.log2_lt_pow2 a n H). pose proof (λ H, Z.log2_lt_pow2 b n H).
  destruct (decide (a = 0)) as [->|]; destruct (decide (b = 0)) as [->|];
    cbn [Z.log2] in *; lia.
Qed.

Lemma lxor_bound : 0 ≤ Z.lxor a b < 2 ^ n.
Proof using Ha Hb Hn.
  assert (0 ≤ Z.lxor a b) as H0 by (apply Z.lxor_nonneg; lia). split; [done|].
  destruct (decide (Z.lxor a b = 0)) as [->|]; [lia|].
  apply Z.log2_lt_pow2; [lia|].
  pose proof (Z.log2_lxor a b ltac:(lia) ltac:(lia)).
  destruct (decide (n = 0)) as [->|].
  { assert (a = 0) as -> by lia. assert (b = 0) as -> by lia. done. }
  pose proof (λ H, Z.log2_lt_pow2 a n H). pose proof (λ H, Z.log2_lt_pow2 b n H).
  destruct (decide (a = 0)) as [->|]; destruct (decide (b = 0)) as [->|];
    cbn [Z.log2] in *; lia.
Qed.

(** Bitwise operators act on the two halves separately. *)
Lemma land_split :
  Z.land (a + 2 ^ n * x) (b + 2 ^ n * y) = Z.land a b + 2 ^ n * Z.land x y.
Proof using Ha Hb Hn.
  apply Z.bits_inj'. intros i Hi. pose proof land_bound.
  rewrite Z.land_spec, !testbit_split by done.
  case_decide; by rewrite Z.land_spec.
Qed.

Lemma lor_split :
  Z.lor (a + 2 ^ n * x) (b + 2 ^ n * y) = Z.lor a b + 2 ^ n * Z.lor x y.
Proof using Ha Hb Hn.
  apply Z.bits_inj'. intros i Hi. pose proof lor_bound.
  rewrite Z.lor_spec, !testbit_split by done.
  case_decide; by rewrite Z.lor_spec.
Qed.

Lemma lxor_split :
  Z.lxor (a + 2 ^ n * x) (b + 2 ^ n * y) = Z.lxor a b + 2 ^ n * Z.lxor x y.
Proof using Ha Hb Hn.
  apply Z.bits_inj'. intros i Hi. pose proof lxor_bound.
  rewrite Z.lxor_spec, !testbit_split by done.
  case_decide; by rewrite Z.lxor_spec.
Qed.
End split_ops.

(** Masking with a low-bits mask, and disjoint [lor], as arithmetic. *)
Lemma land_low_mask n x : 0 ≤ n → Z.land x (2 ^ n - 1) = x mod 2 ^ n.
Proof. intros. rewrite <- Z.land_ones by done. by rewrite Z.ones_equiv. Qed.

Lemma lor_disjoint n lo hi : 0 ≤ n → 0 ≤ lo < 2 ^ n →
  Z.lor (Z.shiftl hi n) lo = lo + 2 ^ n * hi.
Proof.
  intros Hn Hlo. apply Z.bits_inj'. intros i Hi.
  rewrite Z.lor_spec, Z.shiftl_spec, testbit_split by done. case_decide.
  - by rewrite (Z.testbit_neg_r hi) by lia.
  - rewrite (testbit_small n lo i) by lia. apply orb_false_r.
Qed.

(** ** Lists *)

Lemma lookup_app_mid {A} (l k : list A) x : (l ++ x :: k) !! length l = Some x.
Proof. by rewrite lookup_app_r, Nat.sub_diag by lia. Qed.

(** A computation that returns, checked by running it. *)
Lemma returns {A} (d : A) (o : option A) :
  (match o with Some _ => true | None => false end) = true → o = Some (default d o).
Proof. by destruct o. Qed.
