(* ===== verification/Memory.v ===== *)
(** * Byte-addressed memory

    The memory the C code reads and writes: a finite map from addresses to
    bytes.  An access to an address that is not mapped faults ([None]), and
    so does a word access that is not aligned, the way it does on the
    machines the portable C code of the library is written for.  A word is
    the 8-byte little-endian [long] of the LP64 target. *)

From S2P Require Import Prelude.

Abbreviation mem := (gmap Z Z).

(** ** Accesses *)

Definition load8 (m : mem) (a : Z) : option Z := u8 <$> m !! a.

Definition store8 (m : mem) (a v : Z) : option mem :=
  match m !! a with
  | Some _ => Some (<[a := u8 v]> m)
  | None => None
  end.

Fixpoint load_bytes (m : mem) (a : Z) (n : nat) : option (list Z) :=
  match n with
  | O => Some []
  | S n' => b ← load8 m a; t ← load_bytes m (a + 1) n'; Some (b :: t)
  end.

Fixpoint write_bytes (m : mem) (a : Z) (l : list Z) : mem :=
  match l with
  | [] => m
  | b :: t => write_bytes (<[a := u8 b]> m) (a + 1) t
  end.

(** Little-endian composition of bytes. *)
Fixpoint le_combine (l : list Z) : Z :=
  match l with
  | [] => 0
  | b :: t => b + 2 ^ 8 * le_combine t
  end.

Fixpoint le_split (n : nat) (w : Z) : list Z :=
  match n with
  | O => []
  | S n' => w mod 2 ^ 8 :: le_split n' (w / 2 ^ 8)
  end.

Definition aligned8 (a : Z) : bool := a mod 8 =? 0.

Definition load64 (m : mem) (a : Z) : option Z :=
  if aligned8 a then le_combine <$> load_bytes m a 8 else None.

(** The load on a machine that allows misaligned accesses. *)
Definition load64u (m : mem) (a : Z) : option Z := le_combine <$> load_bytes m a 8.

Definition store64 (m : mem) (a w : Z) : option mem :=
  if aligned8 a then
    _ ← load_bytes m a 8; Some (write_bytes m a (le_split 8 w))
  else None.

(** ** What memory holds *)

Definition is_byte (b : Z) : Prop := 0 ≤ b < 256.

#[export] Instance is_byte_dec b : Decision (is_byte b).
Proof. unfold is_byte. apply _. Defined.

(** The bytes [l] are stored from address [a] on. *)
Definition bytes_at (m : mem) (a : Z) (l : list Z) : Prop :=
  load_bytes m a (length l) = Some l.

(** [n] bytes from [a] on are mapped. *)
Definition mapped (m : mem) (a n : Z) : Prop :=
  ∀ x, a ≤ x < a + n → is_Some (m !! x).

(** A NUL-terminated string at [a], whose bytes before the NUL are [s]. *)
Definition cstring (m : mem) (a : Z) (s : list Z) : Prop :=
  bytes_at m a (s ++ [0]) ∧ Forall (λ b, b ≠ 0) s.

(** What the functions that take a length bound see: the bytes [s] before a
    NUL or before the bound [n], whichever comes first. *)
Definition nstring (m : mem) (a n : Z) (s : list Z) : Prop :=
  Forall (λ b, b ≠ 0) s ∧
  (Z.of_nat (length s) < n ∧ bytes_at m a (s ++ [0]) ∨
   Z.of_nat (length s) = n ∧ bytes_at m a s).

(** Memory is mapped in whole words, as any paged memory is. *)
Definition word_mapped (m : mem) : Prop :=
  ∀ a b, is_Some (m !! a) → b / 8 = a / 8 → is_Some (m !! b).

(** [m'] holds [l] at [a] and is [m] everywhere else. *)
Definition updated (m : mem) (a : Z) (l : list Z) (m' : mem) : Prop :=
  bytes_at m' a l ∧ ∀ x, ¬ (a ≤ x < a + Z.of_nat (length l)) → m' !! x = m !! x.

(** A concrete memory holding [l] at [a] and nothing else. *)
Definition mk_mem (a : Z) (l : list Z) : mem := write_bytes ∅ a l.

(** A walk over distinct mapped addresses ends before it has visited
    [size m] of them, so a loop that reads one mapped address per round and
    never returns to it needs no more rounds than this. *)
Definition fuel (m : mem) : nat := S (size m).

(** ** Lemmas *)

Create HintDb mem.

Lemma load8_byte m a b : load8 m a = Some b → is_byte b.
Proof.
  unfold load8. intros (x & _ & ->)%fmap_Some. apply u8_range.
Qed.

Lemma load8_is_Some m a : is_Some (load8 m a) ↔ is_Some (m !! a).
Proof. unfold load8. apply fmap_is_Some. Qed.

Lemma load_bytes_Some m a n l :
  load_bytes m a n = Some l ↔
  length l = n ∧ ∀ i b, l !! i = Some b → load8 m (a + Z.of_nat i) = Some b.
Proof.
  revert a l. induction n as [|n IH]; intros a l; cbn [load_bytes].
  { split; [intros [= <-]; done|]. intros [?%nil_length_inv _]. by subst. }
  split.
  - destruct (load8 m a) as [b|] eqn:Hb; [|done].
    destruct (load_bytes m (a + 1) n) as [t|] eqn:Ht; [|done]. intros [= <-].
    apply IH in Ht as [Hl Ht]. split; [simpl; lia|]. intros [|i] c; simpl.
    + intros [= <-]. by rewrite Z.add_0_r.
    + intros Hc. rewrite <- (Ht _ _ Hc). f_equal. lia.
  - intros [Hl Hi]. destruct l as [|b t]; [done|].
    assert (load8 m a = Some b) as -> by (rewrite <- (Hi 0%nat b eq_refl); f_equal; lia).
    simpl. rewrite (proj2 (IH (a + 1) t)); [done|]. split; [simpl in Hl; lia|].
    intros i c Hc. rewrite <- (Hi (S i) c Hc). f_equal. lia.
Qed.

Lemma bytes_at_spec m a l :
  bytes_at m a l ↔ ∀ i b, l !! i = Some b → load8 m (a + Z.of_nat i) = Some b.
Proof. unfold bytes_at. rewrite load_bytes_Some. intuition auto. Qed.

Lemma bytes_at_lookup m a l i b :
  bytes_at m a l → l !! i = Some b → load8 m (a + Z.of_nat i) = Some b.
Proof. rewrite bytes_at_spec. auto. Qed.

Lemma bytes_at_nil m a : bytes_at m a [].
Proof. done. Qed.

Lemma bytes_at_app m a l k :
  bytes_at m a (l ++ k) ↔ bytes_at m a l ∧ bytes_at m (a + Z.of_nat (length l)) k.
Proof.
  rewrite !bytes_at_spec. split.
  - intros H. split; intros i b Hi.
    + apply H. by rewrite lookup_app_l by (by eapply lookup_lt_Some).
    + rewrite <- (H (length l + i)%nat b); [f_equal; lia|].
      rewrite lookup_app_r by lia. rewrite <- Hi. f_equal. lia.
  - intros [H1 H2] i b [Hi|[Hl Hi]]%lookup_app_Some; [auto|].
    rewrite <- (H2 _ _ Hi). f_equal. lia.
Qed.

Lemma bytes_at_cons m a b l :
  bytes_at m a (b :: l) ↔ load8 m a = Some b ∧ bytes_at m (a + 1) l.
Proof.
  rewrite (bytes_at_app m a [b] l). change (Z.of_nat (length [b])) with 1.
  assert (bytes_at m a [b] ↔ load8 m a = Some b) as ->; [|done].
  rewrite bytes_at_spec. split.
  - intros H. rewrite <- (H 0%nat b eq_refl). f_equal. lia.
  - intros H [|i] c Hc; [|done]. simplify_eq/=. by rewrite Z.add_0_r.
Qed.

Lemma bytes_at_bytes m a l : bytes_at m a l → Forall is_byte l.
Proof.
  rewrite bytes_at_spec, Forall_lookup. intros H i b Hi. eapply load8_byte, H, Hi.
Qed.

Lemma bytes_at_mapped m a l : bytes_at m a l → mapped m a (Z.of_nat (length l)).
Proof.
  rewrite bytes_at_spec. intros H x Hx.
  destruct (lookup_lt_is_Some_2 l (Z.to_nat (x - a))) as [b Hb]; [lia|].
  apply load8_is_Some. exists b. rewrite <- (H _ _ Hb). f_equal. lia.
Qed.

Lemma mapped_bytes_at m a n :
  mapped m a (Z.of_nat n) → ∃ l, length l = n ∧ bytes_at m a l.
Proof.
  revert a. induction n as [|n IH]; intros a Hm; [by exists []|].
  destruct (Hm a ltac:(lia)) as [b Hb].
  destruct (IH (a + 1)) as (l & Hl & Hat). { intros x Hx. apply Hm. lia. }
  exists (u8 b :: l). split; [simpl; lia|]. apply bytes_at_cons.
  split; [|done]. unfold load8. by rewrite Hb.
Qed.

Lemma mapped_sub m a n a' n' :
  mapped m a n → a ≤ a' → a' + n' ≤ a + n → mapped m a' n'.
Proof. intros H ?? x Hx. apply H. lia. Qed.

(** A mapped region is no larger than memory. *)
Lemma mapped_size m a n : mapped m a n → n ≤ Z.of_nat (size m).
Proof.
  intros Hm. destruct (decide (0 ≤ n)); [|lia].
  assert (list_to_set (seqZ a n) ⊆ dom m) as Hsub.
  { intros x. rewrite elem_of_list_to_set, elem_of_seqZ, elem_of_dom. apply Hm. }
  apply subseteq_size in Hsub. rewrite size_list_to_set in Hsub by apply NoDup_seqZ.
  rewrite length_seqZ, size_dom in Hsub. lia.
Qed.

Lemma bytes_at_size m a l : bytes_at m a l → (length l ≤ size m)%nat.
Proof. intros H%bytes_at_mapped%mapped_size. lia. Qed.

Lemma bytes_at_fuel m a l : bytes_at m a l → Z.of_nat (length l) < Z.of_nat (fuel m).
Proof. intros H%bytes_at_size. unfold fuel. lia. Qed.

(** *** Writes *)

Lemma lookup_write_bytes m a l x :
  write_bytes m a l !! x =
    if decide (a ≤ x < a + Z.of_nat (length l))
    then u8 <$> l !! Z.to_nat (x - a) else m !! x.
Proof.
  revert m a. induction l as [|b l IH]; intros m a; cbn [write_bytes length].
  { rewrite decide_False by lia. done. }
  rewrite IH, lookup_insert. repeat case_decide; try lia.
  - replace (Z.to_nat (x - a)) with (S (Z.to_nat (x - (a + 1)))) by lia. done.
  - subst. by rewrite Z.sub_diag.
  - done.
Qed.

Lemma load8_write_bytes_ne m a l x :
  x < a ∨ a + Z.of_nat (length l) ≤ x → load8 (write_bytes m a l) x = load8 m x.
Proof.
  intros. unfold load8. rewrite lookup_write_bytes. by rewrite decide_False by lia.
Qed.

Lemma load8_write_bytes_eq m a l i b :
  Forall is_byte l → l !! i = Some b →
  load8 (write_bytes m a l) (a + Z.of_nat i) = Some b.
Proof.
  intros Hl Hi. pose proof (lookup_lt_Some _ _ _ Hi).
  rewrite Forall_lookup in Hl. specialize (Hl _ _ Hi). unfold is_byte in Hl.
  unfold load8. rewrite lookup_write_bytes, decide_True by lia.
  replace (Z.to_nat (a + Z.of_nat i - a)) with i by lia. rewrite Hi. simpl.
  by rewrite !u8_small by (rewrite ?u8_small; lia).
Qed.

Lemma bytes_at_write_bytes_eq m a l : Forall is_byte l → bytes_at (write_bytes m a l) a l.
Proof. intros Hl. apply bytes_at_spec. intros. by apply load8_write_bytes_eq. Qed.

Lemma bytes_at_write_bytes_ne m a l b k :
  bytes_at m b k →
  b + Z.of_nat (length k) ≤ a ∨ a + Z.of_nat (length l) ≤ b →
  bytes_at (write_bytes m a l) b k.
Proof.
  rewrite !bytes_at_spec. intros H Hd i c Hi. pose proof (lookup_lt_Some _ _ _ Hi).
  rewrite load8_write_bytes_ne by lia. auto.
Qed.

Lemma mapped_write_bytes m a l b n :
  mapped m b n → mapped (write_bytes m a l) b n.
Proof.
  intros H x Hx. rewrite lookup_write_bytes. case_decide; [|auto].
  apply fmap_is_Some, lookup_lt_is_Some_2. lia.
Qed.

(** Writing to mapped addresses maps nothing new. *)
Lemma is_Some_write_bytes m a l x :
  mapped m a (Z.of_nat (length l)) →
  is_Some (write_bytes m a l !! x) ↔ is_Some (m !! x).
Proof.
  intros Hm. rewrite lookup_write_bytes. case_decide; [|done]. split.
  - intros _. by apply Hm.
  - intros _. apply fmap_is_Some, lookup_lt_is_Some_2. lia.
Qed.

Lemma word_mapped_write_bytes m a l :
  mapped m a (Z.of_nat (length l)) → word_mapped m → word_mapped (write_bytes m a l).
Proof.
  intros Hm Hw x y. rewrite !is_Some_write_bytes by done. apply Hw.
Qed.

Lemma write_bytes_app m a l k :
  write_bytes m a (l ++ k) = write_bytes (write_bytes m a l) (a + Z.of_nat (length l)) k.
Proof.
  revert m a. induction l as [|b l IH]; intros m a; cbn [write_bytes app length].
  - f_equal. lia.
  - rewrite IH. f_equal. lia.
Qed.

Lemma write_bytes_write_bytes m a l k :
  length l = length k → write_bytes (write_bytes m a l) a k = write_bytes m a k.
Proof.
  intros Hl. apply map_eq. intros x. rewrite !lookup_write_bytes.
  rewrite Hl. by repeat case_decide.
Qed.

Lemma write_bytes_comm m a b l k :
  a + Z.of_nat (length l) ≤ b ∨ b + Z.of_nat (length k) ≤ a →
  write_bytes (write_bytes m a l) b k = write_bytes (write_bytes m b k) a l.
Proof.
  intros Hd. apply map_eq. intros x. rewrite !lookup_write_bytes.
  repeat case_decide; lia || done.
Qed.

Lemma store8_mapped m a v :
  mapped m a 1 → store8 m a v = Some (write_bytes m a [v]).
Proof. intros H. destruct (H a ltac:(lia)) as [b Hb]. unfold store8. by rewrite Hb. Qed.

(** *** Words *)

Lemma le_combine_range l : Forall is_byte l → 0 ≤ le_combine l < 2 ^ (8 * Z.of_nat (length l)).
Proof.
  induction 1 as [|b l Hb Hl IH]; [done|]. cbn [le_combine length].
  replace (8 * Z.of_nat (S (length l))) with (8 + 8 * Z.of_nat (length l)) by lia.
  rewrite Z.pow_add_r by lia. unfold is_byte in Hb. lia.
Qed.

Lemma length_le_split n w : length (le_split n w) = n.
Proof. revert w. induction n; intros; simpl; auto. Qed.

Lemma le_split_bytes n w : Forall is_byte (le_split n w).
Proof.
  revert w. induction n as [|n IH]; intros w; cbn [le_split]; constructor; [|auto].
  apply Z.mod_pos_bound. lia.
Qed.

Lemma le_split_combine l : Forall is_byte l → le_split (length l) (le_combine l) = l.
Proof.
  induction 1 as [|b l Hb Hl IH]; [done|]. unfold is_byte in Hb.
  cbn [le_combine le_split length]. f_equal.
  - rewrite Z.mul_comm, Z_mod_plus_full. by apply Z.mod_small.
  - rewrite (Z.mul_comm (2 ^ 8)), Z.div_add, Z.div_small by lia. apply IH.
Qed.

Lemma le_combine_split n w : le_combine (le_split n w) = w mod 2 ^ (8 * Z.of_nat n).
Proof.
  revert w. induction n as [|n IH]; intros w; cbn [le_combine le_split].
  { by rewrite Z.mod_1_r. }
  rewrite IH. replace (8 * Z.of_nat (S n)) with (8 + 8 * Z.of_nat n) by lia.
  rewrite Z.pow_add_r by lia. rewrite Z.rem_mul_r by lia. lia.
Qed.

Lemma le_combine_inj l k : Forall is_byte l → Forall is_byte k → length l = length k →
  le_combine l = le_combine k → l = k.
Proof.
  intros Hl Hk Hlen Heq.
  by rewrite <- (le_split_combine l), <- (le_split_combine k), Hlen, Heq.
Qed.

Lemma load64_bytes m a l :
  a mod 8 = 0 → length l = 8%nat → bytes_at m a l → load64 m a = Some (le_combine l).
Proof.
  intros Ha Hl H. unfold bytes_at in H. rewrite Hl in H.
  unfold load64, aligned8. rewrite (proj2 (Z.eqb_eq _ _) Ha), H. done.
Qed.

Lemma load64_word_mapped m a b :
  word_mapped m → a mod 8 = 0 → a ≤ b < a + 8 → is_Some (m !! b) →
  ∃ l, length l = 8%nat ∧ bytes_at m a l ∧ load64 m a = Some (le_combine l).
Proof.
  intros Hw Ha Hb Hm. destruct (mapped_bytes_at m a 8) as (l & Hl & Hat).
  { intros x Hx. apply (Hw b); [done|]. Z.div_mod_to_equations. lia. }
  exists l. eauto using load64_bytes.
Qed.

Lemma store64_mapped m a w :
  a mod 8 = 0 → mapped m a 8 → store64 m a w = Some (write_bytes m a (le_split 8 w)).
Proof.
  intros Ha Hm. destruct (mapped_bytes_at m a 8 Hm) as (l & Hl & Hat).
  unfold store64, aligned8. rewrite (proj2 (Z.eqb_eq _ _) Ha).
  unfold bytes_at in Hat. rewrite Hl in Hat. by rewrite Hat.
Qed.

(** Storing a word that was loaded writes the bytes it was loaded from. *)
Lemma store64_combine m a l :
  a mod 8 = 0 → mapped m a 8 → length l = 8%nat → Forall is_byte l →
  store64 m a (le_combine l) = Some (write_bytes m a l).
Proof.
  intros ?? Hl ?. rewrite store64_mapped by done. by rewrite <- Hl, le_split_combine.
Qed.

Lemma load64_write_bytes_ne m a l x :
  x + 8 ≤ a ∨ a + Z.of_nat (length l) ≤ x → load64 (write_bytes m a l) x = load64 m x.
Proof.
  intros Hd. unfold load64. destruct (aligned8 x); [|done]. f_equal.
  cbn [load_bytes]. by rewrite !load8_write_bytes_ne by lia.
Qed.

Lemma load64_store64_eq m a w :
  a mod 8 = 0 → load64 (write_bytes m a (le_split 8 w)) a = Some (u64 w).
Proof.
  intros Ha. rewrite (load64_bytes _ _ (le_split 8 w)); [|done|apply length_le_split|].
  - by rewrite le_combine_split.
  - apply bytes_at_write_bytes_eq, le_split_bytes.
Qed.

(** *** Strings *)

Lemma cstring_bytes m a s : cstring m a s → Forall is_byte s.
Proof. intros [H%bytes_at_bytes _]. by apply Forall_app in H as [??]. Qed.

Lemma cstring_nul m a s : cstring m a s → load8 m (a + Z.of_nat (length s)) = Some 0.
Proof. intros [H _]. apply (bytes_at_lookup _ _ _ _ _ H), lookup_app_mid. Qed.

Lemma cstring_lookup m a s i b :
  cstring m a s → s !! i = Some b → load8 m (a + Z.of_nat i) = Some b ∧ b ≠ 0 ∧ is_byte b.
Proof.
  intros Hs Hi. pose proof (cstring_bytes _ _ _ Hs) as Hb. destruct Hs as [H H0].
  rewrite Forall_lookup in H0, Hb. split_and!; [|eauto..].
  apply (bytes_at_lookup _ _ _ _ _ H). by apply lookup_app_l_Some.
Qed.

Lemma cstring_fuel m a s : cstring m a s → Z.of_nat (length s) + 1 < Z.of_nat (fuel m).
Proof. intros [H%bytes_at_fuel _]. rewrite length_app in H. simpl in H. lia. Qed.

(** The byte at offset [i] of a string, its NUL included. *)
Lemma cstring_step m a s i :
  cstring m a s → 0 ≤ i ≤ Z.of_nat (length s) →
  ∃ b, load8 m (a + i) = Some b ∧ is_byte b ∧
    (b = 0 ∧ i = Z.of_nat (length s) ∨
     b ≠ 0 ∧ i < Z.of_nat (length s) ∧ s !! Z.to_nat i = Some b).
Proof.
  intros Hs Hi. destruct (decide (i = Z.of_nat (length s))) as [->|].
  - exists 0. split; [by apply cstring_nul|]. split; [done|]. by left.
  - destruct (lookup_lt_is_Some_2 s (Z.to_nat i)) as [b Hb]; [lia|].
    destruct (cstring_lookup _ _ _ _ _ Hs Hb) as (Hl & Hne & Hby).
    exists b. rewrite Z2Nat.id in Hl by lia. split; [done|]. split; [done|].
    right. split; [done|]. split; [lia|done].
Qed.

(** A string is a bounded string, whatever the bound. *)
Lemma cstring_nstring m a s n :
  cstring m a s → 0 ≤ n → nstring m a n (take (Z.to_nat n) s).
Proof.
  intros [Hat H0] Hn. split; [by apply Forall_take|].
  destruct (decide (Z.of_nat (length s) < n)).
  - left. rewrite take_ge by lia. done.
  - right. rewrite length_take. split; [lia|]. apply bytes_at_app in Hat as [Hat _].
    rewrite <- (take_drop (Z.to_nat n) s) in Hat. by apply bytes_at_app in Hat as [? _].
Qed.

(** The head of a bounded string with room for at least one byte. *)
Lemma nstring_step m a n s : nstring m a n s → 0 < n →
  (s = [] ∧ load8 m a = Some 0) ∨
  (∃ b t, s = b :: t ∧ b ≠ 0 ∧ load8 m a = Some b ∧ nstring m (a + 1) (n - 1) t).
Proof.
  intros [H0 Hat] Hn. destruct H0 as [|b t Hb H0].
  - left. destruct Hat as [[_ Hat]|[? _]]; [|simpl in *; lia].
    apply (bytes_at_cons _ _ 0 []) in Hat. tauto.
  - right. exists b, t. simpl in Hat. rewrite !bytes_at_cons in Hat.
    split_and!; [done..|tauto|]. split; [done|].
    destruct Hat as [(? & ? & ?)|(? & ? & ?)]; [left|right]; (split; [lia|done]).
Qed.

Lemma nstring_drop m a n l t :
  nstring m a n (l ++ t) → nstring m (a + Z.of_nat (length l)) (n - Z.of_nat (length l)) t.
Proof.
  intros [H0 Hat]. apply Forall_app in H0 as [_ H0]. split; [done|].
  rewrite <- app_assoc, length_app in Hat.
  destruct Hat as [[? Hat]|[? Hat]]; apply bytes_at_app in Hat as [_ Hat];
    [left|right]; (split; [lia|done]).
Qed.

Lemma cstring_drop m a s k :
  cstring m a s → (k ≤ length s)%nat → cstring m (a + Z.of_nat k) (drop k s).
Proof.
  intros [Hat H0] Hk. split; [|by apply Forall_drop].
  rewrite <- (take_drop k s), <- app_assoc in Hat. apply bytes_at_app in Hat as [_ Hat].
  by rewrite length_take, Nat.min_l in Hat by done.
Qed.

Lemma write_bytes_updated m a l : Forall is_byte l → updated m a l (write_bytes m a l).
Proof.
  intros Hl. split; [by apply bytes_at_write_bytes_eq|].
  intros x Hx. by rewrite lookup_write_bytes, decide_False.
Qed.

Lemma mk_mem_word_mapped a l :
  a mod 8 = 0 → Z.of_nat (length l) mod 8 = 0 → word_mapped (mk_mem a l).
Proof.
  intros Ha Hl x y. unfold mk_mem. rewrite !lookup_write_bytes. intros Hx Hxy.
  assert (a ≤ x < a + Z.of_nat (length l)).
  { case_decide; [done|]. rewrite lookup_empty in Hx. by destruct Hx. }
  rewrite decide_True by (Z.div_mod_to_equations; lia).
  apply fmap_is_Some, lookup_lt_is_Some_2. Z.div_mod_to_equations. lia.
Qed.

Lemma mk_mem_mapped a l x n :
  a ≤ x → x + n ≤ a + Z.of_nat (length l) → mapped (mk_mem a l) x n.
Proof.
  intros Hx Hn y Hy. unfold mk_mem. rewrite lookup_write_bytes, decide_True by lia.
  apply fmap_is_Some, lookup_lt_is_Some_2. lia.
Qed.

(** Evaluates what a theorem asks of a concrete memory. *)
Ltac mem_witness :=
  lazymatch goal with
  | |- word_mapped _ => apply mk_mem_word_mapped; reflexivity
  | |- bytes_at _ _ _ => vm_compute; reflexivity
  | |- mapped _ _ _ => apply mk_mem_mapped; vm_compute; discriminate
  | |- Forall _ _ => apply (bool_decide_unpack _); vm_compute; exact I
  | |- cstring _ _ _ => split; mem_witness
  | |- nstring _ _ _ _ =>
      split; [mem_witness|];
      first [left; split; mem_witness|right; split; mem_witness]
  | |- _ ∉ _ => apply (bool_decide_unpack _); vm_compute; exact I
  | |- is_byte _ => split; cbn; lia
  | |- ¬ (_ ∧ _) => vm_compute; intros [? ?]; discriminate
  | |- _ ∨ _ => first [left; mem_witness|right; mem_witness]
  | |- _ ∧ _ => split; mem_witness
  | |- _ => first [reflexivity|cbn; lia|vm_compute; done]
  end.

#[export] Hint Resolve bytes_at_mapped bytes_at_bytes le_split_bytes mapped_write_bytes : mem.
