(* ===== verification/Ctype.v ===== *)
(** * Character classes

    Models newlib/libc/ctype: the class table of ctype_.c in the C locale
    (signed [char], so that the table may be indexed from -128), the
    classification functions that test one bit of it, and [toupper], [tolower]
    and [toascii]. An index outside the table faults. *)
From S2P Require Import Prelude.

(** The class bits of ctype.h. *)
Definition _U : Z := 0x01.
Definition _L : Z := 0x02.
Definition _N : Z := 0x04.
Definition _S : Z := 0x08.
Definition _P : Z := 0x10.
Definition _C : Z := 0x20.
Definition _X : Z := 0x40.
Definition _B : Z := 0x80.

(** The rows of ctype_.c, eight characters each. *)
Definition _CTYPE_DATA_0_127 : list Z :=
  [_C; _C; _C; _C; _C; _C; _C; _C;
   _C; Z.lor _C _S; Z.lor _C _S; Z.lor _C _S; Z.lor _C _S; Z.lor _C _S; _C; _C;
   _C; _C; _C; _C; _C; _C; _C; _C;
   _C; _C; _C; _C; _C; _C; _C; _C;
   Z.lor _S _B; _P; _P; _P; _P; _P; _P; _P;
   _P; _P; _P; _P; _P; _P; _P; _P;
   _N; _N; _N; _N; _N; _N; _N; _N;
   _N; _N; _P; _P; _P; _P; _P; _P;
   _P; Z.lor _U _X; Z.lor _U _X; Z.lor _U _X; Z.lor _U _X; Z.lor _U _X; Z.lor _U _X; _U;
   _U; _U; _U; _U; _U; _U; _U; _U;
   _U; _U; _U; _U; _U; _U; _U; _U;
   _U; _U; _U; _P; _P; _P; _P; _P;
   _P; Z.lor _L _X; Z.lor _L _X; Z.lor _L _X; Z.lor _L _X; Z.lor _L _X; Z.lor _L _X; _L;
   _L; _L; _L; _L; _L; _L; _L; _L;
   _L; _L; _L; _L; _L; _L; _L; _L;
   _L; _L; _L; _P; _P; _P; _P; _C].

Definition _CTYPE_DATA_128_255 : list Z := replicate 128 0.

(** The elements are [char]s. *)
Definition _ctype_b : list Z :=
  wraps 8 <$> _CTYPE_DATA_128_255 ++ _CTYPE_DATA_0_127 ++ _CTYPE_DATA_128_255.

(** [__CTYPE_PTR[c+1]], where [__CTYPE_PTR] is [_ctype_b + 127]. *)
Definition ctype_lookup (c : Z) : option Z :=
  let i := 127 + (c + 1) in
  if 0 <=? i then _ctype_b !! Z.to_nat i else None.

Definition int_of_bool (b : bool) : Z := if b then 1 else 0.

Definition isalnum (c : Z) : option Z := t ← ctype_lookup c; Some (Z.land t (Z.lor _U (Z.lor _L _N))).
Definition isalpha (c : Z) : option Z := t ← ctype_lookup c; Some (Z.land t (Z.lor _U _L)).
Definition iscntrl (c : Z) : option Z := t ← ctype_lookup c; Some (Z.land t _C).
Definition isdigit (c : Z) : option Z := t ← ctype_lookup c; Some (Z.land t _N).
Definition isgraph (c : Z) : option Z :=
  t ← ctype_lookup c; Some (Z.land t (Z.lor _P (Z.lor _U (Z.lor _L _N)))).
Definition islower (c : Z) : option Z :=
  t ← ctype_lookup c; Some (int_of_bool (Z.land t (Z.lor _U _L) =? _L)).
Definition isprint (c : Z) : option Z :=
  t ← ctype_lookup c; Some (Z.land t (Z.lor _P (Z.lor _U (Z.lor _L (Z.lor _N _B))))).
Definition ispunct (c : Z) : option Z := t ← ctype_lookup c; Some (Z.land t _P).
Definition isspace (c : Z) : option Z := t ← ctype_lookup c; Some (Z.land t _S).
Definition isupper (c : Z) : option Z :=
  t ← ctype_lookup c; Some (int_of_bool (Z.land t (Z.lor _U _L) =? _U)).
Definition isxdigit (c : Z) : option Z := t ← ctype_lookup c; Some (Z.land t (Z.lor _X _N)).
Definition isblank (c : Z) : option Z :=
  t ← ctype_lookup c; Some (int_of_bool (truth (Z.land t _B) || (c =? 9))).
Definition isascii (c : Z) : Z := int_of_bool ((0 <=? c) && (c <? 128)).
Definition toascii (c : Z) : Z := Z.land c 0x7f.

(** Without the extended character sets. *)
Definition toupper (c : Z) : option Z := l ← islower c; Some (if truth l then c - 97 + 65 else c).
Definition tolower (c : Z) : option Z := u ← isupper c; Some (if truth u then c - 65 + 97 else c).

(** ** The classes of ASCII *)

(** Between two characters. *)
Definition among (lo hi c : Z) : bool := (lo <=? c) && (c <=? hi).

Definition upper (c : Z) : bool := among 65 90 c.
Definition lower (c : Z) : bool := among 97 122 c.
Definition digit (c : Z) : bool := among 48 57 c.
Definition space (c : Z) : bool := among 9 13 c || (c =? 32).

(** [f] returns without a fault, true exactly on the class [p]. *)
Definition classifies (f : Z → option Z) (p : Z → bool) (c : Z) : Prop :=
  ∃ v, f c = Some v ∧ truth v = p c.

(** [f] maps characters as [g] does. *)
Definition maps (f : Z → option Z) (g : Z → Z) (c : Z) : Prop := f c = Some (g c).

Lemma all_chars (p : Z → bool) c :
  forallb p (seqZ (-128) 384) = true → -128 ≤ c < 256 → p c = true.
Proof.
  rewrite forallb_forall. intros Hp Hc. apply Hp, list_elem_of_In, elem_of_seqZ. lia.
Qed.

Lemma classifies_all f p c :
  forallb (λ c, match f c with Some v => eqb (truth v) (p c) | None => false end)
    (seqZ (-128) 384) = true → -128 ≤ c < 256 → classifies f p c.
Proof.
  intros Hall Hc. apply (all_chars _ c Hall) in Hc. unfold classifies.
  destruct (f c) as [v|]; [|done]. apply eqb_prop in Hc. by exists v.
Qed.

Lemma maps_all f g c :
  forallb (λ c, match f c with Some v => v =? g c | None => false end)
    (seqZ (-128) 384) = true → -128 ≤ c < 256 → maps f g c.
Proof.
  intros Hall Hc. apply (all_chars _ c Hall) in Hc. unfold maps.
  destruct (f c) as [v|]; [|done]. apply Z.eqb_eq in Hc. by subst.
Qed.

Lemma isspace_ok c : -128 ≤ c < 256 → classifies isspace space c.
Proof. apply classifies_all. vm_compute. reflexivity. Qed.

(** The class table is right. For every character the C library may be
    asked about (the 256 bytes and EOF, and the negative values of [char]) each
    classification function returns without an access outside the table, and
    its result is true exactly for its ASCII class; [toupper] and [tolower]
    exchange the letters of the two cases and nothing else. *)
Theorem ctype_classes_correct c : -128 ≤ c < 256 →
  classifies isupper upper c ∧ classifies islower lower c ∧
  classifies isdigit digit c ∧ classifies isspace space c ∧
  classifies isalpha (λ c, upper c || lower c) c ∧
  classifies isalnum (λ c, upper c || lower c || digit c) c ∧
  classifies isxdigit (λ c, digit c || among 65 70 c || among 97 102 c) c ∧
  classifies isgraph (among 33 126) c ∧ classifies isprint (among 32 126) c ∧
  classifies ispunct (λ c, among 33 126 c && negb (upper c || lower c || digit c)) c ∧
  classifies iscntrl (λ c, among 0 31 c || (c =? 127)) c ∧
  classifies isblank (λ c, (c =? 32) || (c =? 9)) c ∧
  maps toupper (λ c, if lower c then c - 32 else c) c ∧
  maps tolower (λ c, if upper c then c + 32 else c) c.
Proof.
  intros Hc. split_and!; first [apply classifies_all|apply maps_all]; try exact Hc;
    vm_compute; reflexivity.
Qed.

(** 'k', 107 *)
Lemma ctype_classes_correct_witness :
  classifies islower lower 107 ∧ maps toupper (λ c, if lower c then c - 32 else c) 107.
Proof.
  destruct (ctype_classes_correct 107 ltac:(lia)) as (_ & H1 & _ & _ & _ & _ & _ & _ & _ & _ & _ & _ & H2 & _).
  exact (conj H1 H2).
Defined.
