(* ===== verification/StrScan.v ===== *)
(** * Searching strings and memory

    Models the searching functions of src/ports/newlib/newlib/libc/string:
    [strlen], [strnlen], [memchr], [rawmemchr], [memrchr], [strchr],
    [strchrnul], [strrchr], with the macros of string/local.h they share.
    The functions are the word-at-a-time versions that are compiled unless
    PREFER_SIZE_OVER_SPEED is defined; a pointer is its address, and NULL is
    0.  The three loop shapes the sources share (advance to a word boundary,
    skip whole words, finish byte by byte) are [align_while], [word_while]
    and [byte_while]. *)

From S2P Require Import Prelude Memory.

(** ** string/local.h *)

Definition LITTLE_BLOCK_SIZE : Z := 8.
Definition BIG_BLOCK_SIZE : Z := Z.shiftl 8 2.

Definition UNALIGNED_X (x : Z) : bool := truth (Z.land x (8 - 1)).
Definition UNALIGNED_X_Y (x y : Z) : bool :=
  truth (Z.lor (Z.land x (8 - 1)) (Z.land y (8 - 1))).
Definition TOO_SMALL_LITTLE_BLOCK (len : Z) : bool := len <? LITTLE_BLOCK_SIZE.
Definition TOO_SMALL_BIG_BLOCK (len : Z) : bool := len <? BIG_BLOCK_SIZE.

(** [((X) - 0x0101010101010101) & ~(X) & 0x8080808080808080] *)
Definition DETECT_NULL (x : Z) : Z :=
  Z.land (Z.land (u64 (x - 0x0101010101010101)) (u64 (Z.lnot x))) 0x8080808080808080.

Definition DETECT_CHAR (x mask : Z) : Z := DETECT_NULL (Z.lxor x mask).

(** The loop [for (i = i0; i < sizeof (mask) * 8; i <<= 1) mask = (mask << i) | mask;] *)
Definition widen (i0 mask : Z) : option Z :=
  loop 8 (λ '(i, mask),
    if i <? 8 * 8 then continue (Z.shiftl i 1, u64 (Z.lor (Z.shiftl mask i) mask))
    else leave mask) (i0, mask).

(** [mask = d << 8 | d; mask = mask << 16 | mask; for (i = 32; ...) ...] *)
Definition fill_mask (d : Z) : option Z :=
  let mask := Z.lor (Z.shiftl d 8) d in
  let mask := u64 (Z.lor (Z.shiftl mask 16) mask) in
  widen 32 mask.

(** ** The shared loops *)

Section loops.
Context (m : mem).

(** [while (UNALIGNED_X (p)) { if (stop (p[0])) return ...; p++; }]: [inl p]
    when the loop returned at [p], [inr p] when [p] is word-aligned. *)
Definition align_while (stop : Z → bool) (p : Z) : option (Z + Z) :=
  loop (fuel m) (λ p,
    if UNALIGNED_X p then
      b ← load8 m p;
      if stop b then leave (inl p) else continue (p + 1)
    else leave (inr p)) p.

(** [while (!stop (p[0])) p++;] for a pointer to words. *)
Definition word_while (stop : Z → bool) (p : Z) : option Z :=
  loop (fuel m) (λ p,
    w ← load64 m p;
    if stop w then leave p else continue (p + 8)) p.

(** [while (!stop (p[0])) p++;] for a pointer to bytes. *)
Definition byte_while (stop : Z → bool) (p : Z) : option Z :=
  loop (fuel m) (λ p,
    b ← load8 m p;
    if stop b then leave p else continue (p + 1)) p.
End loops.

(** ** The functions *)

Definition strlen (m : mem) (str : Z) : option Z :=
  let start := str in
  r ← align_while m (λ b, b =? 0) str;
  match r with
  | inl str => Some (str - start)
  | inr str =>
      aligned_addr ← word_while m (λ w, truth (DETECT_NULL w)) str;
      str ← byte_while m (λ b, b =? 0) aligned_addr;
      Some (str - start)
  end.

Definition strnlen (m : mem) (str n : Z) : option Z :=
  let start := str in
  loop (S (Z.to_nat n)) (λ '(str, n),
    if n =? 0 then leave (str - start)
    else
      b ← load8 m str;
      if b =? 0 then leave (str - start) else continue (str + 1, n - 1)) (str, n).

Definition strchr (m : mem) (s1 i : Z) : option Z :=
  let c := u8 i in
  if c =? 0 then
    r ← align_while m (λ b, b =? 0) s1;
    match r with
    | inl s => Some s
    | inr s =>
        aligned_addr ← word_while m (λ w, truth (DETECT_NULL w)) s;
        s ← byte_while m (λ b, b =? 0) aligned_addr;
        Some s
    end
  else
    r ← align_while m (λ b, (b =? 0) || (b =? c)) s1;
    match r with
    | inl s => b ← load8 m s; if b =? 0 then Some 0 else Some s
    | inr s =>
        mask ← widen 8 c;
        aligned_addr ←
          word_while m (λ w, truth (DETECT_NULL w) || truth (DETECT_CHAR w mask)) s;
        s ← byte_while m (λ b, (b =? 0) || (b =? c)) aligned_addr;
        b ← load8 m s;
        if b =? c then Some s else Some 0
    end.

(** [strchr (s1, i)], or the end of the string when that is NULL. *)
Definition strchrnul (m : mem) (s1 i : Z) : option Z :=
  s ← strchr m s1 i;
  if truth s then Some s else
    n ← strlen m s1; Some (s1 + n).

Definition strrchr (m : mem) (s i : Z) : option Z :=
  let c := u8 i in
  if truth c then
    loop (fuel m) (λ '(s, last),
      s ← strchr m s c;
      if truth s then continue (s + 1, s) else leave last) (s, 0)
  else strchr m s c.

Definition rawmemchr (m : mem) (src c : Z) : option Z :=
  let d := u8 c in
  r ← align_while m (λ b, b =? d) src;
  match r with
  | inl src => Some src
  | inr src =>
      mask ← fill_mask d;
      asrc ← word_while m (λ w, truth (DETECT_CHAR w mask)) src;
      src ← byte_while m (λ b, b =? d) asrc;
      Some src
  end.

Definition memchr (m : mem) (src c length : Z) : option Z :=
  let d := u8 c in
  r ← loop (S (Z.to_nat length)) (λ '(src, length),
    if UNALIGNED_X src then
      if length =? 0 then leave (inl 0)
      else
        b ← load8 m src;
        if b =? d then leave (inl src) else continue (src + 1, length - 1)
    else leave (inr (src, length))) (src, length);
  match r with
  | inl p => Some p
  | inr (src, length) =>
      '(src, length) ←
        (if TOO_SMALL_LITTLE_BLOCK length then Some (src, length)
         else
           mask ← fill_mask d;
           loop (S (Z.to_nat length)) (λ '(asrc, length),
             if TOO_SMALL_LITTLE_BLOCK length then leave (asrc, length)
             else
               w ← load64 m asrc;
               if truth (DETECT_CHAR w mask) then leave (asrc, length)
               else continue (asrc + 8, length - LITTLE_BLOCK_SIZE)) (src, length));
      loop (S (Z.to_nat length)) (λ '(src, length),
        if length =? 0 then leave 0
        else
          b ← load8 m src;
          if b =? d then leave src else continue (src + 1, length - 1)) (src, length)
  end.

(** The source scans downwards from the last byte; its word pointer is
    [src - LITTLE_BLOCK_SIZE + 1].  [ldw] is the load of a [long]: [load64] on
    a machine that faults on a misaligned access, [load64u] on one that
    does not (_HAVE_HW_MISALIGNED_ACCESS). *)
Definition memrchr (ldw : mem → Z → option Z) (m : mem) (src_void c length : Z) : option Z :=
  let src := src_void + length - 1 in
  let d := u8 c in
  r ← loop (S (Z.to_nat length)) (λ '(src, length),
    if UNALIGNED_X src then
      if length =? 0 then leave (inl 0)
      else
        b ← load8 m src;
        if b =? d then leave (inl src) else continue (src - 1, length - 1)
    else leave (inr (src, length))) (src, length);
  match r with
  | inl p => Some p
  | inr (src, length) =>
      '(src, length) ←
        (if TOO_SMALL_LITTLE_BLOCK length then Some (src, length)
         else
           mask ← fill_mask d;
           '(asrc, length) ←
             loop (S (Z.to_nat length)) (λ '(asrc, length),
               if TOO_SMALL_LITTLE_BLOCK length then leave (asrc, length)
               else
                 w ← ldw m asrc;
                 if truth (DETECT_CHAR w mask) then leave (asrc, length)
                 else continue (asrc - 8, length - LITTLE_BLOCK_SIZE))
               (src - LITTLE_BLOCK_SIZE + 1, length);
           Some (asrc + LITTLE_BLOCK_SIZE - 1, length));
      loop (S (Z.to_nat length)) (λ '(src, length),
        if length =? 0 then leave 0
        else
          b ← load8 m src;
          if b =? d then leave src else continue (src - 1, length - 1)) (src, length)
  end.

#[global] Arguments DETECT_NULL : simpl never.
#[global] Arguments DETECT_CHAR : simpl never.
#[global] Arguments fill_mask : simpl never.
#[global] Arguments widen : simpl never.

(** ** The macros *)

Lemma UNALIGNED_X_spec x : UNALIGNED_X x = negb (x mod 8 =? 0).
Proof. unfold UNALIGNED_X, truth. by rewrite (land_low_mask 3). Qed.

Lemma UNALIGNED_X_false x : UNALIGNED_X x = false ↔ x mod 8 = 0.
Proof. rewrite UNALIGNED_X_spec, negb_false_iff, Z.eqb_eq. done. Qed.

Lemma UNALIGNED_X_Y_false x y :
  UNALIGNED_X_Y x y = false ↔ x mod 8 = 0 ∧ y mod 8 = 0.
Proof.
  unfold UNALIGNED_X_Y. rewrite truth_false, Z.lor_eq_0_iff.
  by rewrite !(land_low_mask 3).
Qed.

(** *** [DETECT_NULL] finds a NUL byte

    The test for words of any number of bytes; the macro is its 8-byte
    case. *)
Section detect_null.
Definition rep (n : nat) (b : Z) : Z := le_combine (replicate n b).
Definition detect (n : nat) (x : Z) : Z :=
  Z.land (Z.land ((x - rep n 1) mod 2 ^ (8 * Z.of_nat n))
                 (Z.lnot x mod 2 ^ (8 * Z.of_nat n))) (rep n 128).

Lemma low_byte_test b : 1 ≤ b < 256 → Z.land (Z.land (b - 1) (255 - b)) 128 = 0.
Proof.
  intros Hb.
  assert (Forall (λ b, Z.land (Z.land (b - 1) (255 - b)) 128 = 0) (seqZ 1 255)) as H.
  { apply (bool_decide_unpack _). by vm_compute. }
  rewrite Forall_seqZ in H. apply H. lia.
Qed.

(** One byte of the subtraction: the part above it, with its borrow. *)
Lemma mod_split_byte n lo hi : 0 ≤ lo < 2 ^ 8 →
  (lo + 2 ^ 8 * hi) mod 2 ^ (8 * Z.of_nat (S n)) = lo + 2 ^ 8 * (hi mod 2 ^ (8 * Z.of_nat n)).
Proof.
  intros Hlo. replace (8 * Z.of_nat (S n)) with (8 + 8 * Z.of_nat n) by lia.
  rewrite Z.pow_add_r, Z.rem_mul_r by lia.
  rewrite (Z.mul_comm _ hi), Z_mod_plus_full, Z.div_add by lia.
  by rewrite (Z.mod_small lo), (Z.div_small lo) by lia.
Qed.

Lemma detect_cons n b x : 1 ≤ b < 256 → detect (S n) (b + 2 ^ 8 * x) = 2 ^ 8 * detect n x.
Proof.
  intros Hb. unfold detect, rep. cbn [replicate le_combine]. fold (rep n 1) (rep n 128).
  replace (b + 2 ^ 8 * x - (1 + 2 ^ 8 * rep n 1)) with (b - 1 + 2 ^ 8 * (x - rep n 1)) by ring.
  replace (Z.lnot (b + 2 ^ 8 * x)) with (255 - b + 2 ^ 8 * Z.lnot x)
    by (unfold Z.lnot; lia).
  rewrite !mod_split_byte, !land_split by (try apply land_bound; lia).
  by rewrite low_byte_test.
Qed.

Lemma detect_zero n x : detect (S n) (0 + 2 ^ 8 * x) ≠ 0.
Proof.
  unfold detect, rep. cbn [replicate le_combine]. fold (rep n 1) (rep n 128).
  replace (0 + 2 ^ 8 * x - (1 + 2 ^ 8 * rep n 1))
    with (255 + 2 ^ 8 * (x - rep n 1 - 1)) by ring.
  replace (Z.lnot (0 + 2 ^ 8 * x)) with (255 + 2 ^ 8 * Z.lnot x) by (unfold Z.lnot; lia).
  rewrite !mod_split_byte, land_split by lia. change (Z.land 255 255) with 255.
  rewrite land_split by lia. change (Z.land 255 128) with 128.
  match goal with |- 128 + _ * ?y ≠ 0 => generalize y end. lia.
Qed.

Lemma detect_spec l : Forall is_byte l →
  truth (detect (length l) (le_combine l)) = existsb (λ b, b =? 0) l.
Proof.
  induction 1 as [|b l Hb Hl IH]; [done|]. cbn [le_combine existsb length].
  destruct (Z.eqb_spec b 0) as [->|]; simpl orb.
  - apply truth_true, detect_zero.
  - unfold is_byte in Hb. rewrite detect_cons by lia. rewrite <- IH.
    unfold truth. f_equal. apply eq_true_iff_eq. rewrite !Z.eqb_eq. lia.
Qed.
End detect_null.

Lemma DETECT_NULL_spec l : length l = 8%nat → Forall is_byte l →
  truth (DETECT_NULL (le_combine l)) = existsb (λ b, b =? 0) l.
Proof. intros Hl Hb. rewrite <- (detect_spec l Hb), Hl. done. Qed.

(** *** [DETECT_CHAR] finds the byte its mask repeats *)

Lemma lxor_combine l c : Forall is_byte l → is_byte c →
  Z.lxor (le_combine l) (rep (length l) c) = le_combine ((λ b, Z.lxor b c) <$> l).
Proof.
  intros Hl Hc. induction Hl as [|b l Hb Hl IH]; [done|].
  unfold rep in *. cbn [length replicate le_combine fmap list_fmap].
  rewrite lxor_split by (done || lia). by rewrite IH.
Qed.

Lemma lxor_zero b c : (Z.lxor b c =? 0) = (b =? c).
Proof. apply eq_true_iff_eq. rewrite !Z.eqb_eq. apply Z.lxor_eq_0_iff. Qed.

Lemma DETECT_CHAR_spec l c : length l = 8%nat → Forall is_byte l → is_byte c →
  truth (DETECT_CHAR (le_combine l) (rep 8 c)) = existsb (λ b, b =? c) l.
Proof.
  intros Hl Hb Hc. unfold DETECT_CHAR. rewrite <- Hl, lxor_combine by done.
  rewrite DETECT_NULL_spec.
  - induction l as [|b l IH] in |- *; [done|]. cbn. by rewrite lxor_zero, IH.
  - by rewrite length_fmap.
  - apply Forall_fmap. eapply Forall_impl; [exact Hb|]. intros b H.
    by apply (lxor_bound 8).
Qed.

(** The mask loops repeat a byte over the whole word. *)
Lemma all_bytes (P : Z → Prop) `{∀ b, Decision (P b)} :
  forallb (λ b, bool_decide (P b)) (seqZ 0 256) = true → ∀ b, is_byte b → P b.
Proof.
  intros Hall b Hb. rewrite forallb_forall in Hall.
  apply (bool_decide_unpack _), Is_true_true, Hall, list_elem_of_In, elem_of_seqZ.
  unfold is_byte in Hb. lia.
Qed.

Lemma fill_mask_spec d : is_byte d → fill_mask d = Some (rep 8 d).
Proof. apply (all_bytes (λ d, fill_mask d = Some (rep 8 d))). by vm_compute. Qed.

Lemma widen_spec c : is_byte c → widen 8 c = Some (rep 8 c).
Proof. apply (all_bytes (λ c, widen 8 c = Some (rep 8 c))). by vm_compute. Qed.

(** ** Scanning a terminated run of bytes

    [run m a s e stop]: from [a] on, memory holds the bytes [s], none of
    which stops the scan, and then the byte [e], which does. *)
Record run (m : mem) (a : Z) (s : list Z) (e : Z) (stop : Z → bool) : Prop := {
  run_at : bytes_at m a (s ++ [e]);
  run_go : Forall (λ b, stop b = false) s;
  run_stop : stop e = true
}.

Lemma cstring_run m a s : cstring m a s → run m a s 0 (λ b, b =? 0).
Proof.
  intros [Hat Hs]. split; [done| |done].
  eapply Forall_impl; [exact Hs|]. intros b Hb. by apply Z.eqb_neq.
Qed.

Lemma run_step m a s e stop k :
  run m a s e stop → 0 ≤ k ≤ Z.of_nat (length s) →
  ∃ b, load8 m (a + k) = Some b ∧
    (k = Z.of_nat (length s) ∧ b = e ∧ stop b = true ∨
     k < Z.of_nat (length s) ∧ stop b = false).
Proof.
  intros [Hat Hgo Hstop] Hk. rewrite bytes_at_spec in Hat.
  destruct (decide (k = Z.of_nat (length s))) as [->|].
  - exists e. rewrite (Hat (length s) e) by apply lookup_app_mid. auto.
  - destruct (lookup_lt_is_Some_2 s (Z.to_nat k)) as [b Hb]; [lia|].
    exists b. split.
    + rewrite <- (Hat (Z.to_nat k) b); [f_equal; lia|]. by apply lookup_app_l_Some.
    + right. split; [lia|]. rewrite Forall_lookup in Hgo. eauto.
Qed.

Lemma run_fuel m a s e stop :
  run m a s e stop → Z.of_nat (length s) + 1 < Z.of_nat (fuel m).
Proof. intros [H%bytes_at_fuel _ _]. rewrite length_app in H. simpl in H. lia. Qed.

Section run.
Context (m : mem) (a : Z) (s : list Z) (e : Z) (stop : Z → bool)
  (Hrun : run m a s e stop).
Let n := Z.of_nat (length s).

Lemma byte_while_run k : 0 ≤ k ≤ n → byte_while m stop (a + k) = Some (a + n).
Proof using Hrun.
  intros Hk. pose proof (run_fuel _ _ _ _ _ Hrun).
  apply (loop_inv_eq (λ p, ∃ j, p = a + j ∧ 0 ≤ j ≤ n) _ (λ p, a + n - p));
    [|eauto|subst n; lia].
  intros p (j & -> & Hj). split; [lia|].
  destruct (run_step _ _ _ _ _ j Hrun Hj) as (b & -> & Hc); simpl;
      destruct Hc as [(-> & -> & ->)|(Hlt & ->)].
  - done.
  - split; [|lia]. exists (j + 1). fold n in Hlt. lia.
Qed.

Lemma align_while_run k : 0 ≤ k ≤ n → ∃ r, align_while m stop (a + k) = Some r ∧
  (r = inl (a + n) ∨ ∃ j, r = inr (a + j) ∧ 0 ≤ j ≤ n ∧ (a + j) mod 8 = 0).
Proof using Hrun.
  intros Hk. pose proof (run_fuel _ _ _ _ _ Hrun).
  apply (loop_inv (λ p, ∃ j, p = a + j ∧ 0 ≤ j ≤ n) _ (λ p, a + n - p));
    [|eauto|subst n; lia].
  intros p (j & -> & Hj). split; [lia|].
  destruct (UNALIGNED_X (a + j)) eqn:Hu.
  - destruct (run_step _ _ _ _ _ j Hrun Hj) as (b & -> & Hc); simpl;
      destruct Hc as [(-> & -> & ->)|(Hlt & ->)].
    + by left.
    + split; [|lia]. exists (j + 1). fold n in Hlt. lia.
  - apply UNALIGNED_X_false in Hu. right. eauto.
Qed.

(** The word scan never skips the byte that stops the byte scan. *)
Lemma word_while_run (stopw : Z → bool) k :
  word_mapped m → 0 ≤ k ≤ n → (a + k) mod 8 = 0 →
  (∀ l, length l = 8%nat → Forall is_byte l → stopw (le_combine l) = existsb stop l) →
  ∃ j, word_while m stopw (a + k) = Some (a + j) ∧ 0 ≤ j ≤ n ∧ (a + j) mod 8 = 0.
Proof using Hrun.
  intros Hw Hk Hak Hsw. pose proof (run_fuel _ _ _ _ _ Hrun) as Hf.
  destruct (loop_inv (λ p, ∃ j, p = a + j ∧ 0 ≤ j ≤ n ∧ (a + j) mod 8 = 0)
     (λ p, ∃ j, p = a + j ∧ 0 ≤ j ≤ n ∧ (a + j) mod 8 = 0) (λ p, a + n - p)
     (λ p, w ← load64 m p; if stopw w then leave p else continue (p + 8))
     (fuel m) (a + k)) as (p & Hp & j & -> & Hj); [|eauto|subst n; lia|by eauto].
  intros p (j & -> & Hj & Ha). split; [lia|].
  destruct (run_step _ _ _ _ _ j Hrun Hj) as (b & Hb & _).
  destruct (load64_word_mapped m (a + j) (a + j)) as (l & Hl & Hat & ->); [done..|lia| |].
  { apply load8_is_Some. eauto. }
  simpl. rewrite Hsw by eauto using bytes_at_bytes.
  destruct (existsb stop l) eqn:He; [by eauto|].
  split; [|lia]. exists (j + 8). split; [lia|]. split; [|Z.div_mod_to_equations; lia].
  (* a stopping byte within this word would have been seen *)
  destruct (decide (j + 8 ≤ n)); [lia|]. exfalso.
  destruct (run_step _ _ _ _ _ n Hrun ltac:(lia)) as (c & Hc & [(_ & -> & Hstop)|(? & _)]);
    [|subst n; lia].
  destruct (lookup_lt_is_Some_2 l (Z.to_nat (n - j))) as [d Hd]; [lia|].
  pose proof (bytes_at_lookup _ _ _ _ _ Hat Hd) as Hd'.
  replace (a + j + Z.of_nat (Z.to_nat (n - j))) with (a + n) in Hd' by lia.
  rewrite Hc in Hd'. injection Hd' as <-.
  rewrite <- not_true_iff_false, existsb_exists in He. apply He.
  exists e. split; [|done]. by eapply list_elem_of_In, list_elem_of_lookup_2.
Qed.

(** All three phases. *)
Lemma scan_run (stopw : Z → bool) {R} (f g : Z → option R) :
  word_mapped m →
  (∀ l, length l = 8%nat → Forall is_byte l → stopw (le_combine l) = existsb stop l) →
  f (a + n) = g (a + n) →
  (r ← align_while m stop a;
   match r with
   | inl p => f p
   | inr p => p ← word_while m stopw p; p ← byte_while m stop p; g p
   end) = g (a + n).
Proof using Hrun.
  intros Hw Hsw Hfg. destruct (align_while_run 0) as (r & Hr & Hcase); [lia|].
  rewrite Z.add_0_r in Hr. rewrite Hr. simpl. destruct Hcase as [->|(j & -> & Hj & Ha)]; [done|].
  destruct (word_while_run stopw j) as (i & -> & Hi & _); [done..|].
  simpl. by rewrite byte_while_run.
Qed.
End run.

(** ** Correctness of the searches *)

Lemma strlen_eq m a s :
  word_mapped m → cstring m a s → strlen m a = Some (Z.of_nat (length s)).
Proof.
  intros Hw Hs%cstring_run. unfold strlen.
  rewrite (scan_run _ _ _ _ _ Hs (λ w, truth (DETECT_NULL w))
    (λ p, Some (p - a)) (λ p, Some (p - a))); [f_equal; lia|done| |done].
  apply DETECT_NULL_spec.
Qed.

(** *** The position of a byte in a list *)

Definition find_byte (c : Z) (l : list Z) : option nat := fst <$> list_find (λ b, b = c) l.

(** The address of the first [c] in the bytes [l] at [a], or NULL. *)
Definition find_ptr (a c : Z) (l : list Z) : Z :=
  match find_byte c l with Some k => a + Z.of_nat k | None => 0 end.

Lemma find_byte_Some c l k : find_byte c l = Some k ↔ l !! k = Some c ∧ c ∉ take k l.
Proof.
  unfold find_byte. rewrite fmap_Some. split.
  - intros ([i b] & (Hi & -> & Hlt)%list_find_Some & ->). split; [done|]. simpl.
    intros (j & Hj)%list_elem_of_lookup. apply lookup_take_Some in Hj as [Hj ?]. naive_solver.
  - intros [Hk Hn]. exists (k, c). split; [|done]. apply list_find_Some. split_and!; [done..|].
    intros j b Hj Hlt ->. apply Hn, list_elem_of_lookup. exists j. by apply lookup_take_Some.
Qed.

Lemma find_byte_None c l : find_byte c l = None ↔ c ∉ l.
Proof.
  unfold find_byte. rewrite fmap_None, list_find_None, Forall_forall.
  split; [naive_solver|]. intros Hc b Hb ->. done.
Qed.

Lemma find_byte_app_l c l k i : find_byte c l = Some i → find_byte c (l ++ k) = Some i.
Proof.
  rewrite !find_byte_Some. intros [Hi Hn]. pose proof (lookup_lt_Some _ _ _ Hi).
  split; [by apply lookup_app_l_Some|]. by rewrite take_app_le by lia.
Qed.

Lemma find_byte_app_r c l k :
  c ∉ l → find_byte c (l ++ k) = (λ i, length l + i)%nat <$> find_byte c k.
Proof.
  intros Hl. destruct (find_byte c k) as [i|] eqn:Hi; simpl.
  - apply find_byte_Some in Hi as [Hi Hn]. apply find_byte_Some. split.
    + rewrite lookup_app_r by lia. rewrite <- Hi. f_equal. lia.
    + rewrite take_app_add. rewrite elem_of_app. tauto.
  - apply find_byte_None in Hi. apply find_byte_None. rewrite elem_of_app. tauto.
Qed.

(** A hit splits the list. *)
Lemma find_byte_split c l k :
  find_byte c l = Some k → l = take k l ++ (c :: drop (S k) l) ∧ (c ∉ take k l) ∧ (k < length l)%nat.
Proof.
  intros [Hk Hn]%find_byte_Some. split_and!; [|done|by eapply lookup_lt_Some].
  by rewrite <- drop_S, take_drop.
Qed.

Lemma existsb_orb {A} (f g : A → bool) l :
  existsb (λ b, f b || g b) l = existsb f l || existsb g l.
Proof. induction l as [|b l IH]; simpl; [done|]. rewrite IH. by btauto. Qed.

(** *** [strchr] and its users *)

Lemma strchr_run_found m a s1 c s2 :
  bytes_at m a (s1 ++ c :: s2) → Forall (λ b, b ≠ 0) s1 → c ∉ s1 →
  run m a s1 c (λ b, (b =? 0) || (b =? c)).
Proof.
  intros Hat H0 Hc. split.
  - rewrite cons_middle, app_assoc in Hat. by apply bytes_at_app in Hat as [? _].
  - apply Forall_forall. intros b Hb. rewrite Forall_forall in H0.
    apply orb_false_iff. rewrite !Z.eqb_neq. split; [by apply H0|]. by intros ->.
  - rewrite Z.eqb_refl. apply orb_true_r.
Qed.

Lemma strchr_nonzero_run m a s e c :
  word_mapped m → c ≠ 0 → is_byte c → run m a s e (λ b, (b =? 0) || (b =? c)) →
  strchr m a c = Some (if e =? c then a + Z.of_nat (length s) else 0).
Proof.
  intros Hw Hc Hcb Hrun. unfold strchr.
  rewrite u8_small, (proj2 (Z.eqb_neq _ _) Hc), widen_spec by done. simpl.
  assert (load8 m (a + Z.of_nat (length s)) = Some e) as He.
  { apply (bytes_at_lookup _ _ _ _ _ (run_at _ _ _ _ _ Hrun)), lookup_app_mid. }
  pose proof (run_stop _ _ _ _ _ Hrun) as Hst.
  rewrite (scan_run _ _ _ _ _ Hrun
    (λ w, truth (DETECT_NULL w) || truth (DETECT_CHAR w (rep 8 c)))
    (λ s, b ← load8 m s; if b =? 0 then Some 0 else Some s)
    (λ s, b ← load8 m s; if b =? c then Some s else Some 0)); [|done| |].
  - rewrite He. simpl. by destruct (e =? c).
  - intros l Hl Hb. by rewrite existsb_orb, DETECT_NULL_spec, DETECT_CHAR_spec.
  - rewrite He. simpl. destruct (Z.eqb_spec e 0) as [->|]; simpl in *.
    + by destruct c.
    + apply orb_true_iff in Hst as [?%Z.eqb_eq | ->]; done.
Qed.

Lemma strchr_u8 m a i : strchr m a (u8 i) = strchr m a i.
Proof. unfold strchr. by rewrite wrapu_wrapu. Qed.

Lemma strchr_eq m a s i :
  word_mapped m → cstring m a s → strchr m a i = Some (find_ptr a (u8 i) (s ++ [0])).
Proof.
  intros Hw Hs. rewrite <- strchr_u8. pose proof (u8_range i) as Hc.
  generalize dependent (u8 i). intros c Hc. unfold find_ptr.
  destruct (decide (c = 0)) as [->|Hc0].
  - pose proof (cstring_run _ _ _ Hs) as Hrun. unfold strchr. simpl (u8 0 =? 0).
    rewrite (scan_run _ _ _ _ _ Hrun (λ w, truth (DETECT_NULL w)) Some Some);
      [|done|apply DETECT_NULL_spec|done].
    rewrite find_byte_app_r; [simpl; do 2 f_equal; lia|].
    destruct Hs as [_ H0]. rewrite Forall_forall in H0. intros Hin. by apply (H0 0).
  - destruct (find_byte c s) as [k|] eqn:Hk.
    + destruct (find_byte_split _ _ _ Hk) as (Hsplit & Hn & Hlt).
      rewrite (find_byte_app_l _ _ _ _ Hk). destruct Hs as [Hat H0].
      rewrite (strchr_nonzero_run m a (take k s) c c); [|done..|].
      * rewrite Z.eqb_refl, length_take. do 2 f_equal. lia.
      * apply (strchr_run_found _ _ _ _ (drop (S k) s ++ [0])); [|by apply Forall_take|done].
        by rewrite app_comm_cons, app_assoc, <- Hsplit.
    + apply find_byte_None in Hk.
      rewrite find_byte_app_r by done. destruct Hs as [Hat H0].
      rewrite (strchr_nonzero_run m a s 0 c); [|done..|].
      * rewrite (proj2 (Z.eqb_neq _ _)) by congruence.
        unfold find_byte. simpl. by rewrite decide_False by congruence.
      * split; [done| |done]. apply Forall_forall. intros b Hb. rewrite Forall_forall in H0.
        apply orb_false_iff. rewrite !Z.eqb_neq. split; [by apply H0|]. by intros ->.
Qed.

Lemma strnlen_eq m a s n :
  0 ≤ n → cstring m a s → strnlen m a n = Some (Z.min n (Z.of_nat (length s))).
Proof.
  intros Hn Hs. unfold strnlen.
  apply (loop_inv_eq
    (λ '(p, r), ∃ k, p = a + k ∧ r = n - k ∧ 0 ≤ k ≤ Z.min n (Z.of_nat (length s)))
    _ (λ '(_, r), r)); [|exists 0; lia|lia].
  intros [p r] (k & -> & -> & Hk). split; [lia|].
  destruct (Z.eqb_spec (n - k) 0); [lia|].
  destruct (cstring_step _ _ _ k Hs) as (b & -> & _ & [(-> & ->)|(Hb & Hlt & _)]); [lia|..]; simpl.
  - lia.
  - rewrite (proj2 (Z.eqb_neq _ _) Hb). split; [|lia]. exists (k + 1). lia.
Qed.

Lemma rawmemchr_eq m a s d t :
  word_mapped m → is_byte d → bytes_at m a (s ++ d :: t) → d ∉ s →
  rawmemchr m a d = Some (a + Z.of_nat (length s)).
Proof.
  intros Hw Hd Hat Hn. unfold rawmemchr. rewrite u8_small, fill_mask_spec by done. simpl.
  assert (run m a s d (λ b, b =? d)) as Hrun.
  { split; [|apply Forall_forall|apply Z.eqb_refl].
    - rewrite cons_middle, app_assoc in Hat. by apply bytes_at_app in Hat as [? _].
    - intros b Hb. apply Z.eqb_neq. by intros ->. }
  rewrite (scan_run _ _ _ _ _ Hrun (λ w, truth (DETECT_CHAR w (rep 8 d))) Some Some); [done..| |done].
  intros l Hl Hb. by apply DETECT_CHAR_spec.
Qed.

Lemma find_ptr_nul a c s : 0 < a → truth (find_ptr a c (s ++ [0])) = bool_decide (c ∈ s ++ [0]).
Proof.
  intros Ha. unfold find_ptr. destruct (find_byte _ _) as [k|] eqn:Hk.
  - apply find_byte_Some in Hk as [Hk _]. rewrite bool_decide_true by by eapply list_elem_of_lookup_2.
    apply truth_true. lia.
  - apply find_byte_None in Hk. by rewrite bool_decide_false.
Qed.

Lemma strchrnul_eq m a s i :
  word_mapped m → 0 < a → cstring m a s →
  strchrnul m a i = Some (match find_byte (u8 i) s with
                          | Some k => a + Z.of_nat k
                          | None => a + Z.of_nat (length s)
                          end).
Proof.
  intros Hw Ha Hs. unfold strchrnul. rewrite (strchr_eq _ _ _ _ Hw Hs). simpl.
  rewrite find_ptr_nul by done. rewrite (strlen_eq _ _ _ Hw Hs). simpl.
  unfold find_ptr. destruct (find_byte (u8 i) s) as [k|] eqn:Hk.
  - rewrite (find_byte_app_l _ _ _ _ Hk). apply find_byte_Some in Hk as [Hk _].
    rewrite bool_decide_true; [done|]. apply elem_of_app. left. by eapply list_elem_of_lookup_2.
  - apply find_byte_None in Hk. rewrite find_byte_app_r by done.
    case_bool_decide as Hin; [|done].
    apply elem_of_app in Hin as [?|Hin]; [done|]. apply list_elem_of_singleton in Hin as ->.
    simpl. do 2 f_equal. lia.
Qed.

(** [r] is the address of the last [c] among the bytes [s] at [a], or NULL. *)
Definition is_last (a c : Z) (s : list Z) (r : Z) : Prop :=
  r = 0 ∧ c ∉ s ∨
  ∃ j, r = a + Z.of_nat j ∧ s !! j = Some c ∧ c ∉ drop (S j) s.

Lemma is_last_step a c s k j r :
  is_last a c (take k s) r → find_byte c (drop k s) = Some j →
  is_last a c (take (S (k + j)) s) (a + Z.of_nat (k + j)).
Proof.
  intros _ [Hj Hn]%find_byte_Some. rewrite lookup_drop in Hj. right.
  exists (k + j)%nat. split_and!; [done| |].
  - by rewrite lookup_take_lt by lia.
  - rewrite drop_ge; [apply not_elem_of_nil|]. rewrite length_take. lia.
Qed.

Lemma is_last_end a c s k r :
  is_last a c (take k s) r → c ∉ drop k s → (k ≤ length s)%nat → is_last a c s r.
Proof.
  intros [[-> Hn]|(j & -> & Hj & Hn)] Hd Hk.
  - left. split; [done|]. rewrite <- (take_drop k s), elem_of_app. tauto.
  - right. exists j. apply lookup_take_Some in Hj as [Hj ?]. split_and!; [done..|].
    rewrite <- (take_drop k s), drop_app_le, elem_of_app by (rewrite length_take; lia).
    tauto.
Qed.

Lemma strrchr_eq m a s i :
  word_mapped m → 0 < a → cstring m a s → u8 i ≠ 0 →
  ∃ r, strrchr m a i = Some r ∧ is_last a (u8 i) s r.
Proof.
  intros Hw Ha Hs Hi. pose proof (u8_range i). unfold strrchr.
  rewrite (proj2 (truth_true _) Hi). pose proof (cstring_fuel _ _ _ Hs).
  set (c := u8 i) in *. cbv zeta.
  apply (loop_inv (λ '(p, last), ∃ k : nat, p = a + Z.of_nat k ∧ (k ≤ length s)%nat ∧
      is_last a c (take k s) last)
    _ (λ '(p, _), a + Z.of_nat (length s) - p)).
  - intros [p last] (k & -> & Hk & Hlast). split; [lia|].
    rewrite (strchr_eq _ _ _ _ Hw (cstring_drop _ _ _ _ Hs Hk)). simpl.
    rewrite find_ptr_nul by lia. unfold find_ptr. rewrite u8_small by done.
    destruct (find_byte c (drop k s)) as [j|] eqn:Hj.
    + rewrite (find_byte_app_l _ _ _ _ Hj).
      pose proof (find_byte_split _ _ _ Hj) as (_ & _ & Hlt). rewrite length_drop in Hlt.
      rewrite bool_decide_true
        by (apply elem_of_app; left; apply find_byte_Some in Hj as [? _];
            by eapply list_elem_of_lookup_2).
      split; [|lia]. exists (S (k + j)). split_and!; [lia..|].
      replace (a + Z.of_nat k + Z.of_nat j) with (a + Z.of_nat (k + j)) by lia.
      by eapply is_last_step.
    + apply find_byte_None in Hj. rewrite bool_decide_false.
      * by eapply is_last_end.
      * rewrite elem_of_app, list_elem_of_singleton. tauto.
  - exists 0%nat. split_and!; [lia..|]. left. split; [done|apply not_elem_of_nil].
  - lia.
Qed.

(** *** Bounded searches *)

Lemma not_elem_of_take_S {A} (x y : A) l k :
  l !! k = Some y → x ≠ y → x ∉ take k l → x ∉ take (S k) l.
Proof.
  intros Hy Hne Hn. rewrite (take_S_r _ _ _ Hy), elem_of_app, list_elem_of_singleton. tauto.
Qed.

Lemma not_existsb_eqb c l : existsb (λ b, b =? c) l = false → c ∉ l.
Proof.
  rewrite <- not_true_iff_false, existsb_exists. intros Hn Hin. apply Hn.
  exists c. rewrite <- list_elem_of_In. by rewrite Z.eqb_refl.
Qed.

(** Reading the 8 bytes at offset [k] of a stored list. *)
Lemma bytes_at_chunk m a l k n :
  bytes_at m a l → (k + n ≤ length l)%nat →
  bytes_at m (a + Z.of_nat k) (take n (drop k l)) ∧ length (take n (drop k l)) = n.
Proof.
  intros Hat Hk. split; [|rewrite length_take, length_drop; lia].
  rewrite <- (take_drop k l) in Hat. apply bytes_at_app in Hat as [_ Hat].
  rewrite length_take, Nat.min_l in Hat by lia.
  rewrite <- (take_drop n (drop k l)) in Hat. by apply bytes_at_app in Hat as [? _].
Qed.

Section bounded.
Context (m : mem) (a d : Z) (l : list Z) (Hat : bytes_at m a l) (Hd : is_byte d).
Let n := Z.of_nat (length l).

Definition unseen (st : Z * Z) : Prop :=
  ∃ k : nat, st = (a + Z.of_nat k, n - Z.of_nat k) ∧ (k ≤ length l)%nat ∧ d ∉ take k l.

Lemma unseen_byte p r : unseen (p, r) → r ≠ 0 → ∃ b, load8 m p = Some b ∧
  if b =? d then find_ptr a d l = p else unseen (p + 1, r - 1).
Proof using Hat.
  intros (k & [= -> ->] & Hk & Hn) Hr.
  destruct (lookup_lt_is_Some_2 l k) as [b Hb]; [lia|].
  exists b. split; [by apply (bytes_at_lookup _ _ _ _ _ Hat)|].
  destruct (Z.eqb_spec b d) as [->|].
  - unfold find_ptr. by rewrite (proj2 (find_byte_Some d l k)).
  - exists (S k). split_and!; [f_equal; lia|lia|]. by eapply not_elem_of_take_S.
Qed.

Lemma unseen_word p r : unseen (p, r) → 8 ≤ r → p mod 8 = 0 →
  ∃ w, load64 m p = Some w ∧
    (truth (DETECT_CHAR w (rep 8 d)) = false → unseen (p + 8, r - 8)).
Proof using Hat Hd.
  intros (k & [= -> ->] & Hk & Hn) Hr Hp.
  destruct (bytes_at_chunk m a l k 8 Hat) as [Hc Hl]; [lia|].
  eexists. split; [by apply load64_bytes|].
  rewrite DETECT_CHAR_spec by eauto using bytes_at_bytes.
  intros Hnc%not_existsb_eqb. exists (k + 8)%nat. split_and!; [f_equal; lia|lia|].
  rewrite <- take_take_drop, elem_of_app. tauto.
Qed.

Lemma unseen_end p : unseen (p, 0) → find_ptr a d l = 0.
Proof.
  intros (k & [= -> Hk0] & Hk & Hn). unfold find_ptr.
  rewrite (proj2 (find_byte_None d l)); [done|].
  by rewrite take_ge in Hn by (subst n; lia).
Qed.

Lemma unseen_nonneg p r : unseen (p, r) → 0 ≤ r.
Proof. intros (k & [= -> ->] & Hk & Hn). lia. Qed.

(** The closing byte loop of [memchr]. *)
Lemma memchr_bytes p r : unseen (p, r) →
  loop (S (Z.to_nat r)) (λ '(src, length),
      if length =? 0 then leave 0
      else
        b ← load8 m src;
        if b =? d then leave src else continue (src + 1, length - 1)) (p, r)
  = Some (find_ptr a d l).
Proof using Hat.
  intros Hu. pose proof (unseen_nonneg _ _ Hu).
  apply (loop_inv_eq unseen _ snd); [|done|simpl; lia].
  intros [q k] Hq. split; [by eapply unseen_nonneg|].
  destruct (Z.eqb_spec k 0) as [->|]; [by rewrite (unseen_end _ Hq)|].
  destruct (unseen_byte _ _ Hq) as (b & -> & Hb); [done|]. simpl.
  destruct (b =? d); [done|]. simpl. split; [done|lia].
Qed.
End bounded.

Lemma memchr_eq m a c l :
  bytes_at m a l → memchr m a c (Z.of_nat (length l)) = Some (find_ptr a (u8 c) l).
Proof.
  intros Hat. pose proof (u8_range c) as Hd. unfold memchr. set (d := u8 c) in *. cbv zeta.
  rewrite fill_mask_spec by done.
  assert (unseen a d l (a, Z.of_nat (length l))) as Hu0.
  { exists 0%nat. split_and!; [f_equal; lia|lia|apply not_elem_of_nil]. }
  edestruct (loop_inv (unseen a d l)
    (λ r, match r with
          | inl p => p = find_ptr a d l
          | inr st => unseen a d l st ∧ st.1 mod 8 = 0
          end) snd) as (r & -> & Hr); [|exact Hu0|simpl; lia|].
  { intros [q k] Hq. split; [by eapply unseen_nonneg|].
    destruct (UNALIGNED_X q) eqn:Hu; [|apply UNALIGNED_X_false in Hu; done].
    destruct (Z.eqb_spec k 0) as [->|]; [by rewrite (unseen_end _ _ _ _ Hq)|].
    destruct (unseen_byte m _ _ _ Hat _ _ Hq) as (b & -> & Hb); [done|]. simpl.
    destruct (b =? d); [done|]. simpl. split; [done|lia]. }
  simpl. destruct r as [p|[p r]]; [by f_equal|]. destruct Hr as [Hp Hal]. simpl in Hal.
  destruct (TOO_SMALL_LITTLE_BLOCK r) eqn:Hts; simpl.
  { by apply memchr_bytes. }
  pose proof (unseen_nonneg _ _ _ _ _ Hp).
  edestruct (loop_inv (λ st, unseen a d l st ∧ st.1 mod 8 = 0)
    (unseen a d l) snd) as ([q k] & -> & Hq); [|by split|simpl; lia|].
  { intros [q k] [Hq Hqa]. split; [by eapply unseen_nonneg|]. simpl in Hqa.
    unfold TOO_SMALL_LITTLE_BLOCK, LITTLE_BLOCK_SIZE in *.
    destruct (Z.ltb_spec k 8); [done|].
    destruct (unseen_word m _ _ _ Hat Hd _ _ Hq) as (w & -> & Hw); [done..|]. simpl.
    destruct (truth _); [done|]. simpl. split; [|lia].
    split; [by apply Hw|]. Z.div_mod_to_equations. lia. }
  by apply memchr_bytes.
Qed.

(** The mirror image, for a scan that runs downwards. *)
Section bounded_down.
Context (m : mem) (a d : Z) (l : list Z) (Hat : bytes_at m a l) (Hd : is_byte d).

Definition unseen_above (st : Z * Z) : Prop :=
  ∃ k : nat, st = (a + Z.of_nat k - 1, Z.of_nat k) ∧ (k ≤ length l)%nat ∧ d ∉ drop k l.

Lemma unseen_above_byte p r : unseen_above (p, r) → r ≠ 0 → ∃ b, load8 m p = Some b ∧
  if b =? d then is_last a d l p ∧ d ∈ l else unseen_above (p - 1, r - 1).
Proof using Hat.
  intros (k & [= -> ->] & Hk & Hn) Hr. destruct k as [|k]; [done|].
  destruct (lookup_lt_is_Some_2 l k) as [b Hb]; [lia|].
  replace (a + Z.of_nat (S k) - 1) with (a + Z.of_nat k) by lia.
  exists b. split; [by apply (bytes_at_lookup _ _ _ _ _ Hat)|].
  destruct (Z.eqb_spec b d) as [->|].
  { split; [by right; exists k|by eapply list_elem_of_lookup_2]. }
  exists k. split_and!; [f_equal; lia|lia|].
  rewrite (drop_S _ _ _ Hb), elem_of_cons. intuition congruence.
Qed.

Lemma unseen_above_word p r : unseen_above (p, r) → 8 ≤ r →
  ∃ w, load64u m (p - 8 + 1) = Some w ∧
    (truth (DETECT_CHAR w (rep 8 d)) = false → unseen_above (p - 8, r - 8)).
Proof using Hat Hd.
  intros (k & [= -> ->] & Hk & Hn) Hr.
  destruct (bytes_at_chunk m a l (k - 8) 8 Hat) as [Hc Hl]; [lia|].
  eexists. split.
  - unfold load64u. replace (a + Z.of_nat k - 1 - 8 + 1) with (a + Z.of_nat (k - 8)) by lia.
    unfold bytes_at in Hc. rewrite Hl in Hc. by rewrite Hc.
  - rewrite DETECT_CHAR_spec by eauto using bytes_at_bytes.
    intros Hnc%not_existsb_eqb. exists (k - 8)%nat. split_and!; [f_equal; lia|lia|].
    rewrite <- (take_drop 8 (drop (k - 8) l)), drop_drop, elem_of_app.
    replace (k - 8 + 8)%nat with k by lia. tauto.
Qed.

Lemma unseen_above_end p : unseen_above (p, 0) → is_last a d l 0.
Proof. intros (k & [= -> Hk0] & Hk & Hn). left. split; [done|]. by destruct k. Qed.

Lemma unseen_above_nonneg p r : unseen_above (p, r) → 0 ≤ r.
Proof. intros (k & [= -> ->] & Hk & Hn). lia. Qed.

Lemma memrchr_bytes p r : unseen_above (p, r) →
  ∃ q, loop (S (Z.to_nat r)) (λ '(src, length),
      if length =? 0 then leave 0
      else
        b ← load8 m src;
        if b =? d then leave src else continue (src - 1, length - 1)) (p, r) = Some q ∧
    is_last a d l q.
Proof using Hat.
  intros Hu. pose proof (unseen_above_nonneg _ _ Hu).
  apply (loop_inv unseen_above _ snd); [|done|simpl; lia].
  intros [q k] Hq. split; [by eapply unseen_above_nonneg|].
  destruct (Z.eqb_spec k 0) as [->|]; [by eapply unseen_above_end|].
  destruct (unseen_above_byte _ _ Hq) as (b & -> & Hb); [done|]. simpl.
  destruct (b =? d); [naive_solver|]. simpl. split; [done|lia].
Qed.

(** The alignment loop: it stops at a hit or with [src] on a word boundary,
    having consumed at most seven bytes. *)
Lemma memrchr_align : ∃ r,
  loop (S (Z.to_nat (Z.of_nat (length l)))) (λ '(src, length),
    if UNALIGNED_X src then
      if length =? 0 then leave (inl 0)
      else
        b ← load8 m src;
        if b =? d then leave (inl src) else continue (src - 1, length - 1)
    else leave (inr (src, length))) (a + Z.of_nat (length l) - 1, Z.of_nat (length l)) = Some r ∧
  match r with
  | inl p => is_last a d l p ∧ (d ∈ l ∨ Z.of_nat (length l) < 8)
  | inr st => unseen_above st ∧ st.1 mod 8 = 0 ∧ Z.of_nat (length l) - 8 < st.2
  end.
Proof using Hat.
  set (top := a + Z.of_nat (length l) - 1).
  apply (loop_inv (λ st, unseen_above st ∧ (top - st.1 < 1 + top mod 8)) _ snd); [| |simpl; lia].
  - intros [q k] [Hq Hb]. split; [by eapply unseen_above_nonneg|]. simpl in Hb.
    assert (top - q = Z.of_nat (length l) - k) as Hrel.
    { destruct Hq as (j & [= -> ->] & _). subst top. lia. }
    destruct (UNALIGNED_X q) eqn:Hu.
    + destruct (Z.eqb_spec k 0) as [->|].
      { split; [by eapply unseen_above_end|]. right. Z.div_mod_to_equations. lia. }
      destruct (unseen_above_byte _ _ Hq) as (b & -> & Hb'); [done|]. simpl.
      destruct (b =? d); [naive_solver|].
      simpl. split; [|lia]. split; [done|]. rewrite UNALIGNED_X_spec in Hu.
      apply negb_true_iff, Z.eqb_neq in Hu. Z.div_mod_to_equations. lia.
    + apply UNALIGNED_X_false in Hu. split_and!; [done..|]. simpl.
      Z.div_mod_to_equations. lia.
  - split; [|simpl; Z.div_mod_to_equations; lia]. exists (length l).
    split_and!; [done|lia|]. rewrite drop_all. apply not_elem_of_nil.
Qed.
End bounded_down.

Lemma memrchr_eq m a c l :
  bytes_at m a l →
  ∃ r, memrchr load64u m a c (Z.of_nat (length l)) = Some r ∧ is_last a (u8 c) l r.
Proof.
  intros Hat. pose proof (u8_range c) as Hd. unfold memrchr. set (d := u8 c) in *. cbv zeta.
  rewrite fill_mask_spec by done.
  destruct (memrchr_align m a d l Hat) as (r & -> & Hr). simpl.
  destruct r as [p|[p r]]; [naive_solver|]. destruct Hr as (Hp & _ & _).
  pose proof (unseen_above_nonneg _ _ _ _ _ Hp).
  destruct (TOO_SMALL_LITTLE_BLOCK r) eqn:Hts; simpl.
  { by apply memrchr_bytes. }
  edestruct (loop_inv (λ st, unseen_above a d l (st.1 + LITTLE_BLOCK_SIZE - 1, st.2))
    (λ st, unseen_above a d l (st.1 + LITTLE_BLOCK_SIZE - 1, st.2)) snd)
    as ([q k] & -> & Hq); [| |simpl; lia|].
  { intros [q k] Hq. split; [by eapply unseen_above_nonneg|]. simpl in Hq.
    unfold TOO_SMALL_LITTLE_BLOCK, LITTLE_BLOCK_SIZE in *.
    destruct (Z.ltb_spec k 8); [done|].
    destruct (unseen_above_word m _ _ _ Hat Hd _ _ Hq) as (w & Hw & Hnext); [done|].
    replace (q + 8 - 1 - 8 + 1) with q in Hw by lia. rewrite Hw. simpl.
    destruct (truth _); [done|]. simpl. split; [|lia].
    replace (q - 8 + 8 - 1) with (q + 8 - 1 - 8) by lia. by apply Hnext. }
  { simpl. by replace (p - LITTLE_BLOCK_SIZE + 1 + LITTLE_BLOCK_SIZE - 1) with p by lia. }
  by apply memrchr_bytes.
Qed.

(** On a machine that faults on misaligned loads the word scan of [memrchr]
    faults whenever it is reached. *)
Lemma memrchr_faults m a c l :
  bytes_at m a l → 15 ≤ Z.of_nat (length l) → u8 c ∉ l →
  memrchr load64 m a c (Z.of_nat (length l)) = None.
Proof.
  intros Hat Hlen Hn. pose proof (u8_range c) as Hd. unfold memrchr.
  set (d := u8 c) in *. cbv zeta. rewrite fill_mask_spec by done.
  destruct (memrchr_align m a d l Hat) as (r & -> & Hr). simpl.
  destruct r as [p|[p r]]; [naive_solver lia|]. destruct Hr as (_ & Hal & Hr). simpl in *.
  unfold TOO_SMALL_LITTLE_BLOCK, LITTLE_BLOCK_SIZE in *.
  destruct (Z.ltb_spec r 8) as [|Hr8]; [lia|]. simpl.
  replace (loop (S (Z.to_nat r)) _ _) with (@None (Z * Z)); [done|].
  unfold loop. rewrite (proj2 (Z.ltb_ge r 8)) by done. unfold load64, aligned8.
  replace ((p - 8 + 1) mod 8 =? 0) with false; [done|].
  symmetry. apply Z.eqb_neq. Z.div_mod_to_equations. lia.
Qed.

(** ** Correctness of the scanning functions *)

(** The borrow tricks the word-at-a-time scanners rest on are exact: for
    any eight bytes, [DETECT_NULL] of their little-endian word is nonzero
    exactly when one of them is zero, and [DETECT_CHAR] against the mask
    built by [fill_mask] (memchr.c, strchr.c) exactly when one of them is the
    byte sought. *)
Theorem DETECT_exact l c :
  length l = 8%nat → Forall is_byte l → is_byte c →
  (truth (DETECT_NULL (le_combine l)) = true ↔ 0 ∈ l) ∧
  (∃ mask, fill_mask c = Some mask ∧
    (truth (DETECT_CHAR (le_combine l) mask) = true ↔ c ∈ l)).
Proof.
  intros Hl Hb Hc. rewrite DETECT_NULL_spec by done. split.
  - rewrite existsb_exists. setoid_rewrite Z.eqb_eq. rewrite list_elem_of_In. naive_solver.
  - exists (rep 8 c). rewrite fill_mask_spec by done. split; [done|].
    rewrite DETECT_CHAR_spec by done.
    rewrite existsb_exists. setoid_rewrite Z.eqb_eq. rewrite list_elem_of_In. naive_solver.
Qed.

Lemma DETECT_exact_witness :
  truth (DETECT_NULL (le_combine [1; 128; 255; 0; 1; 0; 127; 200])) = true ↔
  0 ∈ [1; 128; 255; 0; 1; 0; 127; 200].
Proof.
  refine (proj1 (DETECT_exact [1; 128; 255; 0; 1; 0; 127; 200] 255 _ _ _));
    [reflexivity|repeat constructor; cbn; lia|mem_witness].
Defined.

(** [strlen] returns the number of bytes before the NUL and [strnlen] the
    smaller of that and its bound. The word-at-a-time loop of [strlen] reads
    past the NUL; it never faults where memory is mapped in whole words. *)
Theorem strlen_correct m a s n :
  word_mapped m → cstring m a s → 0 ≤ n →
  strlen m a = Some (Z.of_nat (length s)) ∧
  strnlen m a n = Some (Z.min n (Z.of_nat (length s))).
Proof. intros. split; [by apply strlen_eq|by apply strnlen_eq]. Qed.

Lemma strlen_correct_witness :
  let m := mk_mem 8 [1; 2; 3; 4; 5; 6; 7; 8; 9; 10; 11; 0; 1; 1; 1; 1] in
  strlen m 9 = Some 10 ∧ strnlen m 9 4 = Some 4.
Proof. apply (strlen_correct _ 9 [2; 3; 4; 5; 6; 7; 8; 9; 10; 11] 4); mem_witness. Defined.

(** [strchr] returns the address of the first occurrence of the character
    in the string, its NUL included, and NULL when there is none; [strchrnul]
    the same with the address of the NUL in place of NULL; [strrchr] the last
    occurrence of a character other than NUL. *)
Theorem strchr_correct m a s i :
  word_mapped m → 0 < a → cstring m a s →
  strchr m a i = Some (find_ptr a (u8 i) (s ++ [0])) ∧
  strchrnul m a i = Some (match find_byte (u8 i) s with
                          | Some k => a + Z.of_nat k
                          | None => a + Z.of_nat (length s)
                          end) ∧
  (u8 i ≠ 0 → ∃ r, strrchr m a i = Some r ∧ is_last a (u8 i) s r).
Proof.
  intros. split; [by apply strchr_eq|]. split; [by apply strchrnul_eq|].
  by apply strrchr_eq.
Qed.

Lemma strchr_correct_witness :
  let m := mk_mem 8 [1; 2; 3; 4; 5; 3; 7; 8; 9; 10; 11; 0; 1; 1; 1; 1] in
  strchr m 9 (256 + 3) = Some 10 ∧ strchrnul m 9 (256 + 3) = Some 10 ∧
  (3 ≠ 0 → ∃ r, strrchr m 9 (256 + 3) = Some r ∧
                 is_last 9 3 [2; 3; 4; 5; 3; 7; 8; 9; 10; 11] r).
Proof.
  apply (strchr_correct _ 9 [2; 3; 4; 5; 3; 7; 8; 9; 10; 11] (256 + 3)); mem_witness.
Defined.

(** [memchr] returns the first occurrence of the character among the
    [length] bytes and NULL when there is none, without reading outside
    them; [rawmemchr] returns the first occurrence of a byte that is known to
    occur. *)
Theorem memchr_correct m a c l :
  bytes_at m a l →
  memchr m a c (Z.of_nat (length l)) = Some (find_ptr a (u8 c) l) ∧
  (word_mapped m → ∀ k, find_byte (u8 c) l = Some k →
    rawmemchr m a (u8 c) = Some (a + Z.of_nat k)).
Proof.
  intros Hat. split; [by apply memchr_eq|]. intros Hw k [Hk Hn]%find_byte_Some.
  rewrite (rawmemchr_eq m a (take k l) (u8 c) (drop (S k) l) Hw); [|apply u8_range| |done].
  - rewrite length_take. apply lookup_lt_Some in Hk. do 2 f_equal. lia.
  - by rewrite <- (drop_S _ _ _ Hk), take_drop.
Qed.

Lemma memchr_correct_witness :
  let m := mk_mem 8 [1; 2; 3; 4; 5; 3; 7; 8; 9; 10; 11; 0; 1; 1; 1; 1] in
  memchr m 9 11 12 = Some 18 ∧
  (word_mapped m → ∀ k, find_byte 11 [2; 3; 4; 5; 3; 7; 8; 9; 10; 11; 0; 1] = Some k →
    rawmemchr m 9 11 = Some (9 + Z.of_nat k)).
Proof. apply (memchr_correct _ 9 11 [2; 3; 4; 5; 3; 7; 8; 9; 10; 11; 0; 1]); mem_witness. Defined.

(** [memrchr] is correct only on a machine that allows misaligned word
    loads: there it returns the last occurrence. With aligned loads its word
    loop, which aligns the address of the last byte and then reads the word
    that ends at that byte, faults whenever 15 or more bytes hold no
    occurrence. *)
Theorem memrchr_alignment m a c l :
  bytes_at m a l →
  (∃ r, memrchr load64u m a c (Z.of_nat (length l)) = Some r ∧ is_last a (u8 c) l r) ∧
  (15 ≤ Z.of_nat (length l) → u8 c ∉ l →
   memrchr load64 m a c (Z.of_nat (length l)) = None).
Proof. intros Hat. split; [by apply memrchr_eq|by apply memrchr_faults]. Qed.

Lemma memrchr_alignment_witness :
  let m := mk_mem 8 (replicate 16 1) in
  (∃ r, memrchr load64u m 8 2 16 = Some r ∧ is_last 8 2 (replicate 16 1) r) ∧
  (15 ≤ 16 → 2 ∉ replicate 16 1 → memrchr load64 m 8 2 16 = None).
Proof. apply (memrchr_alignment _ 8 2 (replicate 16 1)); mem_witness. Defined.
