(* ===== verification/StrCmp.v ===== *)
(** * Comparing strings and memory

    Models [memcmp], [strcmp] and [strncmp] of
    src/ports/newlib/newlib/libc/string.  Each source file holds two bodies
    selected by PREFER_SIZE_OVER_SPEED; both are modelled, the bytewise one
    as [*_size], and proved to agree with each other and with the
    comparison of byte lists [bytes_cmp]. *)

From S2P Require Import Prelude Memory StrScan.

(** ** memcmp.c *)

(** [while (n--) { if (s1[0] != s2[0]) return s1[0] - s2[0]; s1++; s2++; } return 0;] *)
Definition memcmp_bytes (m : mem) (s1 s2 n : Z) : option Z :=
  loop (S (Z.to_nat n)) (λ '(s1, s2, n),
    if n =? 0 then leave 0
    else
      b1 ← load8 m s1;
      b2 ← load8 m s2;
      if negb (b1 =? b2) then leave (b1 - b2)
      else continue (s1 + 1, s2 + 1, n - 1)) (s1, s2, n).

Definition memcmp_size (m : mem) (m1 m2 n : Z) : option Z := memcmp_bytes m m1 m2 n.

Definition memcmp (m : mem) (m1 m2 n : Z) : option Z :=
  '(s1, s2, n) ←
    (if negb (TOO_SMALL_LITTLE_BLOCK n) && negb (UNALIGNED_X_Y m1 m2) then
       loop (S (Z.to_nat n)) (λ '(a1, a2, n),
         if TOO_SMALL_LITTLE_BLOCK n then leave (a1, a2, n)
         else
           w1 ← load64 m a1;
           w2 ← load64 m a2;
           if negb (w1 =? w2) then leave (a1, a2, n)
           else continue (a1 + 8, a2 + 8, n - LITTLE_BLOCK_SIZE)) (m1, m2, n)
     else Some (m1, m2, n));
  memcmp_bytes m s1 s2 n.

(** ** strcmp.c *)

(** [while (s1[0] != '\0' && s1[0] == s2[0]) { s1++; s2++; } return s1[0] - s2[0];] *)
Definition strcmp_size (m : mem) (s1 s2 : Z) : option Z :=
  '(s1, s2) ←
    loop (fuel m) (λ '(s1, s2),
      b1 ← load8 m s1;
      if b1 =? 0 then leave (s1, s2)
      else
        b2 ← load8 m s2;
        if b1 =? b2 then continue (s1 + 1, s2 + 1) else leave (s1, s2)) (s1, s2);
  b1 ← load8 m s1;
  b2 ← load8 m s2;
  Some (b1 - b2).

Definition strcmp (m : mem) (s1 s2 : Z) : option Z :=
  r ←
    (if UNALIGNED_X_Y s1 s2 then Some (inr (s1, s2))
     else
       loop (fuel m) (λ '(a1, a2),
         w1 ← load64 m a1;
         w2 ← load64 m a2;
         if w1 =? w2 then
           if truth (DETECT_NULL w1) then leave (inl 0)
           else continue (a1 + 8, a2 + 8)
         else leave (inr (a1, a2))) (s1, s2));
  match r with
  | inl r => Some r
  | inr (s1, s2) => strcmp_size m s1 s2
  end.

(** ** strncmp.c *)

Definition strncmp_size (m : mem) (s1 s2 n : Z) : option Z :=
  if n =? 0 then Some 0
  else
    '(s1, s2) ←
      loop (S (Z.to_nat n)) (λ '(s1, s2, n),
        if n =? 0 then leave (s1, s2)
        else
          let n := n - 1 in
          b1 ← load8 m s1;
          b2 ← load8 m s2;
          if b1 =? b2 then
            if (n =? 0) || (b1 =? 0) then leave (s1, s2)
            else continue (s1 + 1, s2 + 1, n)
          else leave (s1, s2)) (s1, s2, n);
    b1 ← load8 m s1;
    b2 ← load8 m s2;
    Some (b1 - b2).

(** The word loop: [inl r] when it returned [r], [inr (s1, s2, n)] where the
    byte loop takes over. *)
Definition strncmp_words (m : mem) (s1 s2 n : Z) : option (Z + Z * Z * Z) :=
  if UNALIGNED_X_Y s1 s2 then Some (inr (s1, s2, n))
  else
    loop (S (Z.to_nat n)) (λ '(a1, a2, n),
      if n <? 8 then leave (inr (a1, a2, n))
      else
        w1 ← load64 m a1;
        w2 ← load64 m a2;
        if w1 =? w2 then
          let n := n - 8 in
          if (n =? 0) || truth (DETECT_NULL w1) then leave (inl 0)
          else continue (a1 + 8, a2 + 8, n)
        else leave (inr (a1, a2, n))) (s1, s2, n).

(** The closing byte loop. *)
Definition strncmp_bytes (m : mem) (s1 s2 n : Z) : option Z :=
  r ← loop (S (Z.to_nat n)) (λ '(s1, s2, n),
    if negb (0 <? n) then leave (inr (s1, s2))
    else
      let n := n - 1 in
      b1 ← load8 m s1;
      b2 ← load8 m s2;
      if b1 =? b2 then
        if (n =? 0) || (b1 =? 0) then leave (inl 0)
        else continue (s1 + 1, s2 + 1, n)
      else leave (inr (s1, s2))) (s1, s2, n);
  match r with
  | inl r => Some r
  | inr (s1, s2) =>
      b1 ← load8 m s1;
      b2 ← load8 m s2;
      Some (b1 - b2)
  end.

Definition strncmp (m : mem) (s1 s2 n : Z) : option Z :=
  if n =? 0 then Some 0
  else
    r ← strncmp_words m s1 s2 n;
    match r with
    | inl r => Some r
    | inr (s1, s2, n) => strncmp_bytes m s1 s2 n
    end.

(** ** The comparison of byte lists *)

(** The difference of the first bytes that differ, 0 when there are none. *)
Fixpoint bytes_cmp (l1 l2 : list Z) : Z :=
  match l1, l2 with
  | b1 :: t1, b2 :: t2 => if b1 =? b2 then bytes_cmp t1 t2 else b1 - b2
  | _, _ => 0
  end.

Lemma bytes_cmp_app l t1 t2 : bytes_cmp (l ++ t1) (l ++ t2) = bytes_cmp t1 t2.
Proof. induction l as [|b l IH]; [done|]. cbn. by rewrite Z.eqb_refl. Qed.

Lemma bytes_cmp_refl l : bytes_cmp l l = 0.
Proof. induction l as [|b l IH]; [done|]. cbn. by rewrite Z.eqb_refl. Qed.

Lemma bytes_cmp_antisym l1 l2 : bytes_cmp l2 l1 = - bytes_cmp l1 l2.
Proof.
  revert l2. induction l1 as [|b1 l1 IH]; intros [|b2 l2]; cbn; try lia.
  rewrite (Z.eqb_sym b2). destruct (b1 =? b2); [done|lia].
Qed.

Lemma bytes_cmp_0 l1 l2 : length l1 = length l2 → bytes_cmp l1 l2 = 0 → l1 = l2.
Proof.
  revert l2. induction l1 as [|b1 l1 IH]; intros [|b2 l2]; cbn; try done.
  intros [=]. destruct (Z.eqb_spec b1 b2) as [->|]; [|lia]. intros. f_equal. auto.
Qed.

(** Strings: the terminator makes the comparison decide equality. *)
Lemma bytes_cmp_strings s1 s2 :
  Forall (λ b, b ≠ 0) s1 → Forall (λ b, b ≠ 0) s2 →
  bytes_cmp (s1 ++ [0]) (s2 ++ [0]) = 0 → s1 = s2.
Proof.
  intros H1. revert s2. induction H1 as [|b1 s1 Hb1 H1 IH]; intros s2 H2.
  - destruct H2 as [|b2 s2 Hb2 H2]; [done|]. cbn [app bytes_cmp].
    destruct (Z.eqb_spec 0 b2); lia.
  - destruct H2 as [|b2 s2 Hb2 H2]; cbn [app bytes_cmp].
    + destruct (Z.eqb_spec b1 0); lia.
    + destruct (Z.eqb_spec b1 b2) as [->|]; [|lia]. intros. f_equal. auto.
Qed.

(** ** Two views of the same memory *)

Lemma bytes_at_prefix m a l k :
  bytes_at m a l → bytes_at m a k → (length l ≤ length k)%nat → l = take (length l) k.
Proof.
  rewrite !bytes_at_spec. intros Hl Hk Hle. apply list_eq. intros i.
  destruct (decide (i < length l)%nat) as [Hi|].
  - destruct (lookup_lt_is_Some_2 l i Hi) as [b Hb]. rewrite Hb.
    rewrite lookup_take_lt by done.
    destruct (lookup_lt_is_Some_2 k i) as [c Hc]; [lia|]. rewrite Hc.
    specialize (Hl _ _ Hb). specialize (Hk _ _ Hc). congruence.
  - rewrite !(lookup_ge_None_2 _ i) by (rewrite ?length_take; lia). done.
Qed.

Lemma not_zero_in s : Forall (λ b, b ≠ 0) s → existsb (λ b, b =? 0) s = false.
Proof.
  induction 1 as [|b s Hb Hs IH]; [done|]. cbn. by rewrite IH, (proj2 (Z.eqb_neq _ _) Hb).
Qed.

(** What a word read at the start of a string says about it. *)
Lemma cstring_word m a s l :
  cstring m a s → bytes_at m a l →
  (existsb (λ b, b =? 0) l = false → ∃ t, s = l ++ t) ∧
  (existsb (λ b, b =? 0) l = true → ∃ t, l = s ++ 0 :: t).
Proof.
  intros [Hs H0] Hl. destruct (decide (length l ≤ length s)%nat) as [Hle|Hgt].
  - assert (s = l ++ drop (length l) s) as Hsp.
    { rewrite (bytes_at_prefix m a l s) at 1; [by rewrite take_drop|done| |done].
      by apply bytes_at_app in Hs as [? _]. }
    split; [eauto|]. rewrite Hsp in H0. apply Forall_app in H0 as [H0 _].
    rewrite (not_zero_in _ H0). done.
  - assert (l = (s ++ [0]) ++ drop (length (s ++ [0])) l) as Hsp.
    { rewrite (bytes_at_prefix m a (s ++ [0]) l) at 1; [by rewrite take_drop|done..|].
      rewrite length_app. simpl. lia. }
    rewrite <- app_assoc in Hsp. split; [|eauto].
    rewrite Hsp, existsb_app. simpl. by rewrite orb_true_r.
Qed.

(** The same for a bounded string whose bound covers the word. *)
Lemma nstring_word m a n s l :
  nstring m a n s → bytes_at m a l → Z.of_nat (length l) ≤ n →
  (existsb (λ b, b =? 0) l = false → ∃ t, s = l ++ t) ∧
  (existsb (λ b, b =? 0) l = true → ∃ t, l = s ++ 0 :: t).
Proof.
  intros [H0 [[Hlt Hs]|[Heq Hs]]] Hl Hn.
  - apply (cstring_word m a); [by split|done].
  - assert (s = l ++ drop (length l) s) as Hsp.
    { rewrite (bytes_at_prefix m a l s) at 1; [by rewrite take_drop|done..|lia]. }
    split; [eauto|]. rewrite Hsp in H0. apply Forall_app in H0 as [H0 _].
    by rewrite (not_zero_in _ H0).
Qed.

Lemma nstring_mapped m a n s : nstring m a n s → 0 < n → is_Some (m !! a).
Proof.
  intros Hs Hn. apply load8_is_Some.
  destruct (nstring_step _ _ _ _ Hs Hn) as [(_ & ->)|(b & t & _ & _ & -> & _)]; done.
Qed.

Lemma cstring_mapped m a s : cstring m a s → is_Some (m !! a).
Proof.
  intros Hs. apply load8_is_Some.
  destruct (cstring_step _ _ _ 0 Hs) as (b & Hb & _); [lia|]. rewrite Z.add_0_r in Hb. by exists b.
Qed.

Lemma cstring_head m a s : cstring m a s →
  (s = [] ∧ load8 m a = Some 0) ∨
  (∃ b t, s = b :: t ∧ b ≠ 0 ∧ load8 m a = Some b ∧ cstring m (a + 1) t).
Proof.
  intros [Hat H0]. destruct H0 as [|b t Hb H0]; simpl in Hat; apply bytes_at_cons in Hat.
  - left. tauto.
  - right. exists b, t. split_and!; [done..|tauto|]. split; [tauto|done].
Qed.

(** ** Correctness *)

Lemma memcmp_bytes_eq m a1 a2 l1 l2 :
  bytes_at m a1 l1 → bytes_at m a2 l2 → length l1 = length l2 →
  memcmp_bytes m a1 a2 (Z.of_nat (length l1)) = Some (bytes_cmp l1 l2).
Proof.
  intros H1 H2 Hlen. unfold memcmp_bytes.
  apply (loop_inv_eq (λ '(p1, p2, n), ∃ t1 t2, bytes_at m p1 t1 ∧ bytes_at m p2 t2 ∧
      length t1 = length t2 ∧ n = Z.of_nat (length t1) ∧ bytes_cmp t1 t2 = bytes_cmp l1 l2)
    _ (λ '(_, _, n), n)); [|by exists l1, l2|lia].
  intros [[p1 p2] n] (t1 & t2 & Ht1 & Ht2 & Hl & -> & Hc). split; [lia|].
  destruct t1 as [|b1 t1], t2 as [|b2 t2]; try done. simpl in Hl.
  rewrite (proj2 (Z.eqb_neq _ _)) by (simpl; lia).
  apply bytes_at_cons in Ht1 as [-> Ht1], Ht2 as [-> Ht2]. cbn in Hc |- *.
  destruct (b1 =? b2); simpl; [|done]. split; [|lia].
  exists t1, t2. split_and!; [done..|lia|lia|done].
Qed.

Lemma memcmp_eq m a1 a2 l1 l2 :
  bytes_at m a1 l1 → bytes_at m a2 l2 → length l1 = length l2 →
  memcmp m a1 a2 (Z.of_nat (length l1)) = Some (bytes_cmp l1 l2).
Proof.
  intros H1 H2 Hlen. unfold memcmp.
  destruct (TOO_SMALL_LITTLE_BLOCK _) eqn:Hts, (UNALIGNED_X_Y a1 a2) eqn:Hu;
    simpl; try by apply memcmp_bytes_eq.
  apply UNALIGNED_X_Y_false in Hu as [Ha1 Ha2].
  edestruct (loop_inv (λ '(p1, p2, n), ∃ t1 t2, bytes_at m p1 t1 ∧ bytes_at m p2 t2 ∧
      length t1 = length t2 ∧ n = Z.of_nat (length t1) ∧ bytes_cmp t1 t2 = bytes_cmp l1 l2 ∧
      p1 mod 8 = 0 ∧ p2 mod 8 = 0)
    (λ '(p1, p2, n), ∃ t1 t2, bytes_at m p1 t1 ∧ bytes_at m p2 t2 ∧
      length t1 = length t2 ∧ n = Z.of_nat (length t1) ∧ bytes_cmp t1 t2 = bytes_cmp l1 l2)
    (λ '(_, _, n), n)) as ([[q1 q2] n] & -> & t1 & t2 & Ht1 & Ht2 & Hl & -> & Hc);
    [|by exists l1, l2|simpl; lia|by rewrite <- Hc; apply memcmp_bytes_eq].
  intros [[p1 p2] n] (t1 & t2 & Ht1 & Ht2 & Hl & -> & Hc & Hp1 & Hp2). split; [lia|].
  unfold TOO_SMALL_LITTLE_BLOCK, LITTLE_BLOCK_SIZE.
  destruct (Z.ltb_spec (Z.of_nat (length t1)) 8); [by exists t1, t2|].
  destruct (bytes_at_chunk m p1 t1 0 8 Ht1) as [Hw1 Hlw1]; [lia|].
  destruct (bytes_at_chunk m p2 t2 0 8 Ht2) as [Hw2 Hlw2]; [lia|].
  rewrite drop_0 in *. rewrite Z.add_0_r in *.
  rewrite (load64_bytes _ _ _ Hp1 Hlw1 Hw1), (load64_bytes _ _ _ Hp2 Hlw2 Hw2). simpl.
  destruct (Z.eqb_spec (le_combine (take 8 t1)) (le_combine (take 8 t2))) as [Heq|];
    cbn [negb]; [|by exists t1, t2].
  apply le_combine_inj in Heq; [|eauto using bytes_at_bytes..|congruence].
  split; [|lia]. exists (drop 8 t1), (drop 8 t2).
  rewrite <- (take_drop 8 t1) in Ht1, Hc. rewrite <- (take_drop 8 t2) in Ht2, Hc.
  apply bytes_at_app in Ht1 as [_ Ht1], Ht2 as [_ Ht2]. rewrite Hlw1 in Ht1. rewrite Hlw2 in Ht2.
  rewrite Heq, bytes_cmp_app in Hc. rewrite !length_drop.
  split_and!; [done..|lia|lia|done| |]; Z.div_mod_to_equations; lia.
Qed.

Lemma strcmp_size_eq m a1 a2 s1 s2 :
  cstring m a1 s1 → cstring m a2 s2 →
  strcmp_size m a1 a2 = Some (bytes_cmp (s1 ++ [0]) (s2 ++ [0])).
Proof.
  intros H1 H2. pose proof (cstring_fuel _ _ _ H1). unfold strcmp_size.
  edestruct (loop_inv (λ '(p1, p2), ∃ t1 t2, cstring m p1 t1 ∧ cstring m p2 t2 ∧
       bytes_cmp (t1 ++ [0]) (t2 ++ [0]) = bytes_cmp (s1 ++ [0]) (s2 ++ [0]) ∧
       p1 + Z.of_nat (length t1) = a1 + Z.of_nat (length s1))
     (λ '(p1, p2), ∃ b1 b2, load8 m p1 = Some b1 ∧ load8 m p2 = Some b2 ∧
       b1 - b2 = bytes_cmp (s1 ++ [0]) (s2 ++ [0]))
     (λ '(p1, p2), a1 + Z.of_nat (length s1) - p1))
    as ([q1 q2] & -> & b1 & b2 & Hb1 & Hb2 & Hd); [|by exists s1, s2|lia|].
  - intros [p1 p2] (t1 & t2 & Ht1 & Ht2 & Hc & Hp). split; [lia|]. rewrite <- Hc.
    destruct (cstring_head _ _ _ Ht1) as [(-> & Hb1)|(b1 & u1 & -> & Hn1 & Hb1 & Hu1)],
      (cstring_head _ _ _ Ht2) as [(-> & Hb2)|(b2 & u2 & -> & Hn2 & Hb2 & Hu2)];
      rewrite Hb1, ?Hb2; cbn [mbind option_bind app bytes_cmp].
    + rewrite !Z.eqb_refl. by exists 0, 0.
    + rewrite Z.eqb_refl. exists 0, b2. by rewrite (proj2 (Z.eqb_neq 0 b2)) by congruence.
    + rewrite (proj2 (Z.eqb_neq _ _) Hn1). exists b1, 0. done.
    + rewrite (proj2 (Z.eqb_neq _ _) Hn1). destruct (b1 =? b2) eqn:Hb; [|eauto].
      simpl in Hp. split; [|lia]. exists u1, u2. split_and!; [done..|lia].
  - simpl. rewrite Hb1, Hb2. simpl. by rewrite Hd.
Qed.

(** Two strings that start with the same word containing a NUL are equal. *)
Lemma same_word_equal (s1 s2 t1 t2 : list Z) :
  Forall (λ b, b ≠ 0) s1 → Forall (λ b, b ≠ 0) s2 →
  s1 ++ 0 :: t1 = s2 ++ 0 :: t2 → s1 = s2.
Proof.
  intros H1. revert s2. induction H1 as [|b1 s1 Hb1 H1 IH]; intros s2 H2 Heq;
    destruct H2 as [|b2 s2 Hb2 H2]; simplify_eq/=; try done.
  f_equal. eauto.
Qed.

Lemma strcmp_eq m a1 a2 s1 s2 :
  word_mapped m → cstring m a1 s1 → cstring m a2 s2 →
  strcmp m a1 a2 = Some (bytes_cmp (s1 ++ [0]) (s2 ++ [0])).
Proof.
  intros Hw H1 H2. pose proof (cstring_fuel _ _ _ H1). unfold strcmp.
  destruct (UNALIGNED_X_Y a1 a2) eqn:Hu; simpl; [by apply strcmp_size_eq|].
  apply UNALIGNED_X_Y_false in Hu as [Ha1 Ha2].
  edestruct (loop_inv (λ '(p1, p2), ∃ t1 t2, cstring m p1 t1 ∧ cstring m p2 t2 ∧
       bytes_cmp (t1 ++ [0]) (t2 ++ [0]) = bytes_cmp (s1 ++ [0]) (s2 ++ [0]) ∧
       p1 + Z.of_nat (length t1) = a1 + Z.of_nat (length s1) ∧ p1 mod 8 = 0 ∧ p2 mod 8 = 0)
     (λ r, match r with
           | inl r => r = bytes_cmp (s1 ++ [0]) (s2 ++ [0])
           | inr (p1, p2) => strcmp_size m p1 p2 = Some (bytes_cmp (s1 ++ [0]) (s2 ++ [0]))
           end)
     (λ '(p1, p2), a1 + Z.of_nat (length s1) - p1))
    as (r & -> & Hr); [|by exists s1, s2|lia|].
  - intros [p1 p2] (t1 & t2 & Ht1 & Ht2 & Hc & Hp & Hp1 & Hp2). split; [lia|].
    destruct (load64_word_mapped m p1 p1) as (l1 & Hl1 & Hat1 & ->);
      [done..|lia|by eapply cstring_mapped|].
    destruct (load64_word_mapped m p2 p2) as (l2 & Hl2 & Hat2 & ->);
      [done..|lia|by eapply cstring_mapped|]. simpl.
    destruct (Z.eqb_spec (le_combine l1) (le_combine l2)) as [Heq|].
    2: { rewrite <- Hc. by apply strcmp_size_eq. }
    apply le_combine_inj in Heq; [|eauto using bytes_at_bytes..|congruence].
    subst l2. rewrite DETECT_NULL_spec by eauto using bytes_at_bytes.
    destruct (cstring_word _ _ _ _ Ht1 Hat1) as [Hf1 Ht1'],
      (cstring_word _ _ _ _ Ht2 Hat2) as [Hf2 Ht2'].
    destruct (existsb _ l1).
    + destruct (Ht1' eq_refl) as [x Hx], (Ht2' eq_refl) as [y Hy]. rewrite Hx in Hy.
      apply same_word_equal in Hy; [|apply Ht1|apply Ht2]. subst t2.
      by rewrite <- Hc, bytes_cmp_refl.
    + destruct (Hf1 eq_refl) as [x Hx], (Hf2 eq_refl) as [y Hy]. subst t1 t2.
      rewrite <- !app_assoc, bytes_cmp_app in Hc. rewrite length_app in Hp.
      split; [|lia]. exists x, y. apply (cstring_drop _ _ _ 8) in Ht1, Ht2;
        [|rewrite length_app; lia..].
      rewrite drop_app_length' in Ht1, Ht2 by done.
      split_and!; [done..|lia| |]; Z.div_mod_to_equations; lia.
  - simpl. destruct r as [r|[q1 q2]]; [by f_equal|done].
Qed.

(** *** Bounded strings *)

(** What [strncmp] compares. *)
Definition nbytes (n : Z) (s : list Z) : list Z := take (Z.to_nat n) (s ++ [0]).

Lemma nbytes_cons n b s : 0 < n → nbytes n (b :: s) = b :: nbytes (n - 1) s.
Proof.
  intros. unfold nbytes. replace (Z.to_nat n) with (S (Z.to_nat (n - 1))) by lia. done.
Qed.

Lemma nbytes_nil n : 0 < n → nbytes n [] = [0].
Proof.
  intros. unfold nbytes. replace (Z.to_nat n) with (S (Z.to_nat (n - 1))) by lia.
  simpl. by rewrite take_nil.
Qed.

Lemma nbytes_app n l t : Z.of_nat (length l) ≤ n →
  nbytes n (l ++ t) = l ++ nbytes (n - Z.of_nat (length l)) t.
Proof.
  intros. unfold nbytes. rewrite <- app_assoc, take_app.
  rewrite take_ge by lia. do 2 f_equal. lia.
Qed.

(** One round of the byte loops of strncmp.c, by the heads of the strings. *)
Lemma strncmp_round m p1 p2 n t1 t2 :
  nstring m p1 n t1 → nstring m p2 n t2 → 0 < n →
  ∃ b1 b2, load8 m p1 = Some b1 ∧ load8 m p2 = Some b2 ∧
    if b1 =? b2 then
      if (n - 1 =? 0) || (b1 =? 0) then bytes_cmp (nbytes n t1) (nbytes n t2) = 0
      else ∃ u1 u2, nstring m (p1 + 1) (n - 1) u1 ∧ nstring m (p2 + 1) (n - 1) u2 ∧
             bytes_cmp (nbytes (n - 1) u1) (nbytes (n - 1) u2) =
             bytes_cmp (nbytes n t1) (nbytes n t2)
    else bytes_cmp (nbytes n t1) (nbytes n t2) = b1 - b2.
Proof.
  intros H1 H2 Hn.
  destruct (nstring_step _ _ _ _ H1 Hn) as [(-> & Hb1)|(b1 & u1 & -> & Hn1 & Hb1 & Hu1)],
    (nstring_step _ _ _ _ H2 Hn) as [(-> & Hb2)|(b2 & u2 & -> & Hn2 & Hb2 & Hu2)];
    rewrite ?nbytes_nil, ?nbytes_cons by done.
  - exists 0, 0. rewrite orb_true_r. done.
  - exists 0, b2. cbn [bytes_cmp]. by rewrite (proj2 (Z.eqb_neq 0 b2)) by congruence.
  - exists b1, 0. cbn [bytes_cmp]. by rewrite (proj2 (Z.eqb_neq b1 0)) by done.
  - exists b1, b2. split_and!; [done..|]. cbn [bytes_cmp]. destruct (Z.eqb_spec b1 b2); [|done].
    destruct ((n - 1 =? 0) || (b1 =? 0)) eqn:He; [|by exists u1, u2].
    apply orb_true_iff in He as [He|He]; apply Z.eqb_eq in He; [|done].
    rewrite He. done.
Qed.

Lemma strncmp_size_eq m a1 a2 n s1 s2 :
  0 ≤ n → nstring m a1 n s1 → nstring m a2 n s2 →
  strncmp_size m a1 a2 n = Some (bytes_cmp (nbytes n s1) (nbytes n s2)).
Proof.
  intros Hn H1 H2. unfold strncmp_size. destruct (Z.eqb_spec n 0) as [->|]; [done|].
  edestruct (loop_inv (λ '(p1, p2, k), ∃ t1 t2, nstring m p1 k t1 ∧ nstring m p2 k t2 ∧
       bytes_cmp (nbytes k t1) (nbytes k t2) = bytes_cmp (nbytes n s1) (nbytes n s2) ∧ 0 < k)
     (λ '(p1, p2), ∃ b1 b2, load8 m p1 = Some b1 ∧ load8 m p2 = Some b2 ∧
       b1 - b2 = bytes_cmp (nbytes n s1) (nbytes n s2))
     (λ '(_, _, k), k))
    as ([q1 q2] & -> & b1 & b2 & Hb1 & Hb2 & Hd); [| |lia|].
  - intros [[p1 p2] k] (t1 & t2 & Ht1 & Ht2 & Hc & Hk). split; [lia|].
    rewrite (proj2 (Z.eqb_neq k 0)) by lia. cbv zeta. rewrite <- Hc.
    destruct (strncmp_round _ _ _ _ _ _ Ht1 Ht2 Hk) as (b1 & b2 & Hb1 & Hb2 & Hr).
    rewrite Hb1, Hb2. simpl. destruct (Z.eqb_spec b1 b2) as [->|]; [|by exists b1, b2].
    destruct (_ || _) eqn:He.
    + exists b2, b2. rewrite Hr. split_and!; [done..|lia].
    + destruct Hr as (u1 & u2 & Hu1 & Hu2 & Hcu). apply orb_false_iff in He as [?%Z.eqb_neq _].
      split; [|lia]. exists u1, u2. split_and!; [done..|lia].
  - exists s1, s2. split_and!; [done..|lia].
  - simpl. rewrite Hb1, Hb2. simpl. by rewrite Hd.
Qed.

(** The state both loops of [strncmp] preserve: what is left to compare
    decides the result [R]. *)
Definition strncmp_inv (m : mem) (R : Z) (st : Z * Z * Z) : Prop :=
  let '(p1, p2, k) := st in
  ∃ t1 t2, nstring m p1 k t1 ∧ nstring m p2 k t2 ∧
    bytes_cmp (nbytes k t1) (nbytes k t2) = R ∧ 0 < k.

Lemma strncmp_words_eq m R a1 a2 n :
  word_mapped m → strncmp_inv m R (a1, a2, n) →
  ∃ r, strncmp_words m a1 a2 n = Some r ∧
    match r with inl r => r = R | inr st => strncmp_inv m R st end.
Proof.
  intros Hw HI. unfold strncmp_words. destruct (UNALIGNED_X_Y a1 a2) eqn:Hu; [by eauto|].
  apply UNALIGNED_X_Y_false in Hu as [Ha1 Ha2].
  assert (0 < n) as Hn by (by destruct HI as (? & ? & ? & ? & ? & ?)).
  apply (loop_inv (λ '(p1, p2, k), strncmp_inv m R (p1, p2, k) ∧ p1 mod 8 = 0 ∧ p2 mod 8 = 0) _
    (λ '(_, _, k), k)); [|done|lia].
  intros [[p1 p2] k] ((t1 & t2 & Ht1 & Ht2 & Hc & Hk) & Hp1 & Hp2). split; [lia|].
  destruct (Z.ltb_spec k 8); [by exists t1, t2|].
  destruct (load64_word_mapped m p1 p1) as (l1 & Hl1 & Hat1 & ->);
    [done..|lia|by eapply nstring_mapped|].
  destruct (load64_word_mapped m p2 p2) as (l2 & Hl2 & Hat2 & ->);
    [done..|lia|by eapply nstring_mapped|]. simpl.
  destruct (Z.eqb_spec (le_combine l1) (le_combine l2)) as [Heq|]; [|by exists t1, t2].
  apply le_combine_inj in Heq; [|eauto using bytes_at_bytes..|congruence].
  subst l2. rewrite DETECT_NULL_spec by eauto using bytes_at_bytes.
  destruct (nstring_word _ _ _ _ _ Ht1 Hat1) as [Hf1 Hz1]; [lia|].
  destruct (nstring_word _ _ _ _ _ Ht2 Hat2) as [Hf2 Hz2]; [lia|].
  destruct (existsb _ l1).
  - destruct (Hz1 eq_refl) as [x Hx], (Hz2 eq_refl) as [y Hy]. rewrite Hx in Hy.
    apply same_word_equal in Hy; [|apply Ht1|apply Ht2]. subst t2.
    rewrite orb_true_r. by rewrite <- Hc, bytes_cmp_refl.
  - destruct (Hf1 eq_refl) as [x Hx], (Hf2 eq_refl) as [y Hy]. subst t1 t2.
    rewrite !nbytes_app, bytes_cmp_app in Hc by lia.
    apply nstring_drop in Ht1, Ht2. rewrite Hl1 in *. rewrite orb_false_r.
    change (Z.of_nat 8) with 8 in *.
    destruct (Z.eqb_spec (k - 8) 0) as [He|]; [by rewrite He in Hc|].
    split; [|lia]. split; [exists x, y; split_and!; [done..|lia]|].
    Z.div_mod_to_equations; lia.
Qed.

Lemma strncmp_bytes_eq m R a1 a2 n :
  strncmp_inv m R (a1, a2, n) → strncmp_bytes m a1 a2 n = Some R.
Proof.
  intros HI. unfold strncmp_bytes.
  assert (0 < n) as Hn by (by destruct HI as (? & ? & ? & ? & ? & ?)).
  edestruct (loop_inv (strncmp_inv m R)
     (λ r, match r with
           | inl r => r = R
           | inr (p1, p2) => ∃ b1 b2, load8 m p1 = Some b1 ∧ load8 m p2 = Some b2 ∧ b1 - b2 = R
           end) (λ '(_, _, k), k)) as (r & -> & Hr); [|exact HI|lia|].
  - intros [[p1 p2] j] (t1 & t2 & Ht1 & Ht2 & Hc & Hj). split; [lia|].
    rewrite (proj2 (Z.ltb_lt 0 j)) by done. cbn [negb]. cbv zeta.
    destruct (strncmp_round _ _ _ _ _ _ Ht1 Ht2 Hj) as (b1 & b2 & Hb1 & Hb2 & Hr).
    rewrite Hb1, Hb2. simpl. rewrite Hc in Hr.
    destruct (b1 =? b2); [|by exists b1, b2].
    destruct (_ || _) eqn:He; [done|].
    destruct Hr as (u1 & u2 & Hu1 & Hu2 & Hcu). apply orb_false_iff in He as [?%Z.eqb_neq _].
    split; [|lia]. exists u1, u2. split_and!; [done..|lia].
  - simpl. destruct r as [r|[p1 p2]]; [by subst|].
    by destruct Hr as (b1 & b2 & -> & -> & <-).
Qed.

Lemma strncmp_eq m a1 a2 n s1 s2 :
  word_mapped m → 0 ≤ n → nstring m a1 n s1 → nstring m a2 n s2 →
  strncmp m a1 a2 n = Some (bytes_cmp (nbytes n s1) (nbytes n s2)).
Proof.
  intros Hw Hn H1 H2. unfold strncmp. destruct (Z.eqb_spec n 0) as [->|]; [done|].
  destruct (strncmp_words_eq m (bytes_cmp (nbytes n s1) (nbytes n s2)) a1 a2 n)
    as (r & -> & Hr); [done|exists s1, s2; split_and!; [done..|lia]|].
  simpl. destruct r as [r|[[q1 q2] k]]; [by subst|]. by apply strncmp_bytes_eq.
Qed.

(** ** Correctness of the comparisons *)

(** [memcmp] returns the difference of the first bytes that differ, zero
    when all agree; the word-at-a-time version and the byte loop compute the
    same value, which is zero only for equal contents and changes sign with
    the order of the arguments. *)
Theorem memcmp_correct m a1 a2 l1 l2 :
  bytes_at m a1 l1 → bytes_at m a2 l2 → length l1 = length l2 →
  ∃ r, memcmp m a1 a2 (Z.of_nat (length l1)) = Some r ∧
    memcmp_size m a1 a2 (Z.of_nat (length l1)) = Some r ∧
    memcmp m a2 a1 (Z.of_nat (length l1)) = Some (- r) ∧
    r = bytes_cmp l1 l2 ∧ (r = 0 ↔ l1 = l2).
Proof.
  intros H1 H2 Hl. exists (bytes_cmp l1 l2). rewrite (memcmp_eq m a1 a2 l1 l2) by done.
  unfold memcmp_size. rewrite (memcmp_bytes_eq m a1 a2 l1 l2) by done.
  split_and!; [done..| |done|].
  - rewrite Hl, (memcmp_eq m a2 a1 l2 l1) by done. by rewrite bytes_cmp_antisym.
  - split; [by apply bytes_cmp_0|]. intros ->. apply bytes_cmp_refl.
Qed.

Lemma memcmp_correct_witness :
  let m := mk_mem 8 [1; 2; 3; 4; 5; 6; 7; 8; 9; 10; 1; 2; 3; 4; 5; 6; 7; 8; 9; 200] in
  ∃ r, memcmp m 8 18 10 = Some r ∧ memcmp_size m 8 18 10 = Some r ∧
    memcmp m 18 8 10 = Some (- r) ∧
    r = bytes_cmp [1; 2; 3; 4; 5; 6; 7; 8; 9; 10] [1; 2; 3; 4; 5; 6; 7; 8; 9; 200] ∧
    (r = 0 ↔ [1; 2; 3; 4; 5; 6; 7; 8; 9; 10] = [1; 2; 3; 4; 5; 6; 7; 8; 9; 200]).
Proof.
  apply (memcmp_correct _ 8 18 [1; 2; 3; 4; 5; 6; 7; 8; 9; 10] [1; 2; 3; 4; 5; 6; 7; 8; 9; 200]);
    mem_witness.
Defined.

(** C32. [strcmp] compares two strings, terminators included, as unsigned
    bytes: the word-at-a-time version returns exactly what the byte loop
    returns, the result is zero only for equal strings and changes sign with
    the order of the arguments. *)
Theorem strcmp_correct m a1 a2 s1 s2 :
  word_mapped m → cstring m a1 s1 → cstring m a2 s2 →
  ∃ r, strcmp m a1 a2 = Some r ∧ strcmp_size m a1 a2 = Some r ∧
    strcmp m a2 a1 = Some (- r) ∧
    r = bytes_cmp (s1 ++ [0]) (s2 ++ [0]) ∧ (r = 0 ↔ s1 = s2).
Proof.
  intros Hw H1 H2. exists (bytes_cmp (s1 ++ [0]) (s2 ++ [0])).
  rewrite (strcmp_eq m a1 a2 s1 s2), (strcmp_size_eq m a1 a2 s1 s2),
    (strcmp_eq m a2 a1 s2 s1) by done.
  split_and!; [done..| |done|]. { by rewrite bytes_cmp_antisym. }
  split; [apply bytes_cmp_strings; [apply H1|apply H2]|]. intros ->. apply bytes_cmp_refl.
Qed.

Lemma strcmp_correct_witness :
  let m := mk_mem 8 [1; 2; 3; 4; 5; 6; 7; 8; 9; 0; 0; 0; 0; 0; 0; 0;
                     1; 2; 3; 4; 5; 6; 7; 8; 200; 0; 0; 0; 0; 0; 0; 0] in
  ∃ r, strcmp m 8 24 = Some r ∧ strcmp_size m 8 24 = Some r ∧ strcmp m 24 8 = Some (- r) ∧
    r = bytes_cmp [1; 2; 3; 4; 5; 6; 7; 8; 9; 0] [1; 2; 3; 4; 5; 6; 7; 8; 200; 0] ∧
    (r = 0 ↔ [1; 2; 3; 4; 5; 6; 7; 8; 9] = [1; 2; 3; 4; 5; 6; 7; 8; 200]).
Proof.
  apply (strcmp_correct _ 8 24 [1; 2; 3; 4; 5; 6; 7; 8; 9] [1; 2; 3; 4; 5; 6; 7; 8; 200]);
    mem_witness.
Defined.

(** [strncmp] compares at most [n] bytes of two strings, of which only
    those bytes need be readable: both versions return the difference at the
    first mismatch, or zero when the strings agree up to the bound or up to
    their terminators. *)
Theorem strncmp_correct m a1 a2 n s1 s2 :
  word_mapped m → 0 ≤ n → nstring m a1 n s1 → nstring m a2 n s2 →
  strncmp m a1 a2 n = Some (bytes_cmp (nbytes n s1) (nbytes n s2)) ∧
  strncmp_size m a1 a2 n = strncmp m a1 a2 n.
Proof.
  intros. rewrite (strncmp_eq m a1 a2 n s1 s2), (strncmp_size_eq m a1 a2 n s1 s2) by done.
  done.
Qed.

Lemma strncmp_correct_witness :
  let m := mk_mem 8 [1; 2; 3; 4; 5; 6; 7; 8; 9; 0; 0; 0; 0; 0; 0; 0;
                     1; 2; 3; 4; 5; 6; 7; 8; 200; 1; 1; 1; 1; 1; 1; 1] in
  strncmp m 8 24 9 = Some (9 - 200) ∧ strncmp_size m 8 24 9 = strncmp m 8 24 9.
Proof.
  apply (strncmp_correct _ 8 24 9 [1; 2; 3; 4; 5; 6; 7; 8; 9] [1; 2; 3; 4; 5; 6; 7; 8; 200]);
    mem_witness.
Defined.
