(* ===== verification/StrCopy.v ===== *)
(** * Copying and filling memory

    Models the copying functions of src/ports/newlib/newlib/libc/string:
    [memcpy], [mempcpy], [memmove], [memset], [memccpy], [strcpy], [stpcpy],
    [strncpy], [stpncpy], [strcat], [strncat], [strlcpy] and [strlcat].
    Memory is passed through every store, so a copy whose source and
    destination overlap reads what it has already overwritten.  Each function
    returns the new memory and the C result. *)

From S2P Require Import Prelude Memory StrScan StrCmp.

(** ** The copy loops *)

(** [*dst = *src] for bytes and for words. *)
Definition copy_byte (m : mem) (dst src : Z) : option mem :=
  b ← load8 m src; store8 m dst b.

Definition copy_word (m : mem) (dst src : Z) : option mem :=
  w ← load64 m src; store64 m dst w.

(** [while (len--) *dst++ = *src++;] *)
Definition copy_bytes (m : mem) (dst src len : Z) : option (mem * Z) :=
  loop (S (Z.to_nat len)) (λ '(m, dst, src, len),
    if len =? 0 then leave (m, dst)
    else m ← copy_byte m dst src; continue (m, dst + 1, src + 1, len - 1)) (m, dst, src, len).

(** [while (len--) *--dst = *--src;] *)
Definition copy_bytes_down (m : mem) (dst src len : Z) : option mem :=
  loop (S (Z.to_nat len)) (λ '(m, dst, src, len),
    if len =? 0 then leave m
    else
      let dst := dst - 1 in
      let src := src - 1 in
      m ← copy_byte m dst src; continue (m, dst, src, len - 1)) (m, dst, src, len).

(** The body the files memcpy.c, mempcpy.c and memmove.c share: four words at a
    time, then one word at a time when both pointers are aligned, then bytes. *)
Definition copy_forward (m : mem) (dst src len : Z) : option (mem * Z) :=
  '(m, dst, src, len) ←
    (if negb (TOO_SMALL_LITTLE_BLOCK len) && negb (UNALIGNED_X_Y src dst) then
       '(m, aligned_dst, aligned_src, len) ←
         loop (S (Z.to_nat len)) (λ '(m, d, s, len),
           if TOO_SMALL_BIG_BLOCK len then leave (m, d, s, len)
           else
             m ← copy_word m d s;
             m ← copy_word m (d + 8) (s + 8);
             m ← copy_word m (d + 16) (s + 16);
             m ← copy_word m (d + 24) (s + 24);
             continue (m, d + 32, s + 32, len - BIG_BLOCK_SIZE)) (m, dst, src, len);
       loop (S (Z.to_nat len)) (λ '(m, d, s, len),
         if TOO_SMALL_LITTLE_BLOCK len then leave (m, d, s, len)
         else
           m ← copy_word m d s;
           continue (m, d + 8, s + 8, len - LITTLE_BLOCK_SIZE))
         (m, aligned_dst, aligned_src, len)
     else Some (m, dst, src, len));
  copy_bytes m dst src len.

Definition memcpy (m : mem) (dst0 src0 len0 : Z) : option (mem * Z) :=
  '(m, _) ← copy_forward m dst0 src0 len0; Some (m, dst0).

Definition memcpy_size (m : mem) (dst0 src0 len0 : Z) : option (mem * Z) :=
  '(m, _) ← copy_bytes m dst0 src0 len0; Some (m, dst0).

Definition mempcpy (m : mem) (dst0 src0 len0 : Z) : option (mem * Z) :=
  copy_forward m dst0 src0 len0.

Definition memmove (m : mem) (dst_void src_void length : Z) : option (mem * Z) :=
  if (src_void <? dst_void) && (dst_void <? src_void + length) then
    let src := src_void + length in
    let dst := dst_void + length in
    '(m, dst, src, length) ←
      (if negb (TOO_SMALL_LITTLE_BLOCK length) && negb (UNALIGNED_X_Y src dst) then
         loop (S (Z.to_nat length)) (λ '(m, d, s, length),
           if TOO_SMALL_LITTLE_BLOCK length then leave (m, d, s, length)
           else
             let d := d - 8 in
             let s := s - 8 in
             m ← copy_word m d s;
             continue (m, d, s, length - LITTLE_BLOCK_SIZE)) (m, dst, src, length)
       else Some (m, dst, src, length));
    m ← copy_bytes_down m dst src length;
    Some (m, dst_void)
  else
    '(m, _) ← copy_forward m dst_void src_void length; Some (m, dst_void).

(** ** memset.c *)

Definition memset (m0 : mem) (p c n : Z) : option (mem * Z) :=
  let d := Z.land c 0xff in
  r ← loop (S (Z.to_nat n)) (λ '(m, s, n),
    if UNALIGNED_X s then
      if n =? 0 then leave (inl m)
      else m ← store8 m s c; continue (m, s + 1, n - 1)
    else leave (inr (m, s, n))) (m0, p, n);
  match r with
  | inl m => Some (m, p)
  | inr (m, s, n) =>
      '(m, s, n) ←
        (if TOO_SMALL_LITTLE_BLOCK n then Some (m, s, n)
         else
           buffer ← fill_mask d;
           '(m, s, n) ←
             loop (S (Z.to_nat n)) (λ '(m, s, n),
               if TOO_SMALL_BIG_BLOCK n then leave (m, s, n)
               else
                 m ← store64 m s buffer;
                 m ← store64 m (s + 8) buffer;
                 m ← store64 m (s + 16) buffer;
                 m ← store64 m (s + 24) buffer;
                 continue (m, s + 32, n - BIG_BLOCK_SIZE)) (m, s, n);
           loop (S (Z.to_nat n)) (λ '(m, s, n),
             if TOO_SMALL_LITTLE_BLOCK n then leave (m, s, n)
             else
               m ← store64 m s buffer;
               continue (m, s + 8, n - LITTLE_BLOCK_SIZE)) (m, s, n));
      m ← loop (S (Z.to_nat n)) (λ '(m, s, n),
        if n =? 0 then leave m
        else m ← store8 m s c; continue (m, s + 1, n - 1)) (m, s, n);
      Some (m, p)
  end.

(** ** memccpy.c *)

Definition memccpy (m : mem) (dst0 src0 endchar0 len0 : Z) : option (mem * Z) :=
  let endchar := Z.land endchar0 0xff in
  '(m, dst, src, len) ←
    (if negb (TOO_SMALL_LITTLE_BLOCK len0) && negb (UNALIGNED_X_Y src0 dst0) then
       mask ← fill_mask endchar;
       loop (S (Z.to_nat len0)) (λ '(m, d, s, len),
         if TOO_SMALL_LITTLE_BLOCK len then leave (m, d, s, len)
         else
           w ← load64 m s;
           let buffer := Z.lxor w mask in
           if truth (DETECT_NULL buffer) then leave (m, d, s, len)
           else
             m ← copy_word m d s;
             continue (m, d + 8, s + 8, len - LITTLE_BLOCK_SIZE)) (m, dst0, src0, len0)
     else Some (m, dst0, src0, len0));
  loop (S (Z.to_nat len)) (λ '(m, dst, src, len),
    if len =? 0 then leave (m, 0)
    else
      b ← load8 m src;
      m ← store8 m dst b;
      if b =? endchar then leave (m, dst + 1)
      else continue (m, dst + 1, src + 1, len - 1)) (m, dst, src, len).

(** ** strcpy.c, stpcpy.c *)

(** [while ( *dst++ = *src++) ;], with the pointer past the NUL written. *)
Definition strcpy_bytes (m : mem) (dst src : Z) : option (mem * Z) :=
  loop (fuel m) (λ '(m, dst, src),
    b ← load8 m src;
    m ← store8 m dst b;
    if truth b then continue (m, dst + 1, src + 1) else leave (m, dst + 1)) (m, dst, src).

Definition strcpy_words (m : mem) (dst src : Z) : option (mem * Z * Z) :=
  if UNALIGNED_X_Y src dst then Some (m, dst, src)
  else
    loop (fuel m) (λ '(m, d, s),
      w ← load64 m s;
      if truth (DETECT_NULL w) then leave (m, d, s)
      else m ← copy_word m d s; continue (m, d + 8, s + 8)) (m, dst, src).

Definition strcpy_size (m : mem) (dst0 src0 : Z) : option (mem * Z) :=
  '(m, _) ← strcpy_bytes m dst0 src0; Some (m, dst0).

Definition strcpy (m : mem) (dst0 src0 : Z) : option (mem * Z) :=
  '(m, dst, src) ← strcpy_words m dst0 src0;
  '(m, _) ← strcpy_bytes m dst src;
  Some (m, dst0).

Definition stpcpy (m : mem) (dst src : Z) : option (mem * Z) :=
  '(m, dst, src) ← strcpy_words m dst src;
  '(m, dst) ← strcpy_bytes m dst src;
  Some (m, dst - 1).

(** ** strncpy.c, stpncpy.c *)

Definition strncpy_words (m : mem) (dst src count : Z) : option (mem * Z * Z * Z) :=
  if negb (UNALIGNED_X_Y src dst) && negb (TOO_SMALL_LITTLE_BLOCK count) then
    loop (S (Z.to_nat count)) (λ '(m, d, s, count),
      if TOO_SMALL_LITTLE_BLOCK count then leave (m, d, s, count)
      else
        w ← load64 m s;
        if truth (DETECT_NULL w) then leave (m, d, s, count)
        else
          m ← copy_word m d s;
          continue (m, d + 8, s + 8, count - LITTLE_BLOCK_SIZE)) (m, dst, src, count)
  else Some (m, dst, src, count).

(** [while (count > 0) { --count; if (( *dst++ = *src++) == '\0') { ret = dst - 1; break; } }],
    with [ret] (NULL in strncpy.c, which has no such variable). *)
Definition strncpy_bytes (m : mem) (dst src count : Z) : option (mem * Z * Z * Z) :=
  loop (S (Z.to_nat count)) (λ '(m, dst, src, count),
    if negb (0 <? count) then leave (m, dst, count, 0)
    else
      b ← load8 m src;
      m ← store8 m dst b;
      if b =? 0 then leave (m, dst + 1, count - 1, dst)
      else continue (m, dst + 1, src + 1, count - 1)) (m, dst, src, count).

(** [while (count-- > 0) *dst++ = '\0';] *)
Definition fill_zero (m : mem) (dst count : Z) : option (mem * Z) :=
  loop (S (Z.to_nat count)) (λ '(m, dst, count),
    if negb (0 <? count) then leave (m, dst)
    else m ← store8 m dst 0; continue (m, dst + 1, count - 1)) (m, dst, count).

Definition strncpy (m : mem) (dst0 src0 count : Z) : option (mem * Z) :=
  '(m, dst, src, count) ← strncpy_words m dst0 src0 count;
  '(m, dst, count, _) ← strncpy_bytes m dst src count;
  '(m, _) ← fill_zero m dst count;
  Some (m, dst0).

Definition stpncpy (m : mem) (dst src count : Z) : option (mem * Z) :=
  '(m, dst, src, count) ← strncpy_words m dst src count;
  '(m, dst, count, ret) ← strncpy_bytes m dst src count;
  '(m, dst) ← fill_zero m dst count;
  Some (m, if truth ret then ret else dst).

(** ** strcat.c, strncat.c *)

(** The end of the string at [s1]: both files skip to a word boundary, then by
    words, then by bytes. *)
Definition find_end (m : mem) (s1 : Z) : option Z :=
  s1 ← loop (fuel m) (λ s1,
    if UNALIGNED_X s1 then
      b ← load8 m s1; if truth b then continue (s1 + 1) else leave s1
    else leave s1) s1;
  b ← load8 m s1;
  if truth b then
    aligned_s1 ← word_while m (λ w, truth (DETECT_NULL w)) s1;
    byte_while m (λ b, b =? 0) aligned_s1
  else Some s1.

Definition strcat (m : mem) (s1 s2 : Z) : option (mem * Z) :=
  e ← find_end m s1;
  '(m, _) ← strcpy m e s2;
  Some (m, s1).

(** [while (n-- != 0 && ( *s1++ = *s2++)) { if (n == 0) *s1 = '\0'; }] *)
Definition strncat_bytes (m : mem) (s1 s2 n : Z) : option mem :=
  loop (S (Z.to_nat n)) (λ '(m, s1, s2, n),
    if n =? 0 then leave m
    else
      let n := n - 1 in
      b ← load8 m s2;
      m ← store8 m s1 b;
      if truth b then
        m ← (if n =? 0 then store8 m (s1 + 1) 0 else Some m);
        continue (m, s1 + 1, s2 + 1, n)
      else leave m) (m, s1, s2, n).

Definition strncat (m : mem) (s1 s2 n : Z) : option (mem * Z) :=
  e ← find_end m s1;
  m ← strncat_bytes m e s2 n;
  Some (m, s1).

(** ** strlcpy.c, strlcat.c *)

(** [while (--nleft != 0) { if (( *dst++ = *src++) == '\0') break; }] *)
Definition strlcpy_bytes (m : mem) (dst src nleft : Z) : option (mem * Z * Z * Z) :=
  loop (S (Z.to_nat nleft)) (λ '(m, dst, src, nleft),
    let nleft := nleft - 1 in
    if nleft =? 0 then leave (m, dst, src, nleft)
    else
      b ← load8 m src;
      m ← store8 m dst b;
      if b =? 0 then leave (m, dst + 1, src + 1, nleft)
      else continue (m, dst + 1, src + 1, nleft)) (m, dst, src, nleft).

Definition strlcpy (m : mem) (dst src dsize : Z) : option (mem * Z) :=
  let osrc := src in
  let nleft := dsize in
  '(m, dst, src, nleft) ←
    (if negb (nleft =? 0) then strlcpy_bytes m dst src nleft else Some (m, dst, src, nleft));
  '(m, src) ←
    (if nleft =? 0 then
       m ← (if negb (dsize =? 0) then store8 m dst 0 else Some m);
       src ← byte_while m (λ b, b =? 0) src;
       Some (m, src + 1)
     else Some (m, src));
  Some (m, src - osrc - 1).

(** [while (n-- != 0 && *dst != '\0') dst++] *)
Definition strlcat_end (m : mem) (dst n : Z) : option Z :=
  loop (S (Z.to_nat n)) (λ '(dst, n),
    if n =? 0 then leave dst
    else b ← load8 m dst; if b =? 0 then leave dst else continue (dst + 1, n - 1)) (dst, n).

(** The loop over [src], which copies while [n] lasts and then only counts. *)
Definition strlcat_bytes (m : mem) (dst src n : Z) : option (mem * Z * Z) :=
  loop (fuel m) (λ '(m, dst, src, n),
    b ← load8 m src;
    if b =? 0 then leave (m, dst, src)
    else if negb (n =? 0) then
      m ← store8 m dst b; continue (m, dst + 1, src + 1, n - 1)
    else continue (m, dst, src + 1, n)) (m, dst, src, n).

Definition strlcat (m : mem) (dst src dsize : Z) : option (mem * Z) :=
  let odst := dst in
  let osrc := src in
  dst ← strlcat_end m dst dsize;
  let dlen := dst - odst in
  let n := dsize - dlen in
  if n =? 0 then
    l ← strlen m src; Some (m, dlen + l)
  else
    '(m, dst, src) ← strlcat_bytes m dst src (n - 1);
    m ← store8 m dst 0;
    Some (m, dlen + (src - osrc)).

(** ** Single copies *)

Lemma store8_byte m a v :
  mapped m a 1 → store8 m a v = Some (write_bytes m a [v]).
Proof. apply store8_mapped. Qed.

Lemma copy_byte_eq m dst src b :
  load8 m src = Some b → mapped m dst 1 → copy_byte m dst src = Some (write_bytes m dst [b]).
Proof. intros Hb Hm. unfold copy_byte. rewrite Hb. simpl. by apply store8_mapped. Qed.

Lemma copy_word_eq m dst src l :
  bytes_at m src l → length l = 8%nat → mapped m dst 8 → src mod 8 = 0 → dst mod 8 = 0 →
  copy_word m dst src = Some (write_bytes m dst l).
Proof.
  intros Hat Hl Hm Hs Hd. unfold copy_word. rewrite (load64_bytes _ _ l) by done. simpl.
  apply store64_combine; [done..|]. by eapply bytes_at_bytes.
Qed.

(** ** Copying upwards

    [l] is what the source holds before the copy.  After [k] bytes the
    destination holds the first [k] of them and the source still holds the
    others, provided the destination does not start inside the source. *)
Section forward.
Context (m : mem) (dst src : Z) (l : list Z).
#[local] Abbreviation n := (Z.of_nat (length l)).
Context (Hat : bytes_at m src l) (Hmap : mapped m dst n)
  (Hov : ¬ (src < dst < src + n)).

Definition fwd (k : nat) : mem := write_bytes m dst (take k l).

Lemma fwd_0 : fwd 0 = m.
Proof. done. Qed.
Lemma fwd_all k : (length l ≤ k)%nat → fwd k = write_bytes m dst l.
Proof. intros. unfold fwd. by rewrite take_ge. Qed.

Lemma fwd_mapped k a j : mapped m a j → mapped (fwd k) a j.
Proof. apply mapped_write_bytes. Qed.

Lemma fwd_dst_mapped k j : Z.of_nat k + j ≤ n → mapped (fwd k) (dst + Z.of_nat k) j.
Proof using Hmap. intros. apply fwd_mapped. eapply mapped_sub; [exact Hmap|lia..]. Qed.

(** The next [j] bytes of the source are intact. *)
Lemma fwd_src k j : (k + j ≤ length l)%nat →
  bytes_at (fwd k) (src + Z.of_nat k) (take j (drop k l)) ∧
  length (take j (drop k l)) = j.
Proof using Hat Hov.
  intros Hk. destruct (bytes_at_chunk m src l k j Hat Hk) as [Hc Hl].
  split; [|done]. apply bytes_at_write_bytes_ne; [done|].
  rewrite Hl, length_take. lia.
Qed.

Lemma fwd_write k j : (k ≤ length l)%nat →
  write_bytes (fwd k) (dst + Z.of_nat k) (take j (drop k l)) = fwd (k + j).
Proof.
  intros. unfold fwd. rewrite <- take_take_drop, write_bytes_app.
  rewrite length_take, Nat.min_l by done. done.
Qed.

Lemma fwd_byte k : (k < length l)%nat →
  copy_byte (fwd k) (dst + Z.of_nat k) (src + Z.of_nat k) = Some (fwd (S k)).
Proof using Hat Hov Hmap.
  intros Hk. destruct (fwd_src k 1) as [Hs _]; [lia|].
  destruct (lookup_lt_is_Some_2 l k Hk) as [b Hb].
  rewrite (drop_S _ _ _ Hb) in Hs. apply bytes_at_cons in Hs as [Hs _].
  rewrite (copy_byte_eq _ _ _ b) by (done || apply fwd_dst_mapped; lia).
  rewrite <- (Nat.add_1_r k), <- fwd_write by lia. by rewrite (drop_S _ _ _ Hb).
Qed.

Lemma fwd_word k d s : (k + 8 ≤ length l)%nat →
  d = dst + Z.of_nat k → s = src + Z.of_nat k → d mod 8 = 0 → s mod 8 = 0 →
  copy_word (fwd k) d s = Some (fwd (k + 8)).
Proof using Hat Hov Hmap.
  intros Hk -> -> Hd Hs. destruct (fwd_src k 8 Hk) as [Hc Hl].
  rewrite (copy_word_eq _ _ _ _ Hc Hl) by (done || apply fwd_dst_mapped; lia).
  by rewrite fwd_write by lia.
Qed.

Definition fwd_inv (st : mem * Z * Z * Z) : Prop :=
  ∃ k : nat, st = (fwd k, dst + Z.of_nat k, src + Z.of_nat k, n - Z.of_nat k) ∧
    (k ≤ length l)%nat.

Lemma copy_bytes_eq st : fwd_inv st →
  let '(m', d, s, len) := st in
  copy_bytes m' d s len = Some (write_bytes m dst l, dst + n).
Proof using Hat Hov Hmap.
  intros (k & -> & Hk). unfold copy_bytes.
  apply (loop_inv_eq fwd_inv _ (λ '(_, _, _, len), len)); [|by exists k|lia].
  intros [[[m' d] s] len] (j & [= -> -> -> ->] & Hj). split; [lia|].
  destruct (Z.eqb_spec (n - Z.of_nat j) 0).
  - rewrite fwd_all by (lia). f_equal. lia.
  - rewrite fwd_byte by (lia). simpl. split; [|lia].
    exists (S j). split; [|lia]. tuple_eq.
Qed.

Lemma copy_forward_eq :
  copy_forward m dst src n = Some (write_bytes m dst l, dst + n).
Proof using Hat Hov Hmap.
  unfold copy_forward.
  assert (fwd_inv (m, dst, src, n)) as HI.
  { exists 0%nat. split; [|lia]. rewrite fwd_0. tuple_eq. }
  destruct (TOO_SMALL_LITTLE_BLOCK n) eqn:Hts, (UNALIGNED_X_Y src dst) eqn:Hu; simpl;
    try exact (copy_bytes_eq _ HI).
  apply UNALIGNED_X_Y_false in Hu as [Hs Hd].
  set (I := λ st, fwd_inv st ∧ (st.1.1.2 : Z) mod 8 = 0 ∧ st.1.2 mod 8 = 0).
  edestruct (loop_inv I I (λ '(_, _, _, len), len)) as ([[[m1 d1] s1] n1] & -> & HI1);
    [|by split|lia|].
  { intros [[[m' d] s] len] [(k & [= -> -> -> ->] & Hk) [Hdk Hsk]]. simpl in Hdk, Hsk.
    split; [lia|]. unfold TOO_SMALL_BIG_BLOCK, BIG_BLOCK_SIZE.
    change (Z.shiftl 8 2) with 32. destruct (Z.ltb_spec (n - Z.of_nat k) 32).
    - split; [by exists k|done].
    - rewrite (fwd_word k) by (done || lia). simpl.
      do 3 (rewrite fwd_word by (Z.div_mod_to_equations; lia); simpl).
      split; [|lia]. split; [|simpl; split; Z.div_mod_to_equations; lia].
      exists (k + 8 + 8 + 8 + 8)%nat. split; [tuple_eq|lia]. }
  simpl. assert (0 ≤ n1) by (destruct HI1 as [(k & [= -> -> -> ->] & Hk) _]; lia).
  edestruct (loop_inv I I (λ '(_, _, _, len), len)) as ([[[m2 d2] s2] n2] & -> & HI2 & _);
    [|exact HI1|lia|exact (copy_bytes_eq _ HI2)].
  intros [[[m' d] s] len] [(k & [= -> -> -> ->] & Hk) [Hdk Hsk]]. simpl in Hdk, Hsk.
  split; [lia|]. unfold TOO_SMALL_LITTLE_BLOCK, LITTLE_BLOCK_SIZE.
  destruct (Z.ltb_spec (n - Z.of_nat k) 8).
  - split; [by exists k|done].
  - rewrite fwd_word by (done || lia). simpl. split; [|lia].
    split; [|simpl; split; Z.div_mod_to_equations; lia].
    exists (k + 8)%nat. split; [tuple_eq|lia].
Qed.
End forward.

(** ** Copying downwards

    The mirror image for a destination that starts inside the source: [k]
    bytes are still to be copied. *)
Section backward.
Context (m : mem) (dst src : Z) (l : list Z).
#[local] Abbreviation n := (Z.of_nat (length l)).
Context (Hat : bytes_at m src l) (Hmap : mapped m dst n) (Hov : src ≤ dst).

Definition bwd (k : nat) : mem := write_bytes m (dst + Z.of_nat k) (drop k l).

Lemma bwd_all : bwd (length l) = m.
Proof. unfold bwd. by rewrite drop_all. Qed.
Lemma bwd_0 : bwd 0 = write_bytes m dst l.
Proof. unfold bwd. by rewrite drop_0, Z.add_0_r. Qed.

Lemma bwd_dst_mapped k j : 0 ≤ j ≤ Z.of_nat k → (k ≤ length l)%nat →
  mapped (bwd k) (dst + Z.of_nat k - j) j.
Proof using Hmap.
  intros. apply mapped_write_bytes. eapply mapped_sub; [exact Hmap|lia..].
Qed.

Lemma bwd_src k j : (j ≤ k)%nat → (k ≤ length l)%nat →
  bytes_at (bwd k) (src + Z.of_nat k - Z.of_nat j) (take j (drop (k - j) l)) ∧
  length (take j (drop (k - j) l)) = j.
Proof using Hat Hov.
  intros Hj Hk. destruct (bytes_at_chunk m src l (k - j) j Hat) as [Hc Hl]; [lia|].
  split; [|done]. replace (src + Z.of_nat k - Z.of_nat j) with (src + Z.of_nat (k - j)) by lia.
  apply bytes_at_write_bytes_ne; [done|]. rewrite Hl. lia.
Qed.

Lemma bwd_write k j : (j ≤ k)%nat → (k ≤ length l)%nat →
  write_bytes (bwd k) (dst + Z.of_nat k - Z.of_nat j) (take j (drop (k - j) l)) = bwd (k - j).
Proof.
  intros Hj Hk. unfold bwd.
  replace (drop (k - j) l) with (take j (drop (k - j) l) ++ drop k l) at 2.
  2: { replace (drop k l) with (drop j (drop (k - j) l)); [apply take_drop|].
       rewrite drop_drop. f_equal. lia. }
  rewrite write_bytes_app, length_take, length_drop, Nat.min_l by lia.
  replace (dst + Z.of_nat (k - j)) with (dst + Z.of_nat k - Z.of_nat j) by lia.
  replace (dst + Z.of_nat k - Z.of_nat j + Z.of_nat j) with (dst + Z.of_nat k) by lia.
  apply write_bytes_comm. right. rewrite length_take. lia.
Qed.

Lemma bwd_byte k : (k < length l)%nat →
  copy_byte (bwd (S k)) (dst + Z.of_nat k) (src + Z.of_nat k) = Some (bwd k).
Proof using Hat Hov Hmap.
  intros Hk. destruct (bwd_src (S k) 1) as [Hs _]; [lia..|].
  pose proof (bwd_write (S k) 1) as Hw. pose proof (bwd_dst_mapped (S k) 1) as Hm.
  replace (S k - 1)%nat with k in * by lia.
  replace (src + Z.of_nat (S k) - Z.of_nat 1) with (src + Z.of_nat k) in * by lia.
  replace (dst + Z.of_nat (S k) - Z.of_nat 1) with (dst + Z.of_nat k) in * by lia.
  replace (dst + Z.of_nat (S k) - 1) with (dst + Z.of_nat k) in * by lia.
  destruct (lookup_lt_is_Some_2 l k Hk) as [b Hb].
  rewrite (drop_S _ _ _ Hb) in *. apply bytes_at_cons in Hs as [Hs _].
  rewrite (copy_byte_eq _ _ _ b) by (done || apply Hm; lia).
  f_equal. apply Hw; lia.
Qed.

Lemma bwd_word k d s : (k + 8 ≤ length l)%nat →
  d = dst + Z.of_nat k → s = src + Z.of_nat k → d mod 8 = 0 → s mod 8 = 0 →
  copy_word (bwd (k + 8)) d s = Some (bwd k).
Proof using Hat Hov Hmap.
  intros Hk -> -> Hd Hs. destruct (bwd_src (k + 8) 8) as [Hc Hl]; [lia..|].
  pose proof (bwd_write (k + 8) 8) as Hw. pose proof (bwd_dst_mapped (k + 8) 8) as Hm.
  replace (k + 8 - 8)%nat with k in * by lia.
  replace (src + Z.of_nat (k + 8) - Z.of_nat 8) with (src + Z.of_nat k) in * by lia.
  replace (dst + Z.of_nat (k + 8) - Z.of_nat 8) with (dst + Z.of_nat k) in * by lia.
  replace (dst + Z.of_nat (k + 8) - 8) with (dst + Z.of_nat k) in * by lia.
  rewrite (copy_word_eq _ _ _ _ Hc Hl) by (done || apply Hm; lia).
  f_equal. apply Hw; lia.
Qed.

Definition bwd_inv (st : mem * Z * Z * Z) : Prop :=
  ∃ k : nat, st = (bwd k, dst + Z.of_nat k, src + Z.of_nat k, Z.of_nat k) ∧
    (k ≤ length l)%nat.

Lemma copy_bytes_down_eq st : bwd_inv st →
  let '(m', d, s, len) := st in
  copy_bytes_down m' d s len = Some (write_bytes m dst l).
Proof using Hat Hov Hmap.
  intros (k & -> & Hk). unfold copy_bytes_down.
  apply (loop_inv_eq bwd_inv _ (λ '(_, _, _, len), len)); [|by exists k|lia].
  intros [[[m' d] s] len] (j & [= -> -> -> ->] & Hj). split; [lia|].
  destruct (Z.eqb_spec (Z.of_nat j) 0).
  - replace j with 0%nat by lia. apply bwd_0.
  - destruct j as [|j]; [done|]. cbv zeta.
    replace (dst + Z.of_nat (S j) - 1) with (dst + Z.of_nat j) by lia.
    replace (src + Z.of_nat (S j) - 1) with (src + Z.of_nat j) by lia.
    rewrite bwd_byte by lia. simpl. split; [|lia].
    exists j. split; [tuple_eq|lia].
Qed.

Lemma memmove_down_eq :
  src < dst → dst < src + n → memmove m dst src n = Some (write_bytes m dst l, dst).
Proof using Hat Hov Hmap.
  intros Hlt Hin. unfold memmove.
  rewrite (proj2 (Z.ltb_lt _ _) Hlt), (proj2 (Z.ltb_lt _ _) Hin). cbn [andb]. cbv zeta.
  assert (bwd_inv (m, dst + n, src + n, n)) as HI.
  { exists (length l). split; [|lia]. by rewrite bwd_all. }
  destruct (TOO_SMALL_LITTLE_BLOCK n) eqn:Hts, (UNALIGNED_X_Y (src + n) (dst + n)) eqn:Hu;
    simpl; try by rewrite (copy_bytes_down_eq _ HI).
  apply UNALIGNED_X_Y_false in Hu as [Hs Hd].
  edestruct (loop_inv (λ st, bwd_inv st ∧ (st.1.1.2 : Z) mod 8 = 0 ∧ st.1.2 mod 8 = 0)
    bwd_inv (λ '(_, _, _, len), len)) as ([[[m1 d1] s1] n1] & -> & HI1);
    [|by split|simpl; lia|simpl; by rewrite (copy_bytes_down_eq _ HI1)].
  intros [[[m' d] s] len] [(k & [= -> -> -> ->] & Hk) [Hdk Hsk]]. simpl in Hdk, Hsk.
  split; [lia|]. unfold TOO_SMALL_LITTLE_BLOCK, LITTLE_BLOCK_SIZE.
  destruct (Z.ltb_spec (Z.of_nat k) 8); [by exists k|].
  replace k with (k - 8 + 8)%nat in * by lia. set (j := (k - 8)%nat) in *. cbv zeta.
  rewrite (bwd_word j) by (Z.div_mod_to_equations; lia). simpl.
  split; [|lia]. split; [exists j; split; [tuple_eq|lia]|].
  simpl; split; Z.div_mod_to_equations; lia.
Qed.
End backward.

Lemma memmove_eq m dst src l :
  bytes_at m src l → mapped m dst (Z.of_nat (length l)) →
  memmove m dst src (Z.of_nat (length l)) = Some (write_bytes m dst l, dst).
Proof.
  intros Hat Hm. destruct (decide (src < dst < src + Z.of_nat (length l))) as [[??]|Hov].
  - by apply memmove_down_eq; [..|lia|lia|].
  - unfold memmove.
    replace ((src <? dst) && (dst <? src + Z.of_nat (length l))) with false.
    + by rewrite copy_forward_eq.
    + symmetry. apply andb_false_iff. rewrite !Z.ltb_ge. lia.
Qed.

(** ** Filling *)

Lemma land_0xff c : Z.land c 0xff = u8 c.
Proof. apply (land_low_mask 8). lia. Qed.

Section fill.
Context (m : mem) (p c : Z) (n : nat) (Hmap : mapped m p (Z.of_nat n)).
#[local] Abbreviation d := (u8 c).

Definition filled (k : nat) : mem := write_bytes m p (replicate k d).

Lemma filled_mapped k j : Z.of_nat k + j ≤ Z.of_nat n → mapped (filled k) (p + Z.of_nat k) j.
Proof using Hmap.
  intros. apply mapped_write_bytes. eapply mapped_sub; [exact Hmap|lia..].
Qed.

Lemma filled_add k j :
  write_bytes (filled k) (p + Z.of_nat k) (replicate j d) = filled (k + j).
Proof. unfold filled. by rewrite replicate_add, write_bytes_app, length_replicate. Qed.

Lemma filled_byte k : (k < n)%nat →
  store8 (filled k) (p + Z.of_nat k) c = Some (filled (S k)).
Proof using Hmap.
  intros Hk. rewrite store8_mapped by (apply filled_mapped; lia).
  rewrite <- (Nat.add_1_r k), <- filled_add. simpl. by rewrite wrapu_wrapu.
Qed.

Lemma filled_word k a : (k + 8 ≤ n)%nat → a = p + Z.of_nat k → a mod 8 = 0 →
  store64 (filled k) a (rep 8 d) = Some (filled (k + 8)).
Proof using Hmap.
  intros Hk -> Ha. unfold rep. rewrite store64_combine; [|done|apply filled_mapped; lia|done|].
  - by rewrite filled_add.
  - apply Forall_replicate, u8_range.
Qed.

Definition fill_inv (st : mem * Z * Z) : Prop :=
  ∃ k : nat, st = (filled k, p + Z.of_nat k, Z.of_nat n - Z.of_nat k) ∧ (k ≤ n)%nat.

Lemma fill_bytes_eq st : fill_inv st →
  let '(m', s, j) := st in
  loop (S (Z.to_nat j)) (λ '(m, s, n),
      if n =? 0 then leave m
      else m ← store8 m s c; continue (m, s + 1, n - 1)) (m', s, j) = Some (filled n).
Proof using Hmap.
  intros (k & -> & Hk).
  apply (loop_inv_eq fill_inv _ (λ '(_, _, j), j)); [|by exists k|lia].
  intros [[m' s] j] (i & [= -> -> ->] & Hi). split; [lia|].
  destruct (Z.eqb_spec (Z.of_nat n - Z.of_nat i) 0).
  - by replace i with n by lia.
  - rewrite filled_byte by lia. simpl. split; [|lia].
    exists (S i). split; [tuple_eq|lia].
Qed.

Lemma memset_eq : memset m p c (Z.of_nat n) = Some (filled n, p).
Proof using Hmap.
  unfold memset. rewrite land_0xff, fill_mask_spec by apply u8_range. cbv zeta.
  assert (fill_inv (m, p, Z.of_nat n)) as HI.
  { exists 0%nat. split; [tuple_eq|lia]. }
  edestruct (loop_inv fill_inv
    (λ r, match r with
          | inl m' => m' = filled n
          | inr st => fill_inv st ∧ st.1.2 mod 8 = 0
          end) (λ '(_, _, j), j)) as (r & -> & Hr); [|exact HI|simpl; lia|].
  { intros [[m' s] j] (k & [= -> -> ->] & Hk). split; [lia|].
    destruct (UNALIGNED_X _) eqn:Hu.
    - destruct (Z.eqb_spec (Z.of_nat n - Z.of_nat k) 0); [by replace k with n by lia|].
      rewrite filled_byte by lia. simpl. split; [|lia].
      exists (S k). split; [tuple_eq|lia].
    - apply UNALIGNED_X_false in Hu. split; [by exists k|done]. }
  simpl. destruct r as [m'|[[m1 s1] n1]]; [by subst|]. destruct Hr as [HI1 Hal].
  assert (0 ≤ n1) by (destruct HI1 as (k & [= -> -> ->] & Hk); lia).
  destruct (TOO_SMALL_LITTLE_BLOCK n1) eqn:Hts.
  { simpl. by rewrite (fill_bytes_eq _ HI1). }
  set (I := λ st, fill_inv st ∧ (st.1.2 : Z) mod 8 = 0). simpl.
  edestruct (loop_inv I I (λ '(_, _, j), j)) as ([[m2 s2] n2] & -> & HI2);
    [|by split|lia|].
  { intros [[m' s] j] [(k & [= -> -> ->] & Hk) Hsk]. simpl in Hsk. split; [lia|].
    unfold TOO_SMALL_BIG_BLOCK, BIG_BLOCK_SIZE. change (Z.shiftl 8 2) with 32.
    destruct (Z.ltb_spec (Z.of_nat n - Z.of_nat k) 32); [split; [by exists k|done]|].
    rewrite filled_word by (done || lia). simpl.
    do 3 (rewrite filled_word by (Z.div_mod_to_equations; lia); simpl).
    split; [|lia]. split; [|simpl; Z.div_mod_to_equations; lia].
    exists (k + 8 + 8 + 8 + 8)%nat. split; [tuple_eq|lia]. }
  simpl. assert (0 ≤ n2) by (destruct HI2 as [(k & [= -> -> ->] & Hk) _]; lia).
  edestruct (loop_inv I I (λ '(_, _, j), j)) as ([[m3 s3] n3] & -> & HI3 & _);
    [|exact HI2|lia|simpl; by rewrite (fill_bytes_eq _ HI3)].
  intros [[m' s] j] [(k & [= -> -> ->] & Hk) Hsk]. simpl in Hsk. split; [lia|].
  unfold TOO_SMALL_LITTLE_BLOCK, LITTLE_BLOCK_SIZE.
  destruct (Z.ltb_spec (Z.of_nat n - Z.of_nat k) 8); [split; [by exists k|done]|].
  rewrite filled_word by (done || lia). simpl. split; [|lia].
  split; [|simpl; Z.div_mod_to_equations; lia].
  exists (k + 8)%nat. split; [tuple_eq|lia].
Qed.
End fill.

(** ** memccpy *)

(** What [memccpy] copies: up to and including the first [c]. *)
Definition upto (c : Z) (l : list Z) : list Z :=
  match find_byte c l with Some k => take (S k) l | None => l end.

Section memccpy.
Context (m : mem) (dst src c : Z) (l : list Z).
#[local] Abbreviation n := (Z.of_nat (length l)).
Context (Hat : bytes_at m src l) (Hmap : mapped m dst n)
  (Hov : ¬ (src < dst < src + n)) (Hc : is_byte c).

Definition memccpy_inv (st : mem * Z * Z * Z) : Prop :=
  ∃ k : nat, st = (fwd m dst l k, dst + Z.of_nat k, src + Z.of_nat k, n - Z.of_nat k) ∧
    (k ≤ length l)%nat ∧ c ∉ take k l.

Lemma memccpy_bytes_eq st : memccpy_inv st →
  let '(m', d, s, len) := st in
  loop (S (Z.to_nat len)) (λ '(m, dst, src, len),
    if len =? 0 then leave (m, 0)
    else
      b ← load8 m src;
      m ← store8 m dst b;
      if b =? c then leave (m, dst + 1)
      else continue (m, dst + 1, src + 1, len - 1)) (m', d, s, len) =
  Some (write_bytes m dst (upto c l),
        match find_byte c l with Some k => dst + Z.of_nat (S k) | None => 0 end).
Proof using Hat Hov Hmap.
  intros (k & -> & Hk & Hn).
  apply (loop_inv_eq memccpy_inv _ (λ '(_, _, _, len), len)); [|by exists k|lia].
  intros [[[m' d] s] len] (j & [= -> -> -> ->] & Hj & Hnj). split; [lia|].
  destruct (Z.eqb_spec (n - Z.of_nat j) 0).
  - unfold upto. rewrite (proj2 (find_byte_None c l)) by (by rewrite take_ge in Hnj by lia).
    by rewrite fwd_all by lia.
  - destruct (lookup_lt_is_Some_2 l j) as [b Hb]; [lia|].
    pose proof (fwd_byte m dst src l Hat Hmap Hov j ltac:(lia)) as Hcb.
    destruct (fwd_src m dst src l Hat Hov j 1) as [Hs _]; [lia|].
    rewrite (drop_S _ _ _ Hb) in Hs. apply bytes_at_cons in Hs as [Hs _].
    unfold copy_byte in Hcb. rewrite Hs in Hcb |- *. simpl in Hcb |- *. rewrite Hcb. simpl.
    destruct (Z.eqb_spec b c) as [->|].
    + unfold upto. rewrite (proj2 (find_byte_Some c l j)) by done. tuple_eq.
    + split; [|lia]. exists (S j). split_and!; [tuple_eq|lia|].
      by eapply not_elem_of_take_S.
Qed.
End memccpy.

Lemma memccpy_eq m dst src endchar l :
  bytes_at m src l → mapped m dst (Z.of_nat (length l)) →
  ¬ (src < dst < src + Z.of_nat (length l)) →
  memccpy m dst src endchar (Z.of_nat (length l)) =
    Some (write_bytes m dst (upto (u8 endchar) l),
          match find_byte (u8 endchar) l with Some k => dst + Z.of_nat (S k) | None => 0 end).
Proof.
  intros Hat Hmap Hov. unfold memccpy. pose proof (u8_range endchar) as Hc.
  rewrite land_0xff, fill_mask_spec by done. set (c := u8 endchar) in *. cbv zeta.
  assert (memccpy_inv m dst src c l (m, dst, src, Z.of_nat (length l))) as HI.
  { exists 0%nat. split_and!; [tuple_eq|lia|apply not_elem_of_nil]. }
  destruct (TOO_SMALL_LITTLE_BLOCK _) eqn:Hts, (UNALIGNED_X_Y src dst) eqn:Hu; simpl;
    try by apply (memccpy_bytes_eq m dst src c l Hat Hmap Hov _ HI).
  apply UNALIGNED_X_Y_false in Hu as [Hs Hd].
  edestruct (loop_inv (λ st, memccpy_inv m dst src c l st ∧
       (st.1.1.2 : Z) mod 8 = 0 ∧ st.1.2 mod 8 = 0)
     (memccpy_inv m dst src c l) (λ '(_, _, _, len), len)) as ([[[m1 d1] s1] n1] & -> & HI1);
    [|by split|simpl; lia|exact (memccpy_bytes_eq m dst src c l Hat Hmap Hov _ HI1)].
  intros [[[m' d] s] len] [(k & [= -> -> -> ->] & Hk & Hn) [Hdk Hsk]]. simpl in Hdk, Hsk.
  split; [lia|]. unfold TOO_SMALL_LITTLE_BLOCK, LITTLE_BLOCK_SIZE.
  destruct (Z.ltb_spec (Z.of_nat (length l) - Z.of_nat k) 8); [by exists k|].
  destruct (fwd_src m dst src l Hat Hov k 8) as [Hw Hl]; [lia|].
  rewrite (load64_bytes _ _ _ Hsk Hl Hw). simpl.
  pose proof (DETECT_CHAR_spec (take 8 (drop k l)) c Hl) as Hdc.
  unfold DETECT_CHAR in Hdc. rewrite Hdc by eauto using bytes_at_bytes.
  destruct (existsb _ _) eqn:He; [by exists k|].
  rewrite (fwd_word m dst src l Hat Hmap Hov) by (done || lia). simpl.
  split; [|lia]. split; [|simpl; split; Z.div_mod_to_equations; lia].
  exists (k + 8)%nat. split_and!; [tuple_eq|lia|].
  rewrite <- take_take_drop, elem_of_app. apply not_existsb_eqb in He. tauto.
Qed.

(** ** Copying strings *)
Section strcpy.
Context (m : mem) (dst src : Z) (s : list Z).
#[local] Abbreviation l := (s ++ [0]).
#[local] Abbreviation n := (Z.of_nat (length l)).
Context (Hs : cstring m src s) (Hmap : mapped m dst n) (Hov : ¬ (src < dst < src + n)).

Lemma strcpy_src k : (k ≤ length s)%nat →
  cstring (fwd m dst l k) (src + Z.of_nat k) (drop k s).
Proof using Hs Hov.
  intros Hk. destruct Hs as [Hat H0]. split; [|by apply Forall_drop].
  destruct (fwd_src m dst src l Hat Hov k (length l - k)) as [Hc _].
  { rewrite length_app. simpl. lia. }
  rewrite take_ge in Hc by (rewrite length_drop; lia).
  by rewrite drop_app_le in Hc by done.
Qed.

Definition strcpy_inv (st : mem * Z * Z) : Prop :=
  ∃ k : nat, st = (fwd m dst l k, dst + Z.of_nat k, src + Z.of_nat k) ∧ (k ≤ length s)%nat.

Lemma strcpy_bytes_eq st : strcpy_inv st →
  let '(m', d, p) := st in
  strcpy_bytes m' d p = Some (write_bytes m dst l, dst + n).
Proof using Hs Hmap Hov.
  intros (k & -> & Hk). unfold strcpy_bytes.
  pose proof (cstring_fuel _ _ _ (strcpy_src k Hk)) as Hf. rewrite length_drop in Hf.
  apply (loop_inv_eq strcpy_inv _ (λ '(_, _, p), src + Z.of_nat (length s) - p));
    [|by exists k|lia].
  intros [[m' d] p] (j & [= -> -> ->] & Hj). split; [lia|].
  pose proof (fwd_byte m dst src l (proj1 Hs) Hmap Hov j) as Hcb.
  rewrite length_app in Hcb. simpl in Hcb. specialize (Hcb ltac:(lia)).
  unfold copy_byte in Hcb.
  destruct (cstring_head _ _ _ (strcpy_src j Hj)) as [(Hnil & Hb)|(b & t & Hcons & Hb0 & Hb & _)];
    rewrite Hb in Hcb |- *; simpl in Hcb |- *; rewrite Hcb; simpl.
  - apply (f_equal length) in Hnil. rewrite length_drop in Hnil. simpl in Hnil.
    rewrite fwd_all by (rewrite length_app; simpl; lia).
    rewrite length_app. simpl. tuple_eq.
  - rewrite (proj2 (truth_true b)) by done.
    apply (f_equal length) in Hcons. rewrite length_drop in Hcons. simpl in Hcons.
    split; [|lia]. exists (S j). split; [tuple_eq|lia].
Qed.

Lemma strcpy_words_eq : word_mapped m →
  ∃ st, strcpy_words m dst src = Some st ∧ strcpy_inv st.
Proof using Hs Hmap Hov.
  intros Hw. unfold strcpy_words.
  assert (strcpy_inv (m, dst, src)) as HI.
  { exists 0%nat. split; [tuple_eq|lia]. }
  destruct (UNALIGNED_X_Y src dst) eqn:Hu; [by eauto|].
  apply UNALIGNED_X_Y_false in Hu as [Has Had]. pose proof (cstring_fuel _ _ _ Hs).
  apply (loop_inv (λ st, strcpy_inv st ∧ (st.1.2 : Z) mod 8 = 0 ∧ st.2 mod 8 = 0)
    _ (λ '(_, _, p), src + Z.of_nat (length s) - p)); [|done|lia].
  intros [[m' d] p] [(k & [= -> -> ->] & Hk) [Hdk Hsk]]. simpl in Hdk, Hsk. split; [lia|].
  pose proof (strcpy_src k Hk) as Hsrc.
  destruct (load64_word_mapped (fwd m dst l k) (src + Z.of_nat k) (src + Z.of_nat k))
    as (w & Hlw & Hat & ->); [|done|lia|by eapply cstring_mapped|].
  { apply word_mapped_write_bytes; [|done]. eapply mapped_sub; [exact Hmap|lia|].
    rewrite length_take. lia. }
  simpl. rewrite DETECT_NULL_spec by eauto using bytes_at_bytes.
  destruct (existsb _ w) eqn:He; [by exists k|].
  destruct (cstring_word _ _ _ _ Hsrc Hat) as [Hf _]. destruct (Hf He) as [t Ht].
  apply (f_equal length) in Ht. rewrite length_drop, length_app in Ht.
  rewrite (fwd_word m dst src l (proj1 Hs) Hmap Hov)
    by (done || rewrite ?length_app; simpl; lia).
  simpl. split; [|lia]. split; [|simpl; split; Z.div_mod_to_equations; lia].
  exists (k + 8)%nat. split; [tuple_eq|lia].
Qed.

Lemma strcpy_eq : word_mapped m → strcpy m dst src = Some (write_bytes m dst l, dst).
Proof using Hs Hmap Hov.
  intros Hw. unfold strcpy. destruct (strcpy_words_eq Hw) as ([[m' d] p] & -> & HI). simpl.
  by rewrite (strcpy_bytes_eq _ HI).
Qed.

Lemma strcpy_size_eq : strcpy_size m dst src = Some (write_bytes m dst l, dst).
Proof using Hs Hmap Hov.
  unfold strcpy_size. rewrite (strcpy_bytes_eq (m, dst, src)); [done|].
  exists 0%nat. split; [tuple_eq|lia].
Qed.

Lemma stpcpy_eq :
  word_mapped m → stpcpy m dst src = Some (write_bytes m dst l, dst + Z.of_nat (length s)).
Proof using Hs Hmap Hov.
  intros Hw. unfold stpcpy. destruct (strcpy_words_eq Hw) as ([[m' d] p] & -> & HI). simpl.
  rewrite (strcpy_bytes_eq _ HI). simpl. rewrite length_app. simpl. do 2 f_equal. lia.
Qed.
End strcpy.

(** ** strcat *)

Lemma find_end_eq m a s :
  word_mapped m → cstring m a s → find_end m a = Some (a + Z.of_nat (length s)).
Proof.
  intros Hw Hs. pose proof (cstring_run _ _ _ Hs) as Hrun.
  pose proof (cstring_fuel _ _ _ Hs). unfold find_end.
  edestruct (loop_inv (λ p, ∃ k, p = a + k ∧ 0 ≤ k ≤ Z.of_nat (length s))
    (λ p, ∃ k, p = a + k ∧ 0 ≤ k ≤ Z.of_nat (length s) ∧
       (p mod 8 = 0 ∨ k = Z.of_nat (length s))) (λ p, a + Z.of_nat (length s) - p))
    as (p & -> & k & -> & Hk & Hal); [|exists 0; lia|lia|].
  - intros p (k & -> & Hk). split; [lia|]. destruct (UNALIGNED_X _) eqn:Hu.
    + destruct (cstring_step _ _ _ k Hs Hk) as (b & -> & _ & Hb). simpl.
      destruct Hb as [(-> & ->)|(Hb & Hlt & _)].
      * simpl. exists (Z.of_nat (length s)). auto with lia.
      * rewrite (proj2 (truth_true b)) by done. split; [|lia]. exists (k + 1). lia.
    + apply UNALIGNED_X_false in Hu. eauto with lia.
  - simpl. destruct (cstring_step _ _ _ k Hs Hk) as (b & -> & _ & Hb). simpl.
    destruct Hb as [(-> & ->)|(Hb & Hlt & _)]; [done|].
    rewrite (proj2 (truth_true b)) by done. destruct Hal as [Hal|]; [|lia].
    destruct (word_while_run m a s 0 _ Hrun (λ w, truth (DETECT_NULL w)) k)
      as (j & -> & Hj & _); [done..|apply DETECT_NULL_spec|].
    simpl. by rewrite (byte_while_run m a s 0 _ Hrun).
Qed.

Lemma strcat_eq m dst src d s :
  word_mapped m → cstring m dst d → cstring m src s →
  mapped m (dst + Z.of_nat (length d)) (Z.of_nat (length (s ++ [0]))) →
  ¬ (src < dst + Z.of_nat (length d) < src + Z.of_nat (length (s ++ [0]))) →
  strcat m dst src = Some (write_bytes m (dst + Z.of_nat (length d)) (s ++ [0]), dst).
Proof.
  intros Hw Hd Hs Hmap Hov. unfold strcat. rewrite (find_end_eq _ _ _ Hw Hd). simpl.
  by rewrite (strcpy_eq m _ src s).
Qed.

(** ** Bounded string copies *)

Lemma nstring_bytes_at m a n s : 0 ≤ n → nstring m a n s → bytes_at m a (nbytes n s).
Proof.
  intros Hn [_ [[Hlt Hat]|[Heq Hat]]]; unfold nbytes.
  - by rewrite take_ge by (rewrite length_app; simpl; lia).
  - rewrite take_app_le by lia. by rewrite take_ge by lia.
Qed.

Lemma length_nbytes n s :
  0 ≤ n → Z.of_nat (length s) ≤ n →
  Z.of_nat (length (nbytes n s)) = Z.min n (Z.of_nat (length s) + 1).
Proof. intros. unfold nbytes. rewrite length_take, length_app. simpl. lia. Qed.

Lemma nstring_length m a n s : nstring m a n s → Z.of_nat (length s) ≤ n.
Proof. intros [_ [[? _]|[? _]]]; lia. Qed.

Lemma fill_zero_eq m d (j : nat) :
  mapped m d (Z.of_nat j) →
  fill_zero m d (Z.of_nat j) = Some (write_bytes m d (replicate j 0), d + Z.of_nat j).
Proof.
  intros Hmap. unfold fill_zero.
  apply (loop_inv_eq (fill_inv m d 0 j) _ (λ '(_, _, k), k)); [| |lia].
  - intros [[m' p] k] (i & [= -> -> ->] & Hi). split; [lia|].
    destruct (Z.ltb_spec 0 (Z.of_nat j - Z.of_nat i)); cbn [negb].
    + rewrite filled_byte with (n := j) by (done || lia). simpl. split; [|lia].
      exists (S i). split; [tuple_eq|lia].
    + replace i with j by lia. done.
  - exists 0%nat. split; [tuple_eq|lia].
Qed.

Section strncpy.
Context (m : mem) (dst src n : Z) (s : list Z).
#[local] Abbreviation l := (nbytes n s).
Context (Hn : 0 ≤ n) (Hs : nstring m src n s) (Hmap : mapped m dst n)
  (Hov : ¬ (src < dst < src + Z.of_nat (length l))).

Lemma strncpy_dst : mapped m dst (Z.of_nat (length l)).
Proof using Hn Hs Hmap.
  pose proof (nstring_length _ _ _ _ Hs).
  eapply mapped_sub; [exact Hmap|lia|]. rewrite length_nbytes by done. lia.
Qed.

Lemma strncpy_src k : (k ≤ length s)%nat →
  nstring (fwd m dst l k) (src + Z.of_nat k) (n - Z.of_nat k) (drop k s).
Proof using Hn Hs Hov.
  intros Hk. pose proof (nstring_length _ _ _ _ Hs).
  pose proof (nstring_bytes_at _ _ _ _ Hn Hs) as Hat.
  pose proof (length_nbytes n s Hn ltac:(lia)) as Hl.
  destruct (fwd_src m dst src l Hat Hov k (length l - k)) as [Hc _]; [lia|].
  rewrite take_ge in Hc by (rewrite length_drop; lia).
  split; [apply Forall_drop, Hs|]. rewrite length_drop. unfold nbytes in *.
  destruct (decide (Z.of_nat (length s) < n)).
  - left. split; [lia|]. revert Hc. rewrite (take_ge (s ++ [0])) by (rewrite length_app; simpl; lia).
    by rewrite drop_app_le.
  - right. split; [lia|]. revert Hc.
    rewrite (take_app_le s), (take_ge s) by lia. done.
Qed.

Definition strncpy_inv (st : mem * Z * Z * Z) : Prop :=
  ∃ k : nat, st = (fwd m dst l k, dst + Z.of_nat k, src + Z.of_nat k, n - Z.of_nat k) ∧
    (k ≤ length s)%nat.

Lemma strncpy_start : strncpy_inv (m, dst, src, n).
Proof. exists 0%nat. split; [tuple_eq|lia]. Qed.

Lemma strncpy_words_eq : word_mapped m →
  ∃ st, strncpy_words m dst src n = Some st ∧ strncpy_inv st.
Proof using Hn Hs Hmap Hov.
  intros Hw. unfold strncpy_words. pose proof (nstring_length _ _ _ _ Hs).
  pose proof (length_nbytes n s Hn ltac:(lia)) as Hl.
  destruct (TOO_SMALL_LITTLE_BLOCK n) eqn:Hts, (UNALIGNED_X_Y src dst) eqn:Hu; simpl;
    try by (eexists; split; [reflexivity|apply strncpy_start]).
  apply UNALIGNED_X_Y_false in Hu as [Has Had].
  apply (loop_inv (λ st, strncpy_inv st ∧ (st.1.1.2 : Z) mod 8 = 0 ∧ st.1.2 mod 8 = 0)
    _ (λ '(_, _, _, k), k)); [|split; [apply strncpy_start|done]|lia].
  intros [[[m' d] p] r] [(k & [= -> -> -> ->] & Hk) [Hdk Hsk]]. simpl in Hdk, Hsk. split; [lia|].
  unfold TOO_SMALL_LITTLE_BLOCK, LITTLE_BLOCK_SIZE in *.
  destruct (Z.ltb_spec (n - Z.of_nat k) 8); [by exists k|].
  pose proof (strncpy_src k Hk) as Hsrc.
  destruct (load64_word_mapped (fwd m dst l k) (src + Z.of_nat k) (src + Z.of_nat k))
    as (w & Hlw & Hat & ->); [|done|lia|eapply nstring_mapped; [done|lia]|].
  { apply word_mapped_write_bytes; [|done]. eapply mapped_sub; [exact Hmap|lia|].
    rewrite length_take. lia. }
  simpl. rewrite DETECT_NULL_spec by eauto using bytes_at_bytes.
  destruct (existsb _ w) eqn:He; [by exists k|].
  destruct (nstring_word _ _ _ _ _ Hsrc Hat) as [Hf _]; [lia|]. destruct (Hf He) as [t Ht].
  apply (f_equal length) in Ht. rewrite length_drop, length_app in Ht.
  rewrite (fwd_word m dst src l (nstring_bytes_at _ _ _ _ Hn Hs) strncpy_dst Hov) by (done || lia).
  simpl. split; [|lia]. split; [|simpl; split; Z.div_mod_to_equations; lia].
  exists (k + 8)%nat. split; [tuple_eq|lia].
Qed.

Definition strncpy_ret : Z :=
  if Z.of_nat (length s) <? n then dst + Z.of_nat (length s) else 0.

Lemma strncpy_bytes_eq st : strncpy_inv st →
  let '(m', d, p, r) := st in
  strncpy_bytes m' d p r =
    Some (write_bytes m dst l, dst + Z.of_nat (length l), n - Z.of_nat (length l), strncpy_ret).
Proof using Hn Hs Hmap Hov.
  intros (k & -> & Hk). unfold strncpy_bytes. pose proof (nstring_length _ _ _ _ Hs).
  pose proof (length_nbytes n s Hn ltac:(lia)) as Hl.
  apply (loop_inv_eq strncpy_inv _ (λ '(_, _, _, r), r)); [|by exists k|lia].
  intros [[[m' d] p] r] (j & [= -> -> -> ->] & Hj). split; [lia|].
  unfold strncpy_ret. destruct (Z.ltb_spec 0 (n - Z.of_nat j)); cbn [negb].
  - pose proof (fwd_byte m dst src l (nstring_bytes_at _ _ _ _ Hn Hs) strncpy_dst Hov j ltac:(lia))
      as Hcb. unfold copy_byte in Hcb.
    destruct (nstring_step _ _ _ _ (strncpy_src j Hj))
      as [(Hnil & Hb)|(b & t & Hcons & Hb0 & Hb & _)]; [lia|..];
      rewrite Hb in Hcb |- *; simpl in Hcb |- *; rewrite Hcb; simpl.
    + apply (f_equal length) in Hnil. rewrite length_drop in Hnil. simpl in Hnil.
      rewrite fwd_all by lia. rewrite (proj2 (Z.ltb_lt _ _)) by lia. tuple_eq.
    + rewrite (proj2 (Z.eqb_neq _ _) Hb0).
      apply (f_equal length) in Hcons. rewrite length_drop in Hcons. simpl in Hcons.
      split; [|lia]. exists (S j). split; [tuple_eq|lia].
  - rewrite fwd_all by lia. rewrite (proj2 (Z.ltb_ge _ _)) by lia. tuple_eq.
Qed.

(** What is in the destination afterwards. *)
Definition strncpy_result : list Z := l ++ replicate (Z.to_nat n - length l) 0.

Lemma strncpy_fill :
  fill_zero (write_bytes m dst l) (dst + Z.of_nat (length l)) (n - Z.of_nat (length l)) =
  Some (write_bytes m dst strncpy_result, dst + n).
Proof using Hn Hs Hmap.
  pose proof (nstring_length _ _ _ _ Hs). pose proof (length_nbytes n s Hn ltac:(lia)) as Hl.
  replace (n - Z.of_nat (length l)) with (Z.of_nat (Z.to_nat n - length l)) by lia.
  rewrite fill_zero_eq.
  - unfold strncpy_result. rewrite write_bytes_app. do 2 f_equal. lia.
  - apply mapped_write_bytes. eapply mapped_sub; [exact Hmap|lia..].
Qed.

Lemma strncpy_eq : word_mapped m →
  strncpy m dst src n = Some (write_bytes m dst strncpy_result, dst).
Proof using Hn Hs Hmap Hov.
  intros Hw. unfold strncpy.
  destruct (strncpy_words_eq Hw) as ([[[m' d] p] r] & -> & HI). simpl.
  rewrite (strncpy_bytes_eq _ HI). simpl. by rewrite strncpy_fill.
Qed.

Lemma stpncpy_eq : word_mapped m → 0 < dst →
  stpncpy m dst src n = Some (write_bytes m dst strncpy_result, dst + Z.of_nat (length s)).
Proof using Hn Hs Hmap Hov.
  intros Hw Hd. unfold stpncpy. pose proof (nstring_length _ _ _ _ Hs).
  destruct (strncpy_words_eq Hw) as ([[[m' d] p] r] & -> & HI). simpl.
  rewrite (strncpy_bytes_eq _ HI). simpl. rewrite strncpy_fill. simpl.
  unfold strncpy_ret. destruct (Z.ltb_spec (Z.of_nat (length s)) n).
  - by rewrite (proj2 (truth_true _)) by lia.
  - simpl. do 2 f_equal. lia.
Qed.
End strncpy.

Lemma strncpy_result_eq n s :
  0 ≤ n → Z.of_nat (length s) ≤ n →
  strncpy_result n s = s ++ replicate (Z.to_nat n - length s) 0.
Proof.
  intros Hn Hl. unfold strncpy_result.
  pose proof (length_nbytes n s Hn Hl) as Hlen. unfold nbytes in *.
  destruct (decide (Z.of_nat (length s) = n)).
  - rewrite take_app_le, take_ge in * by lia. done.
  - rewrite take_ge in * by (rewrite length_app; simpl; lia). rewrite <- app_assoc. f_equal.
    replace (Z.to_nat n - length s)%nat with (S (Z.to_nat n - length (s ++ [0]))) by lia. done.
Qed.

(** ** strncat *)
Section strncat.
Context (m : mem) (e src n : Z) (s : list Z).
#[local] Abbreviation l := (nbytes n s).
Context (Hn : 0 < n) (Hs : nstring m src n s)
  (Hmap : mapped m e (Z.of_nat (length s) + 1))
  (Hov : ¬ (src < e < src + Z.of_nat (length l))).

Definition strncat_mem (k : nat) : mem :=
  if Z.of_nat k =? n then write_bytes (fwd m e l k) (e + Z.of_nat k) [0] else fwd m e l k.

Lemma strncat_bytes_eq : strncat_bytes m e src n = Some (write_bytes m e (s ++ [0])).
Proof using Hn Hs Hmap Hov.
  pose proof (nstring_length _ _ _ _ Hs) as Hlen.
  pose proof (length_nbytes n s ltac:(lia) Hlen) as Hl.
  pose proof (nstring_bytes_at m src n s ltac:(lia) Hs) as Hat.
  assert (mapped m e (Z.of_nat (length l))) as Hd by (eapply mapped_sub; [exact Hmap|lia..]).
  unfold strncat_bytes.
  apply (loop_inv_eq (λ st, ∃ k : nat, (k ≤ length s)%nat ∧
      st = (strncat_mem k, e + Z.of_nat k, src + Z.of_nat k, n - Z.of_nat k))
    _ (λ '(_, _, _, r), r)); [|exists 0%nat; split; [lia|]|lia].
  2: { unfold strncat_mem. rewrite (proj2 (Z.eqb_neq _ _)) by lia. tuple_eq. }
  intros [[[m' p] q] r] (k & Hk & [= -> -> -> ->]). split; [lia|]. unfold strncat_mem.
  destruct (Z.eqb_spec (n - Z.of_nat k) 0).
  { rewrite (proj2 (Z.eqb_eq _ _)) by lia. unfold fwd, nbytes.
    rewrite take_take, Nat.min_l, take_app_le, take_ge by lia.
    rewrite write_bytes_app. do 2 f_equal. lia. }
  rewrite (proj2 (Z.eqb_neq (Z.of_nat k) n)) by lia. cbv zeta.
  pose proof (fwd_byte m e src l Hat Hd Hov k ltac:(lia)) as Hcb. unfold copy_byte in Hcb.
  destruct (nstring_step _ _ _ _ (strncpy_src m e src n s ltac:(lia) Hs Hov k Hk))
    as [(Hnil & Hb)|(b & t & Hcons & Hb0 & Hb & _)]; [lia|..];
    rewrite Hb in Hcb |- *; simpl in Hcb |- *; rewrite Hcb; simpl.
  - apply (f_equal length) in Hnil. rewrite length_drop in Hnil. simpl in Hnil.
    rewrite fwd_all by lia. unfold nbytes.
    by rewrite take_ge by (rewrite length_app; simpl; lia).
  - rewrite (proj2 (truth_true b)) by done.
    apply (f_equal length) in Hcons. rewrite length_drop in Hcons. simpl in Hcons.
    destruct (Z.eqb_spec (n - Z.of_nat k - 1) 0).
    + rewrite store8_mapped; [simpl|apply fwd_mapped; eapply mapped_sub; [exact Hmap|lia..]].
      split; [|lia]. exists (S k). split; [lia|].
      rewrite (proj2 (Z.eqb_eq _ _)) by lia.
      replace (e + Z.of_nat k + 1) with (e + Z.of_nat (S k)) by lia. tuple_eq.
    + simpl. split; [|lia]. exists (S k). split; [lia|].
      rewrite (proj2 (Z.eqb_neq (Z.of_nat (S k)) n)) by lia. tuple_eq.
Qed.
End strncat.

Lemma strncat_eq m dst src n d s :
  word_mapped m → 0 ≤ n → cstring m dst d → nstring m src n s →
  mapped m (dst + Z.of_nat (length d)) (Z.of_nat (length s) + 1) →
  ¬ (src < dst + Z.of_nat (length d) < src + Z.of_nat (length (nbytes n s))) →
  strncat m dst src n =
    Some (if n =? 0 then m else write_bytes m (dst + Z.of_nat (length d)) (s ++ [0]), dst).
Proof.
  intros Hw Hn Hd Hs Hmap Hov. unfold strncat. rewrite (find_end_eq _ _ _ Hw Hd). simpl.
  destruct (Z.eqb_spec n 0) as [->|]; [done|].
  by rewrite (strncat_bytes_eq m _ src n s) by (done || lia).
Qed.

(** ** strlcpy and strlcat *)
Section strl.
Context (m : mem) (dst src : Z) (s : list Z).
#[local] Abbreviation l := (s ++ [0]).
Context (Hs : cstring m src s)
  (Hov : dst < src ∨ src + Z.of_nat (length l) ≤ dst).

Lemma strl_ov : ¬ (src < dst < src + Z.of_nat (length l)).
Proof using Hov. lia. Qed.

(** Terminating the copy after [k] bytes leaves the rest of the source alone. *)
Lemma strl_src k : (k ≤ length s)%nat →
  cstring (write_bytes (fwd m dst l k) (dst + Z.of_nat k) [0]) (src + Z.of_nat k) (drop k s).
Proof using Hs Hov.
  intros Hk. destruct (strcpy_src m dst src s Hs strl_ov k Hk) as [Hat H0].
  split; [|done]. apply bytes_at_write_bytes_ne; [done|].
  rewrite !length_app, length_drop in *. simpl in *. lia.
Qed.

Lemma strl_written k : (k ≤ length s)%nat →
  write_bytes (fwd m dst l k) (dst + Z.of_nat k) [0] = write_bytes m dst (take k s ++ [0]).
Proof.
  intros Hk. unfold fwd. rewrite take_app_le, write_bytes_app, length_take, Nat.min_l by done.
  done.
Qed.

Lemma byte_while_cstring m' a t :
  cstring m' a t → byte_while m' (λ b, b =? 0) a = Some (a + Z.of_nat (length t)).
Proof.
  intros Ht%cstring_run. pose proof (byte_while_run _ _ _ _ _ Ht 0) as H.
  rewrite Z.add_0_r in H. apply H. lia.
Qed.

(** The copying loop of [strlcpy]: it runs out of room after [dsize - 1]
    bytes, or it copies the whole string and its NUL. *)
Lemma strlcpy_bytes_eq dsize :
  0 < dsize → mapped m dst (Z.min dsize (Z.of_nat (length l))) →
  strlcpy_bytes m dst src dsize =
    Some (if dsize - 1 <=? Z.of_nat (length s)
          then (fwd m dst l (Z.to_nat (dsize - 1)), dst + (dsize - 1), src + (dsize - 1), 0)
          else (write_bytes m dst l, dst + Z.of_nat (length l), src + Z.of_nat (length l),
                dsize - Z.of_nat (length l))).
Proof using Hs Hov.
  intros Hd Hmap. unfold strlcpy_bytes.
  apply (loop_inv_eq (λ st, ∃ k : nat, (k ≤ length s)%nat ∧ Z.of_nat k < dsize ∧
      st = (fwd m dst l k, dst + Z.of_nat k, src + Z.of_nat k, dsize - Z.of_nat k))
    _ (λ '(_, _, _, r), r)); [|exists 0%nat; split_and!; [lia..|tuple_eq]|lia].
  intros [[[m' p] q] r] (k & Hk & Hkd & [= -> -> -> ->]). split; [lia|]. cbv zeta.
  assert (length l = S (length s)) as Hl by (rewrite length_app; simpl; lia).
  rewrite Hl in Hmap |- *.
  destruct (Z.eqb_spec (dsize - Z.of_nat k - 1) 0) as [He|].
  { rewrite (proj2 (Z.leb_le _ _)) by lia.
    replace (dsize - 1) with (Z.of_nat k) by lia. rewrite Nat2Z.id. tuple_eq. }
  assert (copy_byte (fwd m dst l k) (dst + Z.of_nat k) (src + Z.of_nat k) =
    Some (fwd m dst l (S k))) as Hcb.
  { pose proof (strcpy_src m dst src s Hs strl_ov k Hk) as Hc.
    destruct (cstring_step _ _ _ 0 Hc) as (b & Hb & _ & Hb'); [lia|]. rewrite Z.add_0_r in Hb.
    rewrite (copy_byte_eq _ _ _ b Hb) by (apply fwd_mapped; eapply mapped_sub; [exact Hmap|lia..]).
    rewrite <- (Nat.add_1_r k), <- fwd_write by lia. do 2 f_equal.
    rewrite length_drop in Hb'. destruct Hb' as [(-> & Hz)|(_ & Hlt & Hb')].
    - replace k with (length s) by lia. by rewrite drop_app_length.
    - rewrite lookup_drop, Nat.add_0_r in Hb'. rewrite drop_app_le by done.
      by rewrite (drop_S _ _ _ Hb'). }
  unfold copy_byte in Hcb.
  destruct (cstring_head _ _ _ (strcpy_src m dst src s Hs strl_ov k Hk))
    as [(Hnil & Hb)|(b & t & Hcons & Hb0 & Hb & _)];
    rewrite Hb in Hcb |- *; simpl in Hcb |- *; rewrite Hcb; simpl.
  - apply (f_equal length) in Hnil. rewrite length_drop in Hnil. simpl in Hnil.
    rewrite (proj2 (Z.leb_gt _ _)) by lia. rewrite fwd_all by lia. tuple_eq.
  - rewrite (proj2 (Z.eqb_neq _ _) Hb0).
    apply (f_equal length) in Hcons. rewrite length_drop in Hcons. simpl in Hcons.
    split; [|lia]. exists (S k). split_and!; [lia..|tuple_eq].
Qed.

Lemma strlcpy_eq dsize :
  0 ≤ dsize → mapped m dst (Z.min dsize (Z.of_nat (length l))) →
  strlcpy m dst src dsize =
    Some (if dsize =? 0 then m else write_bytes m dst (take (Z.to_nat (dsize - 1)) s ++ [0]),
          Z.of_nat (length s)).
Proof using Hs Hov.
  intros Hd Hmap. unfold strlcpy. cbv zeta.
  destruct (Z.eqb_spec dsize 0) as [->|]; cbn [negb].
  { simpl. rewrite (byte_while_cstring _ _ _ Hs). simpl. do 2 f_equal. lia. }
  rewrite strlcpy_bytes_eq by (done || lia).
  assert (length l = S (length s)) as Hl by (rewrite length_app; simpl; lia).
  destruct (Z.leb_spec (dsize - 1) (Z.of_nat (length s))); simpl.
  - set (k := Z.to_nat (dsize - 1)). replace (dsize - 1) with (Z.of_nat k) by lia.
    rewrite store8_mapped by (apply fwd_mapped; eapply mapped_sub; [exact Hmap|lia..]).
    cbn [mbind option_bind]. rewrite (byte_while_cstring _ _ _ (strl_src k ltac:(lia))).
    cbn [mbind option_bind].
    rewrite strl_written by lia. rewrite length_drop. do 2 f_equal. lia.
  - rewrite (proj2 (Z.eqb_neq (dsize - Z.of_nat (length l)) 0)) by lia. simpl.
    rewrite take_ge by lia. do 2 f_equal. lia.
Qed.

(** The copying loop of [strlcat], with room for [N] bytes before the NUL. *)
Lemma strlcat_bytes_eq N : 0 ≤ N → mapped m dst (Z.min (N + 1) (Z.of_nat (length l))) →
  strlcat_bytes m dst src N =
  let k := Nat.min (length s) (Z.to_nat N) in
  Some (fwd m dst l k, dst + Z.of_nat k, src + Z.of_nat (length s)).
Proof using Hs Hov.
  intros HN Hmap. pose proof (cstring_fuel _ _ _ Hs). unfold strlcat_bytes. cbv zeta.
  assert (length l = S (length s)) as Hl by (rewrite length_app; simpl; lia). rewrite Hl in Hmap.
  apply (loop_inv_eq (λ st, ∃ k : nat, let j := Nat.min k (Z.to_nat N) in (k ≤ length s)%nat ∧
      st = (fwd m dst l j, dst + Z.of_nat j, src + Z.of_nat k, N - Z.of_nat j))
    _ (λ '(_, _, q, _), src + Z.of_nat (length s) - q));
    [|exists 0%nat; split; [lia|tuple_eq]|lia].
  intros [[[m' p] q] r] (k & Hk & [= -> -> -> ->]). split; [lia|].
  set (j := Nat.min k (Z.to_nat N)).
  pose proof (strcpy_src m dst src s Hs strl_ov j ltac:(lia)) as Hj.
  apply (cstring_drop _ _ _ (k - j)) in Hj; [|rewrite length_drop; lia].
  replace (src + Z.of_nat j + Z.of_nat (k - j)) with (src + Z.of_nat k) in Hj by lia.
  rewrite drop_drop in Hj. replace (j + (k - j))%nat with k in Hj by lia.
  destruct (cstring_head _ _ _ Hj) as [(Hnil & ->)|(b & t & Hcons & Hb0 & -> & _)]; simpl.
  - apply (f_equal length) in Hnil. rewrite length_drop in Hnil. simpl in Hnil.
    replace (length s) with k by lia. done.
  - rewrite (proj2 (Z.eqb_neq _ _) Hb0). pose proof Hcons as Hlen.
    apply (f_equal length) in Hlen. rewrite length_drop in Hlen. simpl in Hlen.
    destruct (Z.eqb_spec (N - Z.of_nat j) 0); cbn [negb].
    + split; [|lia]. exists (S k). split; [lia|].
      replace (Nat.min (S k) (Z.to_nat N)) with j by lia. tuple_eq.
    + assert (Z.of_nat k < N) by lia. assert (j = k) as -> by lia. clear Hj.
      rewrite store8_mapped by (apply fwd_mapped; eapply mapped_sub; [exact Hmap|lia..]). simpl.
      split; [|lia]. exists (S k). split; [lia|].
      replace (Nat.min (S k) (Z.to_nat N)) with (k + 1)%nat by lia.
      rewrite <- fwd_write by lia. rewrite drop_app_le, Hcons by lia. tuple_eq.
Qed.
End strl.

Lemma strlcat_end_eq m dst n d :
  nstring m dst n d → strlcat_end m dst n = Some (dst + Z.of_nat (length d)).
Proof.
  intros Hdst. pose proof (nstring_length _ _ _ _ Hdst) as Hdlen. unfold strlcat_end.
  apply (loop_inv_eq (λ st, ∃ k : nat, (k ≤ length d)%nat ∧
      st = (dst + Z.of_nat k, n - Z.of_nat k)) _ (λ '(_, n), n));
    [|exists 0%nat; split; [lia|tuple_eq]|lia].
  intros [p r] (k & Hk & [= -> ->]). split; [lia|].
  destruct (Z.eqb_spec (n - Z.of_nat k) 0); [lia|].
  assert (nstring m (dst + Z.of_nat k) (n - Z.of_nat k) (drop k d)) as Hk'.
  { pose proof (nstring_drop m dst n (take k d) (drop k d)) as Hnd.
    rewrite take_drop, length_take, Nat.min_l in Hnd by done. by apply Hnd. }
  destruct (nstring_step _ _ _ _ Hk') as [(Hnil & ->)|(b & t & Hcons & Hb0 & -> & _)]; [lia|..]; simpl.
  + apply (f_equal length) in Hnil. rewrite length_drop in Hnil. simpl in Hnil. lia.
  + rewrite (proj2 (Z.eqb_neq _ _) Hb0).
    apply (f_equal length) in Hcons. rewrite length_drop in Hcons. simpl in Hcons.
    split; [|lia]. exists (S k). split; [lia|tuple_eq].
Qed.

Lemma strlcat_eq m dst src dsize d s :
  word_mapped m → 0 ≤ dsize → nstring m dst dsize d → cstring m src s →
  let e := dst + Z.of_nat (length d) in
  let room := dsize - Z.of_nat (length d) in
  (e < src ∨ src + Z.of_nat (length s) + 1 ≤ e) →
  mapped m e (Z.min room (Z.of_nat (length s) + 1)) →
  strlcat m dst src dsize =
    Some (if room =? 0 then m else write_bytes m e (take (Z.to_nat (room - 1)) s ++ [0]),
          Z.of_nat (length d) + Z.of_nat (length s)).
Proof.
  intros Hw Hd Hdst Hs e room Hov Hmap. unfold strlcat. cbv zeta.
  pose proof (nstring_length _ _ _ _ Hdst) as Hdlen.
  rewrite (strlcat_end_eq _ _ _ _ Hdst). fold e.
  simpl. replace (e - dst) with (Z.of_nat (length d)) by lia. fold room.
  destruct (Z.eqb_spec room 0). { by rewrite (strlen_eq _ _ _ Hw Hs). }
  assert (length (s ++ [0]) = S (length s)) as Hl by (rewrite length_app; simpl; lia).
  rewrite (strlcat_bytes_eq m e src s Hs); [|rewrite ?Hl; try lia..];
    [|eapply mapped_sub; [exact Hmap|lia..]].
  simpl. rewrite store8_mapped by (apply fwd_mapped; eapply mapped_sub; [exact Hmap|lia..]).
  cbn [mbind option_bind]. rewrite strl_written by lia. do 2 f_equal; [|lia].
  f_equal. f_equal. destruct (decide (length s ≤ Z.to_nat (room - 1))%nat).
  + rewrite !take_ge by lia. done.
  + f_equal. lia.
Qed.

(** ** Correctness of the copying functions *)

(** [memcpy] and [mempcpy], and the byte loop used when optimising for
    size, copy exactly the [length l] source bytes to the destination and
    change nothing else, as soon as the destination does not begin inside
    the source; [memcpy] returns the start of the destination, [mempcpy] its
    end. *)
Theorem memcpy_correct m dst src l :
  bytes_at m src l → mapped m dst (Z.of_nat (length l)) →
  ¬ (src < dst < src + Z.of_nat (length l)) →
  ∃ m', updated m dst l m' ∧
    memcpy m dst src (Z.of_nat (length l)) = Some (m', dst) ∧
    memcpy_size m dst src (Z.of_nat (length l)) = Some (m', dst) ∧
    mempcpy m dst src (Z.of_nat (length l)) = Some (m', dst + Z.of_nat (length l)).
Proof.
  intros Hat Hmap Hov. exists (write_bytes m dst l). unfold memcpy, memcpy_size, mempcpy.
  rewrite (copy_forward_eq m dst src l) by done.
  rewrite (copy_bytes_eq m dst src l Hat Hmap Hov (m, dst, src, Z.of_nat (length l)))
    by (exists 0%nat; split; [tuple_eq|lia]).
  split; [|done]. apply write_bytes_updated. by eapply bytes_at_bytes.
Qed.

Lemma memcpy_correct_witness :
  let m := mk_mem 0 (seqZ 1 48 ++ replicate 48 0) in
  ∃ m', updated m 50 (seqZ 3 45) m' ∧ memcpy m 50 2 45 = Some (m', 50) ∧
    memcpy_size m 50 2 45 = Some (m', 50) ∧ mempcpy m 50 2 45 = Some (m', 95).
Proof. apply (memcpy_correct _ 50 2 (seqZ 3 45)); mem_witness. Defined.

(** C23. [memmove] copies the original contents of the source to the
    destination however the two overlap, changes nothing else and returns
    the destination. *)
Theorem memmove_correct m dst src l :
  bytes_at m src l → mapped m dst (Z.of_nat (length l)) →
  ∃ m', memmove m dst src (Z.of_nat (length l)) = Some (m', dst) ∧ updated m dst l m'.
Proof.
  intros Hat Hmap. exists (write_bytes m dst l). split; [by apply memmove_eq|].
  apply write_bytes_updated. by eapply bytes_at_bytes.
Qed.

Lemma memmove_correct_witness :
  let m := mk_mem 0 (seqZ 1 48 ++ replicate 48 0) in
  ∃ m', memmove m 10 2 45 = Some (m', 10) ∧ updated m 10 (seqZ 3 45) m'.
Proof. apply (memmove_correct _ 10 2 (seqZ 3 45)); mem_witness. Defined.

(** [memset] sets [n] bytes to the low byte of its argument, changes
    nothing else and returns the destination. *)
Theorem memset_correct m p c (n : nat) :
  mapped m p (Z.of_nat n) →
  ∃ m', memset m p c (Z.of_nat n) = Some (m', p) ∧ updated m p (replicate n (u8 c)) m'.
Proof.
  intros Hmap. exists (write_bytes m p (replicate n (u8 c))). split; [by apply memset_eq|].
  apply write_bytes_updated, Forall_replicate, u8_range.
Qed.

Lemma memset_correct_witness :
  ∃ m', memset (mk_mem 8 (replicate 64 7)) 11 (-1) 50 = Some (m', 11) ∧
    updated (mk_mem 8 (replicate 64 7)) 11 (replicate 50 255) m'.
Proof. apply (memset_correct _ 11 (-1) 50); mem_witness. Defined.

(** [memccpy] copies up to and including the first occurrence of the end
    character and returns the address after it, or copies all [length l]
    bytes and returns NULL; nothing else changes. *)
Theorem memccpy_correct m dst src endchar l :
  bytes_at m src l → mapped m dst (Z.of_nat (length l)) →
  ¬ (src < dst < src + Z.of_nat (length l)) →
  ∃ m', memccpy m dst src endchar (Z.of_nat (length l)) =
      Some (m', match find_byte (u8 endchar) l with
                | Some k => dst + Z.of_nat (S k)
                | None => 0
                end) ∧
    updated m dst (match find_byte (u8 endchar) l with
                   | Some k => take (S k) l
                   | None => l
                   end) m'.
Proof.
  intros Hat Hmap Hov. exists (write_bytes m dst (upto (u8 endchar) l)).
  split; [by apply memccpy_eq|]. apply bytes_at_bytes in Hat.
  apply write_bytes_updated. unfold upto. case_match; [by apply Forall_take|done].
Qed.

Lemma memccpy_correct_witness :
  let m := mk_mem 0 (seqZ 1 48 ++ replicate 48 0) in
  ∃ m', memccpy m 50 2 40 45 = Some (m', 88) ∧ updated m 50 (seqZ 3 38) m'.
Proof. apply (memccpy_correct _ 50 2 40 (seqZ 3 45)); mem_witness. Defined.

(** [strcpy], its byte loop and [stpcpy] copy the source string and its
    NUL to the destination and change nothing else; [strcpy] returns the
    destination and [stpcpy] the address of the NUL it wrote. *)
Theorem strcpy_correct m dst src s :
  word_mapped m → cstring m src s → mapped m dst (Z.of_nat (length (s ++ [0]))) →
  ¬ (src < dst < src + Z.of_nat (length (s ++ [0]))) →
  ∃ m', cstring m' dst s ∧ updated m dst (s ++ [0]) m' ∧
    strcpy m dst src = Some (m', dst) ∧ strcpy_size m dst src = Some (m', dst) ∧
    stpcpy m dst src = Some (m', dst + Z.of_nat (length s)).
Proof.
  intros Hw Hs Hmap Hov. exists (write_bytes m dst (s ++ [0])).
  assert (updated m dst (s ++ [0]) (write_bytes m dst (s ++ [0]))) as Hu.
  { apply write_bytes_updated. destruct Hs as [Hat _]. by eapply bytes_at_bytes. }
  rewrite (strcpy_eq m dst src s), (strcpy_size_eq m dst src s), (stpcpy_eq m dst src s) by done.
  split_and!; [|done..]. split; [apply Hu|apply Hs].
Qed.

Lemma strcpy_correct_witness :
  let m := mk_mem 0 (seqZ 1 14 ++ [0; 9] ++ replicate 48 7) in
  ∃ m', cstring m' 20 (seqZ 5 10) ∧ updated m 20 (seqZ 5 10 ++ [0]) m' ∧
    strcpy m 20 4 = Some (m', 20) ∧ strcpy_size m 20 4 = Some (m', 20) ∧
    stpcpy m 20 4 = Some (m', 30).
Proof. apply (strcpy_correct _ 20 4 (seqZ 5 10)); mem_witness. Defined.

(** [strncpy] and [stpncpy] write exactly [n] bytes: the source up to its
    NUL or up to the bound, padded with NULs; they read no source byte past
    either. *)
Theorem strncpy_correct m dst src n s :
  word_mapped m → 0 ≤ n → 0 < dst → nstring m src n s → mapped m dst n →
  ¬ (src < dst < src + Z.of_nat (length (nbytes n s))) →
  ∃ m', updated m dst (s ++ replicate (Z.to_nat n - length s) 0) m' ∧
    strncpy m dst src n = Some (m', dst) ∧
    stpncpy m dst src n = Some (m', dst + Z.of_nat (length s)).
Proof.
  intros Hw Hn Hd Hs Hmap Hov. exists (write_bytes m dst (strncpy_result n s)).
  rewrite (strncpy_eq m dst src n s), (stpncpy_eq m dst src n s) by done.
  rewrite strncpy_result_eq by (done || by eapply nstring_length). split; [|done].
  apply write_bytes_updated, Forall_app. split; [|by apply Forall_replicate].
  destruct Hs as [_ [[_ Hat]|[_ Hat]]]; apply bytes_at_bytes in Hat; [|done].
  by apply Forall_app in Hat as [? _].
Qed.

Lemma strncpy_correct_witness :
  let m := mk_mem 0 (seqZ 1 14 ++ [0; 9] ++ replicate 48 7) in
  ∃ m', updated m 20 (seqZ 5 10 ++ replicate 20 0) m' ∧
    strncpy m 20 4 30 = Some (m', 20) ∧ stpncpy m 20 4 30 = Some (m', 30).
Proof. apply (strncpy_correct _ 20 4 30 (seqZ 5 10)); mem_witness. Defined.

(** [strcat] and [strncat] append the source (for [strncat] at most [n]
    bytes of it) and a NUL at the end of the destination string, change
    nothing else and return the destination. *)
Theorem strcat_correct m dst src n d s :
  let e := dst + Z.of_nat (length d) in
  word_mapped m → 0 < n → cstring m dst d → cstring m src s →
  mapped m e (Z.of_nat (length (s ++ [0]))) →
  ¬ (src < e < src + Z.of_nat (length (s ++ [0]))) →
  (∃ m', strcat m dst src = Some (m', dst) ∧ updated m e (s ++ [0]) m') ∧
  (∃ m', strncat m dst src n = Some (m', dst) ∧ updated m e (take (Z.to_nat n) s ++ [0]) m').
Proof.
  intros e Hw Hn Hd Hs Hmap Hov. pose proof (cstring_bytes _ _ _ Hs) as Hb.
  assert (length (s ++ [0]) = S (length s)) as Hl by (rewrite length_app; simpl; lia).
  pose proof (cstring_nstring _ _ _ n Hs ltac:(lia)) as Hns.
  pose proof (length_nbytes n _ ltac:(lia) (nstring_length _ _ _ _ Hns)) as Hln.
  pose proof (length_take s (Z.to_nat n)) as Hlt.
  split; eexists; (split; [|apply write_bytes_updated, Forall_app; split;
    [first [exact Hb|by apply Forall_take]|by repeat constructor]]).
  - by apply strcat_eq.
  - rewrite (strncat_eq m dst src n d (take (Z.to_nat n) s)); [|done|lia|done..| |].
    + by rewrite (proj2 (Z.eqb_neq _ _)) by lia.
    + eapply mapped_sub; [exact Hmap|lia..].
    + fold e. lia.
Qed.

Lemma strcat_correct_witness :
  let m := mk_mem 0 (seqZ 1 14 ++ [0; 9] ++ [7; 0] ++ replicate 22 7) in
  (∃ m', strcat m 16 4 = Some (m', 16) ∧ updated m 17 (seqZ 5 10 ++ [0]) m') ∧
  (∃ m', strncat m 16 4 3 = Some (m', 16) ∧ updated m 17 [5; 6; 7; 0] m').
Proof. apply (strcat_correct _ 16 4 3 [7] (seqZ 5 10)); mem_witness. Defined.

(** [strlcpy] and [strlcat] never write outside the [dsize] bytes of the
    destination, terminate what they write, truncate the source to the room
    there is and return the length of the string they tried to create. *)
Theorem strlcpy_strlcat_correct m dst src dsize d s :
  word_mapped m → 0 < dsize → mapped m dst dsize →
  nstring m dst dsize d → cstring m src s →
  (dst + Z.of_nat (length d) < src ∧ dst < src ∨ src + Z.of_nat (length s) + 1 ≤ dst) →
  (∃ m', strlcpy m dst src dsize = Some (m', Z.of_nat (length s)) ∧
    updated m dst (take (Z.to_nat dsize - 1) s ++ [0]) m') ∧
  (∃ m', strlcat m dst src dsize = Some (m', Z.of_nat (length d) + Z.of_nat (length s)) ∧
    if Z.of_nat (length d) =? dsize then m' = m
    else updated m (dst + Z.of_nat (length d))
           (take (Z.to_nat dsize - length d - 1) s ++ [0]) m').
Proof.
  intros Hw Hd Hmap Hds Hs Hov. pose proof (cstring_bytes _ _ _ Hs) as Hb.
  pose proof (nstring_length _ _ _ _ Hds) as Hlen.
  assert (∀ k a, updated m a (take k s ++ [0]) (write_bytes m a (take k s ++ [0]))) as Hu.
  { intros. apply write_bytes_updated, Forall_app. split; [by apply Forall_take|].
    by repeat constructor. }
  assert (length (s ++ [0]) = S (length s)) as Hl by (rewrite length_app; simpl; lia).
  split; eexists; split.
  - apply strlcpy_eq; [done|lia..|]. eapply mapped_sub; [exact Hmap|lia..].
  - rewrite (proj2 (Z.eqb_neq _ _)) by lia. rewrite Z2Nat.inj_sub by lia. apply Hu.
  - apply strlcat_eq; [done|lia|done..|lia|]. eapply mapped_sub; [exact Hmap|lia..].
  - destruct (Z.eqb_spec (Z.of_nat (length d)) dsize);
      [rewrite (proj2 (Z.eqb_eq _ _)) by lia; done|].
    rewrite (proj2 (Z.eqb_neq _ _)) by lia.
    rewrite !Z2Nat.inj_sub, Nat2Z.id by lia. apply Hu.
Qed.

Lemma strlcpy_strlcat_correct_witness :
  let m := mk_mem 0 (seqZ 1 14 ++ [0; 9] ++ [7; 0] ++ replicate 22 7) in
  (∃ m', strlcpy m 16 4 8 = Some (m', 10) ∧ updated m 16 (seqZ 5 7 ++ [0]) m') ∧
  (∃ m', strlcat m 16 4 8 = Some (m', 11) ∧ updated m 17 (seqZ 5 6 ++ [0]) m').
Proof. apply (strlcpy_strlcat_correct _ 16 4 8 [7] (seqZ 5 10)); mem_witness. Defined.
