(* ===== verification/Strto.v ===== *)
(** * Integers and their text

    Models newlib/libc/stdlib: strtol.c, strtoul.c, strtoll.c, strtoull.c,
    atoi.c, atol.c, and utoa.c, itoa.c. [long] and [long long] have 64 bits.
    The conversions read a string in memory and yield the value returned, what
    is stored through [endptr] when it is not NULL ([None]: nothing), and
    [errno]. Then what they compute, for every string and base, overflow
    included, and that they read back what the others write. *)
From S2P Require Import Prelude Memory Ctype.

Definition EINVAL : Z := 22.
Definition ERANGE : Z := 34.
Definition LONG_MAX : Z := 2 ^ 63 - 1.
Definition LONG_MIN : Z := - 2 ^ 63.
Definition ULONG_MAX : Z := 2 ^ 64 - 1.

(** ** Reading *)

(** [do { c = *s++; } while (isspace_l(c, loc));] *)
Definition skip_space (m : mem) (s : Z) : option (Z * Z) :=
  loop (fuel m) (λ s,
    c ← load8 m s;
    sp ← isspace c;
    if truth sp then continue (s + 1) else leave (c, s + 1)) s.

(** The sign: [neg], [c] and [s] after it. *)
Definition get_sign (m : mem) (c s : Z) : option (bool * Z * Z) :=
  if c =? 45 then c ← load8 m s; Some (true, c, s + 1)
  else if c =? 43 then c ← load8 m s; Some (false, c, s + 1)
  else Some (false, c, s).

(** The prefix 0x, and the base it or a leading 0 gives. *)
Definition get_base (m : mem) (base c s : Z) : option (Z * Z * Z) :=
  '(base, c, s) ←
    (if ((base =? 0) || (base =? 16)) && (c =? 48) then
       x ← load8 m s;
       if (x =? 120) || (x =? 88) then c ← load8 m (s + 1); Some (16, c, s + 2)
       else Some (base, c, s)
     else Some (base, c, s));
  Some (if base =? 0 then if c =? 48 then 8 else 10 else base, c, s).

(** The value of a digit or letter. *)
Definition digit_value (c : Z) : option Z :=
  if (48 <=? c) && (c <=? 57) then Some (c - 48)
  else if (65 <=? c) && (c <=? 90) then Some (c - (65 - 10))
  else if (97 <=? c) && (c <=? 122) then Some (c - (97 - 10))
  else None.

(** The [for] loop over the digits: [acc], [any] and [s] after it. *)
Definition digits_round (m : mem) (base cutoff cutlim : Z) (st : Z * Z * Z * Z) :
    option (Z * Z * Z * Z + Z * Z * Z) :=
  let '(c, s, acc, any) := st in
  match digit_value c with
  | None => leave (acc, any, s)
  | Some d =>
      if base <=? d then leave (acc, any, s)
      else
        let '(any, acc) :=
          if (any <? 0) || (cutoff <? acc) || ((acc =? cutoff) && (cutlim <? d)) then (-1, acc)
          else (1, u64 (u64 (acc * base) + d)) in
        c ← load8 m s;
        continue (c, s + 1, acc, any)
  end.

Definition get_digits (m : mem) (base cutoff cutlim c s : Z) : option (Z * Z * Z) :=
  loop (fuel m) (digits_round m base cutoff cutlim) (c, s, 0, 0).

(** The common part of the signed conversions, after the check of the base. *)
Definition strto_signed (m : mem) (nptr base errno : Z) : option (Z * option Z * Z) :=
  '(c, s) ← skip_space m nptr;
  '(neg, c, s) ← get_sign m c s;
  '(base, c, s) ← get_base m base c s;
  let cutoff := if (neg : bool) then u64 (- u64 LONG_MIN) else LONG_MAX in
  let cutlim := s32 (cutoff mod u64 base) in
  let cutoff := cutoff / u64 base in
  '(acc, any, s) ← get_digits m base cutoff cutlim c s;
  let '(acc, errno) :=
    if any <? 0 then (u64 (if neg then LONG_MIN else LONG_MAX), ERANGE)
    else (if neg then u64 (- acc) else acc, errno) in
  Some (s64 acc, Some (if truth any then s - 1 else nptr), errno).

Definition strto_unsigned (m : mem) (nptr base errno : Z) : option (Z * option Z * Z) :=
  '(c, s) ← skip_space m nptr;
  '(neg, c, s) ← get_sign m c s;
  '(base, c, s) ← get_base m base c s;
  let cutoff := ULONG_MAX / u64 base in
  let cutlim := s32 (ULONG_MAX mod u64 base) in
  '(acc, any, s) ← get_digits m base cutoff cutlim c s;
  let '(acc, errno) :=
    if any <? 0 then (ULONG_MAX, ERANGE)
    else (if neg : bool then u64 (- acc) else acc, errno) in
  Some (acc, Some (if truth any then s - 1 else nptr), errno).

Definition _strtol_l (m : mem) (nptr base errno : Z) : option (Z * option Z * Z) :=
  if (base <? 0) || (base =? 1) || (36 <? base) then Some (0, None, EINVAL)
  else strto_signed m nptr base errno.

(** [strtoll] does not check the base; [strtoul] and [strtoull] do not either. *)
Definition _strtoll_l (m : mem) (nptr base errno : Z) : option (Z * option Z * Z) :=
  strto_signed m nptr base errno.
Definition _strtoul_l (m : mem) (nptr base errno : Z) : option (Z * option Z * Z) :=
  strto_unsigned m nptr base errno.
Definition _strtoull_l (m : mem) (nptr base errno : Z) : option (Z * option Z * Z) :=
  strto_unsigned m nptr base errno.

Definition strtol := _strtol_l.
Definition strtoul := _strtoul_l.
Definition strtoll := _strtoll_l.
Definition strtoull := _strtoull_l.

(** The value and [errno]. *)
Definition atoi (m : mem) (s errno : Z) : option (Z * Z) :=
  '(v, _, errno) ← strtol m s 10 errno; Some (s32 v, errno).
Definition atol (m : mem) (s errno : Z) : option (Z * Z) :=
  '(v, _, errno) ← strtol m s 10 errno; Some (v, errno).

(** ** Writing *)

(** The characters 0 to 9 and a to z. *)
Definition digits_table : list Z := seqZ 48 10 ++ seqZ 97 26.

Definition digit_char (d : Z) : option Z :=
  if 0 <=? d then digits_table !! Z.to_nat d else None.

(** The [do] loop, which writes the digits from the lowest on; [i] after it.
    An [unsigned] has at most 32 digits. *)
Definition utoa_round (str base : Z) (st : mem * Z * Z) : option (mem * Z * Z + mem * Z) :=
  let '(m, value, i) := st in
  let remainder := value mod base in
  d ← digit_char remainder;
  m ← store8 m (str + i) d;
  let value := value / base in
  if truth value then continue (m, value, i + 1) else leave (m, i + 1).

Definition utoa_digits (m : mem) (value str base : Z) : option (mem * Z) :=
  loop 33 (utoa_round str base) (m, value, 0).

(** [for (j = 0, i--; j < i; j++, i--)] swapping [str[j]] and [str[i]]. *)
Definition reverse_round (str : Z) (st : mem * Z * Z) : option (mem * Z * Z + mem) :=
  let '(m, j, i) := st in
  if j <? i then
    c ← load8 m (str + j);
    d ← load8 m (str + i);
    m ← store8 m (str + j) d;
    m ← store8 m (str + i) c;
    continue (m, j + 1, i - 1)
  else leave m.

Definition utoa_reverse (m : mem) (str i : Z) : option mem :=
  loop 33 (reverse_round str) (m, 0, i - 1).

(** The memory and the pointer returned; [base] is converted to [unsigned]
    in the divisions, which does not change it. *)
Definition __utoa (m : mem) (value str base : Z) : option (mem * Z) :=
  if (base <? 2) || (36 <? base) then m ← store8 m str 0; Some (m, 0)
  else
    '(m, i) ← utoa_digits m value str base;
    m ← store8 m (str + i) 0;
    m ← utoa_reverse m str i;
    Some (m, str).

Definition __itoa (m : mem) (value str base : Z) : option (mem * Z) :=
  if (base <? 2) || (36 <? base) then m ← store8 m str 0; Some (m, 0)
  else
    '(m, i, uvalue) ←
      (if (base =? 10) && (value <? 0) then m ← store8 m str 45; Some (m, 1, u32 (- value))
       else Some (m, 0, u32 value));
    '(m, _) ← __utoa m uvalue (str + i) base;
    Some (m, str).

Definition utoa := __utoa.
Definition itoa := __itoa.

(** ** What a text means *)

Fixpoint drop_space (l : list Z) : list Z :=
  match l with
  | c :: t => if space c then drop_space t else l
  | [] => []
  end.

Definition split_sign (l : list Z) : bool * list Z :=
  match l with
  | c :: t => if c =? 45 then (true, t) else if c =? 43 then (false, t) else (false, l)
  | [] => (false, [])
  end.

(** The letters of a prefix, in a base that permits one. *)
Definition has_prefix (base : Z) (l : list Z) : bool :=
  ((base =? 0) || (base =? 16)) && (hd 0 l =? 48) && ((hd 0 (tl l) =? 120) || (hd 0 (tl l) =? 88)).

Definition is_digit (base c : Z) : bool :=
  match digit_value c with Some d => d <? base | None => false end.

(** The radix of a number without a prefix. *)
Definition radix (base : Z) (l : list Z) : Z :=
  if base =? 0 then if hd 0 l =? 48 then 8 else 10 else base.

(** The prefix counts where a hexadecimal digit follows: without one, the text is
    the digit 0 and a letter. *)
Definition split_base (base : Z) (l : list Z) : Z * list Z :=
  if has_prefix base l && is_digit 16 (hd 0 (drop 2 l)) then (16, drop 2 l) else (radix base l, l).

(** The same with every prefix counted. *)
Definition scan_base (base : Z) (l : list Z) : Z * list Z :=
  if has_prefix base l then (16, drop 2 l) else (radix base l, l).

(** The digits at the start of the text, and the text after them. *)
Fixpoint split_digits (base : Z) (l : list Z) : list Z * list Z :=
  match l with
  | c :: t =>
      match digit_value c with
      | Some d => if base <=? d then ([], l) else let '(ds, r) := split_digits base t in (d :: ds, r)
      | None => ([], l)
      end
  | [] => ([], [])
  end.

Definition number (base : Z) (ds : list Z) : Z := foldl (λ v d, v * base + d) 0 ds.

(** A text: white space, a sign, a prefix, the digits, and the rest. *)
Definition parse_with (prefix : Z → list Z → Z * list Z) (base : Z) (s : list Z) :
    bool * Z * list Z * list Z :=
  let '(neg, l) := split_sign (drop_space s) in
  let '(base, l) := prefix base l in
  let '(ds, rest) := split_digits base l in
  (neg, base, ds, rest).
Definition parse := parse_with split_base.
Definition scan := parse_with scan_base.

(** The texts the two take apart differently. *)
Definition lone_prefix (base : Z) (s : list Z) : bool :=
  let l := (split_sign (drop_space s)).2 in
  has_prefix base l && negb (is_digit 16 (hd 0 (drop 2 l))).

Lemma scan_parse base s : lone_prefix base s = false → scan base s = parse base s.
Proof.
  unfold lone_prefix, scan, parse, parse_with. destruct (split_sign _) as [neg l]. cbn [snd].
  unfold split_base, scan_base. by destruct (has_prefix base l), (is_digit 16 _).
Qed.

(** The first character that is not white space is not a sign. *)
Definition unsigned (s : list Z) : bool :=
  let c := hd 0 (drop_space s) in negb ((c =? 45) || (c =? 43)).

(** Where a conversion of the text at [a] ends. *)
Definition end_of (a : Z) (s ds rest : list Z) : Z :=
  match ds with [] => a | _ => a + (Z.of_nat (length s) - Z.of_nat (length rest)) end.

(** ** The scanner follows the text *)

Lemma cstring_cons m a c t : cstring m a (c :: t) → load8 m a = Some c ∧ cstring m (a + 1) t ∧ is_byte c.
Proof.
  intros Hs. destruct (cstring_lookup m a (c :: t) 0 c Hs eq_refl) as (Hl & _ & Hb).
  rewrite Z.add_0_r in Hl. split_and!; [done| |done]. apply (cstring_drop m a (c :: t) 1 Hs). cbn. lia.
Qed.

Lemma cstring_first m a l : cstring m a l → load8 m a = Some (hd 0 l).
Proof.
  intros Hs. destruct l as [|c t]; [|by apply cstring_cons in Hs as [? _]].
  apply cstring_nul in Hs. by rewrite Z.add_0_r in Hs.
Qed.

Lemma skip_space_ok m a s : cstring m a s →
  ∃ p, skip_space m a = Some (hd 0 (drop_space s), p + 1) ∧ cstring m p (drop_space s) ∧
    p = a + (Z.of_nat (length s) - Z.of_nat (length (drop_space s))).
Proof.
  intros Hs. unfold skip_space. pose proof (cstring_fuel m a s Hs) as Hf. revert Hf.
  generalize (fuel m). intros n. revert a n Hs. induction s as [|c t IH]; intros a n Hs Hn.
  - exists a. destruct n as [|n]; [lia|]. rewrite loop_S, (cstring_first m a [] Hs).
    cbn [hd mbind option_bind]. split_and!; [vm_compute; reflexivity|done|cbn; lia].
  - destruct n as [|n]; [lia|]. destruct (cstring_cons m a c t Hs) as (Hl & Ht & Hc).
    unfold is_byte in Hc. destruct (isspace_ok c) as (v & Hv & Ev); [lia|].
    rewrite loop_S, Hl. cbn [mbind option_bind]. rewrite Hv. cbn [mbind option_bind drop_space].
    rewrite Ev. destruct (space c); [|exists a; split_and!; [done|done|lia]].
    destruct (IH (a + 1) n Ht) as (p & Ep & Hp & E); [cbn [length] in Hn; lia|].
    exists p. split_and!; [done|done|]. rewrite E. cbn [length]. lia.
Qed.

Lemma get_sign_ok m p l : cstring m p l →
  ∃ q, get_sign m (hd 0 l) (p + 1) = Some ((split_sign l).1, hd 0 (split_sign l).2, q + 1) ∧
    cstring m q (split_sign l).2 ∧
    q = p + (Z.of_nat (length l) - Z.of_nat (length (split_sign l).2)).
Proof.
  intros Hl. unfold get_sign. destruct l as [|c t].
  - exists p. cbn. split_and!; [done|done|lia].
  - destruct (cstring_cons m p c t Hl) as (_ & Ht & _). cbn [hd split_sign].
    destruct (c =? 45); [|destruct (c =? 43)].
    + exists (p + 1). rewrite (cstring_first _ _ _ Ht). split_and!; [done|done|cbn; lia].
    + exists (p + 1). rewrite (cstring_first _ _ _ Ht). split_and!; [done|done|cbn; lia].
    + exists p. split_and!; [done|done|cbn; lia].
Qed.

Lemma get_base_ok m base p l : cstring m p l →
  ∃ q, get_base m base (hd 0 l) (p + 1)
      = Some ((scan_base base l).1, hd 0 (scan_base base l).2, q + 1) ∧
    cstring m q (scan_base base l).2 ∧
    q = p + (Z.of_nat (length l) - Z.of_nat (length (scan_base base l).2)).
Proof.
  intros Hl. unfold get_base, scan_base, has_prefix, radix.
  destruct (((base =? 0) || (base =? 16)) && (hd 0 l =? 48)) eqn:Eb; cbn [andb];
    [|exists p; split_and!; [done|done|cbn; lia]].
  destruct l as [|c t]; [cbn in Eb; by rewrite andb_false_r in Eb|].
  destruct (cstring_cons m p c t Hl) as (_ & Ht & _). cbn [hd tl].
  rewrite (cstring_first _ _ _ Ht). cbn [mbind option_bind].
  destruct ((hd 0 t =? 120) || (hd 0 t =? 88)) eqn:Ex; [|exists p; split_and!; [done|done|cbn; lia]].
  destruct t as [|x t]; [done|]. destruct (cstring_cons m (p + 1) x t Ht) as (_ & Ht' & _).
  exists (p + 1 + 1). rewrite (cstring_first _ _ _ Ht'). cbn [mbind option_bind drop fst snd].
  replace (p + 1 + 2) with (p + 1 + 1 + 1) by lia. split_and!; [done|done|cbn -[Z.of_nat Z.sub Z.add]; rewrite drop_0; lia].
Qed.

(** One digit, as the loop accounts for it. *)
Definition digit_step (base cutoff cutlim : Z) (st : Z * Z) (d : Z) : Z * Z :=
  let '(acc, any) := st in
  if (any <? 0) || (cutoff <? acc) || ((acc =? cutoff) && (cutlim <? d)) then (acc, -1)
  else (u64 (u64 (acc * base) + d), 1).

Lemma digits_loop m base cutoff cutlim l : ∀ p n acc any,
  cstring m p l → (length l < n)%nat →
  ∃ q, loop n (digits_round m base cutoff cutlim) (hd 0 l, p + 1, acc, any)
      = (let st := foldl (digit_step base cutoff cutlim) (acc, any) (split_digits base l).1 in
         Some (st.1, st.2, q + 1)) ∧
    q = p + (Z.of_nat (length l) - Z.of_nat (length (split_digits base l).2)).
Proof.
  induction l as [|c t IH]; intros p n acc any Hl Hn; (destruct n as [|n]; [lia|]); rewrite loop_S.
  - exists p. cbn. split; [done|lia].
  - destruct (cstring_cons m p c t Hl) as (_ & Ht & _).
    cbn [digits_round hd split_digits].
    destruct (digit_value c) as [d|]; [|exists p; split; [done|cbn; lia]].
    destruct (base <=? d); [exists p; split; [done|cbn; lia]|].
    destruct (split_digits base t) as [ds r] eqn:Ed. cbn [fst snd] in IH. cbn [fst snd foldl].
    destruct (digit_step base cutoff cutlim (acc, any) d) as [acc' any'] eqn:Estep.
    assert ((if (any <? 0) || (cutoff <? acc) || ((acc =? cutoff) && (cutlim <? d)) then (-1, acc)
      else (1, u64 (u64 (acc * base) + d))) = (any', acc')) as ->.
    { unfold digit_step in Estep. destruct (_ || _); by injection Estep as <- <-. }
    rewrite (cstring_first _ _ _ Ht). cbn [mbind option_bind].
    destruct (IH (p + 1) n acc' any' Ht) as (q & Eq & Hq); [cbn [length] in Hn; lia|].
    exists q. split; [done|]. rewrite Hq. cbn [length]. lia.
Qed.

(** ** Overflow *)

Section overflow.
Context (base limit : Z) (Hbase : 2 ≤ base) (Hlimit : 0 ≤ limit < 2 ^ 64).
#[local] Abbreviation cutoff := (limit / base).
#[local] Abbreviation cutlim := (limit mod base).
#[local] Abbreviation step := (digit_step base cutoff cutlim).

(** The state of the loop after digits that make [v]. *)
Definition accounts (v : Z) (st : Z * Z) : Prop :=
  0 ≤ v ∧ (st.2 = -1 ∧ limit < v ∨ st = (v, 1) ∧ v ≤ limit).

Lemma cutoff_spec acc d : 0 ≤ acc → 0 ≤ d < base →
  (cutoff <? acc) || ((acc =? cutoff) && (cutlim <? d)) = (limit <? acc * base + d).
Proof using All.
  intros Hacc Hd. pose proof (Z.div_mod limit base ltac:(lia)) as E.
  pose proof (Z.mod_pos_bound limit base ltac:(lia)).
  set (q := limit / base) in *. set (r := limit mod base) in *.
  destruct (Z.ltb_spec q acc), (Z.eqb_spec acc q), (Z.ltb_spec r d),
    (Z.ltb_spec limit (acc * base + d)); cbn; try done; nia.
Qed.

Lemma digit_step_ok v st d : 0 ≤ d < base → accounts v st → accounts (v * base + d) (step st d).
Proof using All.
  intros Hd (Hv & [(E & Hlt)|(-> & Hle)]).
  - split; [nia|]. left. destruct st as [acc any]. cbn [snd] in E. subst any. cbn. split; [done|nia].
  - unfold digit_step. change (1 <? 0) with false. cbn [orb].
    rewrite cutoff_spec by lia. split; [nia|].
    destruct (Z.ltb_spec limit (v * base + d)); [by left|right].
    rewrite (u64_small (v * base)), u64_small by nia. done.
Qed.

Lemma number_app ds d : number base (ds ++ [d]) = number base ds * base + d.
Proof. unfold number. by rewrite foldl_app. Qed.

Lemma digits_account ds : Forall (λ d, 0 ≤ d < base) ds → ds ≠ [] →
  accounts (number base ds) (foldl step (0, 0) ds).
Proof using All.
  intros Hds Hne. destruct ds as [|d ds] using rev_ind; [done|]. clear IHds Hne.
  induction ds as [|d' ds IH] using rev_ind in d, Hds |- *.
  - apply Forall_inv in Hds. cbn [app foldl]. unfold number. cbn [foldl].
    unfold digit_step. change (0 <? 0) with false. cbn [orb]. rewrite cutoff_spec by lia.
    split; [lia|]. destruct (Z.ltb_spec limit (0 * base + d)); [by left|right].
    rewrite (u64_small (0 * base)), u64_small by lia. done.
  - apply Forall_app in Hds as [Hds Hd]. apply Forall_inv in Hd.
    rewrite number_app, foldl_app. cbn [foldl]. by apply digit_step_ok, IH.
Qed.
End overflow.

(** The four scanners in a row. *)
Lemma scan_ok m a s base neg b ds rest : cstring m a s → scan base s = (neg, b, ds, rest) →
  ∃ c1 p1 c2 p2 c3 p3, skip_space m a = Some (c1, p1) ∧ get_sign m c1 p1 = Some (neg, c2, p2) ∧
    get_base m base c2 p2 = Some (b, c3, p3) ∧
    ∀ cutoff cutlim, get_digits m b cutoff cutlim c3 p3 =
      let st := foldl (digit_step b cutoff cutlim) (0, 0) ds in
      Some (st.1, st.2, a + (Z.of_nat (length s) - Z.of_nat (length rest)) + 1).
Proof.
  intros Hs Hparse. unfold scan, parse_with in Hparse.
  destruct (skip_space_ok m a s Hs) as (p & Ep & Hp & Epos).
  destruct (get_sign_ok m p _ Hp) as (q & Eq & Hq & Eqpos).
  destruct (split_sign (drop_space s)) as [neg' l1]. cbn [fst snd] in *.
  destruct (get_base_ok m base q l1 Hq) as (r & Er & Hr & Erpos).
  destruct (scan_base base l1) as [b' l2]. cbn [fst snd] in *.
  destruct (split_digits b' l2) as [ds' rest'] eqn:Ed. injection Hparse as -> -> -> ->.
  do 6 eexists. split; [exact Ep|]. split; [exact Eq|]. split; [exact Er|]. intros cutoff cutlim.
  destruct (digits_loop m b cutoff cutlim l2 r (fuel m) 0 0 Hr) as (t & Et & Ht).
  { pose proof (cstring_fuel m r l2 Hr). lia. }
  rewrite Ed in Et, Ht. cbn [fst snd] in Et, Ht. unfold get_digits. rewrite Et. cbv zeta.
  f_equal. apply (f_equal2 pair); [done|lia].
Qed.

Lemma digit_value_nonneg c d : digit_value c = Some d → 0 ≤ d < 36.
Proof.
  unfold digit_value. intros H.
  repeat (destruct (_ && _) eqn:E; [zb; injection H as <-; lia|clear E]). done.
Qed.

Lemma split_digits_range base l : Forall (λ d, 0 ≤ d < base) (split_digits base l).1.
Proof.
  induction l as [|c t IH]; [constructor|]. cbn [split_digits].
  destruct (digit_value c) as [d|] eqn:Ed; [|constructor].
  destruct (Z.leb_spec base d); [constructor|].
  destruct (split_digits base t) as [ds r]. cbn [fst] in *. constructor; [|done].
  pose proof (digit_value_nonneg c d Ed). lia.
Qed.

Definition valid_base (base : Z) : Prop := base = 0 ∨ 2 ≤ base ≤ 36.

Lemma scan_range base s neg b ds rest : valid_base base → scan base s = (neg, b, ds, rest) →
  2 ≤ b ≤ 36 ∧ Forall (λ d, 0 ≤ d < b) ds.
Proof.
  intros Hb. unfold scan, parse_with. destruct (split_sign _) as [neg' l1].
  destruct (scan_base base l1) as [b' l2] eqn:Eb.
  pose proof (split_digits_range b' l2). destruct (split_digits b' l2) as [ds' rest'].
  intros [= -> -> -> ->]. split; [|done]. unfold scan_base, has_prefix, radix in Eb. unfold valid_base in Hb.
  destruct (_ && _ && _); injection Eb as <- <-; [lia|].
  destruct (Z.eqb_spec base 0); [destruct (_ =? 48)|]; lia.
Qed.

(** The result for the text at [a] with the parts [t], when the magnitude of a number may be up to
    [limit neg], [big] is returned beyond that, and a negative number is
    converted by [minus]. *)
Definition converted (limit big : bool → Z) (minus : Z → Z)
    (t : bool * Z * list Z * list Z) (a : Z) (s : list Z) (errno : Z) : Z * option Z * Z :=
  let '(neg, b, ds, rest) := t in
  let v := number b ds in
  let e := Some (end_of a s ds rest) in
  if v <=? limit neg then (if neg then minus v else v, e, errno) else (big neg, e, ERANGE).

Definition signed_value : bool * Z * list Z * list Z → Z → list Z → Z → Z * option Z * Z :=
  converted (λ neg, if neg then 2 ^ 63 else LONG_MAX) (λ neg, if neg then LONG_MIN else LONG_MAX) Z.opp.
Definition unsigned_value : bool * Z * list Z * list Z → Z → list Z → Z → Z * option Z * Z :=
  converted (λ _, ULONG_MAX) (λ _, ULONG_MAX) (λ v, (- v) mod 2 ^ 64).

Definition signed_result (a : Z) (s : list Z) (base errno : Z) : Z * option Z * Z :=
  signed_value (parse base s) a s errno.
Definition unsigned_result (a : Z) (s : list Z) (base errno : Z) : Z * option Z * Z :=
  unsigned_value (parse base s) a s errno.

(** What the digits leave in [acc] and [any]. *)
Lemma digits_result b limit ds : 2 ≤ b ≤ 36 → 0 ≤ limit < 2 ^ 64 → Forall (λ d, 0 ≤ d < b) ds →
  ∃ acc any, foldl (digit_step b (limit / b) (limit mod b)) (0, 0) ds = (acc, any) ∧
    (truth any = match ds with [] => false | _ => true end) ∧
    (number b ds ≤ limit ∧ 0 ≤ any ∧ acc = number b ds ∧ 0 ≤ acc ∨ limit < number b ds ∧ any < 0).
Proof.
  intros Hb Hl Hds. destruct ds as [|d ds]; [exists 0, 0; split_and!; [done|done|left; cbn; lia]|].
  destruct (digits_account b limit ltac:(lia) Hl (d :: ds) Hds ltac:(done)) as [Hv Hst].
  destruct (foldl _ _ _) as [acc any]. cbn [snd] in Hst. exists acc, any.
  destruct Hst as [[-> Hlt]|[[= -> ->] Hle]]; split_and!; try done; [right|left]; lia.
Qed.

Lemma strto_signed_ok m a s base errno : cstring m a s → valid_base base →
  strto_signed m a base errno = Some (signed_value (scan base s) a s errno).
Proof.
  intros Hs Hbase. unfold signed_value, converted.
  destruct (scan base s) as [[[neg b] ds] rest] eqn:Hp.
  destruct (scan_ok m a s base neg b ds rest Hs Hp) as (c1 & p1 & c2 & p2 & c3 & p3 & E1 & E2 & E3 & E4).
  destruct (scan_range base s neg b ds rest Hbase Hp) as [Hb Hds].
  unfold strto_signed. rewrite E1. cbn [mbind option_bind]. rewrite E2. cbn [mbind option_bind].
  rewrite E3. cbn [mbind option_bind]. rewrite E4.
  set (limit := if neg then u64 (- u64 LONG_MIN) else LONG_MAX).
  assert (limit = if neg then 2 ^ 63 else LONG_MAX) as El by (by destruct neg).
  assert (0 ≤ limit < 2 ^ 64) as Bl by (rewrite El; unfold LONG_MAX; destruct neg; lia).
  pose proof (Z.mod_pos_bound limit b). rewrite (u64_small b), s32_small by lia.
  destruct (digits_result b limit ds Hb Bl Hds) as (acc & any & -> & Hany & Hres).
  cbn [fst snd mbind option_bind]. rewrite Hany, <- El. unfold end_of.
  replace (a + (Z.of_nat (length s) - Z.of_nat (length rest)) + 1 - 1)
    with (a + (Z.of_nat (length s) - Z.of_nat (length rest))) by lia.
  f_equal. destruct Hres as [(Hle & Ha & -> & H0)|[Hlt Ha]].
  - destruct (Z.ltb_spec any 0); [lia|]. destruct (Z.leb_spec (number b ds) limit); [|lia].
    assert (s64 (if neg then u64 (- number b ds) else number b ds)
      = if neg then - number b ds else number b ds) as ->.
    { destruct neg; [|apply s64_small; unfold LONG_MAX in El; lia].
      rewrite wraps_wrapu. apply s64_small. lia. }
    by destruct ds.
  - destruct (Z.ltb_spec any 0); [|lia]. destruct (Z.leb_spec (number b ds) limit); [lia|].
    destruct ds, neg; done.
Qed.

Lemma strto_unsigned_ok m a s base errno : cstring m a s → valid_base base →
  strto_unsigned m a base errno = Some (unsigned_value (scan base s) a s errno).
Proof.
  intros Hs Hbase. unfold unsigned_value, converted.
  destruct (scan base s) as [[[neg b] ds] rest] eqn:Hp.
  destruct (scan_ok m a s base neg b ds rest Hs Hp) as (c1 & p1 & c2 & p2 & c3 & p3 & E1 & E2 & E3 & E4).
  destruct (scan_range base s neg b ds rest Hbase Hp) as [Hb Hds].
  unfold strto_unsigned. rewrite E1. cbn [mbind option_bind]. rewrite E2. cbn [mbind option_bind].
  rewrite E3. cbn [mbind option_bind]. rewrite E4.
  assert (0 ≤ ULONG_MAX < 2 ^ 64) as Bl by (unfold ULONG_MAX; lia).
  pose proof (Z.mod_pos_bound ULONG_MAX b). rewrite (u64_small b), s32_small by lia.
  destruct (digits_result b ULONG_MAX ds Hb Bl Hds) as (acc & any & -> & Hany & Hres).
  cbn [fst snd mbind option_bind]. rewrite Hany. unfold end_of.
  replace (a + (Z.of_nat (length s) - Z.of_nat (length rest)) + 1 - 1)
    with (a + (Z.of_nat (length s) - Z.of_nat (length rest))) by lia.
  f_equal. destruct Hres as [(Hle & Ha & -> & H0)|[Hlt Ha]].
  - destruct (Z.ltb_spec any 0); [lia|]. destruct (Z.leb_spec (number b ds) ULONG_MAX); [|lia].
    by destruct ds.
  - destruct (Z.ltb_spec any 0); [|lia]. destruct (Z.leb_spec (number b ds) ULONG_MAX); [lia|].
    by destruct ds.
Qed.

(** ** Writing a number *)

(** The digits of [v] from the lowest on; [n] bounds their number. *)
Fixpoint low_digits (n : nat) (base v : Z) : list Z :=
  match n with
  | O => [v]
  | S n => v mod base :: if v / base =? 0 then [] else low_digits n base (v / base)
  end.

Definition char_of (d : Z) : Z := if d <? 10 then 48 + d else 87 + d.

(** The text of a number: its digits from the highest on. *)
Definition text (base v : Z) : list Z := rev (char_of <$> low_digits 32 base v).

Lemma digit_char_ok d : 0 ≤ d < 36 → digit_char d = Some (char_of d).
Proof.
  intros Hd.
  assert (forallb (λ d, bool_decide (digit_char d = Some (char_of d))) (seqZ 0 36) = true) as Hall
    by (vm_compute; reflexivity).
  rewrite forallb_forall in Hall. apply (bool_decide_unpack _), Is_true_true, Hall.
  apply list_elem_of_In, elem_of_seqZ. lia.
Qed.

Lemma char_of_value d : 0 ≤ d < 36 → digit_value (char_of d) = Some d ∧ is_byte (char_of d).
Proof.
  intros Hd.
  assert (forallb (λ d, bool_decide (digit_value (char_of d) = Some d ∧ is_byte (char_of d)))
    (seqZ 0 36) = true) as Hall by (vm_compute; reflexivity).
  rewrite forallb_forall in Hall. apply (bool_decide_unpack _), Is_true_true, Hall.
  apply list_elem_of_In, elem_of_seqZ. lia.
Qed.

Section low_digits.
Context (base : Z) (Hbase : 2 ≤ base ≤ 36).

Lemma div_base_lt n v : 0 ≤ v < 2 ^ Z.of_nat (S n) → 0 ≤ v / base < 2 ^ Z.of_nat n.
Proof using Hbase.
  rewrite Nat2Z.inj_succ, Z.pow_succ_r by lia. intros Hv.
  split; [apply Z.div_pos; lia|]. apply Z.div_lt_upper_bound; [lia|]. nia.
Qed.

Lemma low_digits_range n v : 0 ≤ v < 2 ^ Z.of_nat n → Forall (λ d, 0 ≤ d < base) (low_digits n base v).
Proof using Hbase.
  revert v. induction n as [|n IH]; intros v Hv; cbn [low_digits].
  - constructor; [cbn in Hv; lia|constructor].
  - constructor; [apply Z.mod_pos_bound; lia|]. destruct (Z.eqb_spec (v / base) 0); [constructor|].
    by apply IH, div_base_lt.
Qed.

Lemma low_digits_length n v : 0 ≤ v < 2 ^ Z.of_nat n → (0 < length (low_digits n base v) ≤ Nat.max 1 n)%nat.
Proof using Hbase.
  revert v. induction n as [|n IH]; intros v Hv; cbn [low_digits length]; [lia|].
  destruct (Z.eqb_spec (v / base) 0); cbn [length]; [lia|].
  apply div_base_lt in Hv. specialize (IH (v / base) Hv).
  destruct n as [|n]; [cbn in Hv; lia|lia].
Qed.

Lemma low_digits_number n v : 0 ≤ v < 2 ^ Z.of_nat n → number base (rev (low_digits n base v)) = v.
Proof using Hbase.
  revert v. induction n as [|n IH]; intros v Hv; cbn [low_digits rev].
  - cbn in Hv |- *. lia.
  - rewrite number_app. pose proof (Z.div_mod v base ltac:(lia)) as Ed.
    destruct (Z.eqb_spec (v / base) 0) as [E0|E0]; [cbn; lia|].
    rewrite IH; [lia|]. by apply div_base_lt.
Qed.

(** The [do] loop of [__utoa]. *)
Lemma utoa_digits_loop n m v str i :
  0 ≤ v < 2 ^ Z.of_nat n → mapped m (str + i) (Z.of_nat (length (low_digits n base v))) →
  loop (S n) (utoa_round str base) (m, v, i)
  = Some (write_bytes m (str + i) (char_of <$> low_digits n base v),
          i + Z.of_nat (length (low_digits n base v))).
Proof using Hbase.
  revert m v i. induction n as [|n IH]; intros m v i Hv Hm; rewrite loop_S; cbn [utoa_round];
    (rewrite digit_char_ok by (pose proof (Z.mod_pos_bound v base); lia); cbn [mbind option_bind]);
    (rewrite store8_mapped by
       (apply (mapped_sub _ _ _ _ _ Hm); [lia|cbn [low_digits length]; lia]); cbn [mbind option_bind low_digits]).
  - assert (v = 0) as -> by (cbn in Hv; lia). rewrite Z.mod_0_l, Z.div_0_l by lia. done.
  - change (truth (v / base)) with (negb (v / base =? 0)).
    destruct (Z.eqb_spec (v / base) 0) as [E0|E0]; cbn [negb mbind option_bind]; [done|].
    rewrite IH.
    + replace (str + (i + 1)) with (str + i + 1) by lia.
      cbn [fmap list_fmap length]. f_equal. apply (f_equal2 pair); [|lia].
      change (char_of (v mod base) :: ?l) with ([char_of (v mod base)] ++ l).
      by rewrite write_bytes_app.
    + by apply div_base_lt.
    + apply mapped_write_bytes. cbn [low_digits] in Hm.
      destruct (Z.eqb_spec (v / base) 0); [done|]. cbn [length] in Hm.
      apply (mapped_sub _ _ _ _ _ Hm); lia.
Qed.
End low_digits.

(** Reversing the bytes between two positions. *)
Lemma reverse_loop str n : ∀ l m j, bytes_at m (str + j) l → (length l < 2 * n)%nat →
  ∃ m', loop n (reverse_round str) (m, j, j + Z.of_nat (length l) - 1) = Some m' ∧
    updated m (str + j) (rev l) m'.
Proof.
  induction n as [|n IH]; intros l m j Hl Hn; [lia|]. rewrite loop_S. cbn [reverse_round].
  destruct (Z.ltb_spec j (j + Z.of_nat (length l) - 1)) as [Hlt|Hge].
  - destruct l as [|x l]; [cbn in Hlt; lia|]. destruct l as [|y l _] using rev_ind; [cbn in Hlt; lia|].
    pose proof (bytes_at_bytes _ _ _ Hl) as Hbytes.
    pose proof (bytes_at_mapped _ _ _ Hl) as Hmap.
    cbn [length] in *. rewrite length_app in *. cbn [length] in *.
    apply Forall_cons in Hbytes as [Bx Bl]. apply Forall_app in Bl as [Bmid By]. apply Forall_inv in By.
    apply bytes_at_cons in Hl as (Hx & Hl). apply bytes_at_app in Hl as [Hmid Hl].
    apply bytes_at_cons in Hl as (Hy & _).
    set (k := Z.of_nat (length l)) in *.
    replace (j + Z.of_nat (S (length l + 1)) - 1) with (j + 1 + k) by lia.
    replace (str + (j + 1 + k)) with (str + j + 1 + k) by lia.
    rewrite Hx, Hy. cbn [mbind option_bind].
    rewrite store8_mapped by (apply (mapped_sub _ _ _ _ _ Hmap); lia). cbn [mbind option_bind].
    rewrite store8_mapped by (apply mapped_write_bytes, (mapped_sub _ _ _ _ _ Hmap); lia).
    cbn [mbind option_bind]. set (m1 := write_bytes (write_bytes m (str + j) [y]) (str + j + 1 + k) [x]).
    assert (bytes_at m1 (str + j + 1) l) as Hmid1.
    { apply bytes_at_write_bytes_ne; [|left; lia]. apply bytes_at_write_bytes_ne; [done|right; cbn; lia]. }
    assert (updated m (str + j) [y] (write_bytes m (str + j) [y])) as [Hy1 Hf1]
      by (apply write_bytes_updated; auto).
    assert (updated (write_bytes m (str + j) [y]) (str + j + 1 + k) [x] m1) as [Hx1 Hf2]
      by (apply write_bytes_updated; auto).
    replace (j + 1 + k - 1) with (j + 1 + Z.of_nat (length l) - 1) by (unfold k; lia).
    replace (str + j + 1) with (str + (j + 1)) in Hmid1 by lia.
    destruct (IH l m1 (j + 1) Hmid1) as (m2 & E2 & Hb2 & Hf3); [lia|].
    exists m2. split; [exact E2|].
    rewrite length_rev in Hf3. cbn [rev]. rewrite rev_app_distr. cbn [rev app length] in *.
    assert (∀ p c, bytes_at m1 p [c] → ¬ (str + (j + 1) ≤ p < str + (j + 1) + k) → bytes_at m2 p [c]) as Hsame.
    { intros p c Hp Hout. apply bytes_at_cons. split; [|apply bytes_at_nil].
      apply bytes_at_cons in Hp as [Hp _]. unfold load8 in *. by rewrite Hf3. }
    split.
    + change (y :: rev l ++ [x]) with ([y] ++ rev l ++ [x]). rewrite !bytes_at_app.
      replace (str + j + Z.of_nat (length [y])) with (str + (j + 1)) by (cbn; lia).
      split_and!; [|done|].
      * apply Hsame; [|lia]. apply bytes_at_write_bytes_ne; [done|left; cbn; lia].
      * rewrite length_rev. apply Hsame; [|lia].
        by replace (str + (j + 1) + Z.of_nat (length l)) with (str + j + 1 + k) by lia.
    + intros p Hp. cbn [length] in Hp. rewrite length_app, length_rev in Hp. cbn [length] in Hp.
      rewrite Hf3, Hf2, Hf1 by lia. done.
  - exists m. split; [done|]. assert (rev l = l) as ->; [|done].
    destruct l as [|x [|y l]]; [done..|]. cbn in Hge. lia.
Qed.

(** The bytes [__utoa] stores. *)
Lemma __utoa_ok m v str base : 2 ≤ base ≤ 36 → 0 ≤ v < 2 ^ 32 →
  mapped m str (Z.of_nat (length (text base v)) + 1) →
  ∃ m', __utoa m v str base = Some (m', str) ∧ updated m str (text base v ++ [0]) m'.
Proof.
  intros Hb Hv Hm. unfold __utoa, text in *. rewrite length_rev, length_fmap in Hm.
  destruct (Z.ltb_spec base 2); [lia|]. destruct (Z.ltb_spec 36 base); [lia|]. cbn [orb].
  pose proof (low_digits_length base Hb 32 v Hv) as Hlen.
  pose proof (low_digits_range base Hb 32 v Hv) as Hr.
  set (ds := low_digits 32 base v) in *. set (l := char_of <$> ds).
  assert (length l = length ds) as El by apply length_fmap.
  assert (Forall is_byte l) as Bl.
  { apply Forall_fmap. eapply Forall_impl; [exact Hr|]. intros d Hd. cbv beta in Hd. apply char_of_value. lia. }
  unfold utoa_digits. rewrite (utoa_digits_loop base Hb 32 m v str 0 Hv)
    by (rewrite Z.add_0_r; fold ds; apply (mapped_sub _ _ _ _ _ Hm); lia).
  cbn [mbind option_bind]. fold ds l. rewrite Z.add_0_r, Z.add_0_l, <- El.
  rewrite store8_mapped by (apply mapped_write_bytes, (mapped_sub _ _ _ _ _ Hm); lia).
  cbn [mbind option_bind]. rewrite <- write_bytes_app. set (m1 := write_bytes m str (l ++ [0])).
  assert (updated m str (l ++ [0]) m1) as [H1 Hf1].
  { apply write_bytes_updated, Forall_app. split; [done|]. by repeat constructor. }
  apply bytes_at_app in H1 as [Hl1 Hnul].
  destruct (reverse_loop str 33 l m1 0) as (m2 & E2 & Hb2 & Hf2);
    [by rewrite Z.add_0_r|lia|]. rewrite Z.add_0_l, Z.add_0_r, length_rev in *.
  unfold utoa_reverse. rewrite E2. cbn [mbind option_bind]. exists m2. split; [done|]. split.
  - apply bytes_at_app. rewrite length_rev. split; [done|].
    apply bytes_at_cons in Hnul as [Hnul _]. apply bytes_at_cons. split; [|apply bytes_at_nil].
    unfold load8 in *. rewrite Hf2 by lia. done.
  - intros p Hp. rewrite length_app, length_rev in Hp. cbn [length] in Hp.
    rewrite Hf2, Hf1 by (rewrite ?length_app; cbn [length]; lia). done.
Qed.

(** The text of an [int]: signed in base ten only. *)
Definition int_text (base v : Z) : list Z :=
  if (base =? 10) && (v <? 0) then 45 :: text base (- v) else text base (u32 v).

Lemma __itoa_ok m v str base : 2 ≤ base ≤ 36 → - 2 ^ 31 ≤ v < 2 ^ 31 →
  mapped m str (Z.of_nat (length (int_text base v)) + 1) →
  ∃ m', __itoa m v str base = Some (m', str) ∧ updated m str (int_text base v ++ [0]) m'.
Proof.
  intros Hb Hv Hm. unfold __itoa, int_text in *.
  destruct (Z.ltb_spec base 2); [lia|]. destruct (Z.ltb_spec 36 base); [lia|]. cbn [orb].
  destruct ((base =? 10) && (v <? 0)) eqn:E.
  - zb. rewrite u32_small by lia. cbn [length] in Hm.
    rewrite store8_mapped by (apply (mapped_sub _ _ _ _ _ Hm); lia). cbn [mbind option_bind].
    destruct (__utoa_ok (write_bytes m str [45]) (- v) (str + 1) base) as (m' & -> & Hb' & Hf'); [lia|lia| |].
    { apply mapped_write_bytes, (mapped_sub _ _ _ _ _ Hm); lia. }
    cbn [mbind option_bind]. exists m'. split; [done|].
    assert (updated m str [45] (write_bytes m str [45])) as [Hm1 Hf1]
      by (apply write_bytes_updated; by repeat constructor).
    apply bytes_at_cons in Hm1 as [Hm1 _]. split.
    + cbn [app]. apply bytes_at_cons. split; [|done]. unfold load8 in *. rewrite Hf' by lia. done.
    + intros p Hp. cbn [app length] in *. rewrite Hf', Hf1 by (cbn [length]; lia). done.
  - cbn [mbind option_bind]. rewrite Z.add_0_r.
    destruct (__utoa_ok m (u32 v) str base) as (m' & -> & Hu); [lia|apply u32_range|done|].
    cbn [mbind option_bind]. by exists m'.
Qed.

(** ** Reading back *)

Lemma split_digits_text base ds : base ≤ 36 → Forall (λ d, 0 ≤ d < base) ds →
  split_digits base (char_of <$> ds) = (ds, []).
Proof.
  intros Hb. induction 1 as [|d ds Hd _ IH]; [done|]. cbn [fmap list_fmap split_digits].
  destruct (char_of_value d) as [-> _]; [lia|]. destruct (Z.leb_spec base d); [lia|].
  by rewrite IH.
Qed.

Lemma text_head c ds : 0 ≤ c < 36 →
  drop_space (char_of <$> c :: ds) = char_of <$> c :: ds ∧
  split_sign (char_of <$> c :: ds) = (false, char_of <$> c :: ds).
Proof.
  intros Hc. cbn [fmap list_fmap drop_space split_sign].
  assert (48 ≤ char_of c ≤ 122) by (unfold char_of; destruct (Z.ltb_spec c 10); lia).
  assert (space (char_of c) = false) as ->.
  { unfold space, among. apply orb_false_iff. split; [apply andb_false_iff; right|]; lia. }
  destruct (Z.eqb_spec (char_of c) 45); [lia|]. destruct (Z.eqb_spec (char_of c) 43); [lia|]. done.
Qed.

(** A text of digits has no prefix. *)
Lemma scan_base_text base ds : 2 ≤ base ≤ 36 → Forall (λ d, 0 ≤ d < base) ds →
  scan_base base (char_of <$> ds) = (base, char_of <$> ds).
Proof.
  intros Hb Hds. unfold scan_base, has_prefix, radix.
  assert (((base =? 0) || (base =? 16)) && (hd 0 (char_of <$> ds) =? 48) &&
    ((hd 0 (tl (char_of <$> ds)) =? 120) || (hd 0 (tl (char_of <$> ds)) =? 88)) = false) as ->.
  { destruct (Z.eqb_spec base 0); [lia|]. destruct (Z.eqb_spec base 16) as [->|]; [|done].
    destruct Hds as [|c ds _ Hds]; [done|]. cbn [fmap list_fmap tl].
    destruct Hds as [|d ds Hd Hds]; [by cbn; destruct (char_of c =? 48)|]. cbn [fmap list_fmap hd].
    assert (char_of d < 120 ∧ char_of d ≠ 88) by (unfold char_of; destruct (Z.ltb_spec d 10); lia).
    destruct (Z.eqb_spec (char_of d) 120); [lia|]. destruct (Z.eqb_spec (char_of d) 88); [lia|].
    cbn. by destruct (char_of c =? 48). }
  by destruct (Z.eqb_spec base 0); [lia|].
Qed.

Lemma scan_digits base ds : 2 ≤ base ≤ 36 → Forall (λ d, 0 ≤ d < base) ds → ds ≠ [] →
  scan base (char_of <$> ds) = (false, base, ds, []) ∧
  scan base (45 :: (char_of <$> ds)) = (true, base, ds, []).
Proof.
  intros Hb Hds Hne. destruct ds as [|c ds]; [done|].
  destruct (text_head c ds) as [E1 E2]; [apply Forall_inv in Hds; lia|].
  pose proof (scan_base_text base _ Hb Hds) as E3.
  pose proof (split_digits_text base _ (proj2 Hb) Hds) as E4.
  revert E1 E2 E3 E4. generalize (char_of <$> c :: ds). intros l E1 E2 E3 E4.
  split; unfold scan, parse_with; [rewrite E1, E2|change (split_sign (drop_space (45 :: l))) with (true, l)];
    cbv beta iota zeta; rewrite E3; cbv beta iota zeta; by rewrite E4.
Qed.

Lemma text_eq base v : text base v = char_of <$> rev (low_digits 32 base v).
Proof. unfold text. symmetry. apply map_rev. Qed.

Lemma scan_text base v : 2 ≤ base ≤ 36 → 0 ≤ v < 2 ^ 32 →
  ∃ ds, number base ds = v ∧ ds ≠ [] ∧ scan base (text base v) = (false, base, ds, []) ∧
    scan base (45 :: text base v) = (true, base, ds, []).
Proof.
  intros Hb Hv. exists (rev (low_digits 32 base v)).
  pose proof (low_digits_length base Hb 32 v Hv) as Hl.
  assert (rev (low_digits 32 base v) ≠ []) as Hne.
  { intros E%(f_equal length). rewrite length_rev in E. cbn in E. lia. }
  split; [by apply low_digits_number|]. split; [done|]. rewrite text_eq.
  apply scan_digits; [done| |done]. apply Forall_rev. by apply low_digits_range.
Qed.

Lemma updated_cstring m a l m' :
  updated m a (l ++ [0]) m' → Forall (λ b, b ≠ 0) l → cstring m' a l.
Proof. intros [Hl _] H0. by split. Qed.

Lemma text_nonzero base v : 2 ≤ base ≤ 36 → 0 ≤ v < 2 ^ 32 → Forall (λ b, b ≠ 0) (text base v).
Proof.
  intros Hb Hv. rewrite text_eq. apply Forall_fmap, Forall_rev.
  eapply Forall_impl; [by apply low_digits_range|]. intros d Hd. cbv beta in Hd. cbn.
  unfold char_of. destruct (Z.ltb_spec d 10); lia.
Qed.

(** ** The expected form *)

(** What the documentation calls the subject: an optional sign, a prefix where the
    base permits one, and at least one digit. *)
Definition sign_text (neg : bool) (g : list Z) : Prop :=
  g = [] ∧ neg = false ∨ g = [43] ∧ neg = false ∨ g = [45] ∧ neg = true.
Definition prefix_text (base b : Z) (x d : list Z) : Prop :=
  x = [] ∧ b = radix base d ∨ (x = [48; 120] ∨ x = [48; 88]) ∧ (base = 0 ∨ base = 16) ∧ b = 16.
Definition digits_text (b : Z) (d ds : list Z) : Prop :=
  Forall2 (λ c v, digit_value c = Some v ∧ v < b) d ds ∧ d ≠ [].
Definition subject (base : Z) (neg : bool) (b : Z) (ds u : list Z) : Prop :=
  ∃ g x d, u = g ++ x ++ d ∧ sign_text neg g ∧ prefix_text base b x d ∧ digits_text b d ds.

Lemma split_digits_text_of b l ds rest : split_digits b l = (ds, rest) →
  ∃ d, l = d ++ rest ∧ Forall2 (λ c v, digit_value c = Some v ∧ v < b) d ds.
Proof.
  revert ds rest. induction l as [|c t IH]; intros ds rest; cbn [split_digits].
  - intros [= <- <-]. by exists [].
  - destruct (digit_value c) as [v|] eqn:Ev; [|intros [= <- <-]; by exists []].
    destruct (Z.leb_spec b v); [intros [= <- <-]; by exists []|].
    destruct (split_digits b t) as [ds' r'] eqn:E. intros [= <- <-].
    destruct (IH _ _ eq_refl) as (d & -> & Hd). exists (c :: d). split; [done|]. by constructor.
Qed.

Lemma split_digits_longest b d ds r : Forall2 (λ c v, digit_value c = Some v ∧ v < b) d ds →
  (length (split_digits b (d ++ r)).2 ≤ length r)%nat ∧
  (d ≠ [] → (split_digits b (d ++ r)).1 ≠ []).
Proof.
  induction 1 as [|c v d ds [Ev Hv] _ IH]; cbn [app].
  - split; [|done]. destruct (split_digits b r) as [ds r'] eqn:E. cbn [snd].
    destruct (split_digits_text_of _ _ _ _ E) as (d & -> & _). rewrite length_app. lia.
  - cbn [split_digits]. rewrite Ev. destruct (Z.leb_spec b v); [lia|].
    destruct (split_digits b (d ++ r)). by split; [apply IH|].
Qed.

Lemma split_sign_text l neg l' : split_sign l = (neg, l') → ∃ g, l = g ++ l' ∧ sign_text neg g.
Proof.
  unfold split_sign, sign_text. destruct l as [|c t]; [intros [= <- <-]; exists []; auto|].
  destruct (Z.eqb_spec c 45) as [->|]; [intros [= <- <-]; exists [45]; auto|].
  destruct (Z.eqb_spec c 43) as [->|]; intros [= <- <-]; [exists [43]|exists []]; auto.
Qed.

Lemma has_prefix_text base l : has_prefix base l = true →
  ∃ x t, l = x ++ t ∧ drop 2 l = t ∧ (x = [48; 120] ∨ x = [48; 88]) ∧ (base = 0 ∨ base = 16).
Proof.
  unfold has_prefix. intros H. apply andb_true_iff in H as [[Hb H0]%andb_true_iff Hx].
  destruct l as [|c [|d t]]; [done|done|]. cbn [hd tl] in *.
  exists [c; d], t. split_and!; [done|done| |lia].
  apply orb_true_iff in Hx as [Hx|Hx]; zb; subst; auto.
Qed.

(** What [parse] finds is of the expected form. *)
Lemma parse_subject base s neg b ds rest : parse base s = (neg, b, ds, rest) → ds ≠ [] →
  ∃ u, drop_space s = u ++ rest ∧ subject base neg b ds u.
Proof.
  unfold parse, parse_with. destruct (split_sign (drop_space s)) as [neg' l] eqn:Es.
  destruct (split_sign_text _ _ _ Es) as (g & -> & Hg). unfold split_base.
  destruct (has_prefix base l && is_digit 16 (hd 0 (drop 2 l))) eqn:Ep;
    [apply andb_true_iff in Ep as [(x & t & -> & -> & Hx & Hb)%has_prefix_text Hd]|];
    destruct (split_digits _ _) as [ds' r'] eqn:E; intros [= -> <- -> ->] Hne;
    destruct (split_digits_text_of _ _ _ _ E) as (d & -> & H2);
    (assert (d ≠ []) as Hdne by (intros ->; apply Forall2_nil_inv_l in H2; congruence)).
  - exists (g ++ x ++ d). split; [by rewrite <- !app_assoc|].
    exists g, x, d. split_and!; [done|done| |done]. right. auto.
  - exists (g ++ d). split; [by rewrite <- app_assoc|].
    exists g, [], d. split_and!; [done|done| |done]. left. split; [done|].
    unfold radix. destruct d; done.
Qed.

Lemma digit_no_sign c v : digit_value c = Some v → c ≠ 45 ∧ c ≠ 43.
Proof. intros E. split; intros ->; done. Qed.

Lemma split_sign_of neg g x d r : sign_text neg g →
  (∃ c l, x ++ d = c :: l ∧ is_Some (digit_value c)) →
  split_sign (g ++ x ++ d ++ r) = (neg, x ++ d ++ r).
Proof.
  intros Hg (c & l & E & v & Ev). destruct (digit_no_sign c v Ev).
  rewrite (app_assoc x d r), E.
  destruct Hg as [[-> ->]|[[-> ->]|[-> ->]]]; [|done..]. cbn [app split_sign].
  destruct (Z.eqb_spec c 45); [done|]. by destruct (Z.eqb_spec c 43).
Qed.

(** Nothing longer is: [parse] leaves no more of the text than any other way to
    find the expected form. *)
Lemma parse_longest base s neg b ds u rest :
  drop_space s = u ++ rest → subject base neg b ds u →
  ∃ b' ds' rest', parse base s = (neg, b', ds', rest') ∧ ds' ≠ [] ∧
    (length rest' ≤ length rest)%nat.
Proof.
  intros Hs (g & x & d & -> & Hg & Hx & Hd & Hne). unfold parse, parse_with.
  assert (∃ c v t, d = c :: t ∧ digit_value c = Some v ∧ v < b) as (c & v & t & Ed & Ev & Hv).
  { destruct Hd as [|c v ? ? []]; [done|]. by eexists _, _, _. }
  rewrite Hs, <- !app_assoc, (split_sign_of neg) by
    (first [done | destruct Hx as [[-> _]|[[->| ->] _]]; [rewrite Ed|..];
      eexists _, _; (split; [reflexivity|by eexists])]).
  unfold split_base. destruct Hx as [[-> ->]|(Hx & Hb & ->)].
  - cbn [app]. destruct (has_prefix base (d ++ rest) && _) eqn:Ep.
    + apply andb_true_iff in Ep as [(x & t' & E & -> & Hx & Hb)%has_prefix_text Hdig].
      assert (t = [] ∧ c = 48) as [-> ->].
      { destruct t as [|c' t]; [split; [done|]; rewrite Ed in E; destruct Hx as [->| ->]; by injection E|].
        exfalso. rewrite Ed in E, Hd. inversion Hd as [|? ? ? ? _ H2]. inversion H2 as [|? v' ? ? [Ev' Hv']].
        unfold radix in Hv'. destruct Hx as [->| ->]; injection E as -> -> _; injection Ev' as <-;
          destruct Hb as [->| ->]; cbn in Hv'; lia. }
      assert (rest = tl x ++ t') as -> by (rewrite Ed in E; destruct Hx as [->| ->]; by injection E as ->).
      unfold is_digit in Hdig. destruct t' as [|h t']; [done|]. cbn [hd] in Hdig.
      destruct (digit_value h) as [w|] eqn:Ew; [|done].
      destruct (split_digits_longest 16 [h] [w] t') as [Hlen Hnn]; [repeat constructor; (done || lia)|].
      cbn [app] in *. destruct (split_digits 16 (h :: t')) as [ds' r'].
      eexists _, _, _. split_and!; [reflexivity|by apply Hnn|]. cbn [snd] in Hlen.
      rewrite length_app. cbn [length]. lia.
    + assert (radix base (d ++ rest) = radix base d) as -> by (by rewrite Ed).
      destruct (split_digits_longest _ _ _ rest Hd) as [Hlen Hnn].
      destruct (split_digits _ (d ++ rest)) as [ds' r']. eexists _, _, _. by split_and!; [|apply Hnn|].
  - assert (has_prefix base (x ++ d ++ rest) && is_digit 16 (hd 0 (drop 2 (x ++ d ++ rest))) = true) as ->.
    { rewrite Ed. unfold has_prefix, is_digit.
      destruct Hx as [->| ->], Hb as [->| ->]; cbn [app hd tl drop]; rewrite Ev; cbn; lia. }
    assert (drop 2 (x ++ d ++ rest) = d ++ rest) as -> by (by destruct Hx as [->| ->]).
    destruct (split_digits_longest _ _ _ rest Hd) as [Hlen Hnn].
    destruct (split_digits _ (d ++ rest)) as [ds' r']. eexists _, _, _. by split_and!; [|apply Hnn|].
Qed.

(** ** Theorems *)

(** C24. Text to integer, by the documentation of the functions. For every string
    and every base that is 0 or from 2 to 36 [strtol] and [strtoll], and [strtoul]
    and [strtoull] where the number has no sign (their documentation permits none),
    skip white space and convert the longest text of the expected form: a sign, the
    prefix 0x where a hexadecimal digit follows, and digits of the base
    ([parse_longest]). They return the exact number while it is in range, the nearest
    limit and ERANGE beyond it, and report the end of the text, or the start of the
    string if there is none. The exception is a prefix without a hexadecimal digit
    after it ([strtol_lone_prefix]). Any other base makes [strtol] report EINVAL,
    return 0 and store nothing. *)
Theorem strtol_correct m a s base errno : cstring m a s →
  (valid_base base → lone_prefix base s = false →
    strtol m a base errno = Some (signed_result a s base errno) ∧
    strtoll m a base errno = Some (signed_result a s base errno) ∧
    (unsigned s = true →
      strtoul m a base errno = Some (unsigned_result a s base errno) ∧
      strtoull m a base errno = Some (unsigned_result a s base errno))) ∧
  (¬ valid_base base → strtol m a base errno = Some (0, None, EINVAL)).
Proof.
  intros Hs. unfold strtol, _strtol_l, valid_base, signed_result, unsigned_result. split.
  - intros Hb Hlone. rewrite <- scan_parse by done.
    assert ((base <? 0) || (base =? 1) || (36 <? base) = false) as -> by lia.
    split_and!; [by apply strto_signed_ok..|]. intros _. split; by apply strto_unsigned_ok.
  - intros Hb. by assert ((base <? 0) || (base =? 1) || (36 <? base) = true) as -> by lia.
Qed.

(** A string at 16. *)
Definition demo_text (s : list Z) : mem := mk_mem 16 (s ++ [0]).

(** " -0x1fz" in base 0 is -31, and the rest is "z". *)
Lemma strtol_correct_witness :
  strtol (demo_text [32; 45; 48; 120; 49; 102; 122]) 16 0 0 = Some (-31, Some 22, 0).
Proof.
  apply (strtol_correct (demo_text [32; 45; 48; 120; 49; 102; 122]) 16 [32; 45; 48; 120; 49; 102; 122] 0 0);
    [mem_witness|by left|reflexivity].
Defined.

Lemma signed_value_scanned a s base errno neg ds : scan base s = (neg, base, ds, []) → ds ≠ [] →
  number base ds ≤ LONG_MAX →
  signed_value (scan base s) a s errno =
    (if neg then - number base ds else number base ds, Some (a + Z.of_nat (length s)), errno).
Proof.
  intros Hp Hne Hn. unfold signed_value, converted. rewrite Hp. unfold LONG_MAX in *.
  assert (end_of a s ds [] = a + Z.of_nat (length s)) as ->
    by (unfold end_of; destruct ds; [done|cbn [length]; lia]).
  destruct neg; [destruct (Z.leb_spec (number base ds) (2 ^ 63))|
    destruct (Z.leb_spec (number base ds) (2 ^ 63 - 1))]; [done|lia|done|lia].
Qed.

(** Where an [int] reads back as itself. *)
Lemma int_text_result a v base errno : 2 ≤ base ≤ 36 → - 2 ^ 31 ≤ v < 2 ^ 31 →
  signed_value (scan base (int_text base v)) a (int_text base v) errno =
    (if base =? 10 then v else u32 v, Some (a + Z.of_nat (length (int_text base v))), errno) ∧
  Forall (λ b, b ≠ 0) (int_text base v).
Proof.
  intros Hb Hv. unfold int_text. destruct ((base =? 10) && (v <? 0)) eqn:E; zb.
  - destruct (scan_text base (- v) Hb) as (ds & En & Hne & _ & Hp); [lia|].
    rewrite (signed_value_scanned _ _ _ _ _ _ Hp Hne) by (rewrite En; unfold LONG_MAX; lia).
    rewrite En, Z.opp_involutive. destruct (Z.eqb_spec base 10); [|lia].
    split; [done|]. constructor; [done|]. apply text_nonzero; lia.
  - pose proof (u32_range v) as Hu.
    destruct (scan_text base (u32 v) Hb Hu) as (ds & En & Hne & Hp & _).
    rewrite (signed_value_scanned _ _ _ _ _ _ Hp Hne) by (rewrite En; unfold LONG_MAX; lia).
    rewrite En. split; [|by apply text_nonzero]. destruct (Z.eqb_spec base 10); [|done].
    by rewrite u32_small by lia.
Qed.

(** Integer to text and back. With room for the text, [itoa] writes the text
    of any [int] in any base from 2 to 36, a terminator and nothing else, and
    what [strtol] reads back from there is the number, to the end of the text
    and without an error: the number itself in base ten, where a minus sign is
    written, and its 32-bit unsigned value in the others. With any other base
    [itoa] writes an empty string and returns a null pointer. *)
Theorem itoa_strtol_roundtrip m v str base errno : - 2 ^ 31 ≤ v < 2 ^ 31 →
  mapped m str (Z.of_nat (length (int_text base v)) + 1) →
  (2 ≤ base ≤ 36 →
    ∃ m', itoa m v str base = Some (m', str) ∧ updated m str (int_text base v ++ [0]) m' ∧
      strtol m' str base errno = Some (if base =? 10 then v else u32 v,
        Some (str + Z.of_nat (length (int_text base v))), errno)) ∧
  (¬ 2 ≤ base ≤ 36 → ∃ m', itoa m v str base = Some (m', 0) ∧ updated m str [0] m').
Proof.
  intros Hv Hm. split; intros Hb.
  - destruct (__itoa_ok m v str base Hb Hv Hm) as (m' & E & Hu). exists m'. split_and!; [done..|].
    destruct (int_text_result str v base errno Hb Hv) as [<- Hz].
    unfold strtol, _strtol_l.
    assert ((base <? 0) || (base =? 1) || (36 <? base) = false) as -> by lia.
    apply strto_signed_ok; [by apply (updated_cstring m)|unfold valid_base; lia].
  - unfold itoa, __itoa. assert ((base <? 2) || (36 <? base) = true) as -> by lia.
    rewrite store8_mapped by (apply (mapped_sub _ _ _ _ _ Hm); lia). cbn [mbind option_bind].
    eexists. split; [done|]. apply write_bytes_updated; by repeat constructor.
Qed.

Lemma itoa_strtol_roundtrip_witness : ∃ m',
  itoa (demo_text (replicate 15 1)) (-2147483648) 16 10 = Some (m', 16) ∧
  strtol m' 16 10 0 = Some (-2147483648, Some 27, 0).
Proof.
  destruct (itoa_strtol_roundtrip (demo_text (replicate 15 1)) (-2147483648) 16 10 0) as [H _];
    [lia|mem_witness|].
  destruct H as (m' & E & _ & R); [lia|]. by exists m'.
Defined.

(** A prefix with no digit after it. The digit 0 alone would be a number; the
    conversion reports that there is none. *)
Lemma strtol_lone_prefix m a t errno : cstring m a (48 :: 120 :: t) →
  split_digits 16 t = ([], t) → strtol m a 16 errno = Some (0, Some a, errno).
Proof.
  intros Hs Ht. change (strtol m a 16 errno) with (strto_signed m a 16 errno).
  rewrite (strto_signed_ok m a _ 16 errno Hs) by (unfold valid_base; lia). f_equal.
  unfold signed_value, converted, scan, parse_with. cbn [drop_space].
  change (space 48) with false. cbv iota. change (split_sign (48 :: 120 :: t)) with (false, 48 :: 120 :: t).
  cbv beta iota zeta. change (scan_base 16 (48 :: 120 :: t)) with (16, drop 0 t). rewrite drop_0.
  cbv beta iota zeta. by rewrite Ht.
Qed.
