(* ===== verification/Mbyte.v ===== *)
(** * Multibyte characters

    Models newlib/libc/stdlib: mbtowc_r.c and wctomb_r.c for ASCII, UTF-8,
    Shift-JIS, EUC-JP and JIS, and mbctype.h. A decoder reads at most [n] bytes
    at [s] and yields its return value, the wide character it stores, the state
    it leaves and whether it sets [errno] to EILSEQ; an encoder yields the
    bytes it stores at [s] instead. The state between two calls is the struct
    [mbstate_t]. The size of [wchar_t] is an argument of the UTF-8 functions,
    which test it. *)
From S2P Require Import Prelude Memory.

(** ** The state, and the results *)

(** [_mbstate_t]: the count, and the bytes of the character so far. *)
Record mbstate := MB { __count : Z; wchb0 : Z; wchb1 : Z; wchb2 : Z; wchb3 : Z }.

Definition mb_initial : mbstate := MB 0 0 0 0 0.
Definition set_count (c : Z) (st : mbstate) : mbstate :=
  MB c (wchb0 st) (wchb1 st) (wchb2 st) (wchb3 st).
Definition set_wchb0 (b : Z) (st : mbstate) : mbstate :=
  MB (__count st) (u8 b) (wchb1 st) (wchb2 st) (wchb3 st).
Definition set_wchb1 (b : Z) (st : mbstate) : mbstate :=
  MB (__count st) (wchb0 st) (u8 b) (wchb2 st) (wchb3 st).
Definition set_wchb2 (b : Z) (st : mbstate) : mbstate :=
  MB (__count st) (wchb0 st) (wchb1 st) (u8 b) (wchb3 st).

Record mbres := MBR { mb_ret : Z; mb_wc : option Z; mb_state : mbstate; mb_ilseq : bool }.
Record wcres := WCR { wc_ret : Z; wc_bytes : list Z; wc_state : mbstate; wc_ilseq : bool }.

(** [return n] with [*pwc] set, [return -2], and
    [_REENT_ERRNO(r) = EILSEQ; return -1;]. *)
Definition decoded (n wc : Z) (st : mbstate) : option mbres := Some (MBR n (Some wc) st false).
Definition too_short (st : mbstate) : option mbres := Some (MBR (-2) None st false).
Definition invalid (st : mbstate) : option mbres := Some (MBR (-1) None st true).
Definition encoded (n : Z) (l : list Z) (st : mbstate) : wcres := WCR n (u8 <$> l) st false.
Definition unencodable (st : mbstate) : wcres := WCR (-1) [] st true.

Definition SIZE_MAX : Z := 2 ^ 64 - 1.

(** ** ASCII *)

Definition __ascii_mbtowc (m : mem) (s n : Z) (st : mbstate) : option mbres :=
  if s =? 0 then Some (MBR 0 None st false)
  else if n =? 0 then too_short st
  else
    t ← load8 m s;
    decoded (if t =? 0 then 0 else 1) t st.

Definition __ascii_wctomb (s _wchar : Z) (st : mbstate) : wcres :=
  let wchar := u32 _wchar in
  if s =? 0 then encoded 0 [] st
  else if 0x100 <=? wchar then unencodable st
  else encoded 1 [wchar] st.

(** ** UTF-8 *)

Definition continuation (ch : Z) : bool := negb ((ch <? 0x80) || (0xbf <? ch)).

(** [if (state->__count == k) state->__count = k + 1;
    else if (n < (size_t)-1) ++n;] *)
Definition advance (k n : Z) (st : mbstate) : mbstate * Z :=
  if __count st =? k then (set_count (k + 1) st, n)
  else (st, if n <? SIZE_MAX then n + 1 else n).

Definition utf8_two (m : mem) (s n : Z) (st : mbstate) (ch i : Z) : option mbres :=
  let st := set_wchb0 ch st in
  let '(st, n) := advance 0 n st in
  if n <? 2 then too_short st
  else
    ch ← load8 m (s + i);
    let i := i + 1 in
    if negb (continuation ch) then invalid st
    else if wchb0 st <? 0xc2 then invalid st
    else
      let st := set_count 0 st in
      decoded i (Z.lor (Z.shiftl (Z.land (wchb0 st) 0x1f) 6) (Z.land ch 0x3f)) st.

Definition utf8_three (m : mem) (s n : Z) (st : mbstate) (ch i : Z) : option mbres :=
  let st := set_wchb0 ch st in
  let '(st, n) := advance 0 n st in
  if n <? 2 then too_short st
  else
    '(ch, i) ← (if __count st =? 1 then c ← load8 m (s + i); Some (c, i + 1) else Some (wchb1 st, i));
    if (wchb0 st =? 0xe0) && (ch <? 0xa0) then invalid st
    else if negb (continuation ch) then invalid st
    else
      let st := set_wchb1 ch st in
      let '(st, n) := advance 1 n st in
      if n <? 3 then too_short st
      else
        ch ← load8 m (s + i);
        let i := i + 1 in
        if negb (continuation ch) then invalid st
        else
          let st := set_count 0 st in
          decoded i (Z.lor (Z.lor (Z.shiftl (Z.land (wchb0 st) 0x0f) 12)
            (Z.shiftl (Z.land (wchb1 st) 0x3f) 6)) (Z.land ch 0x3f)) st.

(** The three bytes of the state in a four-byte character. *)
Definition utf8_high (st : mbstate) : Z :=
  Z.lor (Z.lor (Z.shiftl (Z.land (wchb0 st) 0x07) 18) (Z.shiftl (Z.land (wchb1 st) 0x3f) 12))
    (Z.shiftl (Z.land (wchb2 st) 0x3f) 6).

Definition utf8_four (wsz : Z) (m : mem) (s n : Z) (st : mbstate) (ch i : Z) : option mbres :=
  let st := set_wchb0 ch st in
  let '(st, n) := advance 0 n st in
  if n <? 2 then too_short st
  else
    '(ch, i) ← (if __count st =? 1 then c ← load8 m (s + i); Some (c, i + 1) else Some (wchb1 st, i));
    if (wchb0 st =? 0xf0) && (ch <? 0x90) || (wchb0 st =? 0xf4) && (0x90 <=? ch) then invalid st
    else if negb (continuation ch) then invalid st
    else
      let st := set_wchb1 ch st in
      let '(st, n) := advance 1 n st in
      if n <? 3 then too_short st
      else
        '(ch, i) ← (if __count st =? 2 then c ← load8 m (s + i); Some (c, i + 1) else Some (wchb2 st, i));
        if negb (continuation ch) then invalid st
        else
          let st := set_wchb2 ch st in
          let '(st, n) := advance 2 n st in
          if (__count st =? 3) && (wsz =? 2) then
            let tmp := utf8_high st in
            decoded i (Z.lor 0xd800 (Z.shiftr (u32 (tmp - 0x10000)) 10)) (set_count 4 st)
          else if n <? 4 then too_short st
          else
            ch ← load8 m (s + i);
            let i := i + 1 in
            if negb (continuation ch) then invalid st
            else
              let tmp := Z.lor (utf8_high st) (Z.land ch 0x3f) in
              let wc := if (__count st =? 4) && (wsz =? 2) then Z.lor 0xdc00 (Z.land tmp 0x3ff) else tmp in
              decoded i wc (set_count 0 st).

Definition __utf8_mbtowc (wsz : Z) (m : mem) (s n : Z) (st : mbstate) : option mbres :=
  if s =? 0 then Some (MBR 0 None st false)
  else if n =? 0 then too_short st
  else
    '(ch, i) ← (if __count st =? 0 then c ← load8 m s; Some (c, 1) else Some (wchb0 st, 0));
    if ch =? 0 then decoded 0 0 (set_count 0 st)
    else if ch <=? 0x7f then decoded 1 ch (set_count 0 st)
    else if (0xc0 <=? ch) && (ch <=? 0xdf) then utf8_two m s n st ch i
    else if (0xe0 <=? ch) && (ch <=? 0xef) then utf8_three m s n st ch i
    else if (0xf0 <=? ch) && (ch <=? 0xf4) then utf8_four wsz m s n st ch i
    else invalid st.

Definition utf8_bytes3 (w : Z) : list Z :=
  [Z.lor 0xe0 (Z.shiftr (Z.land w 0xf000) 12); Z.lor 0x80 (Z.shiftr (Z.land w 0xfc0) 6);
   Z.lor 0x80 (Z.land w 0x3f)].

Definition utf8_bytes4 (w : Z) : list Z :=
  [Z.lor 0xf0 (Z.shiftr (Z.land w 0x1c0000) 18); Z.lor 0x80 (Z.shiftr (Z.land w 0x3f000) 12);
   Z.lor 0x80 (Z.shiftr (Z.land w 0xfc0) 6); Z.lor 0x80 (Z.land w 0x3f)].

(** The first and the second half of a surrogate pair. *)
Definition utf8_surrogate (wchar ret : Z) (pre : list Z) (st : mbstate) : option wcres :=
  if wchar <=? 0xdbff then
    let tmp := Z.shiftl (Z.land wchar 0x3ff) 10 + 0x10000 in
    let st := set_wchb0 (Z.land (Z.shiftr tmp 16) 0xff) st in
    let st := set_wchb1 (Z.land (Z.shiftr tmp 8) 0xff) st in
    let st := set_count (-4) st in
    Some (encoded ret (pre ++ [Z.lor 0xf0 (Z.shiftr (Z.land tmp 0x1c0000) 18)]) st)
  else if __count st =? -4 then
    let tmp := Z.lor (Z.lor (Z.shiftl (wchb0 st) 16) (Z.shiftl (wchb1 st) 8)) (Z.land wchar 0x3ff) in
    Some (encoded 4 (pre ++ utf8_bytes4 tmp) (set_count 0 st))
  else None.

Definition __utf8_wctomb (wsz s _wchar : Z) (st : mbstate) : wcres :=
  let wchar := u32 _wchar in
  if s =? 0 then encoded 0 [] st
  else
    let '(pre, st, ret) :=
      if (wsz =? 2) && (__count st =? -4) && ((wchar <? 0xdc00) || (0xdfff <? wchar)) then
        let tmp := Z.lor (Z.shiftr (Z.lor (Z.shiftl (wchb0 st) 16) (Z.shiftl (wchb1 st) 8) - 0x10000) 10)
          0xd800 in
        (utf8_bytes3 tmp, set_count 0 st, 3)
      else ([], st, 0) in
    if wchar <=? 0x7f then encoded (ret + 1) (pre ++ [wchar]) st
    else if (0x80 <=? wchar) && (wchar <=? 0x7ff) then
      encoded (ret + 2) (pre ++ [Z.lor 0xc0 (Z.shiftr (Z.land wchar 0x7c0) 6);
        Z.lor 0x80 (Z.land wchar 0x3f)]) st
    else if (0x800 <=? wchar) && (wchar <=? 0xffff) then
      match (if (wsz =? 2) && (0xd800 <=? wchar) && (wchar <=? 0xdfff)
             then utf8_surrogate wchar ret pre st else None) with
      | Some r => r
      | None => encoded (ret + 3) (pre ++ utf8_bytes3 wchar) st
      end
    else if (0x10000 <=? wchar) && (wchar <=? 0x10ffff) then encoded 4 (pre ++ utf8_bytes4 wchar) st
    else unencodable st.

(** ** Shift-JIS *)

Definition _issjis1 (c : Z) : bool :=
  (0x81 <=? c) && (c <=? 0x9f) || (0xe0 <=? c) && (c <=? 0xef).
Definition _issjis2 (c : Z) : bool :=
  (0x40 <=? c) && (c <=? 0x7e) || (0x80 <=? c) && (c <=? 0xfc).
Definition _iseucjp1 (c : Z) : bool := (c =? 0x8e) || (c =? 0x8f) || (0xa1 <=? c) && (c <=? 0xfe).
Definition _iseucjp2 (c : Z) : bool := (0xa1 <=? c) && (c <=? 0xfe).
Definition _isjis (c : Z) : bool := (0x21 <=? c) && (c <=? 0x7e).

(** A byte that stands for itself: [*pwc = (wchar_t)*t; return *t != 0]. *)
Definition single_byte (m : mem) (s : Z) (st : mbstate) : option mbres :=
  t ← load8 m s; decoded (if t =? 0 then 0 else 1) t st.

Definition sjis_second (m : mem) (s : Z) (st : mbstate) (ch i : Z) : option mbres :=
  if __count st =? 1 then
    if _issjis2 ch then decoded i (Z.shiftl (wchb0 st) 8 + ch) (set_count 0 st)
    else invalid st
  else single_byte m s st.

Definition __sjis_mbtowc (m : mem) (s n : Z) (st : mbstate) : option mbres :=
  if s =? 0 then Some (MBR 0 None st false)
  else if n =? 0 then too_short st
  else
    ch ← load8 m s;
    if (__count st =? 0) && _issjis1 ch then
      let st := set_count 1 (set_wchb0 ch st) in
      if n <=? 1 then too_short st
      else ch ← load8 m (s + 1); sjis_second m s st ch 2
    else sjis_second m s st ch 1.

Definition __sjis_wctomb (s _wchar : Z) (st : mbstate) : wcres :=
  let wchar := u32 _wchar in
  let char2 := u8 wchar in
  let char1 := u8 (Z.shiftr wchar 8) in
  if s =? 0 then encoded 0 [] st
  else if negb (char1 =? 0) then
    if _issjis1 char1 && _issjis2 char2 then encoded 2 [char1; char2] st else unencodable st
  else encoded 1 [wchar] st.

(** ** EUC-JP *)

Definition eucjp_third (m : mem) (s : Z) (st : mbstate) (ch i : Z) : option mbres :=
  if __count st =? 2 then
    if _iseucjp2 ch then decoded i (Z.shiftl (wchb1 st) 8 + Z.land ch 0x7f) (set_count 0 st)
    else invalid st
  else single_byte m s st.

Definition eucjp_second (m : mem) (s n : Z) (st : mbstate) (ch i : Z) : option mbres :=
  if __count st =? 1 then
    if _iseucjp2 ch then
      if wchb0 st =? 0x8f then
        let st := set_count 2 (set_wchb1 ch st) in
        if n <=? i then too_short st
        else ch ← load8 m (s + i); eucjp_third m s st ch (i + 1)
      else decoded i (Z.shiftl (wchb0 st) 8 + ch) (set_count 0 st)
    else invalid st
  else eucjp_third m s st ch i.

Definition __eucjp_mbtowc (m : mem) (s n : Z) (st : mbstate) : option mbres :=
  if s =? 0 then Some (MBR 0 None st false)
  else if n =? 0 then too_short st
  else
    ch ← load8 m s;
    if (__count st =? 0) && _iseucjp1 ch then
      let st := set_count 1 (set_wchb0 ch st) in
      if n <=? 1 then too_short st
      else ch ← load8 m (s + 1); eucjp_second m s n st ch 2
    else eucjp_second m s n st ch 1.

Definition __eucjp_wctomb (s _wchar : Z) (st : mbstate) : wcres :=
  let wchar := u32 _wchar in
  let char2 := u8 wchar in
  let char1 := u8 (Z.shiftr wchar 8) in
  if s =? 0 then encoded 0 [] st
  else if negb (char1 =? 0) then
    if _iseucjp1 char1 && _iseucjp2 char2 then encoded 2 [char1; char2] st
    else if _iseucjp2 char1 && _iseucjp2 (Z.lor char2 0x80)
    then encoded 3 [0x8f; char1; Z.lor char2 0x80] st
    else unencodable st
  else encoded 1 [wchar] st.

(** ** JIS, a state machine given by two tables *)

Inductive JIS_CHAR_TYPE := ESCAPE | DOLLAR | BRACKET | AT | B | J | NUL | JIS_CHAR | OTHER.
Inductive JIS_STATE := ASCII | JIS | A_ESC | A_ESC_DL | JIS_1 | J_ESC | J_ESC_BR | INV.
Inductive JIS_ACTION := COPY_A | COPY_J1 | COPY_J2 | MAKE_A | NOOP | EMPTY | ERROR.

(** The numbers of the enumerations. *)
Definition jis_states : list JIS_STATE := [ASCII; JIS; A_ESC; A_ESC_DL; JIS_1; J_ESC; J_ESC_BR; INV].
Definition state_num (q : JIS_STATE) : Z :=
  match q with
  | ASCII => 0 | JIS => 1 | A_ESC => 2 | A_ESC_DL => 3 | JIS_1 => 4 | J_ESC => 5 | J_ESC_BR => 6
  | INV => 7
  end.
Definition char_num (c : JIS_CHAR_TYPE) : nat :=
  match c with
  | ESCAPE => 0 | DOLLAR => 1 | BRACKET => 2 | AT => 3 | B => 4 | J => 5 | NUL => 6 | JIS_CHAR => 7
  | OTHER => 8
  end.

Definition JIS_state_table : list (list JIS_STATE) :=
  [[A_ESC; ASCII; ASCII; ASCII; ASCII; ASCII; ASCII; ASCII; ASCII];
   [J_ESC; JIS_1; JIS_1; JIS_1; JIS_1; JIS_1; INV; JIS_1; INV];
   [ASCII; A_ESC_DL; ASCII; ASCII; ASCII; ASCII; ASCII; ASCII; ASCII];
   [ASCII; ASCII; ASCII; JIS; JIS; ASCII; ASCII; ASCII; ASCII];
   [INV; JIS; JIS; JIS; JIS; JIS; INV; JIS; INV];
   [INV; INV; J_ESC_BR; INV; INV; INV; INV; INV; INV];
   [INV; INV; INV; INV; ASCII; ASCII; INV; INV; INV]].

Definition JIS_action_table : list (list JIS_ACTION) :=
  [[NOOP; COPY_A; COPY_A; COPY_A; COPY_A; COPY_A; EMPTY; COPY_A; COPY_A];
   [NOOP; COPY_J1; COPY_J1; COPY_J1; COPY_J1; COPY_J1; ERROR; COPY_J1; ERROR];
   [COPY_A; NOOP; COPY_A; COPY_A; COPY_A; COPY_A; COPY_A; COPY_A; COPY_A];
   [COPY_A; COPY_A; COPY_A; NOOP; NOOP; COPY_A; COPY_A; COPY_A; COPY_A];
   [ERROR; COPY_J2; COPY_J2; COPY_J2; COPY_J2; COPY_J2; ERROR; COPY_J2; ERROR];
   [ERROR; ERROR; NOOP; ERROR; ERROR; ERROR; ERROR; ERROR; ERROR];
   [ERROR; ERROR; ERROR; ERROR; MAKE_A; MAKE_A; ERROR; ERROR; ERROR]].

Definition jis_class (ch : Z) : JIS_CHAR_TYPE :=
  if ch =? 0x1b then ESCAPE
  else if ch =? 0x24 then DOLLAR
  else if ch =? 0x40 then AT
  else if ch =? 0x28 then BRACKET
  else if ch =? 0x42 then B
  else if ch =? 0x4a then J
  else if ch =? 0 then NUL
  else if _isjis ch then JIS_CHAR
  else OTHER.

(** One byte, in the state with number [q]. The table has no row past the seventh. *)
Definition jis_lookup {A} (table : list (list A)) (q : Z) (c : JIS_CHAR_TYPE) : option A :=
  if 0 <=? q then row ← table !! Z.to_nat q; row !! char_num c else None.

Definition jis_round (m : mem) (t n : Z) (x : Z * Z * Z * mbstate) :
    option (Z * Z * Z * mbstate + mbres) :=
  let '(i, q, ptr, st) := x in
  if i <? n then
    ch ← load8 m (t + i);
    action ← jis_lookup JIS_action_table q (jis_class ch);
    q ← jis_lookup JIS_state_table q (jis_class ch);
    let q := state_num q in
    match action with
    | NOOP => continue (i + 1, q, ptr, st)
    | EMPTY => r ← decoded 0 0 (set_count (state_num ASCII) st); leave r
    | COPY_A => c ← load8 m ptr; r ← decoded (i + 1) c (set_count (state_num ASCII) st); leave r
    | COPY_J1 => continue (i + 1, q, ptr, set_wchb0 ch st)
    | COPY_J2 =>
        r ← decoded (i + 1) (Z.shiftl (wchb0 st) 8 + ch) (set_count (state_num JIS) st); leave r
    | MAKE_A => continue (i + 1, q, t + i + 1, st)
    | ERROR => r ← invalid st; leave r
    end
  else r ← too_short (set_count q st); leave r.

(** A decoder never runs through more bytes than are mapped. *)
Definition __jis_mbtowc (m : mem) (s n : Z) (st : mbstate) : option mbres :=
  if s =? 0 then Some (MBR 1 None (set_count (state_num ASCII) st) false)
  else if n =? 0 then too_short st
  else loop (fuel m) (jis_round m s n) (0, __count st, s, st).

Definition ESC_CHAR : Z := 0x1b.

Definition __jis_wctomb (s _wchar : Z) (st : mbstate) : wcres :=
  let wchar := u32 _wchar in
  let char2 := u8 wchar in
  let char1 := u8 (Z.shiftr wchar 8) in
  if s =? 0 then encoded 1 [] st
  else if negb (char1 =? 0) then
    if _isjis char1 && _isjis char2 then
      let '(st, pre, cnt) :=
        if __count st =? 0 then (set_count 1 st, [ESC_CHAR; 0x24; 0x42], 3) else (st, [], 0) in
      encoded (cnt + 2) (pre ++ [char1; char2]) st
    else unencodable st
  else
    let '(st, pre, cnt) :=
      if negb (__count st =? 0) then (set_count 0 st, [ESC_CHAR; 0x28; 0x42], 3) else (st, [], 0) in
    encoded (cnt + 1) (pre ++ [char2]) st.

(** ** The encoding form UTF-8 *)

(** The Unicode code points, and their bytes. *)
Definition code_point (c : Z) : Prop := 0 ≤ c ≤ 0x10ffff.

(** Those that are characters: the surrogates are not. *)
Definition scalar (c : Z) : Prop := code_point c ∧ ¬ 0xd800 ≤ c ≤ 0xdfff.

Definition utf8 (c : Z) : list Z :=
  if c <? 0x80 then [c]
  else if c <? 0x800 then [0xc0 + c / 64; 0x80 + c mod 64]
  else if c <? 0x10000 then [0xe0 + c / 4096; 0x80 + (c / 64) mod 64; 0x80 + c mod 64]
  else [0xf0 + c / 262144; 0x80 + (c / 4096) mod 64; 0x80 + (c / 64) mod 64; 0x80 + c mod 64].

(** What bytes begin with: a character of [k] bytes, a part of one, or neither. *)
Inductive verdict := Char (c : Z) (k : nat) | More | Bad.

Definition cont (b : Z) : bool := (0x80 <=? b) && (b <? 0xc0).

Definition scan2 (v : Z) (l : list Z) : verdict :=
  match l with [] => More | b :: _ => if cont b then Char (v * 64 + (b - 0x80)) 2 else Bad end.
Definition scan3 (v lo hi : Z) (k : nat) (l : list Z) : verdict :=
  match l with
  | [] => More
  | b :: t =>
      if (lo <=? b) && (b <? hi) then
        match t with
        | [] => More
        | b' :: _ => if cont b' then Char ((v * 64 + (b - 0x80)) * 64 + (b' - 0x80)) k else Bad
        end
      else Bad
  end.
Definition scan4 (v lo hi : Z) (l : list Z) : verdict :=
  match l with
  | [] => More
  | b :: t => if (lo <=? b) && (b <? hi) then scan3 (v * 64 + (b - 0x80)) 0x80 0xc0 4 t else Bad
  end.

Definition utf8_scan (l : list Z) : verdict :=
  match l with
  | [] => More
  | b :: t =>
      if b <? 0x80 then Char b 1
      else if b <? 0xc0 then Bad
      else if b <? 0xe0 then
        match t with [] => More | _ => if b <? 0xc2 then Bad else scan2 (b - 0xc0) t end
      else if b <? 0xf0 then scan3 (b - 0xe0) (if b =? 0xe0 then 0xa0 else 0x80) 0xc0 3 t
      else if b <? 0xf5 then
        scan4 (b - 0xf0) (if b =? 0xf0 then 0x90 else 0x80) (if b =? 0xf4 then 0x90 else 0xc0) t
      else Bad
  end.

(** ** The scan tells the encodings *)

Ltac byte_cases :=
  repeat match goal with
  | |- context [Z.eqb ?a ?b] => destruct (Z.eqb_spec a b); try lia; cbv iota
  | |- context [Z.ltb ?a ?b] => destruct (Z.ltb_spec a b); try lia; cbv iota
  | |- context [Z.leb ?a ?b] => destruct (Z.leb_spec a b); try lia; cbv iota
  end; cbn [andb orb negb].

(** The encodings by the fields of the code point. *)
Inductive form : Z → list Z → Prop :=
| form1 c : 0 ≤ c < 0x80 → form c [c]
| form2 a x : 2 ≤ a < 32 → 0 ≤ x < 64 → form (a * 64 + x) [0xc0 + a; 0x80 + x]
| form3 a x y : 0 ≤ a < 16 → 0 ≤ x < 64 → 0 ≤ y < 64 → (a = 0 → 32 ≤ x) →
    form ((a * 64 + x) * 64 + y) [0xe0 + a; 0x80 + x; 0x80 + y]
| form4 a x y z : 0 ≤ a < 5 → 0 ≤ x < 64 → 0 ≤ y < 64 → 0 ≤ z < 64 →
    (a = 0 → 16 ≤ x) → (a = 4 → x < 16) →
    form (((a * 64 + x) * 64 + y) * 64 + z) [0xf0 + a; 0x80 + x; 0x80 + y; 0x80 + z].

Lemma form_eq c c' l l' : form c l → c = c' → l = l' → form c' l'.
Proof. by intros H <- <-. Qed.

Lemma utf8_form c : code_point c → form c (utf8 c).
Proof.
  unfold code_point, utf8. intros Hc.
  destruct (Z.ltb_spec c 0x80); [apply form1; lia|].
  destruct (Z.ltb_spec c 0x800).
  { eapply form_eq; [apply (form2 (c / 64) (c mod 64))|..]; try done; Z.to_euclidean_division_equations; lia. }
  pose proof (Z.div_mod c 64) as E1. pose proof (Z.mod_pos_bound c 64) as B1.
  pose proof (Z.div_mod (c / 64) 64) as E2. pose proof (Z.mod_pos_bound (c / 64) 64) as B2.
  assert (c / 64 / 64 = c / 4096) as D2 by (by rewrite Z.div_div).
  destruct (Z.ltb_spec c 0x10000).
  { eapply form_eq; [apply (form3 (c / 4096) ((c / 64) mod 64) (c mod 64))|..]; try done; lia. }
  pose proof (Z.div_mod (c / 4096) 64) as E3. pose proof (Z.mod_pos_bound (c / 4096) 64) as B3.
  assert (c / 4096 / 64 = c / 262144) as D3 by (by rewrite Z.div_div).
  eapply form_eq; [apply (form4 (c / 262144) ((c / 4096) mod 64) ((c / 64) mod 64) (c mod 64))|..]; try done; lia.
Qed.

Lemma form_utf8 c l : form c l → code_point c ∧ utf8 c = l.
Proof.
  assert (∀ v x, 0 ≤ x < 64 → (v * 64 + x) / 64 = v ∧ (v * 64 + x) mod 64 = x) as E.
  { intros v x Hx. split; [rewrite Z.div_add_l, Z.div_small; lia|].
    rewrite Z.add_comm, Z.mod_add, Z.mod_small; lia. }
  unfold code_point, utf8. intros []; (split; [lia|]);
    repeat (case Z.ltb_spec; [intros; exfalso; lia|intros _]);
    try (case Z.ltb_spec; [intros _|intros; exfalso; lia]); [done|..].
  - destruct (E a x) as [-> ->]; [done|]. done.
  - rewrite <- (Z.div_div _ 64 64) by lia. destruct (E (a * 64 + x) y) as [-> ->]; [done|].
    by destruct (E a x) as [-> ->].
  - rewrite <- (Z.div_div _ 64 4096), <- !(Z.div_div _ 64 64) by lia.
    destruct (E ((a * 64 + x) * 64 + y) z) as [-> ->]; [done|].
    destruct (E (a * 64 + x) y) as [-> ->]; [done|]. by destruct (E a x) as [-> ->].
Qed.

Lemma scan_whole c l rest : form c l → utf8_scan (l ++ rest) = Char c (length l).
Proof.
  intros []; cbn [app length]; unfold utf8_scan, scan4, scan3, scan2, cont; byte_cases; f_equal; lia.
Qed.

Lemma scan_part c l tail : form c (l ++ tail) → tail ≠ [] → utf8_scan l = More.
Proof.
  intros Hf Ht. remember (l ++ tail) as w eqn:E.
  destruct Hf, l as [|? [|? [|? [|? l]]]]; try done; cbn [app] in E; simplify_eq/=; try done;
    try (match goal with H : [] = _ ++ _ |- _ => symmetry in H; by apply app_eq_nil in H as [_ ->] end);
    unfold scan4, scan3, scan2, cont; by byte_cases.
Qed.

Ltac solve_form :=
  lazymatch goal with
  | |- form _ [_] => apply form1; lia
  | |- form _ [?a; ?x] => apply (form_eq _ _ _ _ (form2 (a - 0xc0) (x - 0x80) ltac:(lia) ltac:(lia)))
  | |- form _ [?a; ?x; ?y] =>
      apply (form_eq _ _ _ _ (form3 (a - 0xe0) (x - 0x80) (y - 0x80)
        ltac:(lia) ltac:(lia) ltac:(lia) ltac:(lia)))
  | |- form _ [?a; ?x; ?y; ?z] =>
      apply (form_eq _ _ _ _ (form4 (a - 0xf0) (x - 0x80) (y - 0x80) (z - 0x80)
        ltac:(lia) ltac:(lia) ltac:(lia) ltac:(lia) ltac:(lia) ltac:(lia)))
  end; try reflexivity; try lia; repeat f_equal; lia.

Lemma scan_Char l c k : Forall is_byte l → utf8_scan l = Char c k →
  form c (take k l) ∧ (k ≤ length l)%nat.
Proof.
  unfold utf8_scan, is_byte. rewrite Forall_forall. intros Hl.
  destruct l as [|b0 [|b1 [|b2 [|b3 l]]]]; [done|..];
    pose proof (Hl b0 ltac:(set_solver)) as H0;
    unfold scan4, scan3, scan2, cont; byte_cases; try done; intros [= <- <-]; cbn [take length];
    rewrite ?take_0; (split; [solve_form|lia]).
Qed.

Ltac complete_with t := right; right; eexists _, t; split; [done|cbn [app]; by solve_form].

Lemma scan_More l : Forall is_byte l → utf8_scan l = More →
  l = [0xc0] ∨ l = [0xc1] ∨ ∃ c tail, tail ≠ [] ∧ form c (l ++ tail).
Proof.
  unfold utf8_scan. intros _.
  destruct l as [|b0 [|b1 [|b2 [|b3 l]]]].
  { intros _. right. right. exists 0, [0]. split; [done|]. by apply form1. }
  - destruct (Z.eq_dec b0 0xc0) as [->|]; [by left|]. destruct (Z.eq_dec b0 0xc1) as [->|]; [by right; left|].
    unfold scan4, scan3, scan2. byte_cases; try done; intros _; destruct (Z.eq_dec b0 0xf0);
      first [complete_with [0x80]|complete_with [0xa0; 0x80]|complete_with [0x80; 0x80; 0x80]
        |complete_with [0x90; 0x80; 0x80]].
  - unfold scan4, scan3, scan2, cont. byte_cases; try done; intros _;
      first [complete_with [0x80]|complete_with [0x80; 0x80]].
  - unfold scan4, scan3, scan2, cont. byte_cases; try done; intros _; complete_with [0x80].
  - unfold scan4, scan3, scan2, cont. byte_cases; done.
Qed.

(** ** The decoder follows the scan *)

Lemma field k base b : 0 ≤ k → base mod 2 ^ k = 0 → base ≤ b < base + 2 ^ k →
  Z.land b (2 ^ k - 1) = b - base.
Proof.
  intros Hk Hb Hr. rewrite land_low_mask by done.
  rewrite <- (Z.mod_small (b - base) (2 ^ k)) by lia. rewrite Zminus_mod, Hb, Z.sub_0_r.
  by rewrite Z.mod_mod by lia.
Qed.

Lemma join6 hi lo : 0 ≤ lo < 64 → Z.lor (Z.shiftl hi 6) lo = hi * 64 + lo.
Proof. intros. rewrite lor_disjoint; [lia|lia|done]. Qed.

Lemma dec2 b0 b1 : 0xc0 ≤ b0 < 0xe0 → 0x80 ≤ b1 < 0xc0 →
  Z.lor (Z.shiftl (Z.land b0 0x1f) 6) (Z.land b1 0x3f) = (b0 - 0xc0) * 64 + (b1 - 0x80).
Proof.
  intros H0 H1. change 0x1f with (2 ^ 5 - 1). change 0x3f with (2 ^ 6 - 1).
  rewrite (field 5 0xc0), (field 6 0x80), join6; first [done|lia].
Qed.

Lemma dec3 b0 b1 b2 : 0xe0 ≤ b0 < 0xf0 → 0x80 ≤ b1 < 0xc0 → 0x80 ≤ b2 < 0xc0 →
  Z.lor (Z.lor (Z.shiftl (Z.land b0 0x0f) 12) (Z.shiftl (Z.land b1 0x3f) 6)) (Z.land b2 0x3f) =
    ((b0 - 0xe0) * 64 + (b1 - 0x80)) * 64 + (b2 - 0x80).
Proof.
  intros H0 H1 H2. change 0x0f with (2 ^ 4 - 1). change 0x3f with (2 ^ 6 - 1).
  rewrite (field 4 0xe0), !(field 6 0x80) by first [done|lia].
  change 12 with (6 + 6). rewrite <- (Z.shiftl_shiftl _ 6 6), <- Z.shiftl_lor by lia.
  rewrite !join6; lia.
Qed.

Lemma dec4 b0 b1 b2 b3 :
  0xf0 ≤ b0 < 0xf8 → 0x80 ≤ b1 < 0xc0 → 0x80 ≤ b2 < 0xc0 → 0x80 ≤ b3 < 0xc0 →
  Z.lor (Z.lor (Z.lor (Z.shiftl (Z.land b0 0x07) 18) (Z.shiftl (Z.land b1 0x3f) 12))
    (Z.shiftl (Z.land b2 0x3f) 6)) (Z.land b3 0x3f) =
    (((b0 - 0xf0) * 64 + (b1 - 0x80)) * 64 + (b2 - 0x80)) * 64 + (b3 - 0x80).
Proof.
  intros H0 H1 H2 H3. change 0x07 with (2 ^ 3 - 1). change 0x3f with (2 ^ 6 - 1).
  rewrite (field 3 0xf0), !(field 6 0x80) by first [done|lia].
  change 18 with (6 + 6 + 6). change 12 with (6 + 6).
  rewrite <- (Z.shiftl_shiftl _ (6 + 6) 6), <- !(Z.shiftl_shiftl _ 6 6), <- !Z.shiftl_lor by lia.
  rewrite !join6; lia.
Qed.

(** The state remembers the bytes [p]. *)
Definition wchb (st : mbstate) : list Z := [wchb0 st; wchb1 st; wchb2 st; wchb3 st].

Definition holds (st : mbstate) (p : list Z) : Prop :=
  __count st = Z.of_nat (length p) ∧ ∀ j b, p !! j = Some b → wchb st !! j = Some b.

(** The result of a call with the bytes [p] in the state, [l] in all. *)
Definition answers (p l : list Z) (v : verdict) (r : option mbres) : Prop :=
  match v with
  | Char c k => ∃ st', holds st' [] ∧
      r = Some (MBR (if c =? 0 then 0 else Z.of_nat k - Z.of_nat (length p)) (Some c) st' false)
  | More => ∃ st', holds st' l ∧ r = Some (MBR (-2) None st' false)
  | Bad => ∃ st', r = Some (MBR (-1) None st' true)
  end.

Section Decode.
Context (m : mem) (s n : Z) (st : mbstate) (p l : list Z).
Hypothesis Hs : s ≠ 0.
Hypothesis Hl : bytes_at m s l.
Hypothesis Hne : l ≠ [].
Hypothesis Hn : Z.of_nat (length l) ≤ n < 2 ^ 63.
Hypothesis Hst : holds st p.
Hypothesis Hp : utf8_scan p = More.
Hypothesis Hpb : Forall is_byte p.
Hypothesis Hmore : utf8_scan (p ++ l) = More → n = Z.of_nat (length l).

(** The [k]th byte of [p ++ l] is the next: the state holds the bytes before it,
    and those of [p]; [i] bytes of [l] are behind; [n'] counts with those of
    [p] behind. *)
Record stage (k : nat) (st' : mbstate) (n' i : Z) : Prop := {
  st_count : __count st' = Z.of_nat (Nat.max k (length p));
  st_wchb j b : (j < Nat.max k (length p))%nat → (p ++ l) !! j = Some b → wchb st' !! j = Some b;
  st_n : n' = n + Z.of_nat (Nat.min k (length p));
  st_i : i = Z.of_nat (k - length p) }.

Lemma byte_range k b : (p ++ l) !! k = Some b → 0 ≤ b < 256.
Proof using Hl Hpb.
  assert (Forall is_byte (p ++ l)) as H by (apply Forall_app; split; [done|by apply (bytes_at_bytes m s)]).
  rewrite Forall_lookup in H. apply H.
Qed.

Lemma stage_load k st' n' i b : stage k st' n' i → (p ++ l) !! k = Some b → (length p ≤ k)%nat →
  load8 m (s + i) = Some b.
Proof using Hl.
  intros [_ _ _ ->] Hk Hle. rewrite lookup_app_r in Hk by done. by apply (bytes_at_lookup m s l).
Qed.

Lemma stage_start : stage 0 st n 0.
Proof using Hst.
  destruct Hst as [Hc Hw]. split; [by rewrite Nat.max_0_l| |cbn; lia|done].
  rewrite Nat.max_0_l. intros j b Hj Hb. rewrite lookup_app_l in Hb by done. by apply Hw.
Qed.

(** The [k]th byte, read or remembered. *)
Lemma stage_byte k st' n' i b : stage k st' n' i → (p ++ l) !! k = Some b → (k < 4)%nat →
  (if __count st' =? Z.of_nat k then c ← load8 m (s + i); Some (c, i + 1)
   else Some (nth k (wchb st') 0, i)) = Some (b, Z.of_nat (S k - length p)).
Proof using Hl.
  intros Hk Hb H4. pose proof (stage_load _ _ _ _ _ Hk Hb) as Hload. destruct Hk as [Hc Hw _ ->].
  destruct (Z.eqb_spec (__count st') (Z.of_nat k)).
  - rewrite Hload by lia. cbn [mbind option_bind]. do 2 f_equal. lia.
  - rewrite (nth_lookup_Some _ _ _ b); [do 2 f_equal; lia|]. apply Hw; [lia|done].
Qed.

(** Whether there is a [k]th byte. *)
Lemma stage_enough k st' n' i : stage k st' n' i → (k ≤ length (p ++ l))%nat →
  match (p ++ l) !! k with
  | Some _ => Z.of_nat k < n'
  | None => utf8_scan (p ++ l) = More → n' = Z.of_nat k
  end.
Proof using Hl Hne Hn Hmore.
  intros [_ _ -> _] Hk. destruct l as [|x t]; [done|].
  destruct ((p ++ x :: t) !! k) eqn:E.
  - apply lookup_lt_Some in E. rewrite length_app in E. cbn [length] in *. lia.
  - apply lookup_ge_None in E. intros H%Hmore. rewrite length_app in *. cbn [length] in *. lia.
Qed.

Definition set_wchb (k : nat) : Z → mbstate → mbstate :=
  match k with O => set_wchb0 | 1%nat => set_wchb1 | _ => set_wchb2 end.

Lemma wchb_set k b st' j : (k < 3)%nat → 0 ≤ b < 256 →
  wchb (set_wchb k b st') !! j = if decide (j = k) then Some b else wchb st' !! j.
Proof.
  intros Hk Hb. destruct k as [|[|[|k]]]; [..|lia]; cbn [set_wchb];
    unfold set_wchb0, set_wchb1, set_wchb2, wchb; cbn [wchb0 wchb1 wchb2 wchb3 __count];
    rewrite u8_small by done; by destruct j as [|[|[|[|j]]]].
Qed.

(** [state->__value.__wchb[k] = ch], and the update of the count. *)
Lemma stage_next k st' n' i b : stage k st' n' i → (p ++ l) !! k = Some b → (k < 3)%nat →
  ∃ st'' n'', advance (Z.of_nat k) n' (set_wchb k b st') = (st'', n'') ∧
    stage (S k) st'' n'' (Z.of_nat (S k - length p)).
Proof using Hn Hl Hpb.
  intros [Hc Hw -> ->] Hb Hk. pose proof (wchb_set k b st' ) as Hset.
  pose proof (byte_range _ _ Hb) as Hr.
  assert (__count (set_wchb k b st') = __count st') as Hcs by (by destruct k as [|[|k]]).
  assert (∀ j c, (j < Nat.max (S k) (length p))%nat → (p ++ l) !! j = Some c →
    wchb (set_wchb k b st') !! j = Some c) as Hw'.
  { intros j c Hj Hcj. rewrite Hset by done. case_decide as Ej; [by subst; congruence|]. apply Hw; [lia|done]. }
  unfold advance, SIZE_MAX. rewrite Hcs.
  destruct (Z.eqb_spec (__count st') (Z.of_nat k)).
  - eexists _, _. split; [done|]. split; [cbn [set_count __count]; lia|exact Hw'|lia|done].
  - destruct (Z.ltb_spec (n + Z.of_nat (k `min` length p)) (2 ^ 64 - 1)); [|lia].
    eexists _, _. split; [done|]. split; [lia|exact Hw'|lia|done].
Qed.

(** A part of a character is shorter than the character. *)
Lemma part_length b : (p ++ l) !! 0%nat = Some b → 0x80 ≤ b →
  (b < 0xe0 → (length p ≤ 1)%nat) ∧ (b < 0xf0 → (length p ≤ 2)%nat) ∧ (length p ≤ 3)%nat.
Proof using Hmore Hp Hpb Hst.
  intros Hb H80. destruct p as [|a [|a1 [|a2 t]]]; [cbn; lia|cbn; lia|..]; cbn in Hb; injection Hb as <-;
    revert Hp; unfold utf8_scan, scan4, scan3, scan2, cont; byte_cases; try done; try (cbn; lia).
  all: destruct t; [cbn; lia|byte_cases; done].
Qed.

Lemma stage_wchb0 k st' n' i b : stage k st' n' i → (p ++ l) !! 0%nat = Some b → (0 < k)%nat → wchb0 st' = b.
Proof. intros H Hb Hk. pose proof (st_wchb _ _ _ _ H 0%nat b ltac:(lia) Hb) as E. by injection E. Qed.

Lemma stage_wchb1 k st' n' i b : stage k st' n' i → (p ++ l) !! 1%nat = Some b → (1 < k)%nat → wchb1 st' = b.
Proof. intros H Hb Hk. pose proof (st_wchb _ _ _ _ H 1%nat b ltac:(lia) Hb) as E. by injection E. Qed.

Lemma stage_wchb2 k st' n' i b : stage k st' n' i → (p ++ l) !! 2%nat = Some b → (2 < k)%nat → wchb2 st' = b.
Proof. intros H Hb Hk. pose proof (st_wchb _ _ _ _ H 2%nat b ltac:(lia) Hb) as E. by injection E. Qed.

(** The end of the bytes, before the [k]th. *)
Lemma stage_end k st' n' i : stage k st' n' i → length (p ++ l) = k → holds st' (p ++ l).
Proof.
  intros [Hc Hw _ _] Hk. rewrite length_app in Hk. split; [rewrite length_app; lia|].
  intros j b Hb. apply Hw; [|done]. apply lookup_lt_Some in Hb. rewrite length_app in Hb. lia.
Qed.

Lemma answers_Char w c k i c' st' : __count st' = 0 → c' = c → 0 < c → i = Z.of_nat (k - length p) →
  (length p ≤ k)%nat → answers p w (Char c k) (decoded i c' st').
Proof.
  intros Hc -> Hpos -> Hk. exists st'. split; [by split|]. unfold decoded.
  destruct (Z.eqb_spec c 0); [lia|]. do 2 f_equal. lia.
Qed.

Ltac finish := first
  [ apply answers_Char; [reflexivity|lia|lia|lia|lia]
  | eexists; split; [|unfold too_short; reflexivity]; auto
  | eexists; unfold invalid; reflexivity ].

Lemma two_ok b : (p ++ l) !! 0%nat = Some b → 0xc0 ≤ b < 0xe0 →
  answers p (p ++ l) (utf8_scan (p ++ l)) (utf8_two m s n st b (Z.of_nat (1 - length p))).
Proof using All.
  intros H0 Hb. destruct (part_length b H0 ltac:(lia)) as (Hlen & _ & _). specialize (Hlen ltac:(lia)).
  destruct (stage_next 0 _ _ _ b stage_start H0 ltac:(lia)) as (st1 & n1 & E1 & S1).
  unfold utf8_two. change (advance 0 n (set_wchb0 b st)) with (advance (Z.of_nat 0) n (set_wchb 0 b st)).
  rewrite E1. cbv beta iota zeta. pose proof (stage_enough 1 _ _ _ S1) as He. pose proof (stage_end 1 _ _ _ S1) as Hend.
  pose proof (λ c, stage_load 1 _ _ _ c S1) as Hload. cbn [set_count wchb0].
  rewrite (stage_wchb0 1 _ _ _ b S1 H0) by lia.
  destruct (p ++ l) as [|b0 [|b1 t]]; [done|..]; cbn in H0; injection H0 as ->; cbn -[utf8_scan] in He, Hend, Hload.
  - assert (utf8_scan [b] = More) as E by (unfold utf8_scan; byte_cases; done). rewrite E in *.
    specialize (He ltac:(lia) eq_refl). destruct (Z.ltb_spec n1 2); [finish|lia].
  - specialize (He ltac:(lia)). destruct (Z.ltb_spec n1 2); [lia|]. rewrite (Hload b1 eq_refl Hlen). cbn [mbind option_bind].
    unfold utf8_scan, scan2, continuation, cont. byte_cases; try finish.
    rewrite dec2 by lia. finish.
Qed.

Lemma stage_byte1 st' n' i b : stage 1 st' n' i → (p ++ l) !! 1%nat = Some b →
  (if __count st' =? 1 then c ← load8 m (s + i); Some (c, i + 1) else Some (wchb1 st', i)) =
    Some (b, Z.of_nat (2 - length p)).
Proof using Hl. intros H Hb. apply (stage_byte 1 _ _ _ _ H Hb). lia. Qed.

Lemma stage_byte2 st' n' i b : stage 2 st' n' i → (p ++ l) !! 2%nat = Some b →
  (if __count st' =? 2 then c ← load8 m (s + i); Some (c, i + 1) else Some (wchb2 st', i)) =
    Some (b, Z.of_nat (3 - length p)).
Proof using Hl. intros H Hb. apply (stage_byte 2 _ _ _ _ H Hb). lia. Qed.

(** No byte left: a part of a character. *)
Lemma stage_more k st' n' i b x : stage (S k) st' n' i →
  (p ++ l) !! k = Some b → (p ++ l) !! S k = None → utf8_scan (p ++ l) = More →
  answers p (p ++ l) (utf8_scan (p ++ l)) (if n' <? Z.of_nat (S (S k)) then too_short st' else x).
Proof using Hl Hne Hn Hmore.
  intros Hk Hb H0 Hsc. assert (length (p ++ l) = S k) as Hlen
    by (apply lookup_lt_Some in Hb; apply lookup_ge_None in H0; lia).
  pose proof (stage_enough (S k) _ _ _ Hk ltac:(lia)) as He.
  rewrite H0, Hsc in *. specialize (He eq_refl).
  destruct (Z.ltb_spec n' (Z.of_nat (S (S k)))); [|lia]. exists st'. split; [|done]. by apply (stage_end (S k) _ _ _ Hk).
Qed.

Lemma stage_some k st' n' i b (x y : option mbres) : stage k st' n' i → (p ++ l) !! k = Some b →
  (if n' <? Z.of_nat (S k) then x else y) = y.
Proof using Hl Hne Hn Hmore.
  intros Hk Hb. assert (k < length (p ++ l))%nat as Hlt by (by apply lookup_lt_Some in Hb).
  pose proof (stage_enough k _ _ _ Hk ltac:(lia)) as He. rewrite Hb in He.
  destruct (Z.ltb_spec n' (Z.of_nat (S k))); [lia|done].
Qed.

Lemma three_ok b : (p ++ l) !! 0%nat = Some b → 0xe0 ≤ b < 0xf0 →
  answers p (p ++ l) (utf8_scan (p ++ l)) (utf8_three m s n st b (Z.of_nat (1 - length p))).
Proof using All.
  intros H0 Hb. destruct (part_length b H0 ltac:(lia)) as (_ & Hlen & _). specialize (Hlen ltac:(lia)).
  destruct (stage_next 0 _ _ _ b stage_start H0 ltac:(lia)) as (st1 & n1 & E1 & S1).
  unfold utf8_three. change (advance 0 n (set_wchb0 b st)) with (advance (Z.of_nat 0) n (set_wchb 0 b st)).
  rewrite E1. cbv beta iota zeta.
  destruct ((p ++ l) !! 1%nat) as [b1|] eqn:H1.
  2:{ apply (stage_more 0 _ _ _ b _ S1 H0 H1). destruct (p ++ l) as [|? [|? t]]; [done| |done].
      cbn in H0. simplify_eq. unfold utf8_scan, scan3. by byte_cases. }
  rewrite (stage_some 1 _ _ _ b1 _ _ S1 H1), (stage_byte1 _ _ _ b1 S1 H1). cbn [mbind option_bind].
  destruct (stage_next 1 _ _ _ b1 S1 H1 ltac:(lia)) as (st2 & n2 & E2 & S2).
  change (advance 1 n1 (set_wchb1 b1 st1)) with (advance (Z.of_nat 1) n1 (set_wchb 1 b1 st1)).
  rewrite E2, (stage_wchb0 1 _ _ _ b S1 H0) by lia. cbv beta iota zeta.
  destruct ((p ++ l) !! 2%nat) as [b2|] eqn:H2.
  - rewrite (stage_some 2 _ _ _ b2 _ _ S2 H2), (stage_load 2 _ _ _ _ S2 H2 Hlen). cbn [mbind option_bind].
    cbn [set_count wchb0 wchb1].
    rewrite (stage_wchb0 2 _ _ _ b S2 H0), (stage_wchb1 2 _ _ _ b1 S2 H1) by lia.
    destruct (p ++ l) as [|? [|? [|? t]]]; [done..|]. cbn in H0, H1, H2. simplify_eq.
    unfold utf8_scan, scan3, continuation, cont. byte_cases; try finish.
    all: rewrite dec3 by lia; finish.
  - assert (utf8_scan (p ++ l) =
      if (b =? 0xe0) && (b1 <? 0xa0) then Bad else if negb (continuation b1) then Bad else More) as Hsc.
    { destruct (p ++ l) as [|? [|? [|? t]]]; [done..| |done]. cbn in H0, H1. simplify_eq.
      unfold utf8_scan, scan3, continuation. byte_cases; done. }
    pose proof (λ x, stage_more 1 _ _ _ b1 x S2 H1 H2) as Hmore'. rewrite Hsc in *.
    destruct ((b =? 0xe0) && (b1 <? 0xa0)); [finish|]. destruct (continuation b1); [|finish]. by apply Hmore'.
Qed.

Lemma four_ok b : (p ++ l) !! 0%nat = Some b → 0xf0 ≤ b < 0xf5 →
  answers p (p ++ l) (utf8_scan (p ++ l)) (utf8_four 4 m s n st b (Z.of_nat (1 - length p))).
Proof using All.
  intros H0 Hb. destruct (part_length b H0 ltac:(lia)) as (_ & _ & Hlen).
  destruct (stage_next 0 _ _ _ b stage_start H0 ltac:(lia)) as (st1 & n1 & E1 & S1).
  unfold utf8_four. change (advance 0 n (set_wchb0 b st)) with (advance (Z.of_nat 0) n (set_wchb 0 b st)).
  rewrite E1. cbv beta iota zeta.
  destruct ((p ++ l) !! 1%nat) as [b1|] eqn:H1.
  2:{ apply (stage_more 0 _ _ _ b _ S1 H0 H1). destruct (p ++ l) as [|? [|? t]]; [done| |done].
      cbn in H0. simplify_eq. unfold utf8_scan, scan3. by byte_cases. }
  rewrite (stage_some 1 _ _ _ b1 _ _ S1 H1), (stage_byte1 _ _ _ b1 S1 H1). cbn [mbind option_bind].
  destruct (stage_next 1 _ _ _ b1 S1 H1 ltac:(lia)) as (st2 & n2 & E2 & S2).
  change (advance 1 n1 (set_wchb1 b1 st1)) with (advance (Z.of_nat 1) n1 (set_wchb 1 b1 st1)).
  rewrite E2, (stage_wchb0 1 _ _ _ b S1 H0) by lia. cbv beta iota zeta.
  destruct ((b =? 0xf0) && (b1 <? 0x90) || (b =? 0xf4) && (0x90 <=? b1) || negb (continuation b1)) eqn:Ebad.
  { assert (utf8_scan (p ++ l) = Bad) as ->.
    { destruct (p ++ l) as [|? [|? t]]; [done..|]. cbn in H0, H1. simplify_eq. revert Ebad.
      unfold utf8_scan, scan4, continuation. by byte_cases. }
    apply orb_prop in Ebad as [->| ->]; [finish|]. destruct (_ || _); finish. }
  assert (utf8_scan (p ++ l) = scan3 ((b - 0xf0) * 64 + (b1 - 0x80)) 0x80 0xc0 4 (drop 2 (p ++ l)) ∧
    0x80 ≤ b1 < 0xc0 ∧ (b = 0xf0 → 0x90 ≤ b1)) as (Hsc & Hr1 & Hr0).
  { destruct (p ++ l) as [|? [|? t]]; [done..|]. cbn in H0, H1. simplify_eq. revert Ebad.
    unfold utf8_scan, scan4, continuation. cbn [drop].
    byte_cases; try done; intros _; (split_and!; [done|lia..]). }
  apply orb_false_iff in Ebad as [-> ->].
  destruct ((p ++ l) !! 2%nat) as [b2|] eqn:H2.
  2:{ apply (stage_more 1 _ _ _ b1 _ S2 H1 H2). rewrite Hsc. by destruct (p ++ l) as [|? [|? [|]]]. }
  rewrite (stage_some 2 _ _ _ b2 _ _ S2 H2), (stage_byte2 _ _ _ b2 S2 H2). cbn [mbind option_bind].
  destruct (stage_next 2 _ _ _ b2 S2 H2 ltac:(lia)) as (st3 & n3 & E3 & S3).
  change (advance 2 n2 (set_wchb2 b2 st2)) with (advance (Z.of_nat 2) n2 (set_wchb 2 b2 st2)).
  rewrite E3. cbv beta iota zeta. change (4 =? 2) with false. rewrite !andb_false_r.
  assert (utf8_scan (p ++ l) = if negb (continuation b2) then Bad else
    match (p ++ l) !! 3%nat with None => More | Some b3 => if negb (continuation b3) then Bad
      else Char ((((b - 0xf0) * 64 + (b1 - 0x80)) * 64 + (b2 - 0x80)) * 64 + (b3 - 0x80)) 4 end) as Hsc'.
  { rewrite Hsc. destruct (p ++ l) as [|? [|? [|? [|? t]]]]; [done..| |]; cbn in H0, H1, H2; simplify_eq;
      cbn [drop scan3 lookup list_lookup]; unfold continuation, cont; by byte_cases. }
  destruct ((p ++ l) !! 3%nat) as [b3|] eqn:H3.
  2:{ pose proof (λ x, stage_more 2 _ _ _ b2 x S3 H2 H3) as Hmore'. rewrite Hsc' in *.
      destruct (continuation b2); [by apply Hmore'|finish]. }
  rewrite (stage_some 3 _ _ _ b3 _ _ S3 H3), (stage_load 3 _ _ _ _ S3 H3 Hlen), Hsc'. cbn [mbind option_bind].
  unfold utf8_high.
  rewrite (stage_wchb0 3 _ _ _ b S3 H0), (stage_wchb1 3 _ _ _ b1 S3 H1), (stage_wchb2 3 _ _ _ b2 S3 H2) by lia.
  unfold continuation. byte_cases; try finish. rewrite dec4 by lia. finish.
Qed.

Lemma utf8_mbtowc_scan : answers p (p ++ l) (utf8_scan (p ++ l)) (__utf8_mbtowc 4 m s n st).
Proof using All.
  assert (0 < length l)%nat as Hlen by (destruct l; [done|cbn; lia]).
  unfold __utf8_mbtowc. destruct (Z.eqb_spec s 0); [done|]. destruct (Z.eqb_spec n 0); [lia|].
  destruct ((p ++ l) !! 0%nat) as [b|] eqn:H0.
  2:{ apply lookup_ge_None in H0. rewrite length_app in H0. lia. }
  pose proof (stage_byte 0 _ _ _ b stage_start H0 ltac:(lia)) as E. rewrite Z.add_0_r in E.
  cbn [wchb nth] in E. change (0 + 1) with 1 in E. change (Z.of_nat 0) with 0 in E.
  rewrite E. cbn [mbind option_bind].
  pose proof (two_ok b H0) as T2. pose proof (three_ok b H0) as T3. pose proof (four_ok b H0) as T4.
  pose proof (byte_range 0 b H0) as Hr.
  assert (b < 0x80 → p = []) as Hp0.
  { intros Hb. revert Hp H0. clear -Hb. destruct p; [done|]. cbn. intros Hp [= ->]. revert Hp. by byte_cases. }
  destruct (p ++ l) as [|b0 t]; [done|]. cbn in H0. simplify_eq.
  destruct (Z.eqb_spec b 0) as [->|]; [|destruct (Z.leb_spec b 0x7f)].
  - exists (set_count 0 st). split; [by split|done].
  - rewrite (Hp0 ltac:(lia)). assert (utf8_scan (b :: t) = Char b 1) as ->.
    { unfold utf8_scan. by byte_cases. }
    exists (set_count 0 st). split; [by split|]. by destruct (Z.eqb_spec b 0).
  - destruct ((0xc0 <=? b) && (b <=? 0xdf)) eqn:E2; [zb; apply T2; lia|].
    destruct ((0xe0 <=? b) && (b <=? 0xef)) eqn:E3; [zb; apply T3; lia|].
    destruct ((0xf0 <=? b) && (b <=? 0xf4)) eqn:E4; [zb; apply T4; lia|].
    assert (utf8_scan (b :: t) = Bad) as ->; [|finish].
    revert E2 E3 E4. unfold utf8_scan. by byte_cases.
Qed.
End Decode.

(** ** The encoder writes the encoding *)

(** A field of [j] bits at bit [k], above a tag. *)
Lemma enc_field w k j tag : 0 ≤ k → 0 ≤ j → 0 ≤ tag →
  Z.lor (tag * 2 ^ j) (Z.shiftr (Z.land w ((2 ^ j - 1) * 2 ^ k)) k) = tag * 2 ^ j + (w / 2 ^ k) mod 2 ^ j.
Proof.
  intros Hk Hj Ht. rewrite Z.shiftr_land, <- (Z.shiftl_mul_pow2 (2 ^ j - 1)) by done.
  rewrite (Z.shiftr_shiftl_l (2 ^ j - 1)), Z.sub_diag, Z.shiftl_0_r, land_low_mask by lia.
  rewrite Z.shiftr_div_pow2, <- (Z.shiftl_mul_pow2 tag) by done.
  rewrite lor_disjoint; [rewrite Z.shiftl_mul_pow2 by done; lia|done|]. apply Z.mod_pos_bound. lia.
Qed.

Lemma enc_low w j tag : 0 ≤ j → 0 ≤ tag → Z.lor (tag * 2 ^ j) (Z.land w (2 ^ j - 1)) = tag * 2 ^ j + w mod 2 ^ j.
Proof.
  intros Hj Ht. pose proof (enc_field w 0 j tag) as E. rewrite Z.mul_1_r, Z.shiftr_0_r, Z.div_1_r in E.
  by apply E.
Qed.

Lemma enc_tail w k : 0 ≤ k →
  Z.lor 0x80 (Z.shiftr (Z.land w (63 * 2 ^ k)) k) = 0x80 + (w / 2 ^ k) mod 64.
Proof. intros Hk. by apply (enc_field w k 6 2). Qed.

Lemma enc_lead w k j tag : 0 ≤ k → 0 ≤ j → 0 ≤ tag → 0 ≤ w / 2 ^ k < 2 ^ j →
  Z.lor (tag * 2 ^ j) (Z.shiftr (Z.land w ((2 ^ j - 1) * 2 ^ k)) k) = tag * 2 ^ j + w / 2 ^ k.
Proof. intros. by rewrite enc_field, Z.mod_small. Qed.

Lemma utf8_bytes3_ok w : 0 ≤ w < 0x10000 →
  utf8_bytes3 w = [0xe0 + w / 4096; 0x80 + (w / 64) mod 64; 0x80 + w mod 64].
Proof.
  intros Hw. assert (0 ≤ w / 2 ^ 12 < 2 ^ 4) as H by (Z.to_euclidean_division_equations; lia).
  unfold utf8_bytes3. f_equal; [by apply (enc_lead w 12 4 14)|].
  f_equal; [by apply (enc_tail w 6)|]. f_equal. by apply (enc_low w 6 2).
Qed.

Lemma utf8_bytes4_ok w : 0 ≤ w < 0x200000 → utf8_bytes4 w =
  [0xf0 + w / 262144; 0x80 + (w / 4096) mod 64; 0x80 + (w / 64) mod 64; 0x80 + w mod 64].
Proof.
  intros Hw. assert (0 ≤ w / 2 ^ 18 < 2 ^ 3) as H by (Z.to_euclidean_division_equations; lia).
  unfold utf8_bytes4. f_equal; [by apply (enc_lead w 18 3 30)|]. f_equal; [by apply (enc_tail w 12)|].
  f_equal; [by apply (enc_tail w 6)|]. f_equal. by apply (enc_low w 6 2).
Qed.

Lemma utf8_bytes2_ok w : 0 ≤ w < 0x800 →
  [Z.lor 0xc0 (Z.shiftr (Z.land w 0x7c0) 6); Z.lor 0x80 (Z.land w 0x3f)] = [0xc0 + w / 64; 0x80 + w mod 64].
Proof.
  intros Hw. assert (0 ≤ w / 2 ^ 6 < 2 ^ 5) as H by (Z.to_euclidean_division_equations; lia).
  f_equal; [by apply (enc_lead w 6 5 6)|]. f_equal. by apply (enc_low w 6 2).
Qed.

Lemma form_bytes c l : form c l → Forall is_byte l ∧ 0 < Z.of_nat (length l) ≤ 4.
Proof. unfold is_byte. intros []; (split; [repeat constructor; lia|cbn; lia]). Qed.

Lemma utf8_wctomb_ok s c st : s ≠ 0 → code_point c →
  __utf8_wctomb 4 s c st = WCR (Z.of_nat (length (utf8 c))) (utf8 c) st false.
Proof.
  intros Hs Hc. destruct (form_bytes _ _ (utf8_form c Hc)) as [Hb _]. unfold code_point in Hc.
  assert (u8 <$> utf8 c = utf8 c) as Eb.
  { rewrite <- (list_fmap_id (utf8 c)) at 2. apply list_fmap_ext. intros i x Hx.
    rewrite Forall_lookup in Hb. apply u8_small, (Hb i x Hx). }
  unfold __utf8_wctomb, encoded. rewrite u32_small by lia. destruct (Z.eqb_spec s 0); [done|].
  change (4 =? 2) with false. cbn [andb].
  rewrite <- Eb at 2. unfold utf8.
  destruct (Z.leb_spec c 0x7f), (Z.ltb_spec c 0x80); try lia; [done|].
  destruct (Z.ltb_spec c 0x800).
  { destruct (Z.leb_spec 0x80 c), (Z.leb_spec c 0x7ff); try lia. cbn [andb app].
    by rewrite utf8_bytes2_ok by lia. }
  destruct (Z.leb_spec c 0x7ff); [lia|]. rewrite andb_false_r.
  destruct (Z.ltb_spec c 0x10000).
  - destruct (Z.leb_spec 0x800 c), (Z.leb_spec c 0xffff); try lia. cbn [andb].
    by rewrite utf8_bytes3_ok by lia.
  - destruct (Z.leb_spec c 0xffff); [lia|]. rewrite andb_false_r.
    destruct (Z.leb_spec 0x10000 c), (Z.leb_spec c 0x10ffff); try lia. cbn [andb].
    by rewrite utf8_bytes4_ok by lia.
Qed.

Lemma utf8_wctomb_bad s c st : s ≠ 0 → ¬ code_point (u32 c) → __utf8_wctomb 4 s c st = unencodable st.
Proof.
  unfold code_point. intros Hs Hc. pose proof (u32_range c). unfold __utf8_wctomb.
  destruct (Z.eqb_spec s 0); [done|]. change (4 =? 2) with false. cbn [andb].
  by byte_cases.
Qed.

(** ** Theorems *)

(** A character is under way: the state holds a part [p] of its encoding. *)
Definition pending (st : mbstate) (p : list Z) : Prop :=
  holds st p ∧ (p = [] ∨ ∃ c tail, scalar c ∧ tail ≠ [] ∧ p ++ tail = utf8 c).

Lemma scalar_code_point c : scalar c → code_point c.
Proof. by intros [? _]. Qed.

Lemma utf8_scan_whole c rest : code_point c → utf8_scan (utf8 c ++ rest) = Char c (length (utf8 c)).
Proof. intros Hc. by apply scan_whole, utf8_form. Qed.

Lemma utf8_scan_part c l tail : code_point c → tail ≠ [] → l ++ tail = utf8 c → utf8_scan l = More.
Proof. intros Hc Ht E. apply (scan_part c l tail); [|done]. rewrite E. by apply utf8_form. Qed.

Lemma pending_scan st p : pending st p → holds st p ∧ utf8_scan p = More ∧ Forall is_byte p.
Proof.
  intros [Hst [->|(c & tail & Hc%scalar_code_point & Ht & E)]]; (split; [done|]); [done|].
  split; [by apply (utf8_scan_part c p tail)|].
  pose proof (form_bytes _ _ (utf8_form c Hc)) as [Hb _]. rewrite <- E in Hb. by apply Forall_app in Hb as [Hb _].
Qed.

(** Bytes that begin with the encoding of a surrogate, of a number over 10FFFF, or
    with the first byte of the forms of old for larger numbers. *)
Definition outside (l : list Z) : bool :=
  let b := hd 0 l in let b1 := hd 0 (tl l) in
  (b =? 0xed) && (0xa0 <=? b1) && (b1 <? 0xc0) || (b =? 0xf4) && (0x90 <=? b1) && (b1 <? 0xc0) ||
  (0xf5 <=? b) && (b <=? 0xfd).

Lemma surrogate_bytes c : 0xd800 ≤ c ≤ 0xdfff → ∃ b1 b2, utf8 c = [0xed; b1; b2] ∧ 0xa0 ≤ b1 < 0xc0.
Proof.
  intros Hc. unfold utf8. destruct (Z.ltb_spec c 0x80); [lia|]. destruct (Z.ltb_spec c 0x800); [lia|].
  destruct (Z.ltb_spec c 0x10000); [|lia]. eexists _, _. split; [repeat f_equal|];
    Z.div_mod_to_equations; lia.
Qed.

(** A part of an encoding that is not [outside] is a part of one of a character. *)
Lemma scalar_part c l tail : code_point c → l ≠ [] → tail ≠ [] → l ++ tail = utf8 c → outside l = false →
  ∃ c' tail', scalar c' ∧ l ++ tail' = utf8 c'.
Proof.
  intros Hc Hl Ht E Ho. destruct (decide (0xd800 ≤ c ≤ 0xdfff)) as [Hs|]; [|by exists c, tail].
  destruct (surrogate_bytes c Hs) as (b1 & b2 & E2 & Hb1). rewrite E2 in E. exists 0xd000, [0x80; 0x80].
  assert (scalar 0xd000) by (unfold scalar, code_point; lia).
  destruct l as [|x [|y l]]; [done|by injection E as ->|]. exfalso. injection E as -> -> _.
  revert Ho. unfold outside. cbn [hd tl]. lia.
Qed.

Lemma scalar_whole c rest : code_point c → outside (utf8 c ++ rest) = false → scalar c.
Proof.
  intros Hc Ho. split; [done|]. intros Hs. destruct (surrogate_bytes c Hs) as (b1 & b2 & E & Hb).
  revert Ho. rewrite E. unfold outside. cbn [app hd tl]. lia.
Qed.

(** C25. UTF-8 decoding in pieces. The state after a call holds the bytes of the
    character under way, and a call continues there, however the text is cut:
    with the bytes [p] in the state and [l] at [s] the decoder returns the
    character whose encoding [p ++ l] begins with and the number of bytes of
    [l] it took (0 for the null character); it returns -2 and keeps all bytes
    when [p ++ l] is a proper part of an encoding of a character; in every other
    case, overlong forms and misplaced bytes included, it returns -1 with EILSEQ,
    two exceptions apart. A first byte C0 or C1 gives -2, and -1 only with the next
    byte. Nothing is said of surrogates and of numbers over 10FFFF ([outside]). *)
Theorem utf8_mbtowc_correct m s l st p : s ≠ 0 → bytes_at m s l → l ≠ [] →
  Z.of_nat (length l) < 2 ^ 63 → pending st p →
  let r := __utf8_mbtowc 4 m s (Z.of_nat (length l)) st in
  (∀ c rest, scalar c → p ++ l = utf8 c ++ rest → ∃ st', pending st' [] ∧ r = Some (MBR
    (if c =? 0 then 0 else Z.of_nat (length (utf8 c)) - Z.of_nat (length p)) (Some c) st' false)) ∧
  (∀ c tail, scalar c → tail ≠ [] → (p ++ l) ++ tail = utf8 c →
    ∃ st', pending st' (p ++ l) ∧ r = Some (MBR (-2) None st' false)) ∧
  ((∀ c rest, scalar c → p ++ l ≠ utf8 c ++ rest) → (∀ c tail, scalar c → (p ++ l) ++ tail ≠ utf8 c) →
    outside (p ++ l) = false → p ++ l ≠ [0xc0] → p ++ l ≠ [0xc1] →
    ∃ st', r = Some (MBR (-1) None st' true)) ∧
  (p ++ l = [0xc0] ∨ p ++ l = [0xc1] →
    ∃ st', holds st' (p ++ l) ∧ r = Some (MBR (-2) None st' false)).
Proof.
  intros Hs Hl Hne Hn Hp r. destruct (pending_scan _ _ Hp) as (Hst & Hsc & Hpb).
  pose proof (utf8_mbtowc_scan m s (Z.of_nat (length l)) st p l Hs Hl Hne ltac:(lia) Hst Hsc Hpb ltac:(done)) as H.
  fold r in H. split_and!.
  - intros c rest Hc%scalar_code_point E. rewrite E, utf8_scan_whole in H by done.
    destruct H as (st' & H1 & H2). exists st'. split; [by split; [|left]|done].
  - intros c tail Hc Ht E. rewrite (utf8_scan_part c _ tail (scalar_code_point c Hc) Ht E) in H.
    destruct H as (st' & H1 & H2). exists st'. split; [split; [done|right; by exists c, tail]|done].
  - intros Hw Ht Ho H0 H1. assert (Forall is_byte (p ++ l)) as Hb
      by (apply Forall_app; split; [done|by apply (bytes_at_bytes m s)]).
    assert (p ++ l ≠ []) as Hpl by (by intros [_ ?]%app_nil).
    destruct (utf8_scan (p ++ l)) as [c k| |] eqn:E; [| |done]; exfalso.
    + apply scan_Char in E as [Hf Hk]; [|done]. apply form_utf8 in Hf as [Hc Hf].
      assert (p ++ l = utf8 c ++ drop k (p ++ l)) as E by (by rewrite Hf, take_drop).
      apply (Hw c (drop k (p ++ l))); [|done]. rewrite E in Ho. by eapply scalar_whole.
    + apply scan_More in E as [?|[?|(c & tail & Htl & Hf)]]; [done..| |done].
      apply form_utf8 in Hf as [Hc Hf]. symmetry in Hf.
      destruct (scalar_part c _ tail Hc Hpl Htl Hf Ho) as (c' & tail' & Hc' & E). by apply (Ht c' tail').
  - intros E. assert (utf8_scan (p ++ l) = More) as E' by (by destruct E as [->| ->]).
    rewrite E' in H. destruct H as (st' & H1 & H2). by exists st'.
Qed.

(** The last two bytes of U+20AC, the first in the state. *)
Lemma utf8_mbtowc_correct_witness : ∃ st',
  __utf8_mbtowc 4 (mk_mem 16 [0x82; 0xac]) 16 2 (MB 1 0xe2 0 0 0) = Some (MBR 2 (Some 0x20ac) st' false).
Proof.
  assert (scalar 0x20ac) as Hc by (unfold scalar, code_point; lia).
  destruct (utf8_mbtowc_correct (mk_mem 16 [0x82; 0xac]) 16 [0x82; 0xac] (MB 1 0xe2 0 0 0) [0xe2])
    as [H _]; [lia|mem_witness|done|cbn; lia| |].
  - split; [split; [done|intros [|[|]] b [= <-]; done]|]. right. by exists 0x20ac, [0x82; 0xac].
  - destruct (H 0x20ac [] Hc eq_refl) as (st' & _ & E). by exists st'.
Defined.

(** What the decoder makes of the others: a surrogate decodes like a character, and
    U+110000 and the first byte of a form of five bytes are refused. *)
Lemma utf8_mbtowc_outside :
  (∃ st', __utf8_mbtowc 4 (mk_mem 16 [0xed; 0xa0; 0x80]) 16 3 mb_initial =
    Some (MBR 3 (Some 0xd800) st' false)) ∧
  (∃ st', __utf8_mbtowc 4 (mk_mem 16 [0xf4; 0x90; 0x80; 0x80]) 16 4 mb_initial =
    Some (MBR (-1) None st' true)) ∧
  ∃ st', __utf8_mbtowc 4 (mk_mem 16 [0xf8; 0x88; 0x80; 0x80; 0x80]) 16 5 mb_initial =
    Some (MBR (-1) None st' true).
Proof. split_and!; eexists; vm_compute; reflexivity. Qed.
