(* ===== verification/MbString.v ===== *)
(** * Multibyte strings

    Models newlib/libc/stdlib: mbstowcs_r.c, wcstombs_r.c, mbrtowc.c,
    wcrtomb.c, mblen_r.c, mbsinit.c, btowc.c and wctob.c. They call the encoder
    and the decoder of the current locale through its function pointers: here
    the class [Codec], whose laws [CodecLaws] say that the decoder undoes the
    encoder. The theorem on strings is proved against the laws, and the
    functions of [Mbyte] are instances. *)
From S2P Require Import Prelude Memory Mbyte.

(** ** Wide characters in memory *)

Definition load32 (m : mem) (a : Z) : option Z :=
  if a mod 4 =? 0 then (λ l, s32 (le_combine l)) <$> load_bytes m a 4 else None.

Definition store32 (m : mem) (a w : Z) : option mem :=
  if a mod 4 =? 0 then _ ← load_bytes m a 4; Some (write_bytes m a (le_split 4 w)) else None.

(** Stores bytes one after the other. *)
Fixpoint store_list (m : mem) (a : Z) (l : list Z) : option mem :=
  match l with
  | [] => Some m
  | b :: t => m ← store8 m a b; store_list m (a + 1) t
  end.

(** ** The locale's functions *)

Class Codec := {
  __MBTOWC : mem → Z → Z → mbstate → option mbres;
  __WCTOMB : Z → Z → mbstate → wcres;
  MB_CUR_MAX : Z }.

(** The bytes of a character: no zero byte, except at the end of the null character. *)
Definition char_bytes (c : Z) (l : list Z) : Prop :=
  Forall is_byte l ∧ ∃ l', l = l' ++ (if c =? 0 then [0] else []) ∧ Forall (λ b, b ≠ 0) l'.

Class CodecLaws (C : Codec) := {
  valid : Z → Prop;
  in_step : mbstate → mbstate → Prop;
  valid_nul : valid 0;
  MB_CUR_MAX_range : MB_CUR_MAX < 2 ^ 63;
  valid_range c : valid c → 0 ≤ c < 2 ^ 31;
  in_step_start e d : __count e = 0 → __count d = 0 → in_step e d;
  encode_decode buf e d c : buf ≠ 0 → in_step e d → valid c →
    ∃ l e', __WCTOMB buf c e = WCR (Z.of_nat (length l)) l e' false ∧ char_bytes c l ∧
      0 < Z.of_nat (length l) ≤ MB_CUR_MAX ∧
      ∀ m s n, s ≠ 0 → bytes_at m s l → Z.of_nat (length l) ≤ n < 2 ^ 63 →
        ∃ d', __MBTOWC m s n d =
          Some (MBR (if c =? 0 then 0 else Z.of_nat (length l)) (Some c) d' false) ∧ in_step e' d' }.

Section Functions.
Context `{C : Codec}.

(** An address of the local array [buff]. *)
Definition BUFF : Z := 1.

(** *** mbstowcs *)

Definition mbstowcs_round (x : mem * Z * Z * Z * Z * mbstate) :
    option (mem * Z * Z * Z * Z * mbstate + mem * Z * mbstate) :=
  let '(m, pwcs, t, n, ret, st) := x in
  if 0 <? n then
    r ← __MBTOWC m t MB_CUR_MAX st;
    let bytes := mb_ret r in
    m ← (match mb_wc r with
         | Some wc => if pwcs =? 0 then Some m else store32 m pwcs wc
         | None => Some m
         end);
    if bytes <? 0 then leave (m, u64 (-1), set_count 0 (mb_state r))
    else if bytes =? 0 then leave (m, ret, mb_state r)
    else if negb (pwcs =? 0) then continue (m, pwcs + 4, t + bytes, n - 1, ret + 1, mb_state r)
    else continue (m, pwcs, t + bytes, n, ret + 1, mb_state r)
  else leave (m, ret, st).

Definition _mbstowcs_r (m : mem) (pwcs s n : Z) (st : mbstate) : option (mem * Z * mbstate) :=
  let n := if pwcs =? 0 then 1 else n in
  loop (fuel m) mbstowcs_round (m, pwcs, s, n, 0, st).

Definition mbstowcs (m : mem) (pwcs s n : Z) : option (mem * Z) :=
  '(m, ret, _) ← _mbstowcs_r m pwcs s n mb_initial; Some (m, ret).

(** *** wcstombs *)

(** The size of the result, with a null pointer for the destination. *)
Definition wcstombs_size_round (m : mem) (x : Z * Z * mbstate) : option (Z * Z * mbstate + Z * mbstate) :=
  let '(pwcs, num_bytes, st) := x in
  wc ← load32 m pwcs;
  let r := __WCTOMB BUFF wc st in
  if wc_ret r =? -1 then leave (u64 (-1), wc_state r)
  else
    let num_bytes := num_bytes + wc_ret r in
    if negb (wc =? 0) then continue (pwcs + 4, num_bytes, wc_state r)
    else leave (num_bytes - 1, wc_state r).

Definition wcstombs_round (s max : Z) (x : mem * Z * Z * Z * mbstate) :
    option (mem * Z * Z * Z * mbstate + mem * Z * mbstate) :=
  let '(m, ptr, pwcs, n, st) := x in
  if 0 <? n then
    wc ← load32 m pwcs;
    let r := __WCTOMB BUFF wc st in
    let bytes := wc_ret r in
    if bytes =? -1 then leave (m, u64 (-1), wc_state r)
    else
      let num_to_copy := if bytes <? n then bytes else n in
      m ← store_list m ptr (take (Z.to_nat num_to_copy) (wc_bytes r));
      let ptr := ptr + num_to_copy in
      wc ← load32 m pwcs;
      if wc =? 0 then leave (m, ptr - s - (if bytes <=? n then 1 else 0), wc_state r)
      else continue (m, ptr, pwcs + 4, n - num_to_copy, wc_state r)
  else leave (m, max, st).

Definition _wcstombs_r (m : mem) (s pwcs n : Z) (st : mbstate) : option (mem * Z * mbstate) :=
  if s =? 0 then
    '(ret, st) ← loop (fuel m) (wcstombs_size_round m) (pwcs, 0, st); Some (m, ret, st)
  else loop (fuel m) (wcstombs_round s n) (m, s, pwcs, n, st).

Definition wcstombs (m : mem) (s pwcs n : Z) : option (mem * Z) :=
  '(m, ret, _) ← _wcstombs_r m s pwcs n mb_initial; Some (m, ret).

(** *** One character *)

(** The string literal [""] of the source. *)
Definition empty_literal : mem := {[ 1 := 0 ]}.

(** The return value, the character stored through [pwc] if it is not NULL,
    the state and whether [errno] is EILSEQ. *)
Definition _mbrtowc_r (m : mem) (s n : Z) (ps : mbstate) : option mbres :=
  r ← (if s =? 0 then
         r ← __MBTOWC empty_literal 1 1 ps; Some (MBR (mb_ret r) None (mb_state r) (mb_ilseq r))
       else __MBTOWC m s n ps);
  if mb_ret r =? -1 then Some (MBR (u64 (-1)) (mb_wc r) (set_count 0 (mb_state r)) true)
  else Some (MBR (u64 (mb_ret r)) (mb_wc r) (mb_state r) (mb_ilseq r)).

Definition _wcrtomb_r (s wc : Z) (ps : mbstate) : wcres :=
  let r := if s =? 0 then
             let r := __WCTOMB BUFF 0 ps in WCR (wc_ret r) [] (wc_state r) (wc_ilseq r)
           else __WCTOMB s wc ps in
  if wc_ret r =? -1 then WCR (u64 (-1)) (wc_bytes r) (set_count 0 (wc_state r)) true
  else WCR (u64 (wc_ret r)) (wc_bytes r) (wc_state r) (wc_ilseq r).

Definition _mblen_r (m : mem) (s n : Z) (st : mbstate) : option (Z * mbstate) :=
  r ← __MBTOWC m s n st;
  if mb_ret r <? 0 then Some (-1, set_count 0 (mb_state r)) else Some (mb_ret r, mb_state r).

(** [mbsinit] of a state, not of a null pointer. *)
Definition mbsinit (ps : mbstate) : Z := if __count ps =? 0 then 1 else 0.

(** EOF and WEOF are -1, the second as an unsigned [wint_t]. *)
Definition btowc (c : Z) : option Z :=
  if c =? -1 then Some (u32 (-1))
  else
    r ← __MBTOWC {[ 1 := u8 c ]} 1 1 mb_initial;
    if negb (mb_ret r =? 0) && negb (mb_ret r =? 1) then Some (u32 (-1))
    else u32 <$> mb_wc r.

Definition wctob (wc : Z) : option Z :=
  if u32 wc =? u32 (-1) then Some (-1)
  else
    let r := __WCTOMB BUFF wc mb_initial in
    if wc_ret r =? 1 then head (wc_bytes r) else Some (-1).
End Functions.

(** ** Wide characters and bytes *)

Definition wide_bytes (ws : list Z) : list Z := concat (le_split 4 <$> ws).
Definition wide (m : mem) (a : Z) (ws : list Z) : Prop := bytes_at m a (wide_bytes ws).

Lemma length_wide_bytes ws : length (wide_bytes ws) = (4 * length ws)%nat.
Proof.
  unfold wide_bytes. induction ws as [|w ws IH]; [done|].
  cbn [fmap list_fmap concat]. rewrite length_app, IH, length_le_split. cbn. lia.
Qed.

Lemma wide_bytes_bytes ws : Forall is_byte (wide_bytes ws).
Proof.
  unfold wide_bytes. induction ws as [|w ws IH]; [constructor|]. cbn [fmap list_fmap concat].
  apply Forall_app. split; [apply le_split_bytes|done].
Qed.

Lemma wide_load m a c ws : wide m a (c :: ws) → a mod 4 = 0 → 0 ≤ c < 2 ^ 31 →
  load32 m a = Some c ∧ wide m (a + 4) ws.
Proof.
  unfold wide, wide_bytes. cbn [fmap list_fmap concat]. rewrite bytes_at_app, length_le_split.
  intros [Hc Hw] Ha Hr. split; [|done]. unfold load32. rewrite Ha, Z.eqb_refl.
  unfold bytes_at in Hc. rewrite length_le_split in Hc. rewrite Hc. cbn [fmap option_fmap option_map].
  rewrite le_combine_split, Z.mod_small by (cbn; lia). by rewrite s32_small by lia.
Qed.

Lemma store32_mapped m a w : mapped m a 4 → a mod 4 = 0 →
  store32 m a w = Some (write_bytes m a (le_split 4 w)).
Proof.
  intros Hm Ha. unfold store32. rewrite Ha, Z.eqb_refl.
  destruct (mapped_bytes_at m a 4) as (l & Hlen & Hl); [done|].
  unfold bytes_at in Hl. rewrite Hlen in Hl. by rewrite Hl.
Qed.

Lemma store_list_mapped m a l : mapped m a (Z.of_nat (length l)) → store_list m a l = Some (write_bytes m a l).
Proof.
  revert m a. induction l as [|b l IH]; intros m a Hm; [done|]. cbn [store_list length] in *.
  rewrite store8_mapped by (apply (mapped_sub _ _ _ _ _ Hm); lia). cbn [mbind option_bind].
  rewrite IH; [done|]. apply mapped_write_bytes, (mapped_sub _ _ _ _ _ Hm); lia.
Qed.

(** ** The strings *)

Section Strings.
Context `{C : Codec} {CL : CodecLaws C}.

(** The bytes the encoder writes for a text. *)
Fixpoint encode_all (e : mbstate) (ws : list Z) : list Z :=
  match ws with
  | [] => []
  | c :: t => let r := __WCTOMB BUFF c e in wc_bytes r ++ encode_all (wc_state r) t
  end.

(** A character, and where the two states go. *)
Lemma encode_step e d c : in_step e d → valid c → ∃ l e' d',
  __WCTOMB BUFF c e = WCR (Z.of_nat (length l)) l e' false ∧ char_bytes c l ∧
  0 < Z.of_nat (length l) ≤ MB_CUR_MAX ∧ in_step e' d'.
Proof.
  intros Hs Hc. destruct (encode_decode BUFF e d c ltac:(done) Hs Hc) as (l & e' & E & Hb & Hl & Hd).
  destruct (Hd (mk_mem 1 l) 1 (Z.of_nat (length l))) as (d' & _ & H); [lia| |pose proof MB_CUR_MAX_range; lia|].
  - apply bytes_at_write_bytes_eq, Hb.
  - by exists l, e', d'.
Qed.

Lemma encode_all_bytes ws e d : in_step e d → Forall valid ws → Forall (λ c, c ≠ 0) ws →
  ∃ l, encode_all e (ws ++ [0]) = l ++ [0] ∧ Forall (λ b, b ≠ 0) l ∧ Forall is_byte l ∧
    Z.of_nat (length l) < MB_CUR_MAX * (Z.of_nat (length ws) + 1).
Proof.
  revert e d. induction ws as [|c ws IH]; intros e d Hs Hv Hz.
  - destruct (encode_step e d 0 Hs valid_nul) as (l & e' & d' & E & (Hb & l' & -> & Hn) & Hl & _).
    exists l'. cbn [app encode_all]. rewrite E. cbn [wc_bytes]. rewrite app_nil_r.
    apply Forall_app in Hb as [Hb _]. rewrite length_app in Hl. cbn in *. split_and!; [done..|lia].
  - apply Forall_cons in Hv as [Hc Hv]. apply Forall_cons in Hz as [Hc0 Hz].
    destruct (encode_step e d c Hs Hc) as (l & e' & d' & E & (Hb & l' & El & Hn) & Hl & Hs').
    destruct (Z.eqb_spec c 0); [done|]. rewrite app_nil_r in El. subst l'.
    destruct (IH e' d' Hs' Hv Hz) as (k & Ek & Hk0 & Hkb & Hkl).
    exists (l ++ k). cbn [app encode_all length]. rewrite E. cbn [wc_bytes wc_state].
    rewrite Ek, app_assoc, length_app. split_and!; [done|by apply Forall_app..|lia].
Qed.

Lemma wcstombs_step s max m ptr pwcs n e c ws l e' :
  __WCTOMB BUFF c e = WCR (Z.of_nat (length l)) l e' false → 0 < Z.of_nat (length l) ≤ n →
  wide m pwcs (c :: ws) → pwcs mod 4 = 0 → 0 ≤ c < 2 ^ 31 → mapped m ptr (Z.of_nat (length l)) →
  ptr + Z.of_nat (length l) ≤ pwcs ∨ pwcs + 4 * (Z.of_nat (length ws) + 1) ≤ ptr →
  wcstombs_round s max (m, ptr, pwcs, n, e) = let m' := write_bytes m ptr l in
    if c =? 0 then leave (m', ptr + Z.of_nat (length l) - s - 1, e')
    else continue (m', ptr + Z.of_nat (length l), pwcs + 4, n - Z.of_nat (length l), e').
Proof.
  intros E Hl Hw Ha Hc Hm Hd. unfold wcstombs_round.
  assert (wide (write_bytes m ptr l) pwcs (c :: ws)) as Hw'.
  { apply bytes_at_write_bytes_ne; [done|]. rewrite length_wide_bytes. cbn [length]. lia. }
  destruct (wide_load m pwcs c ws Hw Ha Hc) as [-> _]. destruct (wide_load _ pwcs c ws Hw' Ha Hc) as [E' _].
  destruct (Z.ltb_spec 0 n); [|lia]. cbn [mbind option_bind]. rewrite E. cbn [wc_ret wc_bytes wc_state].
  destruct (Z.eqb_spec (Z.of_nat (length l)) (-1)); [lia|].
  assert ((if Z.of_nat (length l) <? n then Z.of_nat (length l) else n) = Z.of_nat (length l)) as ->
    by (destruct (Z.ltb_spec (Z.of_nat (length l)) n); lia).
  rewrite Nat2Z.id, firstn_all, store_list_mapped by done. cbn [mbind option_bind]. rewrite E'.
  cbn [mbind option_bind]. destruct (Z.leb_spec (Z.of_nat (length l)) n); [done|lia].
Qed.

(** The loop of [wcstombs], with room for the text. *)
Lemma wcstombs_loop s max ws k e d m ptr pwcs n : in_step e d → Forall valid ws → Forall (λ c, c ≠ 0) ws →
  wide m pwcs (ws ++ [0]) → pwcs mod 4 = 0 → (length ws < k)%nat →
  let L := encode_all e (ws ++ [0]) in
  Z.of_nat (length L) ≤ n → mapped m ptr (Z.of_nat (length L)) →
  ptr + Z.of_nat (length L) ≤ pwcs ∨ pwcs + 4 * (Z.of_nat (length ws) + 1) ≤ ptr →
  ∃ e', loop k (wcstombs_round s max) (m, ptr, pwcs, n, e) =
    Some (write_bytes m ptr L, ptr + Z.of_nat (length L) - s - 1, e').
Proof using CL.
  revert k e d m ptr pwcs n. induction ws as [|c ws IH]; intros k e d m ptr pwcs n Hs Hv Hz Hw Ha Hk L HL Hm Hdis;
    (destruct k as [|k]; [lia|]); rewrite loop_S.
  - destruct (encode_step e d 0 Hs valid_nul) as (l & e' & d' & E & _ & Hl & _).
    subst L. cbn [app encode_all] in *. rewrite E in *. cbn [wc_bytes wc_state wc_ret] in *. rewrite app_nil_r in *.
    rewrite (wcstombs_step s max m ptr pwcs n e 0 [] l e' E) by (done || lia). by exists e'.
  - apply Forall_cons in Hv as [Hc Hv]. apply Forall_cons in Hz as [Hc0 Hz].
    destruct (encode_step e d c Hs Hc) as (l & e' & d' & E & (Hb & _) & Hl & Hs').
    subst L. cbn [app encode_all length] in *. rewrite E in *. cbn [wc_bytes wc_state wc_ret] in *.
    rewrite length_app in *. pose proof (valid_range c Hc) as Hr.
    rewrite (wcstombs_step s max m ptr pwcs n e c (ws ++ [0]) l e' E); try done;
      [|lia|apply (mapped_sub _ _ _ _ _ Hm); lia|rewrite length_app; cbn [length]; lia].
    destruct (Z.eqb_spec c 0); [done|]. cbn [mbind option_bind].
    destruct (wide_load m pwcs c _ Hw Ha Hr) as [_ Hw'].
    destruct (IH k e' d' (write_bytes m ptr l) (ptr + Z.of_nat (length l)) (pwcs + 4) (n - Z.of_nat (length l)))
      as [e'' E'']; try done; [|rewrite Z.add_mod, Ha by lia; done|lia|lia| |lia|].
    + apply bytes_at_write_bytes_ne; [done|]. rewrite length_wide_bytes, length_app. cbn [length]. lia.
    + apply mapped_write_bytes, (mapped_sub _ _ _ _ _ Hm); lia.
    + exists e''. rewrite E'', write_bytes_app. do 3 f_equal. lia.
Qed.

Lemma mbstowcs_step m pw t n ret d k c d' : __MBTOWC m t MB_CUR_MAX d = Some (MBR k (Some c) d' false) →
  0 < n → 0 ≤ k → pw ≠ 0 → pw mod 4 = 0 → mapped m pw 4 →
  mbstowcs_round (m, pw, t, n, ret, d) = let m' := write_bytes m pw (le_split 4 c) in
    if k =? 0 then leave (m', ret, d') else continue (m', pw + 4, t + k, n - 1, ret + 1, d').
Proof.
  intros E Hn Hk Hp Ha Hm. unfold mbstowcs_round. destruct (Z.ltb_spec 0 n); [|lia]. rewrite E.
  cbn [mbind option_bind mb_wc mb_ret mb_state]. destruct (Z.eqb_spec pw 0); [done|].
  rewrite store32_mapped by done. cbn [mbind option_bind negb]. by destruct (Z.ltb_spec k 0); [lia|].
Qed.

(** The loop of [mbstowcs] reads the text back. *)
Lemma mbstowcs_loop ws k e d m pw t n ret : in_step e d → Forall valid ws → Forall (λ c, c ≠ 0) ws →
  let L := encode_all e (ws ++ [0]) in
  bytes_at m t L → 0 < t → pw mod 4 = 0 → 0 < pw → (length ws < k)%nat → Z.of_nat (length ws) < n →
  mapped m pw (4 * (Z.of_nat (length ws) + 1)) →
  t + Z.of_nat (length L) ≤ pw ∨ pw + 4 * (Z.of_nat (length ws) + 1) ≤ t →
  ∃ d', loop k mbstowcs_round (m, pw, t, n, ret, d) =
    Some (write_bytes m pw (wide_bytes (ws ++ [0])), ret + Z.of_nat (length ws), d').
Proof using CL.
  revert k e d m pw t n ret. induction ws as [|c ws IH];
    intros k e d m pw t n ret Hs Hv Hz L HL Ht Ha Hp Hk Hn Hm Hdis;
    (destruct k as [|k]; [lia|]); rewrite loop_S.
  - destruct (encode_decode BUFF e d 0 ltac:(done) Hs valid_nul) as (l & e' & E & _ & Hl & Hd).
    subst L. cbn [app encode_all] in *. rewrite E in *. cbn [wc_bytes wc_state] in *. rewrite app_nil_r in *.
    destruct (Hd m t MB_CUR_MAX) as (d' & Ed & _); [lia|done|pose proof MB_CUR_MAX_range; lia|].
    rewrite (mbstowcs_step _ _ _ _ _ _ _ _ _ Ed) by (done || lia). cbn. exists d'. by rewrite Z.add_0_r.
  - apply Forall_cons in Hv as [Hc Hv]. apply Forall_cons in Hz as [Hc0 Hz].
    destruct (encode_decode BUFF e d c ltac:(done) Hs Hc) as (l & e' & E & _ & Hl & Hd).
    subst L. cbn [app encode_all length] in *. rewrite E in *. cbn [wc_bytes wc_state] in *.
    rewrite length_app in *. apply bytes_at_app in HL as [HL1 HL2].
    destruct (Hd m t MB_CUR_MAX) as (d' & Ed & Hs'); [lia|done|pose proof MB_CUR_MAX_range; lia|].
    destruct (Z.eqb_spec c 0); [done|].
    rewrite (mbstowcs_step _ _ _ _ _ _ _ _ _ Ed) by (try done; try lia; apply (mapped_sub _ _ _ _ _ Hm); lia).
    destruct (Z.eqb_spec (Z.of_nat (length l)) 0); [lia|]. cbn [mbind option_bind].
    destruct (IH k e' d' (write_bytes m pw (le_split 4 c)) (pw + 4) (t + Z.of_nat (length l)) (n - 1) (ret + 1))
      as [d'' E'']; try done; [|lia|rewrite Z.add_mod, Ha by lia; done|lia|lia|lia| |lia|].
    + by apply bytes_at_write_bytes_ne; [|rewrite length_le_split; lia].
    + apply mapped_write_bytes, (mapped_sub _ _ _ _ _ Hm); lia.
    + exists d''. rewrite E''. unfold wide_bytes. cbn [fmap list_fmap concat app].
      rewrite write_bytes_app, length_le_split. do 3 f_equal. lia.
Qed.
Lemma wcstombs_size_step m pwcs size e c ws l e' :
  __WCTOMB BUFF c e = WCR (Z.of_nat (length l)) l e' false →
  wide m pwcs (c :: ws) → pwcs mod 4 = 0 → 0 ≤ c < 2 ^ 31 →
  wcstombs_size_round m (pwcs, size, e) = let size' := size + Z.of_nat (length l) in
    if c =? 0 then leave (size' - 1, e') else continue (pwcs + 4, size', e').
Proof.
  intros E Hw Ha Hc. unfold wcstombs_size_round. destruct (wide_load m pwcs c ws Hw Ha Hc) as [-> _].
  cbn [mbind option_bind]. rewrite E. cbn [wc_ret wc_state].
  destruct (Z.eqb_spec (Z.of_nat (length l)) (-1)); [lia|]. by destruct (c =? 0).
Qed.

(** The size alone, for a null pointer. *)
Lemma wcstombs_size_loop ws k e d m pwcs size : in_step e d → Forall valid ws → Forall (λ c, c ≠ 0) ws →
  wide m pwcs (ws ++ [0]) → pwcs mod 4 = 0 → (length ws < k)%nat →
  ∃ e', loop k (wcstombs_size_round m) (pwcs, size, e) =
    Some (size + Z.of_nat (length (encode_all e (ws ++ [0]))) - 1, e').
Proof using CL.
  revert k e d pwcs size. induction ws as [|c ws IH]; intros k e d pwcs size Hs Hv Hz Hw Ha Hk;
    (destruct k as [|k]; [lia|]); rewrite loop_S.
  - destruct (encode_step e d 0 Hs valid_nul) as (l & e' & d' & E & _ & Hl & _).
    rewrite (wcstombs_size_step m pwcs size e 0 [] l e' E Hw Ha) by lia.
    cbn [app encode_all]. rewrite E. cbn [wc_bytes]. rewrite app_nil_r. by exists e'.
  - apply Forall_cons in Hv as [Hc Hv]. apply Forall_cons in Hz as [Hc0 Hz].
    pose proof (valid_range c Hc) as Hr. destruct (wide_load m pwcs c _ Hw Ha Hr) as [_ Hw'].
    destruct (encode_step e d c Hs Hc) as (l & e' & d' & E & _ & Hl & Hs').
    rewrite (wcstombs_size_step m pwcs size e c (ws ++ [0]) l e' E Hw Ha Hr).
    cbn [app encode_all]. rewrite E. cbn [wc_bytes wc_state length]. rewrite length_app.
    destruct (Z.eqb_spec c 0); [done|]. cbn [mbind option_bind length] in *.
    destruct (IH k e' d' (pwcs + 4) (size + Z.of_nat (length l))) as [e'' ->]; try done;
      [rewrite Z.add_mod, Ha by lia; done|lia|].
    exists e''. do 2 f_equal. lia.
Qed.
End Strings.

(** ** The locales *)

Lemma char_bytes_single c : 0 ≤ c < 256 → char_bytes c [c].
Proof.
  intros Hc. split; [by apply Forall_singleton|]. destruct (Z.eqb_spec c 0) as [->|]; [by exists []|].
  exists [c]. split; [done|by apply Forall_singleton].
Qed.

Lemma char_bytes_nonzero c l : c ≠ 0 → Forall is_byte l → Forall (λ b, b ≠ 0) l → char_bytes c l.
Proof.
  intros Hc Hb Hz. split; [done|]. exists l. destruct (Z.eqb_spec c 0); [done|]. by rewrite app_nil_r.
Qed.

Lemma u8_bytes l : Forall is_byte l → u8 <$> l = l.
Proof.
  intros H. rewrite <- (list_fmap_id l) at 2. apply list_fmap_ext. intros i x Hx.
  rewrite Forall_lookup in H. apply u8_small, (H i x Hx).
Qed.

Lemma bytes_at_load m s b l : bytes_at m s (b :: l) → load8 m s = Some b ∧ bytes_at m (s + 1) l.
Proof. by rewrite bytes_at_cons. Qed.

#[export] Instance ascii : Codec :=
  {| __MBTOWC := __ascii_mbtowc; __WCTOMB := __ascii_wctomb; MB_CUR_MAX := 1 |}.

#[export, refine] Instance ascii_laws : CodecLaws ascii :=
  {| valid c := 0 ≤ c < 256; in_step e d := True |}.
Proof.
  - lia.
  - done.
  - lia.
  - done.
  - intros buf e d c Hbuf _ Hc. exists [c], e. cbn [__WCTOMB __MBTOWC MB_CUR_MAX ascii length].
    split_and!; [|by apply char_bytes_single|lia|lia|].
    + unfold __ascii_wctomb, encoded. rewrite u32_small by lia. destruct (Z.eqb_spec buf 0); [done|].
      destruct (Z.leb_spec 0x100 c); [lia|]. by rewrite u8_bytes by (by apply Forall_singleton).
    + intros m s n Hs [Hl _]%bytes_at_load Hn. exists d. split; [|done]. unfold __ascii_mbtowc.
      destruct (Z.eqb_spec s 0); [done|]. destruct (Z.eqb_spec n 0); [lia|]. by rewrite Hl.
Defined.

#[export] Instance utf8_codec : Codec :=
  {| __MBTOWC := __utf8_mbtowc 4; __WCTOMB := __utf8_wctomb 4; MB_CUR_MAX := 6 |}.

Lemma utf8_char_bytes c : code_point c → char_bytes c (utf8 c) ∧ 0 < Z.of_nat (length (utf8 c)) ≤ 4.
Proof.
  intros Hc. destruct (form_bytes _ _ (utf8_form c Hc)) as [Hb Hl]. split; [|done].
  destruct (decide (c = 0)) as [->|]; [by apply char_bytes_single|]. apply char_bytes_nonzero; [done..|].
  destruct (utf8_form c Hc); repeat constructor; lia.
Qed.

#[export, refine] Instance utf8_laws : CodecLaws utf8_codec :=
  {| valid := code_point; in_step e d := __count d = 0 |}.
Proof.
  - unfold code_point. lia.
  - done.
  - unfold code_point. lia.
  - done.
  - intros buf e d c Hbuf Hd Hc. exists (utf8 c), e. cbn [__WCTOMB __MBTOWC MB_CUR_MAX utf8_codec].
    destruct (utf8_char_bytes c Hc) as [Hb Hl].
    split_and!; [by apply utf8_wctomb_ok|done|lia|lia|]. intros m s n Hs Hm Hn.
    assert (utf8_scan ([] ++ utf8 c) = Char c (length (utf8 c))) as Hsc.
    { rewrite app_nil_l, <- (app_nil_r (utf8 c)) at 1. by rewrite utf8_scan_whole. }
    pose proof (utf8_mbtowc_scan m s n d [] (utf8 c) Hs Hm) as H. rewrite Hsc in H.
    destruct H as (d' & [Hd' _] & ->); try done; [intros E; rewrite E in Hl; cbn in Hl; lia|].
    exists d'. split; [|done]. cbn [length]. by rewrite Z.sub_0_r.
Defined.

(** *** Two-byte characters *)

Lemma wide_pair hi lo : 0 ≤ hi < 256 → 0 ≤ lo < 256 →
  u8 (u32 (hi * 256 + lo)) = lo ∧ u8 (Z.shiftr (u32 (hi * 256 + lo)) 8) = hi.
Proof.
  intros Hh Hl. rewrite u32_small by lia. unfold u8, wrapu. change (2 ^ 8) with 256.
  rewrite Z.add_comm, Z.mod_add, Z.mod_small by lia. split; [done|].
  rewrite Z.shiftr_div_pow2 by lia. change (2 ^ 8) with 256.
  rewrite Z.div_add, Z.div_small, Z.mod_small; lia.
Qed.

Lemma narrow_char c : 0 ≤ c < 256 → u32 c = c ∧ u8 c = c ∧ u8 (Z.shiftr c 8) = 0.
Proof.
  intros Hc. rewrite u32_small, u8_small, Z.shiftr_div_pow2, Z.div_small by lia. done.
Qed.

Ltac class_range := unfold _issjis1, _issjis2, _iseucjp1, _iseucjp2, _isjis in *; lia.

#[export] Instance sjis : Codec :=
  {| __MBTOWC := __sjis_mbtowc; __WCTOMB := __sjis_wctomb; MB_CUR_MAX := 2 |}.

Definition sjis_valid (c : Z) : Prop :=
  0 ≤ c < 256 ∧ _issjis1 c = false ∨
  ∃ hi lo, c = hi * 256 + lo ∧ _issjis1 hi = true ∧ _issjis2 lo = true.

#[export, refine] Instance sjis_laws : CodecLaws sjis :=
  {| valid := sjis_valid; in_step e d := __count d = 0 |}.
Proof.
  - left. split; [lia|done].
  - done.
  - intros c [[Hc _]|(hi & lo & -> & Hh & Hl)]; [lia|]. class_range.
  - done.
  - intros buf e d c Hbuf Hd Hc. cbn [__WCTOMB __MBTOWC MB_CUR_MAX sjis].
    unfold __sjis_wctomb. destruct (Z.eqb_spec buf 0) as [|_]; [done|].
    destruct Hc as [[Hc H1]|(hi & lo & -> & Hh & Hl)].
    + exists [c], e. destruct (narrow_char c Hc) as (-> & -> & ->). cbn [Z.eqb negb length].
      split_and!; [|by apply char_bytes_single|lia|lia|].
      { unfold encoded. by rewrite u8_bytes by (by apply Forall_singleton). }
      intros m s n Hs [Hm _]%bytes_at_load Hn. exists d. split; [|done]. unfold __sjis_mbtowc.
      destruct (Z.eqb_spec s 0); [done|]. destruct (Z.eqb_spec n 0); [lia|].
      rewrite Hm. cbn [mbind option_bind]. rewrite H1, andb_false_r. unfold sjis_second. rewrite Hd. cbn [Z.eqb].
      unfold single_byte. by rewrite Hm.
    + assert (0 < hi < 256 ∧ 0 < lo < 256) as [Hhr Hlr] by (split; [class_range|class_range]).
      exists [hi; lo], e. destruct (wide_pair hi lo) as [-> ->]; [lia..|].
      destruct (Z.eqb_spec hi 0) as [|_]; [lia|]. rewrite Hh, Hl. cbn [negb andb length].
      assert (Forall is_byte [hi; lo]) as Hb by (unfold is_byte; repeat constructor; lia).
      split_and!; [unfold encoded; by rewrite u8_bytes| |lia|lia|].
      { apply char_bytes_nonzero; [lia|done|repeat constructor; lia]. }
      intros m s n Hs [Hm [Hm2 _]%bytes_at_load]%bytes_at_load Hn. exists (set_count 0 (set_count 1 (set_wchb0 hi d))). split; [|done].
      unfold __sjis_mbtowc. destruct (Z.eqb_spec s 0); [done|]. destruct (Z.eqb_spec n 0); [lia|].
      rewrite Hm. cbn [mbind option_bind]. rewrite Hh, Hd. cbn [Z.eqb andb].
      destruct (Z.leb_spec n 1); [cbn [length] in Hn; lia|]. rewrite Hm2. cbn [mbind option_bind].
      unfold sjis_second. cbn [__count set_count set_wchb0 wchb0 Z.eqb]. rewrite Hl. unfold decoded.
      rewrite u8_small, Z.shiftl_mul_pow2 by lia. destruct (Z.eqb_spec (hi * 256 + lo) 0); [lia|]. reflexivity.
Defined.

#[export] Instance eucjp : Codec :=
  {| __MBTOWC := __eucjp_mbtowc; __WCTOMB := __eucjp_wctomb; MB_CUR_MAX := 3 |}.

(** One byte; two bytes; and three bytes, where the second of the pair has 7 bits. *)
Definition eucjp_bytes (c : Z) (l : list Z) : Prop :=
  0 ≤ c < 256 ∧ _iseucjp1 c = false ∧ l = [c] ∨
  ∃ hi lo, c = hi * 256 + lo ∧
    (_iseucjp1 hi = true ∧ hi ≠ 0x8f ∧ _iseucjp2 lo = true ∧ l = [hi; lo] ∨
     _iseucjp2 hi = true ∧ _isjis lo = true ∧ l = [0x8f; hi; lo + 0x80]).

Lemma eucjp_bytes_ok c l : eucjp_bytes c l →
  0 ≤ c < 2 ^ 31 ∧ char_bytes c l ∧ 0 < Z.of_nat (length l) ≤ 3.
Proof.
  assert (∀ x : Z, 0 < x < 256 → is_byte x ∧ x ≠ 0) as Hx by (unfold is_byte; lia).
  intros [(Hc & _ & ->)|(hi & lo & -> & [(Hh & _ & Hl & ->)|(Hh & Hl & ->)])].
  { split_and!; [lia..|by apply char_bytes_single|cbn; lia|cbn; lia]. }
  all: assert (0 < hi < 256 ∧ 0 < lo < 256) by class_range; split_and!; [lia..| |cbn; lia|cbn; lia].
  all: apply char_bytes_nonzero; [lia|..]; repeat apply Forall_cons_2; try apply Forall_nil_2;
    apply Hx; class_range.
Qed.

Lemma eucjp_encode buf e c l : buf ≠ 0 → eucjp_bytes c l →
  __eucjp_wctomb buf c e = WCR (Z.of_nat (length l)) l e false.
Proof.
  intros Hbuf Hc. destruct (eucjp_bytes_ok c l Hc) as (_ & [Hb _] & _).
  rewrite <- (u8_bytes l) at 2 by done. unfold __eucjp_wctomb, encoded.
  destruct (Z.eqb_spec buf 0) as [|_]; [done|].
  destruct Hc as [(Hc & H1 & ->)|(hi & lo & -> & Hc)].
  { by destruct (narrow_char c Hc) as (-> & -> & ->). }
  assert (0 < hi < 256 ∧ 0 < lo < 256) as [Hhr Hlr] by (destruct Hc as [Hc|Hc]; class_range).
  destruct (wide_pair hi lo) as [-> ->]; [lia..|]. destruct (Z.eqb_spec hi 0) as [|_]; [lia|]. cbn [negb].
  destruct Hc as [(Hh & _ & Hl & ->)|(Hh & Hl & ->)].
  - by rewrite Hh, Hl.
  - assert (_iseucjp2 lo = false) as -> by class_range. rewrite andb_false_r, Hh.
    assert (Z.lor lo 0x80 = lo + 0x80) as ->.
    { rewrite Z.lor_comm. change 0x80 with (Z.shiftl 1 7) at 1. rewrite lor_disjoint; [lia|lia|]. class_range. }
    by assert (_iseucjp2 (lo + 128) = true) as -> by class_range.
Qed.

Lemma eucjp_decode m s n d c l : s ≠ 0 → __count d = 0 → eucjp_bytes c l → bytes_at m s l →
  Z.of_nat (length l) ≤ n → ∃ d', __count d' = 0 ∧
    __eucjp_mbtowc m s n d = Some (MBR (if c =? 0 then 0 else Z.of_nat (length l)) (Some c) d' false).
Proof.
  intros Hs Hd Hc Hm Hn. unfold __eucjp_mbtowc. destruct (Z.eqb_spec s 0) as [|_]; [done|].
  destruct (eucjp_bytes_ok c l Hc) as (_ & _ & Hlen). destruct (Z.eqb_spec n 0) as [|_]; [lia|].
  destruct Hc as [(Hc & H1 & ->)|(hi & lo & -> & Hc)].
  { apply bytes_at_load in Hm as [Hm _]. exists d. split; [done|]. rewrite Hm. cbn [mbind option_bind].
    rewrite H1, andb_false_r. unfold eucjp_second, eucjp_third. rewrite Hd. cbn [Z.eqb].
    unfold single_byte. by rewrite Hm. }
  assert (0 < hi < 256 ∧ 0 < lo < 256) as [Hhr Hlr] by (destruct Hc as [Hc|Hc]; class_range).
  destruct (Z.eqb_spec (hi * 256 + lo) 0) as [|_]; [lia|].
  destruct Hc as [(Hh & H8f & Hl & ->)|(Hh & Hl & ->)]; cbn [length] in *;
    apply bytes_at_load in Hm as [Hm [Hm2 Hm3]%bytes_at_load]; rewrite Hm; cbn [mbind option_bind]; rewrite Hd.
  - rewrite Hh. cbn [Z.eqb andb]. destruct (Z.leb_spec n 1) as [|_]; [lia|]. rewrite Hm2. cbn [mbind option_bind].
    unfold eucjp_second. cbn [__count set_count set_wchb0 wchb0 Z.eqb]. rewrite u8_small by lia.
    rewrite Hl. destruct (Z.eqb_spec hi 0x8f) as [|_]; [done|]. eexists (set_count 0 _). split; [done|].
    unfold decoded. by rewrite Z.shiftl_mul_pow2 by lia.
  - apply bytes_at_load in Hm3 as [Hm3 _]. change (_iseucjp1 0x8f) with true. cbn [Z.eqb andb].
    destruct (Z.leb_spec n 1) as [|_]; [lia|]. rewrite Hm2. cbn [mbind option_bind].
    unfold eucjp_second. cbn [__count set_count set_wchb0 wchb0 Z.eqb]. rewrite Hh. change (u8 0x8f =? 0x8f) with true.
    cbv iota. destruct (Z.leb_spec n 2) as [|_]; [lia|]. rewrite <- Z.add_assoc in Hm3. change (1 + 1) with 2 in Hm3. rewrite Hm3.
    cbn [mbind option_bind]. unfold eucjp_third. cbn [__count set_count set_wchb1 wchb1 Z.eqb].
    assert (_iseucjp2 (lo + 128) = true) as -> by class_range. rewrite u8_small by lia.
    eexists (set_count 0 _). split; [done|]. unfold decoded. rewrite Z.shiftl_mul_pow2 by lia.
    change 0x7f with (2 ^ 7 - 1). rewrite (field 7 0x80) by (done || class_range). by rewrite Z.add_simpl_r.
Qed.

#[export, refine] Instance eucjp_laws : CodecLaws eucjp :=
  {| valid c := ∃ l, eucjp_bytes c l; in_step e d := __count d = 0 |}.
Proof.
  - exists [0]. left. split_and!; [lia|lia|done|done].
  - done.
  - intros c [l Hc]. by apply (eucjp_bytes_ok c l).
  - done.
  - intros buf e d c Hbuf Hd [l Hc]. destruct (eucjp_bytes_ok c l Hc) as (_ & Hb & Hl).
    exists l, e. split_and!; [by apply eucjp_encode|done|lia|cbn; lia|].
    intros m s n Hs Hm Hn. destruct (eucjp_decode m s n d c l) as (d' & Hd' & E); [done..|lia|].
    by exists d'.
Defined.

(** *** JIS, with its escape sequences *)

#[export] Instance jis : Codec :=
  {| __MBTOWC := __jis_mbtowc; __WCTOMB := __jis_wctomb; MB_CUR_MAX := 8 |}.

Lemma jis_go k m t n i q ptr st ch a q' : i < n → load8 m (t + i) = Some ch →
  jis_lookup JIS_action_table q (jis_class ch) = Some a →
  jis_lookup JIS_state_table q (jis_class ch) = Some q' →
  loop (S k) (jis_round m t n) (i, q, ptr, st) =
    match a with
    | NOOP => loop k (jis_round m t n) (i + 1, state_num q', ptr, st)
    | EMPTY => decoded 0 0 (set_count 0 st)
    | COPY_A => c ← load8 m ptr; decoded (i + 1) c (set_count 0 st)
    | COPY_J1 => loop k (jis_round m t n) (i + 1, state_num q', ptr, set_wchb0 ch st)
    | COPY_J2 => decoded (i + 1) (Z.shiftl (wchb0 st) 8 + ch) (set_count 1 st)
    | MAKE_A => loop k (jis_round m t n) (i + 1, state_num q', t + i + 1, st)
    | ERROR => invalid st
    end.
Proof.
  intros Hi Hl Ha Hq. rewrite loop_S. unfold jis_round at 2. destruct (Z.ltb_spec i n); [|lia].
  rewrite Hl. cbn [mbind option_bind]. rewrite Ha. cbn [mbind option_bind]. rewrite Hq. cbn [mbind option_bind].
  destruct a; try done. by destruct (load8 m ptr).
Qed.

(** The tables on the bytes of a pair, and on a byte that is not the escape character. *)
Lemma jis_pair_rows b : _isjis b = true →
  jis_lookup JIS_action_table 1 (jis_class b) = Some COPY_J1 ∧
  jis_lookup JIS_state_table 1 (jis_class b) = Some JIS_1 ∧
  jis_lookup JIS_action_table 4 (jis_class b) = Some COPY_J2 ∧
  jis_lookup JIS_state_table 4 (jis_class b) = Some JIS.
Proof.
  intros Hb. unfold jis_class. rewrite Hb. destruct (Z.eqb_spec b 0x1b); [class_range|].
  destruct (Z.eqb_spec b 0); [class_range|]. by repeat case_match.
Qed.

Lemma jis_single_rows b : b ≠ 0x1b →
  jis_lookup JIS_action_table 0 (jis_class b) = Some (if b =? 0 then EMPTY else COPY_A) ∧
  jis_lookup JIS_state_table 0 (jis_class b) = Some ASCII.
Proof.
  intros Hb. unfold jis_class. destruct (Z.eqb_spec b 0x1b); [done|].
  destruct (Z.eqb_spec b 0) as [->|]; [done|]. by repeat case_match.
Qed.

(** The bytes of a character in the state [q], and the state after it. *)
Definition jis_bytes (q c : Z) (l : list Z) (q' : Z) : Prop :=
  0 ≤ c < 256 ∧ c ≠ 0x1b ∧ q' = 0 ∧ l = (if q =? 0 then [] else [0x1b; 0x28; 0x42]) ++ [c] ∨
  ∃ hi lo, c = hi * 256 + lo ∧ _isjis hi = true ∧ _isjis lo = true ∧ q' = 1 ∧
    l = (if q =? 0 then [0x1b; 0x24; 0x42] else []) ++ [hi; lo].

Definition jis_valid (c : Z) : Prop :=
  0 ≤ c < 256 ∧ c ≠ 0x1b ∨ ∃ hi lo, c = hi * 256 + lo ∧ _isjis hi = true ∧ _isjis lo = true.

Lemma jis_bytes_of q c : jis_valid c → ∃ l q', jis_bytes q c l q'.
Proof.
  intros [[Hc H1]|(hi & lo & -> & Hh & Hl)]; eexists _, _; [by left|]. right. by exists hi, lo.
Qed.

Lemma jis_bytes_ok q c l q' : jis_bytes q c l q' → char_bytes c l ∧ 0 < Z.of_nat (length l) ≤ 5.
Proof.
  assert (∀ x : Z, 0 < x < 256 → is_byte x ∧ x ≠ 0) as Hx by (unfold is_byte; lia).
  intros [(Hc & H1 & _ & ->)|(hi & lo & -> & Hh & Hl & _ & ->)]; rewrite length_app.
  - split; [|by destruct (q =? 0)]. destruct (char_bytes_single c Hc) as [Hb (l' & E & Hn)].
    split; [apply Forall_app; split; [|done]|].
    + destruct (q =? 0); repeat apply Forall_cons_2; try apply Forall_nil_2; by apply Hx.
    + eexists (_ ++ l'). rewrite <- app_assoc, <- E. split; [done|]. apply Forall_app. split; [|done].
      destruct (q =? 0); repeat apply Forall_cons_2; try apply Forall_nil_2; by apply Hx.
  - split; [|by destruct (q =? 0)]. assert (0 < hi < 256 ∧ 0 < lo < 256) by class_range.
    apply char_bytes_nonzero; [lia|..]; apply Forall_app; (split; [destruct (q =? 0)|]);
      repeat apply Forall_cons_2; try apply Forall_nil_2; by apply Hx; lia.
Qed.

Lemma jis_encode buf e c l q' : buf ≠ 0 → __count e = 0 ∨ __count e = 1 → jis_bytes (__count e) c l q' →
  ∃ e', __jis_wctomb buf c e = WCR (Z.of_nat (length l)) l e' false ∧ __count e' = q'.
Proof.
  intros Hbuf Hq Hc. destruct (jis_bytes_ok _ c l _ Hc) as ([Hb _] & _).
  unfold __jis_wctomb, encoded. destruct (Z.eqb_spec buf 0) as [|_]; [done|].
  destruct Hc as [(Hc & H1 & -> & ->)|(hi & lo & -> & Hh & Hl & -> & ->)].
  - destruct (narrow_char c Hc) as (-> & -> & ->). cbn [negb Z.eqb].
    destruct Hq as [Hq|Hq]; rewrite Hq in *; cbn [Z.eqb negb] in *; rewrite u8_bytes by done;
      [by exists e|by exists (set_count 0 e)].
  - assert (0 < hi < 256 ∧ 0 < lo < 256) as [Hhr Hlr] by class_range.
    destruct (wide_pair hi lo) as [-> ->]; [lia..|]. destruct (Z.eqb_spec hi 0) as [|_]; [lia|].
    rewrite Hh, Hl. cbn [negb andb].
    destruct Hq as [Hq|Hq]; rewrite Hq in *; cbn [Z.eqb negb] in *; rewrite u8_bytes by done;
      [by exists (set_count 1 e)|by exists e].
Qed.

Ltac jis_next E A Q := refine (eq_trans (jis_go _ _ _ _ _ _ _ _ _ _ _ _ E A Q) _); [lia|cbv iota].
Ltac jis_escape E a q := refine (eq_trans (jis_go _ _ _ _ _ _ _ _ _ a q _ E _ _) _); [lia|reflexivity..|cbv iota].

Lemma jis_decode m s n d c l q' : s ≠ 0 → __count d = 0 ∨ __count d = 1 → jis_bytes (__count d) c l q' →
  bytes_at m s l → Z.of_nat (length l) ≤ n → ∃ d', __count d' = q' ∧
    __jis_mbtowc m s n d = Some (MBR (if c =? 0 then 0 else Z.of_nat (length l)) (Some c) d' false).
Proof.
  intros Hs Hq Hc Hm Hn. destruct (jis_bytes_ok _ c l _ Hc) as (_ & Hlen).
  unfold __jis_mbtowc. destruct (Z.eqb_spec s 0) as [|_]; [done|]. destruct (Z.eqb_spec n 0) as [|_]; [lia|].
  pose proof (bytes_at_fuel m s l Hm) as Hf.
  pose proof (λ i b, bytes_at_lookup m s l i b Hm) as Hload.
  pose proof (Hload 0%nat) as L0. pose proof (Hload 1%nat) as L1. pose proof (Hload 2%nat) as L2.
  pose proof (Hload 3%nat) as L3. pose proof (Hload 4%nat) as L4. clear Hload Hm.
  destruct Hc as [(Hc & H1 & -> & ->)|(hi & lo & -> & Hh & Hl & -> & ->)].
  - destruct (jis_single_rows c H1) as [R1 R2]. exists (set_count 0 d). split; [done|].
    destruct Hq as [Hq|Hq]; rewrite Hq in *; cbn [Z.eqb app length] in *.
    + destruct (fuel m) as [|[|k]]; [lia..|]. specialize (L0 _ eq_refl). jis_next L0 R1 R2. rewrite Z.add_0_r in L0.
      destruct (Z.eqb_spec c 0) as [->|]; [done|]. by rewrite L0.
    + destruct (fuel m) as [|[|[|[|[|k]]]]]; [lia..|].
      specialize (L0 _ eq_refl). specialize (L1 _ eq_refl). specialize (L2 _ eq_refl). specialize (L3 _ eq_refl).
      jis_escape L0 NOOP J_ESC.
      jis_escape L1 NOOP J_ESC_BR.
      jis_escape L2 MAKE_A ASCII.
      jis_next L3 R1 R2.
      destruct (Z.eqb_spec c 0) as [->|]; [done|].
      match goal with |- context [load8 m ?a] => replace a with (s + Z.of_nat 3) by lia end. by rewrite L3.
  - destruct (jis_pair_rows hi Hh) as (A1 & Q1 & _ & _). destruct (jis_pair_rows lo Hl) as (_ & _ & A2 & Q2).
    assert (0 < hi < 256 ∧ 0 < lo < 256) as [Hhr Hlr] by class_range.
    destruct (Z.eqb_spec (hi * 256 + lo) 0) as [|_]; [lia|]. exists (set_count 1 (set_wchb0 hi d)). split; [done|].
    destruct Hq as [Hq|Hq]; rewrite Hq in *; cbn [Z.eqb app length] in *.
    + destruct (fuel m) as [|[|[|[|[|[|k]]]]]]; [lia..|].
      specialize (L0 _ eq_refl). specialize (L1 _ eq_refl). specialize (L2 _ eq_refl). specialize (L3 _ eq_refl).
      specialize (L4 _ eq_refl).
      jis_escape L0 NOOP A_ESC.
      jis_escape L1 NOOP A_ESC_DL.
      jis_escape L2 NOOP JIS.
      jis_next L3 A1 Q1. jis_next L4 A2 Q2. unfold decoded. cbn [set_wchb0 wchb0].
      by rewrite u8_small, Z.shiftl_mul_pow2 by lia.
    + destruct (fuel m) as [|[|[|k]]]; [lia..|]. specialize (L0 _ eq_refl). specialize (L1 _ eq_refl).
      jis_next L0 A1 Q1. jis_next L1 A2 Q2. unfold decoded. cbn [set_wchb0 wchb0].
      by rewrite u8_small, Z.shiftl_mul_pow2 by lia.
Qed.

#[export, refine] Instance jis_laws : CodecLaws jis :=
  {| valid := jis_valid; in_step e d := __count e = __count d ∧ (__count d = 0 ∨ __count d = 1) |}.
Proof.
  - left. lia.
  - done.
  - intros c [Hc|(hi & lo & -> & Hh & Hl)]; [lia|]. class_range.
  - intros e d -> ->. auto.
  - intros buf e d c Hbuf [Hed Hq] Hc. destruct (jis_bytes_of (__count d) c Hc) as (l & q' & Hl).
    destruct (jis_bytes_ok _ c l _ Hl) as (Hb & Hlen).
    destruct (jis_encode buf e c l q') as (e' & E & He'); [done|by rewrite Hed..|].
    exists l, e'. split_and!; [done|done|lia|cbn; lia|]. intros m s n Hs Hm Hn.
    destruct (jis_decode m s n d c l q') as (d' & Hd' & Ed); [done..|lia|]. exists d'.
    split; [done|]. split; [congruence|]. rewrite Hd'.
    destruct Hl as [(_ & _ & -> & _)|(? & ? & _ & _ & _ & -> & _)]; auto.
Defined.

(** ** Theorem *)

(** Wide strings survive the way through a multibyte string, in every
    locale whose decoder undoes its encoder (shown here for ASCII, UTF-8,
    Shift-JIS, EUC-JP and JIS with its shift states). With MB_CUR_MAX bytes of
    room for each character [wcstombs] writes a string without a zero byte
    inside, terminates it, changes nothing else and returns its length, the
    same it returns for a null pointer; and [mbstowcs] returns the number of
    characters and writes exactly the wide string and its terminator. *)
Theorem wcstombs_mbstowcs_roundtrip {C : Codec} {CL : CodecLaws C} m ws pwcs s n pw n2 :
  Forall valid ws → Forall (λ c, c ≠ 0) ws → wide m pwcs (ws ++ [0]) → pwcs mod 4 = 0 →
  MB_CUR_MAX * (Z.of_nat (length ws) + 1) ≤ n → mapped m s n → 0 < s →
  s + n ≤ pwcs ∨ pwcs + 4 * (Z.of_nat (length ws) + 1) ≤ s →
  mapped m pw (4 * (Z.of_nat (length ws) + 1)) → pw mod 4 = 0 → 0 < pw →
  s + n ≤ pw ∨ pw + 4 * (Z.of_nat (length ws) + 1) ≤ s → Z.of_nat (length ws) < n2 →
  ∃ l m1 m2, Forall (λ b, b ≠ 0) l ∧ updated m s (l ++ [0]) m1 ∧
    wcstombs m s pwcs n = Some (m1, Z.of_nat (length l)) ∧
    wcstombs m 0 pwcs n = Some (m, Z.of_nat (length l)) ∧
    mbstowcs m1 pw s n2 = Some (m2, Z.of_nat (length ws)) ∧ updated m1 pw (wide_bytes (ws ++ [0])) m2.
Proof.
  intros Hv Hz Hw Ha Hn Hs Hs0 Hd Hp Hpa Hp0 Hd2 Hn2.
  assert (in_step mb_initial mb_initial) as Hst by (by apply in_step_start).
  destruct (encode_all_bytes ws _ _ Hst Hv Hz) as (l & El & Hlz & Hlb & Hll).
  assert (mapped m s (Z.of_nat (length (l ++ [0])))) as Hsl
    by (rewrite length_app; apply (mapped_sub _ _ _ _ _ Hs); cbn [length]; lia).
  assert (length ws < fuel m)%nat as Hf.
  { pose proof (bytes_at_fuel _ _ _ Hw) as H. rewrite length_wide_bytes, length_app in H. lia. }
  assert (Forall is_byte (l ++ [0])) as Hlb0 by (apply Forall_app; split; [done|by apply Forall_singleton]).
  set (m1 := write_bytes m s (l ++ [0])).
  exists l, m1, (write_bytes m1 pw (wide_bytes (ws ++ [0]))).
  split_and!; [done|by apply write_bytes_updated|..|apply write_bytes_updated, wide_bytes_bytes].
  - destruct (wcstombs_loop s n ws (fuel m) _ _ m s pwcs n Hst Hv Hz Hw Ha Hf) as [e' E];
      rewrite ?El, ?length_app; cbn [length]; [lia|by rewrite length_app in Hsl|lia|].
    unfold wcstombs, _wcstombs_r. destruct (Z.eqb_spec s 0); [lia|]. rewrite E, El, length_app. cbn.
    do 2 f_equal. lia.
  - destruct (wcstombs_size_loop ws (fuel m) _ _ m pwcs 0 Hst Hv Hz Hw Ha Hf) as [e' E].
    unfold wcstombs, _wcstombs_r. cbn [Z.eqb]. rewrite E, El, length_app. cbn. do 2 f_equal. lia.
  - destruct (mbstowcs_loop ws (fuel m1) _ _ m1 pw s n2 0 Hst Hv Hz) as [d' E]; try done.
    + rewrite El. by apply bytes_at_write_bytes_eq.
    + assert (mapped m1 pw (4 * (Z.of_nat (length ws) + 1))) as H%mapped_size by by apply mapped_write_bytes.
      unfold fuel. lia.
    + by apply mapped_write_bytes.
    + rewrite El, length_app. cbn [length]. lia.
    + unfold mbstowcs, _mbstowcs_r. destruct (Z.eqb_spec pw 0); [lia|]. by rewrite E.
Qed.

(** The wide string at 64, room for bytes at 16 and for wide characters at 128. *)
Definition demo_wide (ws : list Z) : mem :=
  mk_mem 16 (replicate 48 0 ++ wide_bytes (ws ++ [0]) ++ replicate 64 0).

(** The euro sign and a letter, by way of UTF-8. *)
Lemma wcstombs_mbstowcs_roundtrip_witness : ∃ (l : list Z) m1 m2,
  wcstombs (C := utf8_codec) (demo_wide [0x20ac; 0x41]) 16 64 18 = Some (m1, Z.of_nat (length l)) ∧
  mbstowcs (C := utf8_codec) m1 128 16 3 = Some (m2, 2).
Proof.
  destruct (wcstombs_mbstowcs_roundtrip (C := utf8_codec) (demo_wide [0x20ac; 0x41]) [0x20ac; 0x41]
    64 16 18 128 3) as (l & m1 & m2 & _ & _ & E1 & _ & E2 & _).
  - repeat apply Forall_cons_2; [split; lia..|apply Forall_nil_2].
  - mem_witness.
  - mem_witness.
  - done.
  - cbn. lia.
  - mem_witness.
  - lia.
  - cbn. lia.
  - mem_witness.
  - done.
  - lia.
  - cbn. lia.
  - cbn. lia.
  - exists l, m1, m2. split; [exact E1|exact E2].
Defined.
