(* ===== verification/Calendar.v ===== *)
(** * The calendar

    Models newlib/libc/time: gmtime_r.c, month_lengths.c and the constants of
    local.h. [time_t] and [long] have 64 bits, [int] and [unsigned] 32; the
    conversions between them are written out. The reference is the Gregorian
    calendar, extended to all years: the length of the years and months, and
    the number of a day. *)
From S2P Require Import Prelude.

(** ** gmtime_r *)

Record tm := Tm {
  tm_sec : Z; tm_min : Z; tm_hour : Z; tm_mday : Z; tm_mon : Z; tm_year : Z;
  tm_wday : Z; tm_yday : Z; tm_isdst : Z }.

Definition SECSPERMIN : Z := 60.
Definition MINSPERHOUR : Z := 60.
Definition HOURSPERDAY : Z := 24.
Definition SECSPERHOUR : Z := SECSPERMIN * MINSPERHOUR.
Definition SECSPERDAY : Z := SECSPERHOUR * HOURSPERDAY.
Definition DAYSPERWEEK : Z := 7.
Definition YEAR_BASE : Z := 1900.
Definition EPOCH_YEAR : Z := 1970.
Definition EPOCH_WDAY : Z := 4.

Definition EPOCH_ADJUSTMENT_DAYS : Z := 719468.
Definition ADJUSTED_EPOCH_YEAR : Z := 0.
Definition ADJUSTED_EPOCH_WDAY : Z := 3.
Definition DAYS_PER_ERA : Z := 146097.
Definition DAYS_PER_CENTURY : Z := 36524.
Definition DAYS_PER_4_YEARS : Z := 3 * 365 + 366.
Definition DAYS_PER_YEAR : Z := 365.
Definition DAYS_IN_JANUARY : Z := 31.
Definition DAYS_IN_FEBRUARY : Z := 28.
Definition YEARS_PER_ERA : Z := 400.

(** The remainder of C, on an [int] or an [unsigned]. *)
Definition isleap (y : Z) : bool :=
  (Z.rem y 4 =? 0) && negb (Z.rem y 100 =? 0) || (Z.rem y 400 =? 0).

Definition __month_lengths (leap : bool) : list Z :=
  [31; if leap then 29 else 28; 31; 30; 31; 30; 31; 31; 30; 31; 30; 31].

(** The date of a day of an era: the year of the era, the month, the day of the
    month, and the day of the year. *)
Definition era_date (eraday : Z) : Z * Z * Z * Z :=
  let erayear := u32 (u64 (u64 (u64 (eraday - eraday / (DAYS_PER_4_YEARS - 1)) +
    eraday / DAYS_PER_CENTURY) - eraday / (DAYS_PER_ERA - 1)) / 365) in
  let yearday := u32 (eraday - u32 (u32 (u32 (DAYS_PER_YEAR * erayear) + erayear / 4) - erayear / 100)) in
  let month := u32 (5 * yearday + 2) / 153 in
  let day := u32 (yearday - u32 (153 * month + 2) / 5 + 1) in
  let month := u32 (month + (if month <? 10 then 2 else -10)) in
  let yday :=
    if DAYS_PER_YEAR - DAYS_IN_JANUARY - DAYS_IN_FEBRUARY <=? yearday
    then u32 (yearday - (DAYS_PER_YEAR - DAYS_IN_JANUARY - DAYS_IN_FEBRUARY))
    else u32 (yearday + DAYS_IN_JANUARY + DAYS_IN_FEBRUARY + (if isleap erayear then 1 else 0)) in
  (erayear, month, day, yday).

Definition gmtime_r (lcltime : Z) : tm :=
  let days := Z.quot lcltime SECSPERDAY + EPOCH_ADJUSTMENT_DAYS in
  let rem := Z.rem lcltime SECSPERDAY in
  let '(rem, days) := if rem <? 0 then (rem + SECSPERDAY, days - 1) else (rem, days) in
  let hour := s32 (Z.quot rem SECSPERHOUR) in
  let rem := Z.rem rem SECSPERHOUR in
  let min := s32 (Z.quot rem SECSPERMIN) in
  let sec := s32 (Z.rem rem SECSPERMIN) in
  let weekday := s32 (Z.rem (ADJUSTED_EPOCH_WDAY + days) DAYSPERWEEK) in
  let weekday := if weekday <? 0 then weekday + DAYSPERWEEK else weekday in
  let era := s32 (Z.quot (if 0 <=? days then days else days - (DAYS_PER_ERA - 1)) DAYS_PER_ERA) in
  let eraday := u64 (days - era * DAYS_PER_ERA) in
  let '(erayear, month, day, yday) := era_date eraday in
  let year := s32 (ADJUSTED_EPOCH_YEAR + erayear + s32 (era * YEARS_PER_ERA) + (if month <=? 1 then 1 else 0)) in
  Tm sec min hour (s32 day) (s32 month) (s32 (year - YEAR_BASE)) weekday (s32 yday) 0.

(** ** The Gregorian calendar *)

Definition leap (y : Z) : bool :=
  (y mod 4 =? 0) && negb (y mod 100 =? 0) || (y mod 400 =? 0).

Definition year_length (y : Z) : Z := if leap y then 366 else 365.
Definition month_length (y m : Z) : Z := nth (Z.to_nat m) (__month_lengths (leap y)) 0.

(** The days before a month of a year, and before a year, from the first of January 1970. *)
Definition before_month (y m : Z) : Z :=
  foldr Z.add 0 (take (Z.to_nat m) (__month_lengths (leap y))).
Definition before_year (y : Z) : Z :=
  365 * (y - 1970) + ((y - 1) / 4 - 1969 / 4) - ((y - 1) / 100 - 1969 / 100) + ((y - 1) / 400 - 1969 / 400).
Definition day_number (y m d : Z) : Z := before_year y + before_month y m + (d - 1).

(** A date and a time of day. *)
Record valid_tm (t : tm) : Prop := {
  v_sec : 0 ≤ tm_sec t < 60; v_min : 0 ≤ tm_min t < 60; v_hour : 0 ≤ tm_hour t < 24;
  v_mon : 0 ≤ tm_mon t < 12;
  v_mday : 1 ≤ tm_mday t ≤ month_length (tm_year t + 1900) (tm_mon t) }.

(** The day, and the second, that a structure means when its fields may be out of range. *)
Definition day_of (t : tm) : Z :=
  day_number (tm_year t + 1900 + tm_mon t / 12) (tm_mon t mod 12) (tm_mday t).
Definition instant (t : tm) : Z :=
  day_of t * 86400 + tm_hour t * 3600 + tm_min t * 60 + tm_sec t.

(** The day of the week and of the year that belong to the date. *)
Definition derived (t : tm) : Prop :=
  tm_wday t = (day_of t + 4) mod 7 ∧
  tm_yday t = before_month (tm_year t + 1900) (tm_mon t) + tm_mday t - 1.

Lemma before_year_next y : before_year (y + 1) = before_year y + year_length y.
Proof.
  unfold before_year, year_length, leap. rewrite Z.add_simpl_r.
  destruct (Z.eqb_spec (y mod 4) 0), (Z.eqb_spec (y mod 100) 0), (Z.eqb_spec (y mod 400) 0); cbn [andb orb negb];
    Z.to_euclidean_division_equations; lia.
Qed.

(** ** The date of a day *)

(** An era repeats the calendar. *)
Lemma leap_era y e : leap (y + 400 * e) = leap y.
Proof.
  unfold leap.
  assert ((y + 400 * e) mod 4 = y mod 4) as -> by (rewrite <- (Z.mod_add y (100 * e) 4) by lia; f_equal; lia).
  assert ((y + 400 * e) mod 100 = y mod 100) as -> by (rewrite <- (Z.mod_add y (4 * e) 100) by lia; f_equal; lia).
  by assert ((y + 400 * e) mod 400 = y mod 400) as -> by (rewrite <- (Z.mod_add y e 400) by lia; f_equal; lia).
Qed.

Lemma day_number_era y m d e : day_number (y + 400 * e) m d = day_number y m d + 146097 * e.
Proof.
  unfold day_number, before_month. rewrite leap_era. unfold before_year.
  replace ((y + 400 * e - 1) / 4) with ((y - 1) / 4 + 100 * e)
    by (rewrite <- Z.div_add by lia; f_equal; lia).
  replace ((y + 400 * e - 1) / 100) with ((y - 1) / 100 + 4 * e)
    by (rewrite <- Z.div_add by lia; f_equal; lia).
  replace ((y + 400 * e - 1) / 400) with ((y - 1) / 400 + e)
    by (rewrite <- Z.div_add by lia; f_equal; lia). lia.
Qed.

(** The year of a day of an era that starts on the first of March, and the day of that year. *)
Definition era_year (e : Z) : Z := (e - e / 1460 + e / 36524 - e / 146096) / 365.
Definition march_days (y : Z) : Z := 365 * y + y / 4 - y / 100.

Lemma era_year_ok e : 0 ≤ e < 146097 →
  0 ≤ era_year e < 400 ∧ 0 ≤ e - march_days (era_year e) < year_length (era_year e + 1).
Proof.
  intros He. unfold era_year, march_days, year_length, leap.
  assert (0 ≤ e / 36524 ≤ 4) by (Z.to_euclidean_division_equations; lia).
  assert (e / 146096 = if decide (e = 146096) then 1 else 0) as ->
    by (case_decide; Z.to_euclidean_division_equations; lia).
  case_decide; [subst e; done|].
  pose proof (Z.div_mod e 36524). pose proof (Z.mod_pos_bound e 36524).
  set (b := e / 36524) in *. assert (b = 0 ∨ b = 1 ∨ b = 2 ∨ b = 3) as Hb by lia.
  set (y := (e - e / 1460 + b - 0) / 365).
  assert (0 ≤ e - e / 1460 + b < 365 * 400). { Z.to_euclidean_division_equations; lia. }
  assert (100 * b ≤ y < 100 * b + 100).
  { subst y. Z.to_euclidean_division_equations; lia. }
  assert (y / 100 = b) by (Z.to_euclidean_division_equations; lia).
  assert (0 ≤ e - (365 * y + y / 4 - b) ≤ 365) as Hyd
    by (subst y; clearbody b; Z.to_euclidean_division_equations; lia).
  replace (y / 100) with b by done. split; [lia|].
  assert (e - (365 * y + y / 4 - b) = 365 → (y + 1) mod 4 = 0 ∧ ((y + 1) mod 100 = 0 → (y + 1) mod 400 = 0)) as Hl.
  { subst y. clearbody b. intros E. split; Z.to_euclidean_division_equations; lia. }
  destruct (Z.eq_dec (e - (365 * y + y / 4 - b)) 365) as [E|]; [|by destruct (_ || _); lia].
  destruct (Hl E) as [-> H400]. destruct (Z.eqb_spec ((y + 1) mod 100) 0) as [E100|]; [|cbn; lia].
  rewrite (H400 E100). cbn. lia.
Qed.

(** The month and the day of a day of such a year, as the code finds them. *)
Definition march_date (yearday : Z) : Z * Z :=
  let month := u32 (5 * yearday + 2) / 153 in
  let day := u32 (yearday - u32 (153 * month + 2) / 5 + 1) in
  (u32 (month + (if month <? 10 then 2 else -10)), day).

(** With the length of February: from March on in the first calendar year, then in the next. *)
Definition march_check (b : bool) (yd : Z) : bool :=
  let '(mon, day) := march_date yd in
  let before := foldr Z.add 0 (take (Z.to_nat mon) (__month_lengths b)) in
  (0 <=? mon) && (mon <? 12) && (1 <=? day) && (day <=? nth (Z.to_nat mon) (__month_lengths b) 0) &&
  (if yd <? 306 then (2 <=? mon) && (before + day - 1 =? yd + 59 + (if b then 1 else 0))
   else (mon <=? 1) && (before + day - 1 =? yd - 306)) || (yd =? 365) && negb b.

Lemma march_checked b yd : 0 ≤ yd < 366 → march_check b yd = true.
Proof.
  intros Hyd.
  assert (forallb (λ yd, march_check true yd && march_check false yd) (seqZ 0 366) = true) as H
    by (vm_compute; reflexivity).
  rewrite forallb_forall in H. specialize (H yd).
  destruct (andb_prop _ _ (H ltac:(apply list_elem_of_In, elem_of_seqZ; lia))). by destruct b.
Qed.

Lemma march_length b mon : 0 ≤ mon < 12 → nth (Z.to_nat mon) (__month_lengths b) 0 ≤ 31.
Proof.
  intros Hm. assert (Z.to_nat mon < 12)%nat as H by lia. revert H. generalize (Z.to_nat mon). intros n Hn.
  do 12 (destruct n as [|n]; [destruct b; cbn; lia|]). lia.
Qed.

Lemma isleap_leap y : 0 ≤ y → isleap y = leap y.
Proof. intros Hy. unfold isleap, leap. by rewrite !Z.rem_mod_nonneg by lia. Qed.

Lemma era_date_eq e : 0 ≤ e < 146097 →
  let y := era_year e in let yd := e - march_days y in
  era_date e = (y, (march_date yd).1, (march_date yd).2,
    if 306 <=? yd then yd - 306 else yd + 59 + (if leap y then 1 else 0)).
Proof.
  intros He y yd. destruct (era_year_ok e He) as [Hy Hyd]. fold y in Hy, Hyd. fold yd in Hyd.
  assert (0 ≤ yd < 366) as Hr by (unfold year_length in Hyd; destruct (leap _); lia).
  assert (0 ≤ e / 1460 ≤ e ∧ 0 ≤ e / 36524 ≤ 4 ∧ 0 ≤ e / 146096 ≤ 1 ∧ 0 ≤ e - e / 1460)
    by (Z.to_euclidean_division_equations; lia).
  assert (0 ≤ march_days y ≤ 365 * y + y / 4) by (unfold march_days; Z.to_euclidean_division_equations; lia).
  unfold era_date, DAYS_PER_4_YEARS, DAYS_PER_CENTURY, DAYS_PER_ERA, DAYS_PER_YEAR, DAYS_IN_JANUARY, DAYS_IN_FEBRUARY.
  change (3 * 365 + 366 - 1) with 1460. change (146097 - 1) with 146096. change (365 - 31 - 28) with 306.
  assert (0 ≤ e - e / 1460 + e / 36524 - e / 146096) by (Z.to_euclidean_division_equations; lia).
  rewrite (u64_small (e - e / 1460)), (u64_small (e - e / 1460 + e / 36524)),
    (u64_small (e - e / 1460 + e / 36524 - e / 146096)) by lia.
  change ((e - e / 1460 + e / 36524 - e / 146096) / 365) with y. rewrite (u32_small y) by lia.
  assert (0 ≤ y / 4 < 100 ∧ 0 ≤ y / 100 < 4) by (Z.to_euclidean_division_equations; lia).
  assert (march_days y = 365 * y + y / 4 - y / 100) as Em by done.
  rewrite (u32_small (365 * y)), (u32_small (365 * y + y / 4)), (u32_small (365 * y + y / 4 - y / 100)) by lia.
  change (e - (365 * y + y / 4 - y / 100)) with yd. rewrite (u32_small yd), isleap_leap by lia.
  f_equal. destruct (Z.leb_spec 306 yd).
  - by rewrite u32_small by lia.
  - rewrite u32_small by (destruct (leap y); lia). destruct (leap y); lia.
Qed.

(** Where the years of March start. *)
Lemma march_start y : 0 ≤ y < 400 → before_year y + 719468 = march_days y - 59 - (if leap y then 1 else 0).
Proof.
  intros Hy. unfold before_year, march_days, leap.
  change (1969 / 4) with 492. change (1969 / 100) with 19. change (1969 / 400) with 4.
  destruct (Z.eqb_spec (y mod 4) 0), (Z.eqb_spec (y mod 100) 0), (Z.eqb_spec (y mod 400) 0); cbn [andb orb negb];
    Z.to_euclidean_division_equations; lia.
Qed.

Lemma era_date_ok e : 0 ≤ e < 146097 → ∃ y mon day yday, era_date e = (y, mon, day, yday) ∧
  0 ≤ y < 400 ∧ 0 ≤ mon < 12 ∧ 0 ≤ yday < 366 ∧ day ≤ 31 ∧
  let Y := y + (if mon <=? 1 then 1 else 0) in
  1 ≤ day ≤ month_length Y mon ∧ day_number Y mon day + 719468 = e ∧ yday = before_month Y mon + day - 1.
Proof.
  intros He. rewrite era_date_eq by done. destruct (era_year_ok e He) as [Hy Hyd].
  set (y := era_year e) in *. set (yd := e - march_days y) in *.
  assert (0 ≤ yd < 366) as Hr by (unfold year_length in Hyd; destruct (leap _); lia).
  pose proof (march_start y Hy) as Hst. pose proof (before_year_next y) as Hnext.
  pose proof (march_checked (leap y) yd Hr) as C1. pose proof (march_checked (leap (y + 1)) yd Hr) as C2.
  unfold march_check in C1, C2. destruct (march_date yd) as [mon day]. cbn [fst snd] in *.
  exists y, mon, day. eexists. split; [done|].
  unfold day_number, before_month, month_length, year_length in *.
  destruct (Z.ltb_spec yd 306) as [Hlt|Hge].
  - destruct (Z.leb_spec 306 yd); [lia|]. destruct (Z.eqb_spec yd 365); [lia|]. rewrite orb_false_r in C1. zb.
    assert (0 ≤ mon < 12) as Hmon by lia. pose proof (march_length (leap y) mon Hmon).
    destruct (Z.leb_spec mon 1); [lia|]. rewrite Z.add_0_r. destruct (leap y); lia.
  - destruct (Z.leb_spec 306 yd); [|lia].
    assert ((yd =? 365) && negb (leap (y + 1)) = false) as E
      by (destruct (Z.eqb_spec yd 365), (leap (y + 1)); done || lia).
    rewrite E, orb_false_r in C2. zb.
    assert (0 ≤ mon < 12) as Hmon by lia. pose proof (march_length (leap (y + 1)) mon Hmon).
    destruct (Z.leb_spec mon 1); [|lia]. destruct (leap y); lia.
Qed.

Lemma quot_floor a b : 0 < b → Z.quot (if 0 <=? a then a else a - (b - 1)) b = a / b.
Proof.
  intros Hb. destruct (Z.leb_spec 0 a); [by apply Z.quot_div_nonneg|].
  replace (a - (b - 1)) with (- (b - 1 - a)) by lia. rewrite Z.quot_opp_l, Z.quot_div_nonneg by lia.
  pose proof (Z.div_mod (b - 1 - a) b). pose proof (Z.mod_pos_bound (b - 1 - a) b).
  apply (Z.div_unique_pos a b _ (b - 1 - (b - 1 - a) mod b)); lia.
Qed.

Lemma rem_floor a b : 0 < b →
  (if Z.rem a b <? 0 then (Z.rem a b + b, Z.quot a b - 1) else (Z.rem a b, Z.quot a b)) = (a mod b, a / b).
Proof.
  intros Hb. pose proof (Z.quot_rem a b ltac:(lia)) as E. pose proof (Z.rem_bound_abs a b ltac:(lia)).
  destruct (Z.ltb_spec (Z.rem a b) 0); f_equal.
  - apply (Z.mod_unique_pos a b (Z.quot a b - 1)); lia.
  - apply (Z.div_unique_pos a b _ (Z.rem a b + b)); lia.
  - apply (Z.mod_unique_pos a b (Z.quot a b)); lia.
  - apply (Z.div_unique_pos a b _ (Z.rem a b)); lia.
Qed.

Lemma rem_mod a b : 0 < b → (if Z.rem a b <? 0 then Z.rem a b + b else Z.rem a b) = a mod b.
Proof. intros Hb. pose proof (rem_floor a b Hb) as E. destruct (_ <? 0); congruence. Qed.

(** The fields of the time of day. *)
Lemma time_of_day r : 0 ≤ r < 86400 →
  s32 (Z.quot r 3600) = r / 3600 ∧ s32 (Z.quot (Z.rem r 3600) 60) = r mod 3600 / 60 ∧
  s32 (Z.rem (Z.rem r 3600) 60) = r mod 3600 mod 60.
Proof.
  intros Hr. pose proof (Z.mod_pos_bound r 3600 ltac:(lia)).
  rewrite (Z.quot_div_nonneg r), (Z.rem_mod_nonneg r) by lia.
  rewrite (Z.quot_div_nonneg (r mod 3600)), (Z.rem_mod_nonneg (r mod 3600)) by lia.
  split_and!; apply s32_small; Z.to_euclidean_division_equations; lia.
Qed.

Lemma gmtime_r_ok t : - 2 ^ 55 ≤ t < 2 ^ 55 →
  let r := gmtime_r t in valid_tm r ∧ instant r = t ∧ derived r ∧ tm_isdst r = 0 ∧ - 2 ^ 31 < tm_year r < 2 ^ 31.
Proof.
  intros Ht. unfold gmtime_r, SECSPERDAY, SECSPERHOUR, SECSPERMIN, HOURSPERDAY, MINSPERHOUR.
  change (60 * 60 * 24) with 86400. change (60 * 60) with 3600.
  assert ((if Z.rem t 86400 <? 0
    then (Z.rem t 86400 + 86400, Z.quot t 86400 + EPOCH_ADJUSTMENT_DAYS - 1)
    else (Z.rem t 86400, Z.quot t 86400 + EPOCH_ADJUSTMENT_DAYS)) = (t mod 86400, t / 86400 + 719468)) as ->.
  { pose proof (rem_floor t 86400 ltac:(lia)) as E. unfold EPOCH_ADJUSTMENT_DAYS.
    destruct (_ <? 0); injection E as -> <-; f_equal; lia. }
  pose proof (Z.mod_pos_bound t 86400 ltac:(lia)) as Hrem.
  destruct (time_of_day (t mod 86400) Hrem) as (-> & -> & ->).
  set (days := t / 86400 + 719468).
  assert (- 2 ^ 39 < days < 2 ^ 39) as Hdays by (subst days; Z.to_euclidean_division_equations; lia).
  unfold DAYS_PER_ERA. rewrite quot_floor by lia.
  assert (- 2 ^ 23 < days / 146097 < 2 ^ 23) as Hera by (Z.to_euclidean_division_equations; lia).
  rewrite (s32_small (days / 146097)) by lia.
  pose proof (Z.div_mod days 146097 ltac:(lia)) as Ed. pose proof (Z.mod_pos_bound days 146097 ltac:(lia)) as Hmod.
  replace (days - days / 146097 * 146097) with (days mod 146097) by lia. rewrite u64_small by lia.
  destruct (era_date_ok (days mod 146097) Hmod) as (y & mon & day & yday & -> & Hy & Hm & Hyd & Hd & H1 & H2 & H3).
  unfold ADJUSTED_EPOCH_YEAR, YEARS_PER_ERA, YEAR_BASE, ADJUSTED_EPOCH_WDAY, DAYSPERWEEK.
  set (Y := y + (if mon <=? 1 then 1 else 0)) in *.
  assert (0 ≤ Y ≤ 400) as HY by (subst Y; destruct (mon <=? 1); lia).
  rewrite (s32_small (days / 146097 * 400)) by lia.
  replace (0 + y + days / 146097 * 400 + (if mon <=? 1 then 1 else 0)) with (Y + 400 * (days / 146097)) by (subst Y; lia).
  rewrite (s32_small (Y + _)), (s32_small (_ - 1900)), (s32_small day), (s32_small mon), (s32_small yday) by lia.
  pose proof (rem_mod (3 + days) 7 ltac:(lia)) as Ew.
  assert (-7 < Z.rem (3 + days) 7 < 7) as Hw by (pose proof (Z.rem_bound_abs (3 + days) 7); lia).
  rewrite (s32_small (Z.rem _ _)), Ew by lia. clear Ew Hw.
  set (era := days / 146097) in *.
  assert (day_number (Y + 400 * era) mon day = t / 86400) as En by (rewrite day_number_era; lia).
  assert (mon / 12 = 0 ∧ mon mod 12 = mon) as [Em1 Em2] by (split; [apply Z.div_small|apply Z.mod_small]; lia).
  unfold instant, derived, day_of. cbn [tm_sec tm_min tm_hour tm_mday tm_mon tm_year tm_wday tm_yday tm_isdst].
  rewrite Z.sub_add, Em1, Em2, Z.add_0_r, En. split_and!; try done; try lia.
  - split; cbn [tm_sec tm_min tm_hour tm_mday tm_mon tm_year]; try (Z.to_euclidean_division_equations; lia).
    rewrite Z.sub_add. unfold month_length in *. by rewrite leap_era.
  - Z.to_euclidean_division_equations; lia.
  - subst days. replace (3 + (t / 86400 + 719468)) with (t / 86400 + 4 + 102781 * 7) by lia. by rewrite Z.mod_add.
  - rewrite H3. unfold before_month. by rewrite leap_era.
Qed.

(** ** Theorem *)

(** C28. The broken-down time. For every time of magnitude up to 2^55 seconds,
    before the epoch as well, [gmtime_r] yields a valid date and time of day
    in the Gregorian calendar, leap years and centuries included: counted back
    to seconds it is the given time; the day of the week and the day of the
    year belong to the date; and the year fits an [int]. *)
Theorem gmtime_r_correct t : - 2 ^ 55 ≤ t < 2 ^ 55 →
  valid_tm (gmtime_r t) ∧ instant (gmtime_r t) = t ∧ derived (gmtime_r t) ∧
  tm_isdst (gmtime_r t) = 0 ∧ - 2 ^ 31 < tm_year (gmtime_r t) < 2 ^ 31.
Proof. exact (gmtime_r_ok t). Qed.

(** The last second of February 1900, not a leap year. *)
Lemma gmtime_r_correct_witness :
  valid_tm (gmtime_r (-2203891201)) ∧ tm_mday (gmtime_r (-2203891201)) = 28 ∧
  tm_mon (gmtime_r (-2203891201)) = 1.
Proof. split; [apply (gmtime_r_correct (-2203891201)); lia|]. vm_compute. split; reflexivity. Defined.
