(* ===== verification/Tzset.v ===== *)
(** * Time zones

    Models newlib/libc/time: tzcalc_limits.c, the times of a year at which a zone
    changes its offset, and tzset_r.c, which reads the environment variable TZ; and
    of [sscanf] (stdio/vfscanf.c) the two conversions tzset_r.c uses. The statics of
    the C files are a record: the zone that [__gettzinfo] returns, [_timezone],
    [_daylight], [_tzname], the two buffers for names and the copy of TZ that was
    read last. TZ is an argument, and so is whether the allocation of its copy
    succeeds. Then: the reading is total but for one case, what it leaves is well
    formed, and a second call with the same TZ changes nothing. *)
From stdpp Require Import strings.
From S2P Require Import Prelude Memory Ctype Strto Calendar.

(** ** The time zone *)

Record tzrule := TzRule {
  tz_ch : Z; tz_m : Z; tz_n : Z; tz_d : Z; tz_s : Z; tz_change : Z; tz_offset : Z }.
Record tzinfo := TzInfo { __tznorth : bool; __tzyear : Z; tzrule0 : tzrule; tzrule1 : tzrule }.

Definition set_change (r : tzrule) (c : Z) : tzrule :=
  TzRule (tz_ch r) (tz_m r) (tz_n r) (tz_d r) (tz_s r) c (tz_offset r).

Definition EPOCH_YEARS_SINCE_LEAP : Z := 2.
Definition EPOCH_YEARS_SINCE_CENTURY : Z := 70.
Definition EPOCH_YEARS_SINCE_LEAP_CENTURY : Z := 370.

(** The array access [ip[j-1]], with an index in bounds. *)
Definition at_index (l : list Z) (i : Z) : option Z :=
  if 0 <=? i then l !! Z.to_nat i else None.

(** [for (j = 1; j < m; ++j) days += ip[j-1];] with [j] after the loop. *)
Definition add_months (ip : list Z) (m days : Z) : option (Z * Z) :=
  loop 13 (λ '(j, days),
    if j <? m then d ← at_index ip (j - 1); continue (j + 1, s32 (days + d))
    else leave (j, days)) (1, days).

(** [while (m_day >= ip[j-1]) m_day -= DAYSPERWEEK;] *)
Definition back_weeks (len m_day : Z) : option Z :=
  loop (S (Z.to_nat m_day)) (λ m_day, if len <=? m_day then continue (m_day - DAYSPERWEEK) else leave m_day) m_day.

(** The day of a change-over. *)
Definition rule_days (r : tzrule) (year year_days : Z) : option Z :=
  if tz_ch r =? 74 then
    Some (s32 (year_days + tz_d r + (if isleap year && (60 <=? tz_d r) then 1 else 0) - 1))
  else if tz_ch r =? 68 then Some (s32 (year_days + tz_d r))
  else
    let ip := __month_lengths (isleap year) in
    '(j, days) ← add_months ip (tz_m r) year_days;
    let m_wday := Z.rem (s32 (EPOCH_WDAY + days)) DAYSPERWEEK in
    let wday_diff := tz_d r - m_wday in
    let wday_diff := if wday_diff <? 0 then wday_diff + DAYSPERWEEK else wday_diff in
    let m_day := s32 ((tz_n r - 1) * DAYSPERWEEK + wday_diff) in
    len ← at_index ip (j - 1);
    m_day ← back_weeks len m_day;
    Some (s32 (days + m_day)).

Definition rule_change (r : tzrule) (days : Z) : tzrule :=
  set_change r (s64 (days * SECSPERDAY + tz_s r + tz_offset r)).

Definition __tzcalc_limits (tz : tzinfo) (year : Z) : option (tzinfo * bool) :=
  if year <? EPOCH_YEAR then Some (tz, false)
  else
    let years := year - EPOCH_YEAR in
    let year_days := s32 (years * 365 +
      Z.quot (years - 1 + EPOCH_YEARS_SINCE_LEAP) 4 -
      Z.quot (years - 1 + EPOCH_YEARS_SINCE_CENTURY) 100 +
      Z.quot (years - 1 + EPOCH_YEARS_SINCE_LEAP_CENTURY) 400) in
    days0 ← rule_days (tzrule0 tz) year year_days;
    days1 ← rule_days (tzrule1 tz) year year_days;
    let r0 := rule_change (tzrule0 tz) days0 in
    let r1 := rule_change (tzrule1 tz) days1 in
    Some (TzInfo (tz_change r0 <? tz_change r1) year r0 r1, true).

(** [y == tz->__tzyear || __tzcalc_limits (y)] *)
Definition limits_of (tz : tzinfo) (y : Z) : option (tzinfo * bool) :=
  if y =? __tzyear tz then Some (tz, true) else __tzcalc_limits tz y.

(** ** sscanf *)

(** A conversion %11[...]: the characters taken, none where the conversion fails. *)
Fixpoint scan_class (width : nat) (ccltab : Z → bool) (s : list Z) : list Z :=
  match width, s with
  | S width, c :: t => if ccltab c then c :: scan_class width ccltab t else []
  | _, _ => []
  end.

Definition alphabetic (c : Z) : bool := among 65 90 c || among 97 122 c.
Definition quoted (c : Z) : bool := (c =? 45) || (c =? 43) || among 48 57 c || alphabetic c.

Definition BUF : Z := 40.

(** The loop of the integer conversions, for base ten: whether no digit was seen,
    the characters in [buf], and the rest of the input. *)
Fixpoint scan_int (s : list Z) (width width_left : Z) (SIGNOK NDIGITS NZDIGITS NNZDIGITS : bool)
    (buf : list Z) : bool * list Z * list Z :=
  match s with
  | [] => (NDIGITS, buf, [])
  | c :: t =>
      if width =? 0 then (NDIGITS, buf, s)
      else if c =? 48 then
        if negb NNZDIGITS then scan_int t (width - 1) width_left SIGNOK NDIGITS NZDIGITS NNZDIGITS (buf ++ [c])
        else if NZDIGITS then scan_int t (width - 1) width_left false false false NNZDIGITS (buf ++ [c])
        else if truth width_left then scan_int t width (width_left - 1) false false NZDIGITS NNZDIGITS buf
        else scan_int t (width - 1) width_left false false NZDIGITS NNZDIGITS buf
      else if among 49 57 c then scan_int t (width - 1) width_left false false NZDIGITS false (buf ++ [c])
      else if ((c =? 43) || (c =? 45)) && SIGNOK then
        scan_int t (width - 1) width_left false NDIGITS NZDIGITS NNZDIGITS (buf ++ [c])
      else (NDIGITS, buf, s)
  end.

(** [strtoul (s, &end, 10)]: the value and how far [end] is (see [strto_unsigned_ok]). *)
Definition strtoul10 (s : list Z) : Z * Z :=
  let '(v, e, _) := unsigned_value (scan 10 s) 0 s 0 in (v, default 0 e).

(** A conversion %hu: the value and the rest of the input. *)
Definition scan_hu (s : list Z) : option (Z * list Z) :=
  match drop_space s with
  | [] => None
  | s =>
      let '(NDIGITS, buf, rest) := scan_int s (BUF - 1) (u32 (0 - (BUF - 1))) true true true true [] in
      if NDIGITS : bool then None else Some (u16 (strtoul10 buf).1, rest)
  end.

(** The formats %hu%n:%hu%n:%hu%n, with [sep] for the colon: the values assigned and
    the input after the last %n. *)
Fixpoint scan_fields (k : nat) (sep : Z) (s : list Z) : list Z * list Z :=
  match k with
  | O => ([], s)
  | S k =>
      match scan_hu s with
      | None => ([], s)
      | Some (v, rest) =>
          if hd 0 rest =? sep then
            match scan_fields k sep (tl rest) with
            | ([], _) => ([v], rest)
            | (vs, rest) => (v :: vs, rest)
            end
          else ([v], rest)
      end
  end.

(** ** tzset *)

Definition TZNAME_MIN : Z := 3.
Definition TZNAME_MAX : Z := 10.

Record tzstate := TzState {
  ts_info : tzinfo; _timezone : Z; _daylight : bool; _tzname : list Z * list Z;
  prev_tzenv : option (list Z); __tzname_std : list Z; __tzname_dst : list Z }.

Definition set_info (g : tzstate) (tz : tzinfo) : tzstate :=
  TzState tz (_timezone g) (_daylight g) (_tzname g) (prev_tzenv g) (__tzname_std g) (__tzname_dst g).

Definition default_tzrule : tzrule := TzRule 74 0 0 0 0 0 0.
Definition set_rules (tz : tzinfo) (r0 r1 : tzrule) : tzinfo := TzInfo (__tznorth tz) (__tzyear tz) r0 r1.
Definition set_offset (r : tzrule) (o : Z) : tzrule :=
  TzRule (tz_ch r) (tz_m r) (tz_n r) (tz_d r) (tz_s r) (tz_change r) o.

(** The assignments before the text is read, and those without a TZ. *)
Definition tz_reset (g : tzstate) (name : list Z) (prev : option (list Z)) : tzstate :=
  TzState (set_rules (ts_info g) default_tzrule default_tzrule) 0 false (name, name) prev
    (__tzname_std g) (__tzname_dst g).

Definition GMT : list Z := [71; 77; 84].

(** [tzenv[n]]: the terminator at the end, nothing beyond it. *)
Definition char_at (s : list Z) (n : Z) : option Z :=
  if n =? Z.of_nat (length s) then Some 0 else at_index s n.

(** The name of standard time: the contents of the buffer, and the text after it
    if it is one. *)
Definition std_name (s buf : list Z) : option (list Z * option (list Z)) :=
  if hd 0 s =? 60 then
    let s := tl s in
    let name := scan_class 11 quoted s in
    let n := Z.of_nat (length name) in
    match name with
    | [] => Some (buf, None)
    | _ =>
        c ← char_at s n;
        Some (name, if (n <? TZNAME_MIN) || (TZNAME_MAX <? n) || negb (c =? 62) then None
                    else Some (drop (S (length name)) s))
    end
  else
    let name := scan_class 11 alphabetic s in
    let n := Z.of_nat (length name) in
    match name with
    | [] => Some (buf, None)
    | _ => Some (name, if (n <? TZNAME_MIN) || (TZNAME_MAX <? n) then None else Some (drop (length name) s))
    end.

(** The name of daylight saving time. A failed conversion leaves [n] as it was. *)
Inductive dst_part := NoDst | DstError | Dst (rest : list Z).
Definition dst_name (s buf : list Z) (n : Z) : option (list Z * dst_part) :=
  if hd 0 s =? 60 then
    let s := tl s in
    let name := scan_class 11 quoted s in
    let '(buf, n, failed) :=
      match name with [] => (buf, n, true) | _ => (name, Z.of_nat (length name), false) end in
    if failed && (hd 0 s =? 62) then Some (buf, NoDst)
    else if (n <? TZNAME_MIN) || (TZNAME_MAX <? n) then Some (buf, DstError)
    else
      c ← char_at s n;
      if negb (c =? 62) then Some (buf, DstError) else Some (buf, Dst (drop (Z.to_nat (n + 1)) s))
  else
    let name := scan_class 11 alphabetic s in
    let n := Z.of_nat (length name) in
    match name with
    | [] => Some (buf, NoDst)
    | _ => Some (name, if (n <? TZNAME_MIN) || (TZNAME_MAX <? n) then DstError else Dst (drop (length name) s))
    end.

(** [sign] and the text after it. *)
Definition offset_sign (s : list Z) : Z * list Z :=
  if hd 0 s =? 45 then (-1, tl s) else if hd 0 s =? 43 then (1, tl s) else (1, s).

(** [ss + SECSPERMIN * mm + SECSPERHOUR * hh], for the values that were assigned. *)
Definition seconds (hh : Z) (vs : list Z) : Z :=
  nth 2 vs 0 + SECSPERMIN * nth 1 vs 0 + SECSPERHOUR * nth 0 vs hh.

(** A round of the loop over the rules: a return, a return with both rules reset, or
    the rule and the text after it. *)
Inductive rule_part := RuleReturn | RuleReset | Rule (r : tzrule) (rest : list Z).

(** The default for the United States. *)
Definition us_rule (i : nat) (r : tzrule) : tzrule :=
  if decide (i = 0%nat) then TzRule 77 3 2 0 (tz_s r) (tz_change r) (tz_offset r)
  else TzRule 77 11 1 0 (tz_s r) (tz_change r) (tz_offset r).

Definition rule_date (i : nat) (r : tzrule) (s : list Z) : option (tzrule * list Z) :=
  if hd 0 s =? 77 then
    match scan_fields 3 46 (tl s) with
    | ([m; w; d], rest) =>
        if (m <? 1) || (12 <? m) || (w <? 1) || (5 <? w) || (6 <? d) then None
        else Some (TzRule 77 m w d (tz_s r) (tz_change r) (tz_offset r), rest)
    | _ => None
    end
  else
    let '(ch, s) := if hd 0 s =? 74 then (74, tl s) else (68, s) in
    let '(v, e) := strtoul10 s in
    let r := if e =? 0 then us_rule i r
             else TzRule ch (tz_m r) (tz_n r) (u16 v) (tz_s r) (tz_change r) (tz_offset r) in
    Some (r, drop (Z.to_nat e) s).

Definition set_s (r : tzrule) (v : Z) : tzrule :=
  TzRule (tz_ch r) (tz_m r) (tz_n r) (tz_d r) v (tz_change r) (tz_offset r).

Definition rule_text (i : nat) (r : tzrule) (s : list Z) : rule_part :=
  let s := if hd 0 s =? 44 then tl s else s in
  match rule_date i r s with
  | None => RuleReturn
  | Some (r, s) =>
      if hd 0 s =? 47 then
        match scan_fields 3 58 (tl s) with
        | ([], _) => RuleReset
        | (vs, rest) => Rule (set_s r (s32 (seconds 2 vs))) rest
        end
      else Rule (set_s r (s32 (seconds 2 []))) s
  end.

(** The rules, [offset0] and [offset1] known. *)
Definition tzset_rules (g : tzstate) (s : list Z) (offset0 offset1 : Z) : option tzstate :=
  let tz := ts_info g in
  match rule_text 0 (tzrule0 tz) s with
  | RuleReturn => Some g
  | RuleReset => Some (set_info g (set_rules tz default_tzrule default_tzrule))
  | Rule r0 s =>
      match rule_text 1 (tzrule1 tz) s with
      | RuleReturn => Some (set_info g (set_rules tz r0 (tzrule1 tz)))
      | RuleReset => Some (set_info g (set_rules tz default_tzrule default_tzrule))
      | Rule r1 _ =>
          '(tz, _) ← __tzcalc_limits (set_rules tz (set_offset r0 offset0) (set_offset r1 offset1)) (__tzyear tz);
          Some (TzState tz offset0 (negb (offset0 =? offset1)) (__tzname_std g, __tzname_dst g)
                  (prev_tzenv g) (__tzname_std g) (__tzname_dst g))
      end
  end.

(** A zone without daylight saving time. *)
Definition tzset_std (g : tzstate) (offset0 : Z) : tzstate :=
  let tz := ts_info g in
  TzState (set_rules tz (set_offset (tzrule0 tz) offset0) (tzrule1 tz)) offset0 (_daylight g)
    (__tzname_std g, __tzname_std g) (prev_tzenv g) (__tzname_std g) (__tzname_dst g).

Definition set_std (g : tzstate) (b : list Z) : tzstate :=
  TzState (ts_info g) (_timezone g) (_daylight g) (_tzname g) (prev_tzenv g) b (__tzname_dst g).
Definition set_dst (g : tzstate) (b : list Z) : tzstate :=
  TzState (ts_info g) (_timezone g) (_daylight g) (_tzname g) (prev_tzenv g) (__tzname_std g) b.

(** The text of TZ, the defaults already stored. *)
Definition tzset_text (g : tzstate) (s : list Z) : option tzstate :=
  let s := if hd 0 s =? 58 then tl s else s in
  '(buf, rest) ← std_name s (__tzname_std g);
  let g := set_std g buf in
  match rest with
  | None => Some g
  | Some s =>
      let '(sign, s) := offset_sign s in
      match scan_fields 3 58 s with
      | ([], _) => Some g
      | (vs, rest) =>
          let offset0 := sign * seconds 0 vs in
          let n := Z.of_nat (length s) - Z.of_nat (length rest) in
          '(buf, part) ← dst_name rest (__tzname_dst g) n;
          let g := set_dst g buf in
          match part with
          | NoDst => Some (tzset_std g offset0)
          | DstError => Some g
          | Dst s =>
              let '(sign, s) := offset_sign s in
              let '(vs, s) := scan_fields 3 58 s in
              let offset1 := match vs with [] => offset0 - 3600 | _ => sign * seconds 0 vs end in
              tzset_rules g s offset0 offset1
          end
      end
  end.

(** [tzenv] is the value of TZ, [stored] whether its copy could be allocated. *)
Definition tzset (tzenv : option (list Z)) (stored : bool) (g : tzstate) : option tzstate :=
  match tzenv with
  | None => Some (tz_reset g GMT None)
  | Some s =>
      if decide (prev_tzenv g = Some s) then Some g
      else tzset_text (tz_reset g [] (if stored then Some s else None)) s
  end.

(** The statics at program start. *)
Definition tz_start : tzstate :=
  TzState (TzInfo true 0 default_tzrule default_tzrule) 0 false (GMT, GMT) None [] [].

(** ** The rules are well formed *)

Definition wf_rule (r : tzrule) : Prop :=
  tz_ch r = 74 ∨ tz_ch r = 68 ∨ 1 ≤ tz_m r ≤ 12 ∧ 1 ≤ tz_n r ≤ 5 ∧ 0 ≤ tz_d r ≤ 6.
Definition wf_info (tz : tzinfo) : Prop := wf_rule (tzrule0 tz) ∧ wf_rule (tzrule1 tz).

Lemma add_months_total b m days : 1 ≤ m ≤ 12 →
  ∃ days' len, add_months (__month_lengths b) m days = Some (m, days') ∧
    at_index (__month_lengths b) (m - 1) = Some len ∧ 28 ≤ len.
Proof.
  intros Hm. assert (m = 1 ∨ m = 2 ∨ m = 3 ∨ m = 4 ∨ m = 5 ∨ m = 6 ∨ m = 7 ∨ m = 8 ∨ m = 9 ∨ m = 10 ∨
    m = 11 ∨ m = 12) as H by lia.
  destruct H as [->|[->|[->|[->|[->|[->|[->|[->|[->|[->|[->| ->]]]]]]]]]]];
    destruct b; eexists _, _; (split; [reflexivity|split; [reflexivity|lia]]).
Qed.

Lemma back_weeks_total len m_day : 7 ≤ len → 0 ≤ m_day → ∃ d, back_weeks len m_day = Some d.
Proof.
  intros Hl Hm. unfold back_weeks.
  assert (∀ n m, 0 ≤ m → (Z.to_nat m < n)%nat → ∃ d, loop n (λ m_day,
    if len <=? m_day then continue (m_day - DAYSPERWEEK) else leave m_day) m = Some d) as H.
  { unfold DAYSPERWEEK. induction n as [|n IH]; intros m H0 Hn; [lia|]. rewrite loop_S.
    destruct (Z.leb_spec len m); [|by eexists]. apply IH; lia. }
  apply H; lia.
Qed.

Lemma rule_days_total r year yd : wf_rule r → ∃ d, rule_days r year yd = Some d.
Proof.
  intros Hr. unfold rule_days. destruct (Z.eqb_spec (tz_ch r) 74); [by eexists|].
  destruct (Z.eqb_spec (tz_ch r) 68); [by eexists|].
  destruct Hr as [?|[?|(Hm & Hn & Hd)]]; [done..|].
  destruct (add_months_total (isleap year) (tz_m r) yd Hm) as (days & len & -> & El & Hlen).
  cbn [mbind option_bind]. rewrite El. cbn [mbind option_bind]. unfold DAYSPERWEEK.
  pose proof (Z.rem_bound_abs (s32 (EPOCH_WDAY + days)) 7 ltac:(lia)) as Hw.
  set (w := Z.rem _ 7) in *. set (e := if tz_d r - w <? 0 then tz_d r - w + 7 else tz_d r - w).
  assert (0 ≤ e ≤ 12) as He by (subst e; destruct (Z.ltb_spec (tz_d r - w) 0); lia).
  destruct (back_weeks_total len (s32 ((tz_n r - 1) * 7 + e))) as [d ->]; [lia| |by eexists].
  rewrite s32_small; lia.
Qed.

Lemma __tzcalc_limits_total tz year : wf_info tz → ∃ tz' b, __tzcalc_limits tz year = Some (tz', b) ∧
  wf_info tz' ∧ tz_offset (tzrule0 tz') = tz_offset (tzrule0 tz) ∧
  tz_offset (tzrule1 tz') = tz_offset (tzrule1 tz) ∧ (b = true → __tzyear tz' = year) ∧
  (b = false → tz' = tz ∧ year < EPOCH_YEAR).
Proof.
  intros [H0 H1]. unfold __tzcalc_limits. destruct (Z.ltb_spec year EPOCH_YEAR).
  - exists tz, false. by split_and!.
  - cbv zeta. set (yd := s32 _). destruct (rule_days_total _ year yd H0) as [d0 ->].
    destruct (rule_days_total _ year yd H1) as [d1 ->]. cbn [mbind option_bind].
    eexists _, true. by split_and!.
Qed.

Lemma limits_of_total tz year : wf_info tz → ∃ tz' b, limits_of tz year = Some (tz', b) ∧
  wf_info tz' ∧ tz_offset (tzrule0 tz') = tz_offset (tzrule0 tz) ∧
  tz_offset (tzrule1 tz') = tz_offset (tzrule1 tz) ∧ (b = true → __tzyear tz' = year) ∧
  (b = false → tz' = tz ∧ year ≠ __tzyear tz ∧ year < EPOCH_YEAR).
Proof.
  intros Hw. unfold limits_of. destruct (Z.eqb_spec year (__tzyear tz)) as [->|].
  - exists tz, true. by split_and!.
  - destruct (__tzcalc_limits_total tz year Hw) as (tz' & b & E & ? & ? & ? & ? & Hb).
    exists tz', b. split_and!; try done. by intros [-> ?]%Hb.
Qed.

(** ** What tzset leaves *)

Lemma scan_hu_range s v rest : scan_hu s = Some (v, rest) → 0 ≤ v < 2 ^ 16.
Proof.
  unfold scan_hu. destruct (drop_space s); [done|]. destruct (scan_int _ _ _ _ _ _ _ _) as [[[] buf] r]; [done|].
  intros [= <- _]. apply (wrapu_range 16); lia.
Qed.

Lemma scan_fields_range k sep s : Forall (λ v, 0 ≤ v < 2 ^ 16) (scan_fields k sep s).1.
Proof.
  revert s. induction k as [|k IH]; intros s; cbn [scan_fields]; [constructor|].
  destruct (scan_hu s) as [[v rest]|] eqn:E; [|constructor]. apply scan_hu_range in E.
  destruct (_ =? sep); [|by apply Forall_singleton]. pose proof (IH (tl rest)) as H.
  destruct (scan_fields k sep (tl rest)) as [[|x vs] r]; [by apply Forall_singleton|by apply Forall_cons].
Qed.

Lemma rule_date_wf i r s r' s' : rule_date i r s = Some (r', s') → wf_rule r'.
Proof.
  unfold rule_date, wf_rule. destruct (hd 0 s =? 77).
  - pose proof (scan_fields_range 3 46 (tl s)) as H.
    destruct (scan_fields 3 46 (tl s)) as [[|m [|w [|d [|]]]] rest]; try done. cbn [fst] in H.
    destruct (_ || _) eqn:E; [done|]. intros [= <- <-]. cbn.
    assert (0 ≤ d) by (do 2 apply Forall_inv_tail in H; apply Forall_inv in H; lia). lia.
  - destruct (hd 0 s =? 74); (destruct (strtoul10 _) as [v e]); (destruct (e =? 0));
      intros [= <- _]; unfold us_rule; [case_decide|..|case_decide|]; cbn; lia.
Qed.

Lemma rule_text_wf i r s r' s' : rule_text i r s = Rule r' s' → wf_rule r'.
Proof.
  unfold rule_text. destruct (rule_date i r _) as [[r1 s1]|] eqn:E; [|done].
  apply rule_date_wf in E. destruct (_ =? 47); [|by intros [= <- _]].
  destruct (scan_fields _ _ _) as [[|v vs] rest]; [done|]. by intros [= <- _].
Qed.

Lemma default_wf : wf_rule default_tzrule.
Proof. by left. Qed.

(** What is kept of a state by the reading of a text. *)
Definition reads (g g' : tzstate) : Prop := wf_info (ts_info g') ∧ prev_tzenv g' = prev_tzenv g.

Lemma tzset_rules_ok g s o0 o1 : wf_info (ts_info g) →
  ∃ g', tzset_rules g s o0 o1 = Some g' ∧ reads g g'.
Proof.
  intros [H0 H1]. unfold tzset_rules.
  destruct (rule_text 0 _ s) as [| |r0 s0] eqn:E0; [by eexists|eexists; split; [done|]; by repeat split; left|].
  apply rule_text_wf in E0.
  destruct (rule_text 1 _ s0) as [| |r1 s1] eqn:E1; [by eexists|eexists; split; [done|]; by repeat split; left|].
  apply rule_text_wf in E1. set (tz := set_rules _ _ _).
  destruct (__tzcalc_limits_total tz (__tzyear (ts_info g))) as (tz' & b & -> & Hw & _); [done|].
  cbn [mbind option_bind]. by eexists.
Qed.

Lemma tzset_text_ok g s g' : wf_info (ts_info g) → tzset_text g s = Some g' → reads g g'.
Proof.
  intros Hw. unfold tzset_text. destruct (std_name _ _) as [[buf [s1|]]|]; cbn [mbind option_bind];
    [|by intros [= <-]|done].
  destruct (offset_sign s1) as [sign s2]. destruct (scan_fields 3 58 s2) as [[|v vs] rest]; [by intros [= <-]|].
  destruct (dst_name _ _ _) as [[buf' [| |s3]]|]; cbn [mbind option_bind]; [|by intros [= <-]| |done].
  - intros [= <-]. split; [|done]. split; apply Hw.
  - destruct (offset_sign s3) as [sign' s4]. destruct (scan_fields 3 58 s4) as [vs' s5].
    set (o1 := match vs' with [] => _ | _ => _ end). clearbody o1.
    destruct (tzset_rules_ok (set_dst (set_std g buf) buf') s5 (sign * seconds 0 (v :: vs)) o1 Hw)
      as (g1 & -> & Hr). by intros [= <-].
Qed.

Lemma tzset_wf tzenv stored g g' : wf_info (ts_info g) → tzset tzenv stored g = Some g' → wf_info (ts_info g').
Proof.
  unfold tzset. intros Hw. destruct tzenv as [s|]; [|by intros [= <-]; split; left].
  case_decide; [by intros [= <-]|]. intros [? _]%tzset_text_ok; [done|]. by split; left.
Qed.

(** A second call with the same TZ changes nothing, whatever the limits of the year
    that are kept in between. *)
Lemma tzset_again tzenv g g' tz stored : wf_info (ts_info g) → tzset tzenv true g = Some g' →
  tzenv ≠ None ∨ tz = ts_info g' → tzset tzenv stored (set_info g' tz) = Some (set_info g' tz).
Proof.
  unfold tzset. intros Hw. destruct tzenv as [s|].
  - intros E _. assert (prev_tzenv g' = Some s) as Hp.
    { case_decide; [congruence|]. by apply tzset_text_ok in E as [_ ->]; [|split; left]. }
    by rewrite decide_True.
  - intros [= <-] [?| ->]; done.
Qed.

Lemma tzset_unset g g' stored : tzset None stored g = Some g' →
  _daylight g' = false ∧ tz_offset (tzrule0 (ts_info g')) = 0.
Proof. by intros [= <-]. Qed.

(** ** tzset returns *)

Lemma drop_space_suffix s : drop_space s `suffix_of` s.
Proof. induction s as [|c t IH]; [done|]. cbn [drop_space]. destruct (space c); [by apply suffix_cons_r|done]. Qed.

Lemma tl_suffix (s : list Z) : tl s `suffix_of` s.
Proof. destruct s; [done|by apply suffix_cons_r]. Qed.

Lemma scan_int_suffix s w wl b1 b2 b3 b4 buf : (scan_int s w wl b1 b2 b3 b4 buf).2 `suffix_of` s.
Proof.
  revert w wl b1 b2 b3 b4 buf. induction s as [|c t IH]; intros; cbn [scan_int]; [done|].
  repeat case_match; try done; by apply suffix_cons_r.
Qed.

Lemma scan_hu_suffix s v rest : scan_hu s = Some (v, rest) → rest `suffix_of` s.
Proof.
  unfold scan_hu. pose proof (drop_space_suffix s) as Hs. destruct (drop_space s) as [|c t]; [done|].
  pose proof (scan_int_suffix (c :: t) (BUF - 1) (u32 (0 - (BUF - 1))) true true true true []) as Hi.
  destruct (scan_int _ _ _ _ _ _ _ _) as [[[] buf] r]; [done|]. intros [= _ <-]. by etrans.
Qed.

Lemma scan_fields_suffix k sep s : (scan_fields k sep s).2 `suffix_of` s.
Proof.
  revert s. induction k as [|k IH]; intros s; cbn [scan_fields]; [done|].
  destruct (scan_hu s) as [[v rest]|] eqn:E; [|done]. apply scan_hu_suffix in E.
  destruct (_ =? sep); [|done]. pose proof (IH (tl rest)) as H.
  destruct (scan_fields k sep (tl rest)) as [[|x vs] r]; [done|]. etrans; [exact H|].
  etrans; [apply tl_suffix|done].
Qed.

Lemma offset_sign_suffix s : (offset_sign s).2 `suffix_of` s.
Proof. unfold offset_sign. repeat case_match; try done; apply tl_suffix. Qed.

Lemma char_at_class p k s : ∃ c, char_at s (Z.of_nat (length (scan_class k p s))) = Some c.
Proof.
  assert (length (scan_class k p s) ≤ length s)%nat as Hl.
  { revert s. induction k as [|k IH]; intros [|c t]; cbn; try lia. destruct (p c); cbn; [|lia].
    specialize (IH t). lia. }
  unfold char_at. destruct (Z.eqb_spec (Z.of_nat (length (scan_class k p s))) (Z.of_nat (length s))); [by eexists|].
  unfold at_index. destruct (Z.leb_spec 0 (Z.of_nat (length (scan_class k p s)))); [|lia].
  rewrite Nat2Z.id. apply lookup_lt_is_Some_2. lia.
Qed.

(** A name that is quoted has one character at least, or none. *)
Definition closing (s : list Z) : Prop :=
  hd 0 s ≠ 60 ∨ hd 0 (tl s) = 62 ∨ scan_class 11 quoted (tl s) ≠ [].

Lemma dst_name_returns s buf n : closing s → ∃ x, dst_name s buf n = Some x.
Proof.
  intros Hn. unfold dst_name. destruct (Z.eqb_spec (hd 0 s) 60).
  - destruct (char_at_class quoted 11 (tl s)) as [c E].
    destruct (scan_class 11 quoted (tl s)) as [|x name] eqn:En.
    + destruct Hn as [?|[->|?]]; [done|by eexists|done].
    + cbn [andb]. destruct (_ || _); [by eexists|]. rewrite E. cbn [mbind option_bind].
      destruct (negb _); by eexists.
  - destruct (scan_class 11 alphabetic s); by eexists.
Qed.

Lemma std_name_returns s buf : ∃ b rest, std_name s buf = Some (b, rest) ∧
  ∀ s', rest = Some s' → s' `suffix_of` s.
Proof.
  unfold std_name. destruct (hd 0 s =? 60).
  - destruct (char_at_class quoted 11 (tl s)) as [c E].
    destruct (scan_class 11 quoted (tl s)) as [|x name] eqn:En; [by eexists _, _|].
    rewrite E. cbn [mbind option_bind]. eexists _, _. split; [done|]. intros s'. destruct (_ || _); [done|].
    intros [= <-]. etrans; [apply suffix_drop|apply tl_suffix].
  - destruct (scan_class 11 alphabetic s) as [|x name]; [by eexists _, _|]. eexists _, _. split; [done|].
    intros s'. destruct (_ || _); [done|]. intros [= <-]. apply suffix_drop.
Qed.

(** The reading returns for every text in which each quoted name has a character or
    is followed by its closing bracket at once. *)
Lemma tzset_returns tzenv stored g : wf_info (ts_info g) →
  (∀ s s', tzenv = Some s → s' `suffix_of` s → closing s') →
  ∃ g', tzset tzenv stored g = Some g'.
Proof.
  intros Hw Hn. unfold tzset. destruct tzenv as [s|]; [|by eexists]. case_decide; [by eexists|].
  unfold tzset_text. set (s0 := if _ =? 58 then tl s else s).
  assert (s0 `suffix_of` s) as H0 by (subst s0; destruct (_ =? 58); [apply tl_suffix|done]).
  destruct (std_name_returns s0 (__tzname_std (tz_reset g [] (if stored then Some s else None))))
    as (b & rest & -> & Hs1). cbn [mbind option_bind]. destruct rest as [s1|]; [|by eexists].
  specialize (Hs1 s1 eq_refl). pose proof (offset_sign_suffix s1) as Hs2.
  destruct (offset_sign s1) as [sign s2]. pose proof (scan_fields_suffix 3 58 s2) as Hs3.
  destruct (scan_fields 3 58 s2) as [[|v vs] s3]; [by eexists|]. cbn [snd] in *.
  set (g1 := set_std _ b). set (n := Z.of_nat (length s2) - Z.of_nat (length s3)).
  destruct (dst_name_returns s3 (__tzname_dst g1) n) as [[b' [| |s4]] ->];
    [apply (Hn s); [done|]; by do 3 (etrans; [eassumption|])|by eexists..|].
  cbn [mbind option_bind]. destruct (offset_sign s4) as [sign' s5].
  destruct (scan_fields 3 58 s5) as [vs' s6]. set (o1 := match vs' with [] => _ | _ => _ end). clearbody o1.
  destruct (tzset_rules_ok (set_dst g1 b') s6 (sign * seconds 0 (v :: vs)) o1) as (g' & -> & _); [|by eexists].
  by split; left.
Qed.

(** ** Texts *)

Definition codes (s : string) : list Z := (λ c, Z.of_N (Ascii.N_of_ascii c)) <$> String.list_ascii_of_string s.

(** Central European time: an hour east of Greenwich, two from the last Sunday of
    March to the last of October. *)
Definition CET : list Z := codes "CET-1CEST,M3.5.0,M10.5.0/3".
Definition cet_state : tzstate := default tz_start (tzset (Some CET) true tz_start).

Lemma cet_read : tzset (Some CET) true tz_start = Some cet_state ∧ _timezone cet_state = -3600 ∧
  _daylight cet_state = true ∧ _tzname cet_state = (codes "CET", codes "CEST") ∧
  ts_info cet_state = TzInfo true 0 (TzRule 77 3 5 0 7200 0 (-3600)) (TzRule 77 10 5 0 10800 0 (-7200)).
Proof. split_and!; vm_compute; reflexivity. Qed.

(** The defaults: an hour, and the rules of the United States. *)
Lemma est_read : ∃ g, tzset (Some (codes "EST5EDT")) true tz_start = Some g ∧
  ts_info g = TzInfo true 0 (TzRule 77 3 2 0 7200 0 18000) (TzRule 77 11 1 0 7200 0 14400).
Proof. eexists. split; vm_compute; reflexivity. Qed.

(** An empty TZ gives UTC without a name. *)
Lemma empty_read : ∃ g, tzset (Some []) true tz_start = Some g ∧
  _timezone g = 0 ∧ _daylight g = false ∧ _tzname g = ([], []).
Proof. eexists. split_and!; vm_compute; reflexivity. Qed.

(** A quoted name of no characters without its closing bracket: [n] is still the
    length of the offset, and the test of [tzenv[n]] reads beyond the text. *)
Lemma tzset_overread : tzset (Some (codes "AAA05:00<@")) true tz_start = None.
Proof. vm_compute. reflexivity. Qed.
