(* ===== verification/Mktime.v ===== *)
(** * Local time

    Models newlib/libc/time: mktime.c and lcltime_r.c, and stdlib/div.c. Both call
    [tzset] first, with TZ and the statics of tzset_r.c as in Tzset.v. *)
From S2P Require Import Prelude Calendar Tzset.

(** ** Normalization *)

Definition div (num denom : Z) : Z * Z :=
  let quot := Z.quot num denom in
  let rem := Z.rem num denom in
  if (0 <=? num) && (rem <? 0) then (quot + 1, rem - denom)
  else if (num <? 0) && (0 <? rem) then (quot - 1, rem + denom)
  else (quot, rem).

Definition DAYS_IN_MONTH : list Z := [31; 28; 31; 30; 31; 30; 31; 31; 30; 31; 30; 31].
Definition _DAYS_BEFORE_MONTH : list Z := [0; 31; 59; 90; 120; 151; 181; 212; 243; 273; 304; 334].

Definition _DAYS_IN_MONTH (days_in_feb x : Z) : option Z :=
  if x =? 1 then Some days_in_feb else at_index DAYS_IN_MONTH x.

Definition _ISLEAP (y : Z) : bool :=
  (Z.rem y 4 =? 0) && (negb (Z.rem y 100 =? 0) || (Z.rem (y + 1900) 400 =? 0)).
Definition _DAYS_IN_YEAR (year : Z) : Z := if _ISLEAP year then 366 else 365.

(** A field out of range and the field it is carried to, for sec, min, hour and mon. *)
Definition carry (size v next : Z) : Z * Z :=
  if (v <? 0) || (size - 1 <? v) then
    let '(quot, rem) := div v size in
    let next := s32 (next + quot) in
    if rem <? 0 then (rem + size, s32 (next - 1)) else (rem, next)
  else (v, next).

Definition feb_of (year : Z) : Z := if _DAYS_IN_YEAR year =? 366 then 29 else 28.

(** The bodies of the loops on [tm_mday], over [tm_mday], [tm_mon], [tm_year] and [days_in_feb]. *)
Definition month_back (x : Z * Z * Z * Z) : option (Z * Z * Z * Z + Z * Z * Z) :=
  let '(mday, mon, year, feb) := x in
  if mday <=? 0 then
    let mon := mon - 1 in
    let '(mon, year, feb) := if mon =? -1 then (11, s32 (year - 1), feb_of (s32 (year - 1))) else (mon, year, feb) in
    d ← _DAYS_IN_MONTH feb mon;
    continue (mday + d, mon, year, feb)
  else leave (mday, mon, year).

Definition month_forward (x : Z * Z * Z * Z) : option (Z * Z * Z * Z + Z * Z * Z) :=
  let '(mday, mon, year, feb) := x in
  d ← _DAYS_IN_MONTH feb mon;
  if d <? mday then
    let mday := mday - d in
    let mon := mon + 1 in
    let '(mon, year, feb) := if mon =? 12 then (0, s32 (year + 1), feb_of (s32 (year + 1))) else (mon, year, feb) in
    continue (mday, mon, year, feb)
  else leave (mday, mon, year).

Definition validate_structure (t : tm) : option tm :=
  let '(sec, min) := carry 60 (tm_sec t) (tm_min t) in
  let '(min, hour) := carry 60 min (tm_hour t) in
  let '(hour, mday) := carry 24 hour (tm_mday t) in
  let '(mon, year) := carry 12 (tm_mon t) (tm_year t) in
  let days_in_feb := feb_of year in
  '(mday, mon, year) ←
    loop (S (S (Z.to_nat (Z.abs mday)))) (if mday <=? 0 then month_back else month_forward)
      (mday, mon, year, days_in_feb);
  Some (Tm sec min hour mday mon year (tm_wday t) (tm_yday t) (tm_isdst t)).

(** ** mktime *)

Definition set_sec (t : tm) (v : Z) : tm :=
  Tm v (tm_min t) (tm_hour t) (tm_mday t) (tm_mon t) (tm_year t) (tm_wday t) (tm_yday t) (tm_isdst t).
Definition set_yday (t : tm) (v : Z) : tm :=
  Tm (tm_sec t) (tm_min t) (tm_hour t) (tm_mday t) (tm_mon t) (tm_year t) (tm_wday t) v (tm_isdst t).
Definition set_wday_isdst (t : tm) (w d : Z) : tm :=
  Tm (tm_sec t) (tm_min t) (tm_hour t) (tm_mday t) (tm_mon t) (tm_year t) w (tm_yday t) d.

(** The loops over the years. *)
Definition add_years (tm_year days : Z) : option Z :=
  loop (S (Z.to_nat (tm_year - 70))) (λ '(year, days),
    if year <? tm_year then continue (year + 1, days + _DAYS_IN_YEAR year) else leave days) (70, days).
Definition sub_years (tm_year days : Z) : option Z :=
  loop (S (Z.to_nat (69 - tm_year))) (λ '(year, days),
    if tm_year <? year then continue (year - 1, days - _DAYS_IN_YEAR year)
    else leave (days - _DAYS_IN_YEAR year)) (69, days).

(** The user was wrong about daylight saving time: the time, the structure and [days] moved. *)
Definition dst_correction (tz : tzinfo) (isdst : bool) (t : tm) (tim days year : Z) : option (tm * Z * Z) :=
  let diff := s32 (tz_offset (tzrule0 tz) - tz_offset (tzrule1 tz)) in
  let diff := if isdst then diff else s32 (- diff) in
  let mday := tm_mday t in
  t ← validate_structure (set_sec t (s32 (tm_sec t + diff)));
  let tim := tim + diff in
  let mday := tm_mday t - mday in
  if truth mday then
    let mday := if 1 <? mday then -1 else if mday <? -1 then 1 else mday in
    let yday := tm_yday t + mday in
    let yday := if yday <? 0 then _DAYS_IN_YEAR (year - 1) - 1
                else if _DAYS_IN_YEAR year - 1 <? yday then yday - _DAYS_IN_YEAR year else yday in
    Some (set_yday t yday, tim, days + mday)
  else Some (t, tim, days).

(** Whether daylight saving time is in effect at the local time [tim]; the structure, [tim]
    and [days] after the correction. *)
Definition find_dst (tz : tzinfo) (t : tm) (tim days year : Z) : option (tzinfo * Z * tm * Z * Z) :=
  let y := tm_year t + YEAR_BASE in
  let tm_isdst := if 0 <? tm_isdst t then 1 else tm_isdst t in
  '(tz, known) ← limits_of tz y;
  if known : bool then
    let startdst_dst := tz_change (tzrule0 tz) - tz_offset (tzrule1 tz) in
    let startstd_dst := tz_change (tzrule1 tz) - tz_offset (tzrule1 tz) in
    let startstd_std := tz_change (tzrule1 tz) - tz_offset (tzrule0 tz) in
    if (startstd_std <=? tim) && (tim <? startstd_dst) then Some (tz, tm_isdst, t, tim, days)
    else
      let isdst := if __tznorth tz then (startdst_dst <=? tim) && (tim <? startstd_std)
                   else (startdst_dst <=? tim) || (tim <? startstd_std) in
      let isdst_z := if isdst then 1 else 0 in
      if (0 <=? tm_isdst) && (Z.lxor isdst_z tm_isdst =? 1) then
        '(t, tim, days) ← dst_correction tz isdst t tim days year;
        Some (tz, isdst_z, t, tim, days)
      else Some (tz, isdst_z, t, tim, days)
  else Some (tz, tm_isdst, t, tim, days).

Definition mktime (tzenv : option (list Z)) (stored : bool) (g : tzstate) (t : tm) : option (Z * tm * tzstate) :=
  t ← validate_structure t;
  let tim := tm_sec t + tm_min t * 60 + tm_hour t * 3600 in
  before ← at_index _DAYS_BEFORE_MONTH (tm_mon t);
  let days := tm_mday t - 1 + before in
  let days := if (1 <? tm_mon t) && (_DAYS_IN_YEAR (tm_year t) =? 366) then days + 1 else days in
  let t := set_yday t days in
  if (10000 <? tm_year t) || (tm_year t <? -10000) then Some (-1, t, g)
  else
    let year := tm_year t in
    days ← (if 70 <? year then add_years year days
            else if year <? 70 then sub_years year days else Some days);
    let tim := tim + days * 86400 in
    g ← tzset tzenv stored g;
    '(tz, isdst, t, tim, days) ←
      (if _daylight g then find_dst (ts_info g) t tim days year else Some (ts_info g, 0, t, tim, days));
    let tim := tim + (if isdst =? 1 then tz_offset (tzrule1 tz) else tz_offset (tzrule0 tz)) in
    let wday := Z.rem (days + 4) 7 in
    let wday := if wday <? 0 then wday + 7 else wday in
    Some (tim, set_wday_isdst t wday isdst, set_info g tz).

(** ** localtime_r *)

(** One field of the time of day, at most one unit out of range. *)
Definition adjust (size v next : Z) : Z * Z :=
  if size <=? v then (v - size, next + 1)
  else if v <? 0 then (v + size, next - 1)
  else (v, next).

(** The day after, and the day before, with the lengths of the months. *)
Definition next_day (ip : list Z) (t : tm) : option tm :=
  let yday := tm_yday t + 1 in
  let wday := if 6 <? tm_wday t + 1 then 0 else tm_wday t + 1 in
  let mday := tm_mday t + 1 in
  len ← at_index ip (tm_mon t);
  let '(mday, mon, year, yday) :=
    if len <? mday then
      if tm_mon t + 1 =? 12 then (mday - len, 0, tm_year t + 1, 0)
      else (mday - len, tm_mon t + 1, tm_year t, yday)
    else (mday, tm_mon t, tm_year t, yday) in
  Some (Tm (tm_sec t) (tm_min t) (tm_hour t - HOURSPERDAY) mday mon year wday yday (tm_isdst t)).

Definition prev_day (ip : list Z) (t : tm) : option tm :=
  let yday := tm_yday t - 1 in
  let wday := if tm_wday t - 1 <? 0 then 6 else tm_wday t - 1 in
  let mday := tm_mday t - 1 in
  '(mday, mon, year, yday) ←
    (if mday =? 0 then
       let '(mon, year, yday) :=
         if tm_mon t - 1 <? 0
         then (11, tm_year t - 1, 364 + (if isleap (tm_year t - 1 + YEAR_BASE) then 1 else 0))
         else (tm_mon t - 1, tm_year t, yday) in
       len ← at_index ip mon;
       Some (len, mon, year, yday)
     else Some (mday, tm_mon t, tm_year t, yday));
  Some (Tm (tm_sec t) (tm_min t) (tm_hour t + 24) mday mon year wday yday (tm_isdst t)).

(** The structure for a time, moved west by [offset] seconds. *)
Definition shift_tm (t : tm) (isdst offset : Z) : option tm :=
  let ip := __month_lengths (isleap (tm_year t + YEAR_BASE)) in
  let hours := s32 (Z.quot offset SECSPERHOUR) in
  let offset := Z.rem offset SECSPERHOUR in
  let mins := s32 (Z.quot offset SECSPERMIN) in
  let secs := s32 (Z.rem offset SECSPERMIN) in
  let '(sec, min) := adjust SECSPERMIN (tm_sec t - secs) (tm_min t - mins) in
  let '(min, hour) := adjust MINSPERHOUR min (tm_hour t - hours) in
  let t := Tm sec min hour (tm_mday t) (tm_mon t) (tm_year t) (tm_wday t) (tm_yday t) isdst in
  if HOURSPERDAY <=? hour then next_day ip t
  else if hour <? 0 then prev_day ip t
  else Some t.

Definition in_dst (tz : tzinfo) (tim : Z) : bool :=
  if __tznorth tz then (tz_change (tzrule0 tz) <=? tim) && (tim <? tz_change (tzrule1 tz))
  else (tz_change (tzrule0 tz) <=? tim) || (tim <? tz_change (tzrule1 tz)).

Definition localtime_r (tzenv : option (list Z)) (stored : bool) (g : tzstate) (tim : Z) : option (tm * tzstate) :=
  let t := gmtime_r tim in
  let year := tm_year t + YEAR_BASE in
  g ← tzset tzenv stored g;
  '(tz, isdst) ←
    (if _daylight g then
       '(tz, known) ← limits_of (ts_info g) year;
       if known : bool then Some (tz, if in_dst tz tim then 1 else 0) else Some (tz, -1)
     else Some (ts_info g, 0));
  let offset := if isdst =? 1 then tz_offset (tzrule1 tz) else tz_offset (tzrule0 tz) in
  t ← shift_tm t isdst offset;
  Some (t, set_info g tz).

(** ** Fields and carries *)

Lemma div_quot_rem a b : 0 < b → div a b = (Z.quot a b, Z.rem a b).
Proof.
  intros Hb. unfold div.
  pose proof (Z.rem_nonneg a b ltac:(lia)). pose proof (Z.rem_nonpos a b ltac:(lia)).
  destruct (Z.leb_spec 0 a), (Z.ltb_spec (Z.rem a b) 0), (Z.ltb_spec a 0), (Z.ltb_spec 0 (Z.rem a b));
    cbn [andb]; first [done|lia].
Qed.

Lemma carry_ok size v next : 0 < size → - 2 ^ 31 < next + v / size < 2 ^ 31 - 1 →
  carry size v next = (v mod size, next + v / size).
Proof.
  intros Hs Hn. unfold carry. destruct (_ || _) eqn:E.
  - rewrite div_quot_rem by done. pose proof (rem_floor v size Hs) as F.
    destruct (Z.ltb_spec (Z.rem v size) 0); injection F as E1 E2.
    + rewrite (s32_small (next + Z.quot v size)), s32_small by lia. f_equal; lia.
    + rewrite s32_small by lia. f_equal; lia.
  - apply orb_false_iff in E as [E1 E2]. zb. rewrite Z.mod_small, Z.div_small by lia. f_equal. lia.
Qed.

Lemma rem_eqb a b : b ≠ 0 → (Z.rem a b =? 0) = (a mod b =? 0).
Proof.
  intros Hb. apply eq_true_iff_eq. rewrite !Z.eqb_eq, Z.rem_divide, Z.mod_divide by done. done.
Qed.

Lemma _ISLEAP_ok y : _ISLEAP y = leap (y + 1900).
Proof.
  unfold _ISLEAP, leap. rewrite !rem_eqb by done.
  assert ((y + 1900) mod 4 = y mod 4) as -> by (rewrite <- (Z.mod_add y 475 4) by lia; f_equal; lia).
  assert ((y + 1900) mod 100 = y mod 100) as -> by (rewrite <- (Z.mod_add y 19 100) by lia; f_equal; lia).
  destruct (Z.eqb_spec (y mod 4) 0), (Z.eqb_spec (y mod 100) 0), (Z.eqb_spec ((y + 1900) mod 400) 0);
    try done; exfalso; Z.to_euclidean_division_equations; lia.
Qed.

Lemma _DAYS_IN_YEAR_ok y : _DAYS_IN_YEAR y = year_length (y + 1900).
Proof. unfold _DAYS_IN_YEAR, year_length. by rewrite _ISLEAP_ok. Qed.

Lemma isleap_ok y : isleap y = leap y.
Proof. unfold isleap, leap. by rewrite !rem_eqb. Qed.

(** ** Months *)

Ltac each_month m :=
  let H := fresh in assert (m = 0 ∨ m = 1 ∨ m = 2 ∨ m = 3 ∨ m = 4 ∨ m = 5 ∨ m = 6 ∨ m = 7 ∨
    m = 8 ∨ m = 9 ∨ m = 10 ∨ m = 11) as H by lia;
  destruct H as [->|[->|[->|[->|[->|[->|[->|[->|[->|[->|[->| ->]]]]]]]]]]].

Lemma before_month_next y m : 0 ≤ m < 12 →
  before_month y (m + 1) = before_month y m + month_length y m ∧ 28 ≤ month_length y m ≤ 31.
Proof.
  intros Hm. unfold before_month, month_length. generalize (leap y). intros b.
  each_month m; destruct b; vm_compute; split_and!; done.
Qed.

Lemma before_month_year y : before_month y 12 = year_length y.
Proof. unfold before_month, year_length. by destruct (leap y). Qed.

Lemma _DAYS_IN_MONTH_ok year mon : 0 ≤ mon < 12 →
  _DAYS_IN_MONTH (feb_of year) mon = Some (month_length (year + 1900) mon).
Proof.
  intros Hm. unfold _DAYS_IN_MONTH, feb_of, month_length. rewrite _DAYS_IN_YEAR_ok. unfold year_length.
  generalize (leap (year + 1900)). intros b. each_month mon; by destruct b.
Qed.

(** A month later, and a year later. *)
Lemma day_number_month y m d : 0 ≤ m < 12 → day_number y (m + 1) d = day_number y m (d + month_length y m).
Proof. intros Hm. unfold day_number. destruct (before_month_next y m Hm) as [-> _]. lia. Qed.

Lemma day_number_year y d : day_number (y + 1) 0 d = day_number y 12 d.
Proof. unfold day_number. rewrite before_year_next, before_month_year. change (before_month (y + 1) 0) with 0. lia. Qed.

(** ** validate_structure *)

(** The loops on the day of the month keep the day [N], and stop. *)
Definition month_inv (N : Z) (x : Z * Z * Z * Z) : Prop :=
  let '(mday, mon, year, feb) := x in
  0 ≤ mon < 12 ∧ feb = feb_of year ∧ day_number (year + 1900) mon mday = N.

Definition month_done (N : Z) (x : Z * Z * Z) : Prop :=
  let '(mday, mon, year) := x in
  0 ≤ mon < 12 ∧ 1 ≤ mday ≤ month_length (year + 1900) mon ∧ day_number (year + 1900) mon mday = N ∧
  - 2 ^ 31 ≤ year < 2 ^ 31.

Lemma month_back_ok N mday mon year : month_inv N (mday, mon, year, feb_of year) → mday ≤ 0 →
  - 2 ^ 30 ≤ year < 2 ^ 30 → - 2 ^ 29 ≤ mday →
  ∃ x, loop (S (S (Z.to_nat (Z.abs mday)))) month_back (mday, mon, year, feb_of year) = Some x ∧
    month_done N x.
Proof.
  intros HI Hm Hy Hd.
  apply (loop_inv (λ x, month_inv N x ∧ let '(mday, mon, year, _) := x in
    mday ≤ month_length (year + 1900) mon ∧ year < 2 ^ 30 ∧ - 2 ^ 31 + 100 ≤ year + mday)
    (month_done N) (λ x, let '(mday, _, _, _) := x in Z.max 0 (1 - mday))).
  - clear. intros [[[mday mon] year] feb] [(Hmon & -> & HN) (Hlen & Hy & Hd)]. split; [lia|].
    destruct (before_month_next (year + 1900) mon Hmon) as [_ Hml].
    unfold month_back. destruct (Z.leb_spec mday 0); [|unfold month_done; split_and!; first [done|lia]].
    destruct (Z.eqb_spec (mon - 1) (-1)).
    + assert (mon = 0) as -> by lia. rewrite s32_small by lia.
      rewrite _DAYS_IN_MONTH_ok by lia. cbn [mbind option_bind]. unfold month_inv.
      destruct (before_month_next (year - 1 + 1900) 11 ltac:(lia)) as [_ Hml'].
      pose proof (day_number_month (year - 1 + 1900) 11 mday ltac:(lia)) as E1.
      pose proof (day_number_year (year - 1 + 1900) mday) as E2.
      replace (year - 1 + 1900 + 1) with (year + 1900) in E2 by lia. change (11 + 1) with 12 in E1.
      split_and!; first [done|lia].
    + rewrite _DAYS_IN_MONTH_ok by lia. cbn [mbind option_bind]. unfold month_inv.
      destruct (before_month_next (year + 1900) (mon - 1) ltac:(lia)) as [_ Hml'].
      pose proof (day_number_month (year + 1900) (mon - 1) mday ltac:(lia)) as E1.
      rewrite Z.sub_add in E1. split_and!; first [done|lia].
  - pose proof HI as (Hmon & _ & _). destruct (before_month_next (year + 1900) mon Hmon). split; [done|lia].
  - lia.
Qed.

Lemma month_forward_ok N mday mon year : month_inv N (mday, mon, year, feb_of year) → 0 < mday →
  - 2 ^ 30 ≤ year < 2 ^ 30 → mday ≤ 2 ^ 29 →
  ∃ x, loop (S (S (Z.to_nat (Z.abs mday)))) month_forward (mday, mon, year, feb_of year) = Some x ∧
    month_done N x.
Proof.
  intros HI Hm Hy Hd.
  apply (loop_inv (λ x, month_inv N x ∧ let '(mday, mon, year, _) := x in
    0 < mday ∧ - 2 ^ 30 ≤ year ∧ year + mday < 2 ^ 31)
    (month_done N) (λ x, let '(mday, _, _, _) := x in mday)).
  - clear. intros [[[mday mon] year] feb] [(Hmon & -> & HN) (Hpos & Hy & Hd)]. split; [lia|].
    destruct (before_month_next (year + 1900) mon Hmon) as [_ Hml].
    unfold month_forward. rewrite _DAYS_IN_MONTH_ok by lia. cbn [mbind option_bind].
    destruct (Z.ltb_spec (month_length (year + 1900) mon) mday); [|unfold month_done; split_and!; first [done|lia]].
    pose proof (day_number_month (year + 1900) mon (mday - month_length (year + 1900) mon) Hmon) as E1.
    rewrite Z.sub_add in E1. unfold month_inv. destruct (Z.eqb_spec (mon + 1) 12) as [E12|].
    + rewrite s32_small by lia. rewrite E12 in E1.
      pose proof (day_number_year (year + 1900) (mday - month_length (year + 1900) mon)) as E2.
      replace (year + 1900 + 1) with (year + 1 + 1900) in E2 by lia. split_and!; first [done|lia].
    + split_and!; first [done|lia].
  - split; [done|lia].
  - lia.
Qed.

(** Fields far from the limits of [int]. *)
Definition small (x : Z) : Prop := - 2 ^ 28 ≤ x ≤ 2 ^ 28.
Record small_tm (t : tm) : Prop := {
  s_sec : small (tm_sec t); s_min : small (tm_min t); s_hour : small (tm_hour t);
  s_mday : small (tm_mday t); s_mon : small (tm_mon t); s_year : small (tm_year t) }.

Lemma valid_day_of t : 0 ≤ tm_mon t < 12 → day_of t = day_number (tm_year t + 1900) (tm_mon t) (tm_mday t).
Proof. intros Hm. unfold day_of. by rewrite Z.div_small, Z.mod_small, Z.add_0_r by done. Qed.

Lemma validate_structure_ok t : small_tm t → ∃ t', validate_structure t = Some t' ∧
  valid_tm t' ∧ instant t' = instant t ∧ - 2 ^ 31 ≤ tm_year t' < 2 ^ 31 ∧
  tm_wday t' = tm_wday t ∧ tm_yday t' = tm_yday t ∧ tm_isdst t' = tm_isdst t.
Proof.
  intros [H1 H2 H3 H4 H5 H6]. unfold small in *. unfold validate_structure.
  rewrite carry_ok by (Z.to_euclidean_division_equations; lia).
  set (min := tm_min t + tm_sec t / 60). assert (- 2 ^ 29 < min < 2 ^ 29) as Hmin by (subst min; Z.to_euclidean_division_equations; lia).
  rewrite carry_ok by (Z.to_euclidean_division_equations; lia).
  set (hour := tm_hour t + min / 60). assert (- 2 ^ 29 < hour < 2 ^ 29) as Hhour by (subst hour; Z.to_euclidean_division_equations; lia).
  rewrite carry_ok by (Z.to_euclidean_division_equations; lia).
  set (mday := tm_mday t + hour / 24). assert (- 2 ^ 29 < mday < 2 ^ 29) as Hmday by (subst mday; Z.to_euclidean_division_equations; lia).
  rewrite carry_ok by (Z.to_euclidean_division_equations; lia).
  set (year := tm_year t + tm_mon t / 12). assert (- 2 ^ 29 < year < 2 ^ 29) as Hyear by (subst year; Z.to_euclidean_division_equations; lia).
  pose proof (Z.mod_pos_bound (tm_mon t) 12 ltac:(lia)) as Hmon.
  assert (∃ x, loop (S (S (Z.to_nat (Z.abs mday)))) (if mday <=? 0 then month_back else month_forward)
    (mday, tm_mon t mod 12, year, feb_of year) = Some x ∧ month_done (day_of t + hour / 24) x)
    as ([[mday' mon'] year'] & -> & Hm & Hd & HN & Hy).
  { assert (month_inv (day_of t + hour / 24) (mday, tm_mon t mod 12, year, feb_of year)) as HI.
    { split_and!; [lia..|done|]. unfold day_of, day_number. subst mday year.
      replace (tm_year t + tm_mon t / 12 + 1900) with (tm_year t + 1900 + tm_mon t / 12) by lia. lia. }
    destruct (Z.leb_spec mday 0); [apply month_back_ok|apply month_forward_ok]; first [done|lia]. }
  cbn [mbind option_bind]. eexists. split; [done|]. 
  cbn [tm_sec tm_min tm_hour tm_mday tm_mon tm_year tm_wday tm_yday tm_isdst].
  split_and!; [split; cbn [tm_sec tm_min tm_hour tm_mday tm_mon tm_year]; first [lia|apply Z.mod_pos_bound; lia]| |lia..|done|done|done].
  unfold instant. rewrite (valid_day_of (Tm _ _ _ _ _ _ _ _ _)) by done.
  cbn [tm_sec tm_min tm_hour tm_mday tm_mon tm_year]. rewrite HN.
  subst min. subst hour. Z.to_euclidean_division_equations; lia.
Qed.

(** ** The day of a valid structure *)

Lemma add_years_ok year days : 70 ≤ year → add_years year days = Some (days + before_year (year + 1900)).
Proof.
  intros Hy. apply (loop_inv_eq (λ '(y, d), 70 ≤ y ≤ year ∧ d = days + before_year (y + 1900)) _
    (λ '(y, _), year - y)); [|split; [lia|]|lia].
  - intros [y d] [Hr ->]. split; [lia|]. destruct (Z.ltb_spec y year).
    + rewrite _DAYS_IN_YEAR_ok. pose proof (before_year_next (y + 1900)) as E.
      replace (y + 1900 + 1) with (y + 1 + 1900) in E by lia. lia.
    + by replace y with year by lia.
  - change (70 + 1900) with 1970. change (before_year 1970) with 0. lia.
Qed.

Lemma sub_years_ok year days : year < 70 → sub_years year days = Some (days + before_year (year + 1900)).
Proof.
  intros Hy. apply (loop_inv_eq (λ '(y, d), year ≤ y ≤ 69 ∧ d = days + before_year (y + 1 + 1900)) _
    (λ '(y, _), y - year)); [|split; [lia|]|lia].
  - intros [y d] [Hr ->]. split; [lia|]. pose proof (before_year_next (y + 1900)) as E.
    replace (y + 1900 + 1) with (y + 1 + 1900) in E by lia. rewrite _DAYS_IN_YEAR_ok. destruct (Z.ltb_spec year y).
    + rewrite Z.sub_add. split; lia.
    + replace year with y by lia. lia.
  - change (69 + 1 + 1900) with 1970. change (before_year 1970) with 0. lia.
Qed.

Lemma days_in_year_ok year mon mday : 0 ≤ mon < 12 → ∃ before, at_index _DAYS_BEFORE_MONTH mon = Some before ∧
  (if (1 <? mon) && (_DAYS_IN_YEAR year =? 366) then mday - 1 + before + 1 else mday - 1 + before) =
    before_month (year + 1900) mon + mday - 1.
Proof.
  intros Hm. unfold before_month. rewrite _DAYS_IN_YEAR_ok. unfold year_length.
  generalize (leap (year + 1900)). intros b. each_month mon; (eexists; split; [done|]); destruct b;
    match goal with |- context [foldr Z.add 0 ?l] =>
      let v := eval vm_compute in (foldr Z.add 0 l) in change (foldr Z.add 0 l) with v end; cbn; lia.
Qed.

(** What [mktime] finds before it looks at the time zone. *)
Lemma mktime_valid t days : valid_tm t → days = before_month (tm_year t + 1900) (tm_mon t) + tm_mday t - 1 →
  (if 70 <? tm_year t then add_years (tm_year t) days
   else if tm_year t <? 70 then sub_years (tm_year t) days else Some days) = Some (day_of t) ∧
  tm_sec t + tm_min t * 60 + tm_hour t * 3600 + day_of t * 86400 = instant t.
Proof.
  intros Hv ->. split; [|unfold instant; lia]. rewrite valid_day_of by apply Hv. unfold day_number.
  destruct (Z.ltb_spec 70 (tm_year t)); [rewrite add_years_ok by lia; f_equal; lia|].
  destruct (Z.ltb_spec (tm_year t) 70); [rewrite sub_years_ok by lia; f_equal; lia|].
  replace (tm_year t) with 70 by lia. change (before_year (70 + 1900)) with 0. f_equal. lia.
Qed.

(** ** A shift by less than a day *)

Lemma adjust_ok size v next : 0 < size → - size ≤ v < 2 * size → adjust size v next = (v mod size, next + v / size).
Proof.
  intros Hs Hv. unfold adjust. destruct (Z.leb_spec size v); [|destruct (Z.ltb_spec v 0)]; f_equal.
  - apply (Z.mod_unique_pos v size 1); lia.
  - rewrite <- (Z.div_unique_pos v size 1 (v - size)); lia.
  - apply (Z.mod_unique_pos v size (-1)); lia.
  - rewrite <- (Z.div_unique_pos v size (-1) (v + size)); lia.
  - by rewrite Z.mod_small by lia.
  - rewrite Z.div_small; lia.
Qed.

Lemma month_at year mon : 0 ≤ mon < 12 →
  at_index (__month_lengths (isleap (year + YEAR_BASE))) mon = Some (month_length (year + 1900) mon).
Proof.
  intros Hm. unfold month_length, YEAR_BASE. rewrite isleap_ok. generalize (leap (year + 1900)). intros b.
  each_month mon; by destruct b.
Qed.

(** A date with its derived fields, and an hour that may lie in the next day or in the one before. *)
Record dated (t : tm) : Prop := {
  d_sec : 0 ≤ tm_sec t < 60; d_min : 0 ≤ tm_min t < 60; d_mon : 0 ≤ tm_mon t < 12;
  d_mday : 1 ≤ tm_mday t ≤ month_length (tm_year t + 1900) (tm_mon t); d_derived : derived t }.

Lemma week_next w d : w = (d + 4) mod 7 → (if 6 <? w + 1 then 0 else w + 1) = (d + 1 + 4) mod 7.
Proof. intros ->. destruct (Z.ltb_spec 6 ((d + 4) mod 7 + 1)); Z.to_euclidean_division_equations; lia. Qed.

Lemma week_prev w d : w = (d + 4) mod 7 → (if w - 1 <? 0 then 6 else w - 1) = (d - 1 + 4) mod 7.
Proof. intros ->. destruct (Z.ltb_spec ((d + 4) mod 7 - 1) 0); Z.to_euclidean_division_equations; lia. Qed.

Lemma date_ok sec min hour mday mon year wday yday dst D :
  0 ≤ sec < 60 → 0 ≤ min < 60 → 0 ≤ hour < 24 → 0 ≤ mon < 12 → 1 ≤ mday ≤ month_length (year + 1900) mon →
  day_number (year + 1900) mon mday = D → wday = (D + 4) mod 7 →
  yday = before_month (year + 1900) mon + mday - 1 →
  let t := Tm sec min hour mday mon year wday yday dst in
  valid_tm t ∧ instant t = D * 86400 + hour * 3600 + min * 60 + sec ∧ derived t ∧ tm_isdst t = dst.
Proof.
  intros Hs Hmi Hh Hm Hd HD Hw Hy t. unfold instant, derived. rewrite (valid_day_of t) by done.
  cbn [t tm_sec tm_min tm_hour tm_mday tm_mon tm_year tm_wday tm_yday tm_isdst]. rewrite HD. by split_and!.
Qed.

Lemma next_day_ok t : dated t → 24 ≤ tm_hour t < 48 →
  ∃ t', next_day (__month_lengths (isleap (tm_year t + YEAR_BASE))) t = Some t' ∧
    valid_tm t' ∧ instant t' = instant t ∧ derived t' ∧ tm_isdst t' = tm_isdst t.
Proof.
  intros [Hs Hmi Hmo Hd [Hw Hy]] Hh. unfold next_day, HOURSPERDAY. rewrite month_at by done.
  cbn [mbind option_bind]. rewrite (week_next _ _ Hw). pose proof (valid_day_of t Hmo) as Ed.
  destruct (before_month_next (tm_year t + 1900) (tm_mon t) Hmo) as [Hbm Hml].
  assert (instant t = (day_of t + 1) * 86400 + (tm_hour t - 24) * 3600 + tm_min t * 60 + tm_sec t) as ->
    by (unfold instant; lia).
  destruct (Z.ltb_spec (month_length (tm_year t + 1900) (tm_mon t)) (tm_mday t + 1)).
  - assert (tm_mday t = month_length (tm_year t + 1900) (tm_mon t)) as Em by lia.
    pose proof (day_number_month (tm_year t + 1900) (tm_mon t) 1 Hmo) as E1.
    replace (tm_mday t + 1 - month_length (tm_year t + 1900) (tm_mon t)) with 1 by lia.
    assert (day_number (tm_year t + 1900) (tm_mon t + 1) 1 = day_of t + 1) as E2
      by (rewrite E1, Ed; unfold day_number; lia).
    destruct (Z.eqb_spec (tm_mon t + 1) 12) as [E12|]; (eexists; split; [done|]); apply date_ok; try done; try lia.
    + rewrite <- E2, E12, <- day_number_year. f_equal. lia.
    + destruct (before_month_next (tm_year t + 1900) (tm_mon t + 1)) as [_ Hml0]; lia.
  - eexists. split; [done|]. apply date_ok; try done; try lia. rewrite Ed. unfold day_number. lia.
Qed.

Lemma prev_day_ok t : dated t → - 24 ≤ tm_hour t < 0 →
  ∃ t', prev_day (__month_lengths (isleap (tm_year t + YEAR_BASE))) t = Some t' ∧
    valid_tm t' ∧ instant t' = instant t ∧ derived t' ∧ tm_isdst t' = tm_isdst t.
Proof.
  intros [Hs Hmi Hmo Hd [Hw Hy]] Hh. unfold prev_day.
  rewrite (week_prev _ _ Hw). pose proof (valid_day_of t Hmo) as Ed.
  assert (instant t = (day_of t - 1) * 86400 + (tm_hour t + 24) * 3600 + tm_min t * 60 + tm_sec t) as ->
    by (unfold instant; lia).
  destruct (Z.eqb_spec (tm_mday t - 1) 0) as [E1|].
  - destruct (Z.ltb_spec (tm_mon t - 1) 0).
    + assert (tm_mon t = 0) as E0 by lia. rewrite month_at by lia. cbn [mbind option_bind].
      eexists. split; [done|].
      assert (∀ y, month_length y 11 = 31) as H31 by (intros y; unfold month_length; by destruct (leap y)).
      rewrite !H31.
      assert (day_number (tm_year t - 1 + 1900) 11 31 = day_of t - 1) as E2.
      { rewrite Ed, E0. replace (tm_mday t) with 1 by lia.
        replace (tm_year t + 1900) with (tm_year t - 1 + 1900 + 1) by lia.
        rewrite day_number_year. change 12 with (11 + 1). rewrite day_number_month, H31 by lia.
        unfold day_number. lia. }
      apply date_ok; try done; try lia.
      unfold YEAR_BASE. rewrite isleap_ok. unfold before_month. by destruct (leap (tm_year t - 1 + 1900)).
    + rewrite month_at by lia. cbn [mbind option_bind]. eexists. split; [done|].
      pose proof (day_number_month (tm_year t + 1900) (tm_mon t - 1) 0 ltac:(lia)) as E2. rewrite Z.sub_add in E2.
      destruct (before_month_next (tm_year t + 1900) (tm_mon t - 1) ltac:(lia)) as [Hbm Hml]. rewrite Z.sub_add in Hbm.
      apply date_ok; try done; try lia. rewrite Ed. replace (tm_mday t) with 1 by lia.
      unfold day_number in *. lia.
  - cbn [mbind option_bind]. eexists. split; [done|]. apply date_ok; try done; try lia.
    rewrite Ed. unfold day_number. lia.
Qed.

Lemma shift_tm_ok t isdst offset : valid_tm t → derived t → - 86400 < offset < 86400 →
  ∃ t', shift_tm t isdst offset = Some t' ∧
    valid_tm t' ∧ instant t' = instant t - offset ∧ derived t' ∧ tm_isdst t' = isdst.
Proof.
  intros [H1 H2 H3 H4 H5] [Hw Hy] Ho. unfold shift_tm, SECSPERHOUR, SECSPERMIN, MINSPERHOUR, HOURSPERDAY.
  change (60 * 60) with 3600.
  pose proof (Z.quot_rem offset 3600 ltac:(lia)) as E1. pose proof (Z.rem_bound_abs offset 3600 ltac:(lia)) as B1.
  set (o := Z.rem offset 3600) in *. set (h := Z.quot offset 3600) in *.
  pose proof (Z.quot_rem o 60 ltac:(lia)) as E2. pose proof (Z.rem_bound_abs o 60 ltac:(lia)) as B2.
  set (s := Z.rem o 60) in *. set (mi := Z.quot o 60) in *.
  assert (- 24 < h < 24 ∧ - 60 < mi < 60) as [Bh Bmi].
  { subst h mi. split; Z.to_euclidean_division_equations; lia. }
  clearbody o h s mi. rewrite (s32_small h), (s32_small mi), (s32_small s) by lia.
  rewrite adjust_ok by lia.
  assert (-1 ≤ (tm_sec t - s) / 60 ≤ 1) by (Z.to_euclidean_division_equations; lia).
  rewrite adjust_ok by lia. set (min := tm_min t - mi + (tm_sec t - s) / 60) in *.
  assert (-1 ≤ min / 60 ≤ 1) by (subst min; Z.to_euclidean_division_equations; lia).
  set (hour := tm_hour t - h + min / 60).
  set (t1 := Tm ((tm_sec t - s) mod 60) (min mod 60) hour (tm_mday t) (tm_mon t) (tm_year t) (tm_wday t) (tm_yday t) isdst).
  assert (dated t1) as Ht1.
  { split; cbn [t1 tm_sec tm_min tm_mon tm_mday tm_year]; first [done|by apply Z.mod_pos_bound|idtac]. }
  assert (instant t1 = instant t - offset) as Ei.
  { unfold instant. change (day_of t1) with (day_of t). cbn [t1 tm_sec tm_min tm_hour].
    subst hour min. Z.to_euclidean_division_equations; lia. }
  change (tm_year t) with (tm_year t1). rewrite <- Ei.
  destruct (Z.leb_spec 24 hour); [by apply next_day_ok; [|cbn [t1 tm_hour]; lia]|].
  destruct (Z.ltb_spec hour 0); [by apply prev_day_ok; [|cbn [t1 tm_hour]; lia]|].
  exists t1. split_and!; [done| |done|by apply Ht1|done]. destruct Ht1. split; try done.
Qed.

(** ** mktime and localtime_r *)

Lemma validate_structure_id t : valid_tm t → validate_structure t = Some t.
Proof.
  intros [H1 H2 H3 H4 H5]. unfold validate_structure.
  assert (∀ size v next, 0 ≤ v < size → carry size v next = (v, next)) as Hc.
  { intros size v next Hv. unfold carry. destruct (Z.ltb_spec v 0); [lia|].
    destruct (Z.ltb_spec (size - 1) v); [lia|done]. }
  rewrite !Hc by done. destruct (Z.leb_spec (tm_mday t) 0); [lia|]. rewrite loop_S. unfold month_forward at 2.
  rewrite _DAYS_IN_MONTH_ok by done. cbn [mbind option_bind].
  destruct (Z.ltb_spec (month_length (tm_year t + 1900) (tm_mon t)) (tm_mday t)); [lia|].
  cbn. by destruct t.
Qed.

(** Up to the time zone: the structure with its day of the year, the local time and the day. *)
Definition mktime_zone (tz : tzinfo) (daylight : bool) (t : tm) : option (Z * tm * tzinfo) :=
  '(tz, isdst, t, tim, days) ←
    (if daylight then find_dst tz t (instant t) (day_of t) (tm_year t)
     else Some (tz, 0, t, instant t, day_of t));
  let tim := tim + (if isdst =? 1 then tz_offset (tzrule1 tz) else tz_offset (tzrule0 tz)) in
  Some (tim, set_wday_isdst t ((days + 4) mod 7) isdst, tz).

Definition with_yday (t : tm) : tm :=
  set_yday t (before_month (tm_year t + 1900) (tm_mon t) + tm_mday t - 1).

Lemma mktime_eq tzenv stored g t t' : validate_structure t = Some t' → valid_tm t' →
  mktime tzenv stored g t =
    if (10000 <? tm_year t') || (tm_year t' <? -10000) then Some (-1, with_yday t', g)
    else
      g ← tzset tzenv stored g;
      '(tim, t, tz) ← mktime_zone (ts_info g) (_daylight g) (with_yday t');
      Some (tim, t, set_info g tz).
Proof.
  intros E Hv. unfold mktime. rewrite E. cbn [mbind option_bind].
  destruct (days_in_year_ok (tm_year t') (tm_mon t') (tm_mday t')) as (before & -> & Ed); [apply Hv|].
  cbn [mbind option_bind]. rewrite Ed. fold (with_yday t').
  change (tm_year (with_yday t')) with (tm_year t'). destruct (_ || _); [done|].
  destruct (mktime_valid t' _ Hv eq_refl) as [-> Ei]. cbn [mbind option_bind]. rewrite Ei.
  destruct (tzset tzenv stored g) as [g1|]; [|done]. cbn [mbind option_bind]. unfold mktime_zone.
  change (instant (with_yday t')) with (instant t'). change (day_of (with_yday t')) with (day_of t').
  change (tm_year (with_yday t')) with (tm_year t').
  destruct (_daylight g1); [destruct (find_dst _ _ _ _ _) as [[[[[tz1 isdst] t1] tim] days]|]; [|done]|];
    cbn [mbind option_bind fst snd]; by rewrite (rem_mod _ 7).
Qed.

Lemma before_year_bounds y :
  (1970 ≤ y → 365 * (y - 1970) ≤ before_year y) ∧ (y ≤ 1970 → before_year y ≤ 365 * (y - 1970)).
Proof.
  unfold before_year. change (1969 / 4) with 492. change (1969 / 100) with 19. change (1969 / 400) with 4.
  split; intros Hy; Z.to_euclidean_division_equations; lia.
Qed.

Lemma before_month_bounds y m : 0 ≤ m < 12 → 0 ≤ before_month y m ≤ 335.
Proof.
  intros Hm. unfold before_month. generalize (leap y). intros b.
  each_month m; destruct b; vm_compute; split; done.
Qed.

(** The years of which [mktime] computes the time. *)
Lemma year_bound t : valid_tm t → - 310000000000 ≤ instant t ≤ 310000000000 → -10000 ≤ tm_year t ≤ 10000.
Proof.
  intros Hv Hi. destruct Hv as [H1 H2 H3 H4 H5]. unfold instant in Hi. rewrite valid_day_of in Hi by done.
  unfold day_number in Hi. pose proof (before_month_bounds (tm_year t + 1900) (tm_mon t) H4).
  destruct (before_month_next (tm_year t + 1900) (tm_mon t) H4) as [_ Hml].
  destruct (before_year_bounds (tm_year t + 1900)) as [Hlo Hhi].
  destruct (Z.le_gt_cases 1970 (tm_year t + 1900)); [specialize (Hlo ltac:(lia))|specialize (Hhi ltac:(lia))]; lia.
Qed.

(** *** The zone of a year *)

Lemma limits_of_known tz y tz1 : limits_of tz y = Some (tz1, true) →
  __tzyear tz1 = y ∧ tz_offset (tzrule0 tz1) = tz_offset (tzrule0 tz) ∧
  tz_offset (tzrule1 tz1) = tz_offset (tzrule1 tz).
Proof.
  unfold limits_of. destruct (Z.eqb_spec y (__tzyear tz)) as [->|]; [by intros [= <-]|].
  unfold __tzcalc_limits. destruct (y <? EPOCH_YEAR); [done|].
  destruct (rule_days (tzrule0 tz) _ _) as [d0|]; [|done]. cbn [mbind option_bind].
  destruct (rule_days (tzrule1 tz) _ _) as [d1|]; [|done]. cbn [mbind option_bind]. by intros [= <-].
Qed.

(** The local time tells [mktime] what [localtime_r] decided. *)
Lemma find_dst_ok tz t tim dst : __tzyear tz = tm_year t + 1900 →
  tz_offset (tzrule1 tz) < tz_offset (tzrule0 tz) → in_dst tz tim = dst →
  tm_isdst t = (if dst then 1 else 0) →
  ∀ loc days year, loc = tim - (if dst then tz_offset (tzrule1 tz) else tz_offset (tzrule0 tz)) →
  find_dst tz t loc days year = Some (tz, if dst then 1 else 0, t, loc, days).
Proof.
  intros Hy Ho Hd Ht loc days year ->. unfold find_dst, limits_of, YEAR_BASE. rewrite Hy, Z.eqb_refl, Ht.
  cbn [mbind option_bind]. unfold in_dst in Hd.
  assert ((if 0 <? (if dst then 1 else 0) then 1 else if dst then 1 else 0) = if dst then 1 else 0) as ->
    by (by destruct dst).
  set (c0 := tz_change (tzrule0 tz)) in *. set (c1 := tz_change (tzrule1 tz)) in *.
  set (o0 := tz_offset (tzrule0 tz)) in *. set (o1 := tz_offset (tzrule1 tz)) in *.
  destruct ((c1 - o0 <=? tim - (if dst then o1 else o0)) && (tim - (if dst then o1 else o0) <? c1 - o1)) eqn:Eo;
    [done|].
  assert ((if __tznorth tz then (c0 - o1 <=? tim - (if dst then o1 else o0)) && (tim - (if dst then o1 else o0) <? c1 - o0)
    else (c0 - o1 <=? tim - (if dst then o1 else o0)) || (tim - (if dst then o1 else o0) <? c1 - o0)) = dst) as ->.
  { revert Hd Eo. destruct (__tznorth tz), dst; intros; lia. }
  destruct dst; [by rewrite andb_false_r|done].
Qed.

(** What [localtime_r] decides about the zone, the offset that follows, and the zone
    after. *)
Definition decided (g : tzstate) (tim : Z) (tz : tzinfo) (isdst : Z) : Prop :=
  if _daylight g then ∃ known, limits_of (ts_info g) (tm_year (gmtime_r tim) + 1900) = Some (tz, known) ∧
    isdst = if known : bool then if in_dst tz tim then 1 else 0 else -1
  else tz = ts_info g ∧ isdst = 0.

Definition offset_of (tz : tzinfo) (isdst : Z) : Z :=
  if isdst =? 1 then tz_offset (tzrule1 tz) else tz_offset (tzrule0 tz).

Lemma decided_ex g tim : wf_info (ts_info g) → ∃ tz isdst, decided g tim tz isdst ∧ wf_info tz ∧
  (isdst = 0 ∨ _daylight g = true ∧ (isdst = 1 ∨ isdst = -1)) ∧
  tz_offset (tzrule0 tz) = tz_offset (tzrule0 (ts_info g)) ∧
  tz_offset (tzrule1 tz) = tz_offset (tzrule1 (ts_info g)).
Proof.
  intros Hw. unfold decided. destruct (_daylight g); [|by eexists _, _; split_and!; [|..|left|done|done]].
  destruct (limits_of_total _ (tm_year (gmtime_r tim) + 1900) Hw) as (tz & b & E & Hw' & H0 & H1 & _).
  eexists tz, _. split; [by exists b|]. split_and!; try done. destruct b; [destruct (in_dst tz tim)|]; auto.
Qed.

Lemma localtime_r_ok tzenv stored g g1 tim tz isdst : tzset tzenv stored g = Some g1 →
  decided g1 tim tz isdst → - 2 ^ 55 ≤ tim < 2 ^ 55 →
  - 86400 < offset_of tz isdst < 86400 →
  ∃ t, localtime_r tzenv stored g tim = Some (t, set_info g1 tz) ∧
    valid_tm t ∧ instant t = tim - offset_of tz isdst ∧ derived t ∧ tm_isdst t = isdst.
Proof.
  intros Hset Hz Ht Ho. destruct (gmtime_r_ok tim Ht) as (Hv & Hi & Hd & _ & _).
  destruct (shift_tm_ok (gmtime_r tim) isdst (offset_of tz isdst) Hv Hd Ho) as (t & E & Hv' & Hi' & Hd' & Hdst).
  exists t. rewrite Hi in Hi'. split_and!; try done. unfold localtime_r, YEAR_BASE. rewrite Hset.
  cbn [mbind option_bind].
  assert ((if _daylight g1 then
       '(tz, known) ← limits_of (ts_info g1) (tm_year (gmtime_r tim) + 1900);
       if known : bool then Some (tz, if in_dst tz tim then 1 else 0) else Some (tz, -1)
     else Some (ts_info g1, 0)) = Some (tz, isdst)) as ->.
  { unfold decided in Hz. destruct (_daylight g1).
    - destruct Hz as (known & -> & ->). by destruct known.
    - by destruct Hz as [-> ->]. }
  cbn [mbind option_bind]. fold (offset_of tz isdst). by rewrite E.
Qed.

(** ** One day later *)

Lemma before_month_mono y m m' : 0 ≤ m → m ≤ m' → m' ≤ 12 → before_month y m ≤ before_month y m'.
Proof.
  intros H0 Hm H12. assert (∃ k : nat, m' = m + Z.of_nat k) as [k ->] by (exists (Z.to_nat (m' - m)); lia).
  induction k as [|k IH]; [rewrite Z.add_0_r; lia|].
  assert (0 ≤ m + Z.of_nat k < 12) as Hk by lia. destruct (before_month_next y _ Hk) as [E Hl].
  replace (m + Z.of_nat (S k)) with (m + Z.of_nat k + 1) by lia. lia.
Qed.

Lemma before_year_mono y y' : y ≤ y' → before_year y ≤ before_year y'.
Proof.
  intros Hy. unfold before_year. change (1969 / 4) with 492. change (1969 / 100) with 19. change (1969 / 400) with 4.
  Z.to_euclidean_division_equations; lia.
Qed.

(** A day is in its year and in its month. *)
Lemma day_in_year y m d : 0 ≤ m < 12 → 1 ≤ d ≤ month_length y m →
  before_year y ≤ day_number y m d < before_year (y + 1) ∧
  before_month y m ≤ day_number y m d - before_year y < before_month y (m + 1).
Proof.
  intros Hm Hd. unfold day_number. destruct (before_month_next y m Hm) as [E _].
  pose proof (before_month_mono y 0 m ltac:(lia) ltac:(lia) ltac:(lia)) as H0. change (before_month y 0) with 0 in H0.
  pose proof (before_month_mono y (m + 1) 12 ltac:(lia) ltac:(lia) ltac:(lia)) as H1.
  rewrite before_month_year in H1. rewrite before_year_next. lia.
Qed.

Lemma date_unique y m d y' m' d' : 0 ≤ m < 12 → 1 ≤ d ≤ month_length y m →
  0 ≤ m' < 12 → 1 ≤ d' ≤ month_length y' m' → day_number y m d = day_number y' m' d' →
  y = y' ∧ m = m' ∧ d = d'.
Proof.
  intros Hm Hd Hm' Hd' E. destruct (day_in_year y m d Hm Hd) as [Hy Hb].
  destruct (day_in_year y' m' d' Hm' Hd') as [Hy' Hb']. rewrite <- E in *.
  assert (y = y') as ->.
  { destruct (Z.lt_trichotomy y y') as [?|[?|?]]; [|done|].
    - pose proof (before_year_mono (y + 1) y' ltac:(lia)). lia.
    - pose proof (before_year_mono (y' + 1) y ltac:(lia)). lia. }
  assert (m = m') as ->.
  { destruct (Z.lt_trichotomy m m') as [?|[?|?]]; [|done|].
    - pose proof (before_month_mono y' (m + 1) m' ltac:(lia) ltac:(lia) ltac:(lia)). lia.
    - pose proof (before_month_mono y' (m' + 1) m ltac:(lia) ltac:(lia) ltac:(lia)). lia. }
  split_and!; [done|done|]. unfold day_number in E. lia.
Qed.

(** The date of the next day. *)
Lemma next_date t t' : valid_tm t → valid_tm t' → day_of t' = day_of t + 1 →
  tm_year t' = tm_year t ∧ tm_mday t' = tm_mday t + 1 ∨
  tm_year t' = tm_year t ∧ tm_mday t' = 1 ∧ 28 ≤ tm_mday t ∨
  tm_year t' = tm_year t + 1 ∧ tm_mday t' = 1 ∧ 28 ≤ tm_mday t.
Proof.
  intros [_ _ _ Hm Hd] [_ _ _ Hm' Hd'] E. rewrite !valid_day_of in E by done.
  set (y := tm_year t + 1900) in *. set (y' := tm_year t' + 1900) in *.
  destruct (before_month_next y (tm_mon t) Hm) as [En Hl].
  destruct (decide (tm_mday t < month_length y (tm_mon t))).
  - destruct (date_unique y' (tm_mon t') (tm_mday t') y (tm_mon t) (tm_mday t + 1)) as (? & ? & ?);
      try done; [lia|rewrite E; unfold day_number; lia|]. left. lia.
  - assert (tm_mday t = month_length y (tm_mon t)) as Em by lia. right.
    destruct (decide (tm_mon t = 11)) as [E11|].
    + destruct (before_month_next (y + 1) 0 ltac:(lia)) as [_ ?].
      destruct (date_unique y' (tm_mon t') (tm_mday t') (y + 1) 0 1) as (? & ? & ?); [done|done|lia|lia| |].
      { rewrite E, day_number_year. rewrite E11 in *. change (11 + 1) with 12 in En. unfold day_number. lia. }
      right. lia.
    + destruct (before_month_next y (tm_mon t + 1) ltac:(lia)) as [_ ?].
      destruct (date_unique y' (tm_mon t') (tm_mday t') y (tm_mon t + 1) 1) as (? & ? & ?); try (done || lia).
      rewrite E. unfold day_number. lia.
Qed.

Definition yday_of (t : tm) : Z := before_month (tm_year t + 1900) (tm_mon t) + tm_mday t - 1.

Lemma yday_of_day t : valid_tm t → yday_of t = day_of t - before_year (tm_year t + 1900) ∧
  0 ≤ yday_of t < year_length (tm_year t + 1900).
Proof.
  intros [_ _ _ Hm Hd]. destruct (day_in_year _ _ _ Hm Hd) as [Hy _]. rewrite before_year_next in Hy.
  rewrite valid_day_of by done. unfold yday_of, day_number in *. lia.
Qed.

(** ** The correction for daylight saving time *)

Lemma day_of_instant t : valid_tm t → day_of t = instant t / 86400.
Proof. intros [? ? ? _ _]. unfold instant. apply Z.div_unique with (tm_hour t * 3600 + tm_min t * 60 + tm_sec t); lia. Qed.

Lemma valid_small t d : valid_tm t → -10000 ≤ tm_year t ≤ 10000 → - 2 ^ 20 ≤ d ≤ 2 ^ 20 →
  small_tm (set_sec t (tm_sec t + d)).
Proof.
  intros [? ? ? Hm Hd] Hy Hdd. destruct (before_month_next (tm_year t + 1900) (tm_mon t) Hm) as [_ ?].
  split; unfold small; cbn; lia.
Qed.

Definition shift_of (tz : tzinfo) (isdst : bool) : Z :=
  if isdst then tz_offset (tzrule0 tz) - tz_offset (tzrule1 tz)
  else tz_offset (tzrule1 tz) - tz_offset (tzrule0 tz).

(** What the code makes of the change of [tm_mday]: the number of days moved. *)
Definition days_moved (mday : Z) : Z := if 1 <? mday then -1 else if mday <? -1 then 1 else mday.

Lemma days_moved_ok t t1 : valid_tm t → valid_tm t1 →
  day_of t1 = day_of t - 1 ∨ day_of t1 = day_of t ∨ day_of t1 = day_of t + 1 →
  let δ := days_moved (tm_mday t1 - tm_mday t) in
  -1 ≤ δ ≤ 1 ∧ day_of t1 = day_of t + δ ∧ (tm_year t1 = tm_year t ∨ tm_year t1 = tm_year t + δ ∧ δ ≠ 0) ∧
  (tm_mday t1 - tm_mday t = 0 → δ = 0).
Proof.
  intros Hv Hv1 Hday δ. unfold δ, days_moved.
  destruct Hday as [Hd|[Hd|Hd]].
  - assert (day_of t = day_of t1 + 1) as Hd' by lia.
    destruct (next_date t1 t Hv1 Hv Hd') as [[? ?]|[(? & ? & ?)|(? & ? & ?)]];
      (destruct (Z.ltb_spec 1 (tm_mday t1 - tm_mday t)); [|destruct (Z.ltb_spec (tm_mday t1 - tm_mday t) (-1))]); lia.
  - pose proof Hd as Hd'. rewrite !valid_day_of in Hd' by (apply Hv1 || apply Hv).
    destruct (date_unique _ _ _ _ _ _ (v_mon _ Hv1) (v_mday _ Hv1) (v_mon _ Hv) (v_mday _ Hv) Hd') as (? & ? & E).
    rewrite E, Z.sub_diag. cbn. lia.
  - destruct (next_date t t1 Hv Hv1 Hd) as [[? ?]|[(? & ? & ?)|(? & ? & ?)]];
      (destruct (Z.ltb_spec 1 (tm_mday t1 - tm_mday t)); [|destruct (Z.ltb_spec (tm_mday t1 - tm_mday t) (-1))]); lia.
Qed.

(** And of [tm_yday]. *)
Lemma yday_moved t t1 δ : valid_tm t → valid_tm t1 → -1 ≤ δ ≤ 1 → day_of t1 = day_of t + δ →
  tm_year t1 = tm_year t ∨ tm_year t1 = tm_year t + δ ∧ δ ≠ 0 →
  (if yday_of t + δ <? 0 then _DAYS_IN_YEAR (tm_year t - 1) - 1
   else if _DAYS_IN_YEAR (tm_year t) - 1 <? yday_of t + δ then yday_of t + δ - _DAYS_IN_YEAR (tm_year t)
   else yday_of t + δ) = yday_of t1.
Proof.
  intros Hv Hv1 Hδ Ed Ey. destruct (yday_of_day t Hv) as [Y Yb]. destruct (yday_of_day t1 Hv1) as [Y1 Yb1].
  rewrite !_DAYS_IN_YEAR_ok. pose proof (before_year_next (tm_year t - 1 + 1900)) as P.
  pose proof (before_year_next (tm_year t + 1900)) as N.
  replace (tm_year t - 1 + 1900 + 1) with (tm_year t + 1900) in P by lia.
  replace (tm_year t + 1900 + 1) with (tm_year t + 1 + 1900) in N by lia.
  assert (tm_year t1 = tm_year t ∨ δ = 1 ∧ tm_year t1 = tm_year t + 1 ∨
    δ = -1 ∧ tm_year t1 = tm_year t - 1) as [E|[[-> E]|[-> E]]] by lia; rewrite E in *.
  - destruct (Z.ltb_spec (yday_of t + δ) 0); [lia|].
    destruct (Z.ltb_spec (year_length (tm_year t + 1900) - 1) (yday_of t + δ)); lia.
  - destruct (Z.ltb_spec (yday_of t + 1) 0); [lia|].
    destruct (Z.ltb_spec (year_length (tm_year t + 1900) - 1) (yday_of t + 1)); lia.
  - destruct (Z.ltb_spec (yday_of t + -1) 0); lia.
Qed.

(** The structure after the seconds are moved by at most a day. *)
Lemma validate_moved t d : valid_tm t → -10000 ≤ tm_year t ≤ 10000 → Z.abs d ≤ 86400 →
  ∃ t1, validate_structure (set_sec t (s32 (tm_sec t + d))) = Some t1 ∧ valid_tm t1 ∧
    instant t1 = instant t + d ∧ tm_yday t1 = tm_yday t ∧
    (day_of t1 = day_of t - 1 ∨ day_of t1 = day_of t ∨ day_of t1 = day_of t + 1).
Proof.
  intros Hv Hyear Hd. rewrite s32_small by (destruct Hv; lia).
  destruct (validate_structure_ok (set_sec t (tm_sec t + d))) as (t1 & E & Hv1 & Hi & _ & _ & Hy & _);
    [apply valid_small; [done|done|lia]|].
  assert (instant t1 = instant t + d) as Hi'.
  { rewrite Hi. unfold instant. change (day_of (set_sec t (tm_sec t + d))) with (day_of t). cbn. lia. }
  exists t1. split_and!; try done. rewrite !day_of_instant, Hi' by done. Z.to_euclidean_division_equations; lia.
Qed.

Lemma dst_correction_ok tz isdst t : valid_tm t → tm_yday t = yday_of t → -10000 ≤ tm_year t ≤ 10000 →
  Z.abs (shift_of tz isdst) ≤ 86400 →
  ∃ t', dst_correction tz isdst t (instant t) (day_of t) (tm_year t) =
      Some (t', instant t', day_of t') ∧
    valid_tm t' ∧ instant t' = instant t + shift_of tz isdst ∧ tm_yday t' = yday_of t'.
Proof.
  intros Hv Hy Hyear Hs. unfold dst_correction.
  assert ((if isdst then s32 (tz_offset (tzrule0 tz) - tz_offset (tzrule1 tz))
    else s32 (- s32 (tz_offset (tzrule0 tz) - tz_offset (tzrule1 tz)))) = shift_of tz isdst) as ->.
  { unfold shift_of in *. rewrite (s32_small (_ - _)) by (destruct isdst; lia).
    destruct isdst; [done|]. rewrite s32_small; lia. }
  destruct (validate_moved t (shift_of tz isdst) Hv Hyear Hs) as (t1 & -> & Hv1 & Hi & Hyd & Hday).
  cbn [mbind option_bind]. fold (days_moved (tm_mday t1 - tm_mday t)).
  destruct (days_moved_ok t t1 Hv Hv1 Hday) as (Hδ & Ed & Ey & H0).
  pose proof (yday_moved t t1 _ Hv Hv1 Hδ Ed Ey) as Hm. rewrite Hyd, Hy, Hm, <- Hi, <- Ed.
  unfold truth. destruct (Z.eqb_spec (tm_mday t1 - tm_mday t) 0) as [E|E]; cbn [negb].
  - exists t1. rewrite (H0 E) in *. rewrite Z.add_0_r in *. rewrite Ed. split_and!; try done.
    rewrite Hyd, Hy, <- Hm. destruct (yday_of_day t Hv) as [_ Yb]. rewrite !_DAYS_IN_YEAR_ok.
    destruct (Z.ltb_spec (yday_of t) 0); [lia|].
    destruct (Z.ltb_spec (year_length (tm_year t + 1900) - 1) (yday_of t)); lia.
  - exists (set_yday t1 (yday_of t1)). split_and!; [done|by destruct Hv1|done|done].
Qed.

(** The offset a structure is for, by its [tm_isdst]. *)
Definition claimed (t : tm) : Z := if 0 <? tm_isdst t then 1 else 0.

Lemma find_dst_total tz t : wf_info tz → valid_tm t → tm_yday t = yday_of t → -10000 ≤ tm_year t ≤ 10000 →
  Z.abs (tz_offset (tzrule0 tz) - tz_offset (tzrule1 tz)) ≤ 86400 →
  ∃ tz' isdst t', find_dst tz t (instant t) (day_of t) (tm_year t) =
      Some (tz', isdst, t', instant t', day_of t') ∧
    wf_info tz' ∧ (∀ i, offset_of tz' i = offset_of tz i) ∧ valid_tm t' ∧ tm_yday t' = yday_of t' ∧
    (tm_isdst t < 0 → instant t' = instant t) ∧
    (0 ≤ tm_isdst t → instant t' + offset_of tz isdst = instant t + offset_of tz (claimed t)).
Proof.
  intros Hw Hv Hy Hyear Ho. unfold find_dst.
  destruct (limits_of_total tz (tm_year t + YEAR_BASE) Hw) as (tz' & b & -> & Hw' & E0 & E1 & _).
  cbn [mbind option_bind]. unfold claimed. set (user := if 0 <? tm_isdst t then 1 else tm_isdst t).
  assert (∀ i, offset_of tz' i = offset_of tz i) as Hoff by (intros i; unfold offset_of; by rewrite E0, E1).
  assert (0 ≤ tm_isdst t → user = if 0 <? tm_isdst t then 1 else 0) as Hu
    by (subst user; destruct (Z.ltb_spec 0 (tm_isdst t)); lia).
  destruct b; [|exists tz', user, t; split_and!; try done; by intros ->%Hu].
  destruct (_ && _); [exists tz', user, t; split_and!; try done; by intros ->%Hu|].
  set (dst := if __tznorth tz' then _ else _). clearbody dst.
  destruct ((0 <=? user) && _) eqn:Ec.
  - apply andb_true_iff in Ec as [Hu0 Hx]. assert (0 ≤ tm_isdst t) as Ht
      by (subst user; destruct (Z.ltb_spec 0 (tm_isdst t)); lia).
    destruct (dst_correction_ok tz' dst t Hv Hy Hyear) as (t' & -> & Hv' & Hi & Hy').
    { unfold shift_of. rewrite E0, E1. destruct dst; lia. }
    cbn [mbind option_bind]. exists tz', (if dst then 1 else 0), t'. split_and!; try done; [lia|].
    intros _. rewrite Hi, <- Hu by done. rewrite (Hu Ht) in *. unfold shift_of. rewrite E0, E1. unfold offset_of.
    destruct dst, (0 <? tm_isdst t); try done; cbn; lia.
  - eexists tz', _, t. split_and!; try done. intros Ht. rewrite (Hu Ht) in Ec. f_equal. f_equal.
    destruct dst, (0 <? tm_isdst t); done.
Qed.

(** ** Theorems *)

(** C26. Any structure, normalized, in any zone that [tzset] reads; the two
    offsets of one with daylight saving time differ by a day at most. [mktime] ends for every structure whose fields
    are at most 2^28 in magnitude, in range or not (the comment at the top of
    mktime.c: their values have no restrictions), and leaves a valid date with its day
    of the year. With [t0] the date of the same second of the Gregorian calendar: if it
    is within 10000 years of 1900, what is returned is the second of the date left,
    moved by the offset for its [tm_isdst], and the day of the week is right. In a zone
    without daylight saving time the date left is [t0] and [tm_isdst] is 0. With it a
    structure that claims standard or daylight saving time is taken at its word: the
    result is its second moved by that offset; and one that does not ([tm_isdst]
    negative) keeps its second. Beyond 10000 years the result is -1. *)
Theorem mktime_correct tzenv stored g g1 t :
  small_tm t → wf_info (ts_info g) → tzset tzenv stored g = Some g1 →
  (_daylight g1 = true →
    Z.abs (tz_offset (tzrule0 (ts_info g1)) - tz_offset (tzrule1 (ts_info g1))) ≤ 86400) →
  ∃ t0 t' tim g2, mktime tzenv stored g t = Some (tim, t', g2) ∧ wf_info (ts_info g2) ∧
    valid_tm t0 ∧ instant t0 = instant t ∧ valid_tm t' ∧ tm_yday t' = yday_of t' ∧
    (-10000 ≤ tm_year t0 ≤ 10000 → derived t' ∧
      tim = instant t' + offset_of (ts_info g1) (tm_isdst t') ∧
      (_daylight g1 = false → instant t' = instant t ∧ tm_isdst t' = 0) ∧
      (_daylight g1 = true → 0 ≤ tm_isdst t → tim = instant t + offset_of (ts_info g1) (claimed t)) ∧
      (_daylight g1 = true → tm_isdst t < 0 → instant t' = instant t)) ∧
    (¬ -10000 ≤ tm_year t0 ≤ 10000 → tim = -1 ∧ instant t' = instant t).
Proof.
  intros Ht Hw Hset Ho. destruct (validate_structure_ok t Ht) as (t0 & E & Hv & Hi & _ & _ & _ & Hdst).
  pose proof (tzset_wf _ _ _ _ Hw Hset) as Hw1.
  rewrite (mktime_eq tzenv stored g t t0 E Hv), Hset. cbn [mbind option_bind]. exists t0.
  destruct ((10000 <? tm_year t0) || (tm_year t0 <? -10000)) eqn:Ey.
  { eexists (with_yday t0), (-1), g. split_and!; try done; [by destruct Hv|lia]. }
  assert (valid_tm (with_yday t0)) as Hv0 by (by destruct Hv). unfold mktime_zone.
  destruct (_daylight g1) eqn:Edl.
  - destruct (find_dst_total (ts_info g1) (with_yday t0)) as (tz' & isdst & t' & -> & Hw' & Hoff & Hv' & Hy' & Hn & Hp);
      [done|done|done|cbn; lia|by apply Ho|].
    cbn [mbind option_bind]. fold (offset_of tz' isdst). rewrite Hoff.
    eexists (set_wday_isdst t' _ isdst), _, _. split_and!; [done|done|done|done|by destruct Hv'|done| |].
    + intros _. unfold claimed in *. cbn [with_yday set_yday tm_isdst set_wday_isdst] in *. rewrite Hdst in *.
      split_and!; [by split|done|done|intros _ Hu; rewrite <- Hi; by apply Hp|intros _ Hu; rewrite <- Hi; by apply Hn].
    + lia.
  - cbn [mbind option_bind]. eexists (set_wday_isdst (with_yday t0) _ 0), _, _.
    split_and!; [done|done|done|done|by destruct Hv0|done| |lia]. intros _. by split_and!; [split|..].
Qed.

(** The 31st of a February, a minute before midnight, said to be standard time: in
    central Europe it is one. *)
Lemma mktime_correct_witness : ∃ t' tim g2,
  mktime (Some CET) true tz_start (Tm 0 (-1) 0 31 1 124 0 0 0) = Some (tim, t', g2) ∧ valid_tm t' ∧
  tim = 1709333940.
Proof.
  destruct (mktime_correct (Some CET) true tz_start cet_state (Tm 0 (-1) 0 31 1 124 0 0 0))
    as (t0 & t' & tim & g2 & E & _ & Hv0 & Hi & Hv & _ & H & _).
  - split; split; cbn; lia.
  - by split; left.
  - exact (proj1 cet_read).
  - intros _. by vm_compute.
  - exists t', tim, g2. split; [done|]. split; [done|]. destruct H as (_ & _ & _ & H & _).
    + apply (year_bound t0 Hv0). rewrite Hi. vm_compute. by split.
    + apply H; [vm_compute; reflexivity|done].
Defined.

(** A second has one date. *)
Lemma instant_year t t' : valid_tm t → valid_tm t' → instant t = instant t' → tm_year t = tm_year t'.
Proof.
  intros Hv Hv' E. assert (day_of t = day_of t') as Ed by (by rewrite !day_of_instant, E).
  rewrite !valid_day_of in Ed by (apply Hv || apply Hv').
  destruct (date_unique _ _ _ _ _ _ (v_mon _ Hv) (v_mday _ Hv) (v_mon _ Hv') (v_mday _ Hv') Ed) as (? & _ & _). lia.
Qed.

(** The local year is the year in Greenwich. *)
Definition same_year (tim offset : Z) : Prop := tm_year (gmtime_r (tim - offset)) = tm_year (gmtime_r tim).

(** C27. Local time and back, for every TZ that [tzset] reads, with the copy of it
    stored (or TZ unset) in the first of the two calls. In a zone with offsets of less
    than a day, whose daylight saving time, if it has one, lies east of its standard
    time, [localtime_r] yields a valid date for the time moved by the offset in effect,
    with its derived fields; and [mktime] on that structure returns the time again and
    changes neither the structure nor the zone. This holds at the changes of the clock
    too, where an hour of local time occurs twice or not at all. The time is within
    3*10^11 seconds of 1970; with daylight saving time it must be in the same year in
    local time as in Greenwich. *)
Theorem localtime_mktime_roundtrip tzenv stored g g1 tim :
  wf_info (ts_info g) → tzset tzenv true g = Some g1 → -300000000000 ≤ tim ≤ 300000000000 →
  (∀ i, - 86400 < offset_of (ts_info g1) i < 86400) →
  (_daylight g1 = true → offset_of (ts_info g1) 1 < offset_of (ts_info g1) 0 ∧
    ∀ i, same_year tim (offset_of (ts_info g1) i)) →
  ∃ t g2, localtime_r tzenv true g tim = Some (t, g2) ∧ valid_tm t ∧ derived t ∧
    decided g1 tim (ts_info g2) (tm_isdst t) ∧
    instant t = tim - offset_of (ts_info g1) (tm_isdst t) ∧ mktime tzenv stored g2 t = Some (tim, t, g2).
Proof.
  intros Hw Hset Ht Ho Hdl. pose proof (tzset_wf _ _ _ _ Hw Hset) as Hw1.
  destruct (decided_ex g1 tim Hw1) as (tz & isdst & Hz & Hwz & _ & E0 & E1).
  assert (∀ i, offset_of tz i = offset_of (ts_info g1) i) as Hoff by (intros i; unfold offset_of; by rewrite E0, E1).
  destruct (localtime_r_ok tzenv true g g1 tim tz isdst) as (t & E & Hv & Hi & Hd & Hdst);
    [done|done|lia|by rewrite Hoff|]. rewrite Hoff in Hi.
  exists t, (set_info g1 tz). rewrite Hdst. split_and!; try done.
  specialize (Ho isdst). pose proof (year_bound t Hv ltac:(lia)) as Hyear.
  rewrite (mktime_eq tzenv stored (set_info g1 tz) t t (validate_structure_id t Hv) Hv).
  assert ((10000 <? tm_year t) || (tm_year t <? -10000) = false) as -> by lia.
  assert (tzenv ≠ None ∨ tz = ts_info g1) as Hsame.
  { destruct tzenv; [by left|right]. destruct (tzset_unset _ _ _ Hset) as [Hf _]. unfold decided in Hz.
    rewrite Hf in Hz. by destruct Hz. }
  rewrite (tzset_again tzenv g g1 tz stored Hw Hset Hsame). cbn [mbind option_bind].
  assert (with_yday t = t) as ->. { unfold with_yday. destruct Hd as [_ <-]. by destruct t. }
  unfold mktime_zone. change (ts_info (set_info g1 tz)) with tz. change (_daylight (set_info g1 tz)) with (_daylight g1).
  assert ((if _daylight g1 then find_dst tz t (instant t) (day_of t) (tm_year t)
    else Some (tz, 0, t, instant t, day_of t)) = Some (tz, isdst, t, instant t, day_of t)) as ->.
  { unfold decided in Hz. destruct (_daylight g1); [|by destruct Hz as [-> ->]].
    destruct Hz as (known & Hl & ->). destruct (Hdl eq_refl) as [Hlt Hsy].
    assert (tm_year t = tm_year (gmtime_r tim)) as Hty.
    { rewrite <- (Hsy (if known then if in_dst tz tim then 1 else 0 else -1)).
      apply instant_year; [done|apply gmtime_r_ok; lia|]. rewrite Hi. symmetry. apply gmtime_r_ok. lia. }
    destruct known.
    - destruct (limits_of_known _ _ _ Hl) as (Hy & _ & _). rewrite <- Hty in Hy.
      apply (find_dst_ok tz t tim); [done|by rewrite E0, E1|done|by rewrite Hdst|].
      rewrite Hi. rewrite <- Hoff. unfold offset_of. by destruct (in_dst tz tim).
    - destruct (limits_of_total _ (tm_year (gmtime_r tim) + 1900) Hw1) as (tz' & b & El & _ & _ & _ & _ & Hb).
      rewrite Hl in El. injection El as <- <-. destruct (Hb eq_refl) as (Etz & _ & _). rewrite Etz in *.
      unfold find_dst, YEAR_BASE. rewrite Hty, Hl, Hdst. done. }
  cbn [mbind option_bind]. fold (offset_of tz isdst). rewrite Hoff, Hi, Z.sub_add.
  unfold set_wday_isdst. destruct Hd as [Hwd _]. rewrite <- Hwd, <- Hdst. by destruct t.
Qed.

(** A summer day in central Europe. *)
Lemma localtime_mktime_roundtrip_witness : ∃ t g2,
  localtime_r (Some CET) true tz_start 1720000000 = Some (t, g2) ∧ tm_hour t = 11 ∧
  mktime (Some CET) false g2 t = Some (1720000000, t, g2).
Proof.
  destruct (localtime_mktime_roundtrip (Some CET) false tz_start cet_state 1720000000)
    as (t & g2 & E & _ & _ & _ & _ & R).
  - by split; left.
  - exact (proj1 cet_read).
  - lia.
  - intros i. unfold offset_of. destruct (i =? 1); by vm_compute.
  - intros _. split; [by vm_compute|]. intros i. unfold offset_of. destruct (i =? 1); vm_compute; reflexivity.
  - exists t, g2. split; [done|]. split; [|done]. revert E. vm_compute. by intros [= <- _].
Defined.
