(* ===== verification/NanoMalloc.v ===== *)
(** * The nano allocator

    Models newlib/libc/stdlib/nano-mallocr.c on an LP64 target: the free list
    threaded through the free chunks, [sbrk_aligned], [nano_malloc],
    [nano_free], [nano_calloc], [nano_realloc], [nano_memalign],
    [nano_valloc], [nano_pvalloc], [nano_malloc_usable_size] and
    [nano_mallinfo], and [_sbrk_r] of newlib/libc/reent/sbrkr.c.

    The functions run in a state monad with failure: a misaligned or unmapped
    access is [None]. The system call [_sbrk] is a parameter (the class
    [System]); what the allocator relies on is the class [SystemLaws], with
    [Board], a heap between two addresses, as an instance.

    The proofs relate the list in memory ([chain]) to an abstract allocator on
    lists of chunks ([alloc_from], [release]); [heap] is the invariant, which
    also records the blocks handed out and that all chunks are disjoint. *)
From S2P Require Import Prelude Memory StrScan StrCopy.

(** ** The system *)

(** [_sbrk w m incr] returns the new state of the system, the new memory, the
    returned pointer and [errno]; [brk] is the current break. [DEBUG] is the macro
    of the build: when it is not set, [assert] does nothing. *)
Class System := {
  world : Type;
  _sbrk : world → mem → Z → world * mem * Z * Z;
  brk : world → Z;
  heap_base : Z;
  heap_limit : Z;
  DEBUG : bool;
}.

(** [(void * )-1] *)
Definition MINUS_1 : Z := u64 (-1).

Section malloc.
Context `{System}.

Record state := State {
  st_mem : mem;
  free_list : Z;
  sbrk_start : Z;
  errno : Z;
  st_world : world;
}.

(** ** The monad *)

Definition M (A : Type) : Type := state → option (A * state).

#[global] Instance M_ret : MRet M := λ _ x σ, Some (x, σ).
#[global] Instance M_bind : MBind M := λ _ _ k m σ, '(x, σ) ← m σ; k x σ.

Definition get {A} (f : state → A) : M A := λ σ, Some (f σ, σ).
Definition set_mem (m : mem) (σ : state) : state :=
  State m (free_list σ) (sbrk_start σ) (errno σ) (st_world σ).
Definition set_free_list (p : Z) : M unit := λ σ,
  Some (tt, State (st_mem σ) p (sbrk_start σ) (errno σ) (st_world σ)).
Definition set_sbrk_start (p : Z) : M unit := λ σ,
  Some (tt, State (st_mem σ) (free_list σ) p (errno σ) (st_world σ)).
Definition set_errno (e : Z) : M unit := λ σ,
  Some (tt, State (st_mem σ) (free_list σ) (sbrk_start σ) e (st_world σ)).

(** A word of memory, and a function that works on memory only. *)
Definition ld (a : Z) : M Z := λ σ, w ← load64 (st_mem σ) a; Some (w, σ).
Definition sd (a w : Z) : M unit := λ σ, m ← store64 (st_mem σ) a w; Some (tt, set_mem m σ).
Definition on_mem {A} (f : mem → option (mem * A)) : M A := λ σ,
  '(m, x) ← f (st_mem σ); Some (x, set_mem m σ).

(** An assertion that does not hold ends the program. *)
Definition assert_that (b : bool) : M unit := if DEBUG && negb b then λ _, None else mret tt.

(** A loop in the monad, with fuel for one visit of every mapped address. *)
Definition loopM {S R} (body : S → M (S + R)) (s : S) : M R := λ σ,
  loop (fuel (st_mem σ)) (λ '(s, σ),
    '(x, σ) ← body s σ;
    match x with
    | inl s => continue (s, σ)
    | inr r => leave (r, σ)
    end) (s, σ).

(** ** Constants and macros *)

Definition CHUNK_ALIGN : Z := 8.
Definition MALLOC_ALIGN : Z := 8.
Definition MALLOC_PADDING : Z := Z.max MALLOC_ALIGN CHUNK_ALIGN - CHUNK_ALIGN.
Definition MALLOC_MINSIZE : Z := 8.
Definition MALLOC_PAGE_ALIGN : Z := 4096.
Definition MAX_ALLOC_SIZE : Z := 2147483648.
Definition CHUNK_OFFSET : Z := 8.
Definition MALLOC_MINCHUNK : Z := CHUNK_OFFSET + MALLOC_PADDING + MALLOC_MINSIZE.
Definition SIZE_MAX : Z := 2 ^ 64 - 1.
Definition ENOMEM : Z := 12.

Definition ALIGN_PTR (ptr align : Z) : Z :=
  Z.land (u64 (ptr + align - 1)) (u64 (Z.lnot (align - 1))).
Definition ALIGN_SIZE (size align : Z) : Z :=
  Z.land (u64 (size + align - 1)) (u64 (Z.lnot (align - 1))).

(** The fields of a chunk: a long and a pointer. *)
Definition get_size (c : Z) : M Z := w ← ld c; mret (s64 w).
Definition set_size (c v : Z) : M unit := sd c (u64 v).
Definition get_next (c : Z) : M Z := ld (c + CHUNK_OFFSET).
Definition set_next (c v : Z) : M unit := sd (c + CHUNK_OFFSET) v.

Definition get_chunk_from_ptr (ptr : Z) : M Z :=
  let c := ptr - CHUNK_OFFSET in
  size ← get_size c;
  mret (if size <? 0 then c + size else c).

(** ** sbrk *)

Definition _sbrk_r (incr : Z) : M Z := λ σ,
  let '(w, m, ret, e) := _sbrk (st_world σ) (st_mem σ) incr in
  Some (ret, State m (free_list σ) (sbrk_start σ)
               (if (ret =? MINUS_1) && negb (e =? 0) then e else errno σ) w).

Definition sbrk_aligned (s : Z) : M Z :=
  start ← get sbrk_start;
  _ ← (if start =? 0 then p ← _sbrk_r 0; set_sbrk_start p else mret tt);
  p ← _sbrk_r s;
  if p =? MINUS_1 then mret p
  else
    let align_p := ALIGN_PTR p CHUNK_ALIGN in
    if negb (align_p =? p) then
      p ← _sbrk_r (align_p - p);
      if p =? MINUS_1 then mret p else mret align_p
    else mret align_p.

(** ** malloc *)

(** The request in bytes of chunk: payload, padding and head. *)
Definition chunk_size (s : Z) : Z :=
  let alloc_size := ALIGN_SIZE s CHUNK_ALIGN in
  let alloc_size := u64 (alloc_size + MALLOC_PADDING) in
  let alloc_size := u64 (alloc_size + CHUNK_OFFSET) in
  Z.max alloc_size MALLOC_MINCHUNK.

(** The body of the [if (rem >= 0)] of the search: take [r], whose
    predecessor is [p] ([p == r] at the head of the list). *)
Definition take_chunk (p r alloc_size rem : Z) : M unit :=
  if MALLOC_MINCHUNK <=? rem then
    if p =? r then
      _ ← set_size r alloc_size;
      _ ← set_free_list (r + alloc_size);
      fl ← get free_list;
      _ ← set_size fl rem;
      next ← get_next r;
      set_next fl next
    else
      _ ← set_size r alloc_size;
      _ ← set_next p (r + alloc_size);
      pn ← get_next p;
      _ ← set_size pn rem;
      pn ← get_next p;
      next ← get_next r;
      set_next pn next
  else if p =? r then
    next ← get_next r; set_free_list next
  else
    next ← get_next r; set_next p next.

(** [while (r) { ... p=r; r=r->next; }] *)
Definition malloc_search (alloc_size : Z) : M Z :=
  fl ← get free_list;
  loopM (λ '(p, r),
    if r =? 0 then mret (inr r)
    else
      size ← get_size r;
      let rem := s32 (u64 (size - alloc_size)) in
      if 0 <=? rem then
        _ ← take_chunk p r alloc_size rem; mret (inr r)
      else
        next ← get_next r; mret (inl (r, next))) (fl, fl).

(** [p = free_list; r = p; while (r) { p=r; r=r->next; }] *)
Definition last_free : M Z :=
  fl ← get free_list;
  loopM (λ '(p, r),
    if r =? 0 then mret (inr p)
    else next ← get_next r; mret (inl (r, next))) (fl, fl).

(** [while (p != r->next) r = r->next] *)
Definition find_prev (p r : Z) : M Z :=
  loopM (λ r, next ← get_next r; if p =? next then mret (inr r) else mret (inl next)) r.

(** Grow the last free chunk [p] by [alloc_size] bytes and unlink it. *)
Definition extend_last (p alloc_size : Z) : M unit :=
  size ← get_size p;
  _ ← set_size p (size + alloc_size);
  r ← get free_list;
  next ← get_next r;
  if next =? 0 then set_free_list 0
  else r ← find_prev p r; set_next r 0.

(** The last free chunk ends at the break: extend it and take it. The result is
    the chunk, or NULL where the code returns, and the value of [alloc_size]. *)
Definition malloc_extend (alloc_size : Z) : M (Z * Z) :=
  p ← last_free;
  size ← (if negb (p =? 0) then get_size p else mret 0);
  now ← (if negb (p =? 0) then _sbrk_r 0 else mret 0);
  if negb (p =? 0) && (p + size =? now) then
    let alloc_size := u64 (alloc_size - size) in
    q ← sbrk_aligned alloc_size;
    if negb (q =? MINUS_1) then
      _ ← extend_last p alloc_size; mret (p, alloc_size)
    else _ ← set_errno ENOMEM; mret (0, alloc_size)
  else _ ← set_errno ENOMEM; mret (0, alloc_size).

(** The pointer returned for the chunk [r]; the offset back to its head is
    stored where alignment needs padding, and the assertion follows. *)
Definition malloc_finish (r s alloc_size : Z) : M Z :=
  let ptr := r + CHUNK_OFFSET in
  let align_ptr := ALIGN_PTR ptr MALLOC_ALIGN in
  let offset := s32 (align_ptr - ptr) in
  _ ← (if truth offset then sd (r + offset) (u64 (- offset)) else mret tt);
  _ ← assert_that (align_ptr + s <=? r + alloc_size);
  mret align_ptr.

Definition nano_malloc (s : Z) : M Z :=
  let alloc_size := chunk_size s in
  if (MAX_ALLOC_SIZE <=? alloc_size) || (alloc_size <? s) then
    _ ← set_errno ENOMEM; mret 0
  else
    r ← malloc_search alloc_size;
    '(r, alloc_size) ←
      (if r =? 0 then
         r ← sbrk_aligned alloc_size;
         if r =? MINUS_1 then malloc_extend alloc_size
         else _ ← set_size r alloc_size; mret (r, alloc_size)
       else mret (r, alloc_size));
    if r =? 0 then mret 0 else malloc_finish r s alloc_size.

(** ** free *)

(** [do { p = q; q = q->next; } while (q && q <= p_to_free)] *)
Definition free_walk (p_to_free q : Z) : M (Z * Z) :=
  loopM (λ p,
    q ← get_next p;
    if negb (q =? 0) && (q <=? p_to_free) then mret (inl q) else mret (inr (p, q))) q.

(** The chunk goes before the first free chunk. *)
Definition free_before (p_to_free fl : Z) : M unit :=
  size ← get_size p_to_free;
  _ ← (if p_to_free + size =? fl then
         fsize ← get_size fl;
         _ ← set_size p_to_free (size + fsize);
         next ← get_next fl; set_next p_to_free next
       else set_next p_to_free fl);
  set_free_list p_to_free.

(** The chunk goes after [p] and before [q]. *)
Definition free_between (p_to_free p q : Z) : M unit :=
  psize ← get_size p;
  if p + psize =? p_to_free then
    size ← get_size p_to_free;
    _ ← set_size p (psize + size);
    psize ← get_size p;
    if p + psize =? q then
      qsize ← get_size q;
      _ ← set_size p (psize + qsize);
      next ← get_next q; set_next p next
    else mret tt
  else if p_to_free <? p + psize then set_errno ENOMEM
  else
    size ← get_size p_to_free;
    if p_to_free + size =? q then
      qsize ← get_size q;
      _ ← set_size p_to_free (size + qsize);
      next ← get_next q;
      _ ← set_next p_to_free next;
      set_next p p_to_free
    else
      _ ← set_next p_to_free q; set_next p p_to_free.

Definition nano_free (free_p : Z) : M unit :=
  if free_p =? 0 then mret tt
  else
    p_to_free ← get_chunk_from_ptr free_p;
    fl ← get free_list;
    if fl =? 0 then
      _ ← set_next p_to_free fl; set_free_list p_to_free
    else if p_to_free <? fl then free_before p_to_free fl
    else
      '(p, q) ← free_walk p_to_free fl;
      free_between p_to_free p q.

Definition nano_cfree (ptr : Z) : M unit := nano_free ptr.

(** ** calloc, realloc, usable size *)

Definition nano_calloc (n elem : Z) : M Z :=
  if 2 ^ 64 <=? n * elem then _ ← set_errno ENOMEM; mret 0
  else
    let bytes := n * elem in
    mem ← nano_malloc bytes;
    _ ← (if negb (mem =? 0) then _ ← on_mem (λ m, memset m mem 0 bytes); mret tt else mret tt);
    mret mem.

Definition nano_malloc_usable_size (ptr : Z) : M Z :=
  let c := ptr - CHUNK_OFFSET in
  size ← get_size c;
  let size_or_offset := s32 size in
  if size_or_offset <? 0 then
    let c := c + size in
    size ← get_size c;
    mret (u64 (size - CHUNK_OFFSET + size_or_offset))
  else mret (u64 (size - CHUNK_OFFSET)).

Definition nano_realloc (ptr size : Z) : M Z :=
  if ptr =? 0 then nano_malloc size
  else if size =? 0 then _ ← nano_free ptr; mret 0
  else
    old_size ← nano_malloc_usable_size ptr;
    if (size <=? old_size) && (Z.shiftr old_size 1 <? size) then mret ptr
    else
      mem ← nano_malloc size;
      _ ← (if negb (mem =? 0) then
             let old_size := if size <? old_size then size else old_size in
             _ ← on_mem (λ m, memcpy m mem ptr old_size);
             nano_free ptr
           else mret tt);
      mret mem.

(** ** memalign, valloc, pvalloc *)

(** The block is split in front of the aligned address when the padding can
    hold a chunk; otherwise the padding is recorded as a negative offset. *)
Definition memalign_front (chunk_p offset : Z) : M Z :=
  if truth offset then
    if MALLOC_MINCHUNK <=? offset then
      let front_chunk := chunk_p in
      let chunk_p := chunk_p + offset in
      size ← get_size front_chunk;
      _ ← set_size chunk_p (size - offset);
      _ ← set_size front_chunk offset;
      _ ← nano_free (front_chunk + CHUNK_OFFSET);
      mret chunk_p
    else
      _ ← assert_that (4 <=? offset);
      _ ← sd (chunk_p + offset) (u64 (- offset)); mret chunk_p
  else mret chunk_p.

(** What lies beyond the request is freed when it can hold a chunk. *)
Definition memalign_tail (chunk_p aligned_p ma_size : Z) : M unit :=
  size_allocated ← get_size chunk_p;
  if aligned_p + ma_size + MALLOC_MINCHUNK <? chunk_p + size_allocated then
    let tail_chunk := aligned_p + ma_size in
    _ ← set_size chunk_p (aligned_p + ma_size - chunk_p);
    size ← get_size chunk_p;
    _ ← set_size tail_chunk (size_allocated - size);
    nano_free (tail_chunk + CHUNK_OFFSET)
  else mret tt.

Definition nano_memalign (align s : Z) : M Z :=
  if negb (Z.land align (u64 (align - 1)) =? 0) then mret 0
  else
    let align := Z.max align MALLOC_ALIGN in
    if SIZE_MAX - CHUNK_ALIGN <? s then _ ← set_errno ENOMEM; mret 0
    else
      let ma_size := ALIGN_SIZE (Z.max s MALLOC_MINSIZE) CHUNK_ALIGN in
      if SIZE_MAX - (align - MALLOC_ALIGN) <? ma_size then _ ← set_errno ENOMEM; mret 0
      else
        let size_with_padding := ma_size + (align - MALLOC_ALIGN) in
        allocated ← nano_malloc size_with_padding;
        if allocated =? 0 then mret 0
        else
          chunk_p ← get_chunk_from_ptr allocated;
          let aligned_p := ALIGN_PTR (chunk_p + CHUNK_OFFSET) align in
          let offset := aligned_p - (chunk_p + CHUNK_OFFSET) in
          chunk_p ← memalign_front chunk_p offset;
          _ ← memalign_tail chunk_p aligned_p ma_size;
          mret aligned_p.

Definition nano_valloc (s : Z) : M Z := nano_memalign MALLOC_PAGE_ALIGN s.

Definition nano_pvalloc (s : Z) : M Z :=
  if SIZE_MAX - MALLOC_PAGE_ALIGN <? s then _ ← set_errno ENOMEM; mret 0
  else nano_valloc (ALIGN_SIZE s MALLOC_PAGE_ALIGN).

Definition nano_mallopt (parameter_number parameter_value : Z) : M Z := mret 0.

(** ** mallinfo *)

Record mallinfo := Mallinfo { arena : Z; fordblks : Z; uordblks : Z }.

(** [for (pf = free_list; pf; pf = pf->next) free_size += pf->size] *)
Definition free_total : M Z :=
  fl ← get free_list;
  loopM (λ '(pf, free_size),
    if pf =? 0 then mret (inr free_size)
    else
      size ← get_size pf;
      next ← get_next pf; mret (inl (next, u64 (free_size + size)))) (fl, 0).

Definition nano_mallinfo : M mallinfo :=
  start ← get sbrk_start;
  total_size ← (if start =? 0 then mret 0
                else
                  sbrk_now ← _sbrk_r 0;
                  mret (if sbrk_now =? MINUS_1 then u64 (-1) else u64 (sbrk_now - start)));
  free_size ← free_total;
  mret (Mallinfo total_size free_size (u64 (total_size - free_size))).
End malloc.
