(* ===== verification/NanoHeap.v ===== *)
(** * Correctness of the nano allocator

    Proves that the functions of [NanoMalloc] keep the heap invariant, hand
    out aligned blocks disjoint from all others, and refine an abstract
    allocator on sorted lists of free chunks: first fit for [nano_malloc],
    insertion with coalescing for [nano_free]. *)
From S2P Require Import Prelude Memory StrScan StrCopy NanoMalloc.

(** ** Words of memory *)

(** [m'] is [m] after a store of the word [w] at [a]. *)
Definition stored (m : mem) (a w : Z) (m' : mem) : Prop :=
  (∀ b, load64 m' b = if b =? a then Some (u64 w) else load64 m b) ∧
  (∀ x, ¬ (a ≤ x < a + 8) → m' !! x = m !! x) ∧
  (∀ x, is_Some (m !! x) → is_Some (m' !! x)).

Lemma load64_agree m m' a :
  (∀ x, a ≤ x < a + 8 → m' !! x = m !! x) → load64 m' a = load64 m a.
Proof.
  intros Hx. unfold load64. destruct (aligned8 a); [|done]. f_equal. unfold load_bytes, load8.
  rewrite !Hx by lia. done.
Qed.

Lemma load64_aligned m a w : load64 m a = Some w → a mod 8 = 0.
Proof. unfold load64, aligned8. destruct (Z.eqb_spec (a mod 8) 0); done. Qed.

Lemma load64_mapped m a w : load64 m a = Some w → mapped m a 8.
Proof.
  intros Hl. pose proof (load64_aligned _ _ _ Hl) as Ha. unfold load64, aligned8 in Hl.
  rewrite (proj2 (Z.eqb_eq _ _) Ha) in Hl. apply fmap_Some in Hl as (l & Hl & _).
  apply load_bytes_Some in Hl as [Hlen Hat]. intros x Hx.
  destruct (lookup_lt_is_Some_2 l (Z.to_nat (x - a))) as [b Hb]; [lia|].
  specialize (Hat _ _ Hb). rewrite Z2Nat.id in Hat by lia.
  replace (a + (x - a)) with x in Hat by lia. by apply load8_is_Some; eexists.
Qed.

Lemma store64_stored m a w :
  a mod 8 = 0 → mapped m a 8 → ∃ m', store64 m a w = Some m' ∧ stored m a w m'.
Proof.
  intros Ha Hm. exists (write_bytes m a (le_split 8 w)).
  rewrite store64_mapped by done. split; [done|].
  assert (Z.of_nat (length (le_split 8 w)) = 8) as Hlen by (rewrite length_le_split; done).
  split_and!.
  - intros b. destruct (Z.eqb_spec b a) as [->|Hne].
    + by apply load64_store64_eq.
    + destruct (decide (b mod 8 = 0)) as [Hb|Hb].
      * apply load64_agree. intros x Hx. rewrite lookup_write_bytes, decide_False; [done|].
        rewrite Hlen. Z.div_mod_to_equations. lia.
      * unfold load64, aligned8. by rewrite (proj2 (Z.eqb_neq _ _) Hb).
  - intros x Hx. by rewrite lookup_write_bytes, decide_False by (rewrite Hlen; lia).
  - intros x Hx. apply is_Some_write_bytes; [by rewrite Hlen|done].
Qed.

Lemma stored_mapped m a w m' x n : stored m a w m' → mapped m x n → mapped m' x n.
Proof. intros (_ & _ & Hs) Hm y Hy. by apply Hs, Hm. Qed.

Lemma stored_eq m a w m' : stored m a w m' → load64 m' a = Some (u64 w).
Proof. intros (Hl & _). by rewrite Hl, Z.eqb_refl. Qed.

Lemma stored_ne m a w m' b : stored m a w m' → b ≠ a → load64 m' b = load64 m b.
Proof. intros (Hl & _) Hne. by rewrite Hl, (proj2 (Z.eqb_neq _ _) Hne). Qed.

(** ** What the allocator relies on

    The break moves only on success, by the increment, which maps the memory
    in between and touches nothing else; [_sbrk(0)] reports it. *)
Definition grown (m : mem) (a n : Z) (m' : mem) : Prop :=
  (∀ x, ¬ (a ≤ x < a + n) → m' !! x = m !! x) ∧ mapped m' a n.

Class SystemLaws `{System} := {
  sbrk_spec w m incr w' m' r e :
    _sbrk w m incr = (w', m', r, e) → 0 ≤ incr →
    r = MINUS_1 ∧ brk w' = brk w ∧ m' = m ∨
    r = brk w ∧ brk w' = brk w + incr ∧ grown m (brk w) incr m';
  sbrk_0 w m w' m' r e : _sbrk w m 0 = (w', m', r, e) → r ≠ MINUS_1;
  brk_range w : heap_base ≤ brk w ≤ heap_limit;
  heap_range : 0 < heap_base ∧ heap_limit < 2 ^ 62;
}.

(** Conditions of theorems: a heap of less than 2 GiB, since [nano_malloc] computes
    remainders as [int] (see [nano_malloc_leak]), and a build without [DEBUG], in
    which assertions do nothing (see [nano_malloc_assert]). *)
Class SmallHeap `{System} : Prop := small_heap : heap_limit < heap_base + 2 ^ 31.
Class Release `{System} : Prop := release_build : DEBUG = false.

(** ** Running the monad *)

Section exec.
Context `{System}.

Lemma bind_eq {A B} (k : A → M B) (x : M A) σ v σ' :
  x σ = Some (v, σ') → (x ≫= k) σ = k v σ'.
Proof. intros E. unfold mbind, M_bind. by rewrite E. Qed.

Lemma get_bind {A B} (f : state → A) (k : A → M B) σ : (get f ≫= k) σ = k (f σ) σ.
Proof. done. Qed.
Lemma ret_bind {A B} (x : A) (k : A → M B) σ : (mret x ≫= k) σ = k x σ.
Proof. done. Qed.
Lemma set_free_list_bind {B} p (k : unit → M B) σ :
  (set_free_list p ≫= k) σ =
  k tt (State (st_mem σ) p (sbrk_start σ) (errno σ) (st_world σ)).
Proof. done. Qed.
Lemma set_errno_bind {B} e (k : unit → M B) σ :
  (set_errno e ≫= k) σ =
  k tt (State (st_mem σ) (free_list σ) (sbrk_start σ) e (st_world σ)).
Proof. done. Qed.

Lemma get_size_eq σ c s :
  load64 (st_mem σ) c = Some s → 0 ≤ s < 2 ^ 63 → get_size c σ = Some (s, σ).
Proof.
  intros Hl Hs. unfold get_size, ld, mbind, M_bind. rewrite Hl. simpl.
  by rewrite s64_small by lia.
Qed.

Lemma get_next_eq σ c n :
  load64 (st_mem σ) (c + 8) = Some n → get_next c σ = Some (n, σ).
Proof. intros Hl. unfold get_next, ld, CHUNK_OFFSET. by rewrite Hl. Qed.

Lemma sd_eq σ a v :
  a mod 8 = 0 → mapped (st_mem σ) a 8 →
  ∃ m', stored (st_mem σ) a v m' ∧ sd a v σ = Some (tt, set_mem m' σ).
Proof.
  intros Ha Hm. destruct (store64_stored _ a v Ha Hm) as (m' & Hs & Hst).
  exists m'. split; [done|]. unfold sd. by rewrite Hs.
Qed.

Lemma set_size_eq σ c v :
  c mod 8 = 0 → mapped (st_mem σ) c 8 → 0 ≤ v < 2 ^ 63 →
  ∃ m', stored (st_mem σ) c v m' ∧ load64 m' c = Some v ∧ set_size c v σ = Some (tt, set_mem m' σ).
Proof.
  intros Hc Hm Hv. unfold set_size. rewrite u64_small by lia.
  destruct (sd_eq σ c v Hc Hm) as (m' & Hst & Hsd). exists m'. split_and!; [done| |done].
  rewrite (stored_eq _ _ _ _ Hst). by rewrite u64_small by lia.
Qed.

Lemma set_next_eq σ c v :
  c mod 8 = 0 → mapped (st_mem σ) (c + 8) 8 → 0 ≤ v < 2 ^ 63 →
  ∃ m', stored (st_mem σ) (c + 8) v m' ∧ load64 m' (c + 8) = Some v ∧
    set_next c v σ = Some (tt, set_mem m' σ).
Proof.
  intros Hc Hm Hv. unfold set_next, CHUNK_OFFSET.
  destruct (sd_eq σ (c + 8) v) as (m' & Hst & Hsd); [Z.div_mod_to_equations; lia|done|].
  exists m'. split_and!; [done| |done].
  rewrite (stored_eq _ _ _ _ Hst). by rewrite u64_small by lia.
Qed.

Lemma loopM_inv {A R} (I : nat → A → Prop) (Q : R → state → Prop) (k : nat)
    (body : A → M (A + R)) s σ :
  (∀ k s, I k s →
    ∃ x σ', body s σ = Some (x, σ') ∧
      match x with
      | inl s' => σ' = σ ∧ ∃ k', (k' < k)%nat ∧ I k' s'
      | inr r => Q r σ'
      end) →
  I k s → (k < fuel (st_mem σ))%nat →
  ∃ r σ', loopM body s σ = Some (r, σ') ∧ Q r σ'.
Proof.
  intros Hb Hi Hf. unfold loopM.
  destruct (loop_inv_nat (λ k '(s, τ), τ = σ ∧ I k s) (λ '(r, τ), Q r τ)
    (λ '(s, σ), '(x, σ) ← body s σ;
       match x with inl s => continue (s, σ) | inr r => leave (r, σ) end)
    (fuel (st_mem σ)) k (s, σ)) as ([r τ] & HQ & Hr); [|done|done|by exists r, τ].
  intros k' [s' τ] [-> Hs]. destruct (Hb k' s' Hs) as (x & σ' & -> & Hx).
  simpl. destruct x as [s''|r]; [|done]. destruct Hx as (-> & k'' & ? & ?). by exists k''.
Qed.
End exec.

(** ** Lists of chunks *)

(** A list segment: the chunks [l], given by address and size, linked from
    [p] to [q]. *)
Fixpoint lseg (m : mem) (p : Z) (l : list (Z * Z)) (q : Z) : Prop :=
  match l with
  | [] => p = q
  | (a, s) :: t => p = a ∧ load64 m a = Some s ∧ ∃ n, load64 m (a + 8) = Some n ∧ lseg m n t q
  end.

(** Aligned chunks of at least the minimal size, in increasing order between
    [lo] and [hi], no two of them adjacent. *)
Fixpoint spaced (lo hi : Z) (l : list (Z * Z)) : Prop :=
  match l with
  | [] => True
  | (a, s) :: t =>
      lo ≤ a ∧ a mod 8 = 0 ∧ s mod 8 = 0 ∧ 16 ≤ s ∧ a + s ≤ hi ∧ spaced (a + s + 1) hi t
  end.

Definition after (lo : Z) (l : list (Z * Z)) : Z := foldl (λ _ '(a, s), a + s + 1) lo l.

(** The address [x] lies in one of the chunks. *)
Definition in_chunks (l : list (Z * Z)) (x : Z) : Prop :=
  ∃ a s, (a, s) ∈ l ∧ a ≤ x < a + s.

(** [m'] differs from [m] only inside the chunks [l]. *)
Definition touched (l : list (Z * Z)) (m m' : mem) : Prop :=
  (∀ x, ¬ in_chunks l x → m' !! x = m !! x) ∧ (∀ x, is_Some (m !! x) → is_Some (m' !! x)).

Lemma lseg_app m p l1 l2 q :
  lseg m p (l1 ++ l2) q ↔ ∃ r, lseg m p l1 r ∧ lseg m r l2 q.
Proof.
  revert p. induction l1 as [|[a s] l1 IH]; intros p; simpl.
  - split; [by exists p|]. by intros (? & -> & ?).
  - setoid_rewrite IH. naive_solver.
Qed.

Lemma lseg_ext m m' p l q :
  lseg m p l q →
  (∀ a s, (a, s) ∈ l → load64 m' a = load64 m a ∧ load64 m' (a + 8) = load64 m (a + 8)) →
  lseg m' p l q.
Proof.
  revert p. induction l as [|[a s] l IH]; intros p; simpl; [done|].
  intros (-> & Hs & n & Hn & Hl) Hext. destruct (Hext a s) as [-> ->]; [by left|].
  split_and!; [done..|]. exists n. split; [done|]. apply IH; [done|]. intros b t Hb.
  apply (Hext b t). by right.
Qed.

Lemma lseg_stored m x w m' p l q :
  stored m x w m' → lseg m p l q →
  (∀ a s, (a, s) ∈ l → x ≠ a ∧ x ≠ a + 8) → lseg m' p l q.
Proof.
  intros Hst Hl Hx. eapply lseg_ext; [done|]. intros a s Ha. destruct (Hx a s Ha).
  split; apply (stored_ne _ _ _ _ _ Hst); lia.
Qed.

Lemma spaced_weaken lo hi lo' hi' l :
  spaced lo hi l → lo' ≤ lo → hi ≤ hi' → spaced lo' hi' l.
Proof.
  revert lo lo'. induction l as [|[a s] l IH]; intros lo lo'; simpl; [done|].
  intros (? & ? & ? & ? & ? & Hl) ??. split_and!; try lia. by apply (IH (a + s + 1)).
Qed.

Lemma spaced_app lo hi l1 l2 :
  spaced lo hi (l1 ++ l2) ↔ spaced lo hi l1 ∧ spaced (after lo l1) hi l2.
Proof.
  revert lo. induction l1 as [|[a s] l1 IH]; intros lo; simpl; [tauto|]. rewrite IH.
  unfold after. simpl. tauto.
Qed.

Lemma spaced_elem lo hi l a s :
  spaced lo hi l → (a, s) ∈ l →
  lo ≤ a ∧ a mod 8 = 0 ∧ s mod 8 = 0 ∧ 16 ≤ s ∧ a + s ≤ hi.
Proof.
  revert lo. induction l as [|[b t] l IH]; intros lo; simpl; [by intros _ ?%elem_of_nil|].
  intros (? & ? & ? & ? & ? & Hl) [[= -> ->]|Hin]%elem_of_cons; [by split_and!|].
  destruct (IH _ Hl Hin) as (? & ? & ? & ? & ?). split_and!; (done || lia).
Qed.

Lemma spaced_after lo hi l a s : spaced lo hi l → (a, s) ∈ l → a + s + 1 ≤ after lo l.
Proof.
  induction l as [|[b t] l IH] using rev_ind; [by intros _ ?%elem_of_nil|].
  intros [Hl (Hb & _ & _ & Ht & _)]%spaced_app. unfold after. rewrite foldl_app. simpl.
  intros [Hin|[= -> ->]%list_elem_of_singleton]%elem_of_app; [|lia].
  specialize (IH Hl Hin). lia.
Qed.

Lemma spaced_pre lo hi pre a s post b t :
  spaced lo hi (pre ++ (a, s) :: post) → (b, t) ∈ pre → b + t < a ∧ 16 ≤ t.
Proof.
  intros [Hp (Ha & _)]%spaced_app Hb. simpl in Ha.
  pose proof (spaced_after _ _ _ _ _ Hp Hb). pose proof (spaced_elem _ _ _ _ _ Hp Hb). lia.
Qed.

Lemma spaced_post lo hi pre a s post b t :
  spaced lo hi (pre ++ (a, s) :: post) → (b, t) ∈ post → a + s < b.
Proof.
  intros [Hp (_ & _ & _ & _ & _ & Hl)]%spaced_app Hb.
  pose proof (spaced_elem _ _ _ _ _ Hl Hb). lia.
Qed.

(** The addresses are distinct. *)
Lemma spaced_nodup lo hi l : spaced lo hi l → NoDup l.*1.
Proof.
  revert lo. induction l as [|[a s] l IH]; intros lo; simpl; [constructor|].
  intros (? & ? & ? & ? & ? & Hl). constructor; [|by eapply IH].
  intros ([b t] & Hb & Hin)%list_elem_of_fmap. simpl in Hb. subst b.
  pose proof (spaced_elem _ _ _ _ _ Hl Hin). lia.
Qed.

Lemma touched_refl l m : touched l m m.
Proof. by split. Qed.

Lemma touched_trans l m1 m2 m3 : touched l m1 m2 → touched l m2 m3 → touched l m1 m3.
Proof. intros [H1 H1'] [H2 H2']. split; [|auto]. intros x Hx. by rewrite H2, H1. Qed.

Lemma touched_mono l l' m m' :
  touched l m m' → (∀ x, in_chunks l x → in_chunks l' x) → touched l' m m'.
Proof. intros [H1 H2] Hsub. split; [|done]. intros x Hx. apply H1. naive_solver. Qed.

Lemma touched_mapped l m m' a n : touched l m m' → mapped m a n → mapped m' a n.
Proof. intros [_ Ht] Hm x Hx. by apply Ht, Hm. Qed.

Lemma stored_touched m x w m' l a s :
  stored m x w m' → (a, s) ∈ l → a ≤ x → x + 8 ≤ a + s → touched l m m'.
Proof.
  intros (_ & Hx & Hs) Hin H1 H2. split; [|done]. intros y Hy. apply Hx. intros ?.
  apply Hy. exists a, s. split; [done|lia].
Qed.

(** A list in memory has no more chunks than memory has addresses. *)
Lemma lseg_length m p l q lo hi :
  lseg m p l q → spaced lo hi l → (length l ≤ size m)%nat.
Proof.
  intros Hl Hsp. pose proof (spaced_nodup _ _ _ Hsp) as Hnd.
  rewrite <- (length_fmap fst l), <- (size_list_to_set (C := gset Z) (l.*1)) by done.
  rewrite <- size_dom. apply subseteq_size. intros a. rewrite elem_of_list_to_set, elem_of_dom.
  clear Hsp Hnd. revert p Hl. induction l as [|[b s] l IH]; intros p; simpl.
  - by intros _ ?%elem_of_nil.
  - intros (-> & Hs & n & Hn & Hl) [->|Hin]%elem_of_cons; [|by eapply IH].
    apply (load64_mapped _ _ _ Hs). lia.
Qed.

(** Setting the link of the last chunk of a segment. *)
Lemma lseg_relink m p pre b t q v m' lo hi :
  lseg m p (pre ++ [(b, t)]) q → spaced lo hi (pre ++ [(b, t)]) →
  stored m (b + 8) v m' → 0 ≤ v < 2 ^ 64 → lseg m' p (pre ++ [(b, t)]) v.
Proof.
  intros (r & Hp & -> & Hb & n & _ & _)%lseg_app Hsp Hst Hv. apply lseg_app. exists b. split.
  - eapply lseg_stored; [exact Hst|exact Hp|]. intros c u Hc.
    pose proof (spaced_pre _ _ pre b t [] _ _ Hsp Hc). lia.
  - simpl. rewrite (stored_ne _ _ _ _ b Hst) by lia. rewrite (stored_eq _ _ _ _ Hst).
    rewrite u64_small by done. by eauto.
Qed.

(** ** The abstract allocator *)

(** First fit: the address and size of the chunk taken and the remaining free
    chunks. The rest of a larger chunk stays free if it can hold a chunk. *)
Fixpoint alloc_from (n : Z) (l : list (Z * Z)) : option (Z * Z * list (Z * Z)) :=
  match l with
  | [] => None
  | (a, s) :: t =>
      if n <=? s then
        Some (if 16 <=? s - n then (a, n, (a + n, s - n) :: t) else (a, s, t))
      else '(b, k, t') ← alloc_from n t; Some (b, k, (a, s) :: t')
  end.

(** Insertion of a chunk in address order, coalescing it with both
    neighbours. *)
Fixpoint release (c n : Z) (l : list (Z * Z)) : list (Z * Z) :=
  match l with
  | [] => [(c, n)]
  | (a, s) :: t =>
      if c <? a then if c + n =? a then (c, n + s) :: t else (c, n) :: l
      else if a + s =? c then release a (s + n) t
      else (a, s) :: release c n t
  end.

Lemma alloc_from_None n l : alloc_from n l = None ↔ Forall (λ c, c.2 < n) l.
Proof.
  induction l as [|[a s] l IH]; simpl; [by split|]. rewrite Forall_cons. simpl.
  destruct (Z.leb_spec n s); [split; [done|]; lia|].
  destruct (alloc_from n l) as [[[b k] t']|]; simpl; intuition (done || lia).
Qed.

Lemma alloc_from_here n pre a s post :
  Forall (λ c, c.2 < n) pre → n ≤ s →
  alloc_from n (pre ++ (a, s) :: post) =
    Some (if 16 <=? s - n then (a, n, pre ++ (a + n, s - n) :: post) else (a, s, pre ++ post)).
Proof.
  intros Hpre Hs. induction Hpre as [|[b t] pre Ht Hpre IH]; simpl.
  - by rewrite (proj2 (Z.leb_le _ _)).
  - simpl in Ht. rewrite (proj2 (Z.leb_gt _ _)) by done. rewrite IH. simpl.
    by destruct (16 <=? s - n).
Qed.

Lemma alloc_from_Some n l a k l' :
  alloc_from n l = Some (a, k, l') →
  ∃ pre s post, l = pre ++ (a, s) :: post ∧ Forall (λ c, c.2 < n) pre ∧ n ≤ s ∧
    (k, l') = if 16 <=? s - n then (n, pre ++ (a + n, s - n) :: post) else (s, pre ++ post).
Proof.
  revert l'. induction l as [|[b t] l IH]; intros l'; simpl; [done|].
  destruct (Z.leb_spec n t).
  - intros Heq. exists [], t, l. destruct (16 <=? t - n); simplify_eq; done.
  - destruct (alloc_from n l) as [[[b' k'] t']|]; simpl; [|done]. intros [= -> -> <-].
    destruct (IH t' eq_refl) as (pre & s & post & -> & Hpre & Hs & Hk).
    exists ((b, t) :: pre), s, post. split_and!; [done|by constructor|done|].
    destruct (16 <=? s - n); simplify_eq; done.
Qed.

Lemma release_after c n pre l :
  (∀ a s, (a, s) ∈ pre → a ≤ c ∧ a + s ≠ c) → release c n (pre ++ l) = pre ++ release c n l.
Proof.
  induction pre as [|[a s] pre IH]; intros Hpre; [done|]. simpl.
  destruct (Hpre a s) as [? ?]; [by left|].
  rewrite (proj2 (Z.ltb_ge _ _)), (proj2 (Z.eqb_neq (a + s) c)) by lia.
  rewrite IH; [done|]. intros b t Hb. apply Hpre. by right.
Qed.

Lemma release_spaced lo hi c n l :
  spaced lo hi l → lo ≤ c → c mod 8 = 0 → n mod 8 = 0 → 16 ≤ n → c + n ≤ hi →
  (∀ a s, (a, s) ∈ l → c + n ≤ a ∨ a + s ≤ c) → spaced lo hi (release c n l).
Proof.
  revert lo c n. induction l as [|[a s] l IH]; intros lo c n; simpl.
  { intros _ ????? _. split_and!; done. }
  intros (? & ? & ? & ? & ? & Hl) ????? Hd.
  destruct (Hd a s) as [Hca|Hca]; [by left|..].
  - rewrite (proj2 (Z.ltb_lt _ _)) by lia. destruct (Z.eqb_spec (c + n) a).
    + simpl. split_and!; try (done || lia); [Z.div_mod_to_equations; lia|].
      eapply spaced_weaken; [exact Hl|lia..].
    + simpl. split_and!; try (done || lia).
  - rewrite (proj2 (Z.ltb_ge _ _)) by lia. destruct (Z.eqb_spec (a + s) c).
    + eapply spaced_weaken; [apply (IH a); try lia|lia..].
      * eapply spaced_weaken; [exact Hl|lia..].
      * Z.div_mod_to_equations. lia.
      * intros b t Hb. pose proof (spaced_elem _ _ _ _ _ Hl Hb) as (? & ? & ? & ? & ?).
        destruct (Hd b t) as [?|?]; [by right|left; lia|lia].
    + simpl. split_and!; try (done || lia). apply IH; try (done || lia).
      intros b t Hb. apply Hd. by right.
Qed.

(** Releasing a chunk makes its bytes free, and no others. *)
Lemma release_in_chunks c n l x :
  in_chunks (release c n l) x → in_chunks ((c, n) :: l) x.
Proof.
  unfold in_chunks. revert c n. induction l as [|[a s] l IH]; intros c n; simpl; [done|].
  assert (∀ b t, (b, t) ∈ l → b ≤ x < b + t →
    ∃ a0 s0, (a0, s0) ∈ (c, n) :: (a, s) :: l ∧ a0 ≤ x < a0 + s0) as Hl.
  { intros b t Hin Hx. exists b, t. split; [by do 2 right|done]. }
  assert (c ≤ x < c + n ∨ a ≤ x < a + s → ∃ a0 s0, (a0, s0) ∈ (c, n) :: (a, s) :: l ∧ a0 ≤ x < a0 + s0)
    as Hcn by (intros [?|?]; [exists c, n|exists a, s]; (split; [set_solver|done])).
  destruct (Z.ltb_spec c a), (Z.eqb_spec (c + n) a), (Z.eqb_spec (a + s) c); try done.
  all: intros (b & t & Hin & Hx).
  1,2: apply elem_of_cons in Hin as [[= -> ->]|Hin]; [apply Hcn; lia|by eapply Hl].
  all: try by (exists b, t).
  all: try (destruct (IH a (s + n)) as (b' & t' & [[= -> ->]|Hin']%elem_of_cons & Hx');
    [by exists b, t|apply Hcn; lia|by eapply Hl]).
  all: apply elem_of_cons in Hin as [[= -> ->]|Hin]; [apply Hcn; lia|];
    (destruct (IH c n) as (b' & t' & [[= -> ->]|Hin']%elem_of_cons & Hx');
    [by exists b, t|apply Hcn; lia|by eapply Hl]).
Qed.

(** ** The free list *)

(** Reads a word through the stores made since it was written. *)
Ltac word :=
  repeat match goal with
  | Hs : stored _ _ _ ?m |- load64 ?m _ = _ => rewrite (stored_ne _ _ _ _ _ Hs) by lia
  end; try eassumption.

Section free_list.
Context `{System} `{!SystemLaws}.

Definition free_ok (m : mem) (fl : Z) (l : list (Z * Z)) (hi : Z) : Prop :=
  lseg m fl l 0 ∧ spaced heap_base hi l ∧ (∀ a s, (a, s) ∈ l → mapped m a s).

(** All fields but memory, the free list and [errno]. *)
Definition same_sys (σ σ' : state) : Prop :=
  sbrk_start σ' = sbrk_start σ ∧ st_world σ' = st_world σ.

(** The predecessor the search keeps: the chunk itself at the head. *)
Definition prev (pre : list (Z * Z)) (a : Z) : Z :=
  match last pre with Some (b, _) => b | None => a end.

Lemma prev_snoc pre b t a : prev (pre ++ [(b, t)]) a = b.
Proof. unfold prev. by rewrite last_snoc. Qed.

Lemma free_ok_fuel m fl l hi : free_ok m fl l hi → Z.of_nat (length l) < Z.of_nat (fuel m).
Proof.
  intros (Hl & Hsp & _). pose proof (lseg_length _ _ _ _ _ _ Hl Hsp). unfold fuel. lia.
Qed.

(** What the list says about one of its chunks. *)
Lemma free_ok_chunk m fl pre a s post hi :
  free_ok m fl (pre ++ (a, s) :: post) hi → hi < 2 ^ 62 →
  0 < heap_base ≤ a ∧ a mod 8 = 0 ∧ s mod 8 = 0 ∧ 16 ≤ s ∧ a + s ≤ hi ∧ a ≠ 0 ∧
  mapped m a s ∧ load64 m a = Some s ∧
  ∃ n, load64 m (a + 8) = Some n ∧ 0 ≤ n < 2 ^ 63 ∧ lseg m n post 0.
Proof.
  intros (Hl & Hsp & Hm) Hhi. pose proof heap_range as (? & _).
  assert ((a, s) ∈ pre ++ (a, s) :: post) as Hin by set_solver.
  destruct (spaced_elem _ _ _ _ _ Hsp Hin) as (? & ? & ? & ? & ?).
  apply lseg_app in Hl as (r & _ & -> & Hs & n & Hn & Hl).
  split_and!; try (done || lia). { by apply Hm. }
  exists n. split_and!; [done| | |done]; destruct post as [|[b t] post]; simpl in Hl; [lia| |lia|];
    destruct Hl as [-> _];
    destruct (spaced_elem _ _ _ b t Hsp) as (? & ? & ? & ? & ?); set_solver || lia.
Qed.

Lemma lseg_head m fl pre a s post :
  lseg m fl (pre ++ (a, s) :: post) 0 → pre = [] → fl = a.
Proof. intros Hl ->. by destruct Hl as [-> _]. Qed.

(** The predecessor's link. *)
Lemma lseg_prev m fl pre b t a s post :
  lseg m fl ((pre ++ [(b, t)]) ++ (a, s) :: post) 0 →
  lseg m fl pre b ∧ load64 m b = Some t ∧ load64 m (b + 8) = Some a.
Proof.
  intros (r & (b' & Hp & -> & Hb & n & Hn & ->)%lseg_app & -> & _)%lseg_app. done.
Qed.

(** Taking a whole chunk, or its first [n] bytes. *)
Lemma take_whole_ok σ pre a s post n :
  free_ok (st_mem σ) (free_list σ) (pre ++ (a, s) :: post) (brk (st_world σ)) →
  s - n < 16 →
  ∃ σ', take_chunk (prev pre a) a n (s - n) σ = Some (tt, σ') ∧ same_sys σ σ' ∧
    errno σ' = errno σ ∧
    lseg (st_mem σ') (free_list σ') (pre ++ post) 0 ∧
    touched (pre ++ (a, s) :: post) (st_mem σ) (st_mem σ') ∧
    load64 (st_mem σ') a = Some s.
Proof.
  intros Hok Hn. pose proof (brk_range (st_world σ)) as Hbrk. pose proof heap_range as (_ & Hlim).
  destruct (free_ok_chunk _ _ _ _ _ _ _ Hok ltac:(lia))
    as (Ha0 & Ha8 & Hs8 & Hs16 & Hahi & Ha & Hma & Hsz & next & Hnext & Hnr & Hpost).
  destruct Hok as (Hl & Hsp & Hm).
  unfold take_chunk, MALLOC_MINCHUNK, CHUNK_OFFSET. change (8 + MALLOC_PADDING + MALLOC_MINSIZE) with 16.
  rewrite (proj2 (Z.leb_gt _ _)) by lia.
  destruct pre as [|[b t] pre _] using rev_ind.
  - change (prev [] a) with a.
    rewrite Z.eqb_refl, (bind_eq _ _ _ _ _ (get_next_eq _ _ _ Hnext)).
    eexists. split; [reflexivity|]. simpl. split_and!; try done.
  - rewrite prev_snoc. destruct (lseg_prev _ _ _ _ _ _ _ _ Hl) as (Hpre & Hb & Hbn).
    assert (b + t < a ∧ 16 ≤ t) as [Hbt Ht] by (eapply spaced_pre; [exact Hsp|set_solver]).
    destruct (spaced_elem _ _ _ b t Hsp) as (? & ? & ? & ? & ?); [set_solver|].
    rewrite (proj2 (Z.eqb_neq _ _)) by lia.
    rewrite (bind_eq _ _ _ _ _ (get_next_eq _ _ _ Hnext)).
    destruct (set_next_eq σ b next) as (m1 & Hm1 & Hb1 & ->); [done| |lia|].
    { eapply mapped_sub; [apply (Hm b t); set_solver|lia..]. }
    eexists. split; [reflexivity|]. simpl. split_and!; try done.
    + apply lseg_app. exists next. split.
      * apply lseg_app in Hl as (? & Hl & _). apply spaced_app in Hsp as [Hsp _].
        eapply lseg_relink; [exact Hl|exact Hsp|exact Hm1|lia].
      * eapply lseg_stored; [exact Hm1|exact Hpost|]. intros c u Hc.
        pose proof (spaced_post _ _ _ _ _ _ _ _ Hsp Hc). lia.
    + eapply (stored_touched _ _ _ _ _ b t); [exact Hm1|set_solver|lia..].
    + word.
Qed.

Lemma take_split_ok σ pre a s post n :
  free_ok (st_mem σ) (free_list σ) (pre ++ (a, s) :: post) (brk (st_world σ)) →
  n mod 8 = 0 → 16 ≤ n → 16 ≤ s - n →
  ∃ σ', take_chunk (prev pre a) a n (s - n) σ = Some (tt, σ') ∧ same_sys σ σ' ∧
    errno σ' = errno σ ∧
    lseg (st_mem σ') (free_list σ') (pre ++ (a + n, s - n) :: post) 0 ∧
    touched (pre ++ (a, s) :: post) (st_mem σ) (st_mem σ') ∧
    load64 (st_mem σ') a = Some n.
Proof.
  intros Hok Hn8 Hn Hrem. pose proof (brk_range (st_world σ)) as Hbrk.
  pose proof heap_range as (_ & Hlim).
  destruct (free_ok_chunk _ _ _ _ _ _ _ Hok ltac:(lia))
    as (Ha0 & Ha8 & Hs8 & Hs16 & Hahi & Ha & Hma & Hsz & next & Hnext & Hnr & Hpost).
  destruct Hok as (Hl & Hsp & Hm).
  unfold take_chunk, MALLOC_MINCHUNK, CHUNK_OFFSET. change (8 + MALLOC_PADDING + MALLOC_MINSIZE) with 16.
  rewrite (proj2 (Z.leb_le _ _)) by lia.
  assert ((a + n) mod 8 = 0) as Han by (Z.div_mod_to_equations; lia).
  assert (∀ c u, (c, u) ∈ post → a + s < c) as Hpo by (intros; by eapply spaced_post).
  assert (mapped (st_mem σ) a 8) as Hma1 by (eapply mapped_sub; [exact Hma|lia..]).
  assert (mapped (st_mem σ) (a + n) 8) as Hma2 by (eapply mapped_sub; [exact Hma|lia..]).
  assert (mapped (st_mem σ) (a + n + 8) 8) as Hma3 by (eapply mapped_sub; [exact Hma|lia..]).
  destruct (set_size_eq σ a n) as (m1 & Hm1 & Ha1 & E1); [done..|lia|].
  destruct pre as [|[b t] pre _] using rev_ind.
  - change (prev [] a) with a. rewrite Z.eqb_refl, (bind_eq _ _ _ _ _ E1).
    set (σ1 := State m1 (a + n) (sbrk_start σ) (errno σ) (st_world σ)).
    rewrite set_free_list_bind, get_bind. cbn [free_list set_mem st_mem sbrk_start errno st_world].
    fold σ1.
    destruct (set_size_eq σ1 (a + n) (s - n)) as (m2 & Hm2 & Ha2 & E2);
      [done|by eapply stored_mapped|lia|].
    rewrite (bind_eq _ _ _ _ _ E2).
    assert (load64 m2 (a + 8) = Some next) as Hnext2 by (simpl in *; by word).
    rewrite (bind_eq _ _ _ _ _ (get_next_eq (set_mem m2 σ1) _ _ Hnext2)).
    destruct (set_next_eq (set_mem m2 σ1) (a + n) next) as (m3 & Hm3 & Ha3 & ->);
      [done|do 2 (eapply stored_mapped; [done|]); done|done|].
    eexists. split; [reflexivity|]. simpl in *. split_and!; try done.
    + by word.
    + exists next. split; [done|].
      do 3 (eapply lseg_stored; [eassumption| |intros c u Hc; specialize (Hpo c u Hc); lia]).
      done.
    + apply (touched_trans _ _ m1); [|apply (touched_trans _ _ m2)];
        (eapply (stored_touched _ _ _ _ _ a s); [eassumption|left; done|lia..]).
    + by word.
  - rewrite prev_snoc. assert (b + t < a ∧ 16 ≤ t) as [Hbt Ht]
      by (eapply spaced_pre; [exact Hsp|set_solver]).
    destruct (spaced_elem _ _ _ b t Hsp) as (? & ? & ? & ? & ?); [set_solver|].
    assert (mapped (st_mem σ) (b + 8) 8) as Hmb.
    { eapply mapped_sub; [apply (Hm b t); set_solver|lia..]. }
    rewrite (proj2 (Z.eqb_neq _ _)) by lia. rewrite (bind_eq _ _ _ _ _ E1).
    destruct (set_next_eq (set_mem m1 σ) b (a + n)) as (m2 & Hm2 & Hb2 & E2);
      [done|by eapply stored_mapped|lia|].
    rewrite (bind_eq _ _ _ _ _ E2).
    rewrite (bind_eq _ _ _ _ _ (get_next_eq (set_mem m2 σ) _ _ Hb2)).
    destruct (set_size_eq (set_mem m2 σ) (a + n) (s - n)) as (m3 & Hm3 & Ha3 & E3);
      [done|do 2 (eapply stored_mapped; [done|]); done|lia|].
    rewrite (bind_eq _ _ _ _ _ E3). simpl in *.
    assert (load64 m3 (b + 8) = Some (a + n)) as Hb3 by (by word).
    rewrite (bind_eq _ _ _ _ _ (get_next_eq (set_mem m3 σ) _ _ Hb3)).
    assert (load64 m3 (a + 8) = Some next) as Hnext3 by (by word).
    rewrite (bind_eq _ _ _ _ _ (get_next_eq (set_mem m3 σ) _ _ Hnext3)).
    destruct (set_next_eq (set_mem m3 σ) (a + n) next) as (m4 & Hm4 & Ha4 & ->);
      [done|do 3 (eapply stored_mapped; [done|]); done|done|].
    eexists. split; [reflexivity|]. simpl in *. split_and!; try done.
    + apply lseg_app in Hl as (? & Hl & _). pose proof Hsp as [Hsp' _]%spaced_app.
      assert (∀ c u, (c, u) ∈ pre ++ [(b, t)] → c + u < a ∧ 16 ≤ u) as Hpr
        by (intros; by eapply spaced_pre).
      apply lseg_app. exists (a + n). split.
      * do 2 (eapply lseg_stored; [eassumption| |intros c u Hc; specialize (Hpr c u Hc); lia]).
        eapply lseg_relink; [|exact Hsp'|exact Hm2|lia].
        eapply lseg_stored; [eassumption|exact Hl|intros c u Hc; specialize (Hpr c u Hc); lia].
      * simpl. split_and!; [done|by word|]. exists next. split; [done|].
        do 4 (eapply lseg_stored; [eassumption| |intros c u Hc; specialize (Hpo c u Hc); lia]).
        done.
    + apply (touched_trans _ _ m1); [|apply (touched_trans _ _ m2); [|apply (touched_trans _ _ m3)]].
      2: by eapply (stored_touched _ _ _ _ _ b t); [eassumption|set_solver|lia..].
      all: eapply (stored_touched _ _ _ _ _ a s); [eassumption|set_solver|lia..].
    + by word.
Qed.

Lemma rem_exact x : - 2 ^ 31 ≤ x < 2 ^ 31 → s32 (u64 x) = x.
Proof.
  intros Hx. transitivity (s32 x); [|apply s32_small; lia].
  unfold wraps, wrapu. rewrite Z.mod_mod_divide; [done|]. by exists (2 ^ 32).
Qed.

(** The chunk the abstract allocator takes, and what it leaves. *)
Lemma alloc_from_spaced lo hi n l a k l' :
  spaced lo hi l → alloc_from n l = Some (a, k, l') → n mod 8 = 0 → 16 ≤ n →
  spaced lo hi l' ∧
  (∃ s, (a, s) ∈ l ∧ k ≤ s ∧ n ≤ k ∧ k mod 8 = 0 ∧ k - n < 16) ∧
  (∀ b t, (b, t) ∈ l' →
    (∃ b' t', (b', t') ∈ l ∧ b' ≤ b ∧ b + t ≤ b' + t') ∧ (a + k ≤ b ∨ b + t ≤ a)).
Proof.
  intros Hsp (pre & s & post & -> & Hpre & Hns & Hk)%alloc_from_Some Hn8 Hn.
  assert ((a, s) ∈ pre ++ (a, s) :: post) as Hin by set_solver.
  destruct (spaced_elem _ _ _ _ _ Hsp Hin) as (? & ? & ? & ? & ?).
  pose proof Hsp as [Hsp1 (? & ? & ? & ? & ? & Hsp2)]%spaced_app.
  assert (∀ b t, (b, t) ∈ pre → b + t < a) as Hb by (intros; by eapply spaced_pre).
  assert (∀ b t, (b, t) ∈ post → a + s < b) as Hc by (intros; by eapply spaced_post).
  destruct (Z.leb_spec 16 (s - n)); injection Hk as -> ->.
  - split_and!.
    + apply spaced_app. split; [done|]. simpl. split_and!; try lia; try (Z.div_mod_to_equations; lia).
      eapply spaced_weaken; [exact Hsp2|lia..].
    + exists s. split_and!; (done || lia).
    + intros b t [Hin'|[[= -> ->]|Hin']%elem_of_cons]%elem_of_app.
      * split; [exists b, t; split; [set_solver|lia]|]. specialize (Hb b t Hin'). lia.
      * split; [exists a, s; split; [done|lia]|lia].
      * split; [exists b, t; split; [set_solver|lia]|]. specialize (Hc b t Hin'). lia.
  - split_and!.
    + apply spaced_app. split; [done|]. eapply spaced_weaken; [exact Hsp2|lia..].
    + exists s. split_and!; (done || lia).
    + intros b t [Hin'|Hin']%elem_of_app; (split; [exists b, t; split; [set_solver|lia]|]).
      * specialize (Hb b t Hin'). lia.
      * specialize (Hc b t Hin'). lia.
Qed.

Lemma free_ok_sub m m' fl l l' hi :
  free_ok m fl l hi → touched l m m' → spaced heap_base hi l' →
  (∀ b t, (b, t) ∈ l' → ∃ b' t', (b', t') ∈ l ∧ b' ≤ b ∧ b + t ≤ b' + t') →
  ∀ b t, (b, t) ∈ l' → mapped m' b t.
Proof.
  intros (_ & _ & Hm) Ht Hsp Hsub b t Hin. eapply touched_mapped; [done|].
  destruct (Hsub b t Hin) as (b' & t' & Hin' & ? & ?).
  eapply mapped_sub; [apply Hm, Hin'|lia..].
Qed.

(** The search of [nano_malloc] refines first fit. *)
Lemma malloc_search_ok {SH : SmallHeap} σ l n :
  free_ok (st_mem σ) (free_list σ) l (brk (st_world σ)) →
  n mod 8 = 0 → 16 ≤ n < 2 ^ 31 →
  match alloc_from n l with
  | None => malloc_search n σ = Some (0, σ)
  | Some (a, k, l') =>
      ∃ σ', malloc_search n σ = Some (a, σ') ∧ same_sys σ σ' ∧ errno σ' = errno σ ∧
        free_ok (st_mem σ') (free_list σ') l' (brk (st_world σ)) ∧
        touched l (st_mem σ) (st_mem σ') ∧ load64 (st_mem σ') a = Some k
  end.
Proof.
  intros Hok Hn8 Hn. pose proof (brk_range (st_world σ)) as Hbrk.
  pose proof heap_range as (Hbase & Hlim). red in SH.
 
  unfold malloc_search. rewrite get_bind.
  set (Q := λ (r : Z) (σ' : state), match alloc_from n l with
    | None => r = 0 ∧ σ' = σ
    | Some (a, k, l') => r = a ∧ same_sys σ σ' ∧ errno σ' = errno σ ∧
        lseg (st_mem σ') (free_list σ') l' 0 ∧
        touched l (st_mem σ) (st_mem σ') ∧ load64 (st_mem σ') a = Some k
    end).
  edestruct (loopM_inv (λ k '(p, r), ∃ pre post, l = pre ++ post ∧ k = length post ∧
      lseg (st_mem σ) r post 0 ∧ p = prev pre r ∧ Forall (λ c, c.2 < n) pre) Q)
    as (r & σ' & -> & HQ);
    [|exists [], l; split_and!; [done|reflexivity|apply Hok|done..]
     |pose proof (free_ok_fuel _ _ _ _ Hok); lia|].
  - intros _ [p r] (pre & post & -> & -> & Hl & -> & Hpre).
    destruct post as [|[a s] post]; simpl in Hl.
    { subst r. exists (inr 0), σ. split; [done|]. unfold Q. rewrite app_nil_r.
      by rewrite (proj2 (alloc_from_None _ _)). }
    destruct Hl as [-> _].
    destruct (free_ok_chunk _ _ _ _ _ _ _ Hok ltac:(lia))
      as (Ha0 & Ha8 & Hs8 & Hs16 & Hahi & Ha & Hma & Hsz & next & Hnext & Hnr & Hpost).
    rewrite (proj2 (Z.eqb_neq _ _)) by done.
    rewrite (bind_eq _ _ _ _ _ (get_size_eq _ _ _ Hsz ltac:(lia))). cbv zeta.
    rewrite rem_exact by lia. destruct (Z.leb_spec 0 (s - n)).
    + assert (alloc_from n (pre ++ (a, s) :: post) =
        Some (if 16 <=? s - n then (a, n, pre ++ (a + n, s - n) :: post)
              else (a, s, pre ++ post))) as Hal by (apply alloc_from_here; (done || lia)).
      unfold Q. rewrite Hal. destruct (Z.leb_spec 16 (s - n)).
      * destruct (take_split_ok σ pre a s post n) as (σ' & E & ?); try (done || lia).
        rewrite (bind_eq _ _ _ _ _ E). exists (inr a), σ'. done.
      * destruct (take_whole_ok σ pre a s post n) as (σ' & E & ?); try (done || lia).
        rewrite (bind_eq _ _ _ _ _ E). exists (inr a), σ'. done.
    + rewrite (bind_eq _ _ _ _ _ (get_next_eq _ _ _ Hnext)).
      exists (inl (a, next)), σ. split; [done|]. split; [done|].
      exists (length post). split; [simpl; lia|]. exists (pre ++ [(a, s)]), post.
      rewrite <- app_assoc, prev_snoc. split_and!; [done..|].
      apply Forall_app. split; [done|]. constructor; [simpl; lia|done].
  - subst Q. simpl in HQ. destruct (alloc_from n l) as [[[a k] l']|] eqn:Hal.
    + destruct HQ as (-> & ? & ? & ? & ? & ?). exists σ'. split_and!; try done.
      pose proof Hok as (_ & Hsp & _).
      destruct (alloc_from_spaced _ _ _ _ _ _ _ Hsp Hal) as (Hsp' & _ & Hsub); [done|lia|].
      split_and!; [done..|]. eapply free_ok_sub; [done..|]. intros b t Hb. apply (Hsub b t Hb).
    + by destruct HQ as [-> ->].
Qed.
End free_list.

(** ** Alignment *)

Lemma align_mask y k :
  0 ≤ k < 64 → 0 ≤ y < 2 ^ 64 → Z.land y (u64 (Z.lnot (2 ^ k - 1))) = y - y mod 2 ^ k.
Proof.
  intros Hk Hy. unfold wrapu. rewrite <- Z.land_ones, Z.land_comm by lia.
  rewrite <- Z.land_assoc, (Z.land_comm _ y), Z.land_ones, (Z.mod_small y) by lia.
  replace (2 ^ k - 1) with (Z.ones k) by (rewrite Z.ones_equiv; lia).
  rewrite Z.land_comm, <- Z.ldiff_land, Z.ldiff_ones_r by lia.
  rewrite Z.shiftl_mul_pow2, Z.shiftr_div_pow2 by lia.
  pose proof (Z.div_mod y (2 ^ k)) as Hd. assert (0 < 2 ^ k) by (apply Z.pow_pos_nonneg; lia). lia.
Qed.

Lemma ALIGN_PTR_ok x k :
  0 ≤ k < 64 → 0 ≤ x → x + 2 ^ k ≤ 2 ^ 64 →
  x ≤ ALIGN_PTR x (2 ^ k) < x + 2 ^ k ∧ ALIGN_PTR x (2 ^ k) mod 2 ^ k = 0.
Proof.
  intros Hk Hx Hb. assert (0 < 2 ^ k) by (apply Z.pow_pos_nonneg; lia).
  unfold ALIGN_PTR. rewrite u64_small by lia. rewrite align_mask by lia.
  set (y := x + 2 ^ k - 1).
  pose proof (Z.mod_pos_bound y (2 ^ k) ltac:(lia)). split; [lia|].
  rewrite Zminus_mod, Z.mod_mod, Z.sub_diag by lia. done.
Qed.

Lemma ALIGN_SIZE_PTR x n : ALIGN_SIZE x n = ALIGN_PTR x n.
Proof. done. Qed.

Lemma align8_ok x : 0 ≤ x → x + 8 ≤ 2 ^ 64 →
  x ≤ ALIGN_PTR x 8 < x + 8 ∧ ALIGN_PTR x 8 mod 8 = 0.
Proof. intros. by apply (ALIGN_PTR_ok x 3). Qed.

Lemma align8_id x : 0 ≤ x → x + 8 ≤ 2 ^ 64 → x mod 8 = 0 → ALIGN_PTR x 8 = x.
Proof. intros H0 H1 H2. pose proof (align8_ok x H0 H1). Z.div_mod_to_equations. lia. Qed.

(** What a request becomes; the guard of [nano_malloc] passes exactly when
    the aligned request and its head stay below 2 GiB. *)
Lemma chunk_size_ok s :
  0 ≤ s < 2 ^ 64 →
  (MAX_ALLOC_SIZE <=? chunk_size s) || (chunk_size s <? s) = false →
  s + 8 ≤ chunk_size s < 2 ^ 31 ∧ chunk_size s mod 8 = 0 ∧ 16 ≤ chunk_size s ∧
  chunk_size s < s + 24.
Proof.
  intros Hs [Hmax Hlt]%orb_false_iff. apply Z.leb_gt in Hmax. apply Z.ltb_ge in Hlt.
  unfold chunk_size, MAX_ALLOC_SIZE, MALLOC_MINCHUNK, MALLOC_PADDING, CHUNK_OFFSET,
    MALLOC_MINSIZE, CHUNK_ALIGN, MALLOC_ALIGN in *.
  rewrite ALIGN_SIZE_PTR in *. simpl Z.max in *. rewrite Z.sub_diag, !Z.add_0_r in *.
  change (8 + 8) with 16 in *.
  destruct (decide (s + 8 ≤ 2 ^ 64)) as [Hs8|Hs8].
  - pose proof (align8_ok s ltac:(lia) Hs8) as [Hb Hm].
    rewrite (u64_small (ALIGN_PTR s 8)) in * by lia.
    destruct (decide (ALIGN_PTR s 8 + 8 < 2 ^ 64)).
    + rewrite u64_small in * by lia. split_and!; try lia.
      destruct (Z.max_spec (ALIGN_PTR s 8 + 8) 16) as [[_ ->]|[_ ->]]; [done|].
      Z.div_mod_to_equations. lia.
    + assert (ALIGN_PTR s 8 = 2 ^ 64 - 8) as He by (Z.div_mod_to_equations; lia).
      rewrite He in *. change (u64 (2 ^ 64 - 8 + 8)) with 0 in *. lia.
  - assert (ALIGN_PTR s 8 = 0) as He.
    { unfold ALIGN_PTR. replace (s + 8 - 1) with (s - 2 ^ 64 + 7 + 1 * 2 ^ 64) by lia.
      unfold wrapu at 1. rewrite Z.mod_add by lia. rewrite Z.mod_small by lia.
      rewrite (align_mask _ 3) by lia. change (2 ^ 3) with 8. Z.div_mod_to_equations. lia. }
    rewrite He in *. change (u64 (u64 0 + 8)) with 8 in *. lia.
Qed.

(** ** Growing the heap *)

(** [m'] extends [m] by the memory between [lo] and [hi]. *)
Definition extends (m : mem) (lo hi : Z) (m' : mem) : Prop :=
  (∀ x, ¬ (lo ≤ x < hi) → m' !! x = m !! x) ∧ (∀ x, is_Some (m !! x) → is_Some (m' !! x)).

Lemma extends_mapped m lo hi m' a n : extends m lo hi m' → mapped m a n → mapped m' a n.
Proof. intros [_ He] Hm x Hx. by apply He, Hm. Qed.

Lemma extends_trans m1 a b m2 c m3 :
  extends m1 a b m2 → extends m2 b c m3 → a ≤ b → b ≤ c → extends m1 a c m3.
Proof.
  intros [H1 H1'] [H2 H2'] Hab Hbc. split; [|auto]. intros x Hx. by rewrite H2, H1 by lia.
Qed.

Lemma extends_refl m a b : extends m a b m.
Proof. by split. Qed.

Section sbrk.
Context `{System} `{!SystemLaws}.

Lemma MINUS_1_ne w : brk w ≠ MINUS_1.
Proof. pose proof (brk_range w). pose proof heap_range. change MINUS_1 with (2 ^ 64 - 1). lia. Qed.

(** One call: it reports the break and moves it, or fails without effect. *)
Lemma _sbrk_r_ok incr σ :
  0 ≤ incr →
  ∃ r σ', _sbrk_r incr σ = Some (r, σ') ∧
    free_list σ' = free_list σ ∧ sbrk_start σ' = sbrk_start σ ∧
    (r = MINUS_1 ∧ incr ≠ 0 ∧ brk (st_world σ') = brk (st_world σ) ∧ st_mem σ' = st_mem σ ∨
     r = brk (st_world σ) ∧ brk (st_world σ') = brk (st_world σ) + incr ∧
     extends (st_mem σ) (brk (st_world σ)) (brk (st_world σ) + incr) (st_mem σ') ∧
     mapped (st_mem σ') (brk (st_world σ)) incr).
Proof.
  intros Hi. unfold _sbrk_r.
  destruct (_sbrk (st_world σ) (st_mem σ) incr) as [[[w m] r] e] eqn:Hs.
  eexists r, _. split; [reflexivity|]. simpl. split_and!; [done..|].
  pose proof (sbrk_spec _ _ _ _ _ _ _ Hs Hi) as [(Hr & Hb & Hm)|(Hr & Hb & Hout & Hmap)].
  - left. split_and!; [done| |done..]. intros ->. by apply sbrk_0 in Hs.
  - right. split_and!; [done..| |done]. split; [done|]. intros x Hx.
    destruct (decide (brk (st_world σ) ≤ x < brk (st_world σ) + incr)); [by apply Hmap|].
    by rewrite Hout.
Qed.

Lemma _sbrk_r_0 σ :
  ∃ σ', _sbrk_r 0 σ = Some (brk (st_world σ), σ') ∧
    free_list σ' = free_list σ ∧ sbrk_start σ' = sbrk_start σ ∧
    brk (st_world σ') = brk (st_world σ) ∧ st_mem σ' = st_mem σ.
Proof.
  destruct (_sbrk_r_ok 0 σ) as (r & σ' & E & Hfl & Hst & [(_ & ? & _)|(-> & Hb & Hx & _)]); [lia|done|].
  exists σ'. split_and!; [done..|lia|]. apply map_eq. intros x. apply Hx. lia.
Qed.

(** What a call leaves alone, and the memory it may have added. *)
Definition moved (σ σ' : state) : Prop :=
  free_list σ' = free_list σ ∧ brk (st_world σ) ≤ brk (st_world σ') ∧
  extends (st_mem σ) (brk (st_world σ)) (brk (st_world σ')) (st_mem σ').

Lemma moved_trans σ1 σ2 σ3 : moved σ1 σ2 → moved σ2 σ3 → moved σ1 σ3.
Proof.
  intros (Hf1 & Hb1 & He1) (Hf2 & Hb2 & He2). split_and!; [congruence|lia|].
  by eapply extends_trans.
Qed.

Lemma _sbrk_r_moved incr σ r σ' : 0 ≤ incr → _sbrk_r incr σ = Some (r, σ') → moved σ σ'.
Proof.
  intros Hi E. destruct (_sbrk_r_ok incr σ Hi) as (r' & τ & E' & Hf & _ & Hcase).
  rewrite E in E'. injection E' as <- <-. unfold moved. rewrite Hf.
  destruct Hcase as [(_ & _ & -> & ->)|(_ & -> & He & _)]; split_and!; try (done || lia).
Qed.

(** [sbrk_aligned] adds [s] bytes from the aligned break on, or fails. *)
Lemma sbrk_aligned_ok s σ :
  0 ≤ s →
  ∃ r σ', sbrk_aligned s σ = Some (r, σ') ∧ moved σ σ' ∧
    (r = MINUS_1 ∨
     r = ALIGN_PTR (brk (st_world σ)) 8 ∧ brk (st_world σ') = r + s ∧ mapped (st_mem σ') r s).
Proof.
  intros Hs. unfold sbrk_aligned. rewrite get_bind.
  assert (∃ σ1, (if sbrk_start σ =? 0 then p ← _sbrk_r 0; set_sbrk_start p else mret tt) σ =
      Some (tt, σ1) ∧ free_list σ1 = free_list σ ∧ st_mem σ1 = st_mem σ ∧
      brk (st_world σ1) = brk (st_world σ)) as (σ1 & E1 & Hf1 & Hm1 & Hb1).
  { destruct (sbrk_start σ =? 0); [|by exists σ].
    destruct (_sbrk_r_0 σ) as (σ1 & E & ? & ? & ? & ?). rewrite (bind_eq _ _ _ _ _ E).
    eexists. split; [reflexivity|]. done. }
  rewrite (bind_eq _ _ _ _ _ E1). clear E1.
  assert (moved σ σ1) as Hmv1.
  { split_and!; [done|lia|]. rewrite Hm1. apply extends_refl. }
  destruct (_sbrk_r_ok s σ1 Hs) as (r & σ2 & E2 & _ & _ & Hcase).
  pose proof (moved_trans _ _ _ Hmv1 (_sbrk_r_moved _ _ _ _ Hs E2)) as Hmv2.
  rewrite (bind_eq _ _ _ _ _ E2). rewrite Hb1 in Hcase.
  pose proof (MINUS_1_ne (st_world σ)) as Hne.
  pose proof (brk_range (st_world σ)) as Hbr. pose proof heap_range as (? & ?).
  destruct Hcase as [(-> & _)|(-> & Hb2 & He2 & Hmap2)].
  { rewrite Z.eqb_refl. exists MINUS_1, σ2. split_and!; [done..|]. by left. }
  rewrite (proj2 (Z.eqb_neq _ _)) by done. cbv zeta. unfold CHUNK_ALIGN.
  destruct (align8_ok (brk (st_world σ))) as [Hal Hal8]; [lia..|].
  set (q := ALIGN_PTR (brk (st_world σ)) 8) in *.
  destruct (Z.eqb_spec q (brk (st_world σ))) as [He|Hne']; cbn [negb].
  { exists q, σ2. split_and!; [done..|]. right. rewrite He. done. }
  destruct (_sbrk_r_ok (q - brk (st_world σ)) σ2) as (r & σ3 & E3 & _ & _ & Hcase3); [lia|].
  pose proof (moved_trans _ _ _ Hmv2 (_sbrk_r_moved (q - brk (st_world σ)) _ _ _ ltac:(lia) E3)) as Hmv3.
  rewrite (bind_eq _ _ _ _ _ E3). rewrite Hb2 in Hcase3.
  destruct Hcase3 as [(-> & _)|(-> & Hb3 & He3 & Hmap3)].
  { rewrite Z.eqb_refl. exists MINUS_1, σ3. split_and!; [done..|]. by left. }
  rewrite (proj2 (Z.eqb_neq _ _)) by (rewrite <- Hb2; apply MINUS_1_ne).
  exists q, σ3. split_and!; [done..|]. right. split_and!; [done|lia|].
  intros x Hx. destruct (decide (x < brk (st_world σ) + s)).
  - apply He3, Hmap2. lia.
  - apply Hmap3. lia.
Qed.
End sbrk.

(** ** The heap invariant *)

Definition disjoint (a n b t : Z) : Prop := a + n ≤ b ∨ b + t ≤ a.

Section heap.
Context `{System} `{!SystemLaws}.

(** The block the caller knows as [p]: the chunk of [n] bytes at [a], its
    size in its head, and the offset back to it where the pointer was moved
    for alignment. *)
Definition block_ok (m : mem) (hi p a n : Z) : Prop :=
  heap_base ≤ a ∧ a mod 8 = 0 ∧ n mod 8 = 0 ∧ 16 ≤ n ∧ a + n ≤ hi ∧
  mapped m a n ∧ load64 m a = Some n ∧
  (p = a + 8 ∨ p = a + 16 ∧ 24 ≤ n ∧ load64 m (a + 8) = Some (u64 (-8))).

(** [l] are the free chunks and [al] the blocks handed out, by pointer. *)
Definition heap (σ : state) (l : list (Z * Z)) (al : gmap Z (Z * Z)) : Prop :=
  free_ok (st_mem σ) (free_list σ) l (brk (st_world σ)) ∧
  (∀ p a n, al !! p = Some (a, n) → block_ok (st_mem σ) (brk (st_world σ)) p a n) ∧
  (∀ p a n q b t, al !! p = Some (a, n) → al !! q = Some (b, t) → p ≠ q → disjoint a n b t) ∧
  (∀ p a n b t, al !! p = Some (a, n) → (b, t) ∈ l → disjoint a n b t).

(** The contents of all blocks, heads included, are the same. *)
Definition kept (al : gmap Z (Z * Z)) (m m' : mem) : Prop :=
  ∀ p a n, al !! p = Some (a, n) → ∀ x, a ≤ x < a + n → m' !! x = m !! x.

Lemma kept_trans al m1 m2 m3 : kept al m1 m2 → kept al m2 m3 → kept al m1 m3.
Proof. intros H1 H2 p a n Hp x Hx. by rewrite (H2 p a n Hp x Hx), (H1 p a n Hp x Hx). Qed.

Lemma kept_mono al al' m m' : kept al m m' → al' ⊆ al → kept al' m m'.
Proof. intros Hk Hsub p a n Hp. apply (Hk p a n). by eapply lookup_weaken. Qed.

Lemma kept_touched σ l al m' : heap σ l al → touched l (st_mem σ) m' → kept al (st_mem σ) m'.
Proof.
  intros (_ & _ & _ & Hd) [Ht _] p a n Hp x Hx. apply Ht. intros (b & t & Hin & Hbx).
  destruct (Hd p a n b t Hp Hin); lia.
Qed.

Lemma kept_extends σ l al hi m' :
  heap σ l al → extends (st_mem σ) (brk (st_world σ)) hi m' → kept al (st_mem σ) m'.
Proof.
  intros (_ & Hb & _) [He _] p a n Hp x Hx. apply He.
  destruct (Hb p a n Hp) as (_ & _ & _ & _ & ? & _). lia.
Qed.

Lemma block_kept m m' hi hi' p a n :
  block_ok m hi p a n → (∀ x, a ≤ x < a + n → m' !! x = m !! x) → hi ≤ hi' →
  block_ok m' hi' p a n.
Proof.
  intros (? & ? & ? & ? & ? & Hm & Hl & Hp) Hx ?. unfold block_ok.
  rewrite !(load64_agree m m') by (intros; apply Hx; lia).
  split_and!; try (done || lia). intros x Hx'. rewrite Hx by done. by apply Hm.
Qed.

(** The heap after a step that keeps the blocks and has the free list [l']. *)
Lemma heap_step σ l al σ' l' :
  heap σ l al → kept al (st_mem σ) (st_mem σ') → brk (st_world σ) ≤ brk (st_world σ') →
  free_ok (st_mem σ') (free_list σ') l' (brk (st_world σ')) →
  (∀ p a n b t, al !! p = Some (a, n) → (b, t) ∈ l' → disjoint a n b t) →
  heap σ' l' al.
Proof.
  intros (_ & Hb & Hd & _) Hk Hbr Hf Hd'. split_and!; [done| |done..].
  intros p a n Hp. eapply block_kept; [by apply Hb|by eapply Hk|done].
Qed.

Lemma block_range m hi p a n : block_ok m hi p a n → a < p ∧ p + 8 ≤ a + n.
Proof. intros (? & ? & ? & ? & ? & ? & ? & Hp). lia. Qed.

Lemma heap_fresh σ l al p a n :
  heap σ l al → a < p → p < a + n →
  (∀ q b t, al !! q = Some (b, t) → disjoint a n b t) → al !! p = None.
Proof.
  intros (_ & Hb & _) Hp1 Hp2 Hd. destruct (al !! p) as [[b t]|] eqn:Hp; [|done].
  pose proof (block_range _ _ _ _ _ (Hb _ _ _ Hp)). destruct (Hd p b t Hp); lia.
Qed.

Lemma heap_insert σ l al p a n :
  heap σ l al → block_ok (st_mem σ) (brk (st_world σ)) p a n →
  (∀ q b t, al !! q = Some (b, t) → disjoint a n b t) →
  (∀ b t, (b, t) ∈ l → disjoint a n b t) →
  heap σ l (<[p := (a, n)]> al) ∧ al !! p = None.
Proof.
  intros Hh Hp Hd Hl. pose proof (block_range _ _ _ _ _ Hp).
  split; [|by eapply (heap_fresh _ _ _ p a n); [done|lia..|]]. destruct Hh as (Hf & Hb & Hdd & Hdl).
  split_and!; [done|..].
  - intros q b t [[-> [= -> ->]]|[_ Hq]]%lookup_insert_Some; [done|by apply Hb].
  - intros q b t q' b' t' [[<- [= <- <-]]|[_ Hq]]%lookup_insert_Some
      [[<- [= <- <-]]|[_ Hq']]%lookup_insert_Some Hne; [done|by eapply Hd| |by eapply Hdd].
    destruct (Hd _ _ _ Hq); [by right|by left].
  - intros q b t c u [[<- [= <- <-]]|[_ Hq]]%lookup_insert_Some Hin; [by apply Hl|by eapply Hdl].
Qed.

Lemma heap_moved σ l al σ' : heap σ l al → moved σ σ' → heap σ' l al ∧ kept al (st_mem σ) (st_mem σ').
Proof.
  intros Hh (Hf & Hb & He). pose proof (kept_extends _ _ _ _ _ Hh He) as Hk. split; [|done].
  pose proof Hh as ((Hl & Hsp & Hm) & _ & _ & Hd). apply (heap_step σ l al); [done..| |done].
  rewrite Hf. split_and!.
  - eapply lseg_ext; [exact Hl|]. intros a s Ha.
    destruct (spaced_elem _ _ _ _ _ Hsp Ha) as (? & ? & ? & ? & ?).
    split; apply load64_agree; intros x Hx; apply He; lia.
  - eapply spaced_weaken; [exact Hsp|lia..].
  - intros a s Ha. eapply extends_mapped; [exact He|]. by apply Hm.
Qed.

Lemma last_free_ok σ l hi :
  free_ok (st_mem σ) (free_list σ) l hi → hi < 2 ^ 62 → last_free σ = Some (prev l 0, σ).
Proof.
  intros Hok Hhi. unfold last_free. rewrite get_bind.
  edestruct (loopM_inv (λ k '(p, r), ∃ pre post, l = pre ++ post ∧ k = length post ∧
      lseg (st_mem σ) r post 0 ∧ p = prev pre r) (λ r σ', r = prev l 0 ∧ σ' = σ))
    as (r & σ' & -> & -> & ->);
    [|exists [], l; split_and!; [done|reflexivity|apply Hok|done..]
     |pose proof (free_ok_fuel _ _ _ _ Hok); lia|done].
  intros _ [p r] (pre & post & -> & -> & Hl & ->).
  destruct post as [|[a s] post]; simpl in Hl.
  { subst r. exists (inr (prev pre 0)), σ. rewrite app_nil_r. done. }
  destruct Hl as [-> _]. destruct (free_ok_chunk _ _ _ _ _ _ _ Hok Hhi)
    as (Ha0 & Ha8 & Hs8 & Hs16 & Hahi & Ha & Hma & Hsz & next & Hnext & Hnr & Hpost).
  rewrite (proj2 (Z.eqb_neq _ _)) by done. rewrite (bind_eq _ _ _ _ _ (get_next_eq _ _ _ Hnext)).
  exists (inl (a, next)), σ. split; [done|]. split; [done|].
  exists (length post). split; [simpl; lia|]. exists (pre ++ [(a, s)]), post.
  by rewrite <- app_assoc, prev_snoc.
Qed.

Lemma find_prev_ok σ pre b t a s hi :
  free_ok (st_mem σ) (free_list σ) ((pre ++ [(b, t)]) ++ [(a, s)]) hi → hi < 2 ^ 62 →
  find_prev a (free_list σ) σ = Some (b, σ).
Proof.
  intros Hok Hhi. unfold find_prev. pose proof (free_ok_fuel _ _ _ _ Hok) as Hfuel.
  set (front := pre ++ [(b, t)]) in *. rewrite length_app in Hfuel.
  edestruct (loopM_inv (λ k r, ∃ pre1 u mid, front = pre1 ++ (r, u) :: mid ∧ k = length mid)
    (λ r σ', r = b ∧ σ' = σ) (length front - 1)) as (r & σ' & -> & -> & ->); [| |lia|done].
  - intros _ r (pre1 & u & mid & Hl & ->). pose proof Hok as Hok'.
    rewrite Hl, <- app_assoc in Hok'. simpl in Hok'.
    destruct (free_ok_chunk _ _ _ _ _ _ _ Hok' Hhi)
      as (_ & _ & _ & _ & _ & _ & _ & _ & next & Hnext & _ & Hl1).
    rewrite (bind_eq _ _ _ _ _ (get_next_eq _ _ _ Hnext)).
    destruct mid as [|[c v] mid]; destruct Hl1 as [-> _].
    + apply app_inj_tail in Hl as [_ [= -> ->]]. rewrite Z.eqb_refl. by exists (inr r), σ.
    + assert (c + v < a ∧ 16 ≤ v) as [? ?].
      { destruct Hok as (_ & Hsp & _). eapply spaced_pre; [exact Hsp|]. rewrite Hl. set_solver. }
      rewrite (proj2 (Z.eqb_neq _ _)) by lia. exists (inl c), σ. split; [done|]. split; [done|].
      exists (length mid). split; [simpl; lia|]. exists (pre1 ++ [(r, u)]), v, mid.
      by rewrite <- app_assoc.
  - destruct front as [|[c u] mid] eqn:Hf; [by destruct pre|].
    destruct Hok as ((<- & _) & _). exists [], u, mid. simpl. split; [done|lia].
Qed.

Lemma extend_last_ok σ pre a s n :
  free_ok (st_mem σ) (free_list σ) (pre ++ [(a, s)]) (a + s) →
  mapped (st_mem σ) a n → s ≤ n → n mod 8 = 0 → a + n < 2 ^ 62 →
  ∃ σ', extend_last a (n - s) σ = Some (tt, σ') ∧ same_sys σ σ' ∧ errno σ' = errno σ ∧
    lseg (st_mem σ') (free_list σ') pre 0 ∧
    touched (pre ++ [(a, n)]) (st_mem σ) (st_mem σ') ∧ load64 (st_mem σ') a = Some n.
Proof.
  intros Hok Hma Hsn Hn8 Hlim.
  destruct (free_ok_chunk _ _ _ _ _ _ _ Hok ltac:(lia))
    as (Ha0 & Ha8 & Hs8 & Hs16 & Hahi & Ha & _ & Hsz & next & Hnext & Hnr & Hpost).
  destruct Hok as (Hl & Hsp & Hm). unfold extend_last.
  assert (∀ c u, (c, u) ∈ pre → c + u < a ∧ 16 ≤ u) as Hpr by (intros; by eapply spaced_pre).
  rewrite (bind_eq _ _ _ _ _ (get_size_eq _ _ _ Hsz ltac:(lia))).
  replace (s + (n - s)) with n by lia.
  destruct (set_size_eq σ a n) as (m1 & Hm1 & Ha1 & E1);
    [done|eapply mapped_sub; [exact Hma|lia..]|lia|].
  rewrite (bind_eq _ _ _ _ _ E1), get_bind. clear E1.
  set (σ1 := set_mem m1 σ).
  assert (free_ok m1 (free_list σ1) (pre ++ [(a, n)]) (a + n)) as Hok1.
  { apply lseg_app in Hl as (r & Hl & <- & _). apply spaced_app in Hsp as [Hsp (? & ? & _)].
    split_and!.
    - apply lseg_app. exists r. split.
      + eapply lseg_stored; [exact Hm1|exact Hl|]. intros c u Hc. specialize (Hpr c u Hc). lia.
      + simpl. split_and!; [done..|]. exists next. split; [by word|done].
    - apply spaced_app. split; [eapply spaced_weaken; [exact Hsp|lia..]|].
      simpl. split_and!; (done || lia).
    - intros b t [Hb|[= -> ->]%list_elem_of_singleton]%elem_of_app.
      + eapply stored_mapped; [exact Hm1|]. apply Hm. set_solver.
      + by eapply stored_mapped. }
  assert (touched (pre ++ [(a, n)]) (st_mem σ) m1) as Ht1.
  { eapply (stored_touched _ _ _ _ _ a n); [exact Hm1|set_solver|lia..]. }
  destruct pre as [|[b t] pre _] using rev_ind.
  - destruct Hok1 as ((-> & _ & nx & Hnx & Hnil) & _). simpl in Hnil. subst nx.
    rewrite (bind_eq _ _ _ _ _ (get_next_eq σ1 _ _ Hnx)). simpl.
    eexists. split; [reflexivity|]. done.
  - assert (∃ c u l', (pre ++ [(b, t)]) ++ [(a, n)] = (c, u) :: l' ∧ l' ≠ []) as (c & u & l' & Heq & Hne).
    { destruct pre as [|[c u] pre]; simpl; [by eexists _, _, _|]. eexists _, _, _. split; [done|].
      by destruct pre. }
    assert (free_list σ1 = c ∧ ∃ nx, load64 m1 (c + 8) = Some nx ∧ nx ≠ 0) as (Hfc & nx & Hnx & Hnx0).
    { pose proof Hok1 as (Hl1 & Hsp1 & _). rewrite Heq in Hl1, Hsp1.
      destruct Hl1 as (Hfc & _ & nx & Hnx & Hl1). split; [done|]. exists nx. split; [done|].
      destruct l' as [|[d v] l']; [done|]. destruct Hl1 as [-> _].
      destruct (spaced_elem _ _ _ d v Hsp1) as (? & _); [set_solver|].
      pose proof heap_range. lia. }
    rewrite <- Hfc in Hnx. rewrite (bind_eq _ _ _ _ _ (get_next_eq σ1 _ _ Hnx)).
    rewrite (proj2 (Z.eqb_neq _ _)) by done.
    rewrite (bind_eq _ _ _ _ _ (find_prev_ok σ1 pre b t a n (a + n) Hok1 ltac:(lia))).
    destruct (Hpr b t) as [Hbt Ht16]; [set_solver|].
    destruct (spaced_elem _ _ _ b t Hsp) as (? & ? & ? & ? & ?); [set_solver|].
    destruct (set_next_eq σ1 b 0) as (m2 & Hm2 & Hb2 & ->); [done| |lia|].
    { destruct Hok1 as (_ & _ & Hmm). eapply mapped_sub; [apply (Hmm b t); set_solver|lia..]. }
    eexists. split; [reflexivity|]. simpl. split_and!; [done..| | |].
    + destruct Hok1 as (Hl1 & Hsp1 & _). apply lseg_app in Hl1 as (r & Hl1 & _).
      apply spaced_app in Hsp1 as [Hsp1 _]. eapply lseg_relink; [exact Hl1|exact Hsp1|exact Hm2|lia].
    + eapply touched_trans; [exact Ht1|].
      eapply (stored_touched _ _ _ _ _ b t); [exact Hm2|set_solver|lia..].
    + by word.
Qed.

(** Where a chunk of at least [n] bytes comes from, given the free chunks [l]
    and the break [b]: its address and size, the free chunks and the break
    afterwards. *)
Variant malloc_from (n : Z) (l : list (Z * Z)) (b : Z) : Z → Z → list (Z * Z) → Z → Prop :=
  | from_list a k l' :
      alloc_from n l = Some (a, k, l') → malloc_from n l b a k l' b
  | from_break :
      alloc_from n l = None → malloc_from n l b (ALIGN_PTR b 8) n l (ALIGN_PTR b 8 + n)
  | from_last pre a s :
      l = pre ++ [(a, s)] → alloc_from n l = None → a + s = b → malloc_from n l b a n pre (a + n).

(** The chunk [(a, k)] has been taken off the heap. *)
Definition taken (n b0 : Z) (l : list (Z * Z)) (al : gmap Z (Z * Z)) (a : Z) (σ' : state) : Prop :=
  ∃ k l', malloc_from n l b0 a k l' (brk (st_world σ')) ∧
    heap σ' l' al ∧ n ≤ k < n + 16 ∧ block_ok (st_mem σ') (brk (st_world σ')) (a + 8) a k ∧
    (∀ q b t, al !! q = Some (b, t) → disjoint a k b t) ∧
    (∀ b t, (b, t) ∈ l' → disjoint a k b t).

Lemma taken_list n σ l al a k l' σ' :
  heap σ l al → n mod 8 = 0 → 16 ≤ n → alloc_from n l = Some (a, k, l') →
  same_sys σ σ' → free_ok (st_mem σ') (free_list σ') l' (brk (st_world σ)) →
  touched l (st_mem σ) (st_mem σ') → load64 (st_mem σ') a = Some k →
  taken n (brk (st_world σ)) l al a σ'.
Proof.
  intros Hh Hn8 Hn Hal [_ Hw] Hok' Ht Hk. rewrite <- Hw in Hok'.
  pose proof Hh as ((Hl & Hsp & Hm) & Hb & Hd & Hdl).
  destruct (alloc_from_spaced _ _ _ _ _ _ _ Hsp Hal Hn8 Hn)
    as (Hsp' & (s & Hin & Hks & Hnk & Hk8 & Hkn) & Hsub).
  destruct (spaced_elem _ _ _ _ _ Hsp Hin) as (? & ? & ? & ? & ?).
  exists k, l'. rewrite Hw in *. split_and!; [by constructor| |lia|lia| | |].
  - eapply heap_step; [done|by eapply kept_touched|rewrite Hw; lia|by rewrite Hw|].
    intros p b t c u Hp Hc. destruct (Hsub c u Hc) as [(c' & u' & Hc' & ? & ?) _].
    destruct (Hdl p b t c' u' Hp Hc') as [?|?]; [left|right]; lia.
  - unfold block_ok. split_and!; try (done || lia).
    eapply touched_mapped; [done|]. eapply mapped_sub; [by apply Hm|lia..].
  - intros q b t Hq. destruct (Hdl q b t a s Hq Hin); [right|left]; lia.
  - intros b t Hin'. by apply Hsub.
Qed.

Lemma malloc_extend_ok n b0 σ l al :
  heap σ l al → spaced heap_base b0 l → b0 ≤ brk (st_world σ) → n mod 8 = 0 → 16 ≤ n < 2 ^ 31 → alloc_from n l = None →
  ∃ r d σ', malloc_extend n σ = Some ((r, d), σ') ∧ kept al (st_mem σ) (st_mem σ') ∧
    (r = 0 ∧ errno σ' = ENOMEM ∧ heap σ' l al ∨ r ≠ 0 ∧ d ≤ n - 16 ∧ taken n b0 l al r σ').
Proof.
  intros Hh Hb0 Hb0' Hn8 Hn Hal. pose proof Hh as (Hok & Hb & Hd & Hdl).
  pose proof (brk_range (st_world σ)) as Hbr. pose proof heap_range as (Hbase & Hlim).
  unfold malloc_extend. rewrite (bind_eq _ _ _ _ _ (last_free_ok σ l _ Hok ltac:(lia))).
  destruct l as [|[a s] pre _] using rev_ind.
  { simpl. eexists 0, _, _. split; [reflexivity|]. simpl. split; [by intros ?|]. left. done. }
  rewrite prev_snoc. destruct (free_ok_chunk _ _ _ _ _ _ _ Hok ltac:(lia))
    as (Ha0 & Ha8 & Hs8 & Hs16 & Hahi & Ha & Hma & Hsz & next & Hnext & Hnr & Hpost).
  rewrite (proj2 (Z.eqb_neq _ _)) by done. cbn [negb andb].
  rewrite (bind_eq _ _ _ _ _ (get_size_eq _ _ _ Hsz ltac:(lia))).
  destruct (_sbrk_r_0 σ) as (σ1 & E1 & Hf1 & _ & Hb1 & Hm1).
  rewrite (bind_eq _ _ _ _ _ E1). clear E1.
  assert (moved σ σ1) as Hmv1.
  { split_and!; [done|lia|]. rewrite Hm1. apply extends_refl. }
  destruct (Z.eqb_spec (a + s) (brk (st_world σ))) as [Has|].
  2: { destruct (heap_moved _ _ _ _ Hh Hmv1) as [Hh1 Hk1].
       eexists 0, _, _. split; [reflexivity|]. simpl. split; [done|]. by left. }
  pose proof Hal as [_ Hsmall]%alloc_from_None%Forall_app.
  apply Forall_inv in Hsmall. simpl in Hsmall.
  cbv zeta. rewrite u64_small by lia.
  destruct (sbrk_aligned_ok (n - s) σ1) as (r & σ2 & E2 & Hmv2 & Hcase); [lia|].
  rewrite (bind_eq _ _ _ _ _ E2). clear E2. pose proof (moved_trans _ _ _ Hmv1 Hmv2) as Hmv.
  destruct (heap_moved _ _ _ _ Hh Hmv) as [Hh2 Hk2].
  destruct Hcase as [->|(-> & Hb2 & Hmap2)].
  { rewrite Z.eqb_refl. simpl. eexists 0, _, _. split; [reflexivity|]. simpl. split; [done|]. by left. }
  rewrite Hb1 in *. rewrite align8_id in * by (rewrite <- Has; Z.div_mod_to_equations; lia).
  rewrite (proj2 (Z.eqb_neq _ _)) by apply MINUS_1_ne. cbn [negb].
  assert (brk (st_world σ2) = a + n) as Hb2' by lia. pose proof (brk_range (st_world σ2)) as Hbr2.
  pose proof Hh2 as ((Hl2 & Hsp2 & Hm2) & Hbl2 & _ & Hdl2).
  assert (mapped (st_mem σ2) a n) as Hma2.
  { intros x Hx. destruct (decide (x < a + s)); [apply (Hm2 a s); [set_solver|lia]|].
    apply Hmap2. lia. }
  destruct (extend_last_ok σ2 pre a s n) as (σ3 & E3 & [_ Hw3] & _ & Hl3 & Ht3 & Hsz3); try (done || lia).
  { split_and!; [done| |done]. destruct Hok as (_ & Hsp & _). by rewrite Has. }
  rewrite (bind_eq _ _ _ _ _ E3). clear E3. exists a, (n - s), σ3. split; [done|].
  assert (∀ q b t, al !! q = Some (b, t) → disjoint a n b t) as Hda.
  { intros q b t Hq. destruct (Hdl q b t a s Hq) as [?|?]; [set_solver|by right|].
    destruct (Hb q b t Hq) as (_ & _ & _ & ? & ? & _). right. lia. }
  assert (kept al (st_mem σ2) (st_mem σ3)) as Hk3.
  { intros p c u Hp x Hx. apply Ht3. intros (d & v & [Hin|[= -> ->]%list_elem_of_singleton]%elem_of_app & Hv).
    - destruct (Hdl2 p c u d v Hp); [set_solver|lia..].
    - destruct (Hda p c u Hp); lia. }
  split; [by eapply kept_trans|]. right. split; [done|]. split; [lia|]. exists n, pre.
  assert (∀ b t, (b, t) ∈ pre → b + t < a ∧ 16 ≤ t) as Hpr by (intros; by eapply spaced_pre).
  rewrite Hw3, Hb2'. split_and!; try (done || lia).
  - apply (from_last _ _ _ pre a s); [done..|].
    destruct (spaced_elem _ _ _ a s Hb0) as (_ & _ & _ & _ & ?); [set_solver|lia].
  - eapply heap_step; [exact Hh2|done|by rewrite Hw3| |].
    + rewrite Hw3, Hb2'. split_and!; [done| |].
      * destruct Hok as (_ & Hsp & _). apply spaced_app in Hsp as [Hsp _].
        eapply spaced_weaken; [exact Hsp|lia..].
      * intros b t Hin. eapply touched_mapped; [done|]. apply Hm2. set_solver.
    + intros p b t c u Hp Hc. eapply Hdl; [done|set_solver].
  - unfold block_ok. split_and!; try (done || lia). by eapply touched_mapped.
  - intros b t Hin. destruct (Hpr b t Hin). right. lia.
Qed.

(** A chunk fresh from the system. *)
Lemma taken_break n σ l al σ' m' :
  heap σ l al → n mod 8 = 0 → 16 ≤ n → alloc_from n l = None → moved σ σ' →
  let a := ALIGN_PTR (brk (st_world σ)) 8 in
  brk (st_world σ') = a + n → mapped (st_mem σ') a n → stored (st_mem σ') a n m' →
  load64 m' a = Some n →
  kept al (st_mem σ) m' ∧ taken n (brk (st_world σ)) l al a (set_mem m' σ').
Proof.
  intros Hh Hn8 Hn Hal Hmv a Hb' Hma Hst Hsz.
  pose proof (brk_range (st_world σ)) as Hbr. pose proof heap_range as (Hbase & Hlim).
  destruct (align8_ok (brk (st_world σ))) as [Ha Ha8]; [lia..|]. fold a in Ha, Ha8.
  destruct (heap_moved _ _ _ _ Hh Hmv) as [Hh' Hk].
  pose proof Hh as ((Hl & Hsp & Hm) & Hb & Hd & Hdl).
  pose proof Hh' as ((Hl' & Hsp' & Hm') & Hbl' & _ & _).
  assert (kept al (st_mem σ') m') as Hk'.
  { intros p c u Hp x Hx. apply Hst. destruct (Hb p c u Hp) as (_ & _ & _ & _ & ? & _). lia. }
  split; [by eapply kept_trans|]. exists n, l. simpl. rewrite Hb'. split_and!; try lia.
  - by apply from_break.
  - eapply heap_step; [exact Hh'|done|done| |done]. split_and!; [|done|].
    + eapply lseg_stored; [exact Hst|exact Hl'|]. intros c u Hc.
      destruct (spaced_elem _ _ _ _ _ Hsp Hc) as (? & ? & ? & ? & ?). lia.
    + intros c u Hc. eapply stored_mapped; [exact Hst|]. by apply Hm'.
  - unfold block_ok. split_and!; try (done || lia). by eapply stored_mapped.
  - intros q b t Hq. destruct (Hb q b t Hq) as (_ & _ & _ & _ & ? & _). right. lia.
  - intros b t Hc. destruct (spaced_elem _ _ _ _ _ Hsp Hc) as (? & ? & ? & ? & ?). right. lia.
Qed.

(** The last step of [nano_malloc]: the chunk is aligned, no padding. *)
Lemma taken_block {RL : Release} n b0 l al a s d σ' :
  taken n b0 l al a σ' →
  a ≠ 0 ∧ malloc_finish a s d σ' = Some (a + 8, σ') ∧
  ∃ k l', malloc_from n l b0 a k l' (brk (st_world σ')) ∧ n ≤ k < n + 16 ∧
    al !! (a + 8) = None ∧ heap σ' l' (<[a + 8 := (a, k)]> al).
Proof.
  intros (k & l' & Hmf & Hh & Hk & Hbl & Hd & Hdl).
  pose proof (brk_range (st_world σ')). pose proof heap_range as (? & ?).
  pose proof Hbl as (? & Ha8 & ? & ? & ? & _). split_and!; [lia|..].
  - unfold malloc_finish, CHUNK_OFFSET, MALLOC_ALIGN.
    rewrite align8_id by (Z.div_mod_to_equations; lia). cbv zeta.
    rewrite Z.sub_diag. unfold assert_that. by rewrite RL.
  - exists k, l'. destruct (heap_insert _ _ _ _ _ _ Hh Hbl Hd Hdl). done.
Qed.

Definition malloc_post (s : Z) (σ : state) (l : list (Z * Z)) (al : gmap Z (Z * Z)) (r : Z) (σ' : state) : Prop :=
  kept al (st_mem σ) (st_mem σ') ∧
  (r = 0 ∧ errno σ' = ENOMEM ∧ heap σ' l al ∨
   ∃ a k l', r = a + 8 ∧ al !! r = None ∧ heap σ' l' (<[r := (a, k)]> al) ∧
     malloc_from (chunk_size s) l (brk (st_world σ)) a k l' (brk (st_world σ')) ∧
     s + 8 ≤ k < 2 ^ 32).

Lemma nano_malloc_ok {SH : SmallHeap} {RL : Release} s σ l al :
  heap σ l al → 0 ≤ s < 2 ^ 64 →
  ∃ r σ', nano_malloc s σ = Some (r, σ') ∧ malloc_post s σ l al r σ'.
Proof.
  intros Hh Hs. unfold nano_malloc. cbv zeta.
  destruct ((MAX_ALLOC_SIZE <=? chunk_size s) || (chunk_size s <? s)) eqn:Hg.
  { eexists 0, _. split; [reflexivity|]. split; [by intros ?|]. by left. }
  destruct (chunk_size_ok s Hs Hg) as (Hn & Hn8 & Hn16 & _). set (n := chunk_size s) in *.
  assert (∀ r d σ', taken n (brk (st_world σ)) l al r σ' → kept al (st_mem σ) (st_mem σ') →
    ∃ q τ, (if r =? 0 then mret 0 else malloc_finish r s d) σ' = Some (q, τ) ∧
      malloc_post s σ l al q τ) as Hpost.
  { intros r d σ' Ht Hk.
    destruct (taken_block _ _ _ _ _ s d _ Ht) as (Hr & E & k & l' & ? & ? & ? & ?).
    rewrite (proj2 (Z.eqb_neq _ _) Hr). exists (r + 8), σ'. split; [done|]. split; [done|].
    right. exists r, k, l'. split_and!; (done || lia). }
  pose proof (malloc_search_ok σ l n (proj1 Hh) Hn8 ltac:(lia)) as Hsearch.
  destruct (alloc_from n l) as [[[a k] l']|] eqn:Hal.
  - destruct Hsearch as (σ1 & E1 & Hsys & Herr & Hok1 & Ht1 & Hk1).
    pose proof (taken_list _ _ _ _ _ _ _ _ Hh Hn8 Hn16 Hal Hsys Hok1 Ht1 Hk1) as Ht.
    rewrite (bind_eq _ _ _ _ _ E1). destruct (taken_block _ _ _ _ _ s n _ Ht) as [Hr _].
    rewrite (proj2 (Z.eqb_neq _ _) Hr), ret_bind. apply Hpost; [done|by eapply kept_touched].
  - rewrite (bind_eq _ _ _ _ _ Hsearch), Z.eqb_refl.
    destruct (sbrk_aligned_ok n σ) as (r & σ1 & E1 & Hmv & Hcase); [lia|].
    destruct (heap_moved _ _ _ _ Hh Hmv) as [Hh1 Hk1].
    pose proof (brk_range (st_world σ)) as Hbr. pose proof heap_range as (Hbase & Hlim).
    destruct Hcase as [->|(-> & Hb1 & Hma1)].
    + destruct (malloc_extend_ok n (brk (st_world σ)) σ1 l al) as (r & d & σ2 & E2 & Hk2 & Hcase);
        try (done || lia || apply Hh || apply Hmv).
      rewrite (bind_eq _ _ _ (r, d) σ2)
        by (rewrite (bind_eq _ _ _ _ _ E1), Z.eqb_refl; exact E2).
      destruct Hcase as [(-> & Herr & Hh2)|(Hr & _ & Ht)]; [|apply Hpost; [done|by eapply kept_trans]].
      exists 0, σ2. split; [done|]. split; [by eapply kept_trans|]. by left.
    + set (a := ALIGN_PTR (brk (st_world σ)) 8) in *.
      destruct (align8_ok (brk (st_world σ))) as [Ha Ha8]; [lia..|]. fold a in Ha, Ha8.
      destruct (set_size_eq σ1 a n) as (m2 & Hst & Hsz & E2);
        [done|eapply mapped_sub; [exact Hma1|lia..]|lia|].
      destruct (taken_break n σ l al σ1 m2) as [Hk2 Ht]; try done.
      rewrite (bind_eq _ _ _ (a, n) (set_mem m2 σ1)); [by apply Hpost|].
      rewrite (bind_eq _ _ _ _ _ E1). pose proof (brk_range (st_world σ1)).
      rewrite (proj2 (Z.eqb_neq _ _)) by (change MINUS_1 with (2 ^ 64 - 1); lia).
      by rewrite (bind_eq _ _ _ _ _ E2).
Qed.

(** Where [DEBUG] is set, a call that extends the last free chunk ends the program
    although the block is right: [alloc_size] is by then only what was added, less
    than the request, and the assertion compares against it. *)
Lemma nano_malloc_assert s σ l al r d σ1 σ2 :
  DEBUG = true → heap σ l al → 0 ≤ s → s ≤ chunk_size s < MAX_ALLOC_SIZE →
  malloc_search (chunk_size s) σ = Some (0, σ) → alloc_from (chunk_size s) l = None →
  sbrk_aligned (chunk_size s) σ = Some (MINUS_1, σ1) → moved σ σ1 →
  malloc_extend (chunk_size s) σ1 = Some ((r, d), σ2) → r ≠ 0 →
  nano_malloc s σ = None.
Proof.
  intros HD Hh Hs Hg E0 Hal E1 Hmv E2 Hr.
  assert (0 ≤ s < 2 ^ 64) as Hs' by (change MAX_ALLOC_SIZE with (2 ^ 31) in Hg; lia).
  unfold nano_malloc. cbv zeta.
  assert ((MAX_ALLOC_SIZE <=? chunk_size s) || (chunk_size s <? s) = false) as Hg' by lia.
  rewrite Hg'. destruct (chunk_size_ok s Hs' Hg') as (Hn & Hn8 & Hn16 & Hup).
  destruct (heap_moved _ _ _ _ Hh Hmv) as [Hh1 _].
  destruct (malloc_extend_ok (chunk_size s) (brk (st_world σ)) σ1 l al)
    as (r' & d' & σ' & E & _ & Hcase); try (done || lia || apply Hh || apply Hmv).
  rewrite E2 in E. injection E as <- <- <-.
  destruct Hcase as [[? _]|(_ & Hd & k & l' & _ & Hh2 & _ & Hbl & _)]; [done|].
  rewrite (bind_eq _ _ _ _ _ E0), Z.eqb_refl.
  rewrite (bind_eq _ _ _ (r, d) σ2) by (rewrite (bind_eq _ _ _ _ _ E1), Z.eqb_refl; exact E2).
  rewrite (proj2 (Z.eqb_neq _ _) Hr). unfold malloc_finish, CHUNK_OFFSET, MALLOC_ALIGN.
  pose proof Hbl as (? & Ha8 & ? & ? & ? & _). pose proof heap_range as (? & ?).
  pose proof (brk_range (st_world σ2)).
  rewrite align8_id by (Z.div_mod_to_equations; lia). cbv zeta. rewrite Z.sub_diag.
  unfold assert_that. rewrite HD. rewrite (proj2 (Z.leb_gt _ _)) by lia. done.
Qed.
End heap.

(** ** free *)

Section free.
Context {S : System} {SL : SystemLaws}.

(** The chunk to free, [n] bytes at [a], and the free chunks it is put
    between. *)
Context (σ : state) (l : list (Z * Z)) (a n : Z).
#[local] Abbreviation hi := (brk (st_world σ)).
Context (Hok : free_ok (st_mem σ) (free_list σ) l hi)
  (Ha0 : heap_base ≤ a) (Ha8 : a mod 8 = 0) (Hn8 : n mod 8 = 0) (Hn : 16 ≤ n) (Hahi : a + n ≤ hi)
  (Hma : mapped (st_mem σ) a n) (Hsz : load64 (st_mem σ) a = Some n)
  (Hdis : ∀ b t, (b, t) ∈ l → disjoint a n b t).

Definition freed (σ' : state) : Prop :=
  same_sys σ σ' ∧ errno σ' = errno σ ∧ lseg (st_mem σ') (free_list σ') (release a n l) 0 ∧
  touched ((a, n) :: l) (st_mem σ) (st_mem σ').

Lemma hi_limit : 0 < heap_base ∧ hi < 2 ^ 62.
Proof using SL. pose proof (brk_range (st_world σ)). pose proof heap_range. lia. Qed.

Lemma touched_self m x w m' :
  stored m x w m' → a ≤ x → x + 8 ≤ a + n → touched ((a, n) :: l) m m'.
Proof. intros Hst ??. by eapply (stored_touched _ _ _ _ _ a n); [exact Hst|left|..]. Qed.

Lemma touched_free m x w m' b t :
  stored m x w m' → (b, t) ∈ l → b ≤ x → x + 8 ≤ b + t → touched ((a, n) :: l) m m'.
Proof. intros Hst ???. by eapply (stored_touched _ _ _ _ _ b t); [exact Hst|by right|..]. Qed.

Lemma free_first_ok :
  l = [] → ∃ σ', (_ ← set_next a (free_list σ); set_free_list a) σ = Some (tt, σ') ∧ freed σ'.
Proof using Hok Ha8 Hn Hma Hsz.
  intros Hl. pose proof Hok as (Hfl & _). rewrite Hl in Hfl. simpl in Hfl. rewrite Hfl.
  destruct (set_next_eq σ a 0) as (m1 & Hm1 & Ha1 & E1);
    [done|eapply mapped_sub; [exact Hma|lia..]|lia|].
  rewrite (bind_eq _ _ _ _ _ E1). eexists. split; [reflexivity|].
  unfold freed. rewrite Hl. simpl. split_and!; try done.
  - by word.
  - by exists 0.
  - rewrite <- Hl. eapply touched_self; [exact Hm1|lia..].
Qed.

Lemma free_before_ok b t l' :
  l = (b, t) :: l' → a < b → ∃ σ', free_before a b σ = Some (tt, σ') ∧ freed σ'.
Proof using All.
  intros Hl Hab. destruct hi_limit as [Hbase Hhi]. pose proof Hok as Hok'. rewrite Hl in Hok'.
  destruct (free_ok_chunk _ _ [] _ _ _ _ Hok' Hhi)
    as (? & Hb8 & Ht8 & Ht & Hbhi & Hb & Hmb & Hbz & next & Hnext & Hnr & Hpost).
  destruct Hok' as (Hfl & Hsp & Hm).
  assert (a + n ≤ b) as Hanb by (destruct (Hdis b t); [rewrite Hl; by left|lia..]).
  assert (∀ c u, (c, u) ∈ l' → b + t < c) as Hpo
    by (intros; by eapply (spaced_post _ _ [])).
  unfold free_before. rewrite (bind_eq _ _ _ _ _ (get_size_eq _ _ _ Hsz ltac:(lia))).
  unfold freed. rewrite Hl. simpl release. rewrite (proj2 (Z.ltb_lt _ _)) by lia. rewrite <- Hl.
  destruct (Z.eqb_spec (a + n) b) as [He|Hne].
  - destruct (set_size_eq σ a (n + t)) as (m1 & Hm1 & Ha1 & E1);
      [done|eapply mapped_sub; [exact Hma|lia..]|lia|].
    assert (load64 m1 (b + 8) = Some next) as Hnext1 by (by word).
    destruct (set_next_eq (set_mem m1 σ) a next) as (m2 & Hm2 & Ha2 & E2);
      [done|eapply stored_mapped; [exact Hm1|]; eapply mapped_sub; [exact Hma|lia..]|lia|].
    rewrite (bind_eq _ _ _ tt (set_mem m2 σ)).
    2: { rewrite (bind_eq _ _ _ _ _ (get_size_eq _ _ _ Hbz ltac:(lia))).
         rewrite (bind_eq _ _ _ _ _ E1).
         rewrite (bind_eq _ _ _ _ _ (get_next_eq (set_mem m1 σ) _ _ Hnext1)). exact E2. }
    eexists. split; [reflexivity|]. simpl in *. split_and!; try done.
    + by word.
    + exists next. split; [done|].
      do 2 (eapply lseg_stored; [eassumption| |intros c u Hc; specialize (Hpo c u Hc); lia]). done.
    + apply (touched_trans _ _ m1); (eapply touched_self; [eassumption|lia..]).
  - destruct (set_next_eq σ a b) as (m1 & Hm1 & Ha1 & E1);
      [done|eapply mapped_sub; [exact Hma|lia..]|lia|].
    rewrite (bind_eq _ _ _ _ _ E1). eexists. split; [reflexivity|]. simpl. split_and!; try done.
    + by word.
    + exists b. split; [done|]. rewrite Hl. split_and!; [done|by word|].
      exists next. split; [by word|].
      eapply lseg_stored; [eassumption| |intros c u Hc; specialize (Hpo c u Hc); lia]. done.
    + eapply touched_self; [eassumption|lia..].
Qed.

Lemma list_case (k : list (Z * Z)) : k = [] ∨ ∃ b t k', k = (b, t) :: k'.
Proof. destruct k as [|[b t] k']; [by left|right; by eexists _, _, _]. Qed.

Definition head_addr (l : list (Z * Z)) : Z := match l with (q, _) :: _ => q | [] => 0 end.

Lemma free_walk_ok b t l' :
  l = (b, t) :: l' → b ≤ a →
  ∃ pre p u post, l = pre ++ (p, u) :: post ∧ p ≤ a ∧ (∀ c v, (c, v) ∈ post → a < c) ∧
    free_walk a b σ = Some ((p, head_addr post), σ).
Proof using All.
  intros Hl Hba. destruct hi_limit as [Hbase Hhi]. unfold free_walk.
  edestruct (loopM_inv (λ k p, ∃ pre u post, l = pre ++ (p, u) :: post ∧ p ≤ a ∧ k = length post)
    (λ '(p, q) σ', σ' = σ ∧ ∃ pre u post, l = pre ++ (p, u) :: post ∧ p ≤ a ∧
      (∀ c v, (c, v) ∈ post → a < c) ∧ q = head_addr post) (length l'))
    as ([p q] & σ' & -> & -> & pre & u & post & Hl1 & Hpa & Hpost & ->);
    [| |pose proof (free_ok_fuel _ _ _ _ Hok) as Hf; rewrite Hl in Hf; simpl in Hf; lia
     |by exists pre, p, u, post].
  - intros _ p (pre & u & post & Hl1 & Hpa & ->). pose proof Hok as Hok1. rewrite Hl1 in Hok1.
    destruct (free_ok_chunk _ _ _ _ _ _ _ Hok1 Hhi)
      as (_ & _ & _ & _ & _ & _ & _ & _ & next & Hnext & _ & Hls).
    rewrite (bind_eq _ _ _ _ _ (get_next_eq _ _ _ Hnext)).
    destruct post as [|[q v] post]; simpl in Hls.
    { subst next. exists (inr (p, 0)), σ. split; [done|]. split; [done|].
      exists pre, u, []. split_and!; [done..|by intros ?? ?%elem_of_nil|done]. }
    destruct Hls as [-> _]. destruct Hok1 as (_ & Hsp & _).
    assert (q ≠ 0). { destruct (spaced_elem _ _ _ q v Hsp) as (? & _); [set_solver|lia]. }
    rewrite (proj2 (Z.eqb_neq _ _)) by done. simpl. destruct (Z.leb_spec q a).
    + exists (inl q), σ. split; [done|]. split; [done|]. exists (length post). split; [simpl; lia|].
      exists (pre ++ [(p, u)]), v, post. by rewrite <- app_assoc.
    + exists (inr (p, q)), σ. split; [done|]. split; [done|].
      exists pre, u, ((q, v) :: post). split_and!; [done..| |done].
      intros c w [[= -> ->]|Hin]%elem_of_cons; [lia|].
      rewrite (app_assoc pre [(p, u)] ((q, v) :: post) : pre ++ _ :: _ = _) in Hsp.
      pose proof (spaced_post _ _ _ _ _ _ _ _ Hsp Hin).
      destruct (spaced_elem _ _ _ q v Hsp) as (? & ? & ? & ? & ?); [set_solver|lia].
  - exists [], t, l'. done.
Qed.

Section between.
Context (pre : list (Z * Z)) (p t : Z) (post : list (Z * Z)).
Context (Hl : l = pre ++ (p, t) :: post) (Hpa : p ≤ a)
  (Hpost : ∀ c v, (c, v) ∈ post → a < c).

Lemma between_facts :
  p mod 8 = 0 ∧ t mod 8 = 0 ∧ 16 ≤ t ∧ 0 < heap_base ≤ p ∧ p + t ≤ a ∧ mapped (st_mem σ) p t ∧
  load64 (st_mem σ) p = Some t ∧ load64 (st_mem σ) (p + 8) = Some (head_addr post) ∧
  lseg (st_mem σ) (head_addr post) post 0 ∧ 0 ≤ head_addr post < 2 ^ 62 ∧
  (∀ c u, (c, u) ∈ pre → c + u < p ∧ 16 ≤ u) ∧ (∀ c u, (c, u) ∈ post → a + n ≤ c) ∧
  lseg (st_mem σ) (free_list σ) pre p ∧ spaced heap_base hi (pre ++ [(p, t)]).
Proof using All.
  destruct hi_limit as [Hbase Hhi]. pose proof Hok as Hok1. rewrite Hl in Hok1.
  destruct (free_ok_chunk _ _ _ _ _ _ _ Hok1 Hhi)
    as (? & ? & ? & ? & ? & ? & ? & ? & next & Hnext & Hnr & Hls).
  destruct Hok1 as (Hfl & Hsp & Hm).
  assert (next = head_addr post) as ->.
  { destruct post as [|[q u] post']; simpl in Hls; [done|]. by destruct Hls as [-> _]. }
  assert (p + t ≤ a) as Hpt by (destruct (Hdis p t); [rewrite Hl; set_solver|lia..]).
  apply lseg_app in Hfl as (r & Hfl & Hr & _). simpl in Hr. subst r.
  split_and!; try (done || lia).
  - destruct post as [|[q u] post']; simpl; [lia|].
    destruct (spaced_elem _ _ _ q u Hsp) as (? & ? & ? & ? & ?); [set_solver|lia].
  - intros c u Hc. by eapply spaced_pre.
  - intros c u Hc. specialize (Hpost c u Hc). destruct (Hdis c u); [rewrite Hl; set_solver|lia|].
    destruct (spaced_elem _ _ _ c u Hsp) as (? & ? & ? & ? & ?); [set_solver|lia].
  - rewrite (app_assoc pre [(p, t)] post : pre ++ _ :: _ = _) in Hsp.
    by apply spaced_app in Hsp as [? _].
Qed.

(** The chunk extends its predecessor, and perhaps reaches its successor. *)
Lemma free_join_ok :
  p + t = a → ∃ σ', free_between a p (head_addr post) σ = Some (tt, σ') ∧ freed σ'.
Proof using All.
  intros Hadj. destruct hi_limit as [Hbase Hhi].
  destruct between_facts as (Hp8 & Ht8 & Ht & Hp0 & Hpt & Hmp & Hpz & Hpn & Hls & Hq & Hpr & Hpo & Hpre & Hsp).
  unfold free_between. rewrite (bind_eq _ _ _ _ _ (get_size_eq _ _ _ Hpz ltac:(lia))).
  rewrite (proj2 (Z.eqb_eq _ _) Hadj).
  rewrite (bind_eq _ _ _ _ _ (get_size_eq _ _ _ Hsz ltac:(lia))).
  destruct (set_size_eq σ p (t + n)) as (m1 & Hm1 & Hp1 & E1);
    [done|eapply mapped_sub; [exact Hmp|lia..]|lia|].
  rewrite (bind_eq _ _ _ _ _ E1).
  rewrite (bind_eq _ _ _ _ _ (get_size_eq (set_mem m1 σ) _ _ Hp1 ltac:(lia))).
  assert (release a n l = pre ++ release p (t + n) post) as Hrel.
  { rewrite Hl, release_after by (intros c u Hc; specialize (Hpr c u Hc); lia). simpl.
    rewrite (proj2 (Z.ltb_ge _ _)) by lia. by rewrite (proj2 (Z.eqb_eq _ _) Hadj). }
  assert ((p, t) ∈ l) as Hin by (rewrite Hl; set_solver).
  assert (lseg m1 (free_list σ) pre p) as Hpre1.
  { eapply lseg_stored; [exact Hm1|exact Hpre|]. intros c u Hc. specialize (Hpr c u Hc). lia. }
  unfold freed. rewrite Hrel. clear Hrel.
  destruct post as [|[q u] post'] eqn:Hpost'; cbn [head_addr] in *.
  - rewrite (proj2 (Z.eqb_neq _ _)) by lia. eexists. split; [reflexivity|]. simpl.
    split_and!; try done.
    + apply lseg_app. exists p. split; [done|]. simpl. split_and!; [done..|]. exists 0.
      split; [by word|done].
    + eapply touched_free; [exact Hm1|exact Hin|lia..].
  - assert (a + n ≤ q) as Haq by (apply (Hpo q u); by left). simpl release.
    rewrite (proj2 (Z.ltb_lt _ _)) by lia.
    destruct Hls as (_ & Hqz & next & Hqn & Hls).
    assert (∀ c v, (c, v) ∈ post' → q + u < c) as Hpo'.
    { pose proof Hok as (_ & Hspl & _). rewrite Hl in Hspl. intros c v Hc.
      rewrite (app_assoc pre [(p, t)] ((q, u) :: post') : pre ++ _ :: _ = _) in Hspl.
      by eapply spaced_post. }
    assert (16 ≤ u ∧ q + u ≤ hi) as [Hu Hqhi].
    { pose proof Hok as (_ & Hspl & _).
      destruct (spaced_elem _ _ _ q u Hspl) as (? & ? & ? & ? & ?); [rewrite Hl; set_solver|done]. }
    replace (p + (t + n)) with (a + n) by lia.
    destruct (Z.eqb_spec (a + n) q) as [He|Hne].
    + assert (load64 m1 q = Some u) as Hqz1 by (by word).
      rewrite (bind_eq _ _ _ _ _ (get_size_eq (set_mem m1 σ) _ _ Hqz1 ltac:(lia))).
      destruct (set_size_eq (set_mem m1 σ) p (t + n + u)) as (m2 & Hm2 & Hp2 & E2);
        [done|eapply stored_mapped; [exact Hm1|]; eapply mapped_sub; [exact Hmp|lia..]|lia|].
      rewrite (bind_eq _ _ _ _ _ E2). simpl in Hm2.
      assert (load64 m2 (q + 8) = Some next) as Hqn2 by (by word).
      rewrite (bind_eq _ _ _ _ _ (get_next_eq (set_mem m2 σ) _ _ Hqn2)).
      assert (0 ≤ next < 2 ^ 62) as Hnx.
      { destruct post' as [|[c v] post'']; simpl in Hls; [lia|]. destruct Hls as [-> _].
        pose proof Hok as (_ & Hspl & _).
        destruct (spaced_elem _ _ _ c v Hspl) as (? & ? & ? & ? & ?); [rewrite Hl; set_solver|lia]. }
      destruct (set_next_eq (set_mem m2 σ) p next) as (m3 & Hm3 & Hp3 & ->);
        [done|do 2 (eapply stored_mapped; [eassumption|]); eapply mapped_sub; [exact Hmp|lia..]|lia|].
      eexists. split; [reflexivity|]. simpl in *. split_and!; try done.
      * apply lseg_app. exists p. split.
        { do 2 (eapply lseg_stored; [eassumption| |intros c v Hc; specialize (Hpr c v Hc); lia]).
          done. }
        simpl. split_and!; [done|by word|]. exists next. split; [done|].
        do 3 (eapply lseg_stored; [eassumption| |intros c v Hc; specialize (Hpo' c v Hc); lia]).
        done.
      * apply (touched_trans _ _ m1); [|apply (touched_trans _ _ m2)];
          (eapply touched_free; [eassumption|exact Hin|lia..]).
    + eexists. split; [reflexivity|]. simpl. split_and!; try done.
      * apply lseg_app. exists p. split; [done|]. simpl. split_and!; [done..|]. exists q.
        split; [by word|]. split_and!; [done|by word|]. exists next. split; [by word|].
        eapply lseg_stored; [eassumption| |intros c v Hc; specialize (Hpo' c v Hc); lia]. done.
      * eapply touched_free; [exact Hm1|exact Hin|lia..].
Qed.

(** The chunk stays apart from its predecessor. *)
Lemma free_insert_ok :
  p + t ≠ a → ∃ σ', free_between a p (head_addr post) σ = Some (tt, σ') ∧ freed σ'.
Proof using All.
  intros Hadj. destruct hi_limit as [Hbase Hhi].
  destruct between_facts as (Hp8 & Ht8 & Ht & Hp0 & Hpt & Hmp & Hpz & Hpn & Hls & Hq & Hpr & Hpo & Hpre & Hsp).
  unfold free_between. rewrite (bind_eq _ _ _ _ _ (get_size_eq _ _ _ Hpz ltac:(lia))).
  rewrite (proj2 (Z.eqb_neq _ _) Hadj), (proj2 (Z.ltb_ge _ _)) by lia.
  rewrite (bind_eq _ _ _ _ _ (get_size_eq _ _ _ Hsz ltac:(lia))).
  assert (mapped (st_mem σ) a 8) as Hma1 by (eapply mapped_sub; [exact Hma|lia..]).
  assert (mapped (st_mem σ) (a + 8) 8) as Hma2 by (eapply mapped_sub; [exact Hma|lia..]).
  assert (mapped (st_mem σ) (p + 8) 8) as Hmp1 by (eapply mapped_sub; [exact Hmp|lia..]).
  assert (release a n l = pre ++ (p, t) :: release a n post) as Hrel.
  { rewrite Hl, release_after by (intros c u Hc; specialize (Hpr c u Hc); lia). simpl.
    rewrite (proj2 (Z.ltb_ge _ _)) by lia. by rewrite (proj2 (Z.eqb_neq _ _) Hadj). }
  assert ((p, t) ∈ l) as Hin by (rewrite Hl; set_solver).
  assert (∀ m', lseg m' (free_list σ) pre p → load64 m' p = Some t → load64 m' (p + 8) = Some a →
    lseg m' a (release a n post) 0 → lseg m' (free_list σ) (release a n l) 0) as Hlseg.
  { intros m' H1 H2 H3 H4. rewrite Hrel. apply lseg_app. exists p. split; [done|]. simpl.
    split_and!; [done..|]. by exists a. }
  clear Hrel. destruct (Z.eqb_spec (a + n) (head_addr post)) as [He|Hne].
  - destruct post as [|[q u] post'] eqn:Hpost'; cbn [head_addr] in *; [lia|].
    destruct Hls as (_ & Hqz & next & Hqn & Hls). pose proof Hok as (_ & Hspl & _).
    destruct (spaced_elem _ _ _ q u Hspl) as (? & ? & ? & ? & ?); [rewrite Hl; set_solver|].
    assert (∀ c v, (c, v) ∈ post' → q + u < c) as Hpo'.
    { rewrite Hl, (app_assoc pre [(p, t)] ((q, u) :: post') : pre ++ _ :: _ = _) in Hspl.
      intros c v Hc. by eapply spaced_post. }
    assert (0 ≤ next < 2 ^ 62) as Hnx.
    { destruct post' as [|[c v] post'']; simpl in Hls; [lia|]. destruct Hls as [-> _].
      destruct (spaced_elem _ _ _ c v Hspl) as (? & ? & ? & ? & ?); [rewrite Hl; set_solver|lia]. }
    rewrite (bind_eq _ _ _ _ _ (get_size_eq _ _ _ Hqz ltac:(lia))).
    destruct (set_size_eq σ a (n + u)) as (m1 & Hm1 & Ha1 & E1); [done..|lia|].
    rewrite (bind_eq _ _ _ _ _ E1).
    assert (load64 m1 (q + 8) = Some next) as Hqn1 by (by word).
    rewrite (bind_eq _ _ _ _ _ (get_next_eq (set_mem m1 σ) _ _ Hqn1)).
    destruct (set_next_eq (set_mem m1 σ) a next) as (m2 & Hm2 & Ha2 & E2);
      [done|by eapply stored_mapped|lia|].
    rewrite (bind_eq _ _ _ _ _ E2).
    destruct (set_next_eq (set_mem m2 σ) p a) as (m3 & Hm3 & Hp3 & E3);
      [done|by do 2 (eapply stored_mapped; [eassumption|])|lia|].
    eexists. split; [exact E3|]. unfold freed. simpl in *. split_and!; try done.
    + apply Hlseg; [|by word|done|].
      * do 3 (eapply lseg_stored; [eassumption| |intros c v Hc; specialize (Hpr c v Hc); lia]).
        done.
      * rewrite (proj2 (Z.ltb_lt _ _)), (proj2 (Z.eqb_eq _ _) He) by lia. simpl.
        split_and!; [done|by word|]. exists next. split; [by word|].
        do 3 (eapply lseg_stored; [eassumption| |intros c v Hc; specialize (Hpo' c v Hc); lia]).
        done.
    + apply (touched_trans _ _ m1); [|apply (touched_trans _ _ m2)];
        [eapply touched_self; [eassumption|lia..]..|].
      eapply touched_free; [eassumption|exact Hin|lia..].
  - destruct (set_next_eq σ a (head_addr post)) as (m1 & Hm1 & Ha1 & E1); [done..|lia|].
    rewrite (bind_eq _ _ _ _ _ E1).
    destruct (set_next_eq (set_mem m1 σ) p a) as (m2 & Hm2 & Hp2 & E2);
      [done|by eapply stored_mapped|lia|].
    eexists. split; [exact E2|]. unfold freed. simpl in *. split_and!; try done.
    + apply Hlseg; [|by word|done|].
      * do 2 (eapply lseg_stored; [eassumption| |intros c v Hc; specialize (Hpr c v Hc); lia]).
        done.
      * assert (release a n post = (a, n) :: post) as ->.
        { destruct post as [|[q u] post']; simpl in *; [done|].
          rewrite (proj2 (Z.ltb_lt _ _)) by (apply (Hpost q u); by left).
          by rewrite (proj2 (Z.eqb_neq _ _) Hne). }
        simpl. split_and!; [done|by word|]. exists (head_addr post). split; [by word|].
        do 2 (eapply lseg_stored; [eassumption| |intros c v Hc; specialize (Hpo c v Hc); lia]).
        done.
    + apply (touched_trans _ _ m1); [eapply touched_self; [eassumption|lia..]|].
      eapply touched_free; [eassumption|exact Hin|lia..].
Qed.
End between.

(** The list after [nano_free] is the abstract one. *)
Lemma nano_free_list p :
  p ≠ 0 → get_chunk_from_ptr p σ = Some (a, σ) →
  ∃ σ', nano_free p σ = Some (tt, σ') ∧ freed σ'.
Proof using All.
  intros Hp Hc. unfold nano_free. rewrite (proj2 (Z.eqb_neq _ _) Hp).
  rewrite (bind_eq _ _ _ _ _ Hc), get_bind. pose proof Hok as (Hfl & Hsp & _).
  destruct hi_limit as [Hbase Hhi]. destruct (list_case l) as [Hl|(b & t & l' & Hl)].
  - rewrite Hl in Hfl. simpl in Hfl. rewrite (proj2 (Z.eqb_eq _ _) Hfl). by apply free_first_ok.
  - rewrite Hl in Hfl, Hsp. destruct Hfl as [-> _]. destruct Hsp as (Hb & _).
    rewrite (proj2 (Z.eqb_neq _ _)) by lia. destruct (Z.ltb_spec a b).
    + by eapply free_before_ok.
    + destruct (free_walk_ok b t l' Hl) as (pre & q & u & post & Hl1 & Hqa & Hpost & E); [done|].
      rewrite (bind_eq _ _ _ _ _ E). destruct (decide (q + u = a)).
      * by eapply free_join_ok.
      * by eapply free_insert_ok.
Qed.
End free.

(** ** The operations and the heap *)

Section operations.
Context {S : System} {SL : SystemLaws} {SH : SmallHeap} {RL : Release}.

Lemma get_chunk_ok σ hi p a n :
  block_ok (st_mem σ) hi p a n → hi < 2 ^ 62 → get_chunk_from_ptr p σ = Some (a, σ) ∧ p ≠ 0.
Proof.
  intros (? & ? & ? & ? & ? & ? & Hsz & Hp) Hhi. pose proof heap_range as (? & _).
  unfold get_chunk_from_ptr, CHUNK_OFFSET. cbv zeta. split; [|lia].
  destruct Hp as [->|(-> & _ & Hoff)].
  - replace (a + 8 - 8) with a by lia.
    rewrite (bind_eq _ _ _ _ _ (get_size_eq _ _ _ Hsz ltac:(lia))).
    by rewrite (proj2 (Z.ltb_ge _ _)) by lia.
  - replace (a + 16 - 8) with (a + 8) by lia. unfold get_size.
    unfold ld, mbind, M_bind, mret, M_ret. simpl. rewrite Hoff. simpl.
    change (s64 (u64 (-8))) with (-8). simpl. do 2 f_equal. lia.
Qed.

Lemma usable_size_ok σ hi p a n :
  block_ok (st_mem σ) hi p a n → hi ≤ heap_limit →
  nano_malloc_usable_size p σ = Some (a + n - p, σ) ∧ 0 ≤ a + n - p < 2 ^ 31.
Proof.
  intros (? & ? & ? & ? & ? & ? & Hsz & Hp) Hhi. pose proof heap_range as (? & ?). pose proof small_heap.
  unfold nano_malloc_usable_size, CHUNK_OFFSET. cbv zeta. split; [|lia].
  destruct Hp as [->|(-> & ? & Hoff)].
  - replace (a + 8 - 8) with a by lia.
    rewrite (bind_eq _ _ _ _ _ (get_size_eq _ _ _ Hsz ltac:(lia))).
    rewrite s32_small, (proj2 (Z.ltb_ge _ _)), u64_small by lia.
    unfold mret, M_ret. do 2 f_equal. lia.
  - replace (a + 16 - 8) with (a + 8) by lia.
    rewrite (bind_eq _ _ _ (-8) σ) by (unfold get_size, ld, mbind, M_bind; by rewrite Hoff).
    change (s32 (-8)) with (-8). simpl. replace (a + 8 + -8) with a by lia.
    rewrite (bind_eq _ _ _ _ _ (get_size_eq _ _ _ Hsz ltac:(lia))).
    rewrite u64_small by lia. unfold mret, M_ret. do 2 f_equal. lia.
Qed.

Lemma heap_delete σ l al p : heap σ l al → heap σ l (delete p al).
Proof.
  intros (Hf & Hb & Hd & Hdl). split_and!; [done|..].
  - intros q a n [_ Hq]%lookup_delete_Some. by apply Hb.
  - intros q a n q' b t [_ Hq]%lookup_delete_Some [_ Hq']%lookup_delete_Some. by eapply Hd.
  - intros q a n b t [_ Hq]%lookup_delete_Some. by eapply Hdl.
Qed.

(** Chunks without a common byte are disjoint. *)
Lemma disjoint_points a n b t :
  0 < n → 0 < t → (∀ x, a ≤ x < a + n → b ≤ x < b + t → False) → disjoint a n b t.
Proof.
  intros Hn Ht Hx. unfold disjoint.
  destruct (decide (a + n ≤ b)); [by left|]. destruct (decide (b + t ≤ a)); [by right|].
  destruct (Hx (Z.max a b)); lia.
Qed.

Lemma nano_free_ok σ l al p a n :
  heap σ l al → al !! p = Some (a, n) →
  ∃ σ', nano_free p σ = Some (tt, σ') ∧ heap σ' (release a n l) (delete p al) ∧
    kept (delete p al) (st_mem σ) (st_mem σ') ∧ same_sys σ σ' ∧ errno σ' = errno σ.
Proof.
  intros Hh Hp. pose proof Hh as (Hok & Hb & Hd & Hdl). pose proof Hok as (Hl & Hsp & Hm).
  pose proof (brk_range (st_world σ)) as Hbr. pose proof heap_range as (? & ?).
  destruct (get_chunk_ok _ _ _ _ _ (Hb _ _ _ Hp) ltac:(lia)) as [Hc Hp0].
  destruct (Hb _ _ _ Hp) as (? & ? & ? & ? & ? & Hma & Hsz & _).
  destruct (nano_free_list σ l a n) with (p := p)
    as (σ' & E & (Hsys & Hw) & Herr & Hl' & Ht); try done;
    [intros b t Hbt; by eapply Hdl|].
  exists σ'. split; [done|].
  assert (kept (delete p al) (st_mem σ) (st_mem σ')) as Hk.
  { intros q b t [Hne Hq]%lookup_delete_Some x Hx. apply Ht.
    intros (c & u & [[= -> ->]|Hin]%elem_of_cons & Hcx).
    - destruct (Hd _ _ _ _ _ _ Hp Hq Hne); lia.
    - destruct (Hdl _ _ _ _ _ Hq Hin); lia. }
  assert (spaced heap_base (brk (st_world σ)) (release a n l)) as Hsp'.
  { apply release_spaced; try done. intros b t Hin. by eapply Hdl. }
  assert (∀ b t, (b, t) ∈ release a n l → ∀ x, b ≤ x < b + t → in_chunks ((a, n) :: l) x) as Hin.
  { intros b t Hin x Hx. apply release_in_chunks. by exists b, t. }
  split_and!; try done. eapply heap_step; [by apply heap_delete|done|rewrite Hw; lia| |].
  - rewrite Hw. split_and!; [done..|]. intros b t Hbt x Hx.
    destruct (Hin b t Hbt x Hx) as (c & u & [[= -> ->]|Hc']%elem_of_cons & Hcx);
      eapply touched_mapped; [exact Ht|exact Hma|lia|exact Ht|by apply Hm|lia].
  - intros q b t c u [Hne Hq]%lookup_delete_Some Hcu.
    destruct (Hb _ _ _ Hq) as (? & ? & ? & ? & _).
    pose proof (spaced_elem _ _ _ _ _ Hsp' Hcu) as (? & ? & ? & ? & ?).
    apply disjoint_points; [lia..|]. intros x Hx1 Hx2.
    destruct (Hin c u Hcu x Hx2) as (d & v & [[= -> ->]|Hdv]%elem_of_cons & Hdx).
    + destruct (Hd _ _ _ _ _ _ Hp Hq Hne); lia.
    + destruct (Hdl _ _ _ _ _ Hq Hdv); lia.
Qed.

(** A caller may write the payload of its block. *)
Lemma heap_write σ l al p a n x bs :
  heap σ l al → al !! p = Some (a, n) → p ≤ x → x + Z.of_nat (length bs) ≤ a + n →
  heap (set_mem (write_bytes (st_mem σ) x bs) σ) l al ∧
  kept (delete p al) (st_mem σ) (write_bytes (st_mem σ) x bs).
Proof.
  intros Hh Hp Hx1 Hx2. pose proof Hh as ((Hl & Hsp & Hm) & Hb & Hd & Hdl).
  pose proof (Hb _ _ _ Hp) as Hbp. pose proof (block_range _ _ _ _ _ Hbp) as Hpr.
  set (m' := write_bytes (st_mem σ) x bs).
  assert (∀ y, ¬ (p ≤ y < a + n) → m' !! y = st_mem σ !! y) as Hout.
  { intros y Hy. unfold m'. rewrite lookup_write_bytes, decide_False; [done|]. lia. }
  assert (∀ y, is_Some (st_mem σ !! y) → is_Some (m' !! y)) as Hdom.
  { intros y Hy. apply is_Some_write_bytes; [|done].
    destruct Hbp as (_ & _ & _ & _ & _ & Hma & _). eapply mapped_sub; [exact Hma|lia..]. }
  assert (kept (delete p al) (st_mem σ) m') as Hk.
  { intros q b t [Hne Hq]%lookup_delete_Some y Hy. apply Hout.
    destruct (Hd _ _ _ _ _ _ Hp Hq Hne); lia. }
  split; [|done]. split_and!; [split_and!| | |].
  - eapply lseg_ext; [exact Hl|]. intros b t Hbt.
    pose proof (spaced_elem _ _ _ _ _ Hsp Hbt) as (? & ? & ? & ? & ?).
    pose proof (Hdl _ _ _ _ _ Hp Hbt) as Hdis.
    split; apply load64_agree; intros y Hy; apply Hout; destruct Hdis; lia.
  - done.
  - intros b t Hbt y Hy. by apply Hdom, (Hm b t).
  - intros q b t Hq. destruct (decide (q = p)) as [->|Hne].
    + simplify_eq. destruct Hbp as (? & ? & ? & ? & ? & Hma & Hsz & Hpp).
      split_and!; try done.
      * intros y Hy. by apply Hdom, Hma.
      * rewrite <- Hsz. apply load64_agree. intros y Hy. apply Hout. lia.
      * destruct Hpp as [->|(-> & ? & Hoff)]; [by left|right]. split_and!; [done..|].
        rewrite <- Hoff. apply load64_agree. intros y Hy. apply Hout. lia.
    + eapply block_kept; [by apply Hb| |done]. apply (Hk q). by apply lookup_delete_Some.
  - done.
  - done.
Qed.

Lemma on_mem_eq {A} (f : mem → option (mem * A)) m' x σ :
  f (st_mem σ) = Some (m', x) → on_mem f σ = Some (x, set_mem m' σ).
Proof. intros E. unfold on_mem. by rewrite E. Qed.

Lemma nano_calloc_ok n elem σ l al :
  heap σ l al → 0 ≤ n < 2 ^ 64 → 0 ≤ elem < 2 ^ 64 →
  ∃ r σ', nano_calloc n elem σ = Some (r, σ') ∧ kept al (st_mem σ) (st_mem σ') ∧
    (r = 0 ∧ errno σ' = ENOMEM ∧ heap σ' l al ∨
     ∃ a k l', r = a + 8 ∧ al !! r = None ∧ heap σ' l' (<[r := (a, k)]> al) ∧
       n * elem + 8 ≤ k ∧ bytes_at (st_mem σ') r (replicate (Z.to_nat (n * elem)) 0)).
Proof.
  intros Hh Hn He. unfold nano_calloc. destruct (Z.leb_spec (2 ^ 64) (n * elem)).
  { eexists 0, _. split; [reflexivity|]. split; [by intros ?|]. by left. }
  destruct (nano_malloc_ok (n * elem) σ l al Hh) as (r & σ1 & E1 & Hk1 & Hcase); [nia|].
  cbv zeta. rewrite (bind_eq _ _ _ _ _ E1).
  destruct Hcase as [(-> & Herr & Hh1)|(a & k & l' & Hr & Hnone & Hh1 & _ & Hk)].
  { rewrite Z.eqb_refl. cbn [negb]. rewrite ret_bind. exists 0, σ1. split; [done|].
    split; [done|]. by left. }
  pose proof Hh1 as (_ & Hb1 & _). pose proof (Hb1 r a k (lookup_insert_eq _ _ _)) as Hbl.
  pose proof (block_range _ _ _ _ _ Hbl) as Hrange. pose proof heap_range as (? & _).
  pose proof Hbl as (? & _ & _ & _ & _ & Hma & _).
  rewrite (proj2 (Z.eqb_neq _ _)) by lia. cbn [negb].
  set (len := Z.to_nat (n * elem)). replace (n * elem) with (Z.of_nat len) by lia.
  assert (mapped (st_mem σ1) r (Z.of_nat len)) as Hmr by (eapply mapped_sub; [exact Hma|lia..]).
  pose proof (memset_eq (st_mem σ1) r 0 len Hmr) as Hset.
  rewrite (bind_eq _ _ _ tt (set_mem (filled (st_mem σ1) r 0 len) σ1)).
  2: { by rewrite (bind_eq _ _ _ _ _ (on_mem_eq _ _ _ _ Hset)). }
  destruct (heap_write σ1 l' _ r a k r (replicate len (u8 0)) Hh1 (lookup_insert_eq _ _ _))
    as [Hh2 Hk2]; [lia|rewrite length_replicate; lia|].
  rewrite delete_insert_id in Hk2 by done.
  eexists r, _. split; [reflexivity|]. split; [by eapply kept_trans|]. right.
  exists a, k, l'. split_and!; try (done || lia).
  apply bytes_at_write_bytes_eq. by apply Forall_replicate.
Qed.

(** What [nano_realloc] does to a block of the heap. *)
Definition realloc_post (ptr a n size : Z) (σ : state) (l : list (Z * Z)) (al : gmap Z (Z * Z))
    (r : Z) (σ' : state) : Prop :=
  kept (delete ptr al) (st_mem σ) (st_mem σ') ∧
  (size = 0 ∧ r = 0 ∧ heap σ' (release a n l) (delete ptr al) ∨
   size ≠ 0 ∧ r = ptr ∧ size ≤ a + n - ptr ∧ σ' = σ ∨
   size ≠ 0 ∧ r = 0 ∧ errno σ' = ENOMEM ∧ heap σ' l al ∧ kept al (st_mem σ) (st_mem σ') ∨
   size ≠ 0 ∧ ∃ b k l', r = b + 8 ∧ al !! r = None ∧ size + 8 ≤ k ∧
     heap σ' (release a n l') (<[r := (b, k)]> (delete ptr al)) ∧
     ∀ i, 0 ≤ i < Z.min size (a + n - ptr) → load8 (st_mem σ') (r + i) = load8 (st_mem σ) (ptr + i)).

Lemma nano_realloc_ok ptr a n size σ l al :
  heap σ l al → al !! ptr = Some (a, n) → 0 ≤ size < 2 ^ 64 →
  ∃ r σ', nano_realloc ptr size σ = Some (r, σ') ∧ realloc_post ptr a n size σ l al r σ'.
Proof.
  intros Hh Hp Hs. pose proof Hh as (_ & Hb & Hd & _). pose proof (Hb _ _ _ Hp) as Hbp.
  pose proof (brk_range (st_world σ)) as Hbr. pose proof heap_range as (? & ?).
  destruct (get_chunk_ok _ _ _ _ _ Hbp ltac:(lia)) as [_ Hp0].
  unfold nano_realloc, realloc_post. rewrite (proj2 (Z.eqb_neq _ _) Hp0).
  destruct (Z.eqb_spec size 0) as [->|Hs0].
  { destruct (nano_free_ok σ l al ptr a n Hh Hp) as (σ' & E & Hh' & Hk & _).
    rewrite (bind_eq _ _ _ _ _ E). exists 0, σ'. split; [done|]. split; [done|]. by left. }
  destruct (usable_size_ok _ _ _ _ _ Hbp ltac:(lia)) as [E1 Hu].
  rewrite (bind_eq _ _ _ _ _ E1). set (old := a + n - ptr) in *.
  destruct ((size <=? old) && (Z.shiftr old 1 <? size)) eqn:Hfit.
  { apply andb_true_iff in Hfit as [?%Z.leb_le _]. exists ptr, σ. split; [done|].
    split; [by intros ?|]. right; left. done. }
  destruct (nano_malloc_ok size σ l al Hh Hs) as (r & σ1 & E2 & Hk1 & Hcase).
  rewrite (bind_eq _ _ _ _ _ E2).
  assert (kept (delete ptr al) (st_mem σ) (st_mem σ1)) as Hk1'
    by (eapply kept_mono; [exact Hk1|apply delete_subseteq]).
  destruct Hcase as [(-> & Herr & Hh1)|(b & k & l' & Hr & Hnone & Hh1 & _ & Hk)].
  { rewrite Z.eqb_refl. cbn [negb]. rewrite ret_bind. exists 0, σ1. split; [done|].
    split; [done|]. right; right; left. done. }
  assert (r ≠ ptr) as Hrp by congruence.
  pose proof Hh1 as (_ & Hb1 & Hd1 & _). pose proof (Hb1 r b k (lookup_insert_eq _ _ _)) as Hbl.
  assert (<[r := (b, k)]> al !! ptr = Some (a, n)) as Hp1 by (by rewrite lookup_insert_ne).
  pose proof (block_range _ _ _ _ _ Hbl) as Hrange. pose proof (block_range _ _ _ _ _ Hbp) as Hprange.
  pose proof Hbl as (? & _ & _ & _ & _ & Hmb & _).
  pose proof (Hb1 _ _ _ Hp1) as (_ & _ & _ & _ & _ & Hma1 & _).
  pose proof (Hd1 _ _ _ _ _ _ Hp1 (lookup_insert_eq _ _ _) (not_eq_sym Hrp)) as Hdis.
  rewrite (proj2 (Z.eqb_neq _ _)) by lia. cbn [negb]. cbv zeta.
  set (len := Z.min size old).
  assert ((if size <? old then size else old) = len) as -> by (destruct (Z.ltb_spec size old); lia).
  destruct (mapped_bytes_at (st_mem σ1) ptr (Z.to_nat len)) as (data & Hdl & Hdat).
  { eapply mapped_sub; [exact Hma1|lia..]. }
  assert (memcpy (st_mem σ1) r ptr len = Some (write_bytes (st_mem σ1) r data, r)) as Hcpy.
  { unfold memcpy. replace len with (Z.of_nat (length data)) by lia.
    rewrite (copy_forward_eq _ _ _ data Hdat); [done|eapply mapped_sub; [exact Hmb|lia..]|].
    destruct Hdis; lia. }
  destruct (heap_write σ1 l' _ r b k r data Hh1 (lookup_insert_eq _ _ _)) as [Hh2 Hk2]; [lia..|].
  rewrite delete_insert_id in Hk2 by done.
  set (σ2 := set_mem (write_bytes (st_mem σ1) r data) σ1) in *.
  destruct (nano_free_ok σ2 l' _ ptr a n Hh2 Hp1) as (σ3 & E3 & Hh3 & Hk3 & _).
  rewrite delete_insert_ne in Hh3, Hk3 by done.
  rewrite (bind_eq _ _ _ tt σ3) by (by rewrite (bind_eq _ _ _ _ _ (on_mem_eq _ _ _ _ Hcpy))).
  eexists r, σ3. split; [reflexivity|].
  assert (kept (delete ptr al) (st_mem σ2) (st_mem σ3)) as Hk3'.
  { eapply kept_mono; [exact Hk3|]. apply insert_subseteq. rewrite lookup_delete_ne; done. }
  split.
  { eapply kept_trans; [exact Hk1'|]. eapply kept_trans; [|exact Hk3'].
    eapply kept_mono; [exact Hk2|apply delete_subseteq]. }
  right; right; right. split; [done|]. exists b, k, l'. split_and!; try (done || lia).
  intros i Hi. unfold load8. rewrite (Hk3 r b k (lookup_insert_eq _ _ _)) by lia.
  destruct (lookup_lt_is_Some_2 data (Z.to_nat i)) as [v Hv]; [lia|].
  pose proof (bytes_at_lookup _ _ _ _ _ Hdat Hv) as Hld. rewrite Z2Nat.id in Hld by lia.
  pose proof (load8_byte _ _ _ Hld) as Hvb. unfold load8 in Hld.
  rewrite (Hk1 ptr a n Hp) in Hld by lia. rewrite Hld.
  simpl. rewrite lookup_write_bytes, decide_True by lia.
  replace (r + i - r) with i by lia. rewrite Hv. simpl. unfold is_byte in Hvb.
  by rewrite !(u8_small v) by lia.
Qed.

(** ** memalign *)

(** Writing anywhere in a block leaves a heap without that block. *)
Lemma heap_scratch σ l al q c k m' :
  heap σ l al → al !! q = Some (c, k) →
  (∀ x, ¬ (c ≤ x < c + k) → m' !! x = st_mem σ !! x) →
  (∀ x, is_Some (st_mem σ !! x) → is_Some (m' !! x)) →
  heap (set_mem m' σ) l (delete q al) ∧ kept (delete q al) (st_mem σ) m'.
Proof.
  intros Hh Hq Hout Hdom. pose proof Hh as ((Hl & Hsp & Hm) & Hb & Hd & Hdl).
  assert (kept (delete q al) (st_mem σ) m') as Hk.
  { intros p b t [Hne Hp]%lookup_delete_Some y Hy. apply Hout.
    destruct (Hd _ _ _ _ _ _ Hq Hp Hne); lia. }
  split; [|done]. eapply heap_step; [by eapply heap_delete|done|done|split_and!|].
  - eapply lseg_ext; [exact Hl|]. intros b t Hbt.
    pose proof (spaced_elem _ _ _ _ _ Hsp Hbt) as (? & ? & ? & ? & ?).
    pose proof (Hdl _ _ _ _ _ Hq Hbt) as Hdis.
    split; apply load64_agree; intros y Hy; apply Hout; destruct Hdis; lia.
  - done.
  - intros b t Hbt y Hy. by apply Hdom, (Hm b t).
  - intros p b t d u [_ Hp]%lookup_delete_Some. by eapply Hdl.
Qed.

(** A block may be replaced by another inside the same chunk. *)
Lemma heap_subblock σ0 σ l al q c k p b t :
  heap σ0 l al → al !! q = Some (c, k) → heap σ l (delete q al) →
  block_ok (st_mem σ) (brk (st_world σ)) p b t → c ≤ b → b + t ≤ c + k →
  heap σ l (<[p := (b, t)]> (delete q al)) ∧ delete q al !! p = None.
Proof.
  intros (_ & _ & Hd & Hdl) Hq Hh Hbl Hcb Hbt. apply heap_insert; [done..| |].
  - intros p' d u [Hne Hp']%lookup_delete_Some. unfold disjoint.
    destruct (Hd _ _ _ _ _ _ Hq Hp' Hne); lia.
  - intros d u Hdu. unfold disjoint. destruct (Hdl _ _ _ _ _ Hq Hdu); lia.
Qed.

(** Cutting a block in two. *)
Lemma heap_split σ l al q c k off m' :
  heap σ l al → al !! q = Some (c, k) → off mod 8 = 0 → q + 8 ≤ c + off → 16 ≤ k - off →
  load64 m' c = Some off → load64 m' (c + off) = Some (k - off) →
  (∀ b, b ≠ c → b ≠ c + off → load64 m' b = load64 (st_mem σ) b) →
  (∀ x, ¬ (c ≤ x < c + k) → m' !! x = st_mem σ !! x) →
  (∀ x, is_Some (st_mem σ !! x) → is_Some (m' !! x)) →
  heap (set_mem m' σ) l
    (<[c + off + 8 := (c + off, k - off)]> (<[q := (c, off)]> (delete q al))) ∧
  <[q := (c, off)]> (delete q al) !! (c + off + 8) = None ∧
  kept (delete q al) (st_mem σ) m'.
Proof.
  intros Hh Hq Hoff8 Hqoff Hkoff Hc Hco Hne Hout Hdom.
  destruct (heap_scratch _ _ _ _ _ _ _ Hh Hq Hout Hdom) as [Hh1 Hk].
  pose proof Hh as (_ & Hb & Hd & Hdl). pose proof (Hb _ _ _ Hq) as Hbq.
  pose proof (block_range _ _ _ _ _ Hbq) as Hqr.
  destruct Hbq as (? & Hc8 & Hk8 & ? & ? & Hma & Hsz & Hqq).
  assert (mapped m' c k) as Hma' by (intros x Hx; by apply Hdom, Hma).
  assert (block_ok m' (brk (st_world σ)) q c off) as Hbl1.
  { split_and!; try (done || lia); [eapply mapped_sub; [exact Hma'|lia..]|].
    destruct Hqq as [->|(-> & ? & Hoff)]; [by left|right]. split_and!; [done|lia|].
    rewrite Hne by lia. done. }
  destruct (heap_subblock _ (set_mem m' σ) _ _ _ _ _ _ _ _ Hh Hq Hh1 Hbl1) as [Hh2 _]; [lia..|].
  destruct (heap_insert _ _ _ (c + off + 8) (c + off) (k - off) Hh2) as [Hh3 Hnone]; [..|done].
  - simpl. split_and!;
      first [done|lia|eapply mapped_sub; [exact Hma'|lia..]|Z.div_mod_to_equations; lia].
  - intros p d u [[<- [= <- <-]]|[_ [Hnp Hp]%lookup_delete_Some]]%lookup_insert_Some;
      unfold disjoint; [lia|]. destruct (Hd _ _ _ _ _ _ Hq Hp Hnp); lia.
  - intros d u Hdu. unfold disjoint. destruct (Hdl _ _ _ _ _ Hq Hdu); lia.
Qed.

Lemma memalign_front_ok σ l al a n off :
  heap σ l al → al !! (a + 8) = Some (a, n) → off mod 8 = 0 → 0 ≤ off → off + 16 ≤ n →
  ∃ c k l' σ', memalign_front a off σ = Some (c, σ') ∧
    heap σ' l' (<[a + 8 + off := (c, k)]> (delete (a + 8) al)) ∧
    delete (a + 8) al !! (a + 8 + off) = None ∧
    kept (delete (a + 8) al) (st_mem σ) (st_mem σ') ∧ c + k = a + n.
Proof.
  intros Hh Hp Hoff8 Hoff Hn. pose proof Hh as (_ & Hb & _). pose proof (Hb _ _ _ Hp) as Hbp.
  pose proof Hbp as (? & Ha8 & ? & ? & ? & Hma & Hsz & _).
  pose proof (brk_range (st_world σ)) as Hbr. pose proof heap_range as (? & ?).
  unfold memalign_front, truth. destruct (Z.eqb_spec off 0) as [->|Hoff0]; cbn [negb].
  { exists a, n, l, σ. rewrite Z.add_0_r. split; [done|].
    rewrite insert_delete_id by done. split_and!; [done|apply lookup_delete_eq|by intros ?|done]. }
  unfold MALLOC_MINCHUNK, CHUNK_OFFSET. change (8 + MALLOC_PADDING + MALLOC_MINSIZE) with 16.
  assert ((a + off) mod 8 = 0) as Hao8 by (Z.div_mod_to_equations; lia).
  assert (mapped (st_mem σ) (a + off) 8) as Hmo by (eapply mapped_sub; [exact Hma|lia..]).
  destruct (Z.leb_spec 16 off) as [Hbig|Hsmall].
  - cbv zeta. rewrite (bind_eq _ _ _ _ _ (get_size_eq _ _ _ Hsz ltac:(lia))).
    destruct (set_size_eq σ (a + off) (n - off)) as (m1 & Hm1 & Hl1 & E1); [done..|lia|].
    rewrite (bind_eq _ _ _ _ _ E1).
    destruct (set_size_eq (set_mem m1 σ) a off) as (m2 & Hm2 & Hl2 & E2);
      [done|eapply stored_mapped; [exact Hm1|]; eapply mapped_sub; [exact Hma|lia..]|lia|].
    rewrite (bind_eq _ _ _ _ _ E2). simpl in Hm2.
    destruct (heap_split σ l al (a + 8) a n off m2) as (Hh2 & Hnone & Hk2); try (done || lia).
    { by word. }
    { intros b ??. by word. }
    { intros x Hx. destruct Hm1 as (_ & Hm1 & _), Hm2 as (_ & Hm2 & _). rewrite Hm2, Hm1 by lia. done. }
    { intros x Hx. by apply Hm2, Hm1. }
    destruct (nano_free_ok _ _ _ (a + 8) a off Hh2) as (σ3 & E3 & Hh3 & Hk3 & _).
    { rewrite lookup_insert_ne by lia. apply lookup_insert_eq. }
    rewrite (bind_eq _ _ _ _ _ E3). rewrite delete_insert_ne in Hh3, Hk3 by lia.
    rewrite delete_insert_id in Hh3, Hk3 by apply lookup_delete_eq.
    rewrite lookup_insert_ne in Hnone by lia.
    eexists (a + off), (n - off), _, σ3. replace (a + 8 + off) with (a + off + 8) by lia.
    split_and!; [done..| |lia]. eapply kept_trans; [exact Hk2|].
    eapply kept_mono; [exact Hk3|]. by apply insert_subseteq.
  - assert (off = 8) as -> by (Z.div_mod_to_equations; lia).
    rewrite (bind_eq _ (assert_that (4 <=? 8)) σ tt σ) by (unfold assert_that; by rewrite andb_false_r).
    destruct (sd_eq σ (a + 8) (u64 (-8))) as (m1 & Hm1 & E1); [done..|].
    rewrite (bind_eq _ _ _ _ _ E1).
    destruct (heap_scratch σ l al (a + 8) a n m1 Hh Hp) as [Hh1 Hk1].
    { intros x Hx. apply Hm1. lia. }
    { intros x Hx. by apply Hm1. }
    destruct (heap_subblock σ (set_mem m1 σ) l al (a + 8) a n (a + 16) a n) as [Hh2 Hnone];
      try (done || lia).
    { simpl. split_and!; try (done || lia); [by eapply stored_mapped|by word|]. right.
      split_and!; [done|lia|]. rewrite (stored_eq _ _ _ _ Hm1). done. }
    exists a, n, l, (set_mem m1 σ). replace (a + 8 + 8) with (a + 16) by lia. done.
Qed.

Lemma memalign_tail_ok σ l al q c k ma :
  heap σ l al → al !! q = Some (c, k) → ma mod 8 = 0 → 8 ≤ ma → q + ma ≤ c + k →
  ∃ k' l' σ', memalign_tail c q ma σ = Some (tt, σ') ∧
    heap σ' l' (<[q := (c, k')]> (delete q al)) ∧
    kept (delete q al) (st_mem σ) (st_mem σ') ∧ q + ma ≤ c + k'.
Proof.
  intros Hh Hq Hma8 Hma0 Hfit. pose proof Hh as (_ & Hb & _). pose proof (Hb _ _ _ Hq) as Hbq.
  pose proof (block_range _ _ _ _ _ Hbq) as Hqr.
  pose proof Hbq as (? & Hc8 & ? & ? & ? & Hma & Hsz & Hqq).
  pose proof (brk_range (st_world σ)) as Hbr. pose proof heap_range as (? & ?).
  unfold memalign_tail, MALLOC_MINCHUNK, CHUNK_OFFSET. change (8 + MALLOC_PADDING + MALLOC_MINSIZE) with 16.
  rewrite (bind_eq _ _ _ _ _ (get_size_eq _ _ _ Hsz ltac:(lia))).
  destruct (Z.ltb_spec (q + ma + 16) (c + k)) as [Htail|Htail].
  2: { exists k, l, σ. split; [done|]. rewrite insert_delete_id by done. by split_and!. }
  cbv zeta. set (off := q + ma - c). assert (q mod 8 = 0) by (Z.div_mod_to_equations; lia).
  assert (off mod 8 = 0) by (unfold off; Z.div_mod_to_equations; lia).
  destruct (set_size_eq σ c off) as (m1 & Hm1 & Hl1 & E1);
    [done|eapply mapped_sub; [exact Hma|lia..]|lia|].
  rewrite (bind_eq _ _ _ _ _ E1).
  rewrite (bind_eq _ _ _ _ _ (get_size_eq (set_mem m1 σ) _ _ Hl1 ltac:(lia))).
  replace (q + ma) with (c + off) by lia.
  destruct (set_size_eq (set_mem m1 σ) (c + off) (k - off)) as (m2 & Hm2 & Hl2 & E2);
    [Z.div_mod_to_equations; lia|eapply stored_mapped; [exact Hm1|]; eapply mapped_sub; [exact Hma|lia..]
    |lia|].
  rewrite (bind_eq _ _ _ _ _ E2). simpl in Hm2.
  destruct (heap_split σ l al q c k off m2) as (Hh2 & Hnone & Hk2); try (done || lia).
  { by word. }
  { intros b ??. by word. }
  { intros x Hx. destruct Hm1 as (_ & Hm1 & _), Hm2 as (_ & Hm2 & _). rewrite Hm2, Hm1 by lia. done. }
  { intros x Hx. by apply Hm2, Hm1. }
  destruct (nano_free_ok _ _ _ (c + off + 8) (c + off) (k - off) Hh2) as (σ3 & E3 & Hh3 & Hk3 & _).
  { apply lookup_insert_eq. }
  rewrite delete_insert_id in Hh3, Hk3 by done.
  eexists off, _, σ3. split_and!; [done..| |lia]. eapply kept_trans; [exact Hk2|].
  eapply kept_mono; [exact Hk3|]. apply insert_subseteq, lookup_delete_eq.
Qed.

Lemma pow2_test x :
  0 < x < 2 ^ 64 → Z.land x (u64 (x - 1)) = 0 → ∃ k, 0 ≤ k < 64 ∧ x = 2 ^ k.
Proof.
  intros Hx. rewrite u64_small by lia. intros Hland. set (k := Z.log2 x). exists k.
  destruct (Z.log2_spec x) as [Hlo Hhi]; [lia|]. fold k in Hlo, Hhi.
  assert (0 ≤ k) by apply Z.log2_nonneg.
  assert (k < 64) by (apply Z.log2_lt_pow2; lia). split; [lia|].
  destruct (decide (x = 2 ^ k)) as [|Hne]; [done|]. exfalso.
  assert (Z.testbit (Z.land x (x - 1)) k = true) as Hbit; [|by rewrite Hland, Z.testbit_0_l in Hbit].
  rewrite Z.land_spec. replace (Z.testbit x k) with true.
  - replace (Z.testbit (x - 1) k) with true; [done|]. symmetry.
    replace k with (Z.log2 (x - 1)) by (apply Z.log2_unique; lia). apply Z.bit_log2. lia.
  - symmetry. apply Z.bit_log2. lia.
Qed.

(** The alignment used is a power of two, at least eight. *)
Lemma align_pow2 align :
  0 ≤ align < 2 ^ 64 → Z.land align (u64 (align - 1)) = 0 →
  ∃ k, 3 ≤ k < 64 ∧ Z.max align MALLOC_ALIGN = 2 ^ k.
Proof.
  intros Ha Hl. unfold MALLOC_ALIGN. destruct (decide (align ≤ 8)).
  - exists 3. split; [lia|]. rewrite Z.max_r by lia. done.
  - destruct (pow2_test align) as (k & Hk & ->); [lia|done|].
    exists k. split; [|rewrite Z.max_l by lia; done].
    split; [|lia]. apply (Z.pow_le_mono_r_iff 2); [lia..|]. change (2 ^ 3) with 8. lia.
Qed.

Lemma align_offset q a z :
  a mod 8 = 0 → q mod 8 = 0 → a + 8 ≤ q < a + 8 + 8 * z → q - (a + 8) ≤ 8 * z - 8.
Proof. intros. Z.div_mod_to_equations. lia. Qed.

Lemma nano_memalign_ok align s σ l al :
  heap σ l al → 0 ≤ align < 2 ^ 64 → 0 ≤ s < 2 ^ 64 →
  ∃ r σ', nano_memalign align s σ = Some (r, σ') ∧ kept al (st_mem σ) (st_mem σ') ∧
    (r = 0 ∧ heap σ' l al ∨
     ∃ c k l', al !! r = None ∧ heap σ' l' (<[r := (c, k)]> al) ∧ r + s ≤ c + k ∧
       r mod Z.max align 8 = 0).
Proof.
  intros Hh Hal Hs. unfold nano_memalign.
  assert (∀ r σ', r = 0 → heap σ' l al → kept al (st_mem σ) (st_mem σ') →
    kept al (st_mem σ) (st_mem σ') ∧ (r = 0 ∧ heap σ' l al ∨ ∃ c k l', al !! r = None ∧
      heap σ' l' (<[r := (c, k)]> al) ∧ r + s ≤ c + k ∧ r mod Z.max align 8 = 0)) as Hfail
    by (intros; split; [done|by left]).
  destruct (Z.eqb_spec (Z.land align (u64 (align - 1))) 0) as [Hpow|]; cbn [negb].
  2: { exists 0, σ. split; [done|]. by apply Hfail. }
  destruct (align_pow2 align Hal Hpow) as (e & He & Hmax). cbv zeta.
  unfold SIZE_MAX, CHUNK_ALIGN, MALLOC_MINSIZE. rewrite Hmax. unfold MALLOC_ALIGN in *.
  rewrite ALIGN_SIZE_PTR.
  destruct (Z.ltb_spec (2 ^ 64 - 1 - 8) s); [eexists 0, _; split; [reflexivity|]; by apply Hfail|].
  destruct (align8_ok (Z.max s 8)) as [Hma Hma8]; [lia..|].
  set (ma := ALIGN_PTR (Z.max s 8) 8) in *.
  destruct (Z.ltb_spec (2 ^ 64 - 1 - (2 ^ e - 8)) ma);
    [eexists 0, _; split; [reflexivity|]; by apply Hfail|].
  destruct (nano_malloc_ok (ma + (2 ^ e - 8)) σ l al Hh) as (p & σ1 & E1 & Hk1 & Hcase); [lia|].
  rewrite (bind_eq _ _ _ _ _ E1).
  destruct Hcase as [(-> & Herr & Hh1)|(a & k & l1 & -> & Hnone & Hh1 & _ & Hk)].
  { rewrite Z.eqb_refl. exists 0, σ1. split; [done|]. by apply Hfail. }
  pose proof Hh1 as (_ & Hb1 & _). pose proof (Hb1 _ _ _ (lookup_insert_eq _ _ _)) as Hbl.
  pose proof Hbl as (? & Ha8 & ? & ? & ? & _). pose proof heap_range as (? & ?).
  pose proof (brk_range (st_world σ1)) as Hbr.
  destruct (get_chunk_ok _ _ _ _ _ Hbl ltac:(lia)) as [E2 Hp0].
  rewrite (proj2 (Z.eqb_neq _ _) Hp0), (bind_eq _ _ _ _ _ E2). unfold CHUNK_OFFSET.
  destruct (ALIGN_PTR_ok (a + 8) e) as [Hq Hqe]; [lia..|].
  set (q := ALIGN_PTR (a + 8) (2 ^ e)) in *.
  assert (2 ^ e = 8 * 2 ^ (e - 3)) as Hpe.
  { change 8 with (2 ^ 3). rewrite <- Z.pow_add_r by lia. f_equal. lia. }
  assert (q mod 8 = 0) as Hq8.
  { apply Z.mod_divide in Hqe as [z Hz]; [|lia]. rewrite Hz, Hpe.
    apply Z.mod_divide; [lia|]. exists (z * 2 ^ (e - 3)). lia. }
  assert (q - (a + 8) ≤ 2 ^ e - 8) as Hoff.
  { rewrite Hpe in Hq |- *. by apply align_offset. }
  assert ((q - (a + 8)) mod 8 = 0) as Hoff8
    by (clear - Hq8 Ha8; clearbody q; Z.div_mod_to_equations; lia).
  destruct (memalign_front_ok σ1 l1 (<[a + 8 := (a, k)]> al) a k (q - (a + 8)))
    as (c & k2 & l2 & σ2 & E3 & Hh2 & Hnone2 & Hk2 & Hend);
    [done|apply lookup_insert_eq|done|lia..|].
  rewrite delete_insert_id in Hh2, Hnone2, Hk2 by done.
  replace (a + 8 + (q - (a + 8))) with q in * by lia. rewrite (bind_eq _ _ _ _ _ E3).
  destruct (memalign_tail_ok σ2 l2 _ q c k2 ma Hh2) as (k3 & l3 & σ3 & E4 & Hh3 & Hk3 & Hfit);
    [apply lookup_insert_eq|done|lia..|].
  rewrite delete_insert_id in Hh3, Hk3 by done. rewrite (bind_eq _ _ _ _ _ E4).
  exists q, σ3. split; [done|]. split; [by do 2 (eapply kept_trans; [eassumption|])|]. right.
  exists c, k3, l3. split_and!; try (done || lia). by rewrite Hmax.
Qed.

(** [nano_mallinfo] reports the sum of the free chunks and the size of the
    heap. *)
Definition total_size (l : list (Z * Z)) : Z := foldr (λ '(_, s) n, s + n) 0 l.

Lemma total_size_app l1 l2 : total_size (l1 ++ l2) = total_size l1 + total_size l2.
Proof. induction l1 as [|[a s] l1 IH]; simpl; [done|]. rewrite IH. lia. Qed.

Lemma total_size_bound lo hi l : spaced lo hi l → 0 ≤ total_size l ∧ (l ≠ [] → lo + total_size l ≤ hi).
Proof.
  revert lo. induction l as [|[a s] l IH]; intros lo; simpl; [by split|].
  intros (? & ? & ? & ? & ? & Hl). destruct (IH _ Hl) as [? Hb]. split; [lia|]. intros _.
  destruct l as [|[b t] l']; [simpl; lia|]. assert ((b, t) :: l' ≠ []) as Hne by done.
  specialize (Hb Hne). lia.
Qed.

Lemma free_total_ok σ l :
  free_ok (st_mem σ) (free_list σ) l (brk (st_world σ)) → free_total σ = Some (total_size l, σ).
Proof.
  intros Hok. pose proof Hok as (Hl & Hsp & _). unfold free_total. rewrite get_bind.
  pose proof (brk_range (st_world σ)) as Hbr. pose proof heap_range as (? & ?).
  edestruct (loopM_inv (λ n '(pf, acc), ∃ pre post, l = pre ++ post ∧ n = length post ∧
      lseg (st_mem σ) pf post 0 ∧ acc = total_size pre)
    (λ r σ', r = total_size l ∧ σ' = σ)) as (r & σ2 & -> & -> & ->);
    [|exists [], l; split_and!; [done|reflexivity|exact Hl|done]
     |pose proof (free_ok_fuel _ _ _ _ Hok); lia|done].
  intros _ [pf acc] (pre & post & -> & -> & Hpf & ->).
  destruct post as [|[a s] post]; simpl in Hpf.
  { subst pf. exists (inr (total_size pre)), σ. by rewrite app_nil_r. }
  destruct Hpf as (-> & _).
  destruct (free_ok_chunk _ _ _ _ _ _ _ Hok ltac:(lia))
    as (? & ? & ? & ? & ? & Ha & ? & Hsz & next & Hnext & ? & Hpost).
  rewrite (proj2 (Z.eqb_neq _ _) Ha).
  rewrite (bind_eq _ _ _ _ _ (get_size_eq _ _ _ Hsz ltac:(lia))).
  rewrite (bind_eq _ _ _ _ _ (get_next_eq _ _ _ Hnext)).
  eexists (inl _), σ. split; [reflexivity|]. split; [done|]. exists (length post).
  split; [simpl; lia|]. exists (pre ++ [(a, s)]), post. rewrite <- app_assoc.
  split_and!; [done..|]. rewrite total_size_app. simpl.
  assert (pre ++ (a, s) :: post = (pre ++ [(a, s)]) ++ post) as Happ by (by rewrite <- app_assoc).
  rewrite Happ in Hsp. apply spaced_app in Hsp as [Hsp _].
  destruct (total_size_bound _ _ _ Hsp) as [? Hb]. rewrite total_size_app in Hb. simpl in Hb.
  destruct (total_size_bound heap_base (brk (st_world σ)) pre) as [? _];
    [by apply spaced_app in Hsp as [? _]|].
  rewrite u64_small; [lia|]. split; [lia|]. specialize (Hb ltac:(by destruct pre)). lia.
Qed.

Lemma nano_mallinfo_ok σ l al :
  heap σ l al → sbrk_start σ = 0 ∨ sbrk_start σ = heap_base →
  let total := if sbrk_start σ =? 0 then 0 else brk (st_world σ) - heap_base in
  ∃ σ', nano_mallinfo σ = Some (Mallinfo total (total_size l) (u64 (total - total_size l)), σ') ∧
    heap σ' l al ∧ st_mem σ' = st_mem σ.
Proof.
  intros Hh Hstart total. unfold nano_mallinfo. rewrite get_bind.
  pose proof (brk_range (st_world σ)) as Hbr. pose proof heap_range as (? & ?).
  assert (∃ σ1, (if sbrk_start σ =? 0 then mret 0
      else sbrk_now ← _sbrk_r 0;
           mret (if sbrk_now =? MINUS_1 then u64 (-1) else u64 (sbrk_now - sbrk_start σ))) σ =
    Some (total, σ1) ∧ free_list σ1 = free_list σ ∧ st_mem σ1 = st_mem σ ∧
    brk (st_world σ1) = brk (st_world σ)) as (σ1 & E1 & Hf1 & Hm1 & Hb1).
  { unfold total. destruct (Z.eqb_spec (sbrk_start σ) 0) as [|Hne]; [by exists σ|].
    destruct (_sbrk_r_0 σ) as (σ1 & E & ? & ? & ? & ?). rewrite (bind_eq _ _ _ _ _ E).
    rewrite (proj2 (Z.eqb_neq _ _)) by apply MINUS_1_ne.
    destruct Hstart as [|Hstart]; [done|]. rewrite Hstart, u64_small by lia.
    eexists. split; [reflexivity|done]. }
  rewrite (bind_eq _ _ _ _ _ E1).
  assert (heap σ1 l al) as Hh1.
  { apply (heap_moved σ l al σ1 Hh). split_and!; [done|lia|]. rewrite Hm1. apply extends_refl. }
  rewrite (bind_eq _ _ _ _ _ (free_total_ok σ1 l (proj1 Hh1))). by exists σ1.
Qed.
End operations.

(** ** Malloc and free undo each other *)

Lemma release_alloc lo hi n l a k l' :
  spaced lo hi l → 16 ≤ n → alloc_from n l = Some (a, k, l') → release a k l' = l.
Proof.
  intros Hsp Hn (pre & s & post & -> & _ & Hs & Hk)%alloc_from_Some.
  assert (∀ b t, (b, t) ∈ pre → b ≤ a ∧ b + t ≠ a) as Hpre.
  { intros b t Hb. pose proof (spaced_pre _ _ _ _ _ _ _ _ Hsp Hb). lia. }
  destruct (Z.leb_spec 16 (s - n)); injection Hk as -> ->; rewrite release_after by done; f_equal.
  - simpl. rewrite (proj2 (Z.ltb_lt _ _)), Z.eqb_refl by lia. do 2 f_equal. lia.
  - destruct post as [|[b t] post]; [done|]. simpl.
    assert (a + s < b) by (eapply spaced_post; [exact Hsp|by left]).
    assert (16 ≤ s) by (eapply (spaced_elem _ _ _ a s Hsp); set_solver).
    by rewrite (proj2 (Z.ltb_lt _ _)), (proj2 (Z.eqb_neq _ _)) by lia.
Qed.

(** ** A heap between two addresses *)

Module Board.
(** [_sbrk] on a board whose heap is the page at [base]: the break moves
    between the bounds and fresh memory is zero. *)
Definition base : Z := 65536.
Definition limit : Z := 65536 + 4096.
Definition brk (w : Z) : Z := Z.max base (Z.min limit w).

Definition _sbrk (w : Z) (m : mem) (incr : Z) : Z * mem * Z * Z :=
  if (base <=? brk w + incr) && (brk w + incr <=? limit) then
    (brk w + incr, write_bytes m (brk w) (replicate (Z.to_nat incr) 0), brk w, 0)
  else (w, m, MINUS_1, ENOMEM).
End Board.

(** The build with or without [DEBUG]; the default is without. *)
Definition board_build (debug : bool) : System := {|
  world := Z;
  _sbrk := Board._sbrk;
  brk := Board.brk;
  heap_base := Board.base;
  heap_limit := Board.limit;
  DEBUG := debug;
|}.

#[export] Instance board : System := board_build false.

#[export] Instance board_laws : SystemLaws.
Proof.
  split; simpl.
  - intros w m incr w' m' r e. unfold Board._sbrk, Board.brk, Board.base, Board.limit.
    destruct (_ && _) eqn:Hg; intros [= <- <- <- <-] Hi; [right|by left].
    apply andb_true_iff in Hg as [?%Z.leb_le ?%Z.leb_le]. split_and!; [done|lia|].
    assert (Z.of_nat (length (replicate (Z.to_nat incr) 0)) = incr) as Hlen
      by (rewrite length_replicate; lia).
    split.
    + intros x Hx. rewrite lookup_write_bytes, decide_False; [done|]. by rewrite Hlen.
    + intros x Hx. rewrite lookup_write_bytes, decide_True by (by rewrite Hlen).
      apply fmap_is_Some, lookup_lt_is_Some_2. lia.
  - intros w m w' m' r e. unfold Board._sbrk, Board.brk, Board.base, Board.limit, MINUS_1.
    destruct (_ && _) eqn:Hg; intros [= <- <- <- <-].
    + change (u64 (-1)) with 18446744073709551615. lia.
    + apply andb_false_iff in Hg as [?%Z.leb_gt|?%Z.leb_gt]; lia.
  - intros w. unfold Board.brk, Board.base, Board.limit. lia.
  - unfold Board.base, Board.limit. lia.
Qed.

#[export] Instance board_small : SmallHeap.
Proof. by compute. Qed.

#[export] Instance board_release : Release.
Proof. done. Qed.

(** The state at program start: nothing mapped, an empty list. *)
Definition start : state := State ∅ 0 0 0 Board.base.

Lemma start_heap : heap start [] ∅.
Proof.
  split_and!; [split_and!; [done..|by intros a s ?%elem_of_nil]|..];
    intros p a n; [rewrite lookup_empty..|]; done.
Qed.

(** A free chunk of 200 bytes at the base of the heap, and a block above it. *)
Definition demo : state :=
  State (write_bytes (write_bytes (mk_mem Board.base (replicate 232 0)) Board.base (le_split 8 200))
           (Board.base + 200) (le_split 8 32))
    Board.base Board.base 0 (Board.base + 232).

Lemma demo_heap :
  heap demo [(Board.base, 200)] {[Board.base + 208 := (Board.base + 200, 32)]}.
Proof.
  assert (∀ x n, Board.base ≤ x → x + n ≤ Board.base + 232 → mapped (st_mem demo) x n) as Hm.
  { intros x n Hx Hn. do 2 apply mapped_write_bytes. by apply mk_mem_mapped. }
  split_and!; [split_and!|..].
  - split_and!; [reflexivity..|]. exists 0. by split; [reflexivity|].
  - simpl. split_and!; (done || reflexivity).
  - intros a s [= -> ->]%list_elem_of_singleton. by apply Hm.
  - intros p a n [<- [= <- <-]]%lookup_singleton_Some.
    split_and!; try (done || reflexivity); [by apply Hm|by left].
  - intros p a n q b t [<- _]%lookup_singleton_Some [<- _]%lookup_singleton_Some. done.
  - intros p a n b t [<- [= <- <-]]%lookup_singleton_Some [= -> ->]%list_elem_of_singleton.
    by right.
Qed.
