(* ===== verification/NanoSpec.v ===== *)
(** * Properties of the nano allocator

    What a program that uses the allocator can rely on: the contract of each
    function, the restoration of the free list by a matching [nano_free], and
    the safety of every run of a client that frees only what it was given
    ([client_step], a step relation over calls and writes). *)
From S2P Require Import Prelude Memory StrScan StrCopy NanoMalloc NanoHeap.

Section client.
Context {Sys : System} {SL : SystemLaws} {SH : SmallHeap} {RL : Release}.

(** ** Clients *)

Inductive client_op :=
  | Malloc (s : Z)
  | Calloc (n elem : Z)
  | Memalign (align s : Z)
  | Realloc (p s : Z)
  | Free (p : Z)
  | Write (p i b : Z).

(** The client's view of the heap: the pointers it holds and the sizes it
    asked for. *)
#[local] Abbreviation live_blocks := (gmap Z Z).

Definition valid (op : client_op) (live : live_blocks) : Prop :=
  match op with
  | Malloc s => 0 ≤ s < 2 ^ 64
  | Calloc n elem => 0 ≤ n < 2 ^ 64 ∧ 0 ≤ elem < 2 ^ 64
  | Memalign align s => 0 ≤ align < 2 ^ 64 ∧ 0 ≤ s < 2 ^ 64
  | Realloc p s => is_Some (live !! p) ∧ 0 ≤ s < 2 ^ 64
  | Free p => is_Some (live !! p)
  | Write p i b => ∃ s, live !! p = Some s ∧ 0 ≤ i < s
  end.

Definition received (r s : Z) (live : live_blocks) : live_blocks :=
  if r =? 0 then live else <[r := s]> live.

Definition run (op : client_op) (live : live_blocks) : M live_blocks :=
  match op with
  | Malloc s => r ← nano_malloc s; mret (received r s live)
  | Calloc n elem => r ← nano_calloc n elem; mret (received r (n * elem) live)
  | Memalign align s => r ← nano_memalign align s; mret (received r s live)
  | Realloc p s =>
      r ← nano_realloc p s;
      mret (if s =? 0 then delete p live
            else if r =? 0 then live else <[r := s]> (delete p live))
  | Free p => _ ← nano_free p; mret (delete p live)
  | Write p i b =>
      _ ← on_mem (λ m, m ← store8 m (p + i) b; Some (m, tt)); mret live
  end.

Variant client_step : state * live_blocks → state * live_blocks → Prop :=
  | do_op op σ live σ' live' :
      valid op live → run op live σ = Some (live', σ') → client_step (σ, live) (σ', live').

(** The block an operation is about. *)
Definition target (op : client_op) : option Z :=
  match op with Realloc p _ | Free p | Write p _ _ => Some p | _ => None end.

(** ** The invariant *)

(** The heap holds every block of the client with room for its size. *)
Definition serves (al : gmap Z (Z * Z)) (live : live_blocks) : Prop :=
  (∀ p, is_Some (al !! p) ↔ is_Some (live !! p)) ∧
  (∀ p s a n, live !! p = Some s → al !! p = Some (a, n) → 0 ≤ s ∧ p + s ≤ a + n).

Definition good (σ : state) (live : live_blocks) : Prop :=
  ∃ l al, heap σ l al ∧ serves al live.

Lemma serves_lookup al live p s :
  serves al live → live !! p = Some s → ∃ a n, al !! p = Some (a, n) ∧ 0 ≤ s ∧ p + s ≤ a + n.
Proof.
  intros [Hd Hs] Hp. destruct (Hd p) as [_ [[a n] Ha]]; [by eexists|]. exists a, n.
  split; [done|]. by eapply Hs.
Qed.

Lemma serves_insert al live p a n s :
  serves al live → 0 ≤ s → p + s ≤ a + n → serves (<[p := (a, n)]> al) (<[p := s]> live).
Proof.
  intros [Hd Hs] H0 Hfit. split.
  - intros q. destruct (decide (p = q)) as [->|].
    + rewrite !lookup_insert_eq. split; by eexists.
    + by rewrite !lookup_insert_ne.
  - intros q t b k [[<- <-]|[Hne Hq]]%lookup_insert_Some
      [[Heq [= <- <-]]|[Hne' Hq']]%lookup_insert_Some; try done. by eapply Hs.
Qed.

Lemma serves_delete al live p : serves al live → serves (delete p al) (delete p live).
Proof.
  intros [Hd Hs]. split.
  - intros q. destruct (decide (p = q)) as [->|].
    + rewrite !lookup_delete_eq. done.
    + by rewrite !lookup_delete_ne.
  - intros q t b k [_ Hq]%lookup_delete_Some [_ Hq']%lookup_delete_Some. by eapply Hs.
Qed.

(** The bytes of a block of the client. *)
Definition unchanged (p s : Z) (m m' : mem) : Prop :=
  ∀ x, p ≤ x < p + s → load8 m' x = load8 m x.

Lemma kept_unchanged σ l al live p s m' :
  heap σ l al → serves al live → kept al (st_mem σ) m' → live !! p = Some s →
  unchanged p s (st_mem σ) m'.
Proof.
  intros (_ & Hb & _) Hsv Hk Hp x Hx.
  destruct (serves_lookup _ _ _ _ Hsv Hp) as (a & n & Ha & _ & Hfit).
  pose proof (block_range _ _ _ _ _ (Hb _ _ _ Ha)). unfold load8. by rewrite (Hk p a n Ha) by lia.
Qed.

Lemma kept_delete_unchanged σ l al live p s q m' :
  heap σ l al → serves al live → kept (delete q al) (st_mem σ) m' → live !! p = Some s → p ≠ q →
  unchanged p s (st_mem σ) m'.
Proof.
  intros Hh Hsv Hk Hp Hne. eapply (kept_unchanged σ l (delete q al) (delete q live)).
  - by apply heap_delete.
  - by apply serves_delete.
  - done.
  - by rewrite lookup_delete_ne.
Qed.

(** What one operation guarantees. *)
Definition step_ok (op : client_op) (σ : state) (live : live_blocks) : Prop :=
  ∃ live' σ', run op live σ = Some (live', σ') ∧ good σ' live' ∧
    ∀ p s, live !! p = Some s → target op ≠ Some p → unchanged p s (st_mem σ) (st_mem σ').

(** An allocation of [s] bytes that returns [r]. *)
Lemma alloc_step op s (f : M Z) σ l al live :
  heap σ l al → serves al live → 0 ≤ s → target op = None →
  run op live = (r ← f; mret (received r s live)) →
  (∃ r σ', f σ = Some (r, σ') ∧ kept al (st_mem σ) (st_mem σ') ∧
    (r = 0 ∧ heap σ' l al ∨
     ∃ a k l', heap σ' l' (<[r := (a, k)]> al) ∧ r + s ≤ a + k ∧ r ≠ 0)) →
  step_ok op σ live.
Proof.
  intros Hh Hsv Hs0 Htgt Hrun (r & σ' & E & Hk & Hcase).
  exists (received r s live), σ'. rewrite Hrun, (bind_eq _ _ _ _ _ E). split; [done|]. split.
  - unfold received. destruct Hcase as [[-> Hh']|(a & k & l' & Hh' & Hfit & Hr)].
    + by exists l, al.
    + rewrite (proj2 (Z.eqb_neq _ _) Hr). exists l', (<[r := (a, k)]> al). split; [done|].
      by apply serves_insert.
  - intros p t Hp _. by eapply kept_unchanged.
Qed.

Lemma heap_nonzero σ l al p a n : heap σ l al → al !! p = Some (a, n) → p ≠ 0.
Proof.
  intros (_ & Hb & _) Hp. pose proof (block_range _ _ _ _ _ (Hb _ _ _ Hp)).
  destruct (Hb _ _ _ Hp) as (? & _). pose proof heap_range. lia.
Qed.

Lemma malloc_step s σ live : good σ live → 0 ≤ s < 2 ^ 64 → step_ok (Malloc s) σ live.
Proof.
  intros (l & al & Hh & Hsv) Hs. eapply (alloc_step _ s (nano_malloc s)); [done|done|lia|done|done|].
  destruct (nano_malloc_ok s σ l al Hh Hs) as (r & σ' & E & Hk & Hcase).
  exists r, σ'. split; [done|]. split; [done|].
  destruct Hcase as [(-> & _ & Hh')|(a & k & l' & -> & _ & Hh' & _ & Hfit)]; [by left|right].
  exists a, k, l'. split_and!; [done|lia|]. eapply heap_nonzero; [exact Hh'|apply lookup_insert_eq].
Qed.

Lemma calloc_step n elem σ live :
  good σ live → 0 ≤ n < 2 ^ 64 → 0 ≤ elem < 2 ^ 64 → step_ok (Calloc n elem) σ live.
Proof.
  intros (l & al & Hh & Hsv) Hn He.
  eapply (alloc_step _ (n * elem) (nano_calloc n elem)); [done|done|nia|done|done|].
  destruct (nano_calloc_ok n elem σ l al Hh Hn He) as (r & σ' & E & Hk & Hcase).
  exists r, σ'. split; [done|]. split; [done|].
  destruct Hcase as [(-> & _ & Hh')|(a & k & l' & -> & _ & Hh' & Hfit & _)]; [by left|right].
  exists a, k, l'. split_and!; [done|lia|]. eapply heap_nonzero; [exact Hh'|apply lookup_insert_eq].
Qed.

Lemma memalign_step align s σ live :
  good σ live → 0 ≤ align < 2 ^ 64 → 0 ≤ s < 2 ^ 64 → step_ok (Memalign align s) σ live.
Proof.
  intros (l & al & Hh & Hsv) Ha Hs.
  eapply (alloc_step _ s (nano_memalign align s)); [done|done|lia|done|done|].
  destruct (nano_memalign_ok align s σ l al Hh Ha Hs) as (r & σ' & E & Hk & Hcase).
  exists r, σ'. split; [done|]. split; [done|].
  destruct Hcase as [[-> Hh']|(c & k & l' & _ & Hh' & Hfit & _)]; [by left|right].
  exists c, k, l'. split_and!; [done|lia|]. eapply heap_nonzero; [exact Hh'|apply lookup_insert_eq].
Qed.

Lemma free_step p σ live : good σ live → is_Some (live !! p) → step_ok (Free p) σ live.
Proof.
  intros (l & al & Hh & Hsv) [s Hp].
  destruct (serves_lookup _ _ _ _ Hsv Hp) as (a & n & Ha & _).
  destruct (nano_free_ok σ l al p a n Hh Ha) as (σ' & E & Hh' & Hk & _).
  eexists _, σ'. simpl. rewrite (bind_eq _ _ _ _ _ E). split; [reflexivity|]. split.
  - eexists _, _. split; [exact Hh'|]. by apply serves_delete.
  - intros q t Hq Hne. eapply kept_delete_unchanged; [done..|]. simpl in Hne. congruence.
Qed.

Lemma realloc_step p s σ live :
  good σ live → is_Some (live !! p) → 0 ≤ s < 2 ^ 64 → step_ok (Realloc p s) σ live.
Proof.
  intros (l & al & Hh & Hsv) [s0 Hp] Hs.
  destruct (serves_lookup _ _ _ _ Hsv Hp) as (a & n & Ha & _).
  destruct (nano_realloc_ok p a n s σ l al Hh Ha Hs) as (r & σ' & E & Hk & Hcase).
  eexists _, σ'. simpl. rewrite (bind_eq _ _ _ _ _ E). split; [reflexivity|]. split.
  - destruct Hcase as [(-> & -> & Hh')|[(Hs0 & -> & Hfit & ->)|
      [(Hs0 & -> & _ & Hh' & _)|(Hs0 & b & k & l' & Hr & Hnone & Hfit & Hh' & _)]]];
      rewrite ?Z.eqb_refl, ?(proj2 (Z.eqb_neq s 0) Hs0).
    + eexists _, _. split; [exact Hh'|]. by apply serves_delete.
    + rewrite (proj2 (Z.eqb_neq _ _)) by (by eapply heap_nonzero).
      exists l, al. split; [done|]. rewrite <- (insert_delete_id al p (a, n)) by done.
      apply serves_insert; [by apply serves_delete|lia..].
    + by exists l, al.
    + rewrite (proj2 (Z.eqb_neq _ _)) by (eapply heap_nonzero; [exact Hh'|apply lookup_insert_eq]).
      eexists _, _. split; [exact Hh'|]. apply serves_insert; [by apply serves_delete|lia..].
  - intros q t Hq Hne. eapply kept_delete_unchanged; [done..|]. simpl in Hne. congruence.
Qed.

Lemma write_step p i b σ live :
  good σ live → (∃ s, live !! p = Some s ∧ 0 ≤ i < s) → step_ok (Write p i b) σ live.
Proof.
  intros (l & al & Hh & Hsv) (s & Hp & Hi).
  destruct (serves_lookup _ _ _ _ Hsv Hp) as (a & n & Ha & _ & Hfit).
  pose proof Hh as (_ & Hb & _). pose proof (block_range _ _ _ _ _ (Hb _ _ _ Ha)) as Hr.
  destruct (Hb _ _ _ Ha) as (_ & _ & _ & _ & _ & Hma & _).
  destruct (heap_write σ l al p a n (p + i) [b] Hh Ha) as [Hh' Hk]; [lia|simpl; lia|].
  assert (store8 (st_mem σ) (p + i) b = Some (write_bytes (st_mem σ) (p + i) [b])) as Est.
  { apply store8_mapped. eapply mapped_sub; [exact Hma|lia..]. }
  exists live, (set_mem (write_bytes (st_mem σ) (p + i) [b]) σ). split_and!.
  - simpl. unfold on_mem, mbind, M_bind. rewrite Est. done.
  - by exists l, al.
  - intros q t Hq Hne. eapply kept_delete_unchanged; [done..|]. simpl in Hne. congruence.
Qed.

Lemma client_step_ok op σ live : good σ live → valid op live → step_ok op σ live.
Proof.
  intros Hg. destruct op; simpl; intros Hv.
  - by apply malloc_step.
  - destruct Hv. by apply calloc_step.
  - destruct Hv. by apply memalign_step.
  - destruct Hv. by apply realloc_step.
  - by apply free_step.
  - by apply write_step.
Qed.

(** Every state a client can reach is good. *)
Lemma client_good σ0 σ live :
  heap σ0 [] ∅ → rtc client_step (σ0, ∅) (σ, live) → good σ live.
Proof.
  intros Hh Hrtc. assert (good σ0 ∅) as Hg.
  { exists [], ∅. split; [done|].
    split; [intros p; rewrite !lookup_empty; by split; intros []|].
    intros p s a n. by rewrite lookup_empty. }
  revert Hg. remember (σ0, ∅) as x eqn:Hx. remember (σ, live) as y eqn:Hy.
  clear Hh. revert σ0 Hx. assert (∀ σ0 live0, x = (σ0, live0) → good σ0 live0 → good σ live) as Hgen.
  { induction Hrtc as [x|x y z Hstep _ IH]; intros σ1 live1 -> Hg1; [by simplify_eq|].
    inversion Hstep as [op ? ? σ2 live2 Hv Hrun]; subst.
    destruct (client_step_ok op σ1 live1 Hg1 Hv) as (live' & σ' & Hrun' & Hg' & _).
    rewrite Hrun in Hrun'. injection Hrun' as -> ->. by eapply IH. }
  intros σ0 -> Hg. by eapply Hgen.
Qed.

End client.

(** ** Correctness *)

Section correctness.
Context {Sys : System} {SL : SystemLaws}.

(** C1. Safety of every run, in a build without [DEBUG] and on a heap of less
    than 2 GiB: from an empty heap, after any sequence of calls and writes of a
    client that frees, resizes and writes only blocks it holds, no further such operation faults or fails to return, every live
    block is 8-byte aligned and mapped, live blocks do not overlap, and an
    operation never changes the contents of a block it is not about. *)
Theorem client_safety σ0 σ live :
  DEBUG = false → heap_limit < heap_base + 2 ^ 31 →
  heap σ0 [] ∅ → rtc client_step (σ0, ∅) (σ, live) →
  (∀ op, valid op live → ∃ live' σ', run op live σ = Some (live', σ') ∧
    ∀ p s, live !! p = Some s → target op ≠ Some p → unchanged p s (st_mem σ) (st_mem σ')) ∧
  (∀ p s, live !! p = Some s → p ≠ 0 ∧ p mod 8 = 0 ∧ mapped (st_mem σ) p s) ∧
  (∀ p s q t, live !! p = Some s → live !! q = Some t → p ≠ q → disjoint p s q t).
Proof.
  intros RL SH Hh Hr. pose proof (client_good (SH := SH) (RL := RL) _ _ _ Hh Hr) as Hg.
  split_and!.
  - intros op Hv. destruct (client_step_ok (SH := SH) (RL := RL) op σ live Hg Hv)
      as (live' & σ' & ? & _ & ?).
    by exists live', σ'.
  - intros p s Hp. destruct Hg as (l & al & Hh' & Hsv).
    destruct (serves_lookup _ _ _ _ Hsv Hp) as (a & n & Ha & ? & ?).
    split; [by eapply heap_nonzero|]. destruct Hh' as (_ & Hb & _).
    pose proof (block_range _ _ _ _ _ (Hb _ _ _ Ha)).
    destruct (Hb _ _ _ Ha) as (? & Ha8 & ? & ? & ? & Hma & _ & Hpp).
    split; [clear - Ha8 Hpp; Z.div_mod_to_equations; lia|]. eapply mapped_sub; [exact Hma|lia..].
  - intros p s q t Hp Hq Hne. destruct Hg as (l & al & (_ & Hb & Hd & _) & Hsv).
    destruct (serves_lookup _ _ _ _ Hsv Hp) as (a & n & Ha & ? & ?).
    destruct (serves_lookup _ _ _ _ Hsv Hq) as (b & k & Hb' & ? & ?).
    pose proof (block_range _ _ _ _ _ (Hb _ _ _ Ha)). pose proof (block_range _ _ _ _ _ (Hb _ _ _ Hb')).
    unfold disjoint. destruct (Hd _ _ _ _ _ _ Ha Hb' Hne); lia.
Qed.

(** C16. In a build without [DEBUG] and on a heap of less than 2 GiB,
    [nano_malloc] either returns NULL with [ENOMEM] and an unchanged heap,
    or a chunk taken by first fit from the free list, from the break, or from
    the last free chunk grown to the request: the heap invariant holds with
    the new block added, which is disjoint from every other block and large
    enough, and no block changes. *)
Theorem nano_malloc_correct s σ l al :
  DEBUG = false → heap_limit < heap_base + 2 ^ 31 →
  heap σ l al → 0 ≤ s < 2 ^ 64 →
  ∃ r σ', nano_malloc s σ = Some (r, σ') ∧ kept al (st_mem σ) (st_mem σ') ∧
    (r = 0 ∧ errno σ' = ENOMEM ∧ heap σ' l al ∨
     ∃ a k l', r = a + 8 ∧ al !! r = None ∧ heap σ' l' (<[r := (a, k)]> al) ∧
       malloc_from (chunk_size s) l (brk (st_world σ)) a k l' (brk (st_world σ')) ∧
       s + 8 ≤ k).
Proof.
  intros RL SH Hh Hs.
  destruct (nano_malloc_ok (SH := SH) (RL := RL) s σ l al Hh Hs) as (r & σ' & E & Hk & Hcase).
  exists r, σ'. split; [done|]. split; [done|].
  destruct Hcase as [?|(a & k & l' & ? & ? & ? & ? & ? & ?)]; [by left|right].
  by exists a, k, l'.
Qed.

(** C17. [nano_free] of a live block puts its chunk into the sorted free list
    and coalesces it with both neighbours, exactly as [release] does; the
    heap invariant holds without the block and no other block changes. *)
Theorem nano_free_correct σ l al p a n :
  heap σ l al → al !! p = Some (a, n) →
  ∃ σ', nano_free p σ = Some (tt, σ') ∧ heap σ' (release a n l) (delete p al) ∧
    kept (delete p al) (st_mem σ) (st_mem σ') ∧ errno σ' = errno σ.
Proof.
  intros Hh Hp. destruct (nano_free_ok σ l al p a n Hh Hp) as (σ' & ? & ? & ? & _ & ?).
  by exists σ'.
Qed.

(** What follows is for a build without [DEBUG] and a heap of less than 2 GiB. *)
Context {SH : SmallHeap} {RL : Release}.

(** A [nano_malloc] served from the free list followed by the [nano_free]
    of its result restores the free list: the coalescing undoes the split. *)
Theorem malloc_free_restores s σ l al r σ1 a k l' :
  heap σ l al → 0 ≤ s < 2 ^ 64 → alloc_from (chunk_size s) l = Some (a, k, l') →
  nano_malloc s σ = Some (r, σ1) → r ≠ 0 →
  ∃ σ2, nano_free r σ1 = Some (tt, σ2) ∧ heap σ2 l al.
Proof.
  intros Hh Hs Hal E Hr. destruct (nano_malloc_ok s σ l al Hh Hs) as (r' & σ' & E' & Hk & Hcase).
  rewrite E in E'. injection E' as <- <-.
  destruct Hcase as [(-> & _)|(b & k' & l1 & -> & Hnone & Hh1 & Hfrom & _)]; [done|].
  assert ((b, k', l1) = (a, k, l')) as [= -> -> ->].
  { destruct Hfrom; congruence. }
  destruct (nano_free_ok σ1 l' _ (a + 8) a k Hh1 (lookup_insert_eq _ _ _)) as (σ2 & E2 & Hh2 & _).
  rewrite delete_insert_id in Hh2 by done. exists σ2. split; [done|].
  destruct Hh as ((_ & Hsp & _) & _).
  assert (release a k l' = l) as <-; [|done].
  eapply release_alloc; [exact Hsp| |exact Hal]. unfold chunk_size. apply Z.le_max_r.
Qed.

(** [nano_calloc] fails with [ENOMEM] when the product of its arguments
    does not fit in 64 bits; otherwise it behaves like [nano_malloc] of the
    product and the block it returns reads as zero. *)
Theorem nano_calloc_correct n elem σ l al :
  heap σ l al → 0 ≤ n < 2 ^ 64 → 0 ≤ elem < 2 ^ 64 →
  ∃ r σ', nano_calloc n elem σ = Some (r, σ') ∧ kept al (st_mem σ) (st_mem σ') ∧
    (2 ^ 64 ≤ n * elem → r = 0) ∧
    (r = 0 ∧ errno σ' = ENOMEM ∧ heap σ' l al ∨
     ∃ a k l', r = a + 8 ∧ al !! r = None ∧ heap σ' l' (<[r := (a, k)]> al) ∧
       n * elem + 8 ≤ k ∧ bytes_at (st_mem σ') r (replicate (Z.to_nat (n * elem)) 0)).
Proof.
  intros Hh Hn He. destruct (nano_calloc_ok n elem σ l al Hh Hn He) as (r & σ' & E & Hk & Hcase).
  exists r, σ'. split_and!; [done..| |done]. intros Hov. unfold nano_calloc in E.
  rewrite (proj2 (Z.leb_le _ _) Hov) in E. rewrite set_errno_bind in E. by injection E.
Qed.

(** [nano_realloc] of a live block: size zero frees it; a request that
    fits and uses more than half of the block returns it unchanged; otherwise
    it returns NULL with [ENOMEM] and keeps the block, or moves the block,
    copying the smaller of the old and new sizes. Other blocks never change. *)
Theorem nano_realloc_correct ptr a n size σ l al :
  heap σ l al → al !! ptr = Some (a, n) → 0 ≤ size < 2 ^ 64 →
  ∃ r σ', nano_realloc ptr size σ = Some (r, σ') ∧ realloc_post ptr a n size σ l al r σ'.
Proof. apply nano_realloc_ok. Qed.

(** [nano_memalign] with a power of two (or zero) returns NULL with an
    unchanged free list, or a block with the requested alignment and size,
    disjoint from all others; what it cuts off in front and behind goes back
    to the free list. It returns NULL for any other alignment. *)
Theorem nano_memalign_correct align s σ l al :
  heap σ l al → 0 ≤ align < 2 ^ 64 → 0 ≤ s < 2 ^ 64 →
  ∃ r σ', nano_memalign align s σ = Some (r, σ') ∧ kept al (st_mem σ) (st_mem σ') ∧
    (Z.land align (u64 (align - 1)) ≠ 0 → r = 0) ∧
    (r = 0 ∧ heap σ' l al ∨
     ∃ c k l', al !! r = None ∧ heap σ' l' (<[r := (c, k)]> al) ∧ r + s ≤ c + k ∧
       r mod Z.max align 8 = 0).
Proof.
  intros Hh Ha Hs. destruct (nano_memalign_ok align s σ l al Hh Ha Hs) as (r & σ' & E & Hk & Hcase).
  exists r, σ'. split_and!; [done..| |done]. intros Hpow. unfold nano_memalign in E.
  rewrite (proj2 (Z.eqb_neq _ _) Hpow) in E. by injection E.
Qed.

(** The reports: [nano_malloc_usable_size] of a live block is the room
    from its pointer to the end of its chunk, and [nano_mallinfo] the size of
    the heap and the sum of the free chunks, without changing either. *)
Theorem nano_reports_correct σ l al p a n :
  heap σ l al → al !! p = Some (a, n) → sbrk_start σ = heap_base →
  nano_malloc_usable_size p σ = Some (a + n - p, σ) ∧
  ∃ σ', nano_mallinfo σ =
      Some (Mallinfo (brk (st_world σ) - heap_base) (total_size l)
              (brk (st_world σ) - heap_base - total_size l), σ') ∧
    heap σ' l al ∧ st_mem σ' = st_mem σ.
Proof.
  intros Hh Hp Hst. pose proof Hh as ((_ & Hsp & _) & Hb & _).
  pose proof (brk_range (st_world σ)) as Hbr. pose proof heap_range as (? & ?).
  split; [by eapply usable_size_ok; [apply Hb|lia]|].
  destruct (nano_mallinfo_ok σ l al Hh (or_intror Hst)) as (σ' & E & ? & ?).
  exists σ'. split; [|done]. rewrite E, Hst. rewrite (proj2 (Z.eqb_neq _ _)) by lia.
  rewrite u64_small; [done|]. destruct (total_size_bound _ _ _ Hsp) as [? Hle].
  destruct l; [simpl in *; lia|]. assert (p0 :: l ≠ []) as Hne by done. specialize (Hle Hne). lia.
Qed.
End correctness.

(** ** Witnesses and limits *)

(** The state after one request on an empty heap. *)
Definition after_malloc : gmap Z Z * state :=
  default (∅, start) (run (Malloc 10) ∅ start).

Lemma after_malloc_run : run (Malloc 10) ∅ start = Some after_malloc.
Proof. apply returns. vm_compute. reflexivity. Qed.

Lemma client_safety_witness :
  65544 ≠ 0 ∧ 65544 mod 8 = 0 ∧ mapped (st_mem after_malloc.2) 65544 10.
Proof.
  refine (proj1 (proj2 (client_safety start after_malloc.2 after_malloc.1 eq_refl eq_refl
    start_heap _)) _ _ _).
  - eapply rtc_once, (do_op (Malloc 10)); [simpl; lia|].
    rewrite <- surjective_pairing. apply after_malloc_run.
  - vm_compute. reflexivity.
Defined.

(** The blocks of [demo]. *)
Definition demo_blocks : gmap Z (Z * Z) := {[65744 := (65736, 32)]}.

Lemma demo_ok : heap demo [(65536, 200)] demo_blocks.
Proof. exact demo_heap. Qed.

Lemma nano_malloc_correct_witness :
  ∃ r σ', nano_malloc 100 demo = Some (r, σ') ∧ kept demo_blocks (st_mem demo) (st_mem σ').
Proof.
  destruct (nano_malloc_correct 100 demo _ _ eq_refl eq_refl demo_ok) as (r & σ' & E & Hk & _); [lia|].
  exists r, σ'. split; [exact E|exact Hk].
Defined.

Lemma nano_free_correct_witness :
  ∃ σ', nano_free 65744 demo = Some (tt, σ') ∧ heap σ' [(65536, 232)] ∅.
Proof.
  destruct (nano_free_correct demo _ _ 65744 65736 32 demo_ok) as (σ' & E & Hh & _);
    [reflexivity|]. exists σ'. split; [exact E|].
  unfold demo_blocks in Hh. rewrite delete_singleton_eq in Hh. exact Hh.
Defined.

Definition demo_malloc : Z * state := default (0, demo) (nano_malloc 100 demo).

Lemma demo_malloc_run : nano_malloc 100 demo = Some demo_malloc ∧ demo_malloc.1 ≠ 0.
Proof.
  split; [apply returns; vm_compute; reflexivity|].
  assert (demo_malloc.1 = 65544) as -> by (vm_compute; reflexivity). done.
Qed.

Lemma malloc_free_restores_witness :
  ∃ σ2, nano_free demo_malloc.1 demo_malloc.2 = Some (tt, σ2) ∧
    heap σ2 [(65536, 200)] demo_blocks.
Proof.
  refine (malloc_free_restores 100 demo [(65536, 200)] demo_blocks demo_malloc.1 demo_malloc.2
    65536 112 [(65648, 88)] demo_ok _ _ _ _).
  - lia.
  - reflexivity.
  - rewrite <- surjective_pairing. apply demo_malloc_run.
  - apply demo_malloc_run.
Defined.

Lemma nano_calloc_correct_witness :
  ∃ r σ', nano_calloc 10 10 demo = Some (r, σ') ∧ kept demo_blocks (st_mem demo) (st_mem σ').
Proof.
  destruct (nano_calloc_correct 10 10 demo _ _ demo_ok) as (r & σ' & E & Hk & _); [lia..|].
  exists r, σ'. split; [exact E|exact Hk].
Defined.

Lemma nano_realloc_correct_witness :
  ∃ r σ', nano_realloc 65744 100 demo = Some (r, σ') ∧
    realloc_post 65744 65736 32 100 demo [(65536, 200)] demo_blocks r σ'.
Proof. apply nano_realloc_correct; [exact demo_ok|reflexivity|lia]. Defined.

Lemma nano_memalign_correct_witness :
  ∃ r σ', nano_memalign 64 20 demo = Some (r, σ') ∧ kept demo_blocks (st_mem demo) (st_mem σ').
Proof.
  destruct (nano_memalign_correct 64 20 demo _ _ demo_ok) as (r & σ' & E & Hk & _); [lia..|].
  exists r, σ'. split; [exact E|exact Hk].
Defined.

Lemma nano_reports_correct_witness : nano_malloc_usable_size 65744 demo = Some (24, demo).
Proof.
  refine (proj1 (nano_reports_correct demo _ _ 65744 65736 32 demo_ok _ _)); reflexivity.
Defined.

(** A free chunk of more than 4 GiB, alone on the list. *)
Definition huge : state :=
  State (write_bytes (mk_mem 65536 (replicate 64 0)) 65536 (le_split 8 (2 ^ 32 + 48)))
    65536 65536 0 Board.base.

(** Without the bound on the heap, [nano_malloc] loses memory: the
    remainder of a split is computed as [int], so a request of 8 bytes from a
    free chunk of 2^32 + 48 bytes leaves a free list that holds 32 bytes. *)
Theorem nano_malloc_leak :
  lseg (st_mem huge) (free_list huge) [(65536, 2 ^ 32 + 48)] 0 ∧
  ∃ σ', nano_malloc 8 huge = Some (65544, σ') ∧
    lseg (st_mem σ') (free_list σ') [(65552, 32)] 0.
Proof.
  split; [split_and!; [reflexivity..|]; by exists 0|].
  set (res := default (0, huge) (nano_malloc 8 huge)).
  assert (nano_malloc 8 huge = Some res) as E by (apply returns; vm_compute; reflexivity).
  assert (res.1 = 65544 ∧ free_list res.2 = 65552 ∧ load64 (st_mem res.2) 65552 = Some 32 ∧
    load64 (st_mem res.2) 65560 = Some 0) as (Hr & Hfl & Hsz & Hnx)
    by (split_and!; vm_compute; reflexivity).
  exists res.2. rewrite <- Hr, <- surjective_pairing. split; [exact E|].
  rewrite Hfl. split; [reflexivity|]. split; [exact Hsz|]. exists 0. split; [exact Hnx|reflexivity].
Qed.

(** A heap that is full up to a free chunk of 24 bytes at the break. *)
Definition tail_free (debug : bool) : @state (board_build debug) :=
  @State (board_build debug)
    (write_bytes (mk_mem (Board.limit - 64) (replicate 32 0)) (Board.limit - 64) (le_split 8 24))
    (Board.limit - 64) Board.base 0 (Board.limit - 40).

(** The same request on the two builds: it extends the chunk and returns it, or
    fails the assertion of line 399. *)
Lemma nano_malloc_debug :
  (∃ σ', @nano_malloc (board_build false) 40 (tail_free false) = Some (Board.limit - 56, σ')) ∧
  @nano_malloc (board_build true) 40 (tail_free true) = None.
Proof. split; [eexists|]; vm_compute; reflexivity. Qed.
