(* ===== verification/Mprec.v ===== *)
(** * Multiple-precision integers

    Models newlib/libc/stdlib/mprec.c and mprec.h as compiled for a target with
    32-bit [__ULong] ([Pack_32]) and little-endian IEEE doubles: allocation of
    [_Bigint]s with its free lists ([Balloc], [Bfree]), [multadd], [s2b],
    [hi0bits], [lo0bits], [i2b], [mult], [pow5mult] with its cache of powers,
    [lshift], [cmp], [diff], [ulp], [b2d], [d2b], [copybits] and [any_on].

    A [_Bigint] lives in a heap of structs, so aliasing and reuse through the
    free lists are visible; its words are a list, and an access outside that
    list faults. The functions run in a monad with two ways not to return:
    [Fault], and [Abort] for the assertion in [eBalloc]. A double is the pair
    of its words. The allocator [_calloc_r] is a parameter. *)
From S2P Require Import Prelude.

(** ** State and monad *)

Record Bigint := Big {
  _next : Z;
  _k : Z;
  _maxwds : Z;
  _sign : Z;
  _wds : Z;
  _x : list Z;
}.

(** [_calloc_r] of the given number of bytes; NULL is [None]. *)
Class Calloc := _calloc_r : gmap Z Bigint → Z → option Z.

(** The fields of [struct _reent] used here: [_freelist] ([None] is NULL) and
    [_p5s], with the heap of structs. *)
Record mp := Mp {
  bigs : gmap Z Bigint;
  _freelist : option (list Z);
  _p5s : Z;
}.

Inductive outcome (A : Type) :=
  | Ok (x : A) (σ : mp)
  | Abort
  | Fault.
Arguments Ok {A} _ _.
Arguments Abort {A}.
Arguments Fault {A}.

Definition MP (A : Type) : Type := mp → outcome A.

#[global] Instance MP_ret : MRet MP := λ _ x σ, Ok x σ.
#[global] Instance MP_bind : MBind MP := λ _ _ k m σ,
  match m σ with
  | Ok x σ => k x σ
  | Abort => Abort
  | Fault => Fault
  end.

(** A loop whose rounds run in the monad. *)
Fixpoint mloop {A B} (n : nat) (f : A → MP (A + B)) (a : A) : MP B :=
  match n with
  | O => λ _, Fault
  | S n => r ← f a; match r with inl a => mloop n f a | inr b => mret b end
  end.

Definition lift {A} (o : option A) : MP A := λ σ,
  match o with Some x => Ok x σ | None => Fault end.
Definition abort {A} : MP A := λ _, Abort.

Definition getBig (p : Z) : MP Bigint := λ σ, lift (bigs σ !! p) σ.
Definition putBig (p : Z) (b : Bigint) : MP unit := λ σ,
  Ok tt (Mp (<[p := b]> (bigs σ)) (_freelist σ) (_p5s σ)).

Definition set_next (p v : Z) : MP unit :=
  b ← getBig p; putBig p (Big v (_k b) (_maxwds b) (_sign b) (_wds b) (_x b)).
Definition set_sign (p v : Z) : MP unit :=
  b ← getBig p; putBig p (Big (_next b) (_k b) (_maxwds b) v (_wds b) (_x b)).
Definition set_wds (p v : Z) : MP unit :=
  b ← getBig p; putBig p (Big (_next b) (_k b) (_maxwds b) (_sign b) v (_x b)).
Definition set_words (p : Z) (x : list Z) : MP unit :=
  b ← getBig p; putBig p (Big (_next b) (_k b) (_maxwds b) (_sign b) (_wds b) x).

(** Array accesses. *)
Definition rd (x : list Z) (i : Z) : option Z :=
  if (0 <=? i) && (i <? Z.of_nat (length x)) then x !! Z.to_nat i else None.
Definition wr (x : list Z) (i v : Z) : option (list Z) :=
  if (0 <=? i) && (i <? Z.of_nat (length x)) then Some (<[Z.to_nat i := v]> x) else None.

Definition set_p5s (v : Z) : MP unit := λ σ, Ok tt (Mp (bigs σ) (_freelist σ) v).
Definition get_p5s : MP Z := λ σ, Ok (_p5s σ) σ.

(** [p->_x[i] = v] *)
Definition set_word (p i v : Z) : MP unit :=
  b ← getBig p; x ← lift (wr (_x b) i v); set_words p x.

(** ** Constants of mprec.h *)

Definition _Kmax : Z := Z.shiftl 8 3.
Definition kshift : Z := 5.
Definition kmask : Z := 31.
Definition Exp_shift : Z := 20.
Definition Exp_msk1 : Z := 0x100000.
Definition Exp_mask : Z := 0x7ff00000.
Definition P : Z := 53.
Definition Bias : Z := 1023.
Definition Exp_1 : Z := 0x3ff00000.
Definition Ebits : Z := 11.
Definition Frac_mask : Z := 0xfffff.

(** The word [Storeinc] stores. *)
Definition Storeinc (b c : Z) : Z := Z.lor (u32 (Z.shiftl b 16)) (Z.land (u32 c) 0xffff).

Section mprec.
Context `{Calloc}.

(** ** Balloc, Bfree, Bcopy *)

(** [sizeof (_Bigint) + (x-1) * sizeof(rv->_x)] *)
Definition sizeof_Bigint (x : Z) : Z := 32 + (x - 1) * 4.

(** The list of free lists, made at the first call. *)
Definition get_freelist : MP (option (list Z)) := λ σ,
  match _freelist σ with
  | Some l => Ok (Some l) σ
  | None =>
      match _calloc_r (bigs σ) (8 * (_Kmax + 1)) with
      | None => Ok None σ
      | Some _ =>
          let l := replicate (Z.to_nat (_Kmax + 1)) 0 in
          Ok (Some l) (Mp (bigs σ) (Some l) (_p5s σ))
      end
  end.

Definition set_freelist (k v : Z) : MP unit := λ σ,
  match l ← _freelist σ; wr l k v with
  | Some l => Ok tt (Mp (bigs σ) (Some l) (_p5s σ))
  | None => Fault
  end.

(** A new struct, zeroed. *)
Definition new_Bigint (k : Z) : MP Z := λ σ,
  let x := s32 (Z.shiftl 1 k) in
  match _calloc_r (bigs σ) (sizeof_Bigint x) with
  | None => Ok 0 σ
  | Some p =>
      Ok p (Mp (<[p := Big 0 k x 0 0 (replicate (Z.to_nat x) 0)]> (bigs σ)) (_freelist σ) (_p5s σ))
  end.

Definition Balloc (k : Z) : MP Z :=
  fl ← get_freelist;
  match fl with
  | None => mret 0
  | Some l =>
      rv ← lift (rd l k);
      if negb (rv =? 0) then
        b ← getBig rv;
        _ ← set_freelist k (_next b);
        _ ← set_wds rv 0; _ ← set_sign rv 0;
        mret rv
      else
        rv ← new_Bigint k;
        if rv =? 0 then mret 0
        else _ ← set_wds rv 0; _ ← set_sign rv 0; mret rv
  end.

Definition eBalloc (k : Z) : MP Z :=
  p ← Balloc k; if p =? 0 then abort else mret p.

Definition Bfree (v : Z) : MP unit :=
  if v =? 0 then mret tt
  else
    b ← getBig v;
    head ← (λ σ, lift (l ← _freelist σ; rd l (_k b)) σ);
    _ ← set_next v head;
    set_freelist (_k b) v.

(** [memcpy] from [_sign] on: the sign, the number of words and the words. *)
Definition Bcopy (x y : Z) : MP unit :=
  bx ← getBig x;
  by' ← getBig y;
  if (0 <=? _wds by') && (_wds by' <=? Z.of_nat (length (_x bx))) &&
     (_wds by' <=? Z.of_nat (length (_x by'))) then
    let n := Z.to_nat (_wds by') in
    putBig x (Big (_next bx) (_k bx) (_maxwds bx) (_sign by') (_wds by')
                (take n (_x by') ++ drop n (_x bx)))
  else (λ _, Fault).

(** ** multadd, s2b, i2b *)

Definition multadd_words (x : list Z) (wds m a : Z) : option (list Z * Z) :=
  loop (S (Z.to_nat wds)) (λ '(x, i, a),
    xi ← rd x i;
    let y := u32 (Z.land xi 0xffff * m + a) in
    let z := u32 (Z.shiftr xi 16 * m + Z.shiftr y 16) in
    let a := s32 (Z.shiftr z 16) in
    x ← wr x i (u32 (u32 (Z.shiftl z 16) + Z.land y 0xffff));
    let i := i + 1 in
    if i <? wds then continue (x, i, a) else leave (x, a)) (x, 0, a).

Definition multadd (b m a : Z) : MP Z :=
  bb ← getBig b;
  let wds := _wds bb in
  '(x, a) ← lift (multadd_words (_x bb) wds m a);
  _ ← set_words b x;
  if truth a then
    b ← (if _maxwds bb <=? wds then
           b1 ← eBalloc (_k bb + 1);
           _ ← Bcopy b1 b;
           _ ← Bfree b;
           mret b1
         else mret b);
    _ ← set_word b wds (u32 a);
    _ ← set_wds b (wds + 1);
    mret b
  else mret b.

(** [for (k = 0, y = 1; x > y; y <<= 1, k++)] *)
Definition s2b_k (x : Z) : option Z :=
  loop 33 (λ '(k, y), if y <? x then continue (k + 1, s32 (Z.shiftl y 1)) else leave k) (0, 1).

(** The loops over the digits: [n] calls of [multadd], at least one for the
    [do] loop. The characters are a list. *)
Definition s2b_digit (b : Z) (s : list Z) (j : Z) : MP Z :=
  c ← lift (rd s j); multadd b 10 (c - 48).

Fixpoint s2b_digits (n : nat) (b : Z) (s : list Z) (j : Z) : MP Z :=
  match n with
  | O => mret b
  | S n => b ← s2b_digit b s j; s2b_digits n b s (j + 1)
  end.

Definition s2b (s : list Z) (nd0 nd y9 : Z) : MP Z :=
  let x := (nd + 8) ÷ 9 in
  k ← lift (s2b_k x);
  b ← eBalloc k;
  _ ← set_word b 0 y9;
  _ ← set_wds b 1;
  if 9 <? nd0 then
    b ← s2b_digits (Z.to_nat (nd0 - 9)) b s 9;
    s2b_digits (Z.to_nat (nd - nd0)) b s (nd0 + 1)
  else s2b_digits (Z.to_nat (nd - 9)) b s 10.

Definition i2b (i : Z) : MP Z :=
  b ← eBalloc 1;
  _ ← set_word b 0 (u32 i);
  _ ← set_wds b 1;
  mret b.
End mprec.

(** ** hi0bits, lo0bits *)

Definition hi0bits (x : Z) : Z :=
  let '(k, x) := if Z.land x 0xffff0000 =? 0 then (16, u32 (Z.shiftl x 16)) else (0, x) in
  let '(k, x) := if Z.land x 0xff000000 =? 0 then (k + 8, u32 (Z.shiftl x 8)) else (k, x) in
  let '(k, x) := if Z.land x 0xf0000000 =? 0 then (k + 4, u32 (Z.shiftl x 4)) else (k, x) in
  let '(k, x) := if Z.land x 0xc0000000 =? 0 then (k + 2, u32 (Z.shiftl x 2)) else (k, x) in
  if Z.land x 0x80000000 =? 0 then
    if Z.land x 0x40000000 =? 0 then 32 else k + 1
  else k.

(** Returns the count and the word stored through [y]. *)
Definition lo0bits (y : Z) : Z * Z :=
  let x := y in
  if truth (Z.land x 7) then
    if truth (Z.land x 1) then (0, y)
    else if truth (Z.land x 2) then (1, Z.shiftr x 1)
    else (2, Z.shiftr x 2)
  else
    let '(k, x) := if Z.land x 0xffff =? 0 then (16, Z.shiftr x 16) else (0, x) in
    let '(k, x) := if Z.land x 0xff =? 0 then (k + 8, Z.shiftr x 8) else (k, x) in
    let '(k, x) := if Z.land x 0xf =? 0 then (k + 4, Z.shiftr x 4) else (k, x) in
    let '(k, x) := if Z.land x 0x3 =? 0 then (k + 2, Z.shiftr x 2) else (k, x) in
    if Z.land x 1 =? 0 then
      let k := k + 1 in
      let x := Z.shiftr x 1 in
      if truth (Z.land (if x =? 0 then 1 else 0) 1) then (32, y) else (k, x)
    else (k, x).

(** ** mult

    The product is computed into a struct that [Balloc] has just handed out,
    so the words of [a] and [b] are read once. *)

(** [for (x = c->_x, xa = x + n; x < xa; x++) *x = 0;] *)
Definition zero_words (x : list Z) (n : Z) : option (list Z) :=
  loop (S (Z.to_nat n)) (λ '(x, i),
    if i <? n then x ← wr x i 0; continue (x, i + 1) else leave x) (x, 0).

(** The loop for the low half [y] of a word of [b]; [j] is [xc0]. *)
Definition mult_lo (xa : list Z) (wa y : Z) (c : list Z) (j : Z) : option (list Z) :=
  '(c, xc, carry) ← loop (S (Z.to_nat wa)) (λ '(c, i, carry),
    x ← rd xa i;
    w ← rd c (j + i);
    let z := u32 (Z.land x 0xffff * y + Z.land w 0xffff + carry) in
    let carry := Z.shiftr z 16 in
    let z2 := u32 (Z.shiftr x 16 * y + Z.shiftr w 16 + carry) in
    let carry := Z.shiftr z2 16 in
    c ← wr c (j + i) (Storeinc z2 z);
    let i := i + 1 in
    if i <? wa then continue (c, i, carry) else leave (c, j + i, carry)) (c, 0, 0);
  wr c xc carry.

(** The loop for the high half. *)
Definition mult_hi (xa : list Z) (wa y : Z) (c : list Z) (j : Z) : option (list Z) :=
  z2 ← rd c j;
  '(c, xc, z2) ← loop (S (Z.to_nat wa)) (λ '(c, i, carry, z2),
    x ← rd xa i;
    w ← rd c (j + i);
    let z := u32 (Z.land x 0xffff * y + Z.shiftr w 16 + carry) in
    let carry := Z.shiftr z 16 in
    c ← wr c (j + i) (Storeinc z z2);
    w ← rd c (j + i + 1);
    let z2 := u32 (Z.shiftr x 16 * y + Z.land w 0xffff + carry) in
    let carry := Z.shiftr z2 16 in
    let i := i + 1 in
    if i <? wa then continue (c, i, carry, z2) else leave (c, j + i, z2)) (c, 0, 0, z2);
  wr c xc z2.

Definition mult_words (xa : list Z) (wa : Z) (xb : list Z) (wb : Z) (c : list Z) : option (list Z) :=
  loop (S (Z.to_nat wb)) (λ '(c, j),
    if j <? wb then
      w ← rd xb j;
      let y := Z.land w 0xffff in
      c ← (if truth y then mult_lo xa wa y c j else Some c);
      let y := Z.shiftr w 16 in
      c ← (if truth y then mult_hi xa wa y c j else Some c);
      continue (c, j + 1)
    else leave c) (c, 0).

(** [for (xc = c->_x + wc; wc > 0 && !*--xc; --wc);] *)
Definition trim (c : list Z) (wc : Z) : option Z :=
  loop (S (Z.to_nat wc)) (λ wc,
    if 0 <? wc then
      w ← rd c (wc - 1);
      if w =? 0 then continue (wc - 1) else leave wc
    else leave wc) wc.

Section mprec.
Context `{Calloc}.

(** The code after [a] and [b] are swapped, so that [a] has the more words. *)
Definition mult_ordered (a b : Z) : MP Z :=
  ba ← getBig a;
  bb ← getBig b;
  let wa := _wds ba in
  let wb := _wds bb in
  let wc := wa + wb in
  let k := if _maxwds ba <? wc then _k ba + 1 else _k ba in
  c ← eBalloc k;
  bc ← getBig c;
  x ← lift (zero_words (_x bc) wc);
  x ← lift (mult_words (_x ba) wa (_x bb) wb x);
  _ ← set_words c x;
  wc ← lift (trim x wc);
  _ ← set_wds c wc;
  mret c.

Definition mult (a b : Z) : MP Z :=
  ba ← getBig a;
  bb ← getBig b;
  if _wds ba <? _wds bb then mult_ordered b a else mult_ordered a b.

(** ** pow5mult *)

Definition p05 : list Z := [5; 25; 125].

(** One round of the [for (;;)] loop. *)
Definition pow5_round (st : Z * Z * Z) : MP (Z * Z * Z + Z) :=
  let '(k, b, p5) := st in
  b ← (if truth (Z.land k 1) then
         b1 ← mult b p5;
         _ ← Bfree b;
         mret b1
       else mret b);
  let k := Z.shiftr k 1 in
  if k =? 0 then mret (inr b)
  else
    bp ← getBig p5;
    let p51 := _next bp in
    p51 ← (if p51 =? 0 then
             p51 ← mult p5 p5;
             _ ← set_next p5 p51;
             _ ← set_next p51 0;
             mret p51
           else mret p51);
    mret (inl (k, b, p51)).

(** [k] is a 32-bit int: it is zero after at most 31 halvings. *)
Definition pow5mult (b k : Z) : MP Z :=
  let i := Z.land k 3 in
  b ← (if truth i then m ← lift (rd p05 (i - 1)); multadd b m 0 else mret b);
  let k := Z.shiftr k 2 in
  if k =? 0 then mret b
  else
    p5 ← get_p5s;
    p5 ← (if p5 =? 0 then
            p5 ← i2b 625;
            _ ← set_p5s p5;
            _ ← set_next p5 0;
            mret p5
          else mret p5);
    mloop 32 pow5_round (k, b, p5).
End mprec.

(** ** lshift *)

(** [for (i = b->_maxwds; n1 > i; i <<= 1) k1++;] *)
Definition lshift_k (n1 maxwds k : Z) : option Z :=
  loop 33 (λ '(i, k1),
    if i <? n1 then continue (s32 (Z.shiftl i 1), k1 + 1) else leave k1) (maxwds, k).

(** The [do] loop of a shift by [k] bits, 0 < k < 32, and the carry out stored
    at its end; [n] is the index [x1] starts from. *)
Definition lshift_bits (x : list Z) (wds k : Z) (x1 : list Z) (n : Z) : option (list Z * Z) :=
  let k1 := 32 - k in
  '(x1, n, z) ← loop (S (Z.to_nat wds)) (λ '(x1, i, z),
    w ← rd x i;
    x1 ← wr x1 (n + i) (Z.lor (u32 (Z.shiftl w k)) z);
    let z := Z.shiftr w k1 in
    let i := i + 1 in
    if i <? wds then continue (x1, i, z) else leave (x1, n + i, z)) (x1, 0, 0);
  x1 ← wr x1 n z;
  Some (x1, z).

(** [do *x1++ = *x++; while (x < xe);] *)
Definition lshift_copy (x : list Z) (wds : Z) (x1 : list Z) (n : Z) : option (list Z) :=
  loop (S (Z.to_nat wds)) (λ '(x1, i),
    w ← rd x i;
    x1 ← wr x1 (n + i) w;
    let i := i + 1 in
    if i <? wds then continue (x1, i) else leave x1) (x1, 0).

Definition lshift `{Calloc} (b k : Z) : MP Z :=
  let n := Z.shiftr k 5 in
  bb ← getBig b;
  let n1 := n + _wds bb + 1 in
  k1 ← lift (lshift_k n1 (_maxwds bb) (_k bb));
  b1 ← eBalloc k1;
  bb1 ← getBig b1;
  x1 ← lift (zero_words (_x bb1) n);
  let k := Z.land k 0x1f in
  '(x1, n1) ←
    (if truth k then
       '(x1, z) ← lift (lshift_bits (_x bb) (_wds bb) k x1 n);
       mret (x1, if truth z then n1 + 1 else n1)
     else
       x1 ← lift (lshift_copy (_x bb) (_wds bb) x1 n);
       mret (x1, n1));
  _ ← set_words b1 x1;
  _ ← set_wds b1 (n1 - 1);
  _ ← Bfree b;
  mret b1.

(** ** cmp, diff *)

(** The [for (;;)] loop from index [j]. *)
Definition cmp_words (xa xb : list Z) (j : Z) : option Z :=
  loop (S (Z.to_nat j)) (λ j,
    let j := j - 1 in
    a ← rd xa j;
    b ← rd xb j;
    if negb (a =? b) then leave (if a <? b then -1 else 1)
    else if j <=? 0 then leave 0 else continue j) j.

Definition cmp_big (a b : Bigint) : option Z :=
  let i := _wds a - _wds b in
  if truth i then Some i else cmp_words (_x a) (_x b) (_wds b).

Definition cmp (a b : Z) : MP Z :=
  ba ← getBig a; bb ← getBig b; lift (cmp_big ba bb).

(** One word of the subtraction; [xa] and [xb] are the words, the result is
    the word stored and the borrow. *)
Definition diff_word (xa xb borrow : Z) : Z * Z :=
  let y := s32 (Z.land xa 0xffff - Z.land xb 0xffff + borrow) in
  let borrow := Z.shiftr y 16 in
  let z := s32 (Z.shiftr xa 16 - Z.shiftr xb 16 + borrow) in
  let borrow := Z.shiftr z 16 in
  (Storeinc z y, borrow).

(** The [do] loop over the words of [b], then the words [a] has more. *)
Definition diff_words (xa : list Z) (wa : Z) (xb : list Z) (wb : Z) (c : list Z) : option (list Z) :=
  '(c, i, borrow) ← loop (S (Z.to_nat wb)) (λ '(c, i, borrow),
    a ← rd xa i;
    b ← rd xb i;
    let '(w, borrow) := diff_word a b borrow in
    c ← wr c i w;
    let i := i + 1 in
    if i <? wb then continue (c, i, borrow) else leave (c, i, borrow)) (c, 0, 0);
  loop (S (Z.to_nat wa)) (λ '(c, i, borrow),
    if i <? wa then
      a ← rd xa i;
      let '(w, borrow) := diff_word a 0 borrow in
      c ← wr c i w;
      continue (c, i + 1, borrow)
    else leave c) (c, i, borrow).

(** [while (!*--xc) wa--;] with [xc] starting at [c->_x + wa]. *)
Definition diff_trim (c : list Z) (wa : Z) : option Z :=
  loop (S (Z.to_nat wa)) (λ wa,
    w ← rd c (wa - 1);
    if w =? 0 then continue (wa - 1) else leave wa) wa.

Definition diff `{Calloc} (a b : Z) : MP Z :=
  i ← cmp a b;
  if i =? 0 then
    c ← eBalloc 0;
    _ ← set_wds c 1;
    _ ← set_word c 0 0;
    mret c
  else
    let '(a, b, i) := if i <? 0 then (b, a, 1) else (a, b, 0) in
    ba ← getBig a;
    bb ← getBig b;
    c ← eBalloc (_k ba);
    _ ← set_sign c i;
    bc ← getBig c;
    x ← lift (diff_words (_x ba) (_wds ba) (_x bb) (_wds bb) (_x bc));
    _ ← set_words c x;
    wa ← lift (diff_trim x (_wds ba));
    _ ← set_wds c wa;
    mret c.

(** ** Doubles: ulp, b2d, d2b *)

(** [word0] and [word1] of the result. *)
Definition ulp (x0 : Z) : Z * Z :=
  let L := s32 (Z.land x0 Exp_mask - (P - 1) * Exp_msk1) in
  if 0 <? L then (L, 0)
  else
    let L := Z.shiftr (- L) Exp_shift in
    if L <? Exp_shift then (Z.shiftr 0x80000 L, 0)
    else
      let L := L - Exp_shift in
      (0, if 31 <=? L then 1 else Z.shiftl 1 (31 - L)).

(** [xa > xa0 ? *--xa : 0], with [xa] as an index. *)
Definition next_word (x : list Z) (xa : Z) : option (Z * Z) :=
  if 0 <? xa then w ← rd x (xa - 1); Some (w, xa - 1) else Some (0, xa).

(** The words of the double and what is stored through [e]. *)
Definition b2d_big (a : Bigint) : option (Z * Z * Z) :=
  let xa := _wds a - 1 in
  y ← rd (_x a) xa;
  let k := hi0bits y in
  let e := 32 - k in
  if k <? Ebits then
    let d0 := Z.lor Exp_1 (Z.shiftr y (Ebits - k)) in
    '(w, xa) ← next_word (_x a) xa;
    let d1 := Z.lor (u32 (Z.shiftl y ((32 - Ebits) + k))) (Z.shiftr w (Ebits - k)) in
    Some (d0, d1, e)
  else
    '(z, xa) ← next_word (_x a) xa;
    let k := k - Ebits in
    if truth k then
      let d0 := Z.lor (Z.lor Exp_1 (u32 (Z.shiftl y k))) (Z.shiftr z (32 - k)) in
      '(y, xa) ← next_word (_x a) xa;
      let d1 := Z.lor (u32 (Z.shiftl z k)) (Z.shiftr y (32 - k)) in
      Some (d0, d1, e)
    else Some (Z.lor Exp_1 y, z, e).

Definition b2d (a : Z) : MP (Z * Z * Z) := ba ← getBig a; lift (b2d_big ba).

(** The number and what is stored through [e] and [bits]. *)
Definition d2b `{Calloc} (d0 d1 : Z) : MP (Z * Z * Z) :=
  b ← eBalloc 1;
  let z := Z.land d0 Frac_mask in
  let d0 := Z.land d0 0x7fffffff in
  let de := Z.shiftr d0 Exp_shift in
  let z := if truth de then Z.lor z Exp_msk1 else z in
  '(i, k) ←
    (if truth d1 then
       let '(k, y) := lo0bits d1 in
       z ← (if truth k then
              _ ← set_word b 0 (Z.lor y (u32 (Z.shiftl z (32 - k))));
              mret (Z.shiftr z k)
            else
              _ ← set_word b 0 y;
              mret z);
       _ ← set_word b 1 z;
       let i := if truth z then 2 else 1 in
       _ ← set_wds b i;
       mret (i, k)
     else
       let '(k, z) := lo0bits z in
       _ ← set_word b 0 z;
       _ ← set_wds b 1;
       mret (1, k + 32));
  if truth de then mret (b, de - Bias - (P - 1) + k, P - k)
  else
    bb ← getBig b;
    w ← lift (rd (_x bb) (i - 1));
    mret (b, de - Bias - (P - 1) + 1 + k, 32 * i - hi0bits w).

(** ** copybits, any_on *)

(** The array [c] after the call. *)
Definition copybits (c : list Z) (n : Z) (b : Bigint) : option (list Z) :=
  let ce := Z.shiftr (n - 1) kshift + 1 in
  '(c, i) ← loop (S (Z.to_nat (_wds b))) (λ '(c, i),
    if i <? _wds b then
      w ← rd (_x b) i; c ← wr c i w; continue (c, i + 1)
    else leave (c, i)) (c, 0);
  loop (S (Z.to_nat ce)) (λ '(c, i),
    if i <? ce then c ← wr c i 0; continue (c, i + 1) else leave c) (c, i).

(** The closing loop of [any_on], with [x] as an index. *)
Definition any_on_words (x : list Z) (n : Z) : option Z :=
  loop (S (Z.to_nat n)) (λ n,
    if 0 <? n then
      w ← rd x (n - 1);
      if truth w then leave 1 else continue (n - 1)
    else leave 0) n.

Definition any_on (b : Bigint) (k : Z) : option Z :=
  let nwds := _wds b in
  let n := Z.shiftr k kshift in
  if nwds <? n then any_on_words (_x b) nwds
  else if (n <? nwds) && truth (Z.land k kmask) then
    let k := Z.land k kmask in
    x2 ← rd (_x b) n;
    let x1 := u32 (Z.shiftl (Z.shiftr x2 k) k) in
    if negb (x1 =? x2) then Some 1 else any_on_words (_x b) n
  else any_on_words (_x b) n.
