(* ===== verification/MprecNum.v ===== *)
(** * The words of a multiple-precision integer

    The number a list of 32-bit words denotes, and what each word loop of
    mprec.c does to it: [multadd_words], [mult_words], [lshift_bits],
    [diff_words], [cmp_words] and the others, with their accesses in bounds. *)
From S2P Require Import Prelude Mprec.

(** ** The number denoted *)

(** Little-endian in base 2^32. *)
Fixpoint val (x : list Z) : Z :=
  match x with
  | [] => 0
  | w :: x => w + 2 ^ 32 * val x
  end.

Definition word (w : Z) : Prop := 0 ≤ w < 2 ^ 32.

(** The weight of word [i]. *)
Definition weight (i : nat) : Z := 2 ^ (32 * Z.of_nat i).

Lemma weight_pos i : 0 < weight i.
Proof. unfold weight. lia. Qed.
Lemma weight_0 : weight 0 = 1.
Proof. done. Qed.
Lemma weight_S i : weight (S i) = 4294967296 * weight i.
Proof.
  unfold weight. rewrite Nat2Z.inj_succ.
  replace (32 * Z.succ (Z.of_nat i)) with (32 + 32 * Z.of_nat i) by lia.
  by rewrite Z.pow_add_r by lia.
Qed.
Lemma weight_add i j : weight (i + j) = weight i * weight j.
Proof. unfold weight. rewrite Nat2Z.inj_add, Z.mul_add_distr_l, Z.pow_add_r by lia. done. Qed.

Lemma val_cons w x : val (w :: x) = w + 4294967296 * val x.
Proof. done. Qed.

Lemma val_app x y : val (x ++ y) = val x + weight (length x) * val y.
Proof.
  induction x as [|w x IH]; [cbn [app val length]; rewrite weight_0; lia|].
  cbn [app length]. rewrite !val_cons, IH, weight_S. lia.
Qed.

Lemma val_bound x : Forall word x → 0 ≤ val x < weight (length x).
Proof.
  induction 1 as [|w x Hw _ IH]; [cbn [val length]; rewrite weight_0; lia|].
  cbn [length]. rewrite val_cons, weight_S. unfold word in Hw. lia.
Qed.

Lemma val_replicate_0 n : val (replicate n 0) = 0.
Proof. induction n as [|n IH]; [done|]. cbn [replicate]. rewrite val_cons, IH. done. Qed.

Lemma val_take_drop n x : (n ≤ length x)%nat →
  val x = val (take n x) + weight n * val (drop n x).
Proof.
  intros. rewrite <- (take_drop n x) at 1. rewrite val_app, length_take_le by done. done.
Qed.

Lemma val_take_S x i w : x !! i = Some w →
  val (take (S i) x) = val (take i x) + weight i * w.
Proof.
  intros Hw. rewrite (take_S_r _ _ _ Hw), val_app, length_take_le.
  - cbn [val]. lia.
  - apply lookup_lt_Some in Hw. lia.
Qed.

Lemma val_insert x i v w : x !! i = Some w →
  val (<[i := v]> x) = val x + weight i * (v - w).
Proof.
  revert i. induction x as [|u x IH]; intros [|i] Hw; [done..| |].
  - cbn in Hw. simplify_eq. change (<[0%nat := v]> (w :: x)) with (v :: x). rewrite !val_cons, weight_0. lia.
  - change (<[S i := v]> (u :: x)) with (u :: <[i := v]> x).
    rewrite !val_cons, weight_S, (IH i) by done. lia.
Qed.

Lemma val_take_insert x i v : (i < length x)%nat →
  val (take (S i) (<[i := v]> x)) = val (take i x) + weight i * v.
Proof.
  intros Hi. rewrite (val_take_S _ _ v) by (apply list_lookup_insert_eq; lia).
  by rewrite take_insert_ge by lia.
Qed.

(** ** Array accesses *)

Lemma rd_nat x i w : x !! i = Some w → rd x (Z.of_nat i) = Some w.
Proof.
  intros Hw. unfold rd. pose proof (lookup_lt_Some _ _ _ Hw).
  destruct (Z.leb_spec 0 (Z.of_nat i)); [|lia].
  destruct (Z.ltb_spec (Z.of_nat i) (Z.of_nat (length x))); [|lia].
  cbn [andb]. by rewrite Nat2Z.id.
Qed.

Lemma wr_nat x i v : (i < length x)%nat → wr x (Z.of_nat i) v = Some (<[i := v]> x).
Proof.
  intros Hi. unfold wr.
  destruct (Z.leb_spec 0 (Z.of_nat i)); [|lia].
  destruct (Z.ltb_spec (Z.of_nat i) (Z.of_nat (length x))); [|lia].
  cbn [andb]. by rewrite Nat2Z.id.
Qed.

Lemma rd_lt x i : (i < length x)%nat → ∃ w, x !! i = Some w ∧ rd x (Z.of_nat i) = Some w.
Proof.
  intros Hi. destruct (lookup_lt_is_Some_2 x i Hi) as [w Hw].
  exists w. split; [done|]. by apply rd_nat.
Qed.

(** Writing word [i] of a list that agrees with [y] from [i] on. *)
Lemma drop_wr (x y : list Z) (i : nat) (v : Z) : drop i x = drop i y → drop (S i) (<[i := v]> x) = drop (S i) y.
Proof.
  intros Hd. apply list_eq. intros j. rewrite !lookup_drop, list_lookup_insert_ne by lia.
  replace (S i + j)%nat with (i + S j)%nat by lia. by rewrite <- !lookup_drop, Hd.
Qed.

Lemma drop_rd (x y : list Z) (i : nat) (w : Z) : drop i x = drop i y → x !! i = Some w → y !! i = Some w.
Proof.
  intros Hd Hw. rewrite <- (Nat.add_0_r i), <- lookup_drop, <- Hd, lookup_drop.
  by rewrite Nat.add_0_r.
Qed.

Lemma drop_S_eq (x y : list Z) (i : nat) : drop i x = drop i y → drop (S i) x = drop (S i) y.
Proof.
  intros Hd. apply list_eq. intros j. rewrite !lookup_drop.
  replace (S i + j)%nat with (i + S j)%nat by lia. by rewrite <- !lookup_drop, Hd.
Qed.

(** The word read at [i] and the proof that it is a word. *)
Ltac read_word x i w Hw :=
  let H := fresh in
  destruct (rd_lt x i) as (w & Hw & H); [|rewrite H; clear H; cbn [mbind option_bind]].

Lemma insert_words x i v : Forall word x → word v → Forall word (<[i := v]> x).
Proof. intros. by apply Forall_insert. Qed.

Lemma lookup_word x i w : Forall word x → x !! i = Some w → 0 ≤ w < 4294967296.
Proof. intros Hx Hw. by apply (Forall_lookup_1 _ _ _ _ Hx Hw). Qed.

(** ** Half words *)

Lemma land_ffff x : Z.land x 0xffff = x mod 65536.
Proof. exact (land_low_mask 16 x ltac:(lia)). Qed.
Lemma shr16 x : Z.shiftr x 16 = x / 65536.
Proof. by rewrite Z.shiftr_div_pow2. Qed.
Lemma shl16 x : u32 (Z.shiftl x 16) = x mod 65536 * 65536.
Proof.
  rewrite Z.shiftl_mul_pow2 by done. unfold wrapu.
  change (2 ^ 32) with (65536 * 65536). change (2 ^ 16) with 65536.
  by rewrite Zmult_mod_distr_r.
Qed.

Lemma u32_mod16 x : u32 x mod 65536 = x mod 65536.
Proof.
  unfold wrapu. change (2 ^ 32) with (65536 * 65536).
  rewrite Z.rem_mul_r, Z.mul_comm, Z.mod_add, Zmod_mod by lia. done.
Qed.

Lemma Storeinc_eq b c : Storeinc b c = b mod 65536 * 65536 + c mod 65536.
Proof.
  unfold Storeinc. rewrite shl16, land_ffff, u32_mod16.
  pose proof (Z.mod_pos_bound c 65536).
  pose proof (lor_disjoint 16 (c mod 65536) (b mod 65536)) as Hor.
  rewrite Z.shiftl_mul_pow2 in Hor by lia. change (2 ^ 16) with 65536 in Hor. lia.
Qed.

Lemma Storeinc_word b c : word (Storeinc b c).
Proof.
  rewrite Storeinc_eq. unfold word.
  pose proof (Z.mod_pos_bound c 65536). pose proof (Z.mod_pos_bound b 65536). lia.
Qed.

#[export] Hint Resolve insert_words Storeinc_word weight_pos : cint.

(** A word as two halves. *)
Lemma halves x : 0 ≤ x < 4294967296 →
  ∃ l h, x mod 65536 = l ∧ x / 65536 = h ∧ x = l + 65536 * h ∧ 0 ≤ l < 65536 ∧ 0 ≤ h < 65536.
Proof.
  intros. exists (x mod 65536), (x / 65536).
  pose proof (Z.div_mod x 65536). pose proof (Z.mod_pos_bound x 65536).
  pose proof (Z.div_pos x 65536). pose proof (Z.div_lt_upper_bound x 65536 65536). lia.
Qed.

(** A product of half words with two half words added fits in 32 bits. *)
Lemma muladd_bound x y u v :
  0 ≤ x < 65536 → 0 ≤ y < 65536 → 0 ≤ u < 65536 → 0 ≤ v < 65536 →
  0 ≤ x * y + u + v < 4294967296.
Proof. intros. nia. Qed.

(** ** multadd *)

Lemma multadd_step x m a : 0 ≤ x < 4294967296 → 0 ≤ m < 65536 → 0 ≤ a < 65536 →
  let y := u32 (Z.land x 0xffff * m + a) in
  let z := u32 (Z.shiftr x 16 * m + Z.shiftr y 16) in
  let a' := s32 (Z.shiftr z 16) in
  let w := u32 (u32 (Z.shiftl z 16) + Z.land y 0xffff) in
  word w ∧ 0 ≤ a' < 65536 ∧ w + 4294967296 * a' = x * m + a.
Proof.
  intros Hx Hm Ha. cbv zeta. rewrite !shr16, !land_ffff, shl16.
  destruct (halves x Hx) as (l & h & -> & -> & -> & Hl & Hh).
  pose proof (muladd_bound l m a 0 Hl Hm Ha ltac:(lia)) as By.
  rewrite (u32_small (l * m + a)) by lia.
  destruct (halves (l * m + a)) as (yl & yh & -> & -> & Ey & Hyl & Hyh); [lia|].
  pose proof (muladd_bound h m yh 0 Hh Hm Hyh ltac:(lia)) as Bz.
  rewrite (u32_small (h * m + yh)) by lia.
  destruct (halves (h * m + yh)) as (zl & zh & -> & -> & Ez & Hzl & Hzh); [lia|].
  rewrite s32_small, u32_small by lia. unfold word. lia.
Qed.

Lemma multadd_words_ok x (wds : nat) m a :
  Forall word x → (0 < wds ≤ length x)%nat → 0 ≤ m < 65536 → 0 ≤ a < 65536 →
  ∃ x' a', multadd_words x (Z.of_nat wds) m a = Some (x', a') ∧
    Forall word x' ∧ length x' = length x ∧ 0 ≤ a' < 65536 ∧
    val (take wds x') + weight wds * a' = val (take wds x) * m + a.
Proof.
  intros Hx Hw Hm Ha. unfold multadd_words.
  edestruct (loop_inv (λ '(x', i, a'), ∃ i' : nat, i = Z.of_nat i' ∧ (i' < wds)%nat ∧
      Forall word x' ∧ length x' = length x ∧ 0 ≤ a' < 65536 ∧
      drop i' x' = drop i' x ∧
      val (take i' x') + weight i' * a' = val (take i' x) * m + a)
    (λ '(x', a'), Forall word x' ∧ length x' = length x ∧ 0 ≤ a' < 65536 ∧
      val (take wds x') + weight wds * a' = val (take wds x) * m + a)
    (λ '(_, i, _), Z.of_nat wds - i)) as ([x' a'] & -> & HQ); [| | |by exists x', a'].
  - intros [[x' i] a'] (i' & -> & Hi & Hx' & Hl & Ha' & Hd & E). split; [lia|].
    read_word x' i' w Hw'; [lia|].
    pose proof (lookup_word _ _ _ Hx' Hw') as Bw.
    destruct (multadd_step w m a' Bw Hm Ha') as (Hword & Hcarry & Estep).
    cbv zeta in *.
    set (v := u32 (u32 _ + _)) in *. set (c := s32 _) in *.
    rewrite wr_nat by lia. cbn [mbind option_bind].
    pose proof (drop_rd _ _ _ _ Hd Hw') as Hxw.
    assert (val (take (S i') (<[i':=v]> x')) + weight (S i') * c = val (take (S i') x) * m + a) as E'.
    { rewrite val_take_insert, (val_take_S x i' w), weight_S by (done || lia). nia. }
    assert (Forall word (<[i':=v]> x')) by auto with cint.
    destruct (Z.ltb_spec (Z.of_nat i' + 1) (Z.of_nat wds)).
    + split; [|lia]. exists (S i'). rewrite length_insert.
      split_and!; [lia..|done|done|lia|lia|by apply drop_wr|done].
    + rewrite length_insert. replace wds with (S i') by lia. done.
  - exists 0%nat. rewrite weight_0, !take_0. cbn [val]. split_and!; try done; lia.
  - lia.
Qed.

(** ** mult *)

Lemma zero_words_ok (x : list Z) (n : nat) : Forall word x → (n ≤ length x)%nat →
  ∃ x', zero_words x (Z.of_nat n) = Some x' ∧ Forall word x' ∧ length x' = length x ∧
    take n x' = replicate n 0 ∧ drop n x' = drop n x.
Proof.
  intros Hx Hn. unfold zero_words.
  edestruct (loop_inv (λ '(x', i), ∃ i' : nat, i = Z.of_nat i' ∧ (i' ≤ n)%nat ∧
      Forall word x' ∧ length x' = length x ∧
      take i' x' = replicate i' 0 ∧ drop i' x' = drop i' x)
    (λ x', Forall word x' ∧ length x' = length x ∧
      take n x' = replicate n 0 ∧ drop n x' = drop n x)
    (λ '(_, i), Z.of_nat n - i)) as (x' & -> & HQ); [| | |by exists x'].
  - intros [x' i] (i' & -> & Hi & Hx' & Hl & Ht & Hd). split; [lia|].
    destruct (Z.ltb_spec (Z.of_nat i') (Z.of_nat n)).
    + rewrite wr_nat by lia. cbn [mbind option_bind]. split; [|lia].
      exists (S i'). rewrite length_insert.
      split_and!; [lia..| |done| |by apply drop_wr].
      * apply insert_words; [done|]. unfold word. lia.
      * rewrite (take_S_r _ _ 0) by (apply list_lookup_insert_eq; lia).
        by rewrite take_insert_ge, Ht, <- replicate_cons_app by lia.
    + by replace n with i' by lia.
  - by exists 0%nat; split_and!; [|lia|..].
  - lia.
Qed.

Lemma mult_lo_step x w y carry :
  0 ≤ x < 4294967296 → 0 ≤ w < 4294967296 → 0 ≤ y < 65536 → 0 ≤ carry < 65536 →
  let z := u32 (Z.land x 0xffff * y + Z.land w 0xffff + carry) in
  let z2 := u32 (Z.shiftr x 16 * y + Z.shiftr w 16 + Z.shiftr z 16) in
  0 ≤ Z.shiftr z2 16 < 65536 ∧
  Storeinc z2 z + 4294967296 * Z.shiftr z2 16 = x * y + w + carry.
Proof.
  intros Hx Hw Hy Hc. cbv zeta. rewrite Storeinc_eq, !shr16, !land_ffff.
  destruct (halves x Hx) as (l & h & -> & -> & -> & Hl & Hh).
  destruct (halves w Hw) as (wl & wh & -> & -> & -> & Hwl & Hwh).
  pose proof (muladd_bound l y wl carry Hl Hy Hwl Hc) as Bz.
  rewrite (u32_small (l * y + wl + carry)) by lia.
  destruct (halves (l * y + wl + carry)) as (zl & zh & -> & -> & Ez & Hzl & Hzh); [lia|].
  pose proof (muladd_bound h y wh zh Hh Hy Hwh Hzh) as Bz2.
  rewrite (u32_small (h * y + wh + zh)) by lia.
  destruct (halves (h * y + wh + zh)) as (ul & uh & -> & -> & Eu & Hul & Huh); lia.
Qed.

Lemma mult_lo_ok xa (wa : nat) y c (j : nat) :
  Forall word xa → (0 < wa ≤ length xa)%nat → 0 ≤ y < 65536 →
  Forall word c → c !! (j + wa)%nat = Some 0 →
  ∃ c' u, mult_lo xa (Z.of_nat wa) y c (Z.of_nat j) = Some c' ∧
    Forall word c' ∧ length c' = length c ∧ drop (S (j + wa)) c' = drop (S (j + wa)) c ∧
    c' !! (j + wa)%nat = Some u ∧ 0 ≤ u < 65536 ∧
    val c' = val c + y * weight j * val (take wa xa).
Proof.
  intros Hxa Hwa Hy Hc H0. pose proof (lookup_lt_Some _ _ _ H0) as Hlen. unfold mult_lo.
  edestruct (loop_inv (λ '(c', i, carry), ∃ i' : nat, i = Z.of_nat i' ∧ (i' < wa)%nat ∧
      Forall word c' ∧ length c' = length c ∧ 0 ≤ carry < 65536 ∧
      drop (j + i') c' = drop (j + i') c ∧
      val c' + weight (j + i') * carry = val c + y * weight j * val (take i' xa))
    (λ '(c', xc, carry), xc = Z.of_nat (j + wa) ∧ Forall word c' ∧ length c' = length c ∧
      0 ≤ carry < 65536 ∧ drop (j + wa) c' = drop (j + wa) c ∧
      val c' + weight (j + wa) * carry = val c + y * weight j * val (take wa xa))
    (λ '(_, i, _), Z.of_nat wa - i)) as ([[c' xc] carry] & -> & HQ).
  - intros [[c' i] carry] (i' & -> & Hi & Hc' & Hl & Hcarry & Hd & E). split; [lia|].
    read_word xa i' x Hx; [lia|].
    rewrite <- Nat2Z.inj_add.
    read_word c' (j + i')%nat w Hw; [lia|].
    destruct (mult_lo_step x w y carry) as [Bc Estep];
      [eauto using lookup_word..|done|done|].
    cbv zeta in *. set (z := u32 (_ * y + Z.land _ _ + _)) in *.
    set (z2 := u32 (_ + Z.shiftr z 16)) in *.
    rewrite wr_nat by lia. cbn [mbind option_bind].
    assert (val (<[(j + i')%nat := Storeinc z2 z]> c') + weight (S (j + i')) * Z.shiftr z2 16
      = val c + y * weight j * val (take (S i') xa)) as E'.
    { rewrite (val_insert _ _ _ w), (val_take_S xa i' x), weight_S by done.
      rewrite weight_add in *. nia. }
    destruct (Z.ltb_spec (Z.of_nat i' + 1) (Z.of_nat wa)).
    + split; [|lia]. exists (S i'). rewrite length_insert, Nat.add_succ_r.
      split_and!; [lia..|auto with cint|done|lia|lia|by apply drop_wr|done].
    + replace wa with (S i') by lia. rewrite length_insert, Nat.add_succ_r.
      split_and!; [lia|auto with cint|done|lia|lia|by apply drop_wr|done].
  - exists 0%nat. rewrite Nat.add_0_r, take_0. cbn [val]. split_and!; (done || lia).
  - lia.
  - destruct HQ as (-> & Hc' & Hl & Hcarry & Hd & E). cbn [mbind option_bind].
    rewrite wr_nat by lia.
    eexists _, carry. split; [done|]. rewrite length_insert.
    split_and!; [|done|by apply drop_wr|apply list_lookup_insert_eq; lia|lia..|].
    + apply insert_words; [done|]. unfold word. lia.
    + rewrite (val_insert _ _ _ 0); [lia|]. by apply (drop_rd c).
Qed.

Lemma mult_hi_step x w w1 y carry z2 :
  0 ≤ x < 4294967296 → 0 ≤ w < 4294967296 → 0 ≤ w1 < 4294967296 →
  0 ≤ y < 65536 → 0 ≤ carry < 65536 →
  let z := u32 (Z.land x 0xffff * y + Z.shiftr w 16 + carry) in
  let z2' := u32 (Z.shiftr x 16 * y + Z.land w1 0xffff + Z.shiftr z 16) in
  word z2' ∧ 0 ≤ Z.shiftr z2' 16 < 65536 ∧ z2' mod 65536 + 65536 * Z.shiftr z2' 16 = z2' ∧
  Storeinc z z2 - w + 4294967296 * (z2' - w1 mod 65536)
    = 65536 * y * x + (z2 mod 65536 + 65536 * carry - w mod 65536).
Proof.
  intros Hx Hw Hw1 Hy Hc. cbv zeta. rewrite Storeinc_eq, !shr16, !land_ffff.
  destruct (halves x Hx) as (l & h & -> & -> & -> & Hl & Hh).
  destruct (halves w Hw) as (wl & wh & -> & -> & -> & Hwl & Hwh).
  destruct (halves w1 Hw1) as (vl & vh & -> & _ & -> & Hvl & Hvh).
  pose proof (muladd_bound l y wh carry Hl Hy Hwh Hc) as Bz.
  rewrite (u32_small (l * y + wh + carry)) by lia.
  destruct (halves (l * y + wh + carry)) as (zl & zh & -> & -> & Ez & Hzl & Hzh); [lia|].
  pose proof (muladd_bound h y vl zh Hh Hy Hvl Hzh) as Bz2.
  rewrite (u32_small (h * y + vl + zh)) by lia.
  destruct (halves (h * y + vl + zh)) as (ul & uh & Eul & Euh & Eu & Hul & Huh); [lia|].
  rewrite Eul, Euh. unfold word. lia.
Qed.

Lemma mult_hi_ok xa (wa : nat) y c (j : nat) u :
  Forall word xa → (0 < wa ≤ length xa)%nat → 0 ≤ y < 65536 →
  Forall word c → c !! (j + wa)%nat = Some u → 0 ≤ u < 65536 →
  ∃ c', mult_hi xa (Z.of_nat wa) y c (Z.of_nat j) = Some c' ∧
    Forall word c' ∧ length c' = length c ∧ drop (S (j + wa)) c' = drop (S (j + wa)) c ∧
    val c' = val c + 65536 * y * weight j * val (take wa xa).
Proof.
  intros Hxa Hwa Hy Hc Hu Bu. pose proof (lookup_lt_Some _ _ _ Hu) as Hlen. unfold mult_hi.
  read_word c j w0 Hw0; [lia|].
  edestruct (loop_inv (λ '(c', i, carry, z2), ∃ (i' : nat) w, i = Z.of_nat i' ∧ (i' < wa)%nat ∧
      Forall word c' ∧ length c' = length c ∧ 0 ≤ carry < 65536 ∧
      drop (j + i') c' = drop (j + i') c ∧ c' !! (j + i')%nat = Some w ∧
      val c' + weight (j + i') * (z2 mod 65536 + 65536 * carry - w mod 65536)
        = val c + 65536 * y * weight j * val (take i' xa))
    (λ '(c', xc, z2), xc = Z.of_nat (j + wa) ∧ word z2 ∧ Forall word c' ∧ length c' = length c ∧
      drop (j + wa) c' = drop (j + wa) c ∧
      val c' + weight (j + wa) * (z2 - u) = val c + 65536 * y * weight j * val (take wa xa))
    (λ '(_, i, _, _), Z.of_nat wa - i)) as ([[c' xc] z2] & -> & HQ).
  - intros [[[c' i] carry] z2] (i' & w & -> & Hi & Hc' & Hl & Hcarry & Hd & Hw & E). split; [lia|].
    read_word xa i' x Hx; [lia|].
    rewrite <- Nat2Z.inj_add, (rd_nat _ _ _ Hw). cbn [mbind option_bind].
    rewrite wr_nat by lia. cbn [mbind option_bind].
    set (z := u32 (_ * y + Z.shiftr w _ + _)).
    replace (Z.of_nat (j + i') + 1) with (Z.of_nat (S (j + i'))) by lia.
    destruct (lookup_lt_is_Some_2 c' (S (j + i'))) as [w1 Hw1]; [lia|].
    rewrite (rd_nat _ _ w1) by (rewrite list_lookup_insert_ne by lia; done).
    cbn [mbind option_bind].
    destruct (mult_hi_step x w w1 y carry z2) as (Wz2 & Bc & Ez2 & Estep);
      [eauto using lookup_word..|done|done|].
    cbv zeta in *. fold z in Wz2, Bc, Ez2, Estep |- *. set (z2' := u32 (_ + Z.shiftr z 16)) in *.
    assert (val (<[(j + i')%nat := Storeinc z z2]> c') + weight (S (j + i')) * (z2' - w1 mod 65536)
      = val c + 65536 * y * weight j * val (take (S i') xa)) as E'.
    { rewrite (val_insert _ _ _ w), (val_take_S xa i' x), weight_S by done.
      rewrite weight_add in *. nia. }
    pose proof (drop_wr c' c (j + i') (Storeinc z z2) Hd) as Hd'.
    assert (<[(j + i')%nat := Storeinc z z2]> c' !! S (j + i') = Some w1) as Hw1'
      by (rewrite list_lookup_insert_ne by lia; done).
    destruct (Z.ltb_spec (Z.of_nat i' + 1) (Z.of_nat wa)).
    + split; [|lia]. exists (S i'), w1. rewrite length_insert, Nat.add_succ_r.
      split_and!; [lia..|auto with cint|done|lia|lia|done|done|]. rewrite Ez2. done.
    + replace wa with (S i') in * by lia. rewrite length_insert, Nat.add_succ_r in *.
      pose proof (drop_rd _ _ _ _ Hd' Hw1') as Hu'. assert (w1 = u) as -> by congruence.
      rewrite (Z.mod_small u) in E' by lia.
      split_and!; [lia|done|auto with cint|done|done|done].
  - exists 0%nat, w0. rewrite Nat.add_0_r, take_0. cbn [val]. split_and!; (done || lia).
  - lia.
  - destruct HQ as (-> & Wz & Hc' & Hl & Hd & E). cbn [mbind option_bind].
    rewrite wr_nat by lia. eexists. split; [done|]. rewrite length_insert.
    split_and!; [auto with cint|done|by apply drop_wr|].
    rewrite (val_insert _ _ _ u); [lia|]. by apply (drop_rd c).
Qed.

(** A row of the product: word [w] of [b] at position [j]. *)
Lemma mult_row_ok xa (wa : nat) w c (j : nat) :
  Forall word xa → (0 < wa ≤ length xa)%nat → 0 ≤ w < 4294967296 →
  Forall word c → c !! (j + wa)%nat = Some 0 →
  ∃ c', (c ← (if truth (Z.land w 0xffff) then mult_lo xa (Z.of_nat wa) (Z.land w 0xffff) c (Z.of_nat j)
              else Some c);
         if truth (Z.shiftr w 16) then mult_hi xa (Z.of_nat wa) (Z.shiftr w 16) c (Z.of_nat j)
         else Some c) = Some c' ∧
    Forall word c' ∧ length c' = length c ∧ drop (S (j + wa)) c' = drop (S (j + wa)) c ∧
    val c' = val c + w * weight j * val (take wa xa).
Proof.
  intros Hxa Hwa Hw Hc H0. rewrite land_ffff, shr16.
  destruct (halves w Hw) as (l & h & -> & -> & -> & Hl & Hh).
  assert (∃ c1 u, (if truth l then mult_lo xa (Z.of_nat wa) l c (Z.of_nat j) else Some c) = Some c1 ∧
    Forall word c1 ∧ length c1 = length c ∧ drop (S (j + wa)) c1 = drop (S (j + wa)) c ∧
    c1 !! (j + wa)%nat = Some u ∧ 0 ≤ u < 65536 ∧
    val c1 = val c + l * weight j * val (take wa xa)) as (c1 & u & -> & Hc1 & Hl1 & Hd1 & Hu & Bu & E1).
  { destruct (truth l) eqn:Hlz; [by apply mult_lo_ok|].
    apply truth_false in Hlz as ->. exists c, 0. split_and!; (done || lia). }
  cbn [mbind option_bind]. destruct (truth h) eqn:Hhz.
  - destruct (mult_hi_ok xa wa h c1 j u) as (c2 & -> & Hc2 & Hl2 & Hd2 & E2); [done..|].
    exists c2. split_and!; [done|done|congruence|congruence|]. rewrite E2, E1. ring.
  - apply truth_false in Hhz as ->. exists c1. split_and!; [done..|]. rewrite E1. ring.
Qed.

Lemma mult_words_ok xa (wa : nat) xb (wb : nat) c :
  Forall word xa → (0 < wa ≤ length xa)%nat → Forall word xb → (wb ≤ length xb)%nat →
  Forall word c → (wa + wb ≤ length c)%nat → take (wa + wb) c = replicate (wa + wb) 0 →
  ∃ c', mult_words xa (Z.of_nat wa) xb (Z.of_nat wb) c = Some c' ∧
    Forall word c' ∧ length c' = length c ∧
    val (take (wa + wb) c') = val (take wa xa) * val (take wb xb).
Proof.
  intros Hxa Hwa Hxb Hwb Hc Hlen Hz. unfold mult_words.
  assert (∀ i, (i < wa + wb)%nat → c !! i = Some 0) as Hzero.
  { intros i Hi. rewrite <- (lookup_take_lt c (wa + wb)), Hz by done. by apply lookup_replicate. }
  edestruct (loop_inv (λ '(c', j), ∃ j' : nat, j = Z.of_nat j' ∧ (j' ≤ wb)%nat ∧
      Forall word c' ∧ length c' = length c ∧ drop (j' + wa) c' = drop (j' + wa) c ∧
      val c' = val c + val (take j' xb) * val (take wa xa))
    (λ c', Forall word c' ∧ length c' = length c ∧ drop (wb + wa) c' = drop (wb + wa) c ∧
      val c' = val c + val (take wb xb) * val (take wa xa))
    (λ '(_, j), Z.of_nat wb - j)) as (c' & -> & Hc' & Hl' & Hd' & E').
  - intros [c' j] (j' & -> & Hj & Hc' & Hl & Hd & E). split; [lia|].
    destruct (Z.ltb_spec (Z.of_nat j') (Z.of_nat wb)).
    + read_word xb j' w Hw; [lia|].
      destruct (mult_row_ok xa wa w c' j') as (c2 & E2 & Hc2 & Hl2 & Hd2 & V2);
        [eauto using lookup_word..|done| |].
      { symmetry in Hd. apply (drop_rd _ _ _ _ Hd). apply Hzero. lia. }
      cbv zeta. destruct (if truth (Z.land w 65535) then _ else _) as [c1|]; [|done].
      cbn [mbind option_bind] in E2 |- *. rewrite E2. cbn [mbind option_bind].
      split; [|lia]. exists (S j').
      split_and!; [lia|lia|done|lia| |].
      * cbn [Nat.add]. rewrite Hd2. by apply drop_S_eq.
      * rewrite V2, (val_take_S _ _ w), E by done. ring.
    + by replace wb with j' by lia.
  - exists 0%nat. rewrite take_0. cbn [val]. split_and!; (done || lia).
  - lia.
  - exists c'. split_and!; [done..|].
    pose proof (val_take_drop (wa + wb) c ltac:(lia)) as Ec.
    pose proof (val_take_drop (wa + wb) c' ltac:(lia)) as Ec'.
    rewrite Hz, val_replicate_0 in Ec. rewrite (Nat.add_comm wb wa) in *.
    rewrite Hd' in Ec'. lia.
Qed.

(** [trim] leaves no zero word at the top. *)
Lemma trim_ok x (n : nat) : (n ≤ length x)%nat →
  ∃ n' : nat, trim x (Z.of_nat n) = Some (Z.of_nat n') ∧ (n' ≤ n)%nat ∧
    val (take n' x) = val (take n x) ∧ (n' = 0%nat ∨ ∃ w, x !! (n' - 1)%nat = Some w ∧ w ≠ 0).
Proof.
  intros Hn. unfold trim.
  edestruct (loop_inv (λ z, ∃ n' : nat, z = Z.of_nat n' ∧ (n' ≤ n)%nat ∧
      val (take n' x) = val (take n x))
    (λ z, ∃ n' : nat, z = Z.of_nat n' ∧ (n' ≤ n)%nat ∧ val (take n' x) = val (take n x) ∧
      (n' = 0%nat ∨ ∃ w, x !! (n' - 1)%nat = Some w ∧ w ≠ 0)) (λ z, z))
    as (z & -> & n' & -> & HQ); [| | |by exists n'].
  - intros z (n' & -> & Hn' & E). split; [lia|].
    destruct (Z.ltb_spec 0 (Z.of_nat n')) as [Hpos|]; [|exists n'; split_and!; [done..|lia]].
    destruct n' as [|n']; [lia|].
    replace (Z.of_nat (S n') - 1) with (Z.of_nat n') by lia.
    read_word x n' w Hw; [lia|]. destruct (Z.eqb_spec w 0) as [->|Hne].
    + split; [|lia]. exists n'. split_and!; [done|lia|].
      rewrite <- E, (val_take_S x n' 0) by done. lia.
    + exists (S n'). split_and!; [done..|]. right. exists w.
      by replace (S n' - 1)%nat with n' by lia.
  - by exists n.
  - lia.
Qed.

(** ** lshift *)

Lemma shift_step w k z : 0 ≤ w < 4294967296 → 0 < k < 32 → 0 ≤ z < 2 ^ k →
  word (Z.lor (u32 (Z.shiftl w k)) z) ∧ 0 ≤ Z.shiftr w (32 - k) < 2 ^ k ∧
  Z.lor (u32 (Z.shiftl w k)) z + 4294967296 * Z.shiftr w (32 - k) = 2 ^ k * w + z.
Proof.
  intros Hw Hk Hz.
  assert (4294967296 = 2 ^ (32 - k) * 2 ^ k) as Ep.
  { rewrite <- Z.pow_add_r by lia. by replace (32 - k + k) with 32 by lia. }
  assert (u32 (Z.shiftl w k) = Z.shiftl (w mod 2 ^ (32 - k)) k) as ->.
  { rewrite !Z.shiftl_mul_pow2 by lia. unfold wrapu. change (2 ^ 32) with 4294967296.
    rewrite Ep, Zmult_mod_distr_r. done. }
  rewrite lor_disjoint, Z.shiftr_div_pow2 by lia.
  pose proof (Z.div_mod w (2 ^ (32 - k))) as Ed.
  pose proof (Z.mod_pos_bound w (2 ^ (32 - k)) ltac:(lia)) as Bm.
  set (q := w / _) in *. set (r := w mod _) in *.
  assert (0 ≤ q < 2 ^ k) by nia. unfold word. change (2 ^ 32) with 4294967296.
  split_and!; [nia|nia|lia|lia|nia].
Qed.

Lemma lshift_bits_ok x (wds : nat) k x1 (n : nat) :
  Forall word x → (0 < wds ≤ length x)%nat → 0 < k < 32 →
  Forall word x1 → (n + wds < length x1)%nat →
  ∃ x1' z, lshift_bits x (Z.of_nat wds) k x1 (Z.of_nat n) = Some (x1', z) ∧
    Forall word x1' ∧ length x1' = length x1 ∧ x1' !! (n + wds)%nat = Some z ∧
    val (take (n + wds) x1') + weight (n + wds) * z
      = val (take n x1) + weight n * (2 ^ k * val (take wds x)).
Proof.
  intros Hx Hw Hk Hx1 Hlen. unfold lshift_bits.
  edestruct (loop_inv (λ '(x1', i, z), ∃ i' : nat, i = Z.of_nat i' ∧ (i' < wds)%nat ∧
      Forall word x1' ∧ length x1' = length x1 ∧ 0 ≤ z < 2 ^ k ∧
      val (take (n + i') x1') + weight (n + i') * z
        = val (take n x1) + weight n * (2 ^ k * val (take i' x)))
    (λ '(x1', i, z), i = Z.of_nat (n + wds) ∧
      Forall word x1' ∧ length x1' = length x1 ∧ 0 ≤ z < 2 ^ k ∧
      val (take (n + wds) x1') + weight (n + wds) * z
        = val (take n x1) + weight n * (2 ^ k * val (take wds x)))
    (λ '(_, i, _), Z.of_nat wds - i)) as ([[x1' i] z] & -> & HQ).
  - intros [[x1' i] z] (i' & -> & Hi & Hx1' & Hl & Bz & E). split; [lia|].
    read_word x i' w Hw'; [lia|].
    destruct (shift_step w k z) as (Wv & Bz' & Ev); [eauto using lookup_word|done..|].
    set (v := Z.lor _ _) in *. set (z' := Z.shiftr _ _) in *.
    rewrite <- Nat2Z.inj_add, wr_nat by lia. cbn [mbind option_bind]. cbv zeta.
    assert (val (take (S (n + i')) (<[(n + i')%nat := v]> x1')) + weight (S (n + i')) * z'
      = val (take n x1) + weight n * (2 ^ k * val (take (S i') x))) as E'.
    { rewrite val_take_insert, (val_take_S x i' w), weight_S by (done || lia).
      rewrite !weight_add in *. nia. }
    destruct (Z.ltb_spec (Z.of_nat i' + 1) (Z.of_nat wds)).
    + split; [|lia]. exists (S i'). rewrite length_insert, Nat.add_succ_r.
      split_and!; [lia..|auto with cint|done|lia|lia|done].
    + replace wds with (S i') by lia. rewrite length_insert, Nat.add_succ_r.
      split_and!; [lia..|auto with cint|done|lia|lia|done].
  - exists 0%nat. rewrite Nat.add_0_r, take_0. cbn [val]. split_and!; (done || lia).
  - lia.
  - destruct HQ as (-> & Hx1' & Hl & Bz & E). cbn [mbind option_bind].
    rewrite wr_nat by lia. cbn [mbind option_bind]. eexists _, z. split; [done|].
    rewrite length_insert, take_insert_ge by lia.
    split_and!; [|done|apply list_lookup_insert_eq; lia|done].
    apply insert_words; [done|]. pose proof (Z.pow_lt_mono_r 2 k 32). unfold word. lia.
Qed.

Lemma lshift_copy_ok x (wds : nat) x1 (n : nat) :
  Forall word x → (0 < wds ≤ length x)%nat → Forall word x1 → (n + wds ≤ length x1)%nat →
  ∃ x1', lshift_copy x (Z.of_nat wds) x1 (Z.of_nat n) = Some x1' ∧
    Forall word x1' ∧ length x1' = length x1 ∧
    (∀ w, x !! (wds - 1)%nat = Some w → x1' !! (n + wds - 1)%nat = Some w) ∧
    val (take (n + wds) x1') = val (take n x1) + weight n * val (take wds x).
Proof.
  intros Hx Hw Hx1 Hlen. unfold lshift_copy.
  edestruct (loop_inv (λ '(x1', i), ∃ i' : nat, i = Z.of_nat i' ∧ (i' < wds)%nat ∧
      Forall word x1' ∧ length x1' = length x1 ∧
      val (take (n + i') x1') = val (take n x1) + weight n * val (take i' x))
    (λ x1', Forall word x1' ∧ length x1' = length x1 ∧
      (∀ w, x !! (wds - 1)%nat = Some w → x1' !! (n + wds - 1)%nat = Some w) ∧
      val (take (n + wds) x1') = val (take n x1) + weight n * val (take wds x))
    (λ '(_, i), Z.of_nat wds - i)) as (x1' & -> & HQ); [| | |by exists x1'].
  - intros [x1' i] (i' & -> & Hi & Hx1' & Hl & E). split; [lia|].
    read_word x i' w Hw'; [lia|].
    rewrite <- Nat2Z.inj_add, wr_nat by lia. cbn [mbind option_bind]. cbv zeta.
    assert (val (take (S (n + i')) (<[(n + i')%nat := w]> x1'))
      = val (take n x1) + weight n * val (take (S i') x)) as E'.
    { rewrite val_take_insert, (val_take_S x i' w), weight_add by (done || lia). lia. }
    assert (Forall word (<[(n + i')%nat := w]> x1')).
    { apply insert_words; [done|]. by apply (Forall_lookup_1 _ _ _ _ Hx Hw'). }
    destruct (Z.ltb_spec (Z.of_nat i' + 1) (Z.of_nat wds)).
    + split; [|lia]. exists (S i'). rewrite length_insert, Nat.add_succ_r.
      split_and!; (done || lia).
    + replace wds with (S i') by lia. rewrite length_insert, Nat.add_succ_r.
      split_and!; [done..| |done].
      intros w'. cbn [Nat.sub]. rewrite !Nat.sub_0_r, Hw'. intros [= <-].
      apply list_lookup_insert_eq. lia.
  - exists 0%nat. rewrite Nat.add_0_r, take_0. cbn [val]. split_and!; (done || lia).
  - lia.
Qed.

(** The free list index found for [n1] words: the smallest that has room. *)
Lemma lshift_k_ok n1 k : 0 ≤ k ≤ 30 → n1 ≤ 2 ^ 30 →
  ∃ k1, lshift_k n1 (2 ^ k) k = Some k1 ∧ k ≤ k1 ≤ 30 ∧ n1 ≤ 2 ^ k1.
Proof.
  intros Hk Hn. unfold lshift_k.
  edestruct (loop_inv (λ '(i, k1), i = 2 ^ k1 ∧ k ≤ k1 ≤ 30)
    (λ k1, k ≤ k1 ≤ 30 ∧ n1 ≤ 2 ^ k1) (λ '(_, k1), 30 - k1)) as (k1 & -> & HQ);
    [| |lia|by exists k1].
  - intros [i k1] [-> Hk1]. split; [lia|].
    destruct (Z.ltb_spec (2 ^ k1) n1); [|lia].
    assert (k1 < 30) by (destruct (decide (k1 = 30)) as [->|]; lia).
    pose proof (Z.pow_le_mono_r 2 (k1 + 1) 30).
    rewrite Z.shiftl_mul_pow2 by lia. change (2 ^ 1) with 2.
    rewrite Z.pow_add_r in * by lia. change (2 ^ 1) with 2 in *.
    rewrite s32_small by (change (2 ^ 30) with 1073741824 in *; lia). lia.
  - split; [done|lia].
Qed.

(** ** cmp and diff *)

Lemma cmp_words_ok xa xb (j : nat) :
  Forall word xa → Forall word xb → (0 < j ≤ length xa)%nat → (j ≤ length xb)%nat →
  cmp_words xa xb (Z.of_nat j) = Some (Z.sgn (val (take j xa) - val (take j xb))).
Proof.
  intros Ha Hb Hj Hjb. unfold cmp_words.
  apply (loop_inv_eq (λ z, ∃ i : nat, z = Z.of_nat i ∧ (0 < i ≤ j)%nat ∧
    val (take j xa) - val (take j xb) = val (take i xa) - val (take i xb)) _ (λ z, z));
    [|exists j; split_and!; (done || lia)|lia].
  intros z (i & -> & Hi & ->). split; [lia|]. destruct i as [|i]; [lia|].
  replace (Z.of_nat (S i) - 1) with (Z.of_nat i) by lia.
  read_word xa i a Ea; [lia|]. read_word xb i b Eb; [lia|].
  rewrite (val_take_S xa i a), (val_take_S xb i b) by done.
  destruct (Z.eqb_spec a b) as [->|Hab]; cbn [negb].
  - destruct (Z.leb_spec (Z.of_nat i) 0).
    + assert (i = 0%nat) as -> by lia. rewrite !take_0. f_equal. cbn [val]. lia.
    + split; [|lia]. exists i. split_and!; lia.
  - pose proof (val_bound (take i xa) (Forall_take _ _ _ Ha)) as Ba.
    pose proof (val_bound (take i xb) (Forall_take _ _ _ Hb)) as Bb.
    rewrite length_take_le in Ba, Bb by lia. f_equal.
    destruct (Z.ltb_spec a b); symmetry; [apply Z.sgn_neg|apply Z.sgn_pos]; nia.
Qed.

(** Word [n-1] is the top: it is not zero, unless it is the only one. *)
Definition normal (n : nat) (x : list Z) : Prop :=
  n = 1%nat ∨ ∃ w, x !! (n - 1)%nat = Some w ∧ w ≠ 0.

(** [b] holds the number [v], in normal form. *)
Definition num (b : Bigint) (v : Z) : Prop :=
  ∃ n : nat, _wds b = Z.of_nat n ∧ (0 < n ≤ length (_x b))%nat ∧
    Forall word (_x b) ∧ normal n (_x b) ∧ val (take n (_x b)) = v.

Lemma num_nonneg b v : num b v → 0 ≤ v.
Proof. intros (n & _ & _ & Hx & _ & <-). pose proof (val_bound _ (Forall_take _ n _ Hx)). lia. Qed.

(** A number that has a nonzero top word is at least its weight. *)
Lemma val_top (x : list Z) n w : Forall word x → x !! n = Some w → w ≠ 0 →
  weight n ≤ val (take (S n) x) < weight (S n).
Proof.
  intros Hx Hw H0. pose proof (lookup_lt_Some _ _ _ Hw).
  pose proof (lookup_word _ _ _ Hx Hw).
  pose proof (val_bound _ (Forall_take _ (S n) _ Hx)) as B. rewrite length_take_le in B by lia.
  pose proof (val_bound _ (Forall_take _ n _ Hx)) as B'.
  rewrite (val_take_S _ _ _ Hw) in *. pose proof (weight_pos n). nia.
Qed.

(** The top word of a positive number is not zero. *)
Lemma top_word x (n : nat) : Forall word x → (n < length x)%nat → normal (S n) x →
  0 < val (take (S n) x) → ∃ w, x !! n = Some w ∧ 0 < w < 2 ^ 32.
Proof.
  intros Hx Hn Hnorm Hv. destruct (lookup_lt_is_Some_2 x n Hn) as [w Hw]. exists w. split; [done|].
  pose proof (lookup_word _ _ _ Hx Hw). cut (w ≠ 0); [lia|]. intros ->.
  destruct Hnorm as [[= ->]|(w' & Hw' & H0)].
  - rewrite (val_take_S _ _ 0), take_0 in Hv by done. cbn [val] in Hv. lia.
  - cbn [Nat.sub] in Hw'. rewrite Nat.sub_0_r in Hw'. congruence.
Qed.

Lemma weight_mono m n : (m ≤ n)%nat → weight m ≤ weight n.
Proof. intros. unfold weight. apply Z.pow_le_mono_r; lia. Qed.

Lemma more_words_lt xa na xb nb : Forall word xa → Forall word xb →
  (nb < na ≤ length xa)%nat → (0 < nb ≤ length xb)%nat → normal na xa →
  val (take nb xb) < val (take na xa).
Proof.
  intros Ha Hb Hna Hnb [->|(w & Hw & H0)]; [lia|].
  destruct na as [|na]; [lia|]. cbn [Nat.sub] in Hw. rewrite Nat.sub_0_r in Hw.
  pose proof (val_top xa na w Ha Hw H0).
  pose proof (val_bound _ (Forall_take _ nb _ Hb)) as B. rewrite length_take_le in B by lia.
  pose proof (weight_mono nb na). lia.
Qed.

Lemma cmp_big_ok a b va vb : num a va → num b vb →
  ∃ r, cmp_big a b = Some r ∧ Z.sgn r = Z.sgn (va - vb).
Proof.
  intros (na & Ea & Hna & Ha & Na & <-) (nb & Eb & Hnb & Hb & Nb & <-).
  unfold cmp_big. rewrite Ea, Eb. destruct (truth _) eqn:Ht.
  - apply truth_true in Ht. eexists. split; [done|].
    destruct (decide (nb < na)%nat).
    + pose proof (more_words_lt (_x a) na (_x b) nb). rewrite !Z.sgn_pos; lia || (try done).
      assert (val (take nb (_x b)) < val (take na (_x a))) by auto with lia. lia.
    + assert (val (take na (_x a)) < val (take nb (_x b))).
      { apply more_words_lt; (done || lia). }
      rewrite !Z.sgn_neg; lia.
  - apply truth_false in Ht. assert (na = nb) as -> by lia.
    rewrite cmp_words_ok by (done || lia). eexists. split; [done|].
    by destruct (val (take nb (_x a)) - val (take nb (_x b))).
Qed.

Lemma diff_word_ok a b borrow :
  0 ≤ a < 4294967296 → 0 ≤ b < 4294967296 → -1 ≤ borrow ≤ 0 →
  word (diff_word a b borrow).1 ∧ -1 ≤ (diff_word a b borrow).2 ≤ 0 ∧
  (diff_word a b borrow).1 + 4294967296 * (diff_word a b borrow).2 = a - b + borrow.
Proof.
  intros Ha Hb Hr. unfold diff_word. cbn [fst snd]. split; [apply Storeinc_word|].
  rewrite Storeinc_eq, !shr16, !land_ffff.
  destruct (halves a Ha) as (al & ah & -> & -> & -> & Hal & Hah).
  destruct (halves b Hb) as (bl & bh & -> & -> & -> & Hbl & Hbh).
  rewrite (s32_small (al - bl + borrow)) by lia.
  set (y := al - bl + borrow). pose proof (Z.div_mod y 65536). pose proof (Z.mod_pos_bound y 65536).
  assert (-1 ≤ y / 65536 ≤ 0) by lia.
  rewrite (s32_small (ah - bh + y / 65536)) by lia.
  set (z := ah - bh + y / 65536). pose proof (Z.div_mod z 65536).
  pose proof (Z.mod_pos_bound z 65536). lia.
Qed.

(** The subtraction of the words; the borrow out of the top is the sign. *)
Lemma diff_words_ok xa (wa : nat) xb (wb : nat) c :
  Forall word xa → Forall word xb → Forall word c →
  (wb ≤ wa ≤ length xa)%nat → (0 < wb ≤ length xb)%nat → (wa ≤ length c)%nat →
  val (take wb xb) ≤ val (take wa xa) →
  ∃ c', diff_words xa (Z.of_nat wa) xb (Z.of_nat wb) c = Some c' ∧
    Forall word c' ∧ length c' = length c ∧
    val (take wa c') = val (take wa xa) - val (take wb xb).
Proof.
  intros Ha Hb Hc Hwa Hwb Hlen Hle. unfold diff_words.
  edestruct (loop_inv (λ '(c', i, r), ∃ i' : nat, i = Z.of_nat i' ∧ (i' < wb)%nat ∧
      Forall word c' ∧ length c' = length c ∧ -1 ≤ r ≤ 0 ∧
      val (take i' c') + weight i' * r = val (take i' xa) - val (take i' xb))
    (λ '(c', i, r), i = Z.of_nat wb ∧ Forall word c' ∧ length c' = length c ∧ -1 ≤ r ≤ 0 ∧
      val (take wb c') + weight wb * r = val (take wb xa) - val (take wb xb))
    (λ '(_, i, _), Z.of_nat wb - i)) as ([[c1 i1] r1] & -> & HQ).
  - intros [[c' i] r] (i' & -> & Hi & Hc' & Hl & Br & E). split; [lia|].
    read_word xa i' a Ea; [lia|]. read_word xb i' b Eb; [lia|].
    destruct (diff_word_ok a b r) as (Ww & Br' & Ew); [eauto using lookup_word..|done|].
    destruct (diff_word a b r) as [w r']. cbn [fst snd] in *.
    rewrite wr_nat by lia. cbn [mbind option_bind]. cbv zeta.
    assert (val (take (S i') (<[i' := w]> c')) + weight (S i') * r'
      = val (take (S i') xa) - val (take (S i') xb)) as E'.
    { rewrite val_take_insert, (val_take_S xa i' a), (val_take_S xb i' b), weight_S by (done || lia).
      nia. }
    destruct (Z.ltb_spec (Z.of_nat i' + 1) (Z.of_nat wb)).
    + split; [|lia]. exists (S i'). rewrite length_insert.
      split_and!; (done || lia || auto with cint).
    + replace wb with (S i') by lia. rewrite length_insert.
      split_and!; (done || lia || auto with cint).
  - exists 0%nat. rewrite !take_0. cbn [val]. split_and!; (done || lia).
  - lia.
  - destruct HQ as (-> & Hc1 & Hl1 & Br1 & E1). cbn [mbind option_bind].
    edestruct (loop_inv (λ '(c', i, r), ∃ i' : nat, i = Z.of_nat i' ∧ (wb ≤ i' ≤ wa)%nat ∧
        Forall word c' ∧ length c' = length c ∧ -1 ≤ r ≤ 0 ∧
        val (take i' c') + weight i' * r = val (take i' xa) - val (take wb xb))
      (λ c', Forall word c' ∧ length c' = length c ∧
        val (take wa c') = val (take wa xa) - val (take wb xb))
      (λ '(_, i, _), Z.of_nat wa - i)) as (c2 & -> & HQ); [| | |by exists c2].
    + intros [[c' i] r] (i' & -> & Hi & Hc' & Hl & Br & E). split; [lia|].
      destruct (Z.ltb_spec (Z.of_nat i') (Z.of_nat wa)).
      * read_word xa i' a Ea; [lia|].
        destruct (diff_word_ok a 0 r) as (Ww & Br' & Ew); [eauto using lookup_word|lia|done|].
        destruct (diff_word a 0 r) as [w r']. cbn [fst snd] in *.
        rewrite wr_nat by lia. cbn [mbind option_bind]. split; [|lia].
        exists (S i'). rewrite length_insert. split_and!; [lia..|auto with cint|done|lia|lia|].
        rewrite val_take_insert, (val_take_S xa i' a), weight_S by (done || lia). nia.
      * assert (i' = wa) as -> by lia. split_and!; [done..|].
        pose proof (val_bound _ (Forall_take _ wa _ Hc')) as B. rewrite length_take_le in B by lia.
        assert (r = 0) as -> by nia. lia.
    + exists wb. split_and!; (done || lia).
    + lia.
Qed.

Lemma diff_trim_ok x (n : nat) : Forall word x → (0 < n ≤ length x)%nat → val (take n x) ≠ 0 →
  ∃ n' : nat, diff_trim x (Z.of_nat n) = Some (Z.of_nat n') ∧ (0 < n' ≤ n)%nat ∧
    val (take n' x) = val (take n x) ∧ normal n' x.
Proof.
  intros Hx Hn H0. unfold diff_trim.
  edestruct (loop_inv (λ z, ∃ n' : nat, z = Z.of_nat n' ∧ (0 < n' ≤ n)%nat ∧
      val (take n' x) = val (take n x))
    (λ z, ∃ n' : nat, z = Z.of_nat n' ∧ (0 < n' ≤ n)%nat ∧ val (take n' x) = val (take n x) ∧
      normal n' x) (λ z, z))
    as (z & -> & n' & -> & HQ); [| | |by exists n'].
  - intros z (n' & -> & Hn' & E). split; [lia|].
    destruct n' as [|n']; [lia|].
    replace (Z.of_nat (S n') - 1) with (Z.of_nat n') by lia.
    read_word x n' w Hw; [lia|].
    rewrite (val_take_S x n' w) in E by done.
    destruct (Z.eqb_spec w 0) as [->|Hne].
    + split; [|lia]. exists n'. destruct n' as [|n'].
      * rewrite take_0 in E. cbn [val] in E. lia.
      * split_and!; lia.
    + exists (S n'). split_and!; [done|lia..| |].
      * rewrite (val_take_S x n' w) by done. lia.
      * right. exists w. by replace (S n' - 1)%nat with n' by lia.
  - exists n. split_and!; (done || lia).
  - lia.
Qed.

(** ** hi0bits and lo0bits *)

Lemma land_high_mask n x : 0 ≤ n ≤ 32 → 0 ≤ x < 2 ^ 32 →
  Z.land x (2 ^ 32 - 2 ^ n) = 2 ^ n * (x / 2 ^ n).
Proof.
  intros Hn Hx. assert (2 ^ 32 = 2 ^ n * 2 ^ (32 - n)) as Ep.
  { rewrite <- Z.pow_add_r by lia. f_equal. lia. }
  pose proof (Z.div_mod x (2 ^ n)) as Ed. pose proof (Z.mod_pos_bound x (2 ^ n)) as Bm.
  replace (2 ^ 32 - 2 ^ n) with (0 + 2 ^ n * (2 ^ (32 - n) - 1)) by lia.
  rewrite Ed at 1 by lia. rewrite (Z.add_comm (2 ^ n * _)).
  rewrite land_split, Z.land_0_r, land_low_mask, Z.mod_small by (lia || nia). lia.
Qed.

(** One halving step of [hi0bits]. *)
Lemma hi_step s x : 0 < s < 32 → 0 ≤ x < 2 ^ 32 →
  (Z.land x (2 ^ 32 - 2 ^ (32 - s)) =? 0) = (x <? 2 ^ (32 - s)) ∧
  (x < 2 ^ (32 - s) → u32 (Z.shiftl x s) = x * 2 ^ s).
Proof.
  intros Hs Hx. rewrite land_high_mask by lia. split.
  - destruct (Z.ltb_spec x (2 ^ (32 - s))).
    + rewrite Z.div_small by lia. lia.
    + apply Z.eqb_neq. pose proof (Z.div_str_pos x (2 ^ (32 - s))). nia.
  - intros. rewrite Z.shiftl_mul_pow2 by lia. apply wrapu_small.
    assert (2 ^ 32 = 2 ^ (32 - s) * 2 ^ s) as -> by (rewrite <- Z.pow_add_r by lia; f_equal; lia).
    nia.
Qed.

Lemma hi0bits_0 : hi0bits 0 = 32.
Proof. reflexivity. Qed.

(** One step of the search, as [hi0bits] takes it. *)
Lemma hi_round s x0 k x : 0 < s ≤ 16 → 0 ≤ k → x = x0 * 2 ^ k → 2 ^ (32 - 2 * s) ≤ x < 2 ^ 32 →
  ∃ k' x', (if Z.land x (2 ^ 32 - 2 ^ (32 - s)) =? 0 then (k + s, u32 (Z.shiftl x s)) else (k, x))
      = (k', x') ∧
    k ≤ k' ≤ k + s ∧ 2 ^ (32 - s) ≤ x' < 2 ^ 32 ∧ x' = x0 * 2 ^ k'.
Proof.
  intros Hs Hk Ex Hx. destruct (hi_step s x) as [-> Hshift]; [lia..|].
  destruct (Z.ltb_spec x (2 ^ (32 - s))).
  - rewrite Hshift by lia. eexists _, _. split; [done|].
    assert (2 ^ (32 - s) = 2 ^ (32 - 2 * s) * 2 ^ s) as E1
      by (rewrite <- Z.pow_add_r by lia; f_equal; lia).
    assert (2 ^ 32 = 2 ^ (32 - s) * 2 ^ s) as E2
      by (rewrite <- Z.pow_add_r by lia; f_equal; lia).
    rewrite Z.pow_add_r, Ex in * by lia. split_and!; [lia|lia|nia|nia|lia].
  - eexists _, _. split; [done|]. lia.
Qed.

Lemma hi0bits_ok x : 0 < x < 2 ^ 32 →
  0 ≤ hi0bits x < 32 ∧ 2 ^ 31 ≤ x * 2 ^ hi0bits x < 2 ^ 32.
Proof.
  intros Hx. unfold hi0bits.
  destruct (hi_round 16 x 0 x) as (k1 & x1 & E1 & Hk1 & Hx1 & ->); [lia..|].
  change (2 ^ 32 - 2 ^ (32 - 16)) with 4294901760 in E1. change (0 + 16) with 16 in E1. rewrite E1.
  destruct (hi_round 8 x k1 _ ltac:(lia) ltac:(lia) eq_refl) as (k2 & x2 & E2 & Hk2 & Hx2 & ->); [done|].
  change (2 ^ 32 - 2 ^ (32 - 8)) with 4278190080 in E2. rewrite E2.
  destruct (hi_round 4 x k2 _ ltac:(lia) ltac:(lia) eq_refl) as (k3 & x3 & E3 & Hk3 & Hx3 & ->); [done|].
  change (2 ^ 32 - 2 ^ (32 - 4)) with 4026531840 in E3. rewrite E3.
  destruct (hi_round 2 x k3 _ ltac:(lia) ltac:(lia) eq_refl) as (k4 & x4 & E4 & Hk4 & Hx4 & ->); [done|].
  change (2 ^ 32 - 2 ^ (32 - 2)) with 3221225472 in E4. rewrite E4.
  destruct (hi_step 1 (x * 2 ^ k4)) as [E5 _]; [lia..|].
  change (2 ^ 32 - 2 ^ (32 - 1)) with 2147483648 in E5. rewrite E5.
  destruct (Z.ltb_spec (x * 2 ^ k4) (2 ^ (32 - 1))); [|lia].
  assert (Z.land (x * 2 ^ k4) 1073741824 ≠ 0) as Hne.
  { intros Hb%(f_equal (λ z, Z.testbit z 30)). revert Hb.
    rewrite Z.land_spec, Z.testbit_0_l. change (Z.testbit 1073741824 30) with true.
    rewrite andb_true_r, Z.testbit_eqb by lia. intros Hb%Z.eqb_neq.
    assert (x * 2 ^ k4 / 2 ^ 30 = 1) as Hq
      by (symmetry; apply (Z.div_unique _ _ _ (x * 2 ^ k4 - 2 ^ 30)); lia).
    by rewrite Hq in Hb. }
  apply Z.eqb_neq in Hne as ->. rewrite Z.pow_add_r by lia. lia.
Qed.

(** One step of [lo0bits]. *)
Lemma lo_round s y k x : 0 < s → 0 ≤ k → x * 2 ^ k = y → x mod 2 ^ (2 * s) ≠ 0 →
  ∃ k' x', (if Z.land x (2 ^ s - 1) =? 0 then (k + s, Z.shiftr x s) else (k, x)) = (k', x') ∧
    0 ≤ k' ∧ x' * 2 ^ k' = y ∧ x' mod 2 ^ s ≠ 0.
Proof.
  intros Hs Hk Ey Hm. rewrite land_low_mask by lia.
  destruct (Z.eqb_spec (x mod 2 ^ s) 0) as [E0|]; [|by exists k, x].
  eexists _, _. split; [done|]. rewrite Z.shiftr_div_pow2 by lia.
  pose proof (Z.div_mod x (2 ^ s)) as Ed. rewrite Z.pow_add_r by lia.
  split_and!; [lia|nia|]. intros E1. apply Hm.
  replace (2 * s) with (s + s) by lia. rewrite Z.pow_add_r, Z.rem_mul_r by lia. lia.
Qed.

Lemma lo0bits_0 : lo0bits 0 = (32, 0).
Proof. reflexivity. Qed.

Lemma land_1 x : Z.land x 1 = x mod 2.
Proof. exact (land_low_mask 1 x ltac:(lia)). Qed.
Lemma land_7 x : Z.land x 7 = x mod 8.
Proof. exact (land_low_mask 3 x ltac:(lia)). Qed.
Lemma land_2 x : Z.land x 2 = 2 * (x / 2 mod 2).
Proof.
  pose proof (Z.div_mod x 2 ltac:(lia)) as Ed. pose proof (Z.mod_pos_bound x 2).
  pose proof (land_split 1 ltac:(lia) (x mod 2) 0 (x / 2) 1) as Hs.
  change (2 ^ 1) with 2 in Hs. rewrite Z.land_0_r, land_1 in Hs.
  replace (x mod 2 + 2 * (x / 2)) with x in Hs by lia. apply Hs; lia.
Qed.
Lemma odd_mod2 x : x mod 2 ≠ 0 → Z.odd x = true.
Proof. rewrite Zmod_odd. by destruct (Z.odd x). Qed.

(** The part of [lo0bits] for a word whose low three bits are clear, but for
    the value of [x] when nothing is left. *)
Lemma lo0bits_rounds y : 0 < y < 2 ^ 32 → y mod 8 = 0 →
  ∃ k y', lo0bits y = (k, y') ∧ 0 ≤ k ∧ y' * 2 ^ k = y ∧ Z.odd y' = true.
Proof.
  intros Hy H8. unfold lo0bits. cbv zeta.
  rewrite land_7, H8. change (truth 0) with false. cbv iota.
  destruct (lo_round 16 y 0 y) as (k1 & x1 & E1 & Hk1 & Ex1 & Hm1); [lia..| |].
  { change (2 * 16) with 32. rewrite Z.mod_small by lia. lia. }
  change (2 ^ 16 - 1) with 65535 in E1. change (0 + 16) with 16 in E1. rewrite E1.
  destruct (lo_round 8 y k1 x1) as (k2 & x2 & E2 & Hk2 & Ex2 & Hm2); [done || lia..|].
  change (2 ^ 8 - 1) with 255 in E2. rewrite E2.
  destruct (lo_round 4 y k2 x2) as (k3 & x3 & E3 & Hk3 & Ex3 & Hm3); [done || lia..|].
  change (2 ^ 4 - 1) with 15 in E3. rewrite E3.
  destruct (lo_round 2 y k3 x3) as (k4 & x4 & E4 & Hk4 & Ex4 & Hm4); [done || lia..|].
  change (2 ^ 2 - 1) with 3 in E4. rewrite E4.
  destruct (lo_round 1 y k4 x4) as (k5 & x5 & E5 & Hk5 & Ex5 & Hm5); [done || lia..|].
  change (2 ^ 1 - 1) with 1 in E5. destruct (Z.land x4 1 =? 0).
  - injection E5 as -> ->. destruct (Z.eqb_spec x5 0) as [->|]; [lia|].
    exists k5, x5. split_and!; [done..|]. by apply odd_mod2.
  - injection E5 as -> ->. exists k5, x5. split_and!; [done..|]. by apply odd_mod2.
Qed.

(** The word is split into an odd number and a power of two. *)
Lemma lo0bits_ok y : 0 < y < 2 ^ 32 →
  ∃ k y', lo0bits y = (k, y') ∧ 0 ≤ k < 32 ∧ y' * 2 ^ k = y ∧ Z.odd y' = true.
Proof.
  intros Hy.
  cut (∃ k y', lo0bits y = (k, y') ∧ 0 ≤ k ∧ y' * 2 ^ k = y ∧ Z.odd y' = true).
  { intros (k & y' & E & Hk & Ey & Ho). exists k, y'. split_and!; try done.
    assert (y' ≠ 0) by (intros ->; done).
    destruct (decide (k < 32)); [done|]. pose proof (Z.pow_le_mono_r 2 32 k). nia. }
  destruct (decide (y mod 8 = 0)) as [|H8]; [by apply lo0bits_rounds|].
  unfold lo0bits. cbv zeta.
  rewrite land_7, land_1, land_2, !Z.shiftr_div_pow2 by lia.
  change (2 ^ 1) with 2. change (2 ^ 2) with 4.
  pose proof (Z.div_mod y 2 ltac:(lia)) as Ed. pose proof (Z.div_mod (y / 2) 2 ltac:(lia)) as Ed2.
  rewrite Z.div_div in Ed2 by lia. change (2 * 2) with 4 in Ed2.
  destruct (truth (y mod 8)) eqn:E8; [|by apply truth_false in E8].
  destruct (truth (y mod 2)) eqn:E2.
  { apply truth_true in E2. exists 0, y. split_and!; [done|lia|lia|by apply odd_mod2]. }
  apply truth_false in E2. destruct (truth (2 * _)) eqn:E4.
  { apply truth_true in E4. exists 1, (y / 2). split_and!; [done|lia|lia|]. apply odd_mod2. lia. }
  apply truth_false in E4. exists 2, (y / 4). split_and!; [done|lia|lia|].
  apply odd_mod2. intros E. apply H8. change 8 with (4 * 2). rewrite Z.rem_mul_r by lia.
  pose proof (Z.div_mod y 4 ltac:(lia)). lia.
Qed.
