(* ===== verification/MprecBits.v ===== *)
(** * Bits of multiple-precision integers and doubles

    Exact results of the routines of mprec.c that look at bits: [any_on],
    [copybits], [ulp], and the top bits [b2d] extracts into a double. *)
From S2P Require Import Prelude Mprec MprecNum.

(** ** any_on *)

Lemma any_on_words_ok x (n : nat) : Forall word x → (n ≤ length x)%nat →
  any_on_words x (Z.of_nat n) = Some (if val (take n x) =? 0 then 0 else 1).
Proof.
  intros Hx Hn. unfold any_on_words.
  apply (loop_inv_eq (λ z, ∃ i : nat, z = Z.of_nat i ∧ (i ≤ n)%nat ∧
    val (take i x) = val (take n x)) _ (λ z, z)); [|by exists n|lia].
  intros z (i & -> & Hi & <-). split; [lia|].
  destruct (Z.ltb_spec 0 (Z.of_nat i)).
  - destruct i as [|i]; [lia|]. replace (Z.of_nat (S i) - 1) with (Z.of_nat i) by lia.
    read_word x i w Hw; [lia|]. rewrite (val_take_S x i w) by done.
    destruct (truth w) eqn:Hz.
    + apply truth_true in Hz. pose proof (lookup_word _ _ _ Hx Hw).
      pose proof (val_bound _ (Forall_take _ i _ Hx)). pose proof (weight_pos i).
      destruct (Z.eqb_spec (val (take i x) + weight i * w) 0); [nia|done].
    + apply truth_false in Hz as ->. split; [|lia]. exists i. split_and!; lia.
  - assert (i = 0%nat) as -> by lia. done.
Qed.

(** The words below [k / 32] and the rest of word [k / 32]. *)
Lemma val_mod_pow x (n m : nat) w r : Forall word x → x !! n = Some w → (n < m ≤ length x)%nat →
  0 ≤ r < 32 →
  val (take m x) mod 2 ^ (32 * Z.of_nat n + r) = val (take n x) + weight n * (w mod 2 ^ r).
Proof.
  intros Hx Hw Hm Hr. rewrite Z.pow_add_r by lia. fold (weight n).
  pose proof (val_bound _ (Forall_take _ n _ Hx)) as B. rewrite length_take_le in B by lia.
  rewrite (val_take_drop n (take m x)) by (rewrite length_take; lia).
  rewrite take_take, Nat.min_l by lia.
  assert (∃ q, val (drop n (take m x)) = w + 4294967296 * q) as [q ->].
  { destruct (drop n (take m x)) as [|w' l] eqn:El.
    - apply (f_equal length) in El. rewrite length_drop, length_take in El. cbn in El. lia.
    - exists (val l). cbn [val]. apply (f_equal (λ l, l !! 0%nat)) in El.
      rewrite lookup_drop, Nat.add_0_r, lookup_take_lt, Hw in El by lia. by injection El as ->. }
  rewrite Z.rem_mul_r by lia.
  rewrite (Z.mul_comm (weight n) (w + _)), Z.mod_add, Z.div_add by lia.
  rewrite Z.mod_small, Z.div_small, Z.add_0_l by lia. f_equal. f_equal.
  replace 4294967296 with (2 ^ (32 - r) * 2 ^ r)
    by (rewrite <- Z.pow_add_r by lia; by replace (32 - r + r) with 32 by lia).
  replace (w + 2 ^ (32 - r) * 2 ^ r * q) with (w + 2 ^ (32 - r) * q * 2 ^ r) by ring.
  by rewrite Z.mod_add by lia.
Qed.

(** [any_on] tells whether one of the low [k] bits is set. *)
Lemma any_on_ok b v k : num b v → 0 ≤ k →
  any_on b k = Some (if v mod 2 ^ k =? 0 then 0 else 1).
Proof.
  intros (m & Em & Hm & Hx & _ & <-) Hk. unfold any_on, kshift, kmask.
  rewrite Em, Z.shiftr_div_pow2 by lia.
  change 31 with (2 ^ 5 - 1). rewrite land_low_mask by lia. change (2 ^ 5) with 32.
  pose proof (Z.div_mod k 32 ltac:(lia)) as Ek. pose proof (Z.mod_pos_bound k 32 ltac:(lia)) as Br.
  pose proof (Z.div_pos k 32 Hk ltac:(lia)).
  assert (∃ n : nat, k / 32 = Z.of_nat n) as [n En] by (exists (Z.to_nat (k / 32)); lia).
  rewrite En in *. set (r := k mod 32) in *. rewrite Ek.
  pose proof (val_bound _ (Forall_take _ m _ Hx)) as B. rewrite length_take_le in B by lia.
  assert ((m ≤ n)%nat → val (take m (_x b)) mod 2 ^ (32 * Z.of_nat n + r) = val (take m (_x b))) as Hbig.
  { intros. apply Z.mod_small. pose proof (weight_mono m n).
    assert (2 ^ (32 * Z.of_nat n) ≤ 2 ^ (32 * Z.of_nat n + r)) by (apply Z.pow_le_mono_r; lia).
    unfold weight in *. lia. }
  destruct (Z.ltb_spec (Z.of_nat m) (Z.of_nat n)).
  { rewrite any_on_words_ok, Hbig by (done || lia). done. }
  destruct (Z.ltb_spec (Z.of_nat n) (Z.of_nat m)) as [Hlt|]; cbn [andb].
  - destruct (rd_lt (_x b) n) as (w & Hw & Hrd); [lia|].
    rewrite (val_mod_pow _ n m w r) by (done || lia).
    pose proof (lookup_word _ _ _ Hx Hw) as Bw.
    pose proof (val_bound _ (Forall_take _ n _ Hx)). pose proof (weight_pos n).
    destruct (truth r) eqn:Hr.
    + rewrite Hrd. cbn [mbind option_bind].
      rewrite Z.shiftl_mul_pow2, Z.shiftr_div_pow2 by lia.
      pose proof (Z.div_mod w (2 ^ r) ltac:(lia)) as Ed.
      pose proof (Z.mod_pos_bound w (2 ^ r) ltac:(lia)).
      pose proof (Z.div_pos w (2 ^ r)). rewrite u32_small by nia.
      destruct (Z.eqb_spec (w / 2 ^ r * 2 ^ r) w) as [E0|E0]; cbn [negb].
      * rewrite any_on_words_ok by (done || lia). replace (w mod 2 ^ r) with 0 by lia.
        by rewrite Z.mul_0_r, Z.add_0_r.
      * destruct (Z.eqb_spec (val (take n (_x b)) + weight n * (w mod 2 ^ r)) 0); [nia|done].
    + apply truth_false in Hr. rewrite Hr, Z.mod_1_r, Z.mul_0_r, Z.add_0_r.
      by apply any_on_words_ok; [|lia].
  - rewrite any_on_words_ok, Hbig by (done || lia). by replace m with n by lia.
Qed.

(** ** copybits *)

Lemma copybits_ok c n b v : num b v → 0 < n → Forall word c →
  (Z.to_nat (Z.shiftr (n - 1) 5 + 1) ≤ length c)%nat → (Z.to_nat (_wds b) ≤ length c)%nat →
  ∃ c', copybits c n b = Some c' ∧ Forall word c' ∧ length c' = length c ∧
    let m := Nat.max (Z.to_nat (_wds b)) (Z.to_nat (Z.shiftr (n - 1) 5 + 1)) in
    val (take m c') = v ∧ drop m c' = drop m c.
Proof.
  intros (wds & Ew & Hw & Hx & _ & <-) Hn Hc Hlen Hlen'. unfold copybits, kshift.
  rewrite Ew in *. rewrite Nat2Z.id in *.
  assert (∃ ce : nat, Z.shiftr (n - 1) 5 + 1 = Z.of_nat ce) as [ce Ece].
  { exists (Z.to_nat (Z.shiftr (n - 1) 5 + 1)). pose proof (Z.shiftr_nonneg (n - 1) 5). lia. }
  rewrite Ece in *. rewrite Nat2Z.id in *.
  edestruct (loop_inv (λ '(c', i), ∃ i' : nat, i = Z.of_nat i' ∧ (i' ≤ wds)%nat ∧
      Forall word c' ∧ length c' = length c ∧ drop i' c' = drop i' c ∧
      val (take i' c') = val (take i' (_x b)))
    (λ '(c', i), i = Z.of_nat wds ∧ Forall word c' ∧ length c' = length c ∧
      drop wds c' = drop wds c ∧ val (take wds c') = val (take wds (_x b)))
    (λ '(_, i), Z.of_nat wds - i)) as ([c1 i1] & -> & HQ).
  - intros [c' i] (i' & -> & Hi & Hc' & Hl & Hd & E). split; [lia|].
    destruct (Z.ltb_spec (Z.of_nat i') (Z.of_nat wds)).
    + read_word (_x b) i' w Hw'; [lia|]. rewrite wr_nat by lia. cbn [mbind option_bind].
      split; [|lia]. exists (S i'). rewrite length_insert.
      split_and!; [lia|lia| |done|by apply drop_wr|].
      * apply insert_words; [done|]. by apply (Forall_lookup_1 _ _ _ _ Hx Hw').
      * rewrite val_take_insert, (val_take_S (_x b) i' w) by (done || lia). lia.
    + by replace wds with i' by lia.
  - exists 0%nat. split_and!; (done || lia).
  - lia.
  - destruct HQ as (-> & Hc1 & Hl1 & Hd1 & E1). cbn [mbind option_bind].
    edestruct (loop_inv (λ '(c', i), ∃ i' : nat, i = Z.of_nat i' ∧ (wds ≤ i' ≤ Nat.max wds ce)%nat ∧
        Forall word c' ∧ length c' = length c ∧ drop i' c' = drop i' c ∧
        val (take i' c') = val (take wds (_x b)))
      (λ c', Forall word c' ∧ length c' = length c ∧
        val (take (Nat.max wds ce) c') = val (take wds (_x b)) ∧
        drop (Nat.max wds ce) c' = drop (Nat.max wds ce) c)
      (λ '(_, i), Z.of_nat (Nat.max wds ce) - i)) as (c2 & -> & HQ);
      [| | |by exists c2].
    + intros [c' i] (i' & -> & Hi & Hc' & Hl & Hd & E). split; [lia|].
      destruct (Z.ltb_spec (Z.of_nat i') (Z.of_nat ce)).
      * rewrite wr_nat by lia. cbn [mbind option_bind]. split; [|lia].
        exists (S i'). rewrite length_insert, val_take_insert by lia.
        split_and!; [lia..| |done|by apply drop_wr|lia].
        apply insert_words; [done|]. unfold word. lia.
      * replace (Nat.max wds ce) with i' by lia. done.
    + exists wds. split_and!; (done || lia).
    + cbn beta iota. lia.
Qed.

(** ** Doubles *)

(** The magnitude of a double, in units of 2^-1074, the smallest positive
    double: an integer for every finite double. *)
Definition dbl (w0 w1 : Z) : Z :=
  let e := Z.shiftr (Z.land w0 Exp_mask) Exp_shift in
  let f := 2 ^ 32 * Z.land w0 Frac_mask + w1 in
  if e =? 0 then f else (2 ^ 52 + f) * 2 ^ (e - 1).

(** The exponent field and the fraction of a first word. *)
Lemma dbl_fields s e f : 0 ≤ s → 0 ≤ e < 2048 → 0 ≤ f < 2 ^ 20 →
  Z.shiftr (Z.land (s * 2 ^ 31 + e * 2 ^ 20 + f) Exp_mask) Exp_shift = e ∧
  Z.land (s * 2 ^ 31 + e * 2 ^ 20 + f) Exp_mask = e * 2 ^ 20 ∧
  Z.land (s * 2 ^ 31 + e * 2 ^ 20 + f) Frac_mask = f.
Proof.
  intros Hs He Hf. unfold Exp_mask, Exp_shift, Frac_mask.
  assert (Z.land (s * 2 ^ 31 + e * 2 ^ 20 + f) 2146435072 = e * 2 ^ 20) as E.
  { change 2146435072 with (0 + 2 ^ 20 * (2 ^ 11 - 1)).
    replace (s * 2 ^ 31 + e * 2 ^ 20 + f) with (f + 2 ^ 20 * (e + s * 2 ^ 11)) by lia.
    rewrite land_split, Z.land_0_r, land_low_mask, Z.mod_add, Z.mod_small by lia. lia. }
  split_and!; [|done|].
  - rewrite E, Z.shiftr_div_pow2, Z.div_mul by lia. done.
  - change 1048575 with (2 ^ 20 - 1). rewrite land_low_mask by lia.
    replace (s * 2 ^ 31 + e * 2 ^ 20 + f) with (f + (e + s * 2 ^ 11) * 2 ^ 20) by lia.
    rewrite Z.mod_add, Z.mod_small by lia. done.
Qed.

Lemma dbl_eq s e f w1 : 0 ≤ s → 0 ≤ e < 2048 → 0 ≤ f < 2 ^ 20 →
  dbl (s * 2 ^ 31 + e * 2 ^ 20 + f) w1 =
    if e =? 0 then 2 ^ 32 * f + w1 else (2 ^ 52 + (2 ^ 32 * f + w1)) * 2 ^ (e - 1).
Proof.
  intros. unfold dbl. destruct (dbl_fields s e f) as (-> & _ & ->); [done..|]. done.
Qed.

(** A word as sign, exponent and fraction. *)
Lemma word_fields w : 0 ≤ w < 2 ^ 32 →
  ∃ s e f, w = s * 2 ^ 31 + e * 2 ^ 20 + f ∧ 0 ≤ s < 2 ∧ 0 ≤ e < 2048 ∧ 0 ≤ f < 2 ^ 20.
Proof.
  intros Hw. exists (w / 2 ^ 31), (w mod 2 ^ 31 / 2 ^ 20), (w mod 2 ^ 20).
  pose proof (Z.div_mod w (2 ^ 31)). pose proof (Z.div_mod (w mod 2 ^ 31) (2 ^ 20)).
  pose proof (Z.mod_pos_bound w (2 ^ 31)). pose proof (Z.mod_pos_bound w (2 ^ 20)).
  pose proof (Z.mod_pos_bound (w mod 2 ^ 31) (2 ^ 20)).
  assert (w mod 2 ^ 31 mod 2 ^ 20 = w mod 2 ^ 20) as E.
  { change (2 ^ 31) with (2 ^ 20 * 2 ^ 11). rewrite Z.rem_mul_r by lia.
    by rewrite (Z.mul_comm (2 ^ 20)), Z.mod_add, Zmod_mod by lia. }
  rewrite E in *. lia.
Qed.

(** The branch of [ulp] for results below the normal range, by running it. *)
Lemma ulp_denormal e : 0 ≤ e ≤ 52 →
  let '(w0, w1) :=
    let L := 52 - e in
    if L <? 20 then (Z.shiftr 0x80000 L, 0)
    else let L := L - 20 in (0, if 31 <=? L then 1 else Z.shiftl 1 (31 - L)) in
  0 ≤ w0 < 2 ^ 31 ∧ 0 ≤ w1 < 2 ^ 32 ∧ dbl w0 w1 = 2 ^ (Z.max e 1 - 1).
Proof.
  intros He.
  assert (forallb (λ e, let '(w0, w1) :=
      let L := 52 - e in
      if L <? 20 then (Z.shiftr 0x80000 L, 0)
      else let L := L - 20 in (0, if 31 <=? L then 1 else Z.shiftl 1 (31 - L)) in
    (0 <=? w0) && (w0 <? 2 ^ 31) && (0 <=? w1) && (w1 <? 2 ^ 32) &&
    (dbl w0 w1 =? 2 ^ (Z.max e 1 - 1))) (seqZ 0 53) = true) as Hall by (vm_compute; reflexivity).
  rewrite forallb_forall in Hall. specialize (Hall e).
  assert (In e (seqZ 0 53)) as Hin by (apply list_elem_of_In, elem_of_seqZ; lia).
  specialize (Hall Hin). cbv zeta in *. destruct (if _ <? 20 then _ else _) as [w0 w1].
  zb. lia.
Qed.

(** [ulp] is the distance between the doubles with that exponent: 2^(e-1)
    units for the exponent field [e], and one unit for the subnormals. *)
Lemma ulp_ok s e f : 0 ≤ s < 2 → 0 ≤ e < 2047 → 0 ≤ f < 2 ^ 20 →
  let '(w0, w1) := ulp (s * 2 ^ 31 + e * 2 ^ 20 + f) in
  0 ≤ w0 < 2 ^ 31 ∧ 0 ≤ w1 < 2 ^ 32 ∧ dbl w0 w1 = 2 ^ (Z.max e 1 - 1).
Proof.
  intros Hs He Hf. unfold ulp.
  destruct (dbl_fields s e f) as (_ & -> & _); [lia..|].
  unfold P, Exp_msk1, Exp_shift. rewrite s32_small by lia.
  destruct (Z.ltb_spec 0 (e * 2 ^ 20 - (53 - 1) * 1048576)) as [Hn|Hn].
  - split_and!; [lia..|].
    pose proof (dbl_eq 0 (e - 52) 0 0) as E. rewrite Z.mul_0_l, Z.add_0_l, Z.add_0_r in E.
    replace (e * 2 ^ 20 - (53 - 1) * 1048576) with ((e - 52) * 2 ^ 20) by lia.
    rewrite E by lia. destruct (Z.eqb_spec (e - 52) 0); [lia|].
    rewrite Z.max_l, Z.mul_0_r, !Z.add_0_r, <- Z.pow_add_r by lia. f_equal. lia.
  - rewrite Z.shiftr_div_pow2 by lia.
    replace (- (e * 2 ^ 20 - (53 - 1) * 1048576)) with ((52 - e) * 2 ^ 20) by lia.
    rewrite Z.div_mul by lia.
    apply (ulp_denormal e). lia.
Qed.

(** ** b2d *)

(** The three words [b2d] may read, zero when there are fewer. *)
Lemma next_word_ok x (xa : nat) : Forall word x → (xa ≤ length x)%nat →
  ∃ w, next_word x (Z.of_nat xa) = Some (w, Z.of_nat (xa - 1)) ∧ 0 ≤ w < 4294967296 ∧
    w * weight xa ≤ 4294967296 * val (take xa x) < (w + 1) * weight xa ∧
    val (take xa x) * 4294967296 = w * weight xa + 4294967296 * val (take (xa - 1) x).
Proof.
  intros Hx Hl. unfold next_word. destruct (Z.ltb_spec 0 (Z.of_nat xa)).
  - destruct xa as [|xa]; [lia|]. replace (Z.of_nat (S xa) - 1) with (Z.of_nat xa) by lia.
    read_word x xa w Hw; [lia|]. exists w. cbn [Nat.sub]. rewrite Nat.sub_0_r.
    pose proof (lookup_word _ _ _ Hx Hw).
    pose proof (val_bound _ (Forall_take _ xa _ Hx)) as B. rewrite length_take_le in B by lia.
    rewrite (val_take_S x xa w), weight_S by done. pose proof (weight_pos xa).
    split_and!; [done|lia|lia|nia|nia|nia].
  - assert (xa = 0%nat) as -> by lia. exists 0. rewrite weight_0. cbn. split_and!; (done || lia).
Qed.

(** The top words [y], [w], [u] of a number of [S n] words bound it. *)
Lemma top_words x (n : nat) y : Forall word x → x !! n = Some y →
  ∃ w u, next_word x (Z.of_nat n) = Some (w, Z.of_nat (n - 1)) ∧
    (∃ i, next_word x (Z.of_nat (n - 1)) = Some (u, i)) ∧
    0 ≤ w < 4294967296 ∧ 0 ≤ u < 4294967296 ∧
    let T := y * 2 ^ 64 + w * 2 ^ 32 + u in
    T * weight n ≤ val (take (S n) x) * 2 ^ 64 < (T + 1) * weight n.
Proof.
  intros Hx Hy. pose proof (lookup_lt_Some _ _ _ Hy).
  destruct (next_word_ok x n) as (w & Ew & Bw & B1 & V1); [done|lia|].
  destruct (next_word_ok x (n - 1)) as (u & Eu & Bu & B2 & V2); [done|lia|].
  exists w, u. cbv zeta. rewrite (val_take_S x n y) by done.
  split_and!; [done|by eexists|lia|lia|lia|lia|..].
  all: change (2 ^ 64) with (4294967296 * 4294967296); change (2 ^ 32) with 4294967296.
  all: destruct n as [|n];
    [rewrite weight_0 in *; cbn [Nat.sub] in *; rewrite weight_0, take_0 in *; cbn [val] in *; nia|].
  all: cbn [Nat.sub] in *; rewrite Nat.sub_0_r in *; rewrite weight_S in *; nia.
Qed.

(** The exponent of 1.0 over the leading bit of [h]. *)
Lemma lor_Exp_1 h : 2 ^ 20 ≤ h < 2 ^ 21 → Z.lor Exp_1 h = 1023 * 2 ^ 20 + (h - 2 ^ 20).
Proof.
  intros Hh. unfold Exp_1. change 1072693248 with (0 + 2 ^ 20 * 1023).
  replace h with ((h - 2 ^ 20) + 2 ^ 20 * 1) at 1 by lia.
  rewrite lor_split, Z.lor_0_l by lia. change (Z.lor 1023 1) with 1023. lia.
Qed.

(** The 53 bits assembled: [M] is [T * 2^k / 2^43], in two words. *)
Lemma b2d_assemble (n : nat) v y w u k M :
  0 ≤ k < 32 → 2 ^ 31 ≤ y * 2 ^ k < 2 ^ 32 →
  let T := y * 2 ^ 64 + w * 2 ^ 32 + u in
  T * weight n ≤ v * 2 ^ 64 < (T + 1) * weight n →
  M * 2 ^ 43 ≤ T * 2 ^ k → T * 2 ^ k + 2 ^ k ≤ (M + 1) * 2 ^ 43 →
  let L := 32 * Z.of_nat n + (32 - k) in
  M * 2 ^ L ≤ v * 2 ^ 53 < (M + 1) * 2 ^ L.
Proof.
  intros Hk Hy T HT H1 H2 L.
  assert (2 ^ L * 2 ^ (11 + k) = weight n * 2 ^ 43) as EL.
  { unfold weight, L. rewrite <- !Z.pow_add_r by lia. f_equal. lia. }
  rewrite Z.pow_add_r in EL by lia.
  pose proof (weight_pos n). assert (0 < 2 ^ k) by lia.
  split; apply (Z.mul_le_mono_pos_r _ _ (2 ^ 11 * 2 ^ k)) || apply (Z.mul_lt_mono_pos_r (2 ^ 11 * 2 ^ k));
    try lia; change (2 ^ 64) with (2 ^ 53 * 2 ^ 11) in HT.
  - transitivity (T * weight n * 2 ^ k); [|nia].
    replace (M * 2 ^ L * (2 ^ 11 * 2 ^ k)) with (M * 2 ^ 43 * weight n) by nia. nia.
  - apply Z.lt_le_trans with ((T + 1) * weight n * 2 ^ k); [nia|].
    replace ((M + 1) * 2 ^ L * (2 ^ 11 * 2 ^ k)) with ((M + 1) * 2 ^ 43 * weight n) by nia. nia.
Qed.

Section b2d_cases.
Context (y w u k : Z) (Hk : 0 ≤ k < 32) (Hy : 2 ^ 31 ≤ y * 2 ^ k < 2 ^ 32)
  (Hw : 0 ≤ w < 4294967296) (Hu : 0 ≤ u < 4294967296).
#[local] Abbreviation T := (y * 2 ^ 64 + w * 2 ^ 32 + u).

(** The first word has more than 53 - 32 bits: two words are enough. *)
Lemma b2d_two : k < 11 →
  let h := Z.shiftr y (11 - k) in
  let d1 := Z.lor (u32 (Z.shiftl y (21 + k))) (Z.shiftr w (11 - k)) in
  let M := h * 2 ^ 32 + d1 in
  2 ^ 20 ≤ h < 2 ^ 21 ∧ word d1 ∧ M * 2 ^ 43 ≤ T * 2 ^ k ∧ T * 2 ^ k + 2 ^ k ≤ (M + 1) * 2 ^ 43.
Proof using All.
  intros Hk11. assert (0 ≤ y < 4294967296) by nia.
  assert (2 ^ 43 = 2 ^ (11 - k) * (2 ^ 32 * 2 ^ k)) as E43.
  { rewrite <- !Z.pow_add_r by lia. f_equal. lia. }
  assert (2 ^ (21 + k) = 2 ^ 21 * 2 ^ k) as E21 by (rewrite Z.pow_add_r by lia; done).
  assert (2 ^ 11 = 2 ^ (11 - k) * 2 ^ k) as E11 by (rewrite <- Z.pow_add_r by lia; f_equal; lia).
  destruct (shift_step y (21 + k) (Z.shiftr w (11 - k))) as (Wd & _ & Ed); [lia..| |].
  { rewrite Z.shiftr_div_pow2 by lia. split; [apply Z.div_pos; lia|].
    apply Z.div_lt_upper_bound; [lia|]. rewrite E21. lia. }
  replace (32 - (21 + k)) with (11 - k) in Ed by lia. cbv zeta.
  set (d1 := Z.lor _ _) in *. rewrite E21 in Ed. rewrite !Z.shiftr_div_pow2 in * by lia.
  pose proof (Z.div_mod y (2 ^ (11 - k)) ltac:(lia)) as Ey.
  pose proof (Z.mod_pos_bound y (2 ^ (11 - k)) ltac:(lia)) as By.
  pose proof (Z.div_mod w (2 ^ (11 - k)) ltac:(lia)) as Ew.
  pose proof (Z.mod_pos_bound w (2 ^ (11 - k)) ltac:(lia)) as Bw.
  set (h := y / _) in *. set (q := w / _) in *. set (r := w mod _) in *.
  set (K := 2 ^ k) in *. set (J := 2 ^ (11 - k)) in *. assert (0 < K ∧ 0 < J) by (unfold K, J; lia).
  replace (h * 2 ^ 32 + d1) with (2 ^ 21 * K * y + q) by lia. rewrite E43.
  assert (T * K = (2 ^ 21 * K * y + q) * (J * (2 ^ 32 * K)) + r * (2 ^ 32 * K) + u * K) as ET.
  { rewrite Ew. change (2 ^ 64) with (2 ^ 21 * 2 ^ 11 * 2 ^ 32). rewrite E11. ring. }
  rewrite ET. split_and!; [nia|nia|exact Wd|nia|nia].
Qed.

(** It has fewer: bits of the third word are needed; [k'] is [k - Ebits]. *)
Lemma b2d_three k' : k = 11 + k' → 0 < k' →
  let h := Z.lor (u32 (Z.shiftl y k')) (Z.shiftr w (32 - k')) in
  let d1 := Z.lor (u32 (Z.shiftl w k')) (Z.shiftr u (32 - k')) in
  let M := h * 2 ^ 32 + d1 in
  2 ^ 20 ≤ h < 2 ^ 21 ∧ word d1 ∧ M * 2 ^ 43 ≤ T * 2 ^ k ∧ T * 2 ^ k + 2 ^ k ≤ (M + 1) * 2 ^ 43.
Proof using All.
  intros -> Hk'. rewrite Z.pow_add_r in * by lia.
  assert (2 ^ 32 = 2 ^ (32 - k') * 2 ^ k') as E32 by (rewrite <- Z.pow_add_r by lia; f_equal; lia).
  assert (∀ x, 0 ≤ x < 4294967296 → 0 ≤ Z.shiftr x (32 - k') < 2 ^ k') as Bs.
  { intros x Hx. rewrite Z.shiftr_div_pow2 by lia. split; [apply Z.div_pos; lia|].
    apply Z.div_lt_upper_bound; lia. }
  assert (0 ≤ y < 4294967296) by nia.
  destruct (shift_step y k' (Z.shiftr w (32 - k'))) as (_ & _ & Eh); [lia|lia|by apply Bs|].
  destruct (shift_step w k' (Z.shiftr u (32 - k'))) as (Wd & _ & Ed); [lia|lia|by apply Bs|].
  cbv zeta. set (h := Z.lor (u32 (Z.shiftl y _)) _) in *.
  set (d1 := Z.lor (u32 (Z.shiftl w _)) _) in *.
  pose proof (Bs w Hw) as Bw. pose proof (Bs u Hu) as Bu. rewrite !Z.shiftr_div_pow2 in * by lia.
  pose proof (Z.div_mod u (2 ^ (32 - k')) ltac:(lia)) as Eu.
  pose proof (Z.mod_pos_bound u (2 ^ (32 - k')) ltac:(lia)) as Bm.
  set (K := 2 ^ k') in *. set (J := 2 ^ (32 - k')) in *. assert (0 < K ∧ 0 < J) by (unfold K, J; lia).
  assert (y / J = 0) as Ey by (apply Z.div_small; nia). rewrite Ey in Eh.
  set (q := u / J) in *. set (r := u mod J) in *. set (q' := w / J) in *.
  replace (h * 2 ^ 32 + d1) with (2 ^ 32 * K * y + K * w + q) by lia.
  assert (T * (2 ^ 11 * K) = (2 ^ 32 * K * y + K * w + q) * 2 ^ 43 + r * (2 ^ 11 * K)) as ET.
  { rewrite Eu. change (2 ^ 64) with (2 ^ 32 * 2 ^ 32). change (2 ^ 43) with (2 ^ 32 * 2 ^ 11).
    transitivity (2 ^ 11 * (2 ^ 32 * 2 ^ 32 * K * y + 2 ^ 32 * K * w + q * (J * K) + r * K)); [ring|].
    rewrite <- E32. ring. }
  assert (2 ^ 21 = 2 ^ (21 - k') * K) as E21
    by (unfold K; rewrite <- Z.pow_add_r by lia; f_equal; lia).
  assert (2 ^ 20 ≤ y * K ∧ (y + 1) * K ≤ 2 ^ 21) as [By1 By2].
  { split; [lia|]. rewrite E21. apply Z.mul_le_mono_nonneg_r; [lia|].
    cut (y < 2 ^ (21 - k')); [lia|]. apply (Z.mul_lt_mono_pos_r K); lia. }
  assert ((r + 1) * (2 ^ 11 * K) ≤ 2 ^ 43) as Br.
  { change (2 ^ 43) with (2 ^ 32 * 2 ^ 11). rewrite E32.
    replace (J * K * 2 ^ 11) with (J * (2 ^ 11 * K)) by ring.
    apply Z.mul_le_mono_nonneg_r; lia. }
  assert (0 ≤ r * (2 ^ 11 * K)) by (apply Z.mul_nonneg_nonneg; lia).
  rewrite ET. split_and!; [lia|lia|exact Wd|lia|lia].
Qed.

(** The first word has just the 21 bits. *)
Lemma b2d_even : k = 11 →
  let M := y * 2 ^ 32 + w in
  2 ^ 20 ≤ y < 2 ^ 21 ∧ M * 2 ^ 43 ≤ T * 2 ^ k ∧ T * 2 ^ k + 2 ^ k ≤ (M + 1) * 2 ^ 43.
Proof using All. intros ->. cbv zeta. lia. Qed.
End b2d_cases.

(** [e] is such that [v] has [L] bits, and the double is [M / 2^52], in [1, 2),
    where [M] is the top 53 bits of [v]. *)
Lemma b2d_big_ok a v : num a v → 0 < v →
  ∃ d0 d1 e M, b2d_big a = Some (d0, d1, e) ∧ 2 ^ 52 ≤ M < 2 ^ 53 ∧
    d0 = 1023 * 2 ^ 20 + (M / 2 ^ 32 - 2 ^ 20) ∧ d1 = M mod 2 ^ 32 ∧
    let L := 32 * (_wds a - 1) + e in
    0 < L ∧ 2 ^ (L - 1) ≤ v < 2 ^ L ∧ M * 2 ^ L ≤ v * 2 ^ 53 < (M + 1) * 2 ^ L.
Proof.
  intros (n & En & Hn & Hx & Hnorm & Ev) Hv. destruct n as [|n]; [lia|].
  destruct (top_word (_x a) n) as (y & Hy & By); [done|lia|done|lia|].
  destruct (hi0bits_ok y By) as [Hk Hnormk]. unfold b2d_big.
  replace (_wds a - 1) with (Z.of_nat n) by lia. rewrite (rd_nat _ _ _ Hy). cbn [mbind option_bind].
  destruct (top_words _ _ _ Hx Hy) as (w & u & Ew & [i Eu] & Bw & Bu & HT). rewrite Ev in HT.
  set (k := hi0bits y) in *. rewrite Ew. cbn [mbind option_bind]. unfold Ebits.
  cut (∃ h d1, (if k <? 11
      then Some (Z.lor Exp_1 (Z.shiftr y (11 - k)),
             Z.lor (u32 (Z.shiftl y (32 - 11 + k))) (Z.shiftr w (11 - k)), 32 - k)
      else if truth (k - 11)
        then '(y0, _) ← next_word (_x a) (Z.of_nat (n - 1));
          Some (Z.lor (Z.lor Exp_1 (u32 (Z.shiftl y (k - 11)))) (Z.shiftr w (32 - (k - 11))),
            Z.lor (u32 (Z.shiftl w (k - 11))) (Z.shiftr y0 (32 - (k - 11))), 32 - k)
        else Some (Z.lor Exp_1 y, w, 32 - k)) = Some (Z.lor Exp_1 h, d1, 32 - k) ∧
    2 ^ 20 ≤ h < 2 ^ 21 ∧ word d1 ∧
    (h * 2 ^ 32 + d1) * 2 ^ 43 ≤ (y * 2 ^ 64 + w * 2 ^ 32 + u) * 2 ^ k ∧
    (y * 2 ^ 64 + w * 2 ^ 32 + u) * 2 ^ k + 2 ^ k ≤ (h * 2 ^ 32 + d1 + 1) * 2 ^ 43).
  { intros (h & d1 & E & Bh & Wd & H1 & H2). exists (Z.lor Exp_1 h), d1, (32 - k), (h * 2 ^ 32 + d1).
    unfold word in Wd. pose proof (b2d_assemble n v y w u k _ Hk Hnormk HT H1 H2) as HL.
    cbv zeta in *. set (L := 32 * Z.of_nat n + (32 - k)) in *.
    assert (0 < L) by (unfold L; lia).
    assert (2 ^ L = 2 * 2 ^ (L - 1)) as EL by (rewrite <- Z.pow_succ_r by lia; f_equal; lia).
    split_and!; [exact E|lia|lia| | |done| |nia|lia|lia].
    - rewrite lor_Exp_1 by done. f_equal. f_equal. apply (Z.div_unique _ _ _ d1); lia.
    - apply (Z.mod_unique _ _ h); lia.
    - nia. }
  destruct (Z.ltb_spec k 11).
  - eexists _, _. split; [done|]. by apply b2d_two.
  - destruct (truth (k - 11)) eqn:Hk0.
    + apply truth_true in Hk0. rewrite Eu. cbn [mbind option_bind]. rewrite <- Z.lor_assoc.
      eexists _, _. split; [done|]. apply b2d_three; lia.
    + apply truth_false in Hk0. eexists _, _. split; [done|].
      destruct (b2d_even y w u k) as (? & ? & ?); [done..|lia|]. split_and!; (done || lia).
Qed.
