(* ===== verification/MprecHeap.v ===== *)
(** * The heap of multiple-precision integers

    Who owns a [_Bigint]: a caller, a free list or the cache of powers of five.
    The invariant [mp_ok] of the state of mprec.c relates the state to this
    ownership, and every routine of mprec.c that allocates, frees or writes is
    shown to keep it and to leave the numbers it is not given alone. *)
From S2P Require Import Prelude Mprec MprecNum MprecBits.

(** What is assumed of [_calloc_r]: a block it hands out is not NULL and is
    not in use. *)
Class CallocLaws `{Calloc} : Prop := {
  calloc_fresh h n p : _calloc_r h n = Some p → p ≠ 0 ∧ h !! p = None
}.
Arguments CallocLaws {_}.

Inductive owner := Free | Cached | Live.

#[global] Instance owner_eq_dec : EqDecision owner.
Proof. solve_decision. Defined.

(** A struct as [Balloc] makes it: room for 2^k words. *)
Record big_wf (b : Bigint) : Prop := {
  wf_k : 0 ≤ _k b ≤ 30;
  wf_maxwds : _maxwds b = 2 ^ _k b;
  wf_length : Z.of_nat (length (_x b)) = _maxwds b;
  wf_words : Forall word (_x b);
}.

(** The structs linked by [_next] from [p]. *)
Fixpoint chain (h : gmap Z Bigint) (p : Z) (l : list Z) : Prop :=
  match l with
  | [] => p = 0
  | q :: l => p = q ∧ q ≠ 0 ∧ ∃ b, h !! q = Some b ∧ chain h (_next b) l
  end.

(** The free list for [k]. *)
Definition free_chain (σ : mp) (g : gmap Z owner) (k : nat) (p : Z) : Prop :=
  ∃ l, chain (bigs σ) p l ∧ NoDup l ∧
    ∀ q, q ∈ l → g !! q = Some Free ∧ ∃ b, bigs σ !! q = Some b ∧ _k b = Z.of_nat k.

(** The cache from [p] on: [p] and its successors hold 5^(4 * 2^i),
    5^(4 * 2^(i+1)), ... *)
Definition powers (σ : mp) (g : gmap Z owner) (i : nat) (l : list Z) : Prop :=
  ∀ j q, l !! j = Some q → g !! q = Some Cached ∧
    ∃ b, bigs σ !! q = Some b ∧ num b (5 ^ (4 * 2 ^ Z.of_nat (i + j))).

Record mp_ok (σ : mp) (g : gmap Z owner) : Prop := {
  ok_null : bigs σ !! 0 = None;
  ok_dom p : is_Some (g !! p) ↔ is_Some (bigs σ !! p);
  ok_wf p b : bigs σ !! p = Some b → big_wf b;
  ok_free :
    match _freelist σ with
    | None => bigs σ = ∅
    | Some fl => length fl = 65%nat ∧ ∀ k p, fl !! k = Some p → free_chain σ g k p
    end;
  ok_cache : ∃ l, chain (bigs σ) (_p5s σ) l ∧ NoDup l ∧ powers σ g 0 l;
}.

(** What an operation leaves alone: everything in use but [D]. *)
Definition kept (σ : mp) (g : gmap Z owner) (σ' : mp) (g' : gmap Z owner) (D : list Z) : Prop :=
  _p5s σ' = _p5s σ ∧ ∀ p, g !! p = Some Live ∨ g !! p = Some Cached → p ∉ D →
    g' !! p = g !! p ∧ bigs σ' !! p = bigs σ !! p.

(** ** Running a computation

    [runs m σ Q]: [m] does not fault, and returns with [Q] unless it aborts
    because the allocator returned NULL. *)
Definition runs `{Calloc} {A} (m : MP A) (σ : mp) (Q : A → mp → Prop) : Prop :=
  match m σ with
  | Ok x σ' => Q x σ'
  | Abort => ∃ h n, _calloc_r h n = None
  | Fault => False
  end.

Section runs.
Context `{Calloc}.

Lemma runs_ret {A} (x : A) σ (Q : A → mp → Prop) : Q x σ → runs (mret x) σ Q.
Proof. done. Qed.

Lemma runs_bind {A B} (m : MP A) (k : A → MP B) σ (Q : B → mp → Prop) :
  runs m σ (λ x σ', runs (k x) σ' Q) → runs (m ≫= k) σ Q.
Proof. unfold runs, mbind, MP_bind. by destruct (m σ). Qed.

Lemma runs_mono {A} (m : MP A) σ (Q R : A → mp → Prop) :
  runs m σ Q → (∀ x σ', Q x σ' → R x σ') → runs m σ R.
Proof. unfold runs. destruct (m σ); auto. Qed.

(** The usual way to step over a call whose specification is known. *)
Lemma runs_call {A B} (m : MP A) (k : A → MP B) σ (R : A → mp → Prop) (Q : B → mp → Prop) :
  runs m σ R → (∀ x σ', R x σ' → runs (k x) σ' Q) → runs (m ≫= k) σ Q.
Proof. intros Hm Hk. by apply runs_bind, (runs_mono _ _ R). Qed.

Lemma runs_get p b {B} (k : Bigint → MP B) σ Q :
  bigs σ !! p = Some b → runs (k b) σ Q → runs (getBig p ≫= k) σ Q.
Proof. intros Hp Hk. apply runs_bind. unfold runs, getBig, lift. by rewrite Hp. Qed.

Lemma runs_lift {A B} (o : option A) x (k : A → MP B) σ Q :
  o = Some x → runs (k x) σ Q → runs (lift o ≫= k) σ Q.
Proof. intros -> Hk. by apply runs_bind. Qed.
End runs.

(** Replace one struct. *)
Definition upd (σ : mp) (p : Z) (b : Bigint) : mp :=
  Mp (<[p := b]> (bigs σ)) (_freelist σ) (_p5s σ).

Definition with_next (b : Bigint) v := Big v (_k b) (_maxwds b) (_sign b) (_wds b) (_x b).
Definition with_sign (b : Bigint) v := Big (_next b) (_k b) (_maxwds b) v (_wds b) (_x b).
Definition with_wds (b : Bigint) v := Big (_next b) (_k b) (_maxwds b) (_sign b) v (_x b).
Definition with_words (b : Bigint) x := Big (_next b) (_k b) (_maxwds b) (_sign b) (_wds b) x.

Section setters.
Context `{Calloc} {B : Type} (p : Z) (b : Bigint) (σ : mp) (Hp : bigs σ !! p = Some b)
  (k : unit → MP B) (Q : B → mp → Prop).

Lemma runs_set_next v : runs (k tt) (upd σ p (with_next b v)) Q → runs (set_next p v ≫= k) σ Q.
Proof using Hp. intros. apply runs_bind. unfold set_next. by apply (runs_get p b). Qed.
Lemma runs_set_sign v : runs (k tt) (upd σ p (with_sign b v)) Q → runs (set_sign p v ≫= k) σ Q.
Proof using Hp. intros. apply runs_bind. unfold set_sign. by apply (runs_get p b). Qed.
Lemma runs_set_wds v : runs (k tt) (upd σ p (with_wds b v)) Q → runs (set_wds p v ≫= k) σ Q.
Proof using Hp. intros. apply runs_bind. unfold set_wds. by apply (runs_get p b). Qed.
Lemma runs_set_words v : runs (k tt) (upd σ p (with_words b v)) Q → runs (set_words p v ≫= k) σ Q.
Proof using Hp. intros. apply runs_bind. unfold set_words. by apply (runs_get p b). Qed.
Lemma runs_set_word (i : nat) v : (i < length (_x b))%nat →
  runs (k tt) (upd σ p (with_words b (<[i := v]> (_x b)))) Q → runs (set_word p (Z.of_nat i) v ≫= k) σ Q.
Proof using Hp.
  intros Hi Hk. apply runs_bind. unfold set_word. apply (runs_get p b); [done|].
  apply (runs_lift _ (<[i := v]> (_x b))); [by apply wr_nat|].
  unfold set_words. by apply (runs_get p b).
Qed.
End setters.

Lemma upd_lookup σ p b : bigs (upd σ p b) !! p = Some b.
Proof. apply lookup_insert_eq. Qed.
Lemma upd_upd σ p b b' : upd (upd σ p b) p b' = upd σ p b'.
Proof. unfold upd. cbn. by rewrite insert_insert_eq. Qed.

(** ** The invariant under the elementary changes of state *)

Lemma chain_frame h h' p l : chain h p l → (∀ q, q ∈ l → h' !! q = h !! q) → chain h' p l.
Proof.
  revert p. induction l as [|q l IH]; [done|]. intros p (-> & H0 & b & Hb & Hc) Hq.
  split_and!; [done..|]. exists b. rewrite Hq by apply list_elem_of_here.
  split; [done|]. apply IH; [done|]. intros q' Hq'. apply Hq. by apply list_elem_of_further.
Qed.

Lemma free_chain_frame σ g σ' g' r k p :
  free_chain σ g k p →
  (∀ q, q ≠ r → g !! q = Some Free → g' !! q = Some Free ∧ bigs σ' !! q = bigs σ !! q) →
  (∀ b, bigs σ !! r = Some b → g !! r = Some Free → _k b ≠ Z.of_nat k) →
  free_chain σ' g' k p.
Proof.
  intros (l & Hc & Hnd & Hl) Hkeep Hr.
  assert (∀ q, q ∈ l → q ≠ r) as Hne.
  { intros q Hq ->. destruct (Hl r Hq) as (Hf & b & Hb & Ek). by apply (Hr b). }
  exists l. split_and!; [|done|].
  - apply (chain_frame (bigs σ)); [done|]. intros q Hq. apply Hkeep; [auto|]. by apply Hl.
  - intros q Hq. destruct (Hl q Hq) as (Hf & b & Hb & Ek).
    destruct (Hkeep q (Hne q Hq) Hf) as [-> ->]. split; [done|]. by exists b.
Qed.

Definition cache_ok (σ : mp) (g : gmap Z owner) : Prop :=
  ∃ l, chain (bigs σ) (_p5s σ) l ∧ NoDup l ∧ powers σ g 0 l.

Lemma powers_frame σ g σ' g' i l :
  powers σ g i l →
  (∀ q, g !! q = Some Cached → g' !! q = Some Cached ∧ bigs σ' !! q = bigs σ !! q) →
  powers σ' g' i l.
Proof.
  intros Hp Hkeep j q Hq. destruct (Hp j q Hq) as (Hg & b & Hb & Hn).
  destruct (Hkeep q Hg) as [-> ->]. split; [done|]. by exists b.
Qed.

Lemma powers_elem σ g i l q : powers σ g i l → q ∈ l → g !! q = Some Cached.
Proof. intros Hp [j Hj]%list_elem_of_lookup. by apply (Hp j q Hj). Qed.

Lemma cache_frame σ g σ' g' :
  cache_ok σ g → _p5s σ' = _p5s σ →
  (∀ q, g !! q = Some Cached → g' !! q = Some Cached ∧ bigs σ' !! q = bigs σ !! q) →
  cache_ok σ' g'.
Proof.
  intros (l & Hc & Hnd & Hp) Ep Hkeep. exists l. rewrite Ep. split_and!; [|done|].
  - apply (chain_frame (bigs σ)); [done|]. intros q Hq. apply Hkeep. by eapply powers_elem.
  - by eapply powers_frame.
Qed.

Lemma ok_lookup σ g p o : mp_ok σ g → g !! p = Some o → ∃ b, bigs σ !! p = Some b ∧ big_wf b ∧ p ≠ 0.
Proof.
  intros Hok Hg. destruct (proj1 (ok_dom σ g Hok p) (mk_is_Some _ _ Hg)) as [b Hb].
  exists b. split_and!; [done|by apply (ok_wf σ g Hok p)|].
  intros ->. by rewrite (ok_null σ g Hok) in Hb.
Qed.

(** A caller may write its own struct. *)
Lemma mp_ok_upd σ g p b : mp_ok σ g → g !! p = Some Live → big_wf b → mp_ok (upd σ p b) g.
Proof.
  intros Hok Hp Hb. destruct (ok_lookup _ _ _ _ Hok Hp) as (b0 & Hb0 & _ & Hp0).
  assert (∀ q, g !! q ≠ Some Live → bigs (upd σ p b) !! q = bigs σ !! q) as Hsame.
  { intros q Hq. apply lookup_insert_ne. congruence. }
  split.
  - cbn. rewrite lookup_insert_ne by done. apply Hok.
  - intros q. rewrite (ok_dom σ g Hok q). cbn. rewrite lookup_insert_is_Some.
    destruct (decide (p = q)) as [<-|]; [|tauto]. rewrite Hb0. intuition eauto.
  - intros q b'. cbn. rewrite lookup_insert_Some. intros [[<- <-]|[_ Hq]]; [done|].
    by apply (ok_wf σ g Hok q).
  - pose proof (ok_free σ g Hok) as Hf. cbn. destruct (_freelist σ) as [fl|].
    + destruct Hf as [Hlen Hf]. split; [done|]. intros k q Hq.
      apply (free_chain_frame σ g _ _ p); [auto| |congruence].
      intros q' Hne Hq'. split; [done|]. apply Hsame. congruence.
    + rewrite Hf in Hb0. done.
  - apply (cache_frame σ g); [apply Hok|done|]. intros q Hq. split; [done|]. apply Hsame. congruence.
Qed.

Lemma kept_refl σ g D : kept σ g σ g D.
Proof. done. Qed.

Lemma kept_upd σ g p b D : p ∈ D → kept σ g (upd σ p b) g D.
Proof. intros Hp. split; [done|]. intros q _ Hq. split; [done|]. apply lookup_insert_ne. by intros ->. Qed.

Lemma kept_step σ1 g1 σ2 g2 σ3 g3 D :
  kept σ1 g1 σ2 g2 D → kept σ2 g2 σ3 g3 D → kept σ1 g1 σ3 g3 D.
Proof.
  intros [E12 H12] [E23 H23]. split; [congruence|]. intros p Hp HD. destruct (H12 p Hp HD) as [E1 E2].
  destruct (H23 p) as [-> ->]; [by rewrite E1|done|]. done.
Qed.

Lemma kept_sub σ g σ' g' D D' : kept σ g σ' g' D → (∀ p, p ∈ D → p ∈ D') → kept σ g σ' g' D'.
Proof. intros [E Hk] Hsub. split; [done|]. intros p Hp HD. apply Hk; [done|]. auto. Qed.

(** A change to structs that were not in use before. *)
Lemma kept_trans_new σ1 g1 σ2 g2 σ3 g3 p D :
  kept σ1 g1 σ2 g2 D → kept σ2 g2 σ3 g3 (p :: D) →
  g1 !! p ≠ Some Live → g1 !! p ≠ Some Cached → kept σ1 g1 σ3 g3 D.
Proof.
  intros [E12 H12] [E23 H23] H1 H2. split; [congruence|]. intros q Hq HD. destruct (H12 q Hq HD) as [E1 E2].
  destruct (H23 q) as [-> ->]; [by rewrite E1| |done].
  intros [->|]%elem_of_cons; [|done]. naive_solver.
Qed.

(** ** Balloc and Bfree *)

(** What a caller of [Balloc] gets: a struct nobody used, with room for 2^k
    words and no word in it. *)
Definition allocated (σ : mp) (g : gmap Z owner) (k p : Z) (σ' : mp) : Prop :=
  ∃ b, g !! p ≠ Some Live ∧ g !! p ≠ Some Cached ∧
    mp_ok σ' (<[p := Live]> g) ∧ kept σ g σ' (<[p := Live]> g) [] ∧
    bigs σ' !! p = Some b ∧ big_wf b ∧ _k b = k ∧ _wds b = 0 ∧ _sign b = 0.

Section balloc.
Context {C : Calloc} {CL : CallocLaws}.

Lemma get_freelist_ok σ g : mp_ok σ g →
  runs get_freelist σ (λ o σ1,
    (o = None ∧ σ1 = σ ∧ ∃ h n, _calloc_r h n = None) ∨
    ∃ fl, o = Some fl ∧ _freelist σ1 = Some fl ∧ mp_ok σ1 g ∧ kept σ g σ1 g []).
Proof.
  intros Hok. unfold runs, get_freelist. destruct (_freelist σ) as [fl|] eqn:Efl.
  { right. by exists fl. }
  destruct (_calloc_r _ _) as [q|] eqn:Ec; [|left; eauto].
  right. eexists. split_and!; [done|done| |done].
  pose proof (ok_free σ g Hok) as Hf. rewrite Efl in Hf.
  split; cbn [bigs _freelist _p5s]; try apply Hok. split; [by rewrite length_replicate|].
  intros k p [-> _]%lookup_replicate. exists []. split_and!; [done|constructor|].
  by intros q' ?%elem_of_nil.
Qed.

(** Take the head of a free list. *)
Lemma mp_ok_pop σ g fl (k : nat) p b :
  mp_ok σ g → _freelist σ = Some fl → fl !! k = Some p → p ≠ 0 → bigs σ !! p = Some b →
  mp_ok (Mp (<[p := with_sign (with_wds b 0) 0]> (bigs σ)) (Some (<[k := _next b]> fl)) (_p5s σ))
    (<[p := Live]> g) ∧ g !! p = Some Free ∧ _k b = Z.of_nat k.
Proof.
  intros Hok Efl Hk Hp Hb. pose proof (ok_free σ g Hok) as Hf. rewrite Efl in Hf.
  destruct Hf as [Hlen Hf]. destruct (Hf k p Hk) as (l & Hc & Hnd & Hl).
  destruct l as [|q l]; [done|]. destruct Hc as (<- & _ & b' & Hb' & Hc). simplify_eq.
  destruct (Hl p) as (Hfree & b' & Hb' & Ek); [by apply list_elem_of_here|]. simplify_eq.
  apply NoDup_cons in Hnd as [Hnin Hnd]. split; [|done].
  set (σ' := Mp _ _ _).
  assert (∀ q, q ≠ p → <[p := Live]> g !! q = g !! q ∧ bigs σ' !! q = bigs σ !! q) as Hsame.
  { intros q Hq. split; apply lookup_insert_ne; done. }
  split.
  - cbn. rewrite lookup_insert_ne by done. apply Hok.
  - intros q. destruct (decide (q = p)) as [->|Hq].
    + unfold σ'. cbn. rewrite !lookup_insert_eq. split; intros; eauto.
    + destruct (Hsame q Hq) as [-> ->]. apply Hok.
  - intros q b' Hq. destruct (decide (q = p)) as [->|Hne].
    + unfold σ' in Hq. cbn in Hq. rewrite lookup_insert_eq in Hq. simplify_eq.
      destruct (ok_wf σ g Hok p b Hb). by split.
    + destruct (Hsame q Hne) as [_ Eq]. rewrite Eq in Hq. by apply (ok_wf σ g Hok q).
  - cbn [_freelist σ']. rewrite length_insert. split; [done|]. intros k' q Hq.
    apply list_lookup_insert_Some in Hq as [(<- & <- & _)|[Hne Hq]].
    + exists l. split_and!; [|done|].
      * apply (chain_frame (bigs σ)); [done|]. intros q Hq. apply Hsame. by intros ->.
      * intros q Hq. assert (q ≠ p) as Hqp by (by intros ->).
        destruct (Hsame q Hqp) as [-> ->]. apply Hl. by apply list_elem_of_further.
    + apply (free_chain_frame σ g _ _ p); [by apply Hf| |].
      * intros q' Hq' Hfq. by destruct (Hsame q' Hq') as [-> ->].
      * intros b' Hb' _. simplify_eq. lia.
  - apply (cache_frame σ g); [apply Hok|done|]. intros q Hq.
    destruct (Hsame q) as [-> ->]; [congruence|done].
Qed.

(** A new struct. *)
Lemma mp_ok_new σ g fl p b :
  mp_ok σ g → _freelist σ = Some fl → bigs σ !! p = None → p ≠ 0 → big_wf b →
  mp_ok (upd σ p b) (<[p := Live]> g) ∧ g !! p = None.
Proof.
  intros Hok Efl Hb Hp Hwf.
  assert (g !! p = None) as Hg.
  { destruct (g !! p) eqn:E; [|done].
    destruct (proj1 (ok_dom σ g Hok p)) as [? ?]; [by eexists|congruence]. }
  split; [|done].
  assert (∀ q o, g !! q = Some o → <[p := Live]> g !! q = g !! q ∧ bigs (upd σ p b) !! q = bigs σ !! q) as Hsame.
  { intros q o Hq. split; apply lookup_insert_ne; congruence. }
  split.
  - cbn. rewrite lookup_insert_ne by done. apply Hok.
  - intros q. cbn. rewrite !lookup_insert_is_Some. pose proof (ok_dom σ g Hok q). tauto.
  - intros q b'. cbn. rewrite lookup_insert_Some. intros [[<- <-]|[_ Hq]]; [done|].
    by apply (ok_wf σ g Hok q).
  - pose proof (ok_free σ g Hok) as Hf. cbn. rewrite Efl in *. destruct Hf as [Hlen Hf].
    split; [done|]. intros k q Hq. apply (free_chain_frame σ g _ _ p); [auto| |congruence].
    intros q' _ Hq'. destruct (Hsame q' _ Hq') as [-> ->]. done.
  - apply (cache_frame σ g); [apply Hok|done|]. intros q Hq.
    by destruct (Hsame q _ Hq) as [-> ->].
Qed.

Lemma zeroed_wf next k : 0 ≤ k ≤ 30 → s32 (Z.shiftl 1 k) = 2 ^ k ∧
  big_wf (Big next k (2 ^ k) 0 0 (replicate (Z.to_nat (2 ^ k)) 0)).
Proof.
  intros Hk. pose proof (Z.pow_le_mono_r 2 k 30). split.
  - rewrite Z.shiftl_mul_pow2, Z.mul_1_l by lia. apply s32_small. lia.
  - split; cbn; [done|done|rewrite length_replicate; lia|].
    apply Forall_replicate. unfold word. lia.
Qed.

Lemma Balloc_ok σ g k : mp_ok σ g → 0 ≤ k ≤ 30 →
  runs (Balloc k) σ (λ p σ',
    (p = 0 ∧ (∃ h n, _calloc_r h n = None) ∧ mp_ok σ' g ∧ kept σ g σ' g []) ∨
    p ≠ 0 ∧ allocated σ g k p σ').
Proof.
  intros Hok Hk. unfold Balloc. eapply runs_call; [by apply get_freelist_ok|].
  intros o σ1 [(-> & -> & Hnull)|(fl & -> & Efl & Hok1 & Hk1)].
  { apply runs_ret. left. by split_and!. }
  pose proof (ok_free σ1 g Hok1) as Hf. rewrite Efl in Hf. destruct Hf as [Hlen _].
  replace k with (Z.of_nat (Z.to_nat k)) by lia. set (n := Z.to_nat k).
  destruct (rd_lt fl n) as (p & Hp & Hrd); [lia|].
  apply (runs_lift _ p); [done|]. destruct (Z.eqb_spec p 0) as [->|Hp0]; cbn [negb].
  - apply runs_bind. unfold runs at 1, new_Bigint.
    destruct (zeroed_wf 0 (Z.of_nat n)) as [-> Hwf]; [lia|].
    destruct (_calloc_r (bigs σ1) _) as [p|] eqn:Ec.
    + apply calloc_fresh in Ec as [Hp0 Hnew].
      destruct (Z.eqb_spec p 0); [done|].
      destruct (mp_ok_new σ1 g fl p _ Hok1 Efl Hnew Hp0 Hwf) as [Hok2 Hg].
      set (b := Big _ _ _ _ _ _) in *. fold (upd σ1 p b).
      apply (runs_set_wds _ b); [apply upd_lookup|]. rewrite upd_upd.
      apply (runs_set_sign _ (with_wds b 0)); [apply upd_lookup|]. rewrite upd_upd.
      apply runs_ret. right. split; [done|]. exists b.
      split_and!; [by rewrite Hg|by rewrite Hg|exact Hok2| |apply upd_lookup|done..].
      apply (kept_step _ _ σ1 g); [done|]. split; [done|].
      intros q Hq _. split; apply lookup_insert_ne; intros <-; naive_solver.
    + cbn. left. split_and!; eauto.
  - pose proof (ok_free σ1 g Hok1) as Hf. rewrite Efl in Hf. destruct Hf as [_ Hf].
    destruct (Hf n p Hp) as ([|q l] & Hc & _); [done|]. destruct Hc as (<- & _ & b & Hb & _).
    destruct (mp_ok_pop σ1 g fl n p b Hok1 Efl Hp Hp0 Hb) as (Hok2 & Hfree & Ek).
    apply (runs_get p b); [done|]. apply runs_bind. unfold runs at 1, set_freelist.
    rewrite Efl. cbn [mbind option_bind]. rewrite wr_nat by lia.
    apply (runs_set_wds _ b); [done|].
    apply (runs_set_sign _ (with_wds b 0)); [apply upd_lookup|]. rewrite upd_upd.
    apply runs_ret. right. split; [done|]. exists (with_sign (with_wds b 0) 0).
    split_and!; [by rewrite Hfree|by rewrite Hfree|exact Hok2| |apply upd_lookup| |done..].
    + apply (kept_step _ _ σ1 g); [done|]. split; [done|].
      intros q Hq _. split; apply lookup_insert_ne; intros <-; naive_solver.
    + by destruct (ok_wf σ1 g Hok1 p b Hb).
Qed.

Lemma eBalloc_ok σ g k : mp_ok σ g → 0 ≤ k ≤ 30 → runs (eBalloc k) σ (allocated σ g k).
Proof.
  intros Hok Hk. unfold eBalloc. eapply runs_call; [by apply Balloc_ok|].
  intros p σ' [(-> & Hnull & _)|[Hp Ha]]; [exact Hnull|].
  destruct (Z.eqb_spec p 0); [done|]. by apply runs_ret.
Qed.

(** A freed struct goes to the head of its free list. *)
Lemma Bfree_ok σ g p : mp_ok σ g → g !! p = Some Live →
  runs (Bfree p) σ (λ _ σ', mp_ok σ' (<[p := Free]> g) ∧ kept σ g σ' (<[p := Free]> g) [p]).
Proof.
  intros Hok Hp. destruct (ok_lookup _ _ _ _ Hok Hp) as (b & Hb & Hwf & Hp0).
  pose proof (wf_k b Hwf) as Hk. unfold Bfree. destruct (Z.eqb_spec p 0) as [|_]; [done|].
  apply (runs_get p b); [done|].
  pose proof (ok_free σ g Hok) as Hf. destruct (_freelist σ) as [fl|] eqn:Efl; [|by rewrite Hf in Hb].
  destruct Hf as [Hlen Hf].
  assert (∃ n : nat, _k b = Z.of_nat n) as [n En] by (exists (Z.to_nat (_k b)); lia).
  destruct (rd_lt fl n) as (head & Hhead & Hrd); [lia|].
  apply runs_bind. unfold runs at 1. rewrite Efl. cbn [mbind option_bind lift]. rewrite En, Hrd.
  cbn [lift]. apply (runs_set_next _ b); [done|].
  unfold runs, set_freelist, upd. cbn [_freelist bigs _p5s]. rewrite Efl. cbn [mbind option_bind].
  rewrite wr_nat by lia. set (σ' := Mp _ _ _).
  assert (∀ q, q ≠ p → <[p := Free]> g !! q = g !! q ∧ bigs σ' !! q = bigs σ !! q) as Hsame.
  { intros q Hq. split; apply lookup_insert_ne; done. }
  split; [|split; [done|]; intros q _ Hq; apply Hsame; intros ->; apply Hq, list_elem_of_here].
  split.
  - cbn. rewrite lookup_insert_ne by done. apply Hok.
  - intros q. destruct (decide (q = p)) as [->|Hq].
    + unfold σ'. cbn. rewrite !lookup_insert_eq. split; intros; eauto.
    + destruct (Hsame q Hq) as [-> ->]. apply Hok.
  - intros q b' Hq. destruct (decide (q = p)) as [->|Hne].
    + unfold σ' in Hq. cbn in Hq. rewrite lookup_insert_eq in Hq. simplify_eq. by destruct Hwf.
    + destruct (Hsame q Hne) as [_ Eq]. rewrite Eq in Hq. by apply (ok_wf σ g Hok q).
  - cbn [_freelist σ']. rewrite length_insert. split; [done|]. intros k' q Hq.
    apply list_lookup_insert_Some in Hq as [(<- & <- & _)|[Hne Hq]].
    + destruct (Hf n head Hhead) as (l & Hc & Hnd & Hl).
      assert (∀ q, q ∈ l → q ≠ p) as Hlp by (intros q Hq ->; destruct (Hl p Hq); congruence).
      exists (p :: l). split_and!.
      * cbn. split_and!; [done..|]. eexists. split; [apply lookup_insert_eq|]. cbn.
        apply (chain_frame (bigs σ)); [done|]. intros q Hq. by apply Hsame, Hlp.
      * constructor; [|done]. intros Hin. by apply (Hlp p Hin).
      * intros q [->|Hq]%elem_of_cons.
        -- split; [apply lookup_insert_eq|]. eexists. split; [apply lookup_insert_eq|done].
        -- destruct (Hsame q (Hlp q Hq)) as [-> ->]. by apply Hl.
    + apply (free_chain_frame σ g _ _ p); [by apply Hf| |congruence].
      intros q' Hq' Hfq. by destruct (Hsame q' Hq') as [-> ->].
  - apply (cache_frame σ g); [apply Hok|done|]. intros q Hq.
    destruct (Hsame q) as [-> ->]; [congruence|done].
Qed.
End balloc.
