(* ===== verification/MprecOps.v ===== *)
(** * The operations on multiple-precision integers

    What each routine of mprec.c computes and what it does to the heap: the
    number it returns, that it gives up no number but the arguments it frees,
    and that it keeps the invariant [mp_ok]. *)
From S2P Require Import Prelude Mprec MprecNum MprecBits MprecHeap.

(** ** Normal forms *)

Lemma normal_iff x (n : nat) : Forall word x → (0 < n ≤ length x)%nat →
  normal n x ↔ n = 1%nat ∨ weight (n - 1) ≤ val (take n x).
Proof.
  intros Hx Hn. destruct n as [|n]; [lia|]. unfold normal. cbn [Nat.sub]. rewrite Nat.sub_0_r.
  destruct (lookup_lt_is_Some_2 x n) as [w Hw]; [lia|].
  pose proof (lookup_word _ _ _ Hx Hw).
  pose proof (val_bound _ (Forall_take _ n _ Hx)) as B. rewrite length_take_le in B by lia.
  pose proof (weight_pos n). split; (intros [?|Hr]; [by left|right]).
  - destruct Hr as (w' & Hw' & Hne). simplify_eq. by apply (val_top x n w).
  - exists w. split; [done|]. rewrite (val_take_S x n w) in Hr by done. intros ->. lia.
Qed.

(** The number of words in terms of the number of bits. *)
Lemma num_log2 b v (n : nat) : num b v → _wds b = Z.of_nat n → 0 < v →
  32 * (Z.of_nat n - 1) ≤ Z.log2 v < 32 * Z.of_nat n.
Proof.
  intros (n' & En & Hn & Hx & Hnorm & Ev) En' Hv. assert (n' = n) as -> by lia.
  pose proof (val_bound _ (Forall_take _ n _ Hx)) as B. rewrite length_take_le, Ev in B by lia.
  split; [|apply Z.log2_lt_pow2; [done|apply B]].
  apply normal_iff in Hnorm as [->|Hw]; [pose proof (Z.log2_nonneg v); lia| |done..].
  apply Z.log2_le_pow2; [done|]. rewrite Ev in Hw.
  replace (32 * (Z.of_nat n - 1)) with (32 * Z.of_nat (n - 1)) by lia. exact Hw.
Qed.

(** Numbers of fewer bits than this have room in a struct that [Balloc] can
    make: 2^29 words. *)
Definition max_bits : Z := 2 ^ 34.

Lemma num_words_bound b v (n : nat) : num b v → _wds b = Z.of_nat n → Z.log2 v < max_bits →
  Z.of_nat n ≤ 2 ^ 29.
Proof.
  intros Hn En Hl. unfold max_bits in Hl. pose proof (num_nonneg b v Hn).
  destruct (decide (v = 0)) as [->|].
  - destruct Hn as (n' & En' & Hn & Hx & Hnorm & Ev). assert (n' = n) as -> by lia.
    apply normal_iff in Hnorm as [->|Hw]; [lia| |done..].
    pose proof (weight_pos (n - 1)). lia.
  - pose proof (num_log2 b v n Hn En). lia.
Qed.

(** ** What an operation returns

    A struct that is the caller's, that holds a number and that was not in use
    unless it was an argument in [D]. *)
Definition yields (σ : mp) (g : gmap Z owner) (D : list Z) (R : Bigint → Prop)
    (p : Z) (σ' : mp) : Prop :=
  ∃ g' b, mp_ok σ' g' ∧ kept σ g σ' g' D ∧ g' !! p = Some Live ∧ bigs σ' !! p = Some b ∧ R b ∧
    (g !! p = Some Live ∨ g !! p = Some Cached → p ∈ D).

Section ops.
Context {C : Calloc} {CL : CallocLaws}.

Lemma runs_Bcopy x y bx by' (n : nat) {B} (k : unit → MP B) σ Q :
  bigs σ !! x = Some bx → bigs σ !! y = Some by' → _wds by' = Z.of_nat n →
  (n ≤ length (_x bx))%nat → (n ≤ length (_x by'))%nat →
  runs (k tt) (upd σ x (Big (_next bx) (_k bx) (_maxwds bx) (_sign by') (_wds by')
    (take n (_x by') ++ drop n (_x bx)))) Q →
  runs (Bcopy x y ≫= k) σ Q.
Proof.
  intros Hx Hy En H1 H2 Hk. apply runs_bind. unfold Bcopy.
  apply (runs_get x bx); [done|]. apply (runs_get y by'); [done|].
  rewrite En, Nat2Z.id. destruct (Z.leb_spec 0 (Z.of_nat n)); [|lia].
  destruct (Z.leb_spec (Z.of_nat n) (Z.of_nat (length (_x bx)))); [|lia].
  destruct (Z.leb_spec (Z.of_nat n) (Z.of_nat (length (_x by')))); [|lia].
  cbn [andb]. by rewrite En in Hk.
Qed.

(** Store a new top word. *)
Lemma num_push b x (n : nat) a v : Forall word x → (n < length x)%nat → (0 < n)%nat → word a → a ≠ 0 →
  val (take n x) + weight n * a = v →
  _wds b = Z.of_nat (S n) → _x b = <[n := a]> x → num b v.
Proof.
  intros Hx Hn Hn0 Ha H0 Ev Ew Ex. exists (S n). rewrite Ex, length_insert.
  split_and!; [done|lia|lia|by apply insert_words| |by rewrite val_take_insert by lia].
  right. exists a. split; [|done]. cbn [Nat.sub]. rewrite Nat.sub_0_r.
  apply list_lookup_insert_eq. lia.
Qed.

(** A new struct, written by its caller. *)
Lemma yields_fresh σ g k p σ1 b' (R : Bigint → Prop) :
  allocated σ g k p σ1 → big_wf b' → R b' → yields σ g [] R p (upd σ1 p b').
Proof.
  intros (b & H1 & H2 & Hok & Hkept & _) Hwf HR. exists (<[p := Live]> g), b'.
  split_and!; [by apply mp_ok_upd, Hwf; [|apply lookup_insert_eq]| |apply lookup_insert_eq
    |apply upd_lookup|done|naive_solver].
  apply (kept_trans_new _ _ σ1 (<[p := Live]> g) _ _ p); [done| |done..].
  apply kept_upd, list_elem_of_here.
Qed.

(** A new struct takes the place of [p], which is freed. *)
Lemma runs_replace σ g k p q σ1 b' (R : Bigint → Prop) :
  allocated σ g k q σ1 → g !! p = Some Live → big_wf b' → R b' →
  runs (_ ← Bfree p; mret q) (upd σ1 q b') (yields σ g [p] R).
Proof.
  intros Hal Hp Hwf HR. pose proof Hal as (b & H1 & H2 & Hok & Hkept & _).
  assert (q ≠ p) as Hqp by congruence.
  assert (<[q := Live]> g !! p = Some Live) as Hgp by (by rewrite lookup_insert_ne).
  pose proof (mp_ok_upd σ1 _ q b' Hok (lookup_insert_eq _ _ _) Hwf) as Hok2.
  eapply runs_call; [by apply Bfree_ok|]. intros [] σ3 [Hok3 Hkept3]. apply runs_ret.
  destruct (proj2 Hkept3 q) as [Hg3 Hb3]; [left; apply lookup_insert_eq|by rewrite list_elem_of_singleton|].
  eexists _, b'. split_and!; [exact Hok3| |by rewrite Hg3, lookup_insert_eq
    |by rewrite Hb3, upd_lookup|done|naive_solver].
  eapply (kept_trans_new _ _ σ1 _ _ _ q); [by apply (kept_sub _ _ _ _ []); [|by intros ? ?%elem_of_nil]| |done..].
  eapply kept_step; [by apply (kept_upd _ _ q b'), list_elem_of_here|].
  apply (kept_sub _ _ _ _ [p]); [done|]. intros r. apply list_elem_of_further.
Qed.

(** Two writes to the caller's own struct. *)
Lemma runs_push q bq (n : nat) a σ g Q :
  mp_ok σ g → g !! q = Some Live → bigs σ !! q = Some bq → (n < length (_x bq))%nat → word a →
  let b' := with_wds (with_words bq (<[n := a]> (_x bq))) (Z.of_nat n + 1) in
  (mp_ok (upd σ q b') g → Q q (upd σ q b')) →
  runs (_ ← set_word q (Z.of_nat n) a; _ ← set_wds q (Z.of_nat n + 1); mret q) σ Q.
Proof.
  intros Hok Hg Hq Hn Ha b' HQ. apply (runs_set_word q bq); [done..|].
  apply (runs_set_wds q (with_words bq (<[n := a]> (_x bq)))); [apply upd_lookup|].
  rewrite upd_upd. apply runs_ret, HQ. apply mp_ok_upd; [done..|].
  destruct (ok_wf σ g Hok q bq Hq). split; cbn; [done..|by rewrite length_insert|].
  by apply insert_words.
Qed.

(** Make room for one more word: move to a struct twice as large if [p] is
    full. *)
Lemma grow_ok σ g p b (n : nat) :
  mp_ok σ g → g !! p = Some Live → bigs σ !! p = Some b → _wds b = Z.of_nat n →
  (n ≤ length (_x b))%nat → Z.of_nat n ≤ 2 ^ 29 →
  runs (if _maxwds b <=? Z.of_nat n then
          b1 ← eBalloc (_k b + 1); _ ← Bcopy b1 p; _ ← Bfree p; mret b1
        else mret p) σ
    (yields σ g [p] (λ b', (n < length (_x b'))%nat ∧ take n (_x b') = take n (_x b) ∧
      Forall word (_x b'))).
Proof.
  intros Hok Hg Hb En Hn Hmax. pose proof (ok_wf σ g Hok p b Hb) as Hwf.
  pose proof (wf_maxwds b Hwf) as Em. pose proof (wf_length b Hwf) as El.
  pose proof (wf_k b Hwf) as Hk.
  destruct (Z.leb_spec (_maxwds b) (Z.of_nat n)).
  - assert (_k b < 30) as Hk30.
    { destruct (decide (_k b = 30)) as [E30|]; [|lia]. rewrite E30 in Em. lia. }
    eapply runs_call; [apply (eBalloc_ok σ g (_k b + 1)); [done|lia]|].
    intros q σ2 Hal. pose proof Hal as (bq & Hq1 & Hq2 & Hok2 & Hkept2 & Hbq & Hwfq & Ekq & _).
    assert (q ≠ p) as Hqp by (intros ->; done).
    destruct (proj2 Hkept2 p) as [_ Hp2]; [by left|by intros ?%elem_of_nil|]. rewrite Hb in Hp2.
    pose proof (wf_maxwds bq Hwfq) as Emq. pose proof (wf_length bq Hwfq) as Elq.
    rewrite Ekq, Z.pow_add_r in Emq by lia.
    assert (length (_x bq) = 2 * length (_x b))%nat as Elen by lia.
    apply (runs_Bcopy q p bq b n); [done..|lia|lia|]. set (b3 := Big _ _ _ _ _ _).
    assert (Forall word (_x b3)) as Hx3.
    { apply Forall_app. split; [apply Forall_take, Hwf|apply Forall_drop, Hwfq]. }
    assert (length (_x b3) = length (_x bq)) as El3.
    { cbn. rewrite length_app, length_take, length_drop. lia. }
    assert (big_wf b3) as Hwf3.
    { split; [apply Hwfq|apply Hwfq| |done]. rewrite El3. apply Hwfq. }
    apply (runs_replace σ g (_k b + 1)); [done..|]. split_and!; [lia| |done].
    cbn. rewrite take_app_le, take_take by (rewrite length_take; lia). f_equal. lia.
  - apply runs_ret. exists g, b.
    split_and!; [done|by apply kept_refl|done..|lia|done|apply Hwf|]. intros _. apply list_elem_of_here.
Qed.

Lemma multadd_ok σ g p b v m a :
  mp_ok σ g → g !! p = Some Live → bigs σ !! p = Some b → num b v →
  0 < m < 65536 → 0 ≤ a < 65536 → Z.log2 v < max_bits →
  runs (multadd p m a) σ (yields σ g [p] (λ b', num b' (v * m + a))).
Proof.
  intros Hok Hg Hb Hnum Hm Ha Hbits. pose proof (ok_wf σ g Hok p b Hb) as Hwf.
  pose proof Hnum as (n & En & Hn & Hx & Hnorm & Ev).
  pose proof (num_words_bound b v n Hnum En Hbits) as Hmax.
  destruct (multadd_words_ok (_x b) n m a Hx Hn ltac:(lia) Ha)
    as (x' & c & Ewords & Hx' & Hlen & Hc & Eval). rewrite Ev in Eval.
  unfold multadd. apply (runs_get p b); [done|]. rewrite En.
  apply (runs_lift _ (x', c)); [done|]. apply (runs_set_words p b); [done|].
  set (b1 := with_words b x'). assert (big_wf b1) as Hwf1 by (destruct Hwf; split; cbn; congruence).
  pose proof (mp_ok_upd σ g p b1 Hok Hg Hwf1) as Hok1.
  assert (kept σ g (upd σ p b1) g [p]) as Hkept1 by apply kept_upd, list_elem_of_here.
  destruct (truth c) eqn:Hc0.
  - apply truth_true in Hc0. eapply runs_call.
    { apply (grow_ok (upd σ p b1) g p b1 n); [done|done|apply upd_lookup|done|cbn; lia|done]. }
    intros q σ2 (g2 & b2 & Hok2 & Hkept2 & Hg2 & Hb2 & (Hn2 & Ht2 & Hx2) & Hnew).
    rewrite u32_small by lia. assert (word c) as Wc by (unfold word; lia).
    apply (runs_push q b2 n c σ2 g2); [done..|]. intros Hok3. eexists g2, _.
    split_and!; [done| |done|apply upd_lookup| |done].
    + eapply kept_step; [exact Hkept1|]. split; [apply Hkept2|].
      intros r Hr HrD. destruct (proj2 Hkept2 r Hr HrD) as [E1 E2].
      split; [done|]. rewrite <- E2. apply lookup_insert_ne. intros <-. by apply HrD, Hnew.
    + apply (num_push _ (_x b2) n c); [done..|lia|done|done|by rewrite Ht2|cbn; lia|done].
  - apply truth_false in Hc0 as ->. apply runs_ret. exists g, b1.
    split_and!; [done..|apply upd_lookup| |].
    + exists n. cbn. rewrite Hlen. split_and!; [done|lia|lia|done| |lia].
      apply normal_iff in Hnorm; [|done..]. apply normal_iff; [done|lia|].
      destruct Hnorm as [|Hw]; [by left|right]. pose proof (weight_pos (n - 1)). nia.
    + intros _. apply list_elem_of_here.
Qed.

(** ** i2b and s2b *)

(** The only word of a number. *)
Lemma num_single b (x : list Z) w : Forall word x → (0 < length x)%nat → word w →
  _wds b = 1 → _x b = <[0%nat := w]> x → num b w.
Proof.
  intros Hx Hl Hw Ew Ex. exists 1%nat. rewrite Ex, length_insert.
  split_and!; [done|lia|lia|by apply insert_words|by left|].
  rewrite val_take_insert, take_0, weight_0 by lia. cbn [val]. lia.
Qed.

Lemma runs_single {A} σ g k w (K : Z → MP A) Q : mp_ok σ g → 0 ≤ k ≤ 30 → word w →
  (∀ p σ1, yields σ g [] (λ b', num b' w) p σ1 → runs (K p) σ1 Q) →
  runs (b ← eBalloc k; _ ← set_word b 0 w; _ ← set_wds b 1; K b) σ Q.
Proof.
  intros Hok Hk Hw HK. eapply runs_call; [by apply eBalloc_ok|]. intros p σ1 Hal.
  pose proof Hal as (b & _ & _ & Hok1 & _ & Hb & Hwf & _).
  pose proof (wf_length b Hwf) as Hl. rewrite (wf_maxwds b Hwf) in Hl.
  pose proof (wf_k b Hwf). assert (0 < length (_x b))%nat by lia.
  apply (runs_set_word p b σ1 Hb _ _ 0 w); [done|].
  eapply runs_set_wds; [apply upd_lookup|]. rewrite upd_upd. apply HK.
  apply (yields_fresh _ _ k); [done| |].
  - destruct Hwf. split; cbn; [done..|by rewrite length_insert|by apply insert_words].
  - by apply (num_single _ (_x b)); [apply Hwf|..].
Qed.

Lemma i2b_ok σ g i : mp_ok σ g → runs (i2b i) σ (yields σ g [] (λ b', num b' (u32 i))).
Proof.
  intros Hok. apply (runs_single σ g); [done|lia|apply (wrapu_range 32); lia|].
  intros p σ1 Hy. by apply runs_ret.
Qed.

(** The number written with the decimal digits [l] after the number [v]. *)
Definition decimal (v : Z) (l : list Z) : Z := foldl (λ v c, v * 10 + (c - 48)) v l.

Definition digits (l : list Z) : Prop := Forall (λ c, 48 ≤ c ≤ 57) l.

Lemma decimal_app v l l' : decimal v (l ++ l') = decimal (decimal v l) l'.
Proof. apply foldl_app. Qed.

Lemma decimal_ge v l : digits l → 0 ≤ v → v ≤ decimal v l.
Proof.
  intros Hl. revert v. induction Hl as [|c l Hc Hl IH]; intros v Hv; [done|].
  specialize (IH (v * 10 + (c - 48)) ltac:(lia)). cbn. unfold decimal in IH. lia.
Qed.

Lemma decimal_lt l : digits l → 0 ≤ decimal 0 l < 10 ^ Z.of_nat (length l).
Proof.
  induction l as [|c l IH] using rev_ind; intros Hl; [done|].
  apply Forall_app in Hl as [Hl Hc]. apply Forall_inv in Hc. specialize (IH Hl).
  rewrite decimal_app, length_app, Nat2Z.inj_add, Z.pow_add_r by lia. cbn. lia.
Qed.

(** A call that takes over the result of the one before. *)
Lemma runs_then σ g D R p σ1 (m : MP Z) S :
  yields σ g D R p σ1 →
  (∀ g1 b, mp_ok σ1 g1 → g1 !! p = Some Live → bigs σ1 !! p = Some b → R b →
    runs m σ1 (yields σ1 g1 [p] S)) →
  runs m σ1 (yields σ g D S).
Proof.
  intros (g1 & b & Hok1 & Hk1 & Hg1 & Hb1 & HR & Hnew) Hm.
  eapply runs_mono; [by eapply Hm|].
  intros q σ2 (g2 & b2 & Hok2 & Hk2 & Hg2 & Hb2 & HS & Hnew2).
  exists g2, b2. split_and!; [done| |done..|].
  - split; [rewrite (proj1 Hk2); apply Hk1|]. intros r Hr HrD.
    destruct (proj2 Hk1 r Hr HrD) as [E1 E2]. destruct (proj2 Hk2 r) as [-> ->]; [by rewrite E1| |done].
    intros ->%list_elem_of_singleton. auto.
  - intros Hq. destruct (decide (q ∈ D)) as [|Hn]; [done|].
    destruct (proj2 Hk1 q Hq Hn) as [E1 _]. rewrite <- E1 in Hq.
    apply Hnew2, list_elem_of_singleton in Hq as ->. rewrite E1 in Hg1. auto.
Qed.

Lemma s2b_digits_ok s l j σ g p b v :
  mp_ok σ g → g !! p = Some Live → bigs σ !! p = Some b → num b v →
  digits l → take (length l) (drop j s) = l → Z.log2 (decimal v l) < max_bits →
  runs (s2b_digits (length l) p s (Z.of_nat j)) σ (yields σ g [p] (λ b', num b' (decimal v l))).
Proof.
  intros Hok Hg Hb Hnum Hl. revert j σ g p b v Hok Hg Hb Hnum.
  induction Hl as [|c l Hc Hl IH]; intros j σ g p b v Hok Hg Hb Hnum Hs Hbits.
  { apply runs_ret. exists g, b. split_and!; try done. intros _. apply list_elem_of_here. }
  cbn [length s2b_digits] in *. pose proof (num_nonneg b v Hnum) as Hv.
  destruct (drop j s) as [|c' s'] eqn:Ed; [done|]. cbn [take] in Hs. injection Hs as -> Hs.
  assert (s !! j = Some c) as Hsj by (by rewrite <- (Nat.add_0_r j), <- lookup_drop, Ed).
  pose proof (decimal_ge (v * 10 + (c - 48)) l Hl ltac:(lia)) as Hge.
  change (decimal v (c :: l)) with (decimal (v * 10 + (c - 48)) l) in *.
  pose proof (Z.log2_le_mono v (decimal (v * 10 + (c - 48)) l) ltac:(lia)).
  unfold s2b_digit. eapply runs_call.
  { apply (runs_lift _ c); [by apply rd_nat|].
    apply (multadd_ok σ g p b v 10 (c - 48)); (done || lia). }
  intros q σ1 Hy. replace (Z.of_nat j + 1) with (Z.of_nat (S j)) by lia.
  apply (runs_then _ _ _ _ _ _ _ _ Hy). intros g1 b1 Hok1 Hg1 Hb1 Hn1.
  apply (IH (S j) σ1 g1 q b1); try done. rewrite <- Nat.add_1_r, <- drop_drop, Ed. exact Hs.
Qed.

Lemma s2b_k_ok x : x ≤ 2 ^ 29 → ∃ k, s2b_k x = Some k ∧ 0 ≤ k ≤ 29.
Proof.
  intros Hx. unfold s2b_k.
  edestruct (loop_inv (λ '(k, y), y = 2 ^ k ∧ 0 ≤ k ≤ 29) (λ k, 0 ≤ k ≤ 29) (λ '(k, _), 29 - k))
    as (k & -> & HQ); [| |lia|by exists k].
  - intros [k y] [-> Hk]. split; [lia|]. destruct (Z.ltb_spec (2 ^ k) x); [|done].
    assert (k < 29) by (destruct (decide (k = 29)) as [->|]; lia).
    pose proof (Z.pow_le_mono_r 2 (k + 1) 29).
    rewrite Z.shiftl_mul_pow2 by lia. rewrite Z.pow_add_r in * by lia.
    change (2 ^ 1) with 2 in *. rewrite s32_small by lia. lia.
  - done.
Qed.

(** The digits before and after the point, the first nine already in [y9]. *)
Lemma s2b_ok σ g ip pt fp :
  mp_ok σ g → digits ip → digits fp →
  9 ≤ Z.of_nat (length (ip ++ fp)) ≤ 2 ^ 30 → Z.log2 (decimal 0 (ip ++ fp)) < max_bits →
  runs (s2b (ip ++ pt :: fp) (Z.of_nat (length ip)) (Z.of_nat (length (ip ++ fp)))
         (decimal 0 (take 9 (ip ++ fp)))) σ
    (yields σ g [] (λ b', num b' (decimal 0 (ip ++ fp)))).
Proof.
  intros Hok Hip Hfp Hnd Hbits. unfold s2b.
  assert (digits (ip ++ fp)) as Hd by (by apply Forall_app).
  pose proof (decimal_lt (take 9 (ip ++ fp)) (Forall_take _ _ _ Hd)) as By.
  rewrite length_take_le in By by lia.
  destruct (s2b_k_ok ((Z.of_nat (length (ip ++ fp)) + 8) ÷ 9)) as (k & Ek & Hk).
  { rewrite Z.quot_div_nonneg by lia. apply Z.div_le_upper_bound; lia. }
  apply (runs_lift _ k); [done|]. apply (runs_single σ g); [done|lia|unfold word; lia|].
  intros p σ1 Hy. destruct (Z.ltb_spec 9 (Z.of_nat (length ip))) as [H9|H9].
  - rewrite take_app_le in Hy by lia. pose proof (decimal_lt ip Hip).
    assert (Z.log2 (decimal 0 ip) < max_bits) as Hbi.
    { eapply Z.le_lt_trans; [apply Z.log2_le_mono|exact Hbits].
      rewrite decimal_app. apply decimal_ge; [done|lia]. }
    assert (decimal (decimal 0 (take 9 ip)) (drop 9 ip) = decimal 0 ip) as E1
      by (by rewrite <- decimal_app, take_drop).
    eapply runs_call.
    { apply (runs_then _ _ _ _ _ _ _ (λ b', num b' (decimal 0 ip)) Hy). intros g1 b1 Hok1 Hg1 Hb1 Hn1.
      replace (Z.to_nat (Z.of_nat (length ip) - 9)) with (length (drop 9 ip))
        by (rewrite length_drop; lia). change 9 with (Z.of_nat 9). rewrite <- E1.
      apply (s2b_digits_ok _ (drop 9 ip) 9 _ g1 p b1); try done;
        [by apply Forall_drop| |by rewrite E1].
      rewrite drop_app_le, take_app_le, firstn_all by lia. done. }
    intros q σ2 Hy2. apply (runs_then _ _ _ _ _ _ _ _ Hy2). intros g1 b1 Hok1 Hg1 Hb1 Hn1.
    rewrite decimal_app, length_app in *.
    replace (Z.to_nat (Z.of_nat (length ip + length fp) - Z.of_nat (length ip))) with (length fp) by lia.
    replace (Z.of_nat (length ip) + 1) with (Z.of_nat (S (length ip))) by lia.
    apply (s2b_digits_ok _ fp (S (length ip)) _ g1 q b1); try done.
    rewrite drop_app_ge by lia. replace (S (length ip) - length ip)%nat with 1%nat by lia.
    cbn. by rewrite firstn_all.
  - apply (runs_then _ _ _ _ _ _ _ _ Hy). intros g1 b1 Hok1 Hg1 Hb1 Hn1.
    assert (decimal (decimal 0 (take 9 (ip ++ fp))) (drop 9 (ip ++ fp)) = decimal 0 (ip ++ fp)) as E1
      by (by rewrite <- decimal_app, take_drop).
    replace (Z.to_nat (Z.of_nat (length (ip ++ fp)) - 9)) with (length (drop 9 (ip ++ fp)))
      by (rewrite length_drop; lia). change 10 with (Z.of_nat 10). rewrite <- E1.
    apply (s2b_digits_ok _ (drop 9 (ip ++ fp)) 10 _ g1 p b1); try done;
      [by apply Forall_drop| |by rewrite E1].
    assert (drop 10 (ip ++ pt :: fp) = drop 9 (ip ++ fp)) as ->; [|by rewrite firstn_all].
    rewrite !drop_app_ge by lia. by replace (10 - length ip)%nat with (S (9 - length ip)) by lia.
Qed.

(** ** mult *)

Definition in_use (g : gmap Z owner) (p : Z) : Prop := g !! p = Some Live ∨ g !! p = Some Cached.

(** The arguments may be the same struct, and may be in the cache. *)
Lemma mult_ordered_ok σ g p q a b va vb :
  mp_ok σ g → in_use g p → in_use g q → bigs σ !! p = Some a → bigs σ !! q = Some b →
  num a va → num b vb → 0 < va → 0 < vb → _wds b ≤ _wds a → Z.log2 (va * vb) < max_bits →
  runs (mult_ordered p q) σ (yields σ g [] (λ c, num c (va * vb))).
Proof.
  intros Hok Hp Hq Ha Hb Hna Hnb Hva Hvb Hle Hbits.
  pose proof Hna as (na & Ena & Hla & Hxa & Hnorma & Eva).
  pose proof Hnb as (nb & Enb & Hlb & Hxb & Hnormb & Evb).
  pose proof (ok_wf σ g Hok p a Ha) as Hwfa. pose proof (wf_k a Hwfa) as Hk.
  pose proof (wf_maxwds a Hwfa) as Em. pose proof (wf_length a Hwfa) as El.
  assert (Z.of_nat (na + nb) ≤ 2 ^ 30) as Hsize.
  { pose proof (num_log2 a va na Hna Ena Hva). pose proof (num_log2 b vb nb Hnb Enb Hvb).
    pose proof (Z.log2_mul_below va vb Hva Hvb). unfold max_bits in Hbits. lia. }
  unfold mult_ordered. apply (runs_get p a); [done|]. apply (runs_get q b); [done|].
  rewrite Ena, Enb, <- Nat2Z.inj_add. set (k := if _ <? _ then _ else _).
  assert (0 ≤ k ≤ 30 ∧ Z.of_nat (na + nb) ≤ 2 ^ k) as [Hk' Hroom].
  { unfold k. destruct (Z.ltb_spec (_maxwds a) (Z.of_nat (na + nb))) as [Hlt|]; [|lia].
    rewrite Z.pow_add_r by lia. assert (_k a ≠ 30) by (intros E30; rewrite E30 in Em; lia). lia. }
  eapply runs_call; [by apply (eBalloc_ok σ g k)|].
  intros r σ1 Hal. pose proof Hal as (c & Hr1 & Hr2 & Hok1 & Hkept1 & Hc & Hwfc & Ekc & _).
  pose proof (wf_maxwds c Hwfc) as Emc. pose proof (wf_length c Hwfc) as Elc. rewrite Ekc in Emc.
  apply (runs_get r c); [done|].
  destruct (zero_words_ok (_x c) (na + nb)) as (x0 & E0 & Hx0 & Hl0 & Hz0 & _); [apply Hwfc|lia|].
  apply (runs_lift _ x0); [done|].
  destruct (mult_words_ok (_x a) na (_x b) nb x0) as (x1 & E1 & Hx1 & Hl1 & Ev1);
    [done|lia|done|lia|done|lia|done|].
  apply (runs_lift _ x1); [done|]. apply (runs_set_words r c); [done|].
  destruct (trim_ok x1 (na + nb)) as (n & En & Hn & Ev2 & Htop); [lia|].
  apply (runs_lift _ (Z.of_nat n)); [done|].
  eapply runs_set_wds; [apply upd_lookup|]. rewrite upd_upd. apply runs_ret.
  rewrite Ev1, Eva, Evb in Ev2.
  apply (yields_fresh _ _ k); [done| |].
  - destruct Hwfc. split; cbn; [done..| |done]. by rewrite Hl1, Hl0.
  - exists n. cbn. destruct Htop as [->|Htop].
    + rewrite take_0 in Ev2. cbn [val] in Ev2. nia.
    + assert (n ≠ 0%nat) by (intros ->; rewrite take_0 in Ev2; cbn [val] in Ev2; nia).
      split_and!; [done|lia|lia|done|by right|done].
Qed.

Lemma mult_ok σ g p q a b va vb :
  mp_ok σ g → in_use g p → in_use g q → bigs σ !! p = Some a → bigs σ !! q = Some b →
  num a va → num b vb → 0 < va → 0 < vb → Z.log2 (va * vb) < max_bits →
  runs (mult p q) σ (yields σ g [] (λ c, num c (va * vb))).
Proof.
  intros Hok Hp Hq Ha Hb Hna Hnb Hva Hvb Hbits. unfold mult.
  apply (runs_get p a); [done|]. apply (runs_get q b); [done|].
  destruct (Z.ltb_spec (_wds a) (_wds b)).
  - rewrite Z.mul_comm in *. apply (mult_ordered_ok σ g q p b a); (done || lia).
  - by apply (mult_ordered_ok σ g p q a b).
Qed.

(** ** lshift *)

Lemma normal_pos x (n : nat) : Forall word x → (0 < n ≤ length x)%nat → normal n x →
  0 < val (take n x) → weight (n - 1) ≤ val (take n x).
Proof.
  intros Hx Hn Hnorm Hpos. apply normal_iff in Hnorm as [->|]; [|done..].
  change (weight (1 - 1)) with 1. lia.
Qed.

(** The words of the result, when [x1] has [n] zero words and room for one word
    more than those of [x]. *)
Lemma lshift_words_ok x (wds n : nat) r x1 σ :
  Forall word x → (0 < wds ≤ length x)%nat → normal wds x → 0 < val (take wds x) → 0 ≤ r < 32 →
  Forall word x1 → (n + wds < length x1)%nat → take n x1 = replicate n 0 →
  runs (if truth r then
          '(x1, z) ← lift (lshift_bits x (Z.of_nat wds) r x1 (Z.of_nat n));
          mret (x1, if truth z then Z.of_nat n + Z.of_nat wds + 1 + 1 else Z.of_nat n + Z.of_nat wds + 1)
        else
          x1 ← lift (lshift_copy x (Z.of_nat wds) x1 (Z.of_nat n));
          mret (x1, Z.of_nat n + Z.of_nat wds + 1)) σ
    (λ '(x', n1) σ', σ' = σ ∧ ∃ m : nat, n1 = Z.of_nat m + 1 ∧ Forall word x' ∧ length x' = length x1 ∧
      (0 < m ≤ length x')%nat ∧ normal m x' ∧ val (take m x') = weight n * (2 ^ r * val (take wds x))).
Proof.
  intros Hx Hw Hnorm Hpos Hr Hx1 Hl Hz.
  pose proof (normal_pos x wds Hx Hw Hnorm Hpos) as Htop.
  assert (weight (n + wds - 1) ≤ weight n * (2 ^ r * val (take wds x))) as Hbig.
  { replace (n + wds - 1)%nat with (n + (wds - 1))%nat by lia. rewrite weight_add.
    pose proof (weight_pos n). apply Z.mul_le_mono_nonneg_l; [lia|]. nia. }
  destruct (truth r) eqn:Hr0.
  - apply truth_true in Hr0.
    destruct (lshift_bits_ok x wds r x1 n) as (x' & z & E & Hx' & Hl' & Hzt & Ev); [done..|lia|done|done|].
    rewrite Hz, val_replicate_0, Z.add_0_l in Ev. apply (runs_lift _ (x', z)); [done|]. apply runs_ret.
    split; [done|]. destruct (truth z) eqn:Hz0.
    + apply truth_true in Hz0. exists (S (n + wds)). rewrite Hl'.
      split_and!; [lia|done|done|lia|lia| |].
      * right. exists z. cbn [Nat.sub]. by rewrite Nat.sub_0_r.
      * by rewrite (val_take_S _ _ z).
    + apply truth_false in Hz0 as ->. rewrite Z.mul_0_r, Z.add_0_r in Ev.
      exists (n + wds)%nat. rewrite Hl'. split_and!; [lia|done|done|lia|lia| |done].
      apply normal_iff; [done|lia|]. right. by rewrite Ev.
  - apply truth_false in Hr0 as ->.
    destruct (lshift_copy_ok x wds x1 n) as (x' & E & Hx' & Hl' & _ & Ev); [done..|lia|].
    rewrite Hz, val_replicate_0, Z.add_0_l in Ev. apply (runs_lift _ x'); [done|]. apply runs_ret.
    split; [done|]. exists (n + wds)%nat. rewrite Hl', Ev. change (2 ^ 0) with 1 in *.
    rewrite Z.mul_1_l in *. split_and!; [lia|done|done|lia|lia| |done].
    apply normal_iff; [done|lia|]. right. by rewrite Ev.
Qed.

Lemma lshift_ok σ g p b v k :
  mp_ok σ g → g !! p = Some Live → bigs σ !! p = Some b → num b v → 0 < v → 0 ≤ k →
  Z.log2 (v * 2 ^ k) < max_bits →
  runs (lshift p k) σ (yields σ g [p] (λ b', num b' (v * 2 ^ k))).
Proof.
  intros Hok Hp Hb Hnum Hv Hk Hbits. pose proof Hnum as (wds & Ew & Hl & Hx & Hnorm & Ev).
  pose proof (ok_wf σ g Hok p b Hb) as Hwf. pose proof (wf_k b Hwf).
  pose proof (Z.div_mod k 32 ltac:(lia)) as Ek. pose proof (Z.mod_pos_bound k 32 ltac:(lia)) as Br.
  unfold lshift. rewrite Z.shiftr_div_pow2 by lia. change 31 with (2 ^ 5 - 1).
  rewrite land_low_mask by lia. change (2 ^ 5) with 32.
  assert (∃ n : nat, k / 32 = Z.of_nat n) as [n En].
  { exists (Z.to_nat (k / 32)). pose proof (Z.div_pos k 32). lia. }
  rewrite En in *. set (r := k mod 32) in *.
  pose proof (num_log2 b v wds Hnum Ew Hv) as Hlog.
  rewrite Z.log2_mul_pow2 in Hbits by lia. unfold max_bits in Hbits.
  apply (runs_get p b); [done|]. rewrite Ew.
  destruct (lshift_k_ok (Z.of_nat n + Z.of_nat wds + 1) (_k b)) as (k1 & Ek1 & Hk1 & Hroom); [lia|lia|].
  rewrite (wf_maxwds b Hwf). apply (runs_lift _ k1); [done|].
  eapply runs_call; [apply (eBalloc_ok σ g k1); [done|lia]|].
  intros q σ1 Hal. pose proof Hal as (c & Hr1 & Hr2 & Hok1 & Hkept1 & Hc & Hwfc & Ekc & _).
  pose proof (wf_maxwds c Hwfc) as Emc. pose proof (wf_length c Hwfc) as Elc. rewrite Ekc in Emc.
  apply (runs_get q c); [done|].
  destruct (zero_words_ok (_x c) n) as (x0 & E0 & Hx0 & Hl0 & Hz0 & _); [apply Hwfc|lia|].
  apply (runs_lift _ x0); [done|].
  eapply runs_call; [apply (lshift_words_ok (_x b) wds n r x0); (done || lia)|].
  intros [x1 n1] σ' (-> & m & -> & Hx1 & Hl1 & Hm & Hnorm1 & Ev1).
  apply (runs_set_words q c); [done|]. eapply runs_set_wds; [apply upd_lookup|]. rewrite upd_upd.
  apply (runs_replace σ g k1); [done..| |].
  - destruct Hwfc. split; cbn; [done..| |done]. by rewrite Hl1, Hl0.
  - exists m. cbn. split_and!; [lia|lia|lia|done..|].
    rewrite Ev1, Ev, Ek, Z.pow_add_r by lia. unfold weight. ring.
Qed.

(** ** cmp and diff *)

Lemma cmp_ok σ p q a b va vb :
  bigs σ !! p = Some a → bigs σ !! q = Some b → num a va → num b vb →
  runs (cmp p q) σ (λ r σ', σ' = σ ∧ Z.sgn r = Z.sgn (va - vb)).
Proof.
  intros Ha Hb Hna Hnb. unfold cmp. apply (runs_get p a); [done|]. apply (runs_get q b); [done|].
  destruct (cmp_big_ok a b va vb Hna Hnb) as (r & -> & Hr). done.
Qed.

(** The number in [c], and which operand was the larger. *)
Definition difference (va vb : Z) (c : Bigint) : Prop :=
  num c (Z.abs (va - vb)) ∧ _sign c = if va <? vb then 1 else 0.

Lemma diff_larger_ok σ g p q a b va vb sgn :
  mp_ok σ g → bigs σ !! p = Some a → bigs σ !! q = Some b → num a va → num b vb → vb < va →
  runs (ba ← getBig p;
        bb ← getBig q;
        c ← eBalloc (_k ba);
        _ ← set_sign c sgn;
        bc ← getBig c;
        x ← lift (diff_words (_x ba) (_wds ba) (_x bb) (_wds bb) (_x bc));
        _ ← set_words c x;
        wa ← lift (diff_trim x (_wds ba));
        _ ← set_wds c wa;
        mret c) σ
    (yields σ g [] (λ c, num c (va - vb) ∧ _sign c = sgn)).
Proof.
  intros Hok Ha Hb (na & Ena & Hla & Hxa & Hnorma & Eva) (nb & Enb & Hlb & Hxb & Hnormb & Evb) Hlt.
  pose proof (ok_wf σ g Hok p a Ha) as Hwfa.
  assert (nb ≤ na)%nat as Hn.
  { destruct (decide (nb ≤ na)%nat); [done|].
    pose proof (more_words_lt (_x b) nb (_x a) na Hxb Hxa ltac:(lia) Hla Hnormb). lia. }
  apply (runs_get p a); [done|]. apply (runs_get q b); [done|]. rewrite Ena, Enb.
  eapply runs_call; [apply (eBalloc_ok σ g (_k a)); [done|apply Hwfa]|].
  intros r σ1 Hal. pose proof Hal as (c & _ & _ & Hok1 & _ & Hc & Hwfc & Ekc & _).
  pose proof (wf_maxwds c Hwfc) as Emc. pose proof (wf_length c Hwfc) as Elc.
  pose proof (wf_maxwds a Hwfa) as Ema. pose proof (wf_length a Hwfa) as Ela.
  rewrite Ekc, <- Ema, <- Ela in Emc.
  apply (runs_set_sign r c); [done|]. eapply runs_get; [apply upd_lookup|].
  destruct (diff_words_ok (_x a) na (_x b) nb (_x c)) as (x & Ex & Hx & Hl & Ev);
    [done|done|apply Hwfc|lia|lia|lia|lia|].
  apply (runs_lift _ x); [done|]. eapply runs_set_words; [apply upd_lookup|]. rewrite upd_upd.
  destruct (diff_trim_ok x na) as (n & En & Hn' & Ev' & Hnorm); [done|lia|lia|].
  apply (runs_lift _ (Z.of_nat n)); [done|]. eapply runs_set_wds; [apply upd_lookup|]. rewrite upd_upd.
  apply runs_ret. apply (yields_fresh _ _ (_k a)); [done| |].
  - destruct Hwfc. split; cbn; [done..| |done]. by rewrite Hl.
  - split; [|done]. exists n. cbn. split_and!; [done|lia|lia|done|done|lia].
Qed.

Lemma yields_mono σ g D (R S : Bigint → Prop) p σ' :
  yields σ g D R p σ' → (∀ b, R b → S b) → yields σ g D S p σ'.
Proof. intros (g' & b & Hy) HS. exists g', b. naive_solver. Qed.

Lemma diff_ok σ g p q a b va vb :
  mp_ok σ g → bigs σ !! p = Some a → bigs σ !! q = Some b → num a va → num b vb →
  runs (diff p q) σ (yields σ g [] (difference va vb)).
Proof.
  intros Hok Ha Hb Hna Hnb. unfold diff. eapply runs_call; [by eapply cmp_ok|].
  intros i σ' [-> Hi]. destruct (Z.eqb_spec i 0) as [->|Hi0].
  - assert (va = vb) as <- by lia. eapply runs_call; [apply (eBalloc_ok σ g 0); [done|lia]|].
    intros r σ1 Hal. pose proof Hal as (c & _ & _ & Hok1 & _ & Hc & Hwfc & Ekc & _ & Es).
    pose proof (wf_maxwds c Hwfc) as Emc. pose proof (wf_length c Hwfc) as Elc. rewrite Ekc in Emc.
    assert (0 < length (_x c))%nat by lia.
    apply (runs_set_wds r c); [done|].
    eapply (runs_set_word _ _ _ (upd_lookup _ _ _) _ _ 0); [done|]. rewrite upd_upd. apply runs_ret.
    apply (yields_fresh _ _ 0); [done| |].
    + destruct Hwfc. split; cbn; [done..|by rewrite length_insert|].
      apply insert_words; [done|]. unfold word. lia.
    + split; [|cbn; by rewrite Es, Z.ltb_irrefl]. rewrite Z.sub_diag.
      apply (num_single _ (_x c)); [apply Hwfc|done|unfold word; lia|done..].
  - unfold difference. destruct (Z.ltb_spec i 0).
    + assert (va < vb) by lia. eapply runs_mono; [by apply (diff_larger_ok σ g q p b a vb va 1)|].
      intros r σ2 Hy. apply (yields_mono _ _ _ _ _ _ _ Hy). intros c [Hc Hs].
      replace (Z.abs (va - vb)) with (vb - va) by lia. split; [done|].
      destruct (Z.ltb_spec va vb); (done || lia).
    + assert (vb < va) by lia. eapply runs_mono; [by apply (diff_larger_ok σ g p q a b va vb 0)|].
      intros r σ2 Hy. apply (yields_mono _ _ _ _ _ _ _ Hy). intros c [Hc Hs].
      replace (Z.abs (va - vb)) with (va - vb) by lia. split; [done|].
      destruct (Z.ltb_spec va vb); (done || lia).
Qed.
End ops.
