(* ===== verification/MprecConv.v ===== *)
(** * Powers of five and conversion of doubles

    [pow5mult] with the cache of powers it builds and shares between calls,
    and [d2b]. *)
From S2P Require Import Prelude Mprec MprecNum MprecBits MprecHeap MprecOps.

(** ** Loops in the monad *)

Lemma mloop_ok `{Calloc} {A B} (I : nat → A → mp → Prop) (Q : B → mp → Prop) (f : A → MP (A + B)) :
  (∀ n a σ, I n a σ → runs (f a) σ (λ r σ',
    match r with inl a' => ∃ n', (n' < n)%nat ∧ I n' a' σ' | inr b => Q b σ' end)) →
  ∀ fuel n a σ, I n a σ → (n < fuel)%nat → runs (mloop fuel f a) σ Q.
Proof.
  intros Hf. induction fuel as [|fuel IH]; intros n a σ HI Hn; [lia|].
  cbn [mloop]. eapply runs_call; [by apply Hf|]. intros [a'|b] σ' Hr; [|by apply runs_ret].
  destruct Hr as (n' & Hn' & HI'). apply (IH n'); [done|lia].
Qed.

(** ** The cache *)

(** [q] is the entry [i] of the cache. *)
Definition cached_at (σ : mp) (g : gmap Z owner) (i : nat) (q : Z) : Prop :=
  ∃ l, chain (bigs σ) (_p5s σ) l ∧ NoDup l ∧ powers σ g 0 l ∧ l !! i = Some q.

Lemma cached_kept σ g σ' g' D i q :
  cached_at σ g i q → kept σ g σ' g' D → (∀ p, p ∈ D → g !! p = Some Live) → cached_at σ' g' i q.
Proof.
  intros (l & Hc & Hnd & Hp & Hi) [E Hk] HD. exists l. rewrite E.
  assert (∀ r, g !! r = Some Cached → g' !! r = Some Cached ∧ bigs σ' !! r = bigs σ !! r) as Hsame.
  { intros r Hr. destruct (Hk r) as [-> ->]; [by right| |done]. intros HrD%HD. congruence. }
  split_and!; [|done| |done].
  - apply (chain_frame (bigs σ)); [done|]. intros r Hr. apply Hsame. by eapply powers_elem.
  - by eapply powers_frame.
Qed.

Lemma chain_next h p l i q b :
  chain h p l → l !! i = Some q → h !! q = Some b → _next b = default 0 (l !! S i).
Proof.
  revert p i. induction l as [|r l IH]; intros p [|i] Hc Hi Hb; [done..| |].
  - injection Hi as ->. destruct Hc as (-> & _ & b' & Hb' & Hc). simplify_eq.
    destruct l as [|s l]; [done|]. by destruct Hc as (-> & _).
  - destruct Hc as (_ & _ & b' & _ & Hc). by apply (IH (_next b')).
Qed.

Lemma chain_nonzero h p l i q : chain h p l → l !! i = Some q → q ≠ 0.
Proof.
  revert p i. induction l as [|r l IH]; intros p [|i] Hc Hi; [done..| |].
  - injection Hi as ->. by destruct Hc as (_ & ? & _).
  - destruct Hc as (_ & _ & b & _ & Hc). by eapply IH.
Qed.

(** Link [r] after the last struct [q] of a chain. *)
Lemma chain_snoc h p l q bq r br :
  chain h p (l ++ [q]) → NoDup (l ++ [q]) → h !! q = Some bq → r ∉ l ++ [q] → r ≠ 0 →
  chain (<[r := with_next br 0]> (<[q := with_next bq r]> h)) p (l ++ [q; r]).
Proof.
  revert p. induction l as [|s l IH]; intros p Hc Hnd Hq Hr Hr0.
  - cbn in *. destruct Hc as (-> & Hq0 & _). rewrite elem_of_cons in Hr.
    split_and!; [done..|]. exists (with_next bq r).
    rewrite lookup_insert_ne, lookup_insert_eq by naive_solver. split; [done|].
    split_and!; [done..|]. exists (with_next br 0). by rewrite lookup_insert_eq.
  - cbn [app chain] in *. destruct Hc as (-> & Hs0 & b & Hb & Hc).
    apply NoDup_cons in Hnd as [Hs Hnd]. rewrite elem_of_cons in Hr.
    split_and!; [done..|]. exists b. split; [|apply IH; naive_solver].
    rewrite !lookup_insert_ne; [done| |naive_solver].
    intros ->. apply Hs, elem_of_app. right. apply list_elem_of_here.
Qed.

(** A caller's struct becomes part of the cache. *)
Lemma mp_ok_cache σ g r σ' :
  mp_ok σ g → g !! r = Some Live → _freelist σ' = _freelist σ →
  (∀ q, is_Some (bigs σ' !! q) ↔ is_Some (bigs σ !! q)) →
  (∀ q b, bigs σ' !! q = Some b → big_wf b) →
  (∀ q, g !! q = Some Free → bigs σ' !! q = bigs σ !! q) →
  cache_ok σ' (<[r := Cached]> g) → mp_ok σ' (<[r := Cached]> g).
Proof.
  intros Hok Hr Ef Hdom Hwf Hfree Hcache.
  destruct (ok_lookup _ _ _ _ Hok Hr) as (b & Hb & _ & Hr0). split; [| |done| |done].
  - apply eq_None_not_Some. rewrite Hdom, (ok_null σ g Hok). by intros [].
  - intros q. rewrite Hdom, <- (ok_dom σ g Hok q), lookup_insert_is_Some.
    destruct (decide (r = q)) as [<-|]; [rewrite Hr|]; intuition eauto.
  - pose proof (ok_free σ g Hok) as Hf. rewrite Ef. destruct (_freelist σ) as [fl|].
    + destruct Hf as [Hlen Hf]. split; [done|]. intros k q Hq.
      apply (free_chain_frame σ g _ _ r); [auto| |congruence].
      intros q' Hne Hq'. rewrite lookup_insert_ne by done. auto.
    + by rewrite Hf in Hb.
Qed.

Lemma num_with_next b u v : num b v → num (with_next b u) v.
Proof. done. Qed.
Lemma big_wf_with_next b u : big_wf b → big_wf (with_next b u).
Proof. by intros []. Qed.

Lemma powers_app σ g l r :
  powers σ g 0 l → powers σ g (length l) [r] → powers σ g 0 (l ++ [r]).
Proof.
  intros Hl Hr j q [Hj|[Hlen Hj]]%lookup_app_Some; [by apply Hl|].
  pose proof (lookup_lt_Some _ _ _ Hj) as Hlt. cbn in Hlt.
  replace j with (length l + (j - length l))%nat by lia. by apply Hr.
Qed.

Lemma mp_ok_extend σ g i q bq r br :
  mp_ok σ g → cached_at σ g i q → bigs σ !! q = Some bq → _next bq = 0 →
  g !! r = Some Live → bigs σ !! r = Some br → num br (5 ^ (4 * 2 ^ Z.of_nat (S i))) →
  let σ' := upd (upd σ q (with_next bq r)) r (with_next br 0) in
  mp_ok σ' (<[r := Cached]> g) ∧ cached_at σ' (<[r := Cached]> g) (S i) r.
Proof.
  intros Hok (l & Hc & Hnd & Hpow & Hi) Hq Hnext Hr Hbr Hnum σ'.
  rewrite (chain_next _ _ _ _ _ _ Hc Hi Hq) in Hnext.
  destruct (l !! S i) as [s|] eqn:Es; [by apply chain_nonzero with (2 := Es) in Hc|]. clear Hnext.
  apply lookup_ge_None in Es. pose proof (lookup_lt_Some _ _ _ Hi) as Hlt.
  assert (l = take i l ++ [q]) as El.
  { rewrite <- (take_S_r _ _ _ Hi). by rewrite take_ge by lia. }
  assert (∀ s, s ∈ l → g !! s = Some Cached) as Hcached by (intros; by eapply powers_elem).
  assert (r ∉ l) as Hrl by (intros ?%Hcached; congruence).
  assert (q ≠ r) as Hqr by (intros ->; apply Hrl; by eapply list_elem_of_lookup_2).
  destruct (ok_lookup _ _ _ _ Hok Hr) as (? & _ & _ & Hr0).
  set (g' := <[r := Cached]> g).
  assert (chain (bigs σ') (_p5s σ') (l ++ [r])) as Hc'.
  { rewrite El in Hc, Hnd, Hrl. rewrite El, <- app_assoc. by apply chain_snoc. }
  assert (NoDup (l ++ [r])) as Hnd'.
  { apply NoDup_app. split_and!; [done| |apply NoDup_singleton].
    intros s Hs ->%list_elem_of_singleton. done. }
  assert (powers σ' g' 0 (l ++ [r])) as Hpow'.
  { apply powers_app.
    - intros j s Hj. assert (s ∈ l) as Hs by (by eapply list_elem_of_lookup_2).
      assert (s ≠ r) as Hsr by (intros ->; done).
      destruct (Hpow j s Hj) as (Hg & b & Hb & Hn). unfold g', σ'. cbn.
      rewrite !(lookup_insert_ne _ r s) by done. split; [done|].
      destruct (decide (s = q)) as [->|Hsq].
      + rewrite lookup_insert_eq. eexists. split; [done|]. simplify_eq. by apply num_with_next.
      + rewrite lookup_insert_ne by done. by exists b.
    - intros [|j] s Hs; [|done]. injection Hs as <-. split; [apply lookup_insert_eq|].
      eexists. split; [apply lookup_insert_eq|]. apply num_with_next.
      rewrite Nat.add_0_r. by replace (length l) with (S i) by lia. }
  split.
  - apply (mp_ok_cache σ g r); [done|done|done| | | |by exists (l ++ [r])].
    + intros s. unfold σ'. cbn. rewrite !lookup_insert_is_Some.
      destruct (decide (r = s)) as [<-|]; [rewrite Hbr; intuition eauto|].
      destruct (decide (q = s)) as [<-|]; [rewrite Hq|]; intuition eauto.
    + intros s b. unfold σ'. cbn. rewrite !lookup_insert_Some.
      intros [[<- <-]|[_ [[<- <-]|[_ Hb]]]]; [apply big_wf_with_next..|];
        by eapply (ok_wf σ g Hok).
    + intros s Hs. unfold σ'. cbn. rewrite !lookup_insert_ne; [done| |congruence].
      intros <-. rewrite (Hcached q) in Hs; [done|]. by eapply list_elem_of_lookup_2.
  - exists (l ++ [r]). split_and!; [done..|]. rewrite lookup_app_r by lia.
    by replace (S i - length l)%nat with 0%nat by lia.
Qed.

(** The first entry. *)
Lemma mp_ok_first σ g r br :
  mp_ok σ g → _p5s σ = 0 → g !! r = Some Live → bigs σ !! r = Some br → num br 625 →
  let σ' := Mp (<[r := with_next br 0]> (bigs σ)) (_freelist σ) r in
  mp_ok σ' (<[r := Cached]> g) ∧ cached_at σ' (<[r := Cached]> g) 0 r.
Proof.
  intros Hok H0 Hr Hbr Hnum σ'. destruct (ok_lookup _ _ _ _ Hok Hr) as (? & _ & Hwf & Hr0).
  assert (chain (bigs σ') (_p5s σ') [r]) as Hc.
  { split_and!; [done..|]. eexists. split; [apply lookup_insert_eq|done]. }
  assert (powers σ' (<[r := Cached]> g) 0 [r]) as Hp.
  { intros [|j] s Hs; [|done]. injection Hs as <-. split; [apply lookup_insert_eq|].
    eexists. split; [apply lookup_insert_eq|]. by apply num_with_next. }
  split; [|exists [r]; split_and!; [done|apply NoDup_singleton|done..]].
  apply (mp_ok_cache σ g r); [done|done|done| | | |exists [r]; split_and!; [done|apply NoDup_singleton|done]].
  - intros s. unfold σ'. cbn. rewrite lookup_insert_is_Some.
    destruct (decide (r = s)) as [<-|]; [rewrite Hbr|]; intuition eauto.
  - intros s b. unfold σ'. cbn. rewrite lookup_insert_Some.
    intros [[<- <-]|[_ Hb]]; [apply big_wf_with_next|]; by eapply (ok_wf σ g Hok).
  - intros s Hs. unfold σ'. cbn. rewrite lookup_insert_ne; [done|congruence].
Qed.

(** ** pow5mult *)

Definition kept_live (σ : mp) (g : gmap Z owner) (σ' : mp) (g' : gmap Z owner) (D : list Z) : Prop :=
  ∀ p, g !! p = Some Live → p ∉ D → g' !! p = Some Live ∧ bigs σ' !! p = bigs σ !! p.

(** As [yields], but the cache may have grown. *)
Definition yields_live (σ : mp) (g : gmap Z owner) (D : list Z) (v p : Z) (σ' : mp) : Prop :=
  ∃ g' b, mp_ok σ' g' ∧ kept_live σ g σ' g' D ∧ g' !! p = Some Live ∧ bigs σ' !! p = Some b ∧
    num b v ∧ (g !! p = Some Live → p ∈ D).

Lemma kept_live_then σ g σ1 g1 σ2 g2 p q :
  kept_live σ g σ1 g1 [p] → (g !! q = Some Live → q ∈ [p]) → kept σ1 g1 σ2 g2 [q] →
  kept_live σ g σ2 g2 [p].
Proof.
  intros H1 Hq [_ H2] r Hr HD. destruct (H1 r Hr HD) as [E1 E2].
  destruct (H2 r) as [-> ->]; [by left| |done]. intros ->%list_elem_of_singleton. auto.
Qed.

Section pow5.
Context {C : Calloc} {CL : CallocLaws}.

Lemma mult_free_ok σ g p q a b va vb :
  mp_ok σ g → g !! p = Some Live → in_use g q → bigs σ !! p = Some a → bigs σ !! q = Some b →
  num a va → num b vb → 0 < va → 0 < vb → Z.log2 (va * vb) < max_bits →
  runs (b1 ← mult p q; _ ← Bfree p; mret b1) σ (yields σ g [p] (λ c, num c (va * vb))).
Proof.
  intros Hok Hp Hq Ha Hb Hna Hnb Hva Hvb Hbits.
  eapply runs_call; [by apply (mult_ok σ g p q a b va vb); [|left|..]|].
  intros r σ1 (g1 & c & Hok1 & Hk1 & Hr & Hc & Hnum & Hnew).
  destruct (proj2 Hk1 p) as [Hgp _]; [by left|by intros ?%elem_of_nil|]. rewrite Hp in Hgp.
  assert (r ≠ p) as Hrp.
  { intros ->. by apply (elem_of_nil (A := Z) p), Hnew; left. }
  eapply runs_call; [by apply Bfree_ok|]. intros [] σ2 [Hok2 Hk2]. apply runs_ret.
  destruct (proj2 Hk2 r) as [E1 E2]; [by left|by rewrite list_elem_of_singleton|].
  exists (<[p := Free]> g1), c. split_and!; [done| |congruence|congruence|done|].
  - apply (kept_step _ _ σ1 g1); [|done]. apply (kept_sub _ _ _ _ []); [done|by intros ? ?%elem_of_nil].
  - intros Hu. by apply Hnew, elem_of_nil in Hu.
Qed.

(** Between rounds: [p5] is entry [i] of the cache and [k] the exponent left. *)
Definition pow5_inv (σ0 : mp) (g0 : gmap Z owner) (p0 V : Z) (n : nat) (st : Z * Z * Z) (σ : mp) : Prop :=
  let '(k, p, p5) := st in
  ∃ g b v i, mp_ok σ g ∧ kept_live σ0 g0 σ g [p0] ∧ (g0 !! p = Some Live → p ∈ [p0]) ∧
    g !! p = Some Live ∧ bigs σ !! p = Some b ∧ num b v ∧ 0 < v ∧ 0 < k ∧ Z.log2 k = Z.of_nat n ∧
    cached_at σ g i p5 ∧ v * 5 ^ (4 * 2 ^ Z.of_nat i * k) = V.

(** The cache entry after [i], made if it is not there. *)
Lemma runs_next_power {A} σ g i q (K : Z → MP A) Q :
  mp_ok σ g → cached_at σ g i q → Z.log2 (5 ^ (4 * 2 ^ Z.of_nat (S i))) < max_bits →
  (∀ r σ' g', mp_ok σ' g' → kept_live σ g σ' g' [] → cached_at σ' g' (S i) r → runs (K r) σ' Q) →
  runs (bp ← getBig q;
        p51 ← (if _next bp =? 0 then
                 p51 ← mult q q; _ ← set_next q p51; _ ← set_next p51 0; mret p51
               else mret (_next bp));
        K p51) σ Q.
Proof.
  intros Hok Hat Hbits HK. pose proof Hat as (l & Hc & Hnd & Hpow & Hi).
  destruct (Hpow i q Hi) as (Hg & b & Hb & Hnum). cbn [Nat.add] in Hnum.
  apply (runs_get q b); [done|].
  destruct (Z.eqb_spec (_next b) 0) as [Hn|Hn].
  - assert (5 ^ (4 * 2 ^ Z.of_nat (S i)) = 5 ^ (4 * 2 ^ Z.of_nat i) * 5 ^ (4 * 2 ^ Z.of_nat i)) as E.
    { rewrite <- Z.pow_add_r, Nat2Z.inj_succ, Z.pow_succ_r by lia. f_equal. lia. }
    rewrite E in Hbits. apply runs_bind. eapply runs_call.
    { apply (mult_ok σ g q q b b (5 ^ (4 * 2 ^ Z.of_nat i)) (5 ^ (4 * 2 ^ Z.of_nat i)) Hok); [by right..|done|done|done|done|lia|lia|done]. }
    intros r σ1 (g1 & c & Hok1 & Hk1 & Hr & Hbc & Hnc & Hnew).
    pose proof (cached_kept _ _ _ _ _ _ _ Hat Hk1 ltac:(by intros ? ?%elem_of_nil)) as Hat1.
    destruct (proj2 Hk1 q) as [Hgq Hbq]; [by right|by intros ?%elem_of_nil|].
    rewrite Hg in Hgq. rewrite Hb in Hbq.
    destruct (mp_ok_extend σ1 g1 i q b r c Hok1 Hat1 Hbq Hn Hr Hbc) as [Hok2 Hat2]; [by rewrite E|].
    assert (q ≠ r) as Hqr by congruence.
    apply (runs_set_next q b); [done|].
    eapply runs_set_next; [cbn; by rewrite lookup_insert_ne|]. apply runs_ret.
    apply (HK _ _ _ Hok2); [|done]. intros s Hs _. destruct (proj2 Hk1 s) as [E1 E2]; [by left|by intros ?%elem_of_nil|].
    assert (s ≠ r) as Hsr by (intros ->; by apply (elem_of_nil (A := Z) r), Hnew; left).
    assert (s ≠ q) as Hsq by congruence.
    cbn. rewrite !lookup_insert_ne by done. by rewrite E1, E2.
  - apply runs_bind, runs_ret. apply (HK _ _ g); [done|by intros ?|].
    exists l. split_and!; [done..|]. rewrite (chain_next _ _ _ _ _ _ Hc Hi Hb) in *.
    by destruct (l !! S i).
Qed.

Lemma pow5_round_ok σ0 g0 p0 V n st σ :
  Z.log2 V < max_bits → pow5_inv σ0 g0 p0 V n st σ →
  runs (pow5_round st) σ (λ r σ',
    match r with
    | inl st' => ∃ n', (n' < n)%nat ∧ pow5_inv σ0 g0 p0 V n' st' σ'
    | inr p => yields_live σ0 g0 [p0] V p σ'
    end).
Proof.
  destruct st as [[k p] q]. intros Hbits (g & b & v & i & Hok & Hk & Hnew & Hp & Hb & Hnum & Hv & Hk0 & Hlog & Hat & EV).
  pose proof Hat as (l & _ & _ & Hpow & Hi). destruct (Hpow i q Hi) as (Hgq & bq & Hbq & Hnq).
  cbn [Nat.add] in Hnq. set (w := 5 ^ (4 * 2 ^ Z.of_nat i)) in *. assert (0 < w) by (unfold w; lia).
  pose proof (Z.div_mod k 2 ltac:(lia)) as Ek. pose proof (Z.mod_pos_bound k 2 ltac:(lia)) as Bk.
  assert (V = v * w ^ (k mod 2) * (w * w) ^ (k / 2)) as EV'.
  { rewrite <- EV, Z.pow_mul_r by lia. fold w. pose proof (Z.div_pos k 2).
    rewrite Ek at 1. rewrite Z.pow_add_r, Z.pow_mul_r, Z.pow_2_r by lia. ring. }
  assert (0 < (w * w) ^ (k / 2)) as Hrest by (apply Z.pow_pos_nonneg; [|apply Z.div_pos]; nia).
  unfold pow5_round. rewrite land_1, Z.shiftr_div_pow2 by lia. change (2 ^ 1) with 2.
  apply (runs_call _ _ _ (yields σ g [p] (λ c, num c (v * w ^ (k mod 2))))).
  { destruct (truth (k mod 2)) eqn:Hodd.
    - apply truth_true in Hodd. assert (k mod 2 = 1) as E1 by lia. rewrite E1, Z.pow_1_r in *.
      apply (mult_free_ok σ g p q b bq v w); try done; [by right|].
      eapply Z.le_lt_trans; [apply Z.log2_le_mono|exact Hbits]. nia.
    - apply truth_false in Hodd. rewrite Hodd, Z.mul_1_r. apply runs_ret. exists g, b.
      split_and!; try done. intros _. apply list_elem_of_here. }
  intros r σ1 (g1 & b1 & Hok1 & Hk1 & Hr & Hb1 & Hn1 & Hnew1).
  pose proof (kept_live_then _ _ _ _ _ _ _ _ Hk Hnew Hk1) as Hkl.
  assert (g0 !! r = Some Live → r ∈ [p0]) as Hnewr.
  { intros Hr0. destruct (decide (r ∈ [p0])) as [|Hn]; [done|].
    destruct (Hk r Hr0 Hn) as [Hr1 _]. apply (or_introl (B := g !! r = Some Cached)), Hnew1 in Hr1.
    apply list_elem_of_singleton in Hr1 as ->. auto. }
  destruct (Z.eqb_spec (k / 2) 0) as [E0|E0].
  - apply runs_ret. exists g1, b1. rewrite EV', E0, Z.pow_0_r, Z.mul_1_r. by split_and!.
  - assert (0 < k / 2) as Hk2 by (pose proof (Z.div_pos k 2); lia).
    assert (0 < v * w ^ (k mod 2)) as Hv1 by (apply Z.mul_pos_pos; [done|apply Z.pow_pos_nonneg; lia]).
    assert (w * w = 5 ^ (4 * 2 ^ Z.of_nat (S i))) as Ew.
    { unfold w. rewrite <- Z.pow_add_r, Nat2Z.inj_succ, Z.pow_succ_r by lia. f_equal. lia. }
    apply (runs_next_power σ1 g1 i q); [done| | |].
    + apply (cached_kept σ g _ _ [p]); [done..|]. by intros s ->%list_elem_of_singleton.
    + rewrite <- Ew. eapply Z.le_lt_trans; [apply Z.log2_le_mono|exact Hbits].
      rewrite EV'. pose proof (Z.pow_le_mono_r (w * w) 1 (k / 2)). nia.
    + intros s σ2 g2 Hok2 Hkl2 Hat2. apply runs_ret.
      assert (1 ≤ Z.log2 k) as Hlk by (apply Z.log2_le_pow2; lia).
      exists (n - 1)%nat. split; [lia|].
      destruct (Hkl2 r Hr) as [Hr2 Hb2]; [by intros ?%elem_of_nil|]. rewrite Hb1 in Hb2.
      exists g2, b1, (v * w ^ (k mod 2)), (S i). split_and!; try done.
      * intros t Ht HD. destruct (Hkl t Ht HD) as [E1 E2].
        destruct (Hkl2 t E1) as [-> ->]; [by intros ?%elem_of_nil|done].
      * replace (k / 2) with (Z.shiftr k 1) by (by rewrite Z.shiftr_div_pow2 by lia).
        rewrite Z.log2_shiftr by lia. lia.
      * rewrite EV', Ew, <- Z.pow_mul_r by lia. done.
Qed.

(** The power below the fourth. *)
Lemma pow5_small_ok σ g p b v r :
  mp_ok σ g → g !! p = Some Live → bigs σ !! p = Some b → num b v → 0 ≤ r < 4 →
  Z.log2 v < max_bits →
  runs (if truth r then m ← lift (rd p05 (r - 1)); multadd p m 0 else mret p) σ
    (yields σ g [p] (λ c, num c (v * 5 ^ r))).
Proof.
  intros Hok Hp Hb Hnum Hr Hbits. destruct (truth r) eqn:Hr0.
  - apply truth_true in Hr0. apply (runs_lift _ (5 ^ r)).
    { assert (r = 1 ∨ r = 2 ∨ r = 3) as [->|[->| ->]] by lia; done. }
    eapply runs_mono; [apply (multadd_ok σ g p b v (5 ^ r) 0); try done|].
    + pose proof (Z.pow_le_mono_r 5 r 3). lia.
    + intros s σ1 Hy. apply (yields_mono _ _ _ _ _ _ _ Hy). intros c. by rewrite Z.add_0_r.
  - apply truth_false in Hr0 as ->. rewrite Z.mul_1_r. apply runs_ret. exists g, b.
    split_and!; try done. intros _. apply list_elem_of_here.
Qed.

(** The first cache entry, made if there is none. *)
Lemma first_power_ok σ g : mp_ok σ g →
  runs (if _p5s σ =? 0 then p5 ← i2b 625; _ ← set_p5s p5; _ ← set_next p5 0; mret p5
        else mret (_p5s σ)) σ
    (λ p5 σ', ∃ g', mp_ok σ' g' ∧ kept_live σ g σ' g' [] ∧ cached_at σ' g' 0 p5).
Proof.
  intros Hok. destruct (Z.eqb_spec (_p5s σ) 0) as [Ep|Ep].
  - eapply runs_call; [by apply (i2b_ok σ g 625)|].
    intros r σ1 (g1 & c & Hok1 & Hk1 & Hr & Hc & Hnc & Hnew). rewrite <- (proj1 Hk1) in Ep.
    destruct (mp_ok_first σ1 g1 r c Hok1 Ep Hr Hc Hnc) as [Hok2 Hat].
    apply runs_bind. unfold runs at 1, set_p5s.
    eapply runs_set_next; [exact Hc|]. apply runs_ret.
    eexists. split_and!; [exact Hok2| |done]. intros t Ht _.
    assert (t ≠ r) as Htr by (intros ->; by apply (elem_of_nil (A := Z) r), Hnew; left).
    destruct (proj2 Hk1 t) as [E3 E4]; [by left|by intros ?%elem_of_nil|].
    cbn. rewrite !lookup_insert_ne by done. by rewrite E3, E4.
  - apply runs_ret. pose proof (ok_cache σ g Hok) as (l & Hc & Hnd & Hpow).
    destruct l as [|p5 l]; [done|]. pose proof Hc as (<- & _).
    exists g. split_and!; [done|by intros ?|]. by exists (_p5s σ :: l).
Qed.

(** The small power, then the first cache entry, then the loop. *)
Lemma pow5mult_ok σ g p b v k :
  mp_ok σ g → g !! p = Some Live → bigs σ !! p = Some b → num b v → 0 < v → 0 ≤ k < 2 ^ 31 →
  Z.log2 (v * 5 ^ k) < max_bits →
  runs (pow5mult p k) σ (yields_live σ g [p] (v * 5 ^ k)).
Proof.
  intros Hok Hp Hb Hnum Hv Hk Hbits. unfold pow5mult.
  change 3 with (2 ^ 2 - 1). rewrite land_low_mask, Z.shiftr_div_pow2 by lia. change (2 ^ 2) with 4.
  pose proof (Z.div_mod k 4 ltac:(lia)) as Ek. pose proof (Z.mod_pos_bound k 4 ltac:(lia)) as Br.
  pose proof (Z.div_pos k 4 ltac:(lia) ltac:(lia)) as Hq0.
  set (r := k mod 4) in *. set (q := k / 4) in *.
  assert (v * 5 ^ k = v * 5 ^ r * 5 ^ (4 * q)) as EV by (rewrite Ek, Z.pow_add_r by lia; ring).
  assert (1 ≤ 5 ^ r ∧ 1 ≤ 5 ^ (4 * q)) as [H5r H5q] by lia.
  eapply runs_call; [apply (pow5_small_ok σ g p b v r); try done|].
  { eapply Z.le_lt_trans; [apply Z.log2_le_mono|exact Hbits]. rewrite EV. nia. }
  intros s σ1 (g1 & b1 & Hok1 & Hk1 & Hs & Hb1 & Hn1 & Hnew).
  assert (kept_live σ g σ1 g1 [p]) as Hkl.
  { intros t Ht HD. destruct (proj2 Hk1 t) as [-> ->]; [by left|done|done]. }
  destruct (Z.eqb_spec q 0) as [E0|E0].
  { apply runs_ret. exists g1, b1. rewrite EV, E0, Z.mul_1_r. split_and!; try done. auto. }
  apply runs_bind. unfold runs at 1, get_p5s.
  eapply runs_call; [by apply (first_power_ok σ1 g1)|]. intros p5 σ2 (g2 & Hok2 & Hk2 & Hat).
  destruct (Hk2 s Hs) as [Hs2 Hb2]; [by intros ?%elem_of_nil|]. rewrite Hb1 in Hb2.
  apply (mloop_ok (pow5_inv σ g p (v * 5 ^ k)) _ _) with (n := Z.to_nat (Z.log2 q)).
  - intros n st σ3. by apply pow5_round_ok.
  - exists g2, b1, (v * 5 ^ r), 0%nat.
    split_and!; [done| |auto|done|done|done|nia|lia|pose proof (Z.log2_nonneg q); lia|done|by rewrite EV].
    intros t Ht HD. destruct (Hkl t Ht HD) as [E1 E2].
    destruct (Hk2 t E1) as [-> ->]; [by intros ?%elem_of_nil|done].
  - assert (Z.log2 q < 31) by (apply Z.log2_lt_pow2; lia). lia.
Qed.
End pow5.

(** ** d2b *)

Lemma val_log2 x (n : nat) w : Forall word x → x !! n = Some w → 0 < w →
  Z.log2 (val (take (S n) x)) = 32 * Z.of_nat n + Z.log2 w.
Proof.
  intros Hx Hw H0. pose proof (lookup_lt_Some _ _ _ Hw).
  pose proof (val_bound _ (Forall_take _ n _ Hx)) as B. rewrite length_take_le in B by lia.
  rewrite (val_take_S x n w) by done. pose proof (Z.log2_spec w H0) as [H1 H2].
  pose proof (Z.log2_nonneg w). pose proof (weight_pos n) as Hp.
  apply Z.log2_unique; [lia|]. rewrite Z.pow_succ_r in * by lia.
  rewrite Z.pow_add_r by lia. fold (weight n). nia.
Qed.

Lemma hi0bits_log2 w : 0 < w < 2 ^ 32 → 32 - hi0bits w = Z.log2 w + 1.
Proof.
  intros Hw. destruct (hi0bits_ok w Hw) as [Hk [H1 H2]]. set (k := hi0bits w) in *.
  enough (k + Z.log2 w = 31) by lia. rewrite <- Z.log2_mul_pow2 by lia.
  by apply Z.log2_unique.
Qed.

Lemma odd_add_even a b : Z.odd a = true → Z.even b = true → Z.odd (a + b) = true.
Proof. intros Ha Hb. by rewrite Z.odd_add, Ha, <- Z.negb_even, Hb. Qed.

Section d2b.
Context {C : Calloc} {CL : CallocLaws}.

(** The first word, when [d1 = y * 2^k]. *)
Lemma d2b_low_ok σ p b z d1 k y :
  bigs σ !! p = Some b → (0 < length (_x b))%nat → 0 ≤ z < 2 ^ 21 → 0 ≤ d1 < 2 ^ 32 → 0 ≤ k < 32 →
  y * 2 ^ k = d1 → Z.odd y = true →
  runs (if truth k then
          _ ← set_word p 0 (Z.lor y (u32 (Z.shiftl z (32 - k)))); mret (Z.shiftr z k)
        else _ ← set_word p 0 y; mret z) σ
    (λ z' σ', ∃ w, σ' = upd σ p (with_words b (<[0%nat := w]> (_x b))) ∧
      word w ∧ Z.odd (w + 2 ^ 32 * z') = true ∧ (w + 2 ^ 32 * z') * 2 ^ k = z * 2 ^ 32 + d1 ∧
      0 ≤ z' < 2 ^ 32).
Proof.
  intros Hb Hl Hz Hd1 Hk Ey Hy. destruct (truth k) eqn:Hk0.
  - apply truth_true in Hk0.
    assert (2 ^ 32 = 2 ^ (32 - k) * 2 ^ k) as E32 by (rewrite <- Z.pow_add_r by lia; f_equal; lia).
    destruct (shift_step z (32 - k) y) as (Hw & Bz & Ew); [lia|lia|nia|].
    replace (32 - (32 - k)) with k in * by lia. rewrite Z.lor_comm.
    apply (runs_set_word p b σ Hb _ _ 0); [lia|]. apply runs_ret. eexists. split; [done|].
    split; [done|]. change (2 ^ 32) with 4294967296 at 1 2. rewrite Ew.
    split_and!; [| |rewrite Z.shiftr_div_pow2 by lia; apply Z.div_pos; lia|].
    + rewrite Z.add_comm. apply odd_add_even; [done|].
      replace (32 - k) with (Z.succ (31 - k)) by lia. rewrite Z.pow_succ_r by lia.
      by rewrite !Z.even_mul.
    + rewrite <- Ey, E32. ring.
    + pose proof (Z.pow_lt_mono_r 2 (32 - k) 32). lia.
  - apply truth_false in Hk0 as ->. rewrite Z.mul_1_r in Ey. subst y.
    apply (runs_set_word p b σ Hb _ _ 0); [lia|]. apply runs_ret. eexists. split; [done|].
    split_and!; [unfold word; lia| |lia|lia|lia]. apply odd_add_even; [done|].
    by rewrite Z.even_mul.
Qed.

(** The words of the mantissa [z * 2^32 + d1] without its factor 2^k. *)
Lemma d2b_words_ok σ p b z d1 :
  bigs σ !! p = Some b → big_wf b → _k b = 1 → word d1 → 0 ≤ z < 2 ^ 21 → 0 < z * 2 ^ 32 + d1 →
  runs (if truth d1 then
          let '(k, y) := lo0bits d1 in
          z ← (if truth k then
                 _ ← set_word p 0 (Z.lor y (u32 (Z.shiftl z (32 - k)))); mret (Z.shiftr z k)
               else _ ← set_word p 0 y; mret z);
          _ ← set_word p 1 z;
          let i := if truth z then 2 else 1 in
          _ ← set_wds p i;
          mret (i, k)
        else
          let '(k, z) := lo0bits z in
          _ ← set_word p 0 z; _ ← set_wds p 1; mret (1, k + 32)) σ
    (λ '(i, k) σ', ∃ b' v, σ' = upd σ p b' ∧ big_wf b' ∧ num b' v ∧ _wds b' = i ∧
      Z.odd v = true ∧ 0 ≤ k ∧ v * 2 ^ k = z * 2 ^ 32 + d1).
Proof.
  intros Hb Hwf Ek Hd1 Hz Hm. unfold word in Hd1.
  pose proof (wf_length b Hwf) as Hl. rewrite (wf_maxwds b Hwf), Ek in Hl.
  assert (length (_x b) = 2%nat) as Hl2 by lia. pose proof (wf_words b Hwf) as Hx.
  destruct (truth d1) eqn:H1.
  - apply truth_true in H1. destruct (lo0bits_ok d1) as (k & y & -> & Hk & Ey & Hy); [lia|].
    apply (runs_call _ _ _ (λ z' σ', ∃ w, σ' = upd σ p (with_words b (<[0%nat := w]> (_x b))) ∧
      word w ∧ Z.odd (w + 2 ^ 32 * z') = true ∧ (w + 2 ^ 32 * z') * 2 ^ k = z * 2 ^ 32 + d1 ∧
      0 ≤ z' < 2 ^ 32)).
    { apply d2b_low_ok; (done || lia). }
    intros z' σ1 (w & -> & Hw & Hodd & Em & Bz').
    eapply (runs_set_word _ _ _ (upd_lookup _ _ _) _ _ 1); [cbn; rewrite length_insert; lia|].
    rewrite upd_upd. eapply runs_set_wds; [apply upd_lookup|]. rewrite upd_upd. apply runs_ret.
    eexists _, _. split; [done|]. cbn.
    assert (Forall word (<[1%nat := z']> (<[0%nat := w]> (_x b)))) as Hx'
      by (apply insert_words; [by apply insert_words|done]).
    split_and!; [|shelve|done|exact Hodd|lia|exact Em].
    { destruct Hwf. split; cbn; [done..| |done]. by rewrite !length_insert. }
    Unshelve.
    destruct (_x b) as [|w0 [|w1 [|]]] eqn:Exb; try done. cbn in Hx'.
    destruct (truth z') eqn:Hz'.
    + apply truth_true in Hz'. exists 2%nat. cbn.
      split_and!; [done|lia|lia|done|by right; exists z'|lia].
    + apply truth_false in Hz' as ->. exists 1%nat. cbn.
      split_and!; [done|lia|lia|done|by left|lia].
  - apply truth_false in H1 as ->. rewrite Z.add_0_r in *.
    destruct (lo0bits_ok z) as (k & y & -> & Hk & Ey & Hy); [lia|].
    assert (word y) as Wy by (unfold word; nia).
    apply (runs_set_word p b σ Hb _ _ 0); [lia|]. eapply runs_set_wds; [apply upd_lookup|].
    rewrite upd_upd. apply runs_ret. eexists _, y. split; [done|].
    split_and!; [|by apply (num_single _ (_x b)); [|lia|..]|done|done|lia|].
    + destruct Hwf. split; cbn; [done..|by rewrite length_insert|by apply insert_words].
    + rewrite Z.pow_add_r by lia. lia.
Qed.

(** [b * 2^e] is the magnitude of the double, [b] is odd, and it has [bits]
    bits. *)
Lemma d2b_ok σ g d0 d1 : mp_ok σ g → word d0 → word d1 → dbl d0 d1 ≠ 0 →
  runs (d2b d0 d1) σ (λ '(p, e, bits) σ',
    yields σ g [] (λ b, ∃ v, num b v ∧ Z.odd v = true ∧ 0 ≤ e + 1074 ∧
      v * 2 ^ (e + 1074) = dbl d0 d1 ∧ bits = Z.log2 v + 1) p σ').
Proof.
  intros Hok Hd0 Hd1 Hne. unfold word in Hd1.
  destruct (word_fields d0 Hd0) as (s & e & f & -> & Hs & He & Hf).
  rewrite dbl_eq in * by lia. unfold d2b.
  eapply runs_call; [apply (eBalloc_ok σ g 1); [done|lia]|].
  intros p σ1 Hal. pose proof Hal as (b & _ & _ & Hok1 & _ & Hb & Hwf & Ek & _).
  destruct (dbl_fields s e f) as (_ & _ & ->); [lia..|].
  assert (Z.shiftr (Z.land (s * 2 ^ 31 + e * 2 ^ 20 + f) 2147483647) Exp_shift = e) as ->.
  { unfold Exp_shift. change 2147483647 with (2 ^ 31 - 1).
    rewrite land_low_mask, Z.shiftr_div_pow2 by lia.
    replace (s * 2 ^ 31 + e * 2 ^ 20 + f) with (e * 2 ^ 20 + f + s * 2 ^ 31) by ring.
    rewrite Z.mod_add, Z.mod_small by lia. symmetry. apply (Z.div_unique _ _ _ f); lia. }
  assert (Z.lor f Exp_msk1 = f + 2 ^ 20) as ->.
  { unfold Exp_msk1. rewrite Z.lor_comm. exact (lor_disjoint 20 f 1 ltac:(lia) Hf). }
  set (z := if truth e then f + 2 ^ 20 else f).
  assert ((if e =? 0 then 2 ^ 32 * f + d1 else (2 ^ 52 + (2 ^ 32 * f + d1)) * 2 ^ (e - 1))
    = (z * 2 ^ 32 + d1) * 2 ^ (Z.max e 1 - 1)) as Edbl.
  { unfold z, truth. destruct (Z.eqb_spec e 0) as [->|]; cbn [negb].
    - change (2 ^ (Z.max 0 1 - 1)) with 1. ring.
    - rewrite Z.max_l by lia. ring. }
  rewrite Edbl in *.
  assert (0 ≤ z < 2 ^ 21) as Hz by (unfold z; destruct (truth e); lia).
  assert (z * 2 ^ 32 + d1 ≠ 0) by (intros E0; by rewrite E0 in Hne).
  eapply runs_call; [apply (d2b_words_ok σ1 p b z d1); try done; lia|].
  intros [i k] σ2 (b' & v & -> & Hwf' & Hnum & Ew & Hodd & Hk & Em).
  assert (v ≠ 0) as Hv0 by (by intros ->). pose proof (num_nonneg b' v Hnum) as Hv.
  destruct (truth e) eqn:He0.
  - apply truth_true in He0. apply runs_ret. apply (yields_fresh _ _ 1); [done..|].
    exists v. unfold Bias, P. rewrite Z.max_l by lia.
    replace (e - 1023 - (53 - 1) + k + 1074) with (k + (e - 1)) by lia.
    rewrite Z.pow_add_r, Z.mul_assoc, Em by lia. split_and!; [done|done|lia|done|].
    pose proof (Z.log2_mul_pow2 v k ltac:(lia) Hk) as Hlog. rewrite Em in Hlog.
    assert (Z.log2 (z * 2 ^ 32 + d1) = 52) as E52 by (apply Z.log2_unique; unfold z; lia). lia.
  - apply truth_false in He0 as ->. pose proof Hnum as (n & En & Hn & Hx & Hnorm & Ev).
    destruct n as [|n]; [lia|]. eapply runs_get; [apply upd_lookup|].
    destruct (top_word (_x b') n) as (w & Hw & Bw); [done|lia|done|lia|].
    apply (runs_lift _ w); [replace (i - 1) with (Z.of_nat n) by lia; by apply rd_nat|].
    apply runs_ret. apply (yields_fresh _ _ 1); [done..|].
    exists v. unfold Bias, P. replace (0 - 1023 - (53 - 1) + 1 + k + 1074) with k by lia.
    change (2 ^ (Z.max 0 1 - 1)) with 1. rewrite Em. split_and!; [done|done|lia|lia|].
    pose proof (hi0bits_log2 w Bw). pose proof (val_log2 (_x b') n w Hx Hw ltac:(lia)) as Hlog.
    rewrite Ev in Hlog. lia.
Qed.
End d2b.
