(* ===== verification/MprecSpec.v ===== *)
(** * Correctness of the multiple-precision integers

    Callers of mprec.c see numbers behind pointers. The abstract state is a
    map from the pointers a caller holds to the numbers behind them; every
    operation is the arithmetic operation on that map, whatever the free lists
    and the cache of powers of five do. *)
From S2P Require Import Prelude Mprec MprecNum MprecBits MprecHeap MprecOps MprecConv.

(** ** An allocator

    The address above every struct, with room for structs up to a size. *)
Module Bump.
Definition top (h : gmap Z Bigint) : Z := map_fold (λ p _ m, Z.max p m) 0 h.

Lemma top_spec h : 0 ≤ top h ∧ ∀ p, is_Some (h !! p) → p ≤ top h.
Proof.
  unfold top. apply (map_fold_weak_ind (λ m h, 0 ≤ m ∧ ∀ p, is_Some (h !! p) → p ≤ m)).
  - split; [done|]. intros p []. by rewrite lookup_empty in *.
  - intros p b h' m Hp [H0 Hm]. split; [lia|]. intros q.
    rewrite lookup_insert_is_Some. intros [->|[_ Hq]]; [lia|]. specialize (Hm q Hq). lia.
Qed.
End Bump.

#[global] Instance bump : Calloc := λ h n, if n <=? 2 ^ 20 then Some (Bump.top h + 16) else None.

#[global] Instance bump_laws : @CallocLaws bump.
Proof.
  split. intros h n p. unfold _calloc_r, bump. destruct (n <=? 2 ^ 20); [|done]. intros [= <-].
  destruct (Bump.top_spec h) as [H0 Ht]. split; [lia|].
  apply eq_None_not_Some. intros Hp%Ht. lia.
Qed.

(** The state before the first call. *)
Definition mp_start : mp := Mp ∅ None 0.

Lemma mp_start_ok : mp_ok mp_start ∅.
Proof.
  split; [done| | |done|].
  - intros p. cbn. by rewrite !lookup_empty.
  - done.
  - exists []. split_and!; [done|constructor|]. intros j q Hq. done.
Qed.

(** ** The abstract machine *)

(** The calls a caller makes; a pointer argument is one it holds. *)
Inductive big_op :=
  | OpI2b (i : Z)
  | OpMultadd (p m a : Z)
  | OpMult (p q : Z)
  | OpPow5mult (p k : Z)
  | OpLshift (p k : Z)
  | OpDiff (p q : Z)
  | OpFree (p : Z).

(** The call, as the code makes it. *)
Definition run_op `{Calloc} (op : big_op) : MP Z :=
  match op with
  | OpI2b i => i2b i
  | OpMultadd p m a => multadd p m a
  | OpMult p q => mult p q
  | OpPow5mult p k => pow5mult p k
  | OpLshift p k => lshift p k
  | OpDiff p q => diff p q
  | OpFree p => _ ← Bfree p; mret 0
  end.

(** The number the call computes, [None] where the caller must not call. *)
Definition result (env : gmap Z Z) (op : big_op) : option Z :=
  match op with
  | OpI2b i => if (0 <=? i) && (i <? 2 ^ 31) then Some i else None
  | OpMultadd p m a =>
      v ← env !! p;
      if (0 <? m) && (m <? 65536) && (0 <=? a) && (a <? 65536) && (Z.log2 v <? max_bits)
      then Some (v * m + a) else None
  | OpMult p q =>
      v ← env !! p; w ← env !! q;
      if (0 <? v) && (0 <? w) && (Z.log2 (v * w) <? max_bits) then Some (v * w) else None
  | OpPow5mult p k =>
      v ← env !! p;
      if (0 <? v) && (0 <=? k) && (k <? 2 ^ 31) && (Z.log2 (v * 5 ^ k) <? max_bits)
      then Some (v * 5 ^ k) else None
  | OpLshift p k =>
      v ← env !! p;
      if (0 <? v) && (0 <=? k) && (Z.log2 (v * 2 ^ k) <? max_bits) then Some (v * 2 ^ k) else None
  | OpDiff p q => v ← env !! p; w ← env !! q; Some (Z.abs (v - w))
  | OpFree p => _ ← env !! p; Some 0
  end.

(** The pointers the call takes over. *)
Definition consumed (op : big_op) : list Z :=
  match op with
  | OpMultadd p _ _ | OpPow5mult p _ | OpLshift p _ | OpFree p => [p]
  | _ => []
  end.

(** The abstract step: the arguments taken over are gone, and the pointer
    returned, which is none of the others, holds the result. *)
Definition abs_step (env : gmap Z Z) (op : big_op) (r : Z) (env' : gmap Z Z) : Prop :=
  let rest := foldr delete env (consumed op) in
  match op with
  | OpFree _ => env' = rest
  | _ => ∃ v, result env op = Some v ∧ rest !! r = None ∧ env' = <[r := v]> rest
  end.

(** The heap holds the numbers of [env]. *)
Definition represents (σ : mp) (env : gmap Z Z) : Prop :=
  ∃ g, mp_ok σ g ∧
    ∀ p v, env !! p = Some v → g !! p = Some Live ∧ ∃ b, bigs σ !! p = Some b ∧ num b v.

(** ** Refinement *)

Lemma rest_lookup (env : gmap Z Z) D p v :
  foldr delete env D !! p = Some v ↔ env !! p = Some v ∧ p ∉ D.
Proof.
  induction D as [|q D IH]; cbn [foldr].
  - split; [|tauto]. intros H. split; [done|]. apply not_elem_of_nil.
  - rewrite lookup_delete_Some, IH, not_elem_of_cons. naive_solver.
Qed.

Lemma yields_live_of σ g D v p σ' : yields σ g D (λ b, num b v) p σ' → yields_live σ g D v p σ'.
Proof.
  intros (g' & b & Hok & [_ Hk] & Hp & Hb & Hn & Hnew). exists g', b. split_and!; [done| |done..|auto].
  intros q Hq HD. destruct (Hk q) as [-> ->]; auto.
Qed.

(** What is left of [env] is still there, and the result is new. *)
Lemma yields_represents σ g env D v r σ' :
  (∀ p v, env !! p = Some v → g !! p = Some Live ∧ ∃ b, bigs σ !! p = Some b ∧ num b v) →
  yields_live σ g D v r σ' →
  foldr delete env D !! r = None ∧ represents σ' (<[r := v]> (foldr delete env D)).
Proof.
  intros Henv (g' & b & Hok & Hk & Hr & Hb & Hn & Hnew). split.
  - apply eq_None_not_Some. intros [w [Hw HD]%rest_lookup]. by apply HD, Hnew, (Henv r w).
  - exists g'. split; [done|]. intros p w. rewrite lookup_insert_Some, rest_lookup.
    intros [[<- <-]|(Hne & Hw & HD)]; [split; [done|by exists b]|].
    destruct (Henv p w Hw) as (Hg & b' & Hb' & Hn'). destruct (Hk p Hg HD) as [-> ->]. eauto.
Qed.

Section refinement.
Context {C : Calloc} {CL : CallocLaws}.

(** The operations but [Bfree], each returning its result. *)
Lemma run_op_yields σ g env op v :
  mp_ok σ g →
  (∀ p v, env !! p = Some v → g !! p = Some Live ∧ ∃ b, bigs σ !! p = Some b ∧ num b v) →
  (∀ p, op ≠ OpFree p) → result env op = Some v →
  runs (run_op op) σ (yields_live σ g (consumed op) v).
Proof.
  intros Hok Henv Hfree Hres.
  destruct op as [i|p m a|p q|p k|p k|p q|p]; cbn [result] in Hres; try (by destruct (Hfree p)).
  all: try (destruct (env !! p) as [u|] eqn:Hp; [|done]; cbn [mbind option_bind] in Hres;
    destruct (Henv p u Hp) as (Hgp & bp & Hbp & Hnp)).
  all: try (destruct (env !! q) as [w|] eqn:Hq; [|done]; cbn [mbind option_bind] in Hres;
    destruct (Henv q w Hq) as (Hgq & bq & Hbq & Hnq)).
  all: try (destruct (_ && _) eqn:Hc; [|done]; zb); injection Hres as <-; cbn [run_op consumed].
  - eapply runs_mono; [by apply (i2b_ok σ g i)|]. intros r σ'. rewrite u32_small by lia.
    apply yields_live_of.
  - eapply runs_mono; [by apply (multadd_ok σ g p bp u m a)|]. intros r σ'. apply yields_live_of.
  - eapply runs_mono; [by apply (mult_ok σ g p q bp bq u w); [|left|left|..]|].
    intros r σ'. apply yields_live_of.
  - by apply (pow5mult_ok σ g p bp u k).
  - eapply runs_mono; [by apply (lshift_ok σ g p bp u k)|]. intros r σ'. apply yields_live_of.
  - eapply runs_mono; [by apply (diff_ok σ g p q bp bq u w)|]. intros r σ' Hy.
    apply yields_live_of, (yields_mono _ _ _ _ _ _ _ Hy). by intros b [? _].
Qed.

Lemma run_op_refines σ env op :
  represents σ env → is_Some (result env op) →
  runs (run_op op) σ (λ r σ', ∃ env', abs_step env op r env' ∧ represents σ' env').
Proof.
  intros (g & Hok & Henv) [v Hres].
  assert (∀ r σ', (∀ p, op ≠ OpFree p) → yields_live σ g (consumed op) v r σ' →
    ∃ env', abs_step env op r env' ∧ represents σ' env') as Hstep.
  { intros r σ' Hop Hy. destruct (yields_represents _ _ _ _ _ _ _ Henv Hy) as [Hnew Hrep].
    exists (<[r := v]> (foldr delete env (consumed op))). split; [|done].
    unfold abs_step. destruct op; try (by exists v). by destruct (Hop p). }
  destruct op as [i|p m a|p q|p k|p k|p q|p]; try (by eapply runs_mono;
    [eapply run_op_yields; [exact Hok|exact Henv|done|exact Hres]|]; intros r σ'; apply Hstep).
  cbn [result] in Hres. destruct (env !! p) as [u|] eqn:Hp; [|done]. cbn [run_op].
  destruct (Henv p u Hp) as (Hgp & _). eapply runs_call; [by apply Bfree_ok|].
  intros [] σ' [Hok' [_ Hk']]. apply runs_ret. eexists. split; [reflexivity|].
  exists (<[p := Free]> g). split; [done|]. intros q w [Hq HD]%(rest_lookup _ [p]).
  destruct (Henv q w Hq) as (Hgq & b & Hb & Hn). destruct (Hk' q) as [-> ->]; eauto.
Qed.
End refinement.

(** The states callers can reach, with the numbers they hold. *)
Inductive reach `{Calloc} : mp → gmap Z Z → Prop :=
  | reach_start : reach mp_start ∅
  | reach_call σ env op r σ' env' :
      reach σ env → is_Some (result env op) → run_op op σ = Ok r σ' → abs_step env op r env' →
      reach σ' env'.

Lemma abs_step_fun env op r e1 e2 : abs_step env op r e1 → abs_step env op r e2 → e1 = e2.
Proof. unfold abs_step. destruct op; naive_solver. Qed.

Lemma reach_represents `{CallocLaws} σ env : reach σ env → represents σ env.
Proof.
  induction 1 as [|σ env op r σ' env' _ IH Hres Hrun Habs].
  - exists ∅. split; [apply mp_start_ok|done].
  - pose proof (run_op_refines σ env op IH Hres) as Hruns. unfold runs in Hruns. rewrite Hrun in Hruns.
    destruct Hruns as (env2 & Habs2 & Hrep). by rewrite (abs_step_fun _ _ _ _ _ Habs Habs2).
Qed.

(** ** Theorems *)

(** C6. Multiple-precision arithmetic refines arithmetic on Z. From any state
    that callers can reach, a permitted call of [i2b], [multadd], [mult],
    [pow5mult], [lshift], [diff] or [Bfree] accesses no memory out of bounds
    and either aborts because [_calloc_r] returned NULL, or returns a pointer
    that no other number of the caller uses and that holds the exact result.
    All other numbers the caller holds are unchanged, and the state is again
    a reachable one whose heap represents the caller's numbers. *)
Theorem mprec_refines `{CallocLaws} σ env op :
  reach σ env → is_Some (result env op) →
  runs (run_op op) σ (λ r σ', ∃ env',
    abs_step env op r env' ∧ reach σ' env' ∧ represents σ' env').
Proof.
  intros Hreach Hres. pose proof (run_op_refines σ env op (reach_represents σ env Hreach) Hres) as Hr.
  unfold runs in *. destruct (run_op op σ) as [r σ'| |] eqn:Hrun; [|done..].
  destruct Hr as (env' & Habs & Hrep). exists env'. split_and!; [done| |done].
  by apply (reach_call σ env op r).
Qed.

(** The state after a call, and the pointer returned. *)
Definition state_after {A} (m : MP A) (σ : mp) : mp :=
  match m σ with Ok _ σ' => σ' | _ => σ end.
Definition returned (m : MP Z) (σ : mp) : Z :=
  match m σ with Ok r _ => r | _ => 0 end.

Definition demo_state : mp := state_after (run_op (OpI2b 7)) mp_start.
Definition demo_ptr : Z := returned (run_op (OpI2b 7)) mp_start.

Lemma demo_reach : reach demo_state {[demo_ptr := 7]}.
Proof.
  apply (reach_call mp_start ∅ (OpI2b 7) demo_ptr); [apply reach_start|by eexists|vm_compute; reflexivity|].
  exists 7. by split_and!.
Qed.

(** 7 * 5^20, which fills the cache, on a state with one number. *)
Lemma mprec_refines_witness :
  runs (run_op (OpPow5mult demo_ptr 20)) demo_state (λ r σ', ∃ env',
    abs_step {[demo_ptr := 7]} (OpPow5mult demo_ptr 20) r env' ∧ reach σ' env' ∧ represents σ' env') ∧
  (∃ r σ', run_op (OpPow5mult demo_ptr 20) demo_state = Ok r σ').
Proof.
  split.
  - apply mprec_refines; [apply demo_reach|]. vm_compute. by eexists.
  - exists (returned (run_op (OpPow5mult demo_ptr 20)) demo_state),
      (state_after (run_op (OpPow5mult demo_ptr 20)) demo_state). vm_compute. reflexivity.
Defined.

Section claims.
Context {C : Calloc} {CL : CallocLaws}.

(** The free lists are sound. In every state that satisfies the invariant
    (each free list is an acyclic chain of structs of its size that nobody
    uses), [Balloc k] returns NULL only if [_calloc_r] did, and otherwise a
    zero-length struct with room for 2^k words that was not in use, after which
    it is the caller's; [Bfree] of a caller's struct returns it to the free
    lists. Both keep the invariant and every other struct in use. *)
Theorem Balloc_Bfree_correct σ g k p : mp_ok σ g → 0 ≤ k ≤ 30 → g !! p = Some Live →
  runs (Balloc k) σ (λ q σ',
    (q = 0 ∧ (∃ h n, _calloc_r h n = None) ∧ mp_ok σ' g ∧ kept σ g σ' g []) ∨
    q ≠ 0 ∧ q ≠ p ∧ ∃ b, mp_ok σ' (<[q := Live]> g) ∧ kept σ g σ' (<[q := Live]> g) [] ∧
      bigs σ' !! q = Some b ∧ Z.of_nat (length (_x b)) = 2 ^ k ∧ _maxwds b = 2 ^ k ∧
      _wds b = 0 ∧ _sign b = 0) ∧
  runs (Bfree p) σ (λ _ σ', mp_ok σ' (<[p := Free]> g) ∧ kept σ g σ' (<[p := Free]> g) [p]).
Proof using CL.
  intros Hok Hk Hp. split; [|by apply Bfree_ok].
  eapply runs_mono; [by apply Balloc_ok|].
  intros q σ' [Hnull|[Hq (b & H1 & H2 & Hok' & Hkept & Hb & [_ Em El _] & Ek & Ew & Es)]]; [by left|].
  right. split_and!; [done|congruence|]. exists b. split_and!; try done; congruence.
Qed.

(** C20. [s2b] reads a decimal number exactly. Given the digits of the integer
    part, a point and the digits of the fraction (nine or more digits in all),
    and the number [y9] the first nine make, it returns the integer all the
    digits make, without a read outside the text. *)
Theorem s2b_correct σ g ip pt fp :
  mp_ok σ g → digits ip → digits fp →
  9 ≤ Z.of_nat (length (ip ++ fp)) ≤ 2 ^ 30 → Z.log2 (decimal 0 (ip ++ fp)) < max_bits →
  runs (s2b (ip ++ pt :: fp) (Z.of_nat (length ip)) (Z.of_nat (length (ip ++ fp)))
         (decimal 0 (take 9 (ip ++ fp)))) σ
    (yields σ g [] (λ b', num b' (decimal 0 (ip ++ fp)))).
Proof using CL. apply s2b_ok. Qed.

(** [cmp] and [diff] compare and subtract. On two numbers in normal form
    [cmp] has the sign of their difference, and [diff] returns its absolute
    value in normal form with [_sign] set exactly when the first is smaller. *)
Theorem cmp_diff_correct σ g p q a b va vb :
  mp_ok σ g → bigs σ !! p = Some a → bigs σ !! q = Some b → num a va → num b vb →
  runs (cmp p q) σ (λ r σ', σ' = σ ∧ (r < 0 ↔ va < vb) ∧ (r = 0 ↔ va = vb) ∧ (0 < r ↔ vb < va)) ∧
  runs (diff p q) σ (yields σ g [] (λ c,
    num c (Z.abs (va - vb)) ∧ (_sign c = 1 ∧ va < vb ∨ _sign c = 0 ∧ vb ≤ va))).
Proof using CL.
  intros Hok Ha Hb Hna Hnb. split.
  - eapply runs_mono; [by eapply cmp_ok|]. intros r σ' [-> Hr]. split_and!; [done|lia..].
  - eapply runs_mono; [by eapply diff_ok|]. intros r σ' Hy.
    apply (yields_mono _ _ _ _ _ _ _ Hy). intros c [Hc ->]. split; [done|].
    destruct (Z.ltb_spec va vb); lia.
Qed.

(** [d2b] is exact. For a nonzero double it returns an odd integer [v], an
    exponent [e] with |d| = v * 2^e, and the number of bits of [v]. *)
Theorem d2b_correct σ g d0 d1 : mp_ok σ g → word d0 → word d1 → dbl d0 d1 ≠ 0 →
  runs (d2b d0 d1) σ (λ '(p, e, bits) σ',
    yields σ g [] (λ b, ∃ v, num b v ∧ Z.odd v = true ∧ 0 ≤ e + 1074 ∧
      v * 2 ^ (e + 1074) = dbl d0 d1 ∧ 2 ^ (bits - 1) ≤ v < 2 ^ bits) p σ').
Proof using CL.
  intros. eapply runs_mono; [by apply d2b_ok|]. intros [[p e] bits] σ' Hy.
  apply (yields_mono _ _ _ _ _ _ _ Hy). intros b (v & Hn & Ho & He & Ev & ->).
  exists v. split_and!; try done.
  all: assert (0 < v) as Hv by (pose proof (num_nonneg b v Hn); destruct (decide (v = 0)) as [->|]; [done|lia]).
  all: replace (Z.log2 v + 1 - 1) with (Z.log2 v) by lia; by apply Z.log2_spec.
Qed.

(** A number of at most 53 bits is represented exactly by [b2d]. *)
Lemma b2d_exact a v : num a v → 0 < v → Z.log2 v < 53 →
  ∃ d0 d1 e, b2d_big a = Some (d0, d1, e) ∧
    let M := v * 2 ^ (52 - Z.log2 v) in
    d0 = 1023 * 2 ^ 20 + (M / 2 ^ 32 - 2 ^ 20) ∧ d1 = M mod 2 ^ 32.
Proof.
  intros Hn Hv Hl. destruct (b2d_big_ok a v Hn Hv) as (d0 & d1 & e & M & E & HM & E0 & E1 & HL).
  cbv zeta in HL. set (L := 32 * (_wds a - 1) + e) in *. destruct HL as (HL0 & HL1 & HL2).
  assert (Z.log2 v = L - 1) as El.
  { apply Z.log2_unique; [lia|]. by replace (Z.succ (L - 1)) with L by lia. }
  exists d0, d1, e. cbv zeta. split; [done|].
  assert (M = v * 2 ^ (52 - Z.log2 v)) as <-; [|done].
  assert (2 ^ 53 = 2 ^ (52 - Z.log2 v) * 2 ^ L) as E53 by (rewrite <- Z.pow_add_r by lia; f_equal; lia).
  rewrite E53 in HL2. assert (0 < 2 ^ L) by lia. nia.
Qed.

(** C19. The fraction of a normal double survives [d2b] and [b2d]. Converting a
    normal double to an integer and a power of two and the integer back with
    [b2d] returns the double with the same fraction and the exponent of 1.0,
    and the exponent and bit count [d2b] reports give the original exponent. *)
Theorem d2b_b2d_roundtrip σ g s e f d1 :
  mp_ok σ g → 0 ≤ s < 2 → 0 < e < 2047 → 0 ≤ f < 2 ^ 20 → word d1 →
  runs ('(p, e, bits) ← d2b (s * 2 ^ 31 + e * 2 ^ 20 + f) d1;
        '(w0, w1, _) ← b2d p;
        mret (w0, w1, e + bits - 1)) σ
    (λ r _, r = (1023 * 2 ^ 20 + f, d1, e - 1023)).
Proof using CL.
  intros Hok Hs He Hf Hd1. unfold word in Hd1.
  assert (dbl (s * 2 ^ 31 + e * 2 ^ 20 + f) d1 = (2 ^ 52 + (2 ^ 32 * f + d1)) * 2 ^ (e - 1)) as Ed.
  { rewrite dbl_eq by lia. destruct (Z.eqb_spec e 0); [lia|done]. }
  set (m := 2 ^ 52 + (2 ^ 32 * f + d1)) in *.
  eapply runs_call; [apply (d2b_ok σ g); [done|unfold word; lia|done|rewrite Ed; nia]|].
  intros [[p e'] bits] σ' (g' & b & _ & _ & _ & Hb & (v & Hn & Ho & He' & Ev & ->) & _).
  rewrite Ed in Ev.
  assert (0 < v) as Hv by (pose proof (num_nonneg b v Hn); destruct (decide (v = 0)) as [->|]; [done|lia]).
  pose proof (Z.log2_mul_pow2 v (e' + 1074) Hv He') as Hlog. rewrite Ev, Z.log2_mul_pow2 in Hlog by lia.
  assert (Z.log2 m = 52) as Hm by (apply Z.log2_unique; lia). rewrite Hm in Hlog.
  assert (e - 1 ≤ e' + 1074) as Hle.
  { destruct (decide (e - 1 ≤ e' + 1074)) as [|Hgt]; [done|]. exfalso.
    assert (2 ^ (e - 1) = 2 * 2 ^ (e - 2 - (e' + 1074)) * 2 ^ (e' + 1074)) as E2.
    { rewrite <- Z.mul_assoc, <- Z.pow_add_r, <- Z.pow_succ_r by lia. f_equal. lia. }
    rewrite E2 in Ev. assert (v = 2 * (m * 2 ^ (e - 2 - (e' + 1074)))) as ->.
    { apply (Z.mul_reg_r _ _ (2 ^ (e' + 1074))); [lia|]. rewrite Ev. ring. }
    by rewrite Z.odd_mul in Ho. }
  pose proof (Z.log2_nonneg v).
  destruct (b2d_exact b v Hn Hv) as (d0 & d1' & e2 & Eb & E0 & E1); [lia|].
  apply runs_bind. unfold b2d. apply (runs_get p b); [done|]. rewrite Eb. apply runs_ret.
  cbv zeta in E0, E1.
  assert (v * 2 ^ (52 - Z.log2 v) = m) as EM.
  { apply (Z.mul_reg_r _ _ (2 ^ (e - 1))); [lia|].
    rewrite <- Ev, <- Z.mul_assoc, <- Z.pow_add_r by lia. f_equal. f_equal. lia. }
  rewrite EM in E0, E1. unfold m in E0, E1.
  rewrite <- (Z.div_unique (2 ^ 52 + (2 ^ 32 * f + d1)) (2 ^ 32) (2 ^ 20 + f) d1) in E0 by lia.
  rewrite <- (Z.mod_unique (2 ^ 52 + (2 ^ 32 * f + d1)) (2 ^ 32) (2 ^ 20 + f) d1) in E1 by lia.
  cbn beta. rewrite E0, E1. apply (f_equal2 pair); [apply (f_equal2 pair)|]; lia.
Qed.
End claims.

(** [b2d] truncates to the top 53 bits. For a positive number [v] it
    returns a double in [1, 2) whose significand [M] is the 53 leading bits of
    [v], and a word of [e] bits such that [v] has [L] bits: the double times
    2^(L-1) is at most [v], and the next larger double exceeds it. *)
Theorem b2d_correct a v : num a v → 0 < v →
  ∃ d0 d1 e M, b2d_big a = Some (d0, d1, e) ∧ 2 ^ 52 ≤ M < 2 ^ 53 ∧ dbl d0 d1 = M * 2 ^ 1022 ∧
    let L := 32 * (_wds a - 1) + e in
    0 < L ∧ 2 ^ (L - 1) ≤ v < 2 ^ L ∧ M * 2 ^ L ≤ v * 2 ^ 53 < (M + 1) * 2 ^ L.
Proof.
  intros Hn Hv. destruct (b2d_big_ok a v Hn Hv) as (d0 & d1 & e & M & E & HM & -> & -> & HL).
  exists (1023 * 2 ^ 20 + (M / 2 ^ 32 - 2 ^ 20)), (M mod 2 ^ 32), e, M. split_and!; try done; [lia..|].
  pose proof (Z.div_mod M (2 ^ 32)). pose proof (Z.mod_pos_bound M (2 ^ 32)).
  pose proof (dbl_eq 0 1023 (M / 2 ^ 32 - 2 ^ 20) (M mod 2 ^ 32)) as Ed.
  rewrite Z.mul_0_l, Z.add_0_l in Ed. rewrite Ed by lia.
  change (1023 =? 0) with false. cbv iota. change (1023 - 1) with 1022.
  f_equal. lia.
Qed.

(** Bit counts and spacing. [hi0bits] is the number of leading zero bits of
    a word and [lo0bits] the number of trailing ones, which it shifts out; for
    a finite double [ulp] is 2^(e-1075) for the exponent field [e], counted as
    1 for a subnormal: the distance to the neighbouring doubles. *)
Theorem bits_and_ulp_correct :
  (∀ x, 0 ≤ x < 2 ^ 32 → (x = 0 ∧ hi0bits x = 32 ∨ 0 ≤ hi0bits x < 32 ∧ 2 ^ 31 ≤ x * 2 ^ hi0bits x < 2 ^ 32)) ∧
  (∀ y, 0 ≤ y < 2 ^ 32 → (y = 0 ∧ lo0bits y = (32, 0) ∨
    ∃ k y', lo0bits y = (k, y') ∧ 0 ≤ k < 32 ∧ y' * 2 ^ k = y ∧ Z.odd y' = true)) ∧
  (∀ s e f, 0 ≤ s < 2 → 0 ≤ e < 2047 → 0 ≤ f < 2 ^ 20 →
    ∃ w0 w1, ulp (s * 2 ^ 31 + e * 2 ^ 20 + f) = (w0, w1) ∧ 0 ≤ w0 < 2 ^ 31 ∧ 0 ≤ w1 < 2 ^ 32 ∧
      dbl w0 w1 = 2 ^ (Z.max e 1 - 1)).
Proof.
  split_and!.
  - intros x Hx. destruct (decide (x = 0)) as [->|]; [by left|right]. apply hi0bits_ok. lia.
  - intros y Hy. destruct (decide (y = 0)) as [->|]; [by left|right]. apply lo0bits_ok. lia.
  - intros s e f Hs He Hf. pose proof (ulp_ok s e f Hs He Hf) as Hu.
    destruct (ulp _) as [w0 w1]. by exists w0, w1.
Qed.

(** [any_on b k] is 1 exactly when one of the low
    [k] bits of the number is set; [copybits] writes the number into an array
    of words, zero-extended to [n] bits, and leaves the rest of the array. *)
Theorem any_on_copybits_correct b v k c n :
  num b v → 0 ≤ k → 0 < n → Forall word c →
  (Z.to_nat (Z.shiftr (n - 1) 5 + 1) ≤ length c)%nat → (Z.to_nat (_wds b) ≤ length c)%nat →
  any_on b k = Some (if v mod 2 ^ k =? 0 then 0 else 1) ∧
  ∃ c', copybits c n b = Some c' ∧ length c' = length c ∧
    let m := Nat.max (Z.to_nat (_wds b)) (Z.to_nat (Z.shiftr (n - 1) 5 + 1)) in
    val (take m c') = v ∧ drop m c' = drop m c.
Proof.
  intros Hb Hk Hn Hc H1 H2. split; [by apply any_on_ok|].
  destruct (copybits_ok c n b v) as (c' & E & _ & Hl & Hm); [done..|]. by exists c'.
Qed.

(** ** Witnesses *)

(** The number 3 * 2^32 + 4. *)
Definition demo_big : Bigint := Big 0 1 2 0 2 [4; 3].

Lemma demo_big_num : num demo_big 12884901892.
Proof.
  exists 2%nat. cbn. split_and!; [done|lia|lia| | |done].
  - apply (bool_decide_unpack (Forall (λ w, 0 ≤ w < 2 ^ 32) [4; 3])). reflexivity.
  - right. by exists 3.
Qed.

Lemma Balloc_Bfree_correct_witness :
  ∃ g, mp_ok demo_state g ∧ g !! demo_ptr = Some Live ∧
    runs (Bfree demo_ptr) demo_state (λ _ σ', mp_ok σ' (<[demo_ptr := Free]> g) ∧
      kept demo_state g σ' (<[demo_ptr := Free]> g) [demo_ptr]).
Proof.
  destruct (reach_represents _ _ demo_reach) as (g & Hok & Hg).
  destruct (Hg demo_ptr 7 (lookup_singleton_eq _ _)) as [Hl _].
  exists g. split_and!; [exact Hok|exact Hl|].
  apply (Balloc_Bfree_correct demo_state g 3 demo_ptr Hok); [lia|exact Hl].
Defined.

(** The text 1234567890.25 *)
Definition demo_ip : list Z := [49; 50; 51; 52; 53; 54; 55; 56; 57; 48].
Definition demo_fp : list Z := [50; 53].

Lemma s2b_correct_witness :
  decimal 0 (demo_ip ++ demo_fp) = 123456789025 ∧
  runs (s2b (demo_ip ++ 46 :: demo_fp) 10 12 123456789) mp_start
    (yields mp_start ∅ [] (λ b', num b' (decimal 0 (demo_ip ++ demo_fp)))).
Proof.
  split; [reflexivity|]. apply (s2b_correct mp_start ∅ demo_ip 46 demo_fp mp_start_ok).
  - apply (bool_decide_unpack (Forall (λ c, 48 ≤ c ≤ 57) demo_ip)). reflexivity.
  - apply (bool_decide_unpack (Forall (λ c, 48 ≤ c ≤ 57) demo_fp)). reflexivity.
  - cbn. lia.
  - reflexivity.
Defined.

Definition demo_state2 : mp := state_after (run_op (OpI2b 9)) demo_state.
Definition demo_ptr2 : Z := returned (run_op (OpI2b 9)) demo_state.

Lemma demo_reach2 : reach demo_state2 {[demo_ptr2 := 9; demo_ptr := 7]}.
Proof.
  apply (reach_call demo_state {[demo_ptr := 7]} (OpI2b 9) demo_ptr2);
    [apply demo_reach|by eexists|vm_compute; reflexivity|].
  exists 9. split_and!; [done|vm_compute; reflexivity|done].
Qed.

(** 7 - 9 *)
Lemma cmp_diff_correct_witness :
  ∃ g, mp_ok demo_state2 g ∧
    runs (diff demo_ptr demo_ptr2) demo_state2 (yields demo_state2 g [] (λ c,
      num c 2 ∧ (_sign c = 1 ∧ 7 < 9 ∨ _sign c = 0 ∧ 9 ≤ 7))).
Proof.
  destruct (reach_represents _ _ demo_reach2) as (g & Hok & Hg).
  destruct (Hg demo_ptr 7) as (_ & a & Ha & Hna); [vm_compute; reflexivity|].
  destruct (Hg demo_ptr2 9) as (_ & b & Hb & Hnb); [vm_compute; reflexivity|].
  exists g. split; [exact Hok|].
  apply (cmp_diff_correct demo_state2 g demo_ptr demo_ptr2 a b 7 9 Hok Ha Hb Hna Hnb).
Defined.

(** 0.1 *)
Lemma d2b_correct_witness :
  runs (d2b 0x3fb99999 0x9999999a) mp_start (λ '(p, e, bits) σ',
    yields mp_start ∅ [] (λ b, ∃ v, num b v ∧ Z.odd v = true ∧ 0 ≤ e + 1074 ∧
      v * 2 ^ (e + 1074) = dbl 0x3fb99999 0x9999999a ∧ 2 ^ (bits - 1) ≤ v < 2 ^ bits) p σ').
Proof.
  apply (d2b_correct mp_start ∅ 0x3fb99999 0x9999999a mp_start_ok); [unfold word; lia..|].
  vm_compute. discriminate.
Defined.

(** 0.1 has the exponent -4. *)
Lemma d2b_b2d_roundtrip_witness :
  runs ('(p, e, bits) ← d2b (0 * 2 ^ 31 + 1019 * 2 ^ 20 + 0x99999) 0x9999999a;
        '(w0, w1, _) ← b2d p;
        mret (w0, w1, e + bits - 1)) mp_start
    (λ r _, r = (1023 * 2 ^ 20 + 0x99999, 0x9999999a, -4)).
Proof.
  apply (d2b_b2d_roundtrip mp_start ∅ 0 1019 0x99999 0x9999999a mp_start_ok); [lia..|unfold word; lia].
Defined.

Lemma b2d_correct_witness :
  b2d_big demo_big = Some (0x3ff80000, 0x200000, 2) ∧
  ∃ d0 d1 e M, b2d_big demo_big = Some (d0, d1, e) ∧ 2 ^ 52 ≤ M < 2 ^ 53 ∧ dbl d0 d1 = M * 2 ^ 1022 ∧
    let L := 32 * (_wds demo_big - 1) + e in
    0 < L ∧ 2 ^ (L - 1) ≤ 12884901892 < 2 ^ L ∧
    M * 2 ^ L ≤ 12884901892 * 2 ^ 53 < (M + 1) * 2 ^ L.
Proof. split; [reflexivity|]. apply (b2d_correct demo_big 12884901892 demo_big_num). lia. Defined.

Lemma any_on_copybits_correct_witness :
  any_on demo_big 2 = Some 0 ∧ any_on demo_big 3 = Some 1 ∧
  (any_on demo_big 3 = Some (if 12884901892 mod 2 ^ 3 =? 0 then 0 else 1) ∧
   ∃ c', copybits [9; 9; 9; 9] 96 demo_big = Some c' ∧ length c' = 4%nat ∧
     val (take 3 c') = 12884901892 ∧ drop 3 c' = [9]).
Proof.
  split; [reflexivity|]. split; [reflexivity|].
  apply (any_on_copybits_correct demo_big 12884901892 3 [9; 9; 9; 9] 96 demo_big_num); [lia|lia| | |].
  - apply (bool_decide_unpack (Forall (λ w, 0 ≤ w < 2 ^ 32) [9; 9; 9; 9])). reflexivity.
  - apply Nat.leb_le. reflexivity.
  - apply Nat.leb_le. reflexivity.
Defined.
