(* ===== verification/Rust.v ===== *)
(** * Rust code of the kernel

    What the models of the kernel crates share: integer arithmetic of the dev
    profile, where an overflow panics; a state monad with failure; results and
    the operator [?]; loops over ranges; bytes, and memory as 64-bit words.

    A function that works on statics is a value of [ST S A], where [S] is the
    record of these statics. It fails ([None]) when the code panics or touches
    memory that is not mapped. *)
From stdpp Require Export strings.
From Stdlib Require Import Ascii.
From S2P Require Import Prelude.

#[global] Open Scope Z_scope.

(** ** Arithmetic *)

(** The result of [+], [-] or [*] on a [w]-bit unsigned integer. *)
Definition checked (w x : Z) : option Z := if (0 <=? x) && (x <? 2 ^ w) then Some x else None.

Definition saturating_sub (x y : Z) : Z := Z.max 0 (x - y).

(** The operator [!] on u64. *)
Definition not64 (x : Z) : Z := 2 ^ 64 - 1 - x.

(** ** Results *)

Inductive Result (A : Type) : Type :=
  | Ok (a : A)
  | Err (e : string).
Arguments Ok {A} a.
Arguments Err {A} e.

(** ** The monad *)

Definition ST (S A : Type) : Type := S → option (A * S).

#[global] Instance ST_ret S : MRet (ST S) := λ _ x σ, Some (x, σ).
#[global] Instance ST_bind S : MBind (ST S) := λ _ _ k m σ,
  match m σ with Some (x, σ') => k x σ' | None => None end.

Definition get {S A} (f : S → A) : ST S A := λ σ, Some (f σ, σ).
Definition modify {S} (f : S → S) : ST S unit := λ σ, Some (tt, f σ).
Definition lift {S A} (o : option A) : ST S A := λ σ, x ← o; Some (x, σ).
Definition panic {S A} : ST S A := λ _, None.

Declare Scope rust_scope.
Delimit Scope rust_scope with rust.
#[global] Open Scope rust_scope.

(** The operator [?] on an [Option] and on a [Result]. *)
Notation "x ←o m ; k" := (mbind (M := ST _) (λ r, match r with Some x => k | None => mret None end) m)
  (at level 20, m at level 100, k at level 200) : rust_scope.
Notation "x ←r m ; k" := (mbind (M := ST _) (λ r, match r with Ok x => k | Err e => mret (Err e) end) m)
  (at level 20, m at level 100, k at level 200) : rust_scope.

(** [for i in lo..lo + n], without and with an early return. *)
Fixpoint for_range {S} (lo : Z) (n : nat) (body : Z → ST S unit) : ST S unit :=
  match n with
  | O => mret tt
  | S n => _ ← body lo; for_range (lo + 1) n body
  end.

Fixpoint find_range {S A} (lo : Z) (n : nat) (body : Z → ST S (option A)) : ST S (option A) :=
  match n with
  | O => mret None
  | S n => r ← body lo; match r with Some x => mret (Some x) | None => find_range (lo + 1) n body end
  end.

(** ** Bytes *)

(** [slice.len()]. *)
Definition len {A} (l : list A) : Z := Z.of_nat (length l).

(** [&l[a..b]], which panics out of range. *)
Definition slice {A} (l : list A) (a b : Z) : option (list A) :=
  if (0 <=? a) && (a <=? b) && (b <=? len l) then Some (take (Z.to_nat (b - a)) (drop (Z.to_nat a) l)) else None.

(** [l[a..a + d.len()].copy_from_slice(d)]. *)
Definition patch {A} (l : list A) (a : Z) (d : list A) : option (list A) :=
  if (0 <=? a) && (a + len d <=? len l) then Some (take (Z.to_nat a) l ++ d ++ drop (Z.to_nat (a + len d)) l) else None.

(** [from_le_bytes] and [to_le_bytes]. *)
Fixpoint from_le (l : list Z) : Z :=
  match l with [] => 0 | b :: l => b + 256 * from_le l end.
Fixpoint to_le (n : nat) (v : Z) : list Z :=
  match n with O => [] | S n => v mod 256 :: to_le n (v / 256) end.

(** The text of bytes, and the bytes of a text. *)
Fixpoint to_string (l : list Z) : string :=
  match l with
  | [] => EmptyString
  | b :: l => String (ascii_of_N (Z.to_N b)) (to_string l)
  end.
Fixpoint bytes_of (s : string) : list Z :=
  match s with
  | EmptyString => []
  | String c s => Z.of_N (N_of_ascii c) :: bytes_of s
  end.

(** ** Memory

    The words of memory, by address. *)
Abbreviation kmem := (gmap Z Z).

Definition kload (m : kmem) (a : Z) : option Z := if a mod 8 =? 0 then m !! a else None.
Definition kstore (m : kmem) (a w : Z) : option kmem :=
  if a mod 8 =? 0 then _ ← m !! a; Some (<[a := w]> m) else None.

(** ** What a computation does

    [wp m Q σ]: [m] from [σ] returns, with a result and a state in [Q]. *)
Definition wp {S A} (m : ST S A) (Q : A → S → Prop) (σ : S) : Prop :=
  match m σ with Some (x, σ') => Q x σ' | None => False end.

Section wp.
Context {S : Type}.

Lemma wp_ret {A} (x : A) (Q : A → S → Prop) σ : Q x σ → wp (mret x) Q σ.
Proof. done. Qed.

Lemma wp_bind {A B} (m : ST S A) (k : A → ST S B) Q σ :
  wp m (λ x, wp (k x) Q) σ → wp (m ≫= k) Q σ.
Proof. unfold wp, mbind, ST_bind. by destruct (m σ) as [[]|]. Qed.

Lemma wp_mono {A} (m : ST S A) (Q Q' : A → S → Prop) σ :
  wp m Q σ → (∀ x σ', Q x σ' → Q' x σ') → wp m Q' σ.
Proof. unfold wp. destruct (m σ) as [[]|]; eauto. Qed.

Lemma wp_get {A} (f : S → A) Q σ : Q (f σ) σ → wp (get f) Q σ.
Proof. done. Qed.

Lemma wp_modify (f : S → S) Q σ : Q tt (f σ) → wp (modify f) Q σ.
Proof. done. Qed.

Lemma wp_lift {A} (x : A) (Q : A → S → Prop) o σ : o = Some x → Q x σ → wp (lift o) Q σ.
Proof. by intros ->. Qed.

(** A computation in [wp] has a result. *)
Lemma wp_result {A} (m : ST S A) Q σ : wp m Q σ → ∃ x σ', m σ = Some (x, σ') ∧ Q x σ'.
Proof. unfold wp. destruct (m σ) as [[x σ']|]; [|done]. by eauto. Qed.

Lemma wp_intro {A} (m : ST S A) (Q : A → S → Prop) σ x σ' : m σ = Some (x, σ') → Q x σ' → wp m Q σ.
Proof. unfold wp. by intros ->. Qed.

Lemma wp_intro_eq {A} (m : ST S A) σ x σ' : wp m (λ r τ, r = x ∧ τ = σ') σ → m σ = Some (x, σ').
Proof. intros (? & ? & -> & -> & ->)%wp_result. done. Qed.

(** A loop with an invariant over the index. *)
Lemma wp_for_range (I : Z → S → Prop) lo n body (Q : unit → S → Prop) σ :
  I lo σ → (∀ i σ, lo ≤ i < lo + Z.of_nat n → I i σ → wp (body i) (λ _, I (i + 1)) σ) →
  (∀ σ, I (lo + Z.of_nat n) σ → Q tt σ) → wp (for_range lo n body) Q σ.
Proof.
  revert lo σ. induction n as [|n IH]; intros lo σ HI Hb HQ; simpl.
  - apply wp_ret, HQ. by rewrite Z.add_0_r.
  - apply wp_bind. eapply wp_mono; [apply (Hb lo); [lia|done]|]. intros [] σ' HI'.
    apply IH; [done| |].
    + intros i τ Hi. apply Hb. lia.
    + intros τ. replace (lo + 1 + Z.of_nat n) with (lo + Z.of_nat (Datatypes.S n)) by lia. apply HQ.
Qed.

Lemma wp_find_range {A} (I : Z → S → Prop) lo n body (Q : option A → S → Prop) σ :
  I lo σ →
  (∀ i σ, lo ≤ i < lo + Z.of_nat n → I i σ →
     wp (body i) (λ r σ, match r with Some x => Q (Some x) σ | None => I (i + 1) σ end) σ) →
  (∀ σ, I (lo + Z.of_nat n) σ → Q None σ) → wp (find_range lo n body) Q σ.
Proof.
  revert lo σ. induction n as [|n IH]; intros lo σ HI Hb HQ; simpl.
  - apply wp_ret, HQ. by rewrite Z.add_0_r.
  - apply wp_bind. eapply wp_mono; [apply (Hb lo); [lia|done]|]. intros [x|] σ' HI'; [done|].
    apply IH; [done| |].
    + intros i τ Hi. apply Hb. lia.
    + intros τ. replace (lo + 1 + Z.of_nat n) with (lo + Z.of_nat (Datatypes.S n)) by lia. apply HQ.
Qed.
End wp.

(** ** Partial correctness

    [may m Q σ]: if [m] from [σ] returns, the result and the state are in [Q]. *)
Definition may {S A} (m : ST S A) (Q : A → S → Prop) (σ : S) : Prop :=
  match m σ with Some (x, σ') => Q x σ' | None => True end.

Section may.
Context {S : Type}.

Lemma may_use {A} (m : ST S A) Q σ x σ' : may m Q σ → m σ = Some (x, σ') → Q x σ'.
Proof. unfold may. intros HQ E. by rewrite E in HQ. Qed.

Lemma may_intro {A} (m : ST S A) (Q : A → S → Prop) σ : (∀ x σ', m σ = Some (x, σ') → Q x σ') → may m Q σ.
Proof. unfold may. intros HQ. destruct (m σ) as [[]|]; by auto. Qed.

Lemma may_wp {A} (m : ST S A) (Q : A → S → Prop) σ : wp m Q σ → may m Q σ.
Proof. unfold wp, may. by destruct (m σ) as [[]|]. Qed.

Lemma may_ret {A} (x : A) (Q : A → S → Prop) σ : Q x σ → may (mret x) Q σ.
Proof. done. Qed.

Lemma may_bind {A B} (m : ST S A) (k : A → ST S B) Q σ : may m (λ x, may (k x) Q) σ → may (m ≫= k) Q σ.
Proof. unfold may, mbind, ST_bind. by destruct (m σ) as [[]|]. Qed.

Lemma may_mono {A} (m : ST S A) (Q Q' : A → S → Prop) σ : may m Q σ → (∀ x σ', Q x σ' → Q' x σ') → may m Q' σ.
Proof. unfold may. destruct (m σ) as [[]|]; eauto. Qed.

Lemma may_get {A} (f : S → A) (Q : A → S → Prop) σ : Q (f σ) σ → may (get f) Q σ.
Proof. done. Qed.

Lemma may_modify (f : S → S) (Q : unit → S → Prop) σ : Q tt (f σ) → may (modify f) Q σ.
Proof. done. Qed.

Lemma may_lift {A} (o : option A) (Q : A → S → Prop) σ : (∀ x, o = Some x → Q x σ) → may (lift o) Q σ.
Proof. unfold may, lift. destruct o; cbn; eauto. Qed.

Lemma may_find_range {A} (I : Z → S → Prop) lo n body (Q : option A → S → Prop) σ : I lo σ →
  (∀ i σ, lo ≤ i < lo + Z.of_nat n → I i σ → may (body i) (λ r σ, match r with Some x => Q (Some x) σ | None => I (i + 1) σ end) σ) →
  (∀ σ, I (lo + Z.of_nat n) σ → Q None σ) → may (find_range lo n body) Q σ.
Proof.
  revert lo σ. induction n as [|n IH]; intros lo σ HI Hb HQ; simpl.
  - apply may_ret, HQ. by rewrite Z.add_0_r.
  - apply may_bind. eapply may_mono; [apply (Hb lo); [lia|done]|]. intros [x|] σ' HI'; [done|].
    apply IH; [done| |].
    + intros i τ Hi. apply Hb. lia.
    + intros τ. replace (lo + 1 + Z.of_nat n) with (lo + Z.of_nat (Datatypes.S n)) by lia. apply HQ.
Qed.
End may.

(** Arithmetic with division and remainder. *)
Ltac divlia := Z.to_euclidean_division_equations; lia.

(** One step of a straight-line computation. *)
Ltac wp_step :=
  lazymatch goal with
  | |- wp (mret _) _ _ => apply wp_ret
  | |- wp (get _) _ _ => apply wp_get; cbn beta
  | |- wp (modify _) _ _ => apply wp_modify
  | |- wp (lift (Some _)) _ _ => apply (wp_lift _ _ _ _ eq_refl)
  | |- wp (_ ≫= _) _ _ => apply wp_bind
  end.
Ltac wp_steps := repeat (wp_step; cbn beta).

(** Use what is known of a call. *)
Tactic Notation "wp_call" uconstr(H) := eapply wp_mono; [eapply H|].

Lemma checked_ok w x : 0 ≤ x < 2 ^ w → checked w x = Some x.
Proof. intros ?. unfold checked. by replace ((0 <=? x) && (x <? 2 ^ w)) with true by lia. Qed.

Lemma checked_inv w x y : checked w x = Some y → y = x ∧ 0 ≤ x < 2 ^ w.
Proof. unfold checked. destruct ((0 <=? x) && (x <? 2 ^ w)) eqn:E; [|done]. intros [= <-]. lia. Qed.

Lemma kload_ok m a w : a mod 8 = 0 → m !! a = Some w → kload m a = Some w.
Proof. intros Ha. unfold kload. by rewrite Ha. Qed.

Lemma kstore_ok m a w : a mod 8 = 0 → is_Some (m !! a) → kstore m a w = Some (<[a := w]> m).
Proof. intros Ha [v Hv]. unfold kstore. by rewrite Ha, Hv. Qed.

(** ** Bytes, and back *)

Definition is_byte (b : Z) : Prop := 0 ≤ b < 256.

Lemma length_to_le n v : length (to_le n v) = n.
Proof. revert v. induction n as [|n IH]; intros v; [done|]. cbn [to_le length]. by rewrite IH. Qed.

Lemma to_le_bytes n v : Forall is_byte (to_le n v).
Proof. revert v. induction n as [|n IH]; intros v; constructor; [apply Z.mod_pos_bound; lia|apply IH]. Qed.

Lemma from_to_le n v : from_le (to_le n v) = v mod 2 ^ (8 * Z.of_nat n).
Proof.
  revert v. induction n as [|n IH]; intros v; cbn [to_le from_le]; [by rewrite Z.mod_1_r|]. rewrite IH.
  replace (8 * Z.of_nat (S n)) with (8 + 8 * Z.of_nat n) by lia. rewrite Z.pow_add_r by lia. change (2 ^ 8) with 256.
  rewrite Z.rem_mul_r by lia. lia.
Qed.

Lemma from_to_le_small n v : 0 ≤ v < 2 ^ (8 * Z.of_nat n) → from_le (to_le n v) = v.
Proof. intros Hv. rewrite from_to_le. by apply Z.mod_small. Qed.

Lemma to_from_le l : Forall is_byte l → to_le (length l) (from_le l) = l.
Proof.
  induction 1 as [|b l Hb Hl IH]; [done|]. unfold is_byte in Hb. cbn [length from_le to_le]. f_equal; [divlia|].
  replace ((b + 256 * from_le l) / 256) with (from_le l) by divlia. exact IH.
Qed.

Lemma from_le_range l : Forall is_byte l → 0 ≤ from_le l < 2 ^ (8 * len l).
Proof.
  induction 1 as [|b l Hb Hl IH]; [done|]. unfold is_byte, len in *. cbn [length from_le].
  replace (8 * Z.of_nat (S (length l))) with (8 + 8 * Z.of_nat (length l)) by lia. rewrite Z.pow_add_r by lia. change (2 ^ 8) with 256. lia.
Qed.

Lemma len_app {A} (l k : list A) : len (l ++ k) = len l + len k.
Proof. unfold len. rewrite length_app. lia. Qed.
Lemma len_nonneg {A} (l : list A) : 0 ≤ len l.
Proof. unfold len. lia. Qed.

Lemma slice_ok {A} (l : list A) a b : 0 ≤ a ≤ b → b ≤ len l → slice l a b = Some (take (Z.to_nat (b - a)) (drop (Z.to_nat a) l)).
Proof. intros Ha Hb. unfold slice. by replace (_ && _ && _) with true by lia. Qed.

(** The slice in the middle of a list. *)
Lemma slice_middle {A} (l k r : list A) a b : len l = a → len k = b - a → slice (l ++ k ++ r) a b = Some k.
Proof.
  intros Hl Hk. pose proof (len_nonneg l). pose proof (len_nonneg k). pose proof (len_nonneg r). rewrite slice_ok; rewrite ?len_app; [|lia..].
  unfold len in *. rewrite drop_app_length' by lia. by rewrite take_app_length' by lia.
Qed.

(** ** Rounding *)

Lemma testbit_not64 x b : 0 ≤ b < 64 → Z.testbit (not64 x) b = negb (Z.testbit x b).
Proof.
  intros Hb. replace (not64 x) with (2 ^ 64 + Z.lnot x) by (unfold not64, Z.lnot; lia).
  rewrite <- (Z.mod_pow2_bits_low (2 ^ 64 + Z.lnot x) 64 b) by lia.
  replace ((2 ^ 64 + Z.lnot x) mod 2 ^ 64) with (Z.lnot x mod 2 ^ 64)
    by (divlia).
  rewrite Z.mod_pow2_bits_low by lia. apply Z.lnot_spec. lia.
Qed.

(** Rounding down to a power of two. *)
Lemma land_not64 x k : 0 ≤ x < 2 ^ 64 → 0 ≤ k < 64 → Z.land x (not64 (2 ^ k - 1)) = x / 2 ^ k * 2 ^ k.
Proof.
  intros Hx Hk. rewrite <- Z.shiftr_div_pow2, <- Z.shiftl_mul_pow2 by lia.
  apply Z.bits_inj'. intros i Hi. rewrite Z.land_spec. destruct (decide (64 ≤ i)).
  - rewrite (testbit_small 64 x), Z.shiftl_spec, Z.shiftr_spec by lia.
    replace (i - k + k) with i by lia. by rewrite (testbit_small 64 x) by lia.
  - replace (2 ^ k - 1) with (Z.ones k) by (rewrite Z.ones_equiv; lia). rewrite testbit_not64 by lia.
    destruct (decide (i < k)).
    + rewrite Z.ones_spec_low, Z.shiftl_spec_low by lia. apply andb_false_r.
    + rewrite Z.ones_spec_high, Z.shiftl_spec, Z.shiftr_spec by lia. rewrite andb_true_r. f_equal. lia.
Qed.

(** Rounding up, the way allocators do. *)
Lemma round_up x k : 0 ≤ x → 0 ≤ k < 64 → x + 2 ^ k - 1 < 2 ^ 64 →
  let y := Z.land (x + 2 ^ k - 1) (not64 (2 ^ k - 1)) in
  x ≤ y < x + 2 ^ k ∧ y mod 2 ^ k = 0.
Proof.
  intros Hx Hk Hlt y. assert (0 < 2 ^ k) by lia. unfold y. rewrite land_not64 by lia.
  rewrite Z.mod_mul by lia. split; [|done].
  pose proof (Z.div_mod (x + 2 ^ k - 1) (2 ^ k) ltac:(lia)). pose proof (Z.mod_pos_bound (x + 2 ^ k - 1) (2 ^ k) ltac:(lia)). lia.
Qed.

(** ** Running a model

    Whether a computation returns something, and one that continues it. *)
Definition succeeds {S A} (m : ST S (option A)) (σ : S) : bool :=
  match m σ with Some (Some _, _) => true | _ => false end.
Definition then_returns {S A B} (m : ST S (option A)) (k : A → ST S B) (σ : S) : bool :=
  match m σ with Some (Some x, τ) => match k x τ with Some _ => true | None => false end | _ => false end.

Lemma succeeds_result {S A} (m : ST S (option A)) σ : succeeds m σ = true → ∃ x σ', m σ = Some (Some x, σ').
Proof. unfold succeeds. destruct (m σ) as [[[x|] σ']|]; [|done|done]. by exists x, σ'. Qed.

Lemma then_returns_result {S A B} (m : ST S (option A)) (k : A → ST S B) σ : then_returns m k σ = true →
  ∃ x τ y σ', m σ = Some (Some x, τ) ∧ k x τ = Some (y, σ').
Proof.
  unfold then_returns. destruct (m σ) as [[[x|] τ]|]; [|done|done].
  destruct (k x τ) as [[y σ']|] eqn:E; [|done]. by exists x, τ, y, σ'.
Qed.
