(* ===== verification/Frame.v ===== *)
(** * The frame allocator

    Models memory/src/addr.rs and memory/src/frame_allocator.rs: physical and
    virtual addresses, and the bitmap with one bit for each frame of physical
    memory, set when the frame is free. The bitmap is in memory, at the address
    in [FRAME_BITMAP]. The record [mm] holds the statics of the whole crate;
    those of vmm.rs and mmio.rs are used in [Paging]. *)
From S2P Require Import Prelude Rust.

(** ** Addresses *)
Module Addr.
Definition align_up (addr align : Z) : option Z :=
  x ← checked 64 (addr + align);
  x ← checked 64 (x - 1);
  y ← checked 64 (align - 1);
  Some (Z.land x (not64 y)).
Definition align_down (addr align : Z) : option Z :=
  y ← checked 64 (align - 1);
  Some (Z.land addr (not64 y)).
Definition page_offset (v : Z) : Z := Z.land v 0xFFF.
Definition p4_index (v : Z) : Z := Z.land (Z.shiftr v 39) 0x1FF.
Definition p3_index (v : Z) : Z := Z.land (Z.shiftr v 30) 0x1FF.
Definition p2_index (v : Z) : Z := Z.land (Z.shiftr v 21) 0x1FF.
Definition p1_index (v : Z) : Z := Z.land (Z.shiftr v 12) 0x1FF.
End Addr.

(** ** State *)

Definition PAGE_SIZE : Z := 4096.
Definition HHDM_OFFSET : Z := 0xFFFF800000000000.

Record frames := Frames {
  FRAME_BITMAP : Z;
  TOTAL_FRAMES : Z;
  BITMAP_SIZE : Z;
}.

Record mm := Mm {
  mem : kmem;
  fra : frames;
  KERNEL_PAGE_TABLE : Z;
  cr3 : Z;
  MMIO_LOWER : Z;
  MMIO_UPPER : Z;
  MMIO_CURRENT : Z;
}.

Definition set_mem (m : kmem) (σ : mm) : mm :=
  Mm m (fra σ) (KERNEL_PAGE_TABLE σ) (cr3 σ) (MMIO_LOWER σ) (MMIO_UPPER σ) (MMIO_CURRENT σ).
Definition set_fra (f : frames) (σ : mm) : mm :=
  Mm (mem σ) f (KERNEL_PAGE_TABLE σ) (cr3 σ) (MMIO_LOWER σ) (MMIO_UPPER σ) (MMIO_CURRENT σ).

(** Words behind pointers. *)
Definition ld (a : Z) : ST mm Z := λ σ, w ← kload (mem σ) a; Some (w, σ).
Definition sd (a w : Z) : ST mm unit := λ σ, m ← kstore (mem σ) a w; Some (tt, set_mem m σ).

(** ** The memory map of the boot loader *)

Record Entry := MkEntry {
  ent_base : Z;
  ent_length : Z;
  usable : bool;
}.

#[global] Instance Entry_eq_dec : EqDecision Entry.
Proof. solve_decision. Defined.

Definition max_addr_step (acc : option Z) (e : Entry) : option Z :=
  max_addr ← acc;
  fin ← checked 64 (ent_base e + ent_length e);
  Some (if max_addr <? fin then fin else max_addr).
Definition max_addr (memory_map : list Entry) : option Z := fold_left max_addr_step memory_map (Some 0).

(** ** The allocator *)
Module FrameAllocator.
Definition mark_free (frame : Z) : ST mm unit :=
  f ← get fra;
  if TOTAL_FRAMES f <=? frame then mret tt
  else
    let index := frame / 64 in
    let bit := frame mod 64 in
    w ← ld (FRAME_BITMAP f + 8 * index);
    sd (FRAME_BITMAP f + 8 * index) (Z.lor w (Z.shiftl 1 bit)).

Definition mark_used (frame : Z) : ST mm unit :=
  f ← get fra;
  if TOTAL_FRAMES f <=? frame then mret tt
  else
    let index := frame / 64 in
    let bit := frame mod 64 in
    w ← ld (FRAME_BITMAP f + 8 * index);
    sd (FRAME_BITMAP f + 8 * index) (Z.land w (not64 (Z.shiftl 1 bit))).

(** [u64::trailing_zeros]: the number of the lowest bit set, [n] at most. *)
Fixpoint trailing_zeros (n : nat) (w : Z) : Z :=
  match n with
  | O => 0
  | S n => if Z.odd w then 0 else 1 + trailing_zeros n (Z.div2 w)
  end.

Definition alloc : ST mm (option Z) :=
  f ← get fra;
  find_range 0 (Z.to_nat (BITMAP_SIZE f)) (λ i,
    bitmap ← ld (FRAME_BITMAP f + 8 * i);
    if bitmap =? 0 then mret None
    else
      let bit := trailing_zeros 64 bitmap in
      frame ← lift (checked 64 (i * 64 + bit));
      if frame <? TOTAL_FRAMES f then
        _ ← mark_used frame;
        a ← lift (checked 64 (frame * PAGE_SIZE));
        mret (Some a)
      else mret None).

Definition alloc_frame : ST mm (option Z) := alloc.
Definition free (addr : Z) : ST mm unit := mark_free (addr / PAGE_SIZE).
Definition free_frame (addr : Z) : ST mm unit := free addr.

(** The search for a place for the bitmap; the words are cleared there. *)
Fixpoint place_bitmap (bitmap_size : Z) (entries : list Entry) : ST mm bool :=
  match entries with
  | [] => mret false
  | e :: entries =>
      if usable e && (bitmap_size * 8 <=? ent_length e) then
        b ← lift (checked 64 (ent_base e + HHDM_OFFSET));
        f ← get fra;
        _ ← modify (set_fra (Frames b (TOTAL_FRAMES f) (BITMAP_SIZE f)));
        _ ← for_range 0 (Z.to_nat bitmap_size) (λ i, sd (b + 8 * i) 0);
        mret true
      else place_bitmap bitmap_size entries
  end.

(** A loop over the entries of one kind. *)
Fixpoint for_entries (pick : Entry → bool) (entries : list Entry) (body : Entry → ST mm unit) : ST mm unit :=
  match entries with
  | [] => mret tt
  | e :: entries => _ ← (if pick e then body e else mret tt); for_entries pick entries body
  end.

Definition init (memory_map : list Entry) : ST mm unit :=
  top ← lift (max_addr memory_map);
  t ← lift (checked 64 (top + PAGE_SIZE));
  let total := (t - 1) / PAGE_SIZE in
  let size := (total + 63) / 64 in
  f ← get fra;
  _ ← modify (set_fra (Frames (FRAME_BITMAP f) total size));
  bitmap_placed ← place_bitmap size memory_map;
  if negb bitmap_placed then panic
  else
    _ ← for_entries usable memory_map (λ e,
      for_range 0 (Z.to_nat (ent_length e / PAGE_SIZE)) (λ i, mark_free (ent_base e / PAGE_SIZE + i)));
    _ ← for_entries (λ e, negb (usable e)) memory_map (λ e,
      t ← lift (checked 64 (ent_length e + PAGE_SIZE));
      for_range 0 (Z.to_nat ((t - 1) / PAGE_SIZE)) (λ i, mark_used (ent_base e / PAGE_SIZE + i)));
    _ ← for_range 0 (Z.to_nat (0x100000 / PAGE_SIZE)) mark_used;
    f ← get fra;
    let bitmap_phys := saturating_sub (FRAME_BITMAP f) HHDM_OFFSET in
    for_range 0 (Z.to_nat ((BITMAP_SIZE f * 8 + PAGE_SIZE - 1) / PAGE_SIZE)) (λ i,
      mark_used (bitmap_phys / PAGE_SIZE + i)).
End FrameAllocator.
Import FrameAllocator.

(** ** The set of free frames

    [bitmap_ok σ F]: the bitmap is intact, and [F] is the set it stands for. *)
Definition in_bitmap (f : frames) (a : Z) : Prop :=
  FRAME_BITMAP f ≤ a < FRAME_BITMAP f + 8 * BITMAP_SIZE f.

Record bitmap_ok (σ : mm) (F : Z → bool) : Prop := {
  bo_align : FRAME_BITMAP (fra σ) mod 8 = 0;
  bo_total : 0 ≤ TOTAL_FRAMES (fra σ) ≤ 2 ^ 52;
  bo_size : BITMAP_SIZE (fra σ) = (TOTAL_FRAMES (fra σ) + 63) / 64;
  bo_range g : F g = true → 0 ≤ g < TOTAL_FRAMES (fra σ);
  bo_words i : 0 ≤ i < BITMAP_SIZE (fra σ) → ∃ w,
    mem σ !! (FRAME_BITMAP (fra σ) + 8 * i) = Some w ∧ 0 ≤ w < 2 ^ 64 ∧
    ∀ b, 0 ≤ b < 64 → Z.testbit w b = F (64 * i + b);
}.

(** A state that differs in the bits only. *)
Definition bitmap_only (σ σ' : mm) : Prop :=
  ∃ m, σ' = set_mem m σ ∧ ∀ a, ¬ in_bitmap (fra σ) a → m !! a = mem σ !! a.

Definition upd (F : Z → bool) (f : Z) (b : bool) : Z → bool := λ g, if g =? f then b else F g.

#[global] Instance bitmap_only_refl : Reflexive bitmap_only.
Proof. intros σ. exists (mem σ). by destruct σ. Qed.

#[global] Instance bitmap_only_trans : Transitive bitmap_only.
Proof.
  intros σ ? ? (m & -> & H) (m' & -> & H'). exists m'. split; [by destruct σ|].
  intros a Ha. rewrite H' by done. by apply H.
Qed.

Lemma bitmap_only_fra σ σ' : bitmap_only σ σ' → fra σ' = fra σ.
Proof. by intros (m & -> & _). Qed.

Lemma bitmap_only_mem σ σ' a : bitmap_only σ σ' → ¬ in_bitmap (fra σ) a → mem σ' !! a = mem σ !! a.
Proof. intros (m & -> & H). apply H. Qed.

Lemma wp_ld a w (Q : Z → mm → Prop) σ : a mod 8 = 0 → mem σ !! a = Some w → Q w σ → wp (ld a) Q σ.
Proof. intros Ha Hw HQ. unfold wp, ld. by rewrite (kload_ok _ _ _ Ha Hw). Qed.

Lemma wp_sd a w (Q : unit → mm → Prop) σ :
  a mod 8 = 0 → is_Some (mem σ !! a) → Q tt (set_mem (<[a := w]> (mem σ)) σ) → wp (sd a w) Q σ.
Proof. intros Ha Hw HQ. unfold wp, sd. by rewrite (kstore_ok _ _ _ Ha Hw). Qed.

Lemma bitmap_ok_mem σ F m : bitmap_ok σ F → (∀ a, in_bitmap (fra σ) a → m !! a = mem σ !! a) →
  bitmap_ok (set_mem m σ) F.
Proof.
  intros [Ha Ht Hs Hr Hw] Hm. split; [done..|]. intros i Hi. destruct (Hw i Hi) as (w & Ew & H).
  exists w. split; [|done]. cbn [mem set_mem fra] in *. rewrite Hm; [done|]. unfold in_bitmap. lia.
Qed.

(** ** One bit *)

Lemma testbit_bit c b : 0 ≤ c → 0 ≤ b → Z.testbit (Z.shiftl 1 c) b = (b =? c).
Proof.
  intros Hc Hb. rewrite Z.shiftl_1_l, Z.pow2_bits_eqb by done. apply Z.eqb_sym.
Qed.

Lemma testbits_range n w : 0 ≤ n → 0 ≤ w → (∀ b, n ≤ b → Z.testbit w b = false) → w < 2 ^ n.
Proof.
  intros Hn Hw H. destruct (Z.eq_dec w 0) as [->|]; [lia|].
  apply Z.log2_lt_pow2; [lia|]. destruct (decide (Z.log2 w < n)) as [|Hl]; [done|].
  specialize (H (Z.log2 w) ltac:(lia)). rewrite Z.bit_log2 in H by lia. done.
Qed.

(** Writing the word of a frame changes its bit. *)
Lemma write_bit σ F frame w' v :
  bitmap_ok σ F → 0 ≤ frame < TOTAL_FRAMES (fra σ) → 0 ≤ w' < 2 ^ 64 →
  (∀ b, 0 ≤ b < 64 → Z.testbit w' b = if b =? frame mod 64 then v else F (64 * (frame / 64) + b)) →
  let σ' := set_mem (<[FRAME_BITMAP (fra σ) + 8 * (frame / 64) := w']> (mem σ)) σ in
  bitmap_ok σ' (upd F frame v) ∧ bitmap_only σ σ'.
Proof.
  intros [Ha Ht Hs Hr Hw] Hf Hw' Hb σ'. subst σ'. split; [split; try done|].
  - intros g. unfold upd. destruct (Z.eqb_spec g frame) as [->|]; [by intros|apply Hr].
  - intros i Hi. cbn [mem set_mem fra]. destruct (decide (i = frame / 64)) as [->|Hne].
    + exists w'. rewrite lookup_insert_eq. split_and!; [done|lia|lia|]. intros b Hb'. rewrite Hb by done.
      unfold upd. replace (64 * (frame / 64) + b =? frame) with (b =? frame mod 64); [done|].
      apply eq_true_iff_eq. rewrite !Z.eqb_eq. divlia.
    + destruct (Hw i Hi) as (w & E & Hwr & HF). exists w. rewrite lookup_insert_ne by lia.
      split_and!; [done|lia|lia|]. intros b Hb'. rewrite HF by done. unfold upd.
      replace (64 * i + b =? frame) with false; [done|].
      symmetry. apply Z.eqb_neq. divlia.
  - exists (<[FRAME_BITMAP (fra σ) + 8 * (frame / 64) := w']> (mem σ)). split; [done|].
    intros a Hna. apply lookup_insert_ne. intros <-. apply Hna. split; [divlia|].
    rewrite Hs. divlia.
Qed.

(** ** Marking *)

Definition marks (frame : Z) (v : bool) (F : Z → bool) (T : Z) : Z → bool :=
  if frame <? T then upd F frame v else F.

(** The bits of a word, in range. *)
Lemma word_of_bits w' : (∀ b, 64 ≤ b → Z.testbit w' b = false) → 0 ≤ w' → 0 ≤ w' < 2 ^ 64.
Proof. intros H Hw. split; [done|]. by apply testbits_range. Qed.

Lemma word_high w b : 0 ≤ w < 2 ^ 64 → 64 ≤ b → Z.testbit w b = false.
Proof. intros Hw Hb. apply (testbit_small 64); lia. Qed.

Lemma mark_free_ok σ F frame : bitmap_ok σ F → 0 ≤ frame →
  wp (mark_free frame) (λ _ σ', bitmap_ok σ' (marks frame true F (TOTAL_FRAMES (fra σ))) ∧ bitmap_only σ σ') σ.
Proof.
  intros Hok Hf. unfold mark_free, marks. wp_steps. rewrite Z.leb_antisym.
  destruct (Z.ltb_spec frame (TOTAL_FRAMES (fra σ))) as [Hlt|]; simpl; [|by apply wp_ret].
  pose proof Hok as [Ha Ht Hs Hr Hw]. destruct (Hw (frame / 64)) as (w & Ew & Hwr & Hbits).
  { rewrite Hs. divlia. }
  apply wp_bind, (wp_ld _ w); [divlia|done|].
  apply wp_sd; [divlia|by eauto|].
  pose proof (Z.mod_pos_bound frame 64 ltac:(lia)) as Hm.
  apply write_bit; [done|lia| |].
  - apply word_of_bits.
    + intros b Hb. rewrite Z.lor_spec, testbit_bit, word_high by lia. lia.
    + apply Z.lor_nonneg. split; [lia|]. rewrite Z.shiftl_1_l. lia.
  - intros b Hb. rewrite Z.lor_spec, testbit_bit, Hbits by lia.
    destruct (b =? frame mod 64); [apply orb_true_r|apply orb_false_r].
Qed.

Lemma mark_used_ok σ F frame : bitmap_ok σ F → 0 ≤ frame →
  wp (mark_used frame) (λ _ σ', bitmap_ok σ' (marks frame false F (TOTAL_FRAMES (fra σ))) ∧ bitmap_only σ σ') σ.
Proof.
  intros Hok Hf. unfold mark_used, marks. wp_steps. rewrite Z.leb_antisym.
  destruct (Z.ltb_spec frame (TOTAL_FRAMES (fra σ))) as [Hlt|]; simpl; [|by apply wp_ret].
  pose proof Hok as [Ha Ht Hs Hr Hw]. destruct (Hw (frame / 64)) as (w & Ew & Hwr & Hbits).
  { rewrite Hs. divlia. }
  apply wp_bind, (wp_ld _ w); [divlia|done|].
  apply wp_sd; [divlia|by eauto|].
  pose proof (Z.mod_pos_bound frame 64 ltac:(lia)) as Hm.
  apply write_bit; [done|lia| |].
  - apply word_of_bits; [|apply Z.land_nonneg; lia].
    intros b Hb. by rewrite Z.land_spec, word_high by lia.
  - intros b Hb. rewrite Z.land_spec, testbit_not64, testbit_bit, Hbits by lia.
    destruct (b =? frame mod 64); [apply andb_false_r|apply andb_true_r].
Qed.

(** ** Allocation *)

Lemma trailing_zeros_ok n w : 0 < w < 2 ^ Z.of_nat n →
  0 ≤ trailing_zeros n w < Z.of_nat n ∧ Z.testbit w (trailing_zeros n w) = true ∧
  ∀ b, 0 ≤ b < trailing_zeros n w → Z.testbit w b = false.
Proof.
  revert w. induction n as [|n IH]; intros w Hw; [simpl in Hw; lia|]. cbn [trailing_zeros].
  destruct (Z.odd w) eqn:Ho.
  - rewrite Z.bit0_odd. split_and!; [lia..|done|lia].
  - rewrite Nat2Z.inj_succ, Z.pow_succ_r in Hw by lia.
    assert (w = 2 * Z.div2 w) as Hw2. { rewrite (Z.div2_odd w), Ho at 1. simpl. lia. }
    destruct (IH (Z.div2 w)) as (H1 & H2 & H3); [lia|].
    set (t := trailing_zeros n (Z.div2 w)) in *. split_and!; [lia..| |].
    + rewrite <- H2, Z.div2_spec, Z.shiftr_spec by lia. f_equal. lia.
    + intros b Hb. destruct (Z.eq_dec b 0) as [->|]; [by rewrite Z.bit0_odd|].
      rewrite <- (H3 (b - 1)), Z.div2_spec, Z.shiftr_spec by lia. f_equal. lia.
Qed.

(** The lowest free frame, or none when there is none. *)
Lemma frame_alloc_ok σ F : bitmap_ok σ F →
  wp alloc (λ r σ', match r with
    | Some a => ∃ f, a = f * PAGE_SIZE ∧ F f = true ∧ (∀ g, 0 ≤ g < f → F g = false) ∧
        bitmap_ok σ' (upd F f false) ∧ bitmap_only σ σ'
    | None => σ' = σ ∧ ∀ g, F g = false
    end) σ.
Proof.
  intros Hok. pose proof Hok as [Ha Ht Hs Hr Hw]. unfold alloc. wp_steps.
  assert (0 ≤ BITMAP_SIZE (fra σ)) by (rewrite Hs; divlia).
  apply (wp_find_range (λ i τ, τ = σ ∧ ∀ g, 0 ≤ g < 64 * i → F g = false)).
  - split; [done|lia].
  - intros i ? Hi [-> Hno]. destruct (Hw i) as (w & Ew & Hwr & Hbits); [lia|].
    apply wp_bind, (wp_ld _ w); [divlia|done|].
    assert (∀ g, 0 ≤ g < 64 * i → F g = false) as Hno' by done.
    destruct (Z.eqb_spec w 0) as [->|Hw0].
    + apply wp_ret. split; [done|]. intros g Hg. destruct (decide (g < 64 * i)); [auto with lia|].
      replace g with (64 * i + (g - 64 * i)) by lia. rewrite <- Hbits by lia. apply Z.bits_0.
    + destruct (trailing_zeros_ok 64 w) as (Ht1 & Ht2 & Ht3); [lia|].
      set (t := trailing_zeros 64 w) in *. cbn zeta. rewrite Hbits in Ht2 by lia.
      pose proof (Hr _ Ht2) as Hrange.
      apply wp_bind, (wp_lift (i * 64 + t)); [apply checked_ok; lia|].
      replace (i * 64 + t) with (64 * i + t) by lia.
      destruct (Z.ltb_spec (64 * i + t) (TOTAL_FRAMES (fra σ))) as [Hlt|]; [|lia].
      apply wp_bind. wp_call mark_used_ok; [done|lia|]. intros [] τ [Hok' Ho].
      apply wp_bind, (wp_lift ((64 * i + t) * PAGE_SIZE)); [apply checked_ok; unfold PAGE_SIZE; lia|].
      apply wp_ret. exists (64 * i + t). split_and!; [done|done| | |done].
      * intros g Hg. destruct (decide (g < 64 * i)); [auto with lia|].
        replace g with (64 * i + (g - 64 * i)) by lia. rewrite <- Hbits by lia. apply Ht3. lia.
      * unfold marks in Hok'. by replace (64 * i + t <? TOTAL_FRAMES (fra σ)) with true in Hok' by lia.
  - intros ? [-> Hno]. split; [done|]. intros g. destruct (F g) eqn:E; [|done].
    pose proof (Hr g E). rewrite <- E. apply Hno. rewrite Z2Nat.id by done. rewrite Hs. divlia.
Qed.

(** ** Initialization *)

Lemma bitmap_ok_ext σ F G : (∀ g, F g = G g) → bitmap_ok σ F → bitmap_ok σ G.
Proof.
  intros HFG [Ha Ht Hs Hr Hw]. split; try done.
  - intros g. rewrite <- HFG. apply Hr.
  - intros i Hi. destruct (Hw i Hi) as (w & ? & ? & Hb). exists w. split; [done|split; [done|]].
    intros b ?. rewrite <- HFG. by apply Hb.
Qed.

#[global] Instance bitmap_ok_proper σ : Proper (pointwise_relation Z (=) ==> iff) (bitmap_ok σ).
Proof. intros F G HFG. split; apply bitmap_ok_ext; intros g; by rewrite HFG. Qed.

Definition in_range (lo n g : Z) : bool := (lo <=? g) && (g <? lo + n).

(** The set [F] with the frames below [T] that are in [P] set to [v]. *)
Definition set_to (v : bool) (P : Z → bool) (T : Z) (F : Z → bool) : Z → bool :=
  λ g, if P g && (g <? T) then v else F g.

Section marking.
Context (mark : Z → ST mm unit) (v : bool).
Hypothesis mark_ok : ∀ σ F frame, bitmap_ok σ F → 0 ≤ frame →
  wp (mark frame) (λ _ σ', bitmap_ok σ' (marks frame v F (TOTAL_FRAMES (fra σ))) ∧ bitmap_only σ σ') σ.

Lemma mark_range_ok σ F lo n : bitmap_ok σ F → 0 ≤ lo →
  wp (for_range 0 n (λ i, mark (lo + i))) (λ _ σ',
    bitmap_ok σ' (set_to v (in_range lo (Z.of_nat n)) (TOTAL_FRAMES (fra σ)) F) ∧ bitmap_only σ σ') σ.
Proof.
  intros Hok Hlo.
  apply (wp_for_range (λ i τ, bitmap_ok τ (set_to v (in_range lo i) (TOTAL_FRAMES (fra σ)) F) ∧ bitmap_only σ τ)).
  - split; [|done]. eapply bitmap_ok_ext; [|done]. intros g. unfold set_to, in_range.
    by replace ((lo <=? g) && (g <? lo + 0)) with false by lia.
  - intros i τ Hi [Hτ Ho]. wp_call mark_ok; [done|lia|]. intros _ ρ [Hρ Ho']. split; [|by trans τ].
    eapply bitmap_ok_ext; [|done]. intros g. unfold marks, set_to, in_range, upd.
    rewrite (bitmap_only_fra _ _ Ho).
    destruct (Z.ltb_spec (lo + i) (TOTAL_FRAMES (fra σ))); repeat case_if_goal; try done; lia.
  - done.
Qed.

End marking.

(** The frames of the entries that are picked. *)
Lemma mark_entries_ok v σ F pick (first count : Entry → Z) body entries :
  bitmap_ok σ F →
  (∀ e τ G, e ∈ entries → bitmap_ok τ G → fra τ = fra σ →
    wp (body e) (λ _ τ', bitmap_ok τ' (set_to v (in_range (first e) (count e)) (TOTAL_FRAMES (fra σ)) G) ∧
      bitmap_only τ τ') τ) →
  wp (for_entries pick entries body) (λ _ σ',
    bitmap_ok σ' (set_to v (λ g, existsb (λ e, pick e && in_range (first e) (count e) g) entries)
      (TOTAL_FRAMES (fra σ)) F) ∧ bitmap_only σ σ') σ.
Proof.
  intros Hok Hbody. cut (∀ τ G, bitmap_ok τ G → bitmap_only σ τ →
    wp (for_entries pick entries body) (λ _ σ',
    bitmap_ok σ' (set_to v (λ g, existsb (λ e, pick e && in_range (first e) (count e) g) entries)
      (TOTAL_FRAMES (fra σ)) G) ∧ bitmap_only σ σ') τ).
  { intros H. by apply H. }
  clear Hok. induction entries as [|e entries IH]; intros τ G Hτ Ho; simpl.
  { apply wp_ret. split; [|done]. by eapply bitmap_ok_ext; [|done]. }
  apply wp_bind.
  destruct (pick e) eqn:Hp; simpl.
  - wp_call Hbody; [set_solver|done|by apply bitmap_only_fra|]. intros _ ρ [Hρ Ho'].
    wp_call IH; [|done|by trans τ|].
    { intros e' ρ' G' He'. apply Hbody. set_solver. }
    intros _ σ' [Hσ' Ho'']. split; [|done]. eapply bitmap_ok_ext; [|done]. intros g. unfold set_to.
    destruct (existsb _ entries), (in_range (first e) (count e) g), (g <? _); done.
  - apply wp_ret. apply IH; [|done|done]. intros e' ρ' G' He'. apply Hbody. set_solver.
Qed.

(** The place of the bitmap: the first usable entry that is large enough. *)
Definition bitmap_entry (size : Z) (memory_map : list Entry) : option Entry :=
  List.find (λ e, usable e && (size * 8 <=? ent_length e)) memory_map.

Definition total_frames (memory_map : list Entry) : Z :=
  (default 0 (max_addr memory_map) + PAGE_SIZE - 1) / PAGE_SIZE.
Definition bitmap_words (memory_map : list Entry) : Z := (total_frames memory_map + 63) / 64.

(** The frames that are free at the start. *)
Definition free_at_start (memory_map : list Entry) (e : Entry) (f : Z) : bool :=
  existsb (λ e, usable e && in_range (ent_base e / PAGE_SIZE) (ent_length e / PAGE_SIZE) f) memory_map &&
  negb (existsb (λ e, negb (usable e) &&
    in_range (ent_base e / PAGE_SIZE) ((ent_length e + PAGE_SIZE - 1) / PAGE_SIZE) f) memory_map) &&
  negb (in_range 0 256 f) &&
  negb (in_range (ent_base e / PAGE_SIZE) ((bitmap_words memory_map * 8 + PAGE_SIZE - 1) / PAGE_SIZE) f) &&
  (f <? total_frames memory_map).

Lemma max_addr_ge entries acc top : fold_left max_addr_step entries (Some acc) = Some top →
  acc ≤ top ∧ Forall (λ e, ent_base e + ent_length e ≤ top) entries.
Proof.
  revert acc. induction entries as [|e entries IH]; simpl; intros acc.
  { intros [= <-]. by split. }
  destruct (checked 64 (ent_base e + ent_length e)) as [fin|] eqn:E.
  - apply checked_inv in E as [-> _]. intros [H1 H2]%IH.
    split; [|constructor; [|done]]; destruct (Z.ltb_spec acc (ent_base e + ent_length e)); lia.
  - intros H. exfalso. clear IH E. by induction entries.
Qed.

Lemma place_bitmap_ok σ size entries e :
  bitmap_entry size entries = Some e → 0 ≤ size → 0 ≤ ent_base e < 2 ^ 47 → ent_base e mod 8 = 0 →
  (∀ i, 0 ≤ i < size → is_Some (mem σ !! (ent_base e + HHDM_OFFSET + 8 * i))) →
  wp (place_bitmap size entries) (λ r σ', r = true ∧ ∃ m,
    σ' = set_mem m (set_fra (Frames (ent_base e + HHDM_OFFSET) (TOTAL_FRAMES (fra σ)) (BITMAP_SIZE (fra σ))) σ) ∧
    (∀ i, 0 ≤ i < size → m !! (ent_base e + HHDM_OFFSET + 8 * i) = Some 0) ∧
    (∀ a, ¬ (ent_base e + HHDM_OFFSET ≤ a < ent_base e + HHDM_OFFSET + 8 * size) → m !! a = mem σ !! a)) σ.
Proof.
  unfold bitmap_entry. intros Hf Hs Hb Hm Hmap. set (b := ent_base e + HHDM_OFFSET) in *.
  assert (b mod 8 = 0) as Hb8 by (subst b; unfold HHDM_OFFSET; divlia).
  induction entries as [|e' entries IH]; [done|]. simpl in *.
  destruct (usable e' && (size * 8 <=? ent_length e')); [|by apply IH]. injection Hf as ->.
  apply wp_bind, (wp_lift b); [apply checked_ok; subst b; unfold HHDM_OFFSET; lia|]. wp_steps.
  set (σ1 := set_fra _ σ).
  apply (wp_for_range (λ i τ, ∃ m, τ = set_mem m σ1 ∧
    (∀ j, 0 ≤ j < i → m !! (b + 8 * j) = Some 0) ∧
    (∀ j, i ≤ j < size → is_Some (m !! (b + 8 * j))) ∧
    (∀ a, ¬ (b ≤ a < b + 8 * size) → m !! a = mem σ !! a))).
  - exists (mem σ). split; [by destruct σ|]. split; [lia|]. split; [|done]. intros j Hj. apply Hmap. lia.
  - intros i τ Hi (m & -> & H1 & H2 & H3). apply wp_sd; [divlia|by apply H2; lia|].
    exists (<[b + 8 * i := 0]> m). split; [done|]. split_and!.
    + intros j Hj. destruct (decide (j = i)) as [->|]; [by rewrite lookup_insert_eq|].
      rewrite lookup_insert_ne by lia. apply H1. lia.
    + intros j Hj. rewrite lookup_insert_ne by lia. apply H2. lia.
    + intros a Ha. rewrite lookup_insert_ne by lia. by apply H3.
  - intros τ (m & -> & H1 & _ & H3). apply wp_ret. split; [done|]. exists m.
    split_and!; [done| |done]. intros i Hi. apply H1. lia.
Qed.

(** A memory map the loader may hand over: [e] is where the bitmap goes. *)
Record map_ok (σ : mm) (memory_map : list Entry) (e : Entry) : Prop := {
  mo_entries : Forall (λ e, 0 ≤ ent_base e ∧ 0 ≤ ent_length e) memory_map;
  mo_top : ∃ top, max_addr memory_map = Some top ∧ top + PAGE_SIZE < 2 ^ 64;
  mo_place : bitmap_entry (bitmap_words memory_map) memory_map = Some e;
  mo_base : 0 ≤ ent_base e < 2 ^ 47 ∧ ent_base e mod PAGE_SIZE = 0;
  mo_mapped i : 0 ≤ i < bitmap_words memory_map → is_Some (mem σ !! (ent_base e + HHDM_OFFSET + 8 * i));
}.

Lemma total_frames_range memory_map top : max_addr memory_map = Some top → top + PAGE_SIZE < 2 ^ 64 →
  0 ≤ top ∧ total_frames memory_map = (top + PAGE_SIZE - 1) / PAGE_SIZE ∧ 0 ≤ total_frames memory_map ≤ 2 ^ 52.
Proof.
  intros E Ht. destruct (max_addr_ge memory_map 0 top E) as [H0 _]. unfold total_frames. rewrite E.
  change (default 0 (Some top)) with top. unfold PAGE_SIZE in *. split; [done|]. split; [done|]. divlia.
Qed.

Lemma init_ok σ memory_map e : map_ok σ memory_map e →
  wp (init memory_map) (λ _ σ', bitmap_ok σ' (free_at_start memory_map e) ∧ ∃ m,
    σ' = set_mem m (set_fra (Frames (ent_base e + HHDM_OFFSET) (total_frames memory_map) (bitmap_words memory_map)) σ) ∧
    ∀ a, ¬ in_bitmap (fra σ') a → m !! a = mem σ !! a) σ.
Proof.
  intros [Hent (top & Etop & Htop) Hplace [Hb Hb4] Hmap].
  assert (ent_base e mod 8 = 0) as Hb8 by (unfold PAGE_SIZE in Hb4; divlia).
  destruct (total_frames_range _ _ Etop Htop) as (H0 & Htot & Htr).
  pose proof (max_addr_ge memory_map 0 top Etop) as [_ Hge].
  unfold init. apply wp_bind, (wp_lift top); [done|].
  apply wp_bind, (wp_lift (top + PAGE_SIZE)); [apply checked_ok; unfold PAGE_SIZE in *; lia|].
  rewrite <- Htot. fold (bitmap_words memory_map). wp_steps.
  assert (0 ≤ bitmap_words memory_map) by (unfold bitmap_words; divlia).
  wp_call place_bitmap_ok; [done|done|done|done|done|].
  intros r σ1 (-> & m1 & -> & Hz & Hrest). cbn [negb].
  set (σ1 := set_mem m1 _). set (T := total_frames memory_map) in *.
  assert (bitmap_ok σ1 (λ _, false)) as Hok1.
  { split; cbn [fra set_mem set_fra mem FRAME_BITMAP TOTAL_FRAMES BITMAP_SIZE σ1]; [unfold HHDM_OFFSET; divlia|done|done|done|]. intros i Hi. exists 0.
    split; [by apply Hz|]. split; [lia|]. intros b _. apply Z.bits_0. }
  apply wp_bind. wp_call (mark_entries_ok true σ1 _ usable (λ e, ent_base e / PAGE_SIZE) (λ e, ent_length e / PAGE_SIZE));
    [done| |].
  { intros x τ G Hx HG Hfr. rewrite Forall_forall in Hent. destruct (Hent x Hx) as [Hx1 Hx2].
    wp_call (mark_range_ok mark_free true mark_free_ok); [done|unfold PAGE_SIZE; divlia|].
    intros ? ρ. rewrite Hfr, Z2Nat.id by (unfold PAGE_SIZE; divlia). done. }
  intros _ σ2 [Hok2 Ho2]. apply wp_bind.
  wp_call (mark_entries_ok false σ2 _ (λ e, negb (usable e)) (λ e, ent_base e / PAGE_SIZE)
    (λ e, (ent_length e + PAGE_SIZE - 1) / PAGE_SIZE)); [done| |].
  { intros x τ G Hx HG Hfr. rewrite Forall_forall in Hent, Hge. destruct (Hent x Hx) as [Hx1 Hx2].
    specialize (Hge x Hx). apply wp_bind, (wp_lift (ent_length x + PAGE_SIZE)).
    { apply checked_ok. unfold PAGE_SIZE in *. lia. }
    wp_call (mark_range_ok mark_used false mark_used_ok); [done|unfold PAGE_SIZE; divlia|].
    intros ? ρ. rewrite Hfr, Z2Nat.id by (unfold PAGE_SIZE; divlia). done. }
  intros _ σ3 [Hok3 Ho3]. apply wp_bind.
  wp_call (mark_range_ok mark_used false mark_used_ok σ3 _ 0); [done|done|].
  intros _ σ4 [Hok4 Ho4]. wp_steps.
  assert (bitmap_only σ1 σ4) as Ho by (by do 2 (etrans; [done|])).
  rewrite (bitmap_only_fra _ _ Ho). cbn [fra set_mem set_fra FRAME_BITMAP BITMAP_SIZE σ1].
  replace (saturating_sub (ent_base e + HHDM_OFFSET) HHDM_OFFSET) with (ent_base e) by (unfold saturating_sub; lia).
  wp_call (mark_range_ok mark_used false mark_used_ok σ4); [done|unfold PAGE_SIZE; divlia|].
  intros _ σ5 [Hok5 Ho5]. split.
  - eapply bitmap_ok_ext; [|done]. intros g. unfold set_to, free_at_start.
    rewrite (bitmap_only_fra _ _ Ho), (bitmap_only_fra _ _ (transitivity Ho2 Ho3)), (bitmap_only_fra _ _ Ho2).
    cbn [fra set_mem set_fra TOTAL_FRAMES σ1]. rewrite Z2Nat.id by (unfold PAGE_SIZE; divlia).
    change (Z.of_nat (Z.to_nat (0x100000 / PAGE_SIZE))) with 256. fold T.
    destruct (in_range (ent_base e / PAGE_SIZE) _ g), (in_range 0 256 g), (g <? T);
      repeat destruct (existsb _ memory_map); done.
  - destruct (transitivity Ho Ho5) as (m & -> & Hm). exists m. split; [by destruct σ|].
    intros a Ha. rewrite Hm by done. apply Hrest. done.
Qed.

(** ** Runs

    A client of the allocator after the start: it holds the addresses of frames
    it was given, gives back only these, and writes only into these. *)
Section runs.
Context (memory_map : list Entry) (e : Entry).

Inductive frame_run : mm → list Z → Prop :=
  | run_init σ σ' : map_ok σ memory_map e → init memory_map σ = Some (tt, σ') → frame_run σ' []
  | run_alloc σ held a σ' : frame_run σ held → alloc_frame σ = Some (Some a, σ') → frame_run σ' (a :: held)
  | run_free σ held1 a held2 σ' : frame_run σ (held1 ++ a :: held2) →
      free_frame a σ = Some (tt, σ') → frame_run σ' (held1 ++ held2)
  | run_write σ held a i w σ' : frame_run σ held → a ∈ held → 0 ≤ i < 512 →
      sd (a + HHDM_OFFSET + 8 * i) w σ = Some (tt, σ') → frame_run σ' held.

(** The frames held are distinct and free at the start, the bitmap is the rest. *)
Record run_ok (σ : mm) (held : list Z) : Prop := {
  ro_distinct : NoDup held;
  ro_frames a : a ∈ held → a mod PAGE_SIZE = 0 ∧ free_at_start memory_map e (a / PAGE_SIZE) = true;
  ro_bitmap : bitmap_ok σ (λ f, free_at_start memory_map e f && negb (bool_decide (f * PAGE_SIZE ∈ held)));
  ro_range f : free_at_start memory_map e f = true → 0 ≤ f < TOTAL_FRAMES (fra σ);
  ro_place : FRAME_BITMAP (fra σ) = ent_base e + HHDM_OFFSET ∧ ent_base e mod PAGE_SIZE = 0 ∧
    BITMAP_SIZE (fra σ) = bitmap_words memory_map ∧ 0 ≤ ent_base e;
}.

(** A frame that was free at the start has no word of the bitmap. *)
Lemma held_not_bitmap σ held a i : run_ok σ held → a ∈ held → 0 ≤ i < 512 →
  ¬ in_bitmap (fra σ) (a + HHDM_OFFSET + 8 * i).
Proof.
  intros [_ Hf _ _ (Hb & Hb0 & Hs & Hpos)] [Ha Hfree]%Hf Hi [H1 H2]. rewrite Hb, Hs in *.
  unfold free_at_start in Hfree. rewrite !andb_true_iff, !negb_true_iff in Hfree.
  destruct Hfree as [[_ Hin] _]. unfold in_range, PAGE_SIZE in *. revert Hin. apply not_false_iff_true.
  apply andb_true_iff. rewrite Z.leb_le, Z.ltb_lt. divlia.
Qed.

Lemma frame_run_ok σ held : frame_run σ held → run_ok σ held.
Proof.
  induction 1 as [σ σ' Hmap E|σ held a σ' _ IH E|σ held1 a held2 σ' _ IH E|σ held a i w σ' _ IH Ha Hi E].
  - pose proof (init_ok σ _ _ Hmap) as Hw. unfold wp in Hw. rewrite E in Hw.
    destruct Hw as (Hok & m & -> & Hm). pose proof (mo_base _ _ _ Hmap) as [[? _] ?]. split.
    + constructor.
    + intros a Ha. by apply elem_of_nil in Ha.
    + eapply bitmap_ok_ext; [|done]. intros f. rewrite bool_decide_false by apply not_elem_of_nil.
      by rewrite andb_true_r.
    + apply (bo_range _ _ Hok).
    + done.
  - destruct IH as [Hnd Hf Hb Hr Hp]. pose proof (frame_alloc_ok σ _ Hb) as Hw. unfold wp in Hw.
    unfold alloc_frame in E. rewrite E in Hw. destruct Hw as (f & -> & Hff & _ & Hok & Ho).
    apply andb_true_iff in Hff as [Hff Hnot%negb_true_iff%bool_decide_eq_false].
    split; [by constructor| | |by rewrite (bitmap_only_fra _ _ Ho)..].
    + intros a [->|Ha]%elem_of_cons; [|by apply Hf].
      unfold PAGE_SIZE in *. rewrite Z.mod_mul, Z.div_mul by done. done.
    + eapply bitmap_ok_ext; [|done]. intros g. unfold upd. destruct (Z.eqb_spec g f) as [->|Hne].
      * rewrite bool_decide_true by set_solver. by rewrite andb_false_r.
      * do 2 f_equal. apply bool_decide_ext. rewrite elem_of_cons. unfold PAGE_SIZE. split; [by right|].
        intros [?|?]; [lia|done].
  - destruct IH as [Hnd Hf Hb Hr Hp]. destruct (Hf a) as [Ha Hfree]; [set_solver|].
    pose proof (Hr _ Hfree) as Hrange.
    pose proof (mark_free_ok σ _ (a / PAGE_SIZE) Hb ltac:(lia)) as Hw. unfold wp in Hw.
    unfold free_frame, free in E. rewrite E in Hw. destruct Hw as [Hok Ho].
    apply NoDup_app in Hnd as (Hn1 & Hn12 & [Hna Hn2]%NoDup_cons).
    split; [| | |by rewrite (bitmap_only_fra _ _ Ho)..].
    + apply NoDup_app. split_and!; [done| |done]. set_solver.
    + intros b Hb'. apply Hf. set_solver.
    + eapply bitmap_ok_ext; [|done]. intros g. unfold marks, upd.
      replace (a / PAGE_SIZE <? TOTAL_FRAMES (fra σ)) with true by lia.
      destruct (Z.eqb_spec g (a / PAGE_SIZE)) as [->|Hne].
      * rewrite Hfree, bool_decide_false; [done|]. replace (a / PAGE_SIZE * PAGE_SIZE) with a
          by (unfold PAGE_SIZE in *; divlia). set_solver.
      * do 2 f_equal. apply bool_decide_ext. assert (g * PAGE_SIZE ≠ a) by (unfold PAGE_SIZE in *; divlia).
        rewrite !elem_of_app, elem_of_cons. naive_solver.
  - pose proof (held_not_bitmap _ _ _ _ IH Ha Hi) as Hno. destruct IH as [Hnd Hf Hb Hr Hp].
    unfold sd in E. destruct (kstore _ _ _) as [m|] eqn:Em; [|done]. injection E as <-.
    unfold kstore in Em. case_match; [|done]. destruct (mem σ !! _) as [v|]; [|done]. injection Em as <-.
    split; [done|done| |done|done]. apply bitmap_ok_mem; [done|]. intros a' Ha'.
    apply lookup_insert_ne. by intros <-.
Qed.
(** The frames held are at most all of them. *)
Lemma held_bound σ held : run_ok σ held → Z.of_nat (length held) ≤ TOTAL_FRAMES (fra σ) ∨ held = [].
Proof.
  intros [Hnd Hf _ Hr _]. destruct held as [|a0 held0]; [by right|left]. set (held := a0 :: held0) in *.
  assert (0 ≤ TOTAL_FRAMES (fra σ)) by (destruct (Hf a0) as [_ ?%Hr]; [by left|lia]).
  assert (length held ≤ length ((λ i : Z, (i * PAGE_SIZE)%Z) <$> seqZ 0 (TOTAL_FRAMES (fra σ))))%nat as Hle.
  { apply submseteq_length, NoDup_submseteq; [done|]. intros a Ha. apply list_elem_of_fmap.
    destruct (Hf a Ha) as [Ha0 Hfree%Hr]. exists (a / PAGE_SIZE). unfold PAGE_SIZE in *. split; [divlia|].
    apply elem_of_seqZ. lia. }
  rewrite length_fmap, length_seqZ in Hle. lia.
Qed.

(** Every frame that was free at the start is given out, if only the client asks
    often enough. *)
Lemma frame_given σ held f : frame_run σ held → free_at_start memory_map e f = true →
  ∃ σ' more, frame_run σ' (more ++ held) ∧ f * PAGE_SIZE ∈ more ++ held.
Proof.
  remember (Z.to_nat (TOTAL_FRAMES (fra σ)) + 1 - length held)%nat as n eqn:Hn.
  revert σ held Hn. induction n as [n IH] using lt_wf_ind. intros σ held -> Hrun Hfree.
  destruct (decide (f * PAGE_SIZE ∈ held)) as [?|Hnot]; [by exists σ, []|].
  pose proof (frame_run_ok _ _ Hrun) as Hok. pose proof (ro_bitmap _ _ Hok) as Hb.
  destruct (wp_result _ _ _ (frame_alloc_ok σ _ Hb)) as (r & σ1 & E & Hr). destruct r as [a|].
  - destruct Hr as (g & -> & _ & _ & _ & Ho). pose proof (run_alloc _ _ _ _ Hrun E) as Hrun1.
    pose proof (bitmap_only_fra _ _ Ho) as Hfra. destruct (held_bound _ _ (frame_run_ok _ _ Hrun1)) as [Hle|?]; [|done].
    rewrite Hfra in Hle. simpl in Hle.
    set (held1 := g * PAGE_SIZE :: held) in *. assert (length held1 = S (length held)) as Hlen by done.
    destruct (IH (Z.to_nat (TOTAL_FRAMES (fra σ1)) + 1 - length held1)%nat) with σ1 held1
      as (σ' & more & H1 & H2); [rewrite Hfra, Hlen; lia|done|done|done|].
    exists σ', (more ++ [g * PAGE_SIZE]). rewrite <- app_assoc. by split.
  - destruct Hr as [_ Hno]. specialize (Hno f). rewrite Hfree, bool_decide_false in Hno by done. done.
Qed.
End runs.

(** C14. The frame allocator. Whatever a client does after [init] with the frames
    it was given, the frames it holds are distinct, none of them is reserved by
    the memory map, below 1 MiB or part of the bitmap, and the next allocation
    does not fault: it gives the lowest frame that was free at the start and is
    not held, and none only when all such frames are held. *)
Theorem frame_allocator_correct memory_map e σ held : frame_run memory_map e σ held →
  NoDup held ∧ (∀ a, a ∈ held → a mod PAGE_SIZE = 0 ∧ free_at_start memory_map e (a / PAGE_SIZE) = true) ∧
  ∃ r σ', alloc_frame σ = Some (r, σ') ∧
    match r with
    | Some a => frame_run memory_map e σ' (a :: held) ∧ a ∉ held ∧
        ∀ f, 0 ≤ f → f * PAGE_SIZE < a → free_at_start memory_map e f = true → f * PAGE_SIZE ∈ held
    | None => ∀ f, free_at_start memory_map e f = true → f * PAGE_SIZE ∈ held
    end.
Proof.
  intros Hrun. pose proof (frame_run_ok _ _ _ _ Hrun) as [Hnd Hf Hb _ _]. split; [done|]. split; [done|].
  destruct (wp_result _ _ _ (frame_alloc_ok σ _ Hb)) as (r & σ' & E & Hr). exists r, σ'. split; [done|].
  destruct r as [a|].
  - destruct Hr as (f & -> & Hff & Hlow & _). split; [by eapply run_alloc|]. split.
    + apply andb_true_iff in Hff as [_ Hnot%negb_true_iff%bool_decide_eq_false]. done.
    + intros g Hg Hlt Hfree. specialize (Hlow g). rewrite Hfree in Hlow.
      apply (bool_decide_eq_true (g * PAGE_SIZE ∈ held)), negb_false_iff, Hlow. unfold PAGE_SIZE in Hlt. lia.
  - destruct Hr as [_ Hno]. intros f Hfree. specialize (Hno f). rewrite Hfree in Hno.
    by apply (bool_decide_eq_true (f * PAGE_SIZE ∈ held)), negb_false_iff.
Qed.

(** Two megabytes of memory, the second usable. *)
Definition words_at (a n : Z) : kmem := list_to_map ((λ i, (a + 8 * i, 0)) <$> seqZ 0 n).
Definition demo_map : list Entry := [MkEntry 0 0x100000 false; MkEntry 0x100000 0x100000 true].
Definition demo_entry : Entry := MkEntry 0x100000 0x100000 true.
Definition demo_mm : mm := Mm (words_at (0x100000 + HHDM_OFFSET) 8) (Frames 0 0 0) 0 0 0 0 0.

Lemma words_at_lookup a n i : 0 ≤ i < n → words_at a n !! (a + 8 * i) = Some 0.
Proof.
  intros Hi. unfold words_at. apply elem_of_list_to_map_1.
  - rewrite <- list_fmap_compose. apply NoDup_fmap_2_strong; [|apply NoDup_seqZ]. simpl. lia.
  - apply list_elem_of_fmap. exists i. split; [done|]. apply elem_of_seqZ. lia.
Qed.

Lemma demo_map_ok : map_ok demo_mm demo_map demo_entry.
Proof.
  split.
  - repeat constructor; done.
  - exists 0x200000. by split.
  - done.
  - by vm_compute.
  - intros i Hi. eexists. apply words_at_lookup. by vm_compute in Hi |- *.
Qed.

Lemma frame_allocator_correct_witness : ∃ σ σ' a, frame_run demo_map demo_entry σ [] ∧
  alloc_frame σ = Some (Some a, σ') ∧ a = 257 * PAGE_SIZE.
Proof.
  destruct (wp_result _ _ _ (init_ok _ _ _ demo_map_ok)) as ([] & σ & E & _).
  pose proof (run_init _ _ _ _ demo_map_ok E) as Hrun.
  destruct (frame_allocator_correct _ _ _ _ Hrun) as (_ & _ & [a|] & σ' & Ea & H).
  - exists σ, σ', a. split; [exact Hrun|]. split; [exact Ea|]. destruct H as (Hrun' & _ & Hlow).
    destruct (frame_run_ok _ _ _ _ Hrun') as [_ Hf _ Hr _]. destruct (Hf a) as [Ha Hfree]; [by left|].
    pose proof (Hr _ Hfree) as [Hpos _].
    assert (¬ 257 * PAGE_SIZE < a) as H1.
    { intros Hlt. apply (not_elem_of_nil (257 * PAGE_SIZE)), Hlow; [lia|exact Hlt|by vm_compute]. }
    assert (¬ a / PAGE_SIZE < 257) as H2; [|unfold PAGE_SIZE in *; divlia].
    intros Hlt. revert Hfree. unfold free_at_start. rewrite !andb_true_iff, !negb_true_iff.
    intros [[[_ H3] H4] _]. revert H3 H4.
    change (bitmap_words demo_map * 8) with 64. unfold in_range, demo_entry, PAGE_SIZE in *.
    cbn [ent_base ent_length]. intros H3 H4. apply andb_false_iff in H3, H4. divlia.
  - exfalso. apply (not_elem_of_nil (300 * PAGE_SIZE)), H. by vm_compute.
Defined.
