(* ===== verification/Paging.v ===== *)
(** * Page tables

    Models memory/src/vmm.rs and memory/src/mmio.rs: page table entries, the
    functions that map and unmap pages, new address spaces, and the window for
    device memory. Tables are in memory, 512 words each; a frame at physical
    address [a] is at [a + HHDM_OFFSET]. Flushing the translation cache has no
    effect on memory, and the cache is not modelled.

    The reference is the walk of the processor through four levels of tables
    ([walk]). The invariant [pt_ok] labels every table with the address space it
    belongs to and the indices that lead to it, so that no table is reached in
    two ways, except for the upper half that address spaces share. *)
From S2P Require Import Prelude Rust Frame.
Import FrameAllocator.

Module PageTableEntry.
Definition PRESENT : Z := Z.shiftl 1 0.
Definition WRITABLE : Z := Z.shiftl 1 1.
Definition USER : Z := Z.shiftl 1 2.
Definition WRITE_THROUGH : Z := Z.shiftl 1 3.
Definition NO_CACHE : Z := Z.shiftl 1 4.
Definition HUGE : Z := Z.shiftl 1 7.
Definition ADDR_MASK : Z := 0x000FFFFFFFFFF000.

Definition is_present (e : Z) : bool := negb (Z.land e PRESENT =? 0).
Definition set_addr (addr flags : Z) : Z := Z.lor (Z.land addr ADDR_MASK) flags.
Definition get_addr (e : Z) : Z := Z.land e ADDR_MASK.
End PageTableEntry.
Import PageTableEntry.

Definition ENTRIES_PER_TABLE : Z := 512.

(** [PageTable::zero] *)
Definition zero (table : Z) : ST mm unit :=
  for_range 0 (Z.to_nat ENTRIES_PER_TABLE) (λ i, sd (table + 8 * i) 0).

(** The entry is a reference, here its address. *)
Definition get_or_create_table (entry : Z) : ST mm (option Z) :=
  e ← ld entry;
  if is_present e then
    let addr := get_addr e in
    mret (Some (Z.lor addr HHDM_OFFSET))
  else
    frame ←o alloc_frame;
    let table := Z.lor frame HHDM_OFFSET in
    _ ← zero table;
    _ ← sd entry (set_addr frame (Z.lor (Z.lor PRESENT WRITABLE) USER));
    mret (Some table).

Definition map_page (pml4 virt phys flags : Z) : ST mm (option unit) :=
  let p4 := Z.lor pml4 HHDM_OFFSET in
  p3 ←o get_or_create_table (p4 + 8 * Addr.p4_index virt);
  p2 ←o get_or_create_table (p3 + 8 * Addr.p3_index virt);
  p1 ←o get_or_create_table (p2 + 8 * Addr.p2_index virt);
  _ ← sd (p1 + 8 * Addr.p1_index virt) (set_addr phys (Z.lor flags PRESENT));
  mret (Some tt).

(** One level of the descent of [unmap_page]. *)
Definition table_of_entry (entry : Z) : ST mm (option Z) :=
  e ← ld entry;
  if negb (is_present e) then mret None else mret (Some (Z.lor (get_addr e) HHDM_OFFSET)).

Definition unmap_page (pml4 virt : Z) : ST mm (option Z) :=
  let p4 := Z.lor pml4 HHDM_OFFSET in
  p3 ←o table_of_entry (p4 + 8 * Addr.p4_index virt);
  p2 ←o table_of_entry (p3 + 8 * Addr.p3_index virt);
  p1 ←o table_of_entry (p2 + 8 * Addr.p2_index virt);
  e ← ld (p1 + 8 * Addr.p1_index virt);
  if negb (is_present e) then mret None
  else
    let phys := get_addr e in
    _ ← sd (p1 + 8 * Addr.p1_index virt) 0;
    mret (Some phys).

Fixpoint map_pages (n : nat) (pml4 current_virt current_phys flags : Z) : ST mm (option unit) :=
  match n with
  | O => mret (Some tt)
  | S n =>
      _ ←o map_page pml4 current_virt current_phys flags;
      current_virt ← lift (checked 64 (current_virt + 0x1000));
      current_phys ← lift (checked 64 (current_phys + 0x1000));
      map_pages n pml4 current_virt current_phys flags
  end.

Definition map_range (pml4 virt_start phys_start size flags : Z) : ST mm (option unit) :=
  s ← lift (checked 64 (size + 0xFFF));
  let pages := s / 0x1000 in
  map_pages (Z.to_nat pages) pml4 virt_start phys_start flags.

Fixpoint unmap_pages (n : nat) (pml4 current_virt : Z) : ST mm unit :=
  match n with
  | O => mret tt
  | S n =>
      _ ← unmap_page pml4 current_virt;
      current_virt ← lift (checked 64 (current_virt + 0x1000));
      unmap_pages n pml4 current_virt
  end.

Definition unmap_range (pml4 virt_start size : Z) : ST mm unit :=
  s ← lift (checked 64 (size + 0xFFF));
  let pages := s / 0x1000 in
  unmap_pages (Z.to_nat pages) pml4 virt_start.

Definition create_user_pml4 : ST mm (option Z) :=
  frame ←o alloc_frame;
  let pml4 := Z.lor frame HHDM_OFFSET in
  _ ← zero pml4;
  kernel_pml4_ptr ← get KERNEL_PAGE_TABLE;
  let kernel_pml4 := Z.lor kernel_pml4_ptr HHDM_OFFSET in
  _ ← for_range 256 256 (λ i, e ← ld (kernel_pml4 + 8 * i); sd (pml4 + 8 * i) e);
  mret (Some frame).

Definition create_user_page_table : ST mm (option Z) :=
  frame ←o alloc_frame;
  let table := Z.lor frame HHDM_OFFSET in
  _ ← zero table;
  mret (Some table).

Definition set_cr3 (x : Z) (σ : mm) : mm :=
  Mm (mem σ) (fra σ) (KERNEL_PAGE_TABLE σ) x (MMIO_LOWER σ) (MMIO_UPPER σ) (MMIO_CURRENT σ).
Definition set_kernel_pt (x : Z) (σ : mm) : mm :=
  Mm (mem σ) (fra σ) x (cr3 σ) (MMIO_LOWER σ) (MMIO_UPPER σ) (MMIO_CURRENT σ).
Definition set_mmio (l u c : Z) (σ : mm) : mm :=
  Mm (mem σ) (fra σ) (KERNEL_PAGE_TABLE σ) (cr3 σ) l u c.

(** Returns the new value of [self.page_table]. *)
Definition switch_page_table (pml4 : Z) : ST mm Z :=
  let phys_addr := if HHDM_OFFSET <=? pml4 then pml4 - HHDM_OFFSET else pml4 in
  _ ← modify (set_cr3 phys_addr);
  mret pml4.

Definition get_current_page_table : ST mm Z := get (λ σ, Z.land (cr3 σ) ADDR_MASK).

(** [VMM::init], [VMM::get_page_table] *)
Definition vmm_init (memory_map : list Entry) : ST mm Z :=
  _ ← init memory_map;
  kernel_pt ← get_current_page_table;
  _ ← modify (set_kernel_pt kernel_pt);
  mret kernel_pt.
Definition get_page_table : ST mm Z := get KERNEL_PAGE_TABLE.

(** ** Device memory *)

Definition mmio_map_range (lower upper : Z) : ST mm unit := modify (set_mmio lower upper lower).

Fixpoint map_mmio_pages (n : nat) (i pml4 virt_addr phys_addr : Z) : ST mm (Result unit) :=
  match n with
  | O => mret (Ok tt)
  | S n =>
      virt ← lift (checked 64 (virt_addr + i * 0x1000));
      phys ← lift (checked 64 (phys_addr + i * 0x1000));
      r ← map_page pml4 virt phys (Z.lor (Z.lor WRITABLE NO_CACHE) WRITE_THROUGH);
      match r with
      | None => mret (Err "Failed to map MMIO page")
      | Some _ => map_mmio_pages n (i + 1) pml4 virt_addr phys_addr
      end
  end.

Definition map_mmio (pml4 phys_addr size : Z) : ST mm (Result Z) :=
  s ← lift (checked 64 (size + 0xFFF));
  let pages_needed := s / 0x1000 in
  let total_size := pages_needed * 0x1000 in
  c ← get MMIO_CURRENT;
  u ← get MMIO_UPPER;
  fin ← lift (checked 64 (c + total_size));
  if u <? fin then mret (Err "MMIO region exhausted")
  else
    let virt_addr := c in
    _ ←r map_mmio_pages (Z.to_nat pages_needed) 0 pml4 virt_addr phys_addr;
    c ← get MMIO_CURRENT;
    c ← lift (checked 64 (c + total_size));
    _ ← modify (λ σ, set_mmio (MMIO_LOWER σ) (MMIO_UPPER σ) c σ);
    mret (Ok virt_addr).

Definition mmio_remaining : ST mm Z := get (λ σ, saturating_sub (MMIO_UPPER σ) (MMIO_CURRENT σ)).

(** ** The walk of the processor

    From a table and the indices of the levels that are left: the entry that
    maps the page, with the indices that are an offset in a huge page. *)
Definition slot (t i : Z) : Z := t + HHDM_OFFSET + 8 * i.
Definition is_huge (e : Z) : bool := negb (Z.land e HUGE =? 0).

Definition is_leaf (e : Z) (rest : list Z) : bool :=
  match rest with [] => true | [_; _; _] => false | _ => is_huge e end.

Fixpoint walk (m : kmem) (t : Z) (idx : list Z) : option (Z * list Z) :=
  match idx with
  | [] => None
  | i :: rest =>
      e ← m !! slot t i;
      if negb (is_present e) then None
      else if is_leaf e rest then Some (e, rest)
      else walk m (get_addr e) rest
  end.

Definition indices (v : Z) : list Z :=
  [Addr.p4_index v; Addr.p3_index v; Addr.p2_index v; Addr.p1_index v].
Definition translate (σ : mm) (root v : Z) : option (Z * list Z) := walk (mem σ) root (indices v).

(** The table that the first indices lead to. *)
Fixpoint reaches (m : kmem) (t : Z) (idx : list Z) : option Z :=
  match idx with
  | [] => Some t
  | i :: rest =>
      e ← m !! slot t i;
      if is_present e && negb (is_huge e) then reaches m (get_addr e) rest else None
  end.

(** ** The invariant

    [T] gives the label of each table: the root of its address space and the
    indices that lead to it. [K] is the root of the kernel, [F] the free
    frames. *)
Abbreviation label := (Z * list Z)%type.

Definition child_of (K : Z) (l : label) (i : Z) (l' : label) : Prop :=
  l'.2 = l.2 ++ [i] ∧ (l'.1 = l.1 ∨ l.2 = [] ∧ l'.1 = K ∧ 256 ≤ i).

Definition entry_ok (K : Z) (T : gmap Z label) (l : label) (i e : Z) : Prop :=
  (length l.2 < 3)%nat → is_present e = true →
  if is_huge e then l.2 ≠ [] else ∃ l', T !! get_addr e = Some l' ∧ child_of K l i l'.

Record pt_ok (σ : mm) (K : Z) (T : gmap Z label) (F : Z → bool) : Prop := {
  pt_bitmap : bitmap_ok σ F;
  pt_kernel : T !! K = Some (K, []);
  pt_root t r : T !! t = Some (r, []) → r = t;
  pt_table t l : T !! t = Some l → (length l.2 ≤ 3)%nat ∧ t mod 4096 = 0 ∧ 0 ≤ t < 2 ^ 47 ∧
    F (t / 4096) = false;
  pt_apart t l i : T !! t = Some l → 0 ≤ i < 512 → ¬ in_bitmap (fra σ) (slot t i);
  pt_entry t l i : T !! t = Some l → 0 ≤ i < 512 → ∃ e, mem σ !! slot t i = Some e ∧ entry_ok K T l i e;
  pt_free f : F f = true → 0 ≤ f < 2 ^ 35 ∧
    ∀ i, 0 ≤ i < 512 → is_Some (mem σ !! slot (f * 4096) i) ∧ ¬ in_bitmap (fra σ) (slot (f * 4096) i);
}.

(** ** Bits of entries *)

Lemma lor_hhdm t : 0 ≤ t < 2 ^ 47 → Z.lor t HHDM_OFFSET = t + HHDM_OFFSET.
Proof.
  intros Ht. change HHDM_OFFSET with (Z.shiftl 131071 47). rewrite Z.lor_comm, lor_disjoint by lia. done.
Qed.

Lemma land_addr_mask e : Z.land e ADDR_MASK = (e / 4096) mod 2 ^ 40 * 4096.
Proof.
  change ADDR_MASK with (Z.shiftl (2 ^ 40 - 1) 12). change 4096 with (2 ^ 12).
  rewrite <- (Z.shiftr_div_pow2 e 12), <- land_low_mask, <- Z.shiftl_mul_pow2 by lia.
  apply Z.bits_inj'. intros i Hi. rewrite Z.land_spec. destruct (decide (i < 12)).
  - rewrite !Z.shiftl_spec_low by lia. apply andb_false_r.
  - rewrite !Z.shiftl_spec, Z.land_spec, Z.shiftr_spec by lia. do 2 f_equal. lia.
Qed.

Lemma get_addr_range e : 0 ≤ get_addr e < 2 ^ 52 ∧ get_addr e mod 4096 = 0.
Proof. unfold get_addr. rewrite land_addr_mask. divlia. Qed.

Lemma is_present_odd e : is_present e = Z.odd e.
Proof.
  unfold is_present. change PRESENT with (2 ^ 1 - 1). rewrite land_low_mask, Zmod_odd by lia.
  by destruct (Z.odd e).
Qed.

(** The entry of a new table. *)
Definition link_flags : Z := Z.lor (Z.lor PRESENT WRITABLE) USER.

Lemma link_entry a : 0 ≤ a < 2 ^ 47 → a mod 4096 = 0 →
  is_present (set_addr a link_flags) = true ∧ is_huge (set_addr a link_flags) = false ∧
  get_addr (set_addr a link_flags) = a.
Proof.
  intros Ha Hm. assert (set_addr a link_flags = a + 7) as ->.
  { unfold set_addr. rewrite land_addr_mask. replace ((a / 4096) mod 2 ^ 40 * 4096) with a by divlia.
    replace a with (Z.shiftl (a / 4096) 12) by (rewrite Z.shiftl_mul_pow2 by lia; divlia).
    change link_flags with 7. rewrite lor_disjoint by lia. rewrite Z.shiftl_mul_pow2 by lia. divlia. }
  split_and!.
  - rewrite is_present_odd, Z.odd_add. replace (Z.odd a) with false; [done|].
    symmetry. rewrite <- Z.negb_even. apply negb_false_iff, Z.even_spec. exists (a / 2). divlia.
  - unfold is_huge. replace (Z.land (a + 7) HUGE) with 0; [done|]. symmetry. change HUGE with (2 ^ 7).
    apply Z.bits_inj'. intros i Hi. rewrite Z.land_spec, Z.pow2_bits_eqb, Z.bits_0 by lia.
    destruct (Z.eqb_spec 7 i) as [<-|]; [|apply andb_false_r]. rewrite andb_true_r.
    apply Z.testbit_false; [lia|]. divlia.
  - unfold get_addr. rewrite land_addr_mask. divlia.
Qed.

Lemma index_range v : Forall (λ i, 0 ≤ i < 512) (indices v).
Proof.
  unfold indices, Addr.p4_index, Addr.p3_index, Addr.p2_index, Addr.p1_index.
  change 0x1FF with (2 ^ 9 - 1). rewrite !land_low_mask by lia. repeat constructor; divlia.
Qed.

Lemma leaf_present phys flags : is_present (set_addr phys (Z.lor flags PRESENT)) = true.
Proof.
  rewrite is_present_odd. unfold set_addr. rewrite <- Z.bit0_odd, !Z.lor_spec.
  change (Z.testbit PRESENT 0) with true. by rewrite !orb_true_r.
Qed.

(** ** Walks *)

(** The slots of the tables are distinct. *)
Lemma slot_inj t i t' i' : t mod 4096 = 0 → t' mod 4096 = 0 → 0 ≤ i < 512 → 0 ≤ i' < 512 →
  slot t i = slot t' i' → t = t' ∧ i = i'.
Proof. unfold slot. intros. divlia. Qed.

Lemma slot_aligned t i : t mod 4096 = 0 → slot t i mod 8 = 0.
Proof. unfold slot, HHDM_OFFSET. divlia. Qed.

Lemma is_leaf_interior e rest : is_huge e = false → rest ≠ [] → is_leaf e rest = false.
Proof. intros He. by destruct rest as [|? [|? [|? []]]]. Qed.

(** A present entry above the last level maps a huge page or leads to a table. *)
Lemma entry_cases K T l i e rest : entry_ok K T l i e → is_present e = true → rest ≠ [] →
  (length l.2 + length rest = 3)%nat →
  is_huge e = true ∧ is_leaf e rest = true ∨
  is_huge e = false ∧ is_leaf e rest = false ∧ ∃ l', T !! get_addr e = Some l' ∧ child_of K l i l' ∧
    (length l'.2 + length rest = 4)%nat.
Proof.
  intros He Hp Hr Hlen. assert (length l.2 < 3)%nat as Hl by (destruct rest; [done|simpl in Hlen; lia]).
  specialize (He Hl Hp). destruct (is_huge e) eqn:Hh; [left|right].
  - split; [done|]. destruct (l.2); [done|]. by destruct rest as [|? [|? [|? []]]]; simpl in *; try lia.
  - split; [done|]. split; [by apply is_leaf_interior|]. destruct He as (l' & Hl' & Hc). exists l'.
    split_and!; [done..|]. destruct Hc as [-> _]. rewrite length_app. simpl. lia.
Qed.

Definition tables_ok (m : kmem) (K : Z) (T : gmap Z label) : Prop :=
  ∀ t l i, T !! t = Some l → 0 ≤ i < 512 → ∃ e, m !! slot t i = Some e ∧ entry_ok K T l i e.

Abbreviation in_table := (λ i, 0 ≤ i < 512).

(** A walk depends on the words of the tables only. *)
Lemma walk_same m m' K T : tables_ok m K T →
  (∀ t l i, T !! t = Some l → 0 ≤ i < 512 → m' !! slot t i = m !! slot t i) →
  ∀ idx t l, T !! t = Some l → (length l.2 + length idx = 4)%nat → Forall in_table idx →
  walk m' t idx = walk m t idx.
Proof.
  intros Hok Hsame idx. induction idx as [|i rest IH]; intros t l Ht Hlen Hidx; [done|].
  apply Forall_cons in Hidx as [Hi Hrest]. cbn [walk]. rewrite (Hsame t l i Ht Hi).
  destruct (Hok t l i Ht Hi) as (e & -> & He). cbn [mbind option_bind].
  destruct (is_present e) eqn:Hp; [|done]. simpl in Hlen.
  destruct (decide (rest = [])) as [->|Hr]; [done|].
  destruct (entry_cases K T l i e rest He Hp Hr) as [[_ ->]|(_ & -> & l' & Hl' & _ & Hlen')]; [lia|done|].
  by apply (IH _ l').
Qed.

(** A new empty table behind an entry that was absent. *)
Lemma walk_link m m' K T t l i e0 e' : tables_ok m K T → T !! t = Some l → (length l.2 < 3)%nat →
  (∀ t' l' j, T !! t' = Some l' → 0 ≤ j < 512 → (t', j) ≠ (t, i) → m' !! slot t' j = m !! slot t' j) →
  m !! slot t i = Some e0 → is_present e0 = false →
  m' !! slot t i = Some e' → is_huge e' = false → (∀ j, 0 ≤ j < 512 → m' !! slot (get_addr e') j = Some 0) →
  ∀ idx t' l', T !! t' = Some l' → (length l'.2 + length idx = 4)%nat → Forall in_table idx →
  walk m' t' idx = walk m t' idx.
Proof.
  intros Hok Ht Hlt Hsame E0 Hp0 E' Hh Hz idx. induction idx as [|j rest IH]; intros t' l' Ht' Hlen Hidx; [done|].
  apply Forall_cons in Hidx as [Hj Hrest]. cbn [walk]. simpl in Hlen.
  destruct (decide ((t', j) = (t, i))) as [[= -> ->]|Hne].
  - rewrite E0, E'. cbn [mbind option_bind]. rewrite Hp0. cbn [negb]. destruct (is_present e'); [|done].
    assert (l' = l) as -> by congruence. destruct rest as [|j' rest]; [simpl in Hlen; lia|].
    rewrite is_leaf_interior by done. apply Forall_cons in Hrest as [Hj' _]. cbn [walk negb].
    by rewrite Hz by done.
  - rewrite (Hsame t' l' j) by done. destruct (Hok t' l' j Ht' Hj) as (e & -> & He). cbn [mbind option_bind].
    destruct (is_present e) eqn:Hp; [|done]. destruct (decide (rest = [])) as [->|Hr]; [done|].
    destruct (entry_cases K T l' j e rest He Hp Hr) as [[_ ->]|(_ & -> & l'' & Hl' & _ & Hlen')]; [lia|done|].
    by apply (IH _ l'').
Qed.

(** A store into a table of the last level is seen by the walks that lead there. *)
Lemma walk_leaf m m' K T t l i : tables_ok m K T → T !! t = Some l → length l.2 = 3%nat →
  (∀ t' l' j, T !! t' = Some l' → 0 ≤ j < 512 → (t', j) ≠ (t, i) → m' !! slot t' j = m !! slot t' j) →
  ∀ idx t' l', T !! t' = Some l' → (length l'.2 + length idx = 4)%nat → Forall in_table idx →
  (l'.2 ++ idx ≠ l.2 ++ [i] ∨ l'.1 ≠ l.1 ∧ (l'.2 = [] → ∀ j, head idx = Some j → j < 256)) →
  walk m' t' idx = walk m t' idx.
Proof.
  intros Hok Ht Hl Hsame idx. induction idx as [|j rest IH]; intros t' l' Ht' Hlen Hidx Hc; [done|].
  apply Forall_cons in Hidx as [Hj Hrest]. cbn [walk]. simpl in Hlen.
  assert ((t', j) ≠ (t, i)) as Hne.
  { intros [= -> ->]. assert (l' = l) as -> by congruence.
    destruct rest; [|simpl in Hlen; lia]. by destruct Hc as [Hc|[Hc _]]. }
  rewrite (Hsame t' l' j) by done. destruct (Hok t' l' j Ht' Hj) as (e & -> & He). cbn [mbind option_bind].
  destruct (is_present e) eqn:Hp; [|done]. destruct (decide (rest = [])) as [->|Hr]; [done|].
  destruct (entry_cases K T l' j e rest He Hp Hr) as [[_ ->]|(_ & -> & l'' & Hl' & [Hl2 Hroot] & Hlen')]; [lia|done|].
  apply (IH _ l''); [done|done|done|].
  - rewrite Hl2, <- app_assoc. destruct Hc as [Hc|[Hc Hhead]]; [by left|right].
    split; [|by destruct (l'.2)]. destruct Hroot as [->|(Hnil & _ & Hge)]; [done|].
    specialize (Hhead Hnil j eq_refl). lia.
Qed.

Lemma reaches_app m t idx idx' t' : reaches m t idx = Some t' → reaches m t (idx ++ idx') = reaches m t' idx'.
Proof.
  revert t. induction idx as [|i idx IH]; simpl; intros t; [by intros [= ->]|].
  destruct (m !! slot t i) as [e|]; [|done]. simpl. destruct (is_present e && negb (is_huge e)); [apply IH|done].
Qed.

Lemma walk_reaches m t idx t' rest : reaches m t idx = Some t' → rest ≠ [] →
  walk m t (idx ++ rest) = walk m t' rest.
Proof.
  intros H Hr. revert t H. induction idx as [|i idx IH]; cbn [reaches app walk]; intros t; [by intros [= ->]|].
  destruct (m !! slot t i) as [e|]; [|done]. cbn [mbind option_bind].
  destruct (is_present e) eqn:Hp; [|done]. destruct (is_huge e) eqn:Hh; [done|]. intros H.
  rewrite is_leaf_interior; [by apply IH|done|]. by destruct idx.
Qed.

(** A change that keeps the entries that are present keeps the tables reached. *)
Lemma reaches_keep m m' K T : tables_ok m K T →
  (∀ t l i e, T !! t = Some l → (length l.2 < 3)%nat → 0 ≤ i < 512 → m !! slot t i = Some e →
    is_present e = true → m' !! slot t i = Some e) →
  ∀ idx t l t', T !! t = Some l → (length l.2 + length idx ≤ 3)%nat → Forall in_table idx →
  reaches m t idx = Some t' → reaches m' t idx = Some t'.
Proof.
  intros Hok Hkeep idx. induction idx as [|i idx IH]; intros t l t' Ht Hlen Hidx; [done|].
  apply Forall_cons in Hidx as [Hi Hidx]. cbn [reaches]. simpl in Hlen.
  destruct (Hok t l i Ht Hi) as (e & E & He). rewrite E. cbn [mbind option_bind].
  destruct (is_present e) eqn:Hp; [|done]. destruct (is_huge e) eqn:Hh; [done|]. cbn [andb negb].
  rewrite (Hkeep t l i e Ht) by (done || lia). cbn [mbind option_bind]. rewrite Hp, Hh. cbn [andb negb].
  specialize (He ltac:(lia) Hp). rewrite Hh in He. destruct He as (l' & Hl' & [Hl2 _]).
  apply (IH _ l'); [done| |done]. rewrite Hl2, length_app. simpl. lia.
Qed.

(** ** New tables *)

Lemma zero_ok σ a (Q : unit → mm → Prop) : a mod 4096 = 0 →
  (∀ i, 0 ≤ i < 512 → is_Some (mem σ !! slot a i)) →
  (∀ m, (∀ i, 0 ≤ i < 512 → m !! slot a i = Some 0) →
    (∀ x, (∀ i, 0 ≤ i < 512 → x ≠ slot a i) → m !! x = mem σ !! x) → Q tt (set_mem m σ)) →
  wp (zero (a + HHDM_OFFSET)) Q σ.
Proof.
  intros Ha Hmap HQ.
  apply (wp_for_range (λ i τ, ∃ m, τ = set_mem m σ ∧ (∀ j, 0 ≤ j < i → m !! slot a j = Some 0) ∧
    (∀ j, i ≤ j < 512 → is_Some (m !! slot a j)) ∧
    (∀ x, (∀ i, 0 ≤ i < 512 → x ≠ slot a i) → m !! x = mem σ !! x))).
  - exists (mem σ). split; [by destruct σ|]. split; [lia|]. split; [|done]. intros j Hj. apply Hmap. lia.
  - intros i τ Hi (m & -> & H1 & H2 & H3). change (a + HHDM_OFFSET + 8 * i) with (slot a i).
    change (Z.of_nat _) with 512 in Hi.
    apply wp_sd; [by apply slot_aligned|by apply H2; lia|]. exists (<[slot a i := 0]> m).
    split; [done|]. unfold slot in *. split_and!.
    + intros j Hj. destruct (decide (j = i)) as [->|]; [by rewrite lookup_insert_eq|].
      rewrite lookup_insert_ne by lia. apply H1. lia.
    + intros j Hj. rewrite lookup_insert_ne by lia. apply H2. lia.
    + intros x Hx. rewrite lookup_insert_ne; [by apply H3|]. specialize (Hx i). lia.
  - intros τ (m & -> & H1 & _ & H3). by apply HQ.
Qed.

(** A zeroed frame that is no table yet, and nothing else changed. *)
Record new_table (σ : mm) (T : gmap Z label) (a : Z) (σ' : mm) : Prop := {
  nt_fresh : T !! a = None;
  nt_range : 0 ≤ a < 2 ^ 47 ∧ a mod 4096 = 0;
  nt_zero i : 0 ≤ i < 512 → mem σ' !! slot a i = Some 0;
  nt_apart i : 0 ≤ i < 512 → ¬ in_bitmap (fra σ) (slot a i);
  nt_state : ∃ m, σ' = set_mem m σ;
  nt_same t l i : T !! t = Some l → 0 ≤ i < 512 → mem σ' !! slot t i = mem σ !! slot t i;
}.

Lemma wp_new_table {A} σ K T F (k : Z → ST mm (option A)) (Q : option A → mm → Prop) :
  pt_ok σ K T F → ((∀ f, F f = false) → Q None σ) →
  (∀ f σ', F f = true → new_table σ T (f * 4096) σ' → pt_ok σ' K T (upd F f false) → wp (k (f * 4096)) Q σ') →
  wp (frame ←o alloc_frame; _ ← zero (Z.lor frame HHDM_OFFSET); k frame) Q σ.
Proof.
  intros Hpt HN HS. pose proof Hpt as [Hb HK Hroot Htab Hap Hent Hfree]. apply wp_bind.
  wp_call (frame_alloc_ok σ F); [done|]. intros [a|] σ1.
  2: { intros [-> Hno]. apply wp_ret. by apply HN. }
  intros (f & -> & Hf & _ & Hb1 & Ho). change PAGE_SIZE with 4096. destruct (Hfree f Hf) as [Hfr Hfw].
  assert (0 ≤ f * 4096 < 2 ^ 47) as Hr by lia. assert ((f * 4096) mod 4096 = 0) as Hm by (apply Z.mod_mul; lia).
  rewrite (lor_hhdm _ Hr). apply wp_bind. apply zero_ok; [done| |].
  { intros i Hi. destruct (Hfw i Hi) as [? ?]. by rewrite (bitmap_only_mem _ _ _ Ho). }
  intros m Hz Hm'. assert (T !! (f * 4096) = None) as Hfresh.
  { destruct (T !! (f * 4096)) as [l|] eqn:E; [|done]. destruct (Htab _ _ E) as (_ & _ & _ & H).
    rewrite Z.div_mul in H by lia. congruence. }
  assert (∀ t l i, T !! t = Some l → 0 ≤ i < 512 → m !! slot t i = mem σ !! slot t i) as Hsame.
  { intros t l i Ht Hi. rewrite Hm'.
    - apply (bitmap_only_mem _ _ _ Ho). by eapply Hap.
    - intros j Hj Heq. destruct (Htab _ _ Ht) as (_ & Ht4 & _). apply slot_inj in Heq as [-> _]; [|done..]. congruence. }
  assert (fra σ1 = fra σ) as Hfra by by apply bitmap_only_fra.
  apply (HS f); [done| |].
  - split; [done|done|done| | |done].
    + intros i Hi. by apply Hfw.
    + destruct Ho as (m1 & -> & _). by exists m.
  - split; [|done|done| | | |].
    + apply bitmap_ok_mem; [done|]. intros x Hx. apply Hm'. intros i Hi ->.
      rewrite Hfra in Hx. by destruct (Hfw i Hi).
    + intros t l Ht. destruct (Htab t l Ht) as (? & ? & ? & HF). split_and!; try done; [lia..|].
      unfold upd. by destruct (_ =? _).
    + cbn [fra set_mem]. rewrite Hfra. done.
    + intros t l i Ht Hi. cbn [mem set_mem]. rewrite (Hsame t l i) by done. by apply Hent.
    + intros g Hg. unfold upd in Hg. destruct (Z.eqb_spec g f) as [|Hgf]; [done|].
      destruct (Hfree g Hg) as [Hgr Hgw]. split; [done|]. intros i Hi. destruct (Hgw i Hi) as [Hs Hnb].
      cbn [fra mem set_mem]. rewrite Hfra. split; [|done]. rewrite Hm', (bitmap_only_mem _ _ _ Ho); [done..|].
      intros j Hj Heq. apply slot_inj in Heq as [? _]; [lia|apply Z.mod_mul; lia|done..].
Qed.

(** Tables may be added; all translations and the entries present stay. *)
Record extends (σ : mm) (T : gmap Z label) (σ' : mm) (T' : gmap Z label) : Prop := {
  ex_state : ∃ m, σ' = set_mem m σ;
  ex_sub : T ⊆ T';
  ex_walk idx t l : T !! t = Some l → (length l.2 + length idx = 4)%nat → Forall in_table idx →
    walk (mem σ') t idx = walk (mem σ) t idx;
  ex_keep t l i e : T !! t = Some l → (length l.2 < 3)%nat → 0 ≤ i < 512 → mem σ !! slot t i = Some e →
    is_present e = true → mem σ' !! slot t i = Some e;
}.

Lemma pt_extends_refl σ T : extends σ T σ T.
Proof. split; [exists (mem σ); by destruct σ|done..]. Qed.

Lemma pt_extends_trans σ1 T1 σ2 T2 σ3 T3 : extends σ1 T1 σ2 T2 → extends σ2 T2 σ3 T3 → extends σ1 T1 σ3 T3.
Proof.
  intros [[m1 ->] S1 W1 K1] [[m2 ->] S2 W2 K2]. split.
  - by exists m2.
  - by trans T2.
  - intros idx t l Ht Hl Hi. rewrite (W2 idx t l), (W1 idx t l); [done..|by eapply lookup_weaken|done|done].
  - intros t l i e Ht Hl Hi He Hp. eapply K2; [by eapply lookup_weaken|done..|by eapply K1|done].
Qed.

(** Tables are added on frames that were free, and no frame becomes free. *)
Record taken (T : gmap Z label) (F : Z → bool) (T' : gmap Z label) (F' : Z → bool) : Prop := {
  ta_sub : T ⊆ T';
  ta_free f : F' f = true → F f = true;
  ta_new t l : T' !! t = Some l → T !! t = None → F (t / 4096) = true;
}.

Lemma taken_refl T F : taken T F T F.
Proof. split; [done|done|]. intros t l. congruence. Qed.

Lemma taken_trans T1 F1 T2 F2 T3 F3 : taken T1 F1 T2 F2 → taken T2 F2 T3 F3 → taken T1 F1 T3 F3.
Proof.
  intros [S1 A1 N1] [S2 A2 N2]. split; [by trans T2|by auto|]. intros t l H3 H1.
  destruct (T2 !! t) as [l2|] eqn:H2; [by eapply N1|]. by eapply A1, N2.
Qed.

(** A table on the frame [f]. *)
Lemma taken_frame T F f l : F f = true → T !! (f * 4096) = None → taken T F (<[f * 4096 := l]> T) (upd F f false).
Proof.
  intros Hf HT. split; [by apply insert_subseteq| |].
  - intros g. unfold upd. by destruct (g =? f).
  - intros t l'. rewrite lookup_insert_Some. intros [[<- _]|[_ ?]] ?; [by rewrite Z.div_mul by lia|congruence].
Qed.

Lemma entry_ok_mono K T T' l i e : T ⊆ T' → entry_ok K T l i e → entry_ok K T' l i e.
Proof.
  intros Hs He Hl Hp. specialize (He Hl Hp). destruct (is_huge e); [done|]. destruct He as (l' & Hl' & Hc).
  exists l'. split; [by eapply lookup_weaken|done].
Qed.

Lemma pt_tables σ K T F : pt_ok σ K T F → tables_ok (mem σ) K T.
Proof. intros H t l i. apply (pt_entry _ _ _ _ H). Qed.

(** Linking a new table. *)
Lemma link_ok σ K T F t l i a e0 : pt_ok σ K T F → T !! t = Some l → (length l.2 < 3)%nat → 0 ≤ i < 512 →
  mem σ !! slot t i = Some e0 → is_present e0 = false →
  T !! a = None → 0 ≤ a < 2 ^ 47 → a mod 4096 = 0 → F (a / 4096) = false →
  (∀ j, 0 ≤ j < 512 → mem σ !! slot a j = Some 0 ∧ ¬ in_bitmap (fra σ) (slot a j)) →
  let T' := <[a := (l.1, l.2 ++ [i])]> T in
  let σ' := set_mem (<[slot t i := set_addr a link_flags]> (mem σ)) σ in
  pt_ok σ' K T' F ∧ extends σ T σ' T' ∧ reaches (mem σ') t [i] = Some a.
Proof.
  intros Hpt Ht Hlen Hi E0 Hp0 Ha Har Ham HFa Hz T' σ'. pose proof Hpt as [Hb HK Hroot Htab Hap Hent Hfree].
  destruct (link_entry a Har Ham) as (Hp & Hh & Hga). destruct (Htab t l Ht) as (Hl3 & Ht4 & Htr & HFt).
  assert (t ≠ a) as Hta by (intros ->; congruence). assert (T ⊆ T') as Hsub by by apply insert_subseteq.
  assert (∀ t' j, t' mod 4096 = 0 → 0 ≤ j < 512 → (t', j) ≠ (t, i) →
    mem σ' !! slot t' j = mem σ !! slot t' j) as Hsame.
  { intros t' j Ht' Hj Hne. cbn [mem set_mem σ']. apply lookup_insert_ne. intros Heq.
    apply slot_inj in Heq as [-> ->]; done. }
  assert (∀ t' l' j, T !! t' = Some l' → 0 ≤ j < 512 → (t', j) ≠ (t, i) →
    mem σ' !! slot t' j = mem σ !! slot t' j) as HsameT.
  { intros t' l' j Ht' Hj Hne. apply Hsame; [|done..]. by destruct (Htab _ _ Ht') as (_ & ? & _). }
  assert (mem σ' !! slot t i = Some (set_addr a link_flags)) as E' by apply lookup_insert_eq.
  assert (∀ j, 0 ≤ j < 512 → mem σ' !! slot a j = Some 0) as Hza.
  { intros j Hj. rewrite (Hsame a j Ham Hj); [by apply Hz|]. by intros [= <- _]. }
  split_and!; [split| split|].
  - apply bitmap_ok_mem; [done|]. intros x Hx. apply lookup_insert_ne. intros <-. by apply (Hap t l i).
  - by apply (lookup_weaken T).
  - intros t' r. unfold T'. rewrite lookup_insert_Some. intros [[_ H]|[_ H]]; [|by apply Hroot].
    injection H as _ H. by destruct (l.2).
  - intros t' l'. unfold T'. rewrite lookup_insert_Some. intros [[<- <-]|[_ H]]; [|by apply Htab].
    cbn [snd]. rewrite length_app. simpl. split_and!; [lia|done|lia|lia|done].
  - intros t' l' j. unfold T'. rewrite lookup_insert_Some. intros [[<- <-]|[_ H]] Hj; [by apply Hz|by eapply Hap].
  - intros t' l' j. unfold T'. rewrite lookup_insert_Some. intros [[<- <-]|[Hne H]] Hj.
    + exists 0. by split; [apply Hza|].
    + destruct (decide ((t', j) = (t, i))) as [[= -> ->]|Hne'].
      * assert (l' = l) as -> by congruence. eexists. split; [done|]. intros _ _. rewrite Hh, Hga. exists (l.1, l.2 ++ [i]). split; [apply lookup_insert_eq|]. split; [done|by left].
      * rewrite (HsameT t' l' j) by done. destruct (Hent t' l' j H Hj) as (e & -> & He).
        exists e. split; [done|]. by apply (entry_ok_mono _ T).
  - intros f Hf. destruct (Hfree f Hf) as [Hfr Hfw]. split; [done|]. intros j Hj.
    destruct (Hfw j Hj) as [Hs Hnb]. split; [|done]. cbn [mem set_mem σ']. apply lookup_insert_is_Some'. by right.
  - by eexists.
  - done.
  - apply (walk_link _ _ K T t l i e0 (set_addr a link_flags)); try done.
    by rewrite Hga.
  - intros t' l' j e Ht' _ Hj E Hpe. rewrite (HsameT t' l' j); [done|done|done|]. intros [= -> ->]. congruence.
  - cbn [reaches]. rewrite E'. cbn [mbind option_bind]. by rewrite Hp, Hh, Hga.
Qed.

Lemma get_or_create_ok σ K T F t l i : pt_ok σ K T F → T !! t = Some l → (length l.2 < 3)%nat → 0 ≤ i < 512 →
  (∀ e, mem σ !! slot t i = Some e → is_present e = true → is_huge e = false) →
  wp (get_or_create_table (t + HHDM_OFFSET + 8 * i)) (λ o σ', ∃ T' F',
    pt_ok σ' K T' F' ∧ extends σ T σ' T' ∧ taken T F T' F' ∧
    match o with
    | Some q => ∃ c l', q = c + HHDM_OFFSET ∧ T' !! c = Some l' ∧ child_of K l i l' ∧
        reaches (mem σ') t [i] = Some c
    | None => ∀ f, F' f = false
    end) σ.
Proof.
  intros Hpt Ht Hlen Hi Hplain. change (t + HHDM_OFFSET + 8 * i) with (slot t i).
  pose proof Hpt as [Hb HK Hroot Htab Hap Hent Hfree].
  destruct (Htab t l Ht) as (_ & Ht4 & Htr & _). destruct (Hent t l i Ht Hi) as (e & E & He).
  unfold get_or_create_table. apply wp_bind, (wp_ld _ e); [by apply slot_aligned|done|].
  destruct (is_present e) eqn:Hp.
  - pose proof (Hplain e E Hp) as Hh. specialize (He Hlen Hp). rewrite Hh in He.
    destruct He as (l' & Hl' & Hc). apply wp_ret. exists T, F.
    split_and!; [done|apply pt_extends_refl|apply taken_refl|]. exists (get_addr e), l'. split_and!; [|done|done|].
    + apply lor_hhdm. by destruct (Htab _ _ Hl') as (_ & _ & ? & _).
    + cbn [reaches]. rewrite E. cbn [mbind option_bind]. by rewrite Hp, Hh.
  - apply (wp_new_table σ K T F); [done| |].
    { intros Hno. exists T, F. split_and!; [done|apply pt_extends_refl|apply taken_refl|done]. }
    intros f σ' Hf [Hfresh [Har Ham] Hz Hnb [m ->] Hsame] Hpt'. set (a := f * 4096) in *.
    assert (mem (set_mem m σ) !! slot t i = Some e) as E' by by rewrite (Hsame t l i).
    apply wp_bind, wp_sd; [by apply slot_aligned|by eauto|]. apply wp_ret.
    destruct (link_ok _ K T (upd F f false) t l i a e Hpt' Ht Hlen Hi E' Hp Hfresh Har Ham) as (H1 & H2 & H3).
    { unfold upd. subst a. by rewrite Z.div_mul, Z.eqb_refl by lia. }
    { intros j Hj. split; [by apply Hz|by apply Hnb]. }
    exists (<[a := (l.1, l.2 ++ [i])]> T), (upd F f false). split; [exact H1|]. split; [|split].
    + eapply pt_extends_trans; [|exact H2]. split; [by eexists|done| |].
      * apply (walk_same _ _ K T); [by apply (pt_tables _ _ _ F)|]. intros. by eapply Hsame.
      * intros t' l' j e' Ht' _ Hj He' _. by rewrite (Hsame t' l' j).
    + subst a. by apply taken_frame.
    + exists a, (l.1, l.2 ++ [i]). split_and!; [by apply lor_hhdm|apply lookup_insert_eq| |exact H3].
      split; [done|by left].
Qed.

(** ** Pages *)

(** The number of a page, in the 48 bits that are translated. *)
Definition page (v : Z) : Z := (v / 4096) mod 2 ^ 36.

Lemma indices_page v v' : indices v = indices v' ↔ page v = page v'.
Proof.
  unfold indices, Addr.p4_index, Addr.p3_index, Addr.p2_index, Addr.p1_index, page.
  change 0x1FF with (2 ^ 9 - 1). rewrite !land_low_mask, !Z.shiftr_div_pow2 by lia. split.
  - intros [= H4 H3 H2 H1]. divlia.
  - intros H. f_equal; [|f_equal; [|f_equal; [|f_equal]]]; divlia.
Qed.

(** A store into a table of the last level. *)
Lemma leaf_store_ok σ K T F t l i w : pt_ok σ K T F → T !! t = Some l → length l.2 = 3%nat → 0 ≤ i < 512 →
  let σ' := set_mem (<[slot t i := w]> (mem σ)) σ in
  pt_ok σ' K T F ∧
  (∀ t' l' j, T !! t' = Some l' → 0 ≤ j < 512 → (t', j) ≠ (t, i) → mem σ' !! slot t' j = mem σ !! slot t' j) ∧
  (∀ idx t' l' c, T !! t' = Some l' → (length l'.2 + length idx ≤ 3)%nat → Forall in_table idx →
    reaches (mem σ) t' idx = Some c → reaches (mem σ') t' idx = Some c).
Proof.
  intros Hpt Ht Hl Hi σ'. pose proof Hpt as [Hb HK Hroot Htab Hap Hent Hfree].
  destruct (Htab t l Ht) as (_ & Ht4 & _ & _).
  assert (∀ t' l' j, T !! t' = Some l' → 0 ≤ j < 512 → (t', j) ≠ (t, i) →
    mem σ' !! slot t' j = mem σ !! slot t' j) as Hsame.
  { intros t' l' j Ht' Hj Hne. cbn [mem set_mem σ']. apply lookup_insert_ne. intros Heq.
    destruct (Htab _ _ Ht') as (_ & ? & _). apply slot_inj in Heq as [-> ->]; done. }
  split_and!; [split; try done| |].
  - apply bitmap_ok_mem; [done|]. intros x Hx. apply lookup_insert_ne. intros <-. by apply (Hap t l i).
  - intros t' l' j Ht' Hj. destruct (decide ((t', j) = (t, i))) as [[= -> ->]|Hne].
    + exists w. split; [apply lookup_insert_eq|]. intros Hlt. assert (l' = l) as -> by congruence. lia.
    + rewrite (Hsame t' l' j) by done. by apply Hent.
  - intros f Hf. destruct (Hfree f Hf) as [Hfr Hfw]. split; [done|]. intros j Hj.
    destruct (Hfw j Hj) as [Hs Hnb]. split; [|done]. cbn [mem set_mem σ']. apply lookup_insert_is_Some'. by right.
  - done.
  - apply (reaches_keep _ _ K T); [done|]. intros t' l' j e Ht' Hlt Hj E _. rewrite (Hsame t' l' j); [done..|].
    intros [= -> ->]. assert (l' = l) as -> by congruence. lia.
Qed.

Lemma root_label_lor σ K T F u : pt_ok σ K T F → T !! u = Some (u, []) → Z.lor u HHDM_OFFSET = u + HHDM_OFFSET.
Proof. intros H Hu. apply lor_hhdm. by destruct (pt_table _ _ _ _ H u _ Hu) as (_ & _ & ? & _). Qed.

(** The walk of [v] in the address space [u'] does not end in entry [i1] of the
    table [l] of the page [virt] of [u]. *)
Definition elsewhere (u virt u' v : Z) : Prop := page v ≠ page virt ∨ u' ≠ u ∧ Addr.p4_index virt < 256.

Lemma elsewhere_label K u virt u' v l : elsewhere u virt u' v →
  l.2 ++ [Addr.p1_index virt] = indices virt → (l.1 = u ∨ l.1 = K ∧ 256 ≤ Addr.p4_index virt) →
  [] ++ indices v ≠ l.2 ++ [Addr.p1_index virt] ∨
  u' ≠ l.1 ∧ (@nil Z = [] → ∀ j, head (indices v) = Some j → j < 256).
Proof.
  unfold elsewhere. rewrite <- indices_page. intros Hel -> Hl. simpl app.
  destruct (decide (indices v = indices virt)) as [Heq|]; [right|by left].
  destruct Hel as [|[Hu Hlow]]; [done|]. split.
  - destruct Hl as [->|[_ ?]]; [done|lia].
  - rewrite Heq. simpl. by intros _ j [= <-].
Qed.

(** The calls of [get_or_create_table] along the indices [idx]. *)
Fixpoint descend {A} (q : Z) (idx : list Z) (k : Z → ST mm (option A)) : ST mm (option A) :=
  match idx with
  | [] => k q
  | i :: rest => c ←o get_or_create_table (q + 8 * i); descend c rest k
  end.

Definition label_below (K : Z) (l : label) (idx : list Z) (l' : label) : Prop :=
  l'.2 = l.2 ++ idx ∧ (l'.1 = l.1 ∨ l.2 = [] ∧ l'.1 = K ∧ ∀ i, head idx = Some i → 256 ≤ i).

Lemma label_below_cons K l i l1 rest l' : child_of K l i l1 → label_below K l1 rest l' → label_below K l (i :: rest) l'.
Proof.
  intros [Hl1 Hr1] [Hl' Hr']. split; [by rewrite Hl', Hl1, <- app_assoc|].
  destruct Hr' as [->|(Hnil & _)]; [|rewrite Hl1 in Hnil; by destruct (l.2)].
  destruct Hr1 as [->|(? & -> & ?)]; [by left|right]. split_and!; [done..|]. by intros j [= <-].
Qed.

(** No huge page is in the way. *)
Definition plain (m : kmem) (t : Z) (idx : list Z) : Prop := ∀ e rest, walk m t idx = Some (e, rest) → rest = [].

Lemma plain_entry m K T t l i rest e : entry_ok K T l i e → (length l.2 + length rest = 3)%nat → rest ≠ [] →
  plain m t (i :: rest) → m !! slot t i = Some e → is_present e = true → is_huge e = false.
Proof.
  intros He Hlen Hr Hpl E Hp. destruct (entry_cases K T l i e rest He Hp Hr Hlen) as [[_ Hleaf]|[? _]]; [|done].
  exfalso. apply Hr, (Hpl e). cbn [walk]. rewrite E. cbn [mbind option_bind]. by rewrite Hp, Hleaf.
Qed.

Lemma wp_descend {A} K (k : Z → ST mm (option A)) (Q : option A → mm → Prop) idx σ T F t l i1 :
  pt_ok σ K T F → T !! t = Some l → (length l.2 + length idx = 3)%nat → Forall in_table (idx ++ [i1]) →
  plain (mem σ) t (idx ++ [i1]) →
  (∀ σ' T' F', pt_ok σ' K T' F' → extends σ T σ' T' → taken T F T' F' → (∀ f, F' f = false) → Q None σ') →
  (∀ σ' T' F' c l', pt_ok σ' K T' F' → extends σ T σ' T' → taken T F T' F' → T' !! c = Some l' → label_below K l idx l' →
    reaches (mem σ') t idx = Some c → wp (k (c + HHDM_OFFSET)) Q σ') →
  wp (descend (t + HHDM_OFFSET) idx k) Q σ.
Proof.
  revert σ T F t l. induction idx as [|i rest IH]; intros σ T F t l Hpt Ht Hlen Hidx Hpl HN HS; cbn [descend].
  { apply (HS σ T F t l); [done|apply pt_extends_refl|apply taken_refl|done| |done]. split; [by rewrite app_nil_r|by left]. }
  pose proof Hidx as [Hi Hrest]%Forall_cons. simpl in Hlen. apply wp_bind.
  wp_call (get_or_create_ok σ K T F t l); [done|done|lia|done| |].
  { intros e E. destruct (pt_entry _ _ _ _ Hpt t l i Ht Hi) as (e' & E' & He). simplify_eq.
    apply (plain_entry (mem σ) K T t l i (rest ++ [i1])); [done| |by destruct rest|exact Hpl|done]. rewrite length_app. simpl. lia. }
  intros [q|] σ1 (T1 & F1 & Hpt1 & Hex1 & Htk1 & Hr); [|by apply wp_ret, (HN σ1 T1 F1)].
  destruct Hr as (c & l1 & -> & Hc & Hch & Hreach). apply (IH σ1 T1 F1 c l1); [done|done| |done| | |].
  { destruct Hch as [-> _]. rewrite length_app. simpl. lia. }
  { intros e rest'. rewrite <- (walk_reaches _ t [i]); [|done|by destruct rest].
    rewrite (ex_walk _ _ _ _ Hex1 _ _ _ Ht); [apply Hpl| |done]. simpl. rewrite length_app. simpl. lia. }
  { intros σ' T' F' Hpt' Hex' Htk'. apply (HN σ' T' F'); [done|by eapply pt_extends_trans|by eapply taken_trans]. }
  intros σ' T' F' c' l' Hpt' Hex' Htk' Hc' Hl' Hreach'. apply (HS σ' T' F' c' l'); [done| | |done| |].
  - by eapply pt_extends_trans.
  - by eapply taken_trans.
  - by eapply label_below_cons.
  - change (i :: rest) with ([i] ++ rest). rewrite (reaches_app _ _ _ _ c); [done|].
    eapply (reaches_keep _ _ K T1); [by eapply pt_tables|apply Hex'| | | |exact Hreach].
    + eapply lookup_weaken; [exact Ht|apply Hex1].
    + simpl. lia.
    + by constructor.
Qed.

Lemma indices_split v :
  indices v = [Addr.p4_index v; Addr.p3_index v; Addr.p2_index v] ++ [Addr.p1_index v].
Proof. done. Qed.

Lemma index_range_split v :
  Forall in_table [Addr.p4_index v; Addr.p3_index v; Addr.p2_index v] ∧ 0 ≤ Addr.p1_index v < 512.
Proof. pose proof (index_range v) as H. rewrite indices_split, Forall_app, Forall_singleton in H. done. Qed.

Lemma root_walk σ T σ' T' u v : extends σ T σ' T' → T !! u = Some (u, []) → translate σ' u v = translate σ u v.
Proof. intros Hex Hu. eapply (ex_walk _ _ _ _ Hex); [done|done|apply index_range]. Qed.

(** What a store into the entry of a page does to the translations. *)
Lemma store_entry_ok σ K T F u virt c l w : pt_ok σ K T F → T !! u = Some (u, []) → T !! c = Some l →
  label_below K (u, []) [Addr.p4_index virt; Addr.p3_index virt; Addr.p2_index virt] l →
  reaches (mem σ) u [Addr.p4_index virt; Addr.p3_index virt; Addr.p2_index virt] = Some c →
  let σ' := set_mem (<[slot c (Addr.p1_index virt) := w]> (mem σ)) σ in
  pt_ok σ' K T F ∧
  translate σ' u virt = (if is_present w then Some (w, []) else None) ∧
  ∀ u' v, T !! u' = Some (u', []) → elsewhere u virt u' v → translate σ' u' v = translate σ u' v.
Proof.
  intros Hpt Hu Hc [Hl Hr] Hreach σ'. destruct (index_range_split virt) as [H432 H1]. simpl in Hl.
  destruct (leaf_store_ok σ K T F c l (Addr.p1_index virt) w) as (Hpt' & Hsame & Hkeep);
    [done|done|by rewrite Hl|done|]. split; [done|]. split.
  - unfold translate. rewrite indices_split, (walk_reaches _ _ _ c); [|by apply (Hkeep _ _ (u, []))|done].
    cbn [walk]. cbn [mem set_mem σ']. rewrite lookup_insert_eq. cbn [mbind option_bind]. by destruct (is_present w).
  - intros u' v Hu' Hel. unfold translate.
    apply (walk_leaf _ _ K T c l (Addr.p1_index virt)) with (l' := (u', [])); try done.
    + by eapply pt_tables.
    + by rewrite Hl.
    + apply index_range.
    + eapply (elsewhere_label K); [done|by rewrite Hl|]. destruct Hr as [->|(_ & -> & H)]; [by left|right].
      split; [done|]. by apply H.
Qed.

Lemma map_page_ok σ K T F u virt phys flags : pt_ok σ K T F → T !! u = Some (u, []) →
  plain (mem σ) u (indices virt) →
  wp (map_page u virt phys flags) (λ r σ', ∃ T' F', pt_ok σ' K T' F' ∧ taken T F T' F' ∧ (∃ m, σ' = set_mem m σ) ∧
    match r with
    | Some _ => translate σ' u virt = Some (set_addr phys (Z.lor flags PRESENT), []) ∧
        ∀ u' v, T !! u' = Some (u', []) → elsewhere u virt u' v → translate σ' u' v = translate σ u' v
    | None => (∀ f, F' f = false) ∧ ∀ u' v, T !! u' = Some (u', []) → translate σ' u' v = translate σ u' v
    end) σ.
Proof.
  intros Hpt Hu Hpl. destruct (index_range_split virt) as [H432 H1].
  unfold map_page. rewrite (root_label_lor _ _ _ _ _ Hpt Hu).
  apply (wp_descend K (λ p1, _ ← sd (p1 + 8 * Addr.p1_index virt) (set_addr phys (Z.lor flags PRESENT));
    mret (Some tt)) _ [Addr.p4_index virt; Addr.p3_index virt; Addr.p2_index virt] σ T F u (u, []) (Addr.p1_index virt));
    [done|done|done|apply index_range|done| |].
  - intros σ' T' F' Hpt' Hex Htk Hno. exists T', F'. split; [done|]. split; [done|]. split; [apply Hex|].
    split; [done|]. intros u' v. by apply (root_walk _ T _ T').
  - intros σ' T' F' c l Hpt' Hex Htk Hc Hl Hreach. pose proof (ex_sub _ _ _ _ Hex) as Hsub.
    destruct (pt_table _ _ _ _ Hpt' _ _ Hc) as (_ & Hc4 & _).
    destruct (store_entry_ok σ' K T' F' u virt c l (set_addr phys (Z.lor flags PRESENT))) as (Hpt4 & Hnew & Hold);
      [done|by eapply lookup_weaken|done|done|done|].
    apply wp_bind, wp_sd; [by apply slot_aligned|..].
    { destruct (pt_entry _ _ _ _ Hpt' _ _ _ Hc H1) as (x & E & _). exists x. exact E. }
    apply wp_ret. exists T', F'. split; [exact Hpt4|]. split; [done|].
    split; [destruct (ex_state _ _ _ _ Hex) as [m ->]; by eexists|]. rewrite leaf_present in Hnew.
    split; [exact Hnew|]. intros u' v Hu' Hel.
    rewrite <- (root_walk σ T σ' T') by done. apply Hold; [by eapply lookup_weaken|done].
Qed.

(** The descent of [unmap_page], which changes nothing. *)
Fixpoint descend_ro {A} (q : Z) (idx : list Z) (k : Z → ST mm (option A)) : ST mm (option A) :=
  match idx with
  | [] => k q
  | i :: rest => c ←o table_of_entry (q + 8 * i); descend_ro c rest k
  end.

Lemma wp_descend_ro {A} K (k : Z → ST mm (option A)) (Q : option A → mm → Prop) idx σ T F t l i1 :
  pt_ok σ K T F → T !! t = Some l → (length l.2 + length idx = 3)%nat → Forall in_table idx →
  plain (mem σ) t (idx ++ [i1]) →
  (walk (mem σ) t (idx ++ [i1]) = None → Q None σ) →
  (∀ c l', T !! c = Some l' → label_below K l idx l' → reaches (mem σ) t idx = Some c →
    wp (k (c + HHDM_OFFSET)) Q σ) →
  wp (descend_ro (t + HHDM_OFFSET) idx k) Q σ.
Proof.
  intros Hpt. revert t l. induction idx as [|i rest IH]; intros t l Ht Hlen Hidx Hpl HN HS; cbn [descend_ro].
  { apply (HS t l); [done| |done]. split; [by rewrite app_nil_r|by left]. }
  apply Forall_cons in Hidx as [Hi Hrest]. simpl in Hlen.
  destruct (pt_table _ _ _ _ Hpt t l Ht) as (_ & Ht4 & _).
  destruct (pt_entry _ _ _ _ Hpt t l i Ht Hi) as (e & E & He).
  apply wp_bind. unfold table_of_entry. apply wp_bind. apply (wp_ld _ e); [by apply slot_aligned|exact E|].
  destruct (is_present e) eqn:Hp; simpl; apply wp_ret.
  2: { apply wp_ret, HN. cbn [app walk]. rewrite E. cbn [mbind option_bind]. by rewrite Hp. }
  assert (is_huge e = false) as Hh.
  { apply (plain_entry (mem σ) K T t l i (rest ++ [i1])); [done| |by destruct rest|exact Hpl|done|done]. rewrite length_app. simpl. lia. }
  specialize (He ltac:(lia) Hp). rewrite Hh in He. destruct He as (l1 & Hl1 & Hch).
  assert (walk (mem σ) t (i :: rest ++ [i1]) = walk (mem σ) (get_addr e) (rest ++ [i1])) as Hstep.
  { cbn [walk]. rewrite E. cbn [mbind option_bind]. rewrite Hp. cbn [negb].
    rewrite is_leaf_interior; [done|done|by destruct rest]. }
  rewrite lor_hhdm by (by destruct (pt_table _ _ _ _ Hpt _ _ Hl1) as (_ & _ & ? & _)).
  apply (IH _ l1); [done| |done| | |].
  - destruct Hch as [-> _]. rewrite length_app. simpl. lia.
  - intros e' rest'. rewrite <- Hstep. apply Hpl.
  - intros Hw. apply HN. by rewrite <- Hw.
  - intros c l' Hc Hl' Hreach. apply (HS c l'); [done| |].
    + by eapply label_below_cons.
    + cbn [reaches]. rewrite E. cbn [mbind option_bind]. by rewrite Hp, Hh.
Qed.

Lemma unmap_page_ok σ K T F u virt : pt_ok σ K T F → T !! u = Some (u, []) →
  plain (mem σ) u (indices virt) →
  wp (unmap_page u virt) (λ r σ', pt_ok σ' K T F ∧ (∃ m, σ' = set_mem m σ) ∧
    r = (λ e, get_addr e.1) <$> translate σ u virt ∧ translate σ' u virt = None ∧
    ∀ u' v, T !! u' = Some (u', []) → elsewhere u virt u' v → translate σ' u' v = translate σ u' v) σ.
Proof.
  intros Hpt Hu Hpl. destruct (index_range_split virt) as [H432 H1].
  assert (∃ m, σ = set_mem m σ) as Hst by (exists (mem σ); by destruct σ).
  unfold unmap_page. rewrite (root_label_lor _ _ _ _ _ Hpt Hu).
  apply (wp_descend_ro K (λ p1, e ← ld (p1 + 8 * Addr.p1_index virt);
    if negb (is_present e) then mret None
    else _ ← sd (p1 + 8 * Addr.p1_index virt) 0; mret (Some (get_addr e))) _
    [Addr.p4_index virt; Addr.p3_index virt; Addr.p2_index virt] σ T F u (u, []) (Addr.p1_index virt));
    [done|done|done|done|done| |].
  - intros Hw. unfold translate at 1 2. rewrite indices_split, Hw. done.
  - intros c l Hc Hl Hreach. destruct (pt_table _ _ _ _ Hpt _ _ Hc) as (_ & Hc4 & _).
    destruct (pt_entry _ _ _ _ Hpt _ _ _ Hc H1) as (e & E & _).
    assert (translate σ u virt = if is_present e then Some (e, []) else None) as Htr.
    { unfold translate. rewrite indices_split, (walk_reaches _ _ _ c) by done. cbn [walk]. rewrite E.
      cbn [mbind option_bind]. by destruct (is_present e). }
    apply wp_bind, (wp_ld _ e); [by apply slot_aligned|exact E|].
    destruct (is_present e) eqn:Hp; simpl.
    + destruct (store_entry_ok σ K T F u virt c l 0) as (Hpt4 & Hnew & Hold); [done..|].
      apply wp_bind, wp_sd; [by apply slot_aligned|by eauto|]. apply wp_ret.
      rewrite Htr. split_and!; [exact Hpt4|by eexists|done|exact Hnew|exact Hold].
    + apply wp_ret. rewrite Htr. done.
Qed.

(** ** Address spaces *)

(** The loop that copies the upper half of table [K] to table [a]. *)
Lemma copy_ok σ K a (Q : unit → mm → Prop) : K mod 4096 = 0 → a mod 4096 = 0 → a ≠ K →
  (∀ i, 0 ≤ i < 512 → is_Some (mem σ !! slot K i) ∧ is_Some (mem σ !! slot a i)) →
  (∀ m, (∀ i, 256 ≤ i < 512 → m !! slot a i = mem σ !! slot K i) →
    (∀ x, (∀ i, 256 ≤ i < 512 → x ≠ slot a i) → m !! x = mem σ !! x) → Q tt (set_mem m σ)) →
  wp (for_range 256 256 (λ i, e ← ld (K + HHDM_OFFSET + 8 * i); sd (a + HHDM_OFFSET + 8 * i) e)) Q σ.
Proof.
  intros HK Ha Hne Hmap HQ.
  apply (wp_for_range (λ i τ, ∃ m, τ = set_mem m σ ∧ (∀ j, 256 ≤ j < i → m !! slot a j = mem σ !! slot K j) ∧
    (∀ x, (∀ j, 256 ≤ j < i → x ≠ slot a j) → m !! x = mem σ !! x))).
  - exists (mem σ). split; [by destruct σ|]. split; [lia|done].
  - intros i τ Hi (m & -> & H1 & H2). change (Z.of_nat 256) with 256 in Hi.
    change (K + HHDM_OFFSET + 8 * i) with (slot K i). change (a + HHDM_OFFSET + 8 * i) with (slot a i).
    destruct (Hmap i) as [[e He] Hsa]; [lia|].
    assert (m !! slot K i = Some e) as HeK.
    { rewrite H2; [done|]. intros j Hj Heq. apply slot_inj in Heq as [? _]; [by subst|done|done|lia|lia]. }
    apply wp_bind, (wp_ld _ e); [by apply slot_aligned|done|]. apply wp_sd; [by apply slot_aligned| |].
    { cbn [mem set_mem]. rewrite H2; [done|]. intros j Hj Heq. unfold slot in Heq. lia. }
    exists (<[slot a i := e]> m). split; [done|]. split.
    + intros j Hj. destruct (decide (j = i)) as [->|]; [by rewrite lookup_insert_eq|].
      rewrite lookup_insert_ne by (unfold slot; lia). apply H1. lia.
    + intros x Hx. rewrite lookup_insert_ne; [apply H2; intros j Hj; apply Hx; lia|].
      intros <-. apply (Hx i); [lia|done].
  - intros τ (m & -> & H1 & H2). apply HQ; [exact H1|exact H2].
Qed.

(** A root whose lower half is empty and whose upper half is that of [K]. *)
Lemma new_root_ok σ K T F a m : pt_ok σ K T F → T !! a = None → 0 ≤ a < 2 ^ 47 → a mod 4096 = 0 →
  F (a / 4096) = false →
  (∀ i, 0 ≤ i < 512 → mem σ !! slot a i = Some 0 ∧ ¬ in_bitmap (fra σ) (slot a i)) →
  (∀ i, 256 ≤ i < 512 → m !! slot a i = mem σ !! slot K i) →
  (∀ x, (∀ i, 256 ≤ i < 512 → x ≠ slot a i) → m !! x = mem σ !! x) →
  pt_ok (set_mem m σ) K (<[a := (a, [])]> T) F ∧
  (∀ i, 0 ≤ i < 256 → m !! slot a i = Some 0) ∧
  ∀ t l i, T !! t = Some l → 0 ≤ i < 512 → m !! slot t i = mem σ !! slot t i.
Proof.
  intros [Hb HK Hroot Htab Hap Hent Hfree] Hfresh Har Ham HFa Hz Hcopy Hrest. set (T' := <[a := (a, [])]> T).
  assert (T ⊆ T') as Hsub by by apply insert_subseteq.
  assert (∀ t i, t mod 4096 = 0 → t ≠ a → 0 ≤ i < 512 → m !! slot t i = mem σ !! slot t i) as Hother.
  { intros t i Ht4 Hta Hi. apply Hrest. intros j Hj Heq.
    apply slot_inj in Heq as [-> _]; [done|done|done|done|lia]. }
  assert (∀ t l i, T !! t = Some l → 0 ≤ i < 512 → m !! slot t i = mem σ !! slot t i) as Hold.
  { intros t l i Ht Hi. destruct (Htab t l Ht) as (_ & Ht4 & _). apply Hother; [done| |done]. intros ->. congruence. }
  assert (∀ i, 0 ≤ i < 256 → m !! slot a i = Some 0) as Hlow.
  { intros i Hi. rewrite Hrest; [apply Hz; lia|]. intros j Hj Heq. unfold slot in Heq. lia. }
  split; [split|by split].
  - apply bitmap_ok_mem; [done|]. intros x Hx. apply Hrest. intros j Hj ->. destruct (Hz j); [lia|done].
  - by eapply lookup_weaken.
  - intros t r. unfold T'. rewrite lookup_insert_Some. intros [[<- [= <-]]|[_ H]]; [done|by apply Hroot].
  - intros t l. unfold T'. rewrite lookup_insert_Some. intros [[<- <-]|[_ H]]; [|by apply Htab].
    simpl. split_and!; [lia|done|lia|lia|done].
  - intros t l i. unfold T'. rewrite lookup_insert_Some. intros [[<- <-]|[_ H]] Hi; [by apply Hz|by eapply Hap].
  - intros t l i. unfold T'. rewrite lookup_insert_Some. intros [[<- <-]|[_ H]] Hi; cbn [mem set_mem].
    + destruct (decide (i < 256)); [exists 0; by rewrite Hlow by lia|].
      destruct (Hent K _ i HK Hi) as (e & E & He). exists e. rewrite Hcopy by lia. split; [done|].
      intros Hlt Hp. specialize (He Hlt Hp). destruct (is_huge e); [done|]. destruct He as (l' & Hl' & [Hl2 Hl1]).
      exists l'. split; [by eapply lookup_weaken|]. split; [done|]. right. simpl in *. split_and!; [done| |lia].
      by destruct Hl1 as [->|(_ & -> & _)].
    + rewrite (Hold t l i) by done. destruct (Hent t l i H Hi) as (e & E & He). exists e. split; [done|].
      by apply (entry_ok_mono _ T).
  - intros g Hg. destruct (Hfree g Hg) as [Hgr Hgw]. split; [done|]. intros i Hi. destruct (Hgw i Hi) as [Hs Hn].
    split; [|done]. cbn [mem set_mem]. rewrite Hother; [done|apply Z.mod_mul; lia| |done].
    intros <-. rewrite Z.div_mul in HFa by lia. congruence.
Qed.

Lemma create_user_pml4_ok σ K T F : pt_ok σ K T F → KERNEL_PAGE_TABLE σ = K →
  wp create_user_pml4 (λ r σ', ∃ T' F', pt_ok σ' K T' F' ∧ T ⊆ T' ∧ (∃ m, σ' = set_mem m σ) ∧
    (∀ u v, T !! u = Some (u, []) → translate σ' u v = translate σ u v) ∧
    match r with
    | Some u => T !! u = None ∧ T' !! u = Some (u, []) ∧
        ∀ v, translate σ' u v = if Addr.p4_index v <? 256 then None else translate σ K v
    | None => ∀ f, F' f = false
    end) σ.
Proof.
  intros Hpt HKσ. unfold create_user_pml4. apply (wp_new_table σ K T F); [done| |].
  { intros Hno. exists T, F. split_and!; try done. exists (mem σ). by destruct σ. }
  intros f σ1 Hf [Hfresh [Har Ham] Hz Hnb [m1 ->] Hsame] Hpt1. set (a := f * 4096) in *.
  pose proof Hpt1 as [_ HK _ Htab _ Hent _]. destruct (Htab K _ HK) as (_ & HK4 & HKr & _).
  assert (a ≠ K) as HaK by (intros ->; congruence).
  apply wp_bind, wp_get. cbn [KERNEL_PAGE_TABLE set_mem]. rewrite HKσ, !lor_hhdm by done.
  apply wp_bind. apply copy_ok; [done|done|done| |].
  { intros i Hi. destruct (Hent K _ i HK Hi) as (e & E & _). split; [by eauto|]. rewrite Hz by done. by eauto. }
  intros m Hcopy Hrest. apply wp_ret.
  destruct (new_root_ok _ K T (upd F f false) a m Hpt1) as (Hpt' & Hlow & Hold); try done.
  { unfold upd. subst a. by rewrite Z.div_mul, Z.eqb_refl by lia. }
  { intros i Hi. split; [by apply Hz|by apply Hnb]. }
  assert (∀ idx t l, T !! t = Some l → (length l.2 + length idx = 4)%nat → Forall in_table idx →
    walk m t idx = walk (mem σ) t idx) as Hwalk.
  { intros idx t l Ht Hl Hidx. trans (walk m1 t idx).
    - by apply (walk_same m1 m K T Hent Hold idx t l).
    - by apply (walk_same (mem σ) m1 K T (pt_tables _ _ _ _ Hpt) Hsame idx t l). }
  exists (<[a := (a, [])]> T), (upd F f false). split; [exact Hpt'|]. split; [by apply insert_subseteq|].
  split; [by eexists|]. split; [|split; [done|]; split; [apply lookup_insert_eq|]].
  - intros u v Hu. apply (Hwalk _ _ (u, [])); [done|done|apply index_range].
  - intros v. pose proof (index_range v) as Hidx. unfold translate.
    rewrite <- (Hwalk _ K (K, [])) by (done || lia). unfold indices in *. apply Forall_cons in Hidx as [H4 _].
    cbn [mem set_mem]. cbn [walk]. destruct (Z.ltb_spec (Addr.p4_index v) 256).
    + rewrite Hlow by lia. done.
    + rewrite Hcopy by lia. by rewrite (Hold K _ _ HK H4).
Qed.

(** ** Ranges *)

Lemma page_distinct v i j : 0 ≤ i < j → j < 2 ^ 36 → page (v + 4096 * i) ≠ page (v + 4096 * j).
Proof.
  intros Hi Hj. unfold page. rewrite !(Z.mul_comm 4096), !Z.div_add by lia. intros H.
  assert ((j - i) mod 2 ^ 36 = 0) as H0.
  { replace (j - i) with ((v / 4096 + j) - (v / 4096 + i)) by lia. by rewrite Zminus_mod, <- H, Z.sub_diag. }
  rewrite Z.mod_small in H0 by lia. lia.
Qed.

(** From [σ] to [σ'] the first [n] pages from [virt] were mapped, and no others. *)
Definition range_mapped (T : gmap Z label) (u virt phys flags n : Z) (σ σ' : mm) : Prop :=
  (∀ i, 0 ≤ i < n →
    translate σ' u (virt + 4096 * i) = Some (set_addr (phys + 4096 * i) (Z.lor flags PRESENT), [])) ∧
  ∀ u' v, T !! u' = Some (u', []) → (∀ i, 0 ≤ i < n → elsewhere u (virt + 4096 * i) u' v) →
    translate σ' u' v = translate σ u' v.

Lemma range_mapped_nil T u virt phys flags σ σ' :
  (∀ u' v, T !! u' = Some (u', []) → translate σ' u' v = translate σ u' v) →
  range_mapped T u virt phys flags 0 σ σ'.
Proof. intros H. split; [lia|]. intros u' v Hu' _. by apply H. Qed.

Lemma range_mapped_cons T T1 u virt phys flags n σ σ1 σ' :
  T ⊆ T1 → T !! u = Some (u, []) → 0 ≤ n < 2 ^ 36 - 1 →
  translate σ1 u virt = Some (set_addr phys (Z.lor flags PRESENT), []) →
  (∀ u' v, T !! u' = Some (u', []) → elsewhere u virt u' v → translate σ1 u' v = translate σ u' v) →
  range_mapped T1 u (virt + 0x1000) (phys + 0x1000) flags n σ1 σ' →
  range_mapped T u virt phys flags (n + 1) σ σ'.
Proof.
  intros Hsub Hu Hn Hnew Hold [Hmap Hrest]. split.
  - intros i Hi. destruct (decide (i = 0)) as [->|].
    + rewrite !Z.add_0_r. rewrite Hrest; [done|by eapply lookup_weaken|]. intros j Hj. left.
      replace (virt + 0x1000 + 4096 * j) with (virt + 4096 * (j + 1)) by lia.
      replace virt with (virt + 4096 * 0) at 1 by lia. apply page_distinct; lia.
    + replace (virt + 4096 * i) with (virt + 0x1000 + 4096 * (i - 1)) by lia.
      replace (phys + 4096 * i) with (phys + 0x1000 + 4096 * (i - 1)) by lia. apply Hmap. lia.
  - intros u' v Hu' Hel. rewrite Hrest; [apply Hold; [done|]|by eapply lookup_weaken|].
    + specialize (Hel 0). rewrite Z.add_0_r in Hel. apply Hel. lia.
    + intros i Hi. replace (virt + 0x1000 + 4096 * i) with (virt + 4096 * (i + 1)) by lia. apply Hel. lia.
Qed.

(** What a loop over pages leaves: all pages mapped, or a part when no frame is
    left for a table. *)
Definition pages_done (K : Z) (T : gmap Z label) (u virt phys flags n : Z) (ok : bool) (σ σ' : mm) : Prop :=
  ∃ T' F' j, pt_ok σ' K T' F' ∧ T ⊆ T' ∧ (∃ m, σ' = set_mem m σ) ∧ range_mapped T u virt phys flags j σ σ' ∧
    if ok then j = n else 0 ≤ j < n ∧ ∀ f, F' f = false.

Lemma pages_done_cons K T T1 u virt phys flags n ok σ σ1 σ' :
  T ⊆ T1 → T !! u = Some (u, []) → 0 ≤ n < 2 ^ 36 - 1 → (∃ m, σ1 = set_mem m σ) →
  translate σ1 u virt = Some (set_addr phys (Z.lor flags PRESENT), []) →
  (∀ u' v, T !! u' = Some (u', []) → elsewhere u virt u' v → translate σ1 u' v = translate σ u' v) →
  pages_done K T1 u (virt + 0x1000) (phys + 0x1000) flags n ok σ1 σ' →
  pages_done K T u virt phys flags (n + 1) ok σ σ'.
Proof.
  intros Hsub Hu Hn [m ->] Hnew Hold (T' & F' & j & Hpt & Hs & [m' ->] & Hr & Hok). exists T', F', (j + 1).
  assert (0 ≤ j ≤ n) by (destruct ok; lia).
  split_and!; [done|by trans T1|by eexists| |destruct ok; [lia|split; [lia|apply Hok]]].
  eapply range_mapped_cons; [done|done|lia|done|done|done].
Qed.

(** No huge page among the [n] pages from [virt]. *)
Definition plain_range (σ : mm) (u virt n : Z) : Prop :=
  ∀ i, 0 ≤ i < n → plain (mem σ) u (indices (virt + 4096 * i)).

Lemma plain_range_cons (T : gmap Z label) σ σ1 u virt n : T !! u = Some (u, []) → 0 ≤ n < 2 ^ 36 - 1 →
  (∀ u' v, T !! u' = Some (u', []) → elsewhere u virt u' v → translate σ1 u' v = translate σ u' v) →
  plain_range σ u virt (n + 1) → plain_range σ1 u (virt + 0x1000) n.
Proof.
  intros Hu Hn Hold Hpl i Hi. replace (virt + 0x1000 + 4096 * i) with (virt + 4096 * (i + 1)) by lia.
  intros e rest. change (walk (mem σ1) u (indices ?v)) with (translate σ1 u v). rewrite Hold; [|done|].
  - apply (Hpl (i + 1)). lia.
  - left. rewrite <- (Z.add_0_r virt) at 2. rewrite <- (Z.mul_0_r 4096).
    intros H. symmetry in H. revert H. apply page_distinct; lia.
Qed.

Lemma map_pages_ok K u flags n σ T F virt phys : pt_ok σ K T F → T !! u = Some (u, []) →
  plain_range σ u virt (Z.of_nat n) →
  Z.of_nat n < 2 ^ 36 → 0 ≤ virt → virt + 4096 * Z.of_nat n < 2 ^ 64 → 0 ≤ phys → phys + 4096 * Z.of_nat n < 2 ^ 64 →
  wp (map_pages n u virt phys flags) (λ r σ',
    pages_done K T u virt phys flags (Z.of_nat n) (if r then true else false) σ σ') σ.
Proof.
  revert σ T F virt phys. induction n as [|n IH]; intros σ T F virt phys Hpt Hu Hpl Hn Hv0 Hv Hp0 Hp; cbn [map_pages].
  { apply wp_ret. exists T, F, 0. split_and!; [done|done|exists (mem σ); by destruct σ|by apply range_mapped_nil|done]. }
  rewrite Nat2Z.inj_succ, <- Z.add_1_r in *.
  apply wp_bind. wp_call (map_page_ok σ K T F); [done|done| |].
  { specialize (Hpl 0 ltac:(lia)). by rewrite Z.mul_0_r, Z.add_0_r in Hpl. }
  intros [[]|] σ1 (T1 & F1 & Hpt1 & [Hsub _ _] & Hst & H1).
  - destruct H1 as [Hnew Hold].
    apply wp_bind, (wp_lift (virt + 0x1000)); [apply checked_ok; lia|].
    apply wp_bind, (wp_lift (phys + 0x1000)); [apply checked_ok; lia|].
    wp_call IH; [done|by eapply lookup_weaken|by eapply (plain_range_cons T); [| lia| |]|lia..|]. intros r σ' Hd.
    eapply (pages_done_cons K T T1); try done; lia.
  - destruct H1 as [Hno Hold]. apply wp_ret. exists T1, F1, 0. split_and!; try done; try lia.
    by apply range_mapped_nil.
Qed.

Lemma map_mmio_pages_ok K u n i σ T F virt phys : pt_ok σ K T F → T !! u = Some (u, []) →
  plain_range σ u (virt + i * 0x1000) (Z.of_nat n) →
  Z.of_nat n < 2 ^ 36 → 0 ≤ i → 0 ≤ virt → 0 ≤ phys →
  virt + (i + Z.of_nat n) * 4096 ≤ 2 ^ 64 → phys + (i + Z.of_nat n) * 4096 ≤ 2 ^ 64 →
  wp (map_mmio_pages n i u virt phys) (λ r σ',
    pages_done K T u (virt + i * 0x1000) (phys + i * 0x1000) (Z.lor (Z.lor WRITABLE NO_CACHE) WRITE_THROUGH)
      (Z.of_nat n) (match r with Ok _ => true | Err _ => false end) σ σ' ∧
    ∀ e, r = Err e → e = "Failed to map MMIO page"%string) σ.
Proof.
  revert i σ T F. induction n as [|n IH]; intros i σ T F Hpt Hu Hpl Hn Hi Hv0 Hp0 Hv Hp; cbn [map_mmio_pages].
  { apply wp_ret. split; [|done]. exists T, F, 0.
    split_and!; [done|done|exists (mem σ); by destruct σ|by apply range_mapped_nil|done]. }
  rewrite Nat2Z.inj_succ, <- Z.add_1_r in *.
  apply wp_bind, (wp_lift (virt + i * 0x1000)); [apply checked_ok; lia|].
  apply wp_bind, (wp_lift (phys + i * 0x1000)); [apply checked_ok; lia|].
  apply wp_bind. wp_call (map_page_ok σ K T F); [done|done| |].
  { specialize (Hpl 0 ltac:(lia)). by rewrite Z.mul_0_r, Z.add_0_r in Hpl. }
  intros [[]|] σ1 (T1 & F1 & Hpt1 & [Hsub _ _] & Hst & H1).
  - destruct H1 as [Hnew Hold]. wp_call IH; [done|by eapply lookup_weaken| |lia..|].
    { replace (virt + (i + 1) * 0x1000) with (virt + i * 0x1000 + 0x1000) by lia.
      eapply (plain_range_cons T); [done|lia|exact Hold|done]. }
    intros r σ' [Hd He]. split; [|done]. eapply (pages_done_cons K T T1); try done; [lia|].
    replace (virt + i * 0x1000 + 0x1000) with (virt + (i + 1) * 0x1000) by lia.
    by replace (phys + i * 0x1000 + 0x1000) with (phys + (i + 1) * 0x1000) by lia.
  - destruct H1 as [Hno Hold]. apply wp_ret. split; [|by intros e [= <-]]. exists T1, F1, 0.
    split_and!; try done; try lia. by apply range_mapped_nil.
Qed.

(** ** Theorems *)

(** C2. Mapping a page. In a state with intact tables, for a page that is not in
    a huge page ([plain]), [map_page] returns and keeps the tables intact. The
    tables it adds are on frames that were free ([taken]). On success the
    processor translates the page to the frame and flags given, and every other
    page of every address space as before; a page of the lower half changes in
    its own address space only. It fails only when no frame is free, and then
    no translation has changed. *)
Theorem map_page_correct σ K T F u virt phys flags : pt_ok σ K T F → T !! u = Some (u, []) →
  plain (mem σ) u (indices virt) →
  ∃ r σ' T' F', map_page u virt phys flags σ = Some (r, σ') ∧ pt_ok σ' K T' F' ∧ taken T F T' F' ∧
    match r with
    | Some _ => translate σ' u virt = Some (set_addr phys (Z.lor flags PRESENT), []) ∧
        ∀ u' v, T !! u' = Some (u', []) → page v ≠ page virt ∨ u' ≠ u ∧ Addr.p4_index virt < 256 →
          translate σ' u' v = translate σ u' v
    | None => (∀ f, F' f = false) ∧ ∀ u' v, T !! u' = Some (u', []) → translate σ' u' v = translate σ u' v
    end.
Proof.
  intros Hpt Hu Hpl. destruct (wp_result _ _ _ (map_page_ok σ K T F u virt phys flags Hpt Hu Hpl))
    as (r & σ' & E & T' & F' & H1 & H2 & _ & H3). by exists r, σ', T', F'.
Qed.

(** C31. Unmapping. For a page that is not in a huge page ([plain]) and flags
    outside the address bits: after a successful [map_page] of the page,
    [unmap_page] returns the frame it was mapped to, the page is not translated
    any more, and all other pages are as they were before both; a second
    [unmap_page] returns nothing and changes no translation. *)
Theorem map_unmap_roundtrip σ K T F u virt phys flags σ1 : pt_ok σ K T F → T !! u = Some (u, []) →
  plain (mem σ) u (indices virt) → Z.land flags ADDR_MASK = 0 →
  map_page u virt phys flags σ = Some (Some tt, σ1) →
  (∃ σ2, unmap_page u virt σ1 = Some (Some (Z.land phys ADDR_MASK), σ2) ∧ translate σ2 u virt = None ∧
    (∀ u' v, T !! u' = Some (u', []) → elsewhere u virt u' v → translate σ2 u' v = translate σ u' v) ∧
    ∃ σ3, unmap_page u virt σ2 = Some (None, σ3) ∧
      ∀ v, translate σ3 u v = translate σ2 u v).
Proof.
  intros Hpt Hu Hpl Hfl E1. pose proof (map_page_ok σ K T F u virt phys flags Hpt Hu Hpl) as Hm.
  unfold wp in Hm. rewrite E1 in Hm. destruct Hm as (T1 & F1 & Hpt1 & [Hsub _ _] & _ & Hnew & Hold).
  assert (T1 !! u = Some (u, [])) as Hu1 by by eapply lookup_weaken.
  assert (plain (mem σ1) u (indices virt)) as Hpl1.
  { intros e rest. change (walk _ u _) with (translate σ1 u virt). rewrite Hnew. by intros [= _ <-]. }
  destruct (wp_result _ _ _ (unmap_page_ok σ1 K T1 F1 u virt Hpt1 Hu1 Hpl1))
    as (r & σ2 & E2 & Hpt2 & _ & -> & Hn2 & Hold2).
  assert (plain (mem σ2) u (indices virt)) as Hpl2.
  { intros e rest. change (walk _ u _) with (translate σ2 u virt). by rewrite Hn2. }
  destruct (wp_result _ _ _ (unmap_page_ok σ2 K T1 F1 u virt Hpt2 Hu1 Hpl2))
    as (r & σ3 & E3 & _ & _ & -> & Hn3 & Hold3).
  exists σ2. rewrite E2, Hnew, Hn2 in *. split_and!; [|done| |].
  - do 3 f_equal. simpl. unfold get_addr, set_addr.
    rewrite !Z.land_lor_distr_l, Hfl, <- Z.land_assoc, Z.land_diag, Z.lor_0_l.
    change (Z.land PRESENT ADDR_MASK) with 0. by rewrite Z.lor_0_r.
  - intros u' v Hu' Hel. rewrite Hold2; [by apply Hold|by eapply lookup_weaken|done].
  - exists σ3. split; [done|]. intros v. destruct (decide (page v = page virt)) as [Hp|].
    + apply indices_page in Hp. unfold translate in *. by rewrite Hp, Hn3.
    + apply Hold3; [done|by left].
Qed.


Lemma pt_ok_mmio σ K T F l u c : pt_ok σ K T F → pt_ok (set_mmio l u c σ) K T F.
Proof. intros [[]]. split; [split|..]; done. Qed.

Definition device_flags : Z := Z.lor (Z.lor WRITABLE NO_CACHE) WRITE_THROUGH.

(** Device memory. [map_mmio] returns the start of the unused part of the
    window and moves it by the size rounded up to pages, so that ranges it has
    returned do not overlap and stay below the upper bound; the pages translate
    to the device with caching off, and no others change. When the window is too
    small it changes nothing; when no frame is left for a table the window stays
    and a part of the pages may be mapped. *)
Theorem map_mmio_correct σ K T F u phys size : pt_ok σ K T F → T !! u = Some (u, []) →
  let n := (size + 0xFFF) / 0x1000 in
  0 ≤ size < 2 ^ 47 → 0 ≤ phys < 2 ^ 52 → 0 ≤ MMIO_CURRENT σ → MMIO_CURRENT σ + 4096 * n < 2 ^ 64 →
  plain_range σ u (MMIO_CURRENT σ) n →
  ∃ r σ', map_mmio u phys size σ = Some (r, σ') ∧ (∃ T' F', pt_ok σ' K T' F' ∧ T ⊆ T') ∧
    match r with
    | Ok v => v = MMIO_CURRENT σ ∧ size ≤ 4096 * n ∧ v + 4096 * n ≤ MMIO_UPPER σ ∧
        MMIO_CURRENT σ' = v + 4096 * n ∧ range_mapped T u v phys device_flags n σ σ'
    | Err e => MMIO_CURRENT σ' = MMIO_CURRENT σ ∧
        (e = "MMIO region exhausted"%string ∧ σ' = σ ∧ MMIO_UPPER σ < MMIO_CURRENT σ + 4096 * n ∨
         e = "Failed to map MMIO page"%string ∧ ∃ j, 0 ≤ j < n ∧
           range_mapped T u (MMIO_CURRENT σ) phys device_flags j σ σ')
    end.
Proof.
  intros Hpt Hu n Hsz Hph Hc Hfin Hpl. assert (0 ≤ n ≤ 2 ^ 35 ∧ size ≤ 4096 * n) as [Hn Hsn] by (subst n; divlia).
  apply (wp_result _ (λ r σ', (∃ T' F', pt_ok σ' K T' F' ∧ T ⊆ T') ∧ _)).
  unfold map_mmio. apply wp_bind, (wp_lift (size + 0xFFF)); [apply checked_ok; lia|]. fold n. wp_steps.
  apply (wp_lift (MMIO_CURRENT σ + n * 0x1000)); [apply checked_ok; lia|].
  destruct (Z.ltb_spec (MMIO_UPPER σ) (MMIO_CURRENT σ + n * 0x1000)).
  { apply wp_ret. split; [by exists T, F|]. split; [done|]. left. split_and!; [done|done|lia]. }
  apply wp_bind. wp_call (map_mmio_pages_ok K u (Z.to_nat n) 0 σ T F); [done|done| |lia..|].
  { by rewrite Z2Nat.id, Z.mul_0_l, Z.add_0_r by lia. }
  intros r σ1 [Hd He]. rewrite Z2Nat.id, Z.mul_0_l, !Z.add_0_r in Hd by lia.
  destruct Hd as (T1 & F1 & j & Hpt1 & Hsub & [m ->] & Hr & Hj). destruct r as [[]|e].
  - subst j. wp_steps. cbn [MMIO_CURRENT set_mem].
    apply (wp_lift (MMIO_CURRENT σ + n * 0x1000)); [apply checked_ok; lia|]. wp_steps.
    split; [exists T1, F1; split; [by apply pt_ok_mmio|done]|]. split_and!; [done|done|lia|simpl; lia|exact Hr].
  - apply wp_ret. split; [by exists T1, F1|]. split; [done|]. right. split; [by apply He|].
    exists j. split; [apply Hj|done].
Qed.

(** ** A state *)

(** Eight frames: the bitmap in frame 0, the root in frame 1, the last four free. *)
Definition demo_pt : mm :=
  Mm (<[HHDM_OFFSET := 0xF0]> (words_at HHDM_OFFSET 4096)) (Frames HHDM_OFFSET 8 1) 0x1000 0x1000
    0xFFFF900000000000 0xFFFF900000010000 0xFFFF900000000000.
Definition demo_free (f : Z) : bool := (4 <=? f) && (f <? 8).
Definition demo_tables : gmap Z label := {[ 0x1000 := (0x1000, []) ]}.

Lemma demo_pt_word f i : 1 ≤ f < 8 → 0 ≤ i < 512 → mem demo_pt !! slot (f * 4096) i = Some 0.
Proof.
  intros Hf Hi. unfold slot. cbn [mem demo_pt]. rewrite lookup_insert_ne by lia.
  replace (f * 4096 + HHDM_OFFSET + 8 * i) with (HHDM_OFFSET + 8 * (f * 512 + i)) by lia. apply words_at_lookup. lia.
Qed.

Lemma demo_pt_ok : pt_ok demo_pt 0x1000 demo_tables demo_free.
Proof.
  unfold demo_tables. split.
  - split; [done|done|done|unfold demo_free; simpl; lia|]. intros i Hi. cbn [fra demo_pt BITMAP_SIZE] in Hi.
    assert (i = 0) as -> by lia. exists 0xF0. split; [apply lookup_insert_eq|]. split; [lia|].
    intros b Hb. unfold demo_free. destruct (decide (b < 8)).
    + assert (b = 0 ∨ b = 1 ∨ b = 2 ∨ b = 3 ∨ b = 4 ∨ b = 5 ∨ b = 6 ∨ b = 7) as Hcase by lia.
      by destruct_or! Hcase; subst.
    + rewrite (testbit_small 8) by lia. symmetry. apply andb_false_iff. lia.
  - done.
  - intros t r [<- [= <-]]%lookup_singleton_Some. done.
  - intros t l [<- <-]%lookup_singleton_Some. simpl. split_and!; done || lia.
  - intros t l i [<- <-]%lookup_singleton_Some Hi. unfold in_bitmap, slot. simpl. unfold HHDM_OFFSET. lia.
  - intros t l i [<- <-]%lookup_singleton_Some Hi. exists 0. by split; [apply (demo_pt_word 1)|].
  - intros f Hf. unfold demo_free in Hf. assert (4 ≤ f < 8) by lia. split; [lia|]. intros i Hi.
    split; [rewrite demo_pt_word by lia; by eauto|]. unfold in_bitmap, slot. cbn [fra demo_pt FRAME_BITMAP BITMAP_SIZE]. lia.
Qed.

Lemma demo_pt_plain v : plain (mem demo_pt) 0x1000 (indices v).
Proof.
  intros e rest. pose proof (index_range v) as [H _]%Forall_cons. pose proof (demo_pt_word 1 _ ltac:(lia) H) as E.
  change (1 * 4096) with 0x1000 in E. unfold indices. cbn [walk]. rewrite E. cbn [mbind option_bind]. discriminate.
Qed.

Lemma map_page_correct_witness : ∃ σ', map_page 0x1000 0x400000 0x5000 3 demo_pt = Some (Some tt, σ') ∧
  translate σ' 0x1000 0x400000 = Some (set_addr 0x5000 3, []).
Proof.
  destruct (succeeds_result (map_page 0x1000 0x400000 0x5000 3) demo_pt) as ([] & σ1 & E1);
    [vm_compute; reflexivity|].
  destruct (map_page_correct demo_pt _ _ _ 0x1000 0x400000 0x5000 3 demo_pt_ok eq_refl (demo_pt_plain _))
    as (r & σ' & T' & F' & E & _ & _ & H).
  rewrite E1 in E. injection E as <- <-. exists σ1. split; [exact E1|exact (proj1 H)].
Defined.

Lemma map_unmap_roundtrip_witness : ∃ σ1 σ2, map_page 0x1000 0x400000 0x5000 3 demo_pt = Some (Some tt, σ1) ∧
  unmap_page 0x1000 0x400000 σ1 = Some (Some 0x5000, σ2).
Proof.
  destruct (succeeds_result (map_page 0x1000 0x400000 0x5000 3) demo_pt) as ([] & σ1 & E);
    [vm_compute; reflexivity|].
  destruct (map_unmap_roundtrip demo_pt _ _ _ 0x1000 0x400000 0x5000 3 σ1 demo_pt_ok eq_refl (demo_pt_plain _) eq_refl E)
    as (σ2 & E2 & _). exists σ1, σ2. split; [exact E|exact E2].
Defined.


Lemma map_mmio_correct_witness : ∃ r σ', map_mmio 0x1000 0xFEC00000 0x1000 demo_pt = Some (r, σ').
Proof.
  destruct (map_mmio_correct demo_pt 0x1000 demo_tables demo_free 0x1000 0xFEC00000 0x1000 demo_pt_ok eq_refl)
    as (r & σ' & E & _); [lia|lia|done|by vm_compute|intros i _; apply demo_pt_plain|].
  exists r, σ'. exact E.
Defined.

(** ** Huge pages

    [get_or_create_table] follows an entry that is present without looking at
    its HUGE bit. *)

(** Memory below 1 GiB is mapped at [HHDM_OFFSET] by one huge page; the root is
    in frame 1, the next table in frame 2, and frames 4 to 7 are free. *)
Definition demo_huge : mm :=
  Mm (<[slot 0x1000 256 := 0x2003]> (<[slot 0x2000 0 := 0x83]>
      (<[slot 0x3000 0 := 0xF0]> (words_at HHDM_OFFSET 4096))))
    (Frames (slot 0x3000 0) 8 1) 0x1000 0x1000 HHDM_OFFSET (HHDM_OFFSET + 0xFFFFFFFF) HHDM_OFFSET.

(** The translation of the page returned, and the word at physical address 0. *)
Definition seen_after (o : option (Result Z * mm)) : option (option (Z * list Z) * option Z) :=
  match o with
  | Some (Ok v, σ) => Some (translate σ 0x1000 v, mem σ !! HHDM_OFFSET)
  | _ => None
  end.

(** A page inside a huge page. When the window of device memory lies in a
    region that is mapped by a huge page, [map_mmio] reports success, but the
    processor translates the page as before, and the entry that should have been
    made overwrites memory that the huge page maps. *)
Theorem map_mmio_huge :
  translate demo_huge 0x1000 HHDM_OFFSET = Some (0x83, [0; 0]) ∧ mem demo_huge !! HHDM_OFFSET = Some 0 ∧
  seen_after (map_mmio 0x1000 0xFEE00000 0x1000 demo_huge) = Some (Some (0x83, [0; 0]), Some 0x4007).
Proof. split; [vm_compute; reflexivity|split; vm_compute; reflexivity]. Qed.
