(* ===== verification/KHeap.v ===== *)
(** * The kernel heap

    Models memory/src/allocator.rs, the global allocator of the kernel: blocks
    with a header of three words, carved from the heap in increasing order, and
    a doubly linked list of the blocks given back, searched first fit. Then
    [sbrk], which moves the end of the same heap.

    The invariant [heap_ok] relates the headers in memory to the blocks and to
    the list of free ones. *)
From S2P Require Import Prelude Rust Frame.

Record heap := Heap {
  hmem : kmem;
  HEAP_START : Z;
  HEAP_SIZE : Z;
  HEAP_OFFSET : Z;
  head : Z;
  tail : Z;
  count : Z;
}.

Definition set_hmem (m : kmem) (σ : heap) : heap :=
  Heap m (HEAP_START σ) (HEAP_SIZE σ) (HEAP_OFFSET σ) (head σ) (tail σ) (count σ).
Definition set_offset (o : Z) (σ : heap) : heap :=
  Heap (hmem σ) (HEAP_START σ) (HEAP_SIZE σ) o (head σ) (tail σ) (count σ).
Definition set_head (p : Z) (σ : heap) : heap :=
  Heap (hmem σ) (HEAP_START σ) (HEAP_SIZE σ) (HEAP_OFFSET σ) p (tail σ) (count σ).
Definition set_tail (p : Z) (σ : heap) : heap :=
  Heap (hmem σ) (HEAP_START σ) (HEAP_SIZE σ) (HEAP_OFFSET σ) (head σ) p (count σ).
Definition set_count (n : Z) (σ : heap) : heap :=
  Heap (hmem σ) (HEAP_START σ) (HEAP_SIZE σ) (HEAP_OFFSET σ) (head σ) (tail σ) n.

Definition hld (a : Z) : ST heap Z := λ σ, w ← kload (hmem σ) a; Some (w, σ).
Definition hsd (a w : Z) : ST heap unit := λ σ, m ← kstore (hmem σ) a w; Some (tt, set_hmem m σ).

(** ** Blocks *)

(** The fields [size], [next] and [prev] of [LinkedListBlock]. *)
Definition f_size (block : Z) : Z := block.
Definition f_next (block : Z) : Z := block + 8.
Definition f_prev (block : Z) : Z := block + 16.
Definition BLOCK_SIZE : Z := 24.
Definition BLOCK_ALIGN : Z := 8.

Module LinkedList.
Definition push_back (block : Z) : ST heap unit :=
  _ ← hsd (f_next block) 0;
  t ← get tail;
  _ ← hsd (f_prev block) t;
  _ ← (if negb (t =? 0) then hsd (f_next t) block else modify (set_head block));
  _ ← modify (set_tail block);
  c ← get count;
  c ← lift (checked 64 (c + 1));
  modify (set_count c).

Definition pop_front : ST heap Z :=
  front ← get head;
  if front =? 0 then mret 0
  else
    n ← hld (f_next front);
    _ ← modify (set_head n);
    _ ← (if negb (n =? 0) then hsd (f_prev n) 0 else modify (set_tail 0));
    c ← get count;
    c ← lift (checked 64 (c - 1));
    _ ← modify (set_count c);
    mret front.

Definition remove (block : Z) : ST heap unit :=
  p ← hld (f_prev block);
  n ← hld (f_next block);
  _ ← (if p =? 0 then modify (set_head n) else hsd (f_next p) n);
  n ← hld (f_next block);
  p ← hld (f_prev block);
  _ ← (if n =? 0 then modify (set_tail p) else hsd (f_prev n) p);
  c ← get count;
  c ← lift (checked 64 (c - 1));
  modify (set_count c).

Definition is_empty : ST heap bool := get (λ σ, head σ =? 0).
End LinkedList.
Import LinkedList.

(** ** The allocator *)
Module LinkAllocator.
(** The [while] loop over the free list: the first block that is large enough,
    removed from the list. *)
Fixpoint find_fit (fuel : nat) (current size : Z) : ST heap (option Z) :=
  match fuel with
  | O => panic
  | S fuel =>
      if current =? 0 then mret None
      else
        s ← hld (f_size current);
        if size <=? s then
          _ ← remove current;
          mret (Some (current + BLOCK_SIZE))
        else
          n ← hld (f_next current);
          find_fit fuel n size
  end.

Definition alloc (size align : Z) : ST heap Z :=
  current ← get head;
  n ← get (λ σ, S (base.size (hmem σ)));
  r ← find_fit n current size;
  match r with
  | Some p => mret p
  | None =>
      start ← get HEAP_START;
      if start =? 0 then mret 0
      else
        let align := Z.max align BLOCK_ALIGN in
        off ← get HEAP_OFFSET;
        x ← lift (checked 64 (off + align));
        let aligned_offset := Z.land (x - 1) (not64 (align - 1)) in
        total_size ← lift (checked 64 (BLOCK_SIZE + size));
        fin ← lift (checked 64 (aligned_offset + total_size));
        limit ← get HEAP_SIZE;
        if limit <? fin then mret 0
        else
          let block := start + aligned_offset in
          _ ← hsd (f_size block) size;
          _ ← hsd (f_next block) 0;
          _ ← hsd (f_prev block) 0;
          _ ← modify (set_offset fin);
          mret (block + BLOCK_SIZE)
  end.

Definition dealloc (ptr : Z) : ST heap unit :=
  if ptr =? 0 then mret tt
  else push_back (ptr - BLOCK_SIZE).
End LinkAllocator.
Import LinkAllocator.

(** An [isize] in range, or a panic. *)
Definition checked_isize (x : Z) : option Z := if (- 2 ^ 63 <=? x) && (x <? 2 ^ 63) then Some x else None.

Definition sbrk (increment : Z) : ST heap Z :=
  start ← get HEAP_START;
  if start =? 0 then mret 0
  else
    off ← get HEAP_OFFSET;
    let current := s64 off in
    new_offset ← lift (checked_isize (current + increment));
    limit ← get HEAP_SIZE;
    if (new_offset <? 0) || (limit <? u64 new_offset) then mret 0
    else
      _ ← modify (set_offset (u64 new_offset));
      mret (start + u64 current).

Definition brk_current : ST heap Z :=
  start ← get HEAP_START;
  if start =? 0 then mret 0
  else
    off ← get HEAP_OFFSET;
    mret (start + off).

(** The first usable entry of more than 16 MiB. *)
Fixpoint find_heap (bitmap_size_bytes : Z) (entries : list Entry) : ST heap unit :=
  match entries with
  | [] => mret tt
  | e :: entries =>
      if usable e && (16 * 1024 * 1024 <? ent_length e) then
        heap_phys ← lift (checked 64 (ent_base e + bitmap_size_bytes));
        heap_len ← lift (checked 64 (ent_length e - bitmap_size_bytes));
        start ← lift (checked 64 (heap_phys + HHDM_OFFSET));
        modify (λ σ, Heap (hmem σ) start heap_len 0 (head σ) (tail σ) (count σ))
      else find_heap bitmap_size_bytes entries
  end.

Definition init_allocator (memory_map : list Entry) : ST heap unit :=
  _ ← modify (λ σ, Heap (hmem σ) (HEAP_START σ) (HEAP_SIZE σ) (HEAP_OFFSET σ) 0 0 0);
  top ← lift (max_addr memory_map);
  t ← lift (checked 64 (top + 4095));
  let total_frames := t / 4096 in
  let bitmap_size := (total_frames + 63) / 64 in
  let bitmap_size_bytes := Z.land (bitmap_size * 8 + 4095) (not64 4095) in
  _ ← find_heap bitmap_size_bytes memory_map;
  start ← get HEAP_START;
  if start =? 0 then panic else mret tt.

(** ** Linked segments

    [dseg m p l n]: the blocks [l] are linked in both directions, [p] before the
    first and [n] after the last. *)
Fixpoint dseg (m : kmem) (p : Z) (l : list Z) (n : Z) : Prop :=
  match l with
  | [] => True
  | a :: l => m !! f_next a = Some (hd n l) ∧ m !! f_prev a = Some p ∧ dseg m a l n
  end.

Definition lst (p : Z) (l : list Z) : Z := List.last l p.
#[global] Arguments lst : simpl never.

Lemma lst_app p l a : lst p (l ++ [a]) = a.
Proof. unfold lst. apply last_last. Qed.

Lemma lst_cons p a l : lst p (a :: l) = lst a l.
Proof.
  unfold lst. revert a p. induction l as [|b l IH]; intros a p; [done|].
  change (List.last (a :: b :: l) p) with (List.last (b :: l) p). by rewrite !IH.
Qed.

Lemma lst_app_list p l k : lst p (l ++ k) = lst (lst p l) k.
Proof. revert p. induction l as [|a l IH]; intros p; [done|]. by rewrite <- app_comm_cons, !lst_cons, IH. Qed.

Lemma hd_app (n : Z) l k : hd n (l ++ k) = hd (hd n k) l.
Proof. by destruct l. Qed.

Lemma dseg_app m p l k n : dseg m p (l ++ k) n ↔ dseg m p l (hd n k) ∧ dseg m (lst p l) k n.
Proof.
  revert p. induction l as [|a l IH]; intros p; simpl; [naive_solver|].
  rewrite lst_cons, IH, hd_app. naive_solver.
Qed.

(** A store to a word that is no link of the segment. *)
Lemma dseg_frame m p l n x w : (∀ a, a ∈ l → x ≠ f_next a ∧ x ≠ f_prev a) → dseg m p l n → dseg (<[x := w]> m) p l n.
Proof.
  revert p. induction l as [|a l IH]; intros p Hx; simpl; [done|]. intros (H1 & H2 & H3).
  destruct (Hx a) as [Hn Hp]; [by left|]. rewrite !lookup_insert_ne by done. split_and!; [done..|].
  apply IH; [|done]. intros b Hb. apply Hx. by right.
Qed.

(** Blocks that do not overlap. *)
Definition apart (l : list Z) : Prop := ∀ a b, a ∈ l → b ∈ l → a ≠ b → a + 24 ≤ b ∨ b + 24 ≤ a.

Lemma apart_sub l k : (∀ a, a ∈ k → a ∈ l) → apart l → apart k.
Proof. intros Hs Ha a b Hka Hkb. apply Ha; by apply Hs. Qed.

Lemma apart_links l a b : apart l → a ∈ l → b ∈ l → a ≠ b →
  f_next a ≠ f_next b ∧ f_next a ≠ f_prev b ∧ f_prev a ≠ f_prev b ∧ f_prev a ≠ f_next b.
Proof. intros Ha Hla Hlb Hne. destruct (Ha a b Hla Hlb Hne); unfold f_next, f_prev; lia. Qed.

(** Changing what comes after the last block, and before the first. *)
Lemma dseg_set_next m p l b n n' : NoDup (l ++ [b]) → apart (l ++ [b]) →
  dseg m p (l ++ [b]) n → dseg (<[f_next b := n']> m) p (l ++ [b]) n'.
Proof.
  intros Hnd Hap. rewrite !dseg_app. simpl. intros (H1 & _ & H2 & _). apply NoDup_app in Hnd as (_ & Hnd & _).
  assert (∀ a, a ∈ l → a ≠ b) as Hne by (intros a Ha ->; by apply (Hnd b Ha); left).
  split_and!; [|by rewrite lookup_insert_eq| |done].
  - apply dseg_frame; [|done]. intros a Ha.
    destruct (apart_links _ b a Hap) as (?&?&_); [set_solver|set_solver|by intros ->; eapply Hne|done].
  - rewrite lookup_insert_ne; [done|]. unfold f_next, f_prev. lia.
Qed.

Lemma dseg_set_prev m p p' b l n : NoDup (b :: l) → apart (b :: l) →
  dseg m p (b :: l) n → dseg (<[f_prev b := p']> m) p' (b :: l) n.
Proof.
  intros [Hb Hnd]%NoDup_cons Hap. simpl. intros (H1 & _ & H3). split_and!; [|by rewrite lookup_insert_eq|].
  - rewrite lookup_insert_ne; [done|]. unfold f_next, f_prev. lia.
  - apply dseg_frame; [|done]. intros a Ha.
    destruct (apart_links _ b a Hap) as (_&_&?&?); [set_solver|set_solver|by intros ->|done].
Qed.

(** ** The invariant

    [B] holds the size of every block, [L] the free ones in order. *)
Record heap_ok (σ : heap) (B : gmap Z Z) (L : list Z) : Prop := {
  ho_start : 0 < HEAP_START σ ∧ HEAP_START σ mod 8 = 0 ∧ HEAP_START σ + HEAP_SIZE σ < 2 ^ 64;
  ho_limit : HEAP_SIZE σ ≤ 2 ^ 48;
  ho_offset : 0 ≤ HEAP_OFFSET σ ≤ HEAP_SIZE σ;
  ho_mapped x : HEAP_START σ ≤ x → x + 8 ≤ HEAP_START σ + HEAP_SIZE σ → x mod 8 = 0 → is_Some (hmem σ !! x);
  ho_block a s : B !! a = Some s → a mod 8 = 0 ∧ 0 ≤ s ∧ HEAP_START σ ≤ a ∧
    a + BLOCK_SIZE + s ≤ HEAP_START σ + HEAP_OFFSET σ ∧ hmem σ !! f_size a = Some s;
  ho_apart a s a' s' : B !! a = Some s → B !! a' = Some s' → a ≠ a' →
    a + BLOCK_SIZE + s ≤ a' ∨ a' + BLOCK_SIZE + s' ≤ a;
  ho_free a : a ∈ L → is_Some (B !! a);
  ho_nodup : NoDup L;
  ho_links : dseg (hmem σ) 0 L 0 ∧ head σ = hd 0 L ∧ tail σ = lst 0 L;
  ho_count : count σ = Z.of_nat (length L);
}.

Lemma free_apart σ B L : heap_ok σ B L → apart L.
Proof.
  intros H a b [s Hs]%(ho_free _ _ _ H) [s' Hs']%(ho_free _ _ _ H) Hne.
  destruct (ho_block _ _ _ H _ _ Hs) as (_ & ? & _). destruct (ho_block _ _ _ H _ _ Hs') as (_ & ? & _).
  destruct (ho_apart _ _ _ H _ _ _ _ Hs Hs' Hne); unfold BLOCK_SIZE in *; lia.
Qed.

Lemma wp_hld a w (Q : Z → heap → Prop) σ : a mod 8 = 0 → hmem σ !! a = Some w → Q w σ → wp (hld a) Q σ.
Proof. intros Ha Hw HQ. unfold wp, hld. by rewrite (kload_ok _ _ _ Ha Hw). Qed.

Lemma wp_hsd a w (Q : unit → heap → Prop) σ :
  a mod 8 = 0 → is_Some (hmem σ !! a) → Q tt (set_hmem (<[a := w]> (hmem σ)) σ) → wp (hsd a w) Q σ.
Proof. intros Ha Hw HQ. unfold wp, hsd. by rewrite (kstore_ok _ _ _ Ha Hw). Qed.

(** The links of a block are mapped, and no other header has them. *)
Lemma block_words σ B L a s : heap_ok σ B L → B !! a = Some s →
  a mod 8 = 0 ∧ is_Some (hmem σ !! f_next a) ∧ is_Some (hmem σ !! f_prev a) ∧ a ≠ 0.
Proof.
  intros H Ha. destruct (ho_block _ _ _ H _ _ Ha) as (H8 & Hs & Hge & Hle & _).
  pose proof (ho_start _ _ _ H) as (? & ? & _). pose proof (ho_offset _ _ _ H).
  unfold BLOCK_SIZE in *. split_and!; [done| | |lia];
    apply (ho_mapped _ _ _ H); unfold f_next, f_prev; try lia; divlia.
Qed.

(** ** Unlinking and appending, in memory *)

Lemma lst_zero l : (∀ a, a ∈ l → a ≠ 0) → (lst 0 l =? 0) = bool_decide (l = []).
Proof.
  intros Hnz. destruct l as [|a l] using rev_ind; [done|]. rewrite lst_app, bool_decide_false by (by destruct l).
  apply Z.eqb_neq, Hnz. set_solver.
Qed.

Lemma hd_zero l : (∀ a, a ∈ l → a ≠ 0) → (hd 0 l =? 0) = bool_decide (l = []).
Proof. intros Hnz. destruct l as [|a l]; [done|]. simpl. apply Z.eqb_neq, Hnz. by left. Qed.

Definition set_next_of_last (m : kmem) (l : list Z) (n : Z) : kmem :=
  if lst 0 l =? 0 then m else <[f_next (lst 0 l) := n]> m.
Definition set_prev_of_first (m : kmem) (l : list Z) (p : Z) : kmem :=
  if hd 0 l =? 0 then m else <[f_prev (hd 0 l) := p]> m.

Lemma set_next_ok m l n n' : NoDup l → apart l → (∀ a, a ∈ l → a ≠ 0) →
  dseg m 0 l n → dseg (set_next_of_last m l n') 0 l n'.
Proof.
  intros Hnd Hap Hnz. unfold set_next_of_last. rewrite lst_zero by done.
  destruct l as [|b l] using rev_ind; [done|]. rewrite bool_decide_false by (by destruct l). rewrite lst_app.
  by apply dseg_set_next.
Qed.

Lemma set_prev_ok m l p p' : NoDup l → apart l → (∀ a, a ∈ l → a ≠ 0) →
  dseg m p l 0 → dseg (set_prev_of_first m l p') p' l 0.
Proof.
  intros Hnd Hap Hnz. unfold set_prev_of_first. rewrite hd_zero by done.
  destruct l as [|b l]; [done|]. by apply dseg_set_prev.
Qed.

(** Words of other blocks are not changed. *)
Lemma set_next_other m l n x : (∀ a, a ∈ l → x ≠ f_next a) → set_next_of_last m l n !! x = m !! x.
Proof.
  intros Hx. unfold set_next_of_last. destruct (Z.eqb_spec (lst 0 l) 0); [done|]. apply lookup_insert_ne.
  intros Heq. destruct l as [|b l] using rev_ind; [done|]. rewrite lst_app in Heq. apply (Hx b); [set_solver|done].
Qed.

Lemma set_prev_other m l p x : (∀ a, a ∈ l → x ≠ f_prev a) → set_prev_of_first m l p !! x = m !! x.
Proof.
  intros Hx. unfold set_prev_of_first. destruct (Z.eqb_spec (hd 0 l) 0); [done|]. apply lookup_insert_ne.
  intros Heq. destruct l as [|b l]; [done|]. apply (Hx b); [by left|done].
Qed.

Lemma dseg_same m m' p l n : (∀ a, a ∈ l → m' !! f_next a = m !! f_next a ∧ m' !! f_prev a = m !! f_prev a) →
  dseg m p l n → dseg m' p l n.
Proof.
  revert p. induction l as [|a l IH]; intros p Hs; simpl; [done|]. intros (H1 & H2 & H3).
  destruct (Hs a) as [-> ->]; [by left|]. split_and!; [done..|]. apply IH; [|done]. intros b Hb. apply Hs. by right.
Qed.

Lemma unlink_ok m l1 a l2 : NoDup (l1 ++ a :: l2) → apart (l1 ++ a :: l2) → (∀ b, b ∈ l1 ++ a :: l2 → b ≠ 0) →
  dseg m 0 (l1 ++ a :: l2) 0 →
  let m1 := set_next_of_last m l1 (hd 0 l2) in
  m !! f_prev a = Some (lst 0 l1) ∧ m !! f_next a = Some (hd 0 l2) ∧
  m1 !! f_prev a = Some (lst 0 l1) ∧ m1 !! f_next a = Some (hd 0 l2) ∧
  dseg (set_prev_of_first m1 l2 (lst 0 l1)) 0 (l1 ++ l2) 0.
Proof.
  intros Hnd Hap Hnz Hd m1. pose proof Hd as (Hd1 & Hna & Hpa & Hd2)%dseg_app.
  pose proof Hnd as (Hn1 & Hn12 & [Ha2 Hn2]%NoDup_cons)%NoDup_app.
  assert (∀ b, b ∈ l1 → f_next b ≠ f_next a ∧ f_next b ≠ f_prev a) as H1a.
  { intros b Hb. destruct (apart_links _ b a Hap) as (?&?&_); [set_solver|set_solver|set_solver|done]. }
  assert (∀ b c, b ∈ l1 → c ∈ l2 → f_next b ≠ f_next c ∧ f_next b ≠ f_prev c ∧ f_prev b ≠ f_prev c ∧ f_prev b ≠ f_next c) as H12.
  { intros b c Hb Hc. apply (apart_links _ b c Hap); set_solver. }
  split_and!; [done|done| | |].
  - unfold m1. rewrite set_next_other; [done|]. intros b Hb Heq. by destruct (H1a b Hb).
  - unfold m1. rewrite set_next_other; [done|]. intros b Hb Heq. by destruct (H1a b Hb).
  - rewrite dseg_app. split.
    + apply (dseg_same m1).
      { intros b Hb. split; apply set_prev_other; intros c Hc Heq; destruct (H12 b c Hb Hc) as (?&?&?&?); done. }
      eapply set_next_ok; [done| |set_solver|exact Hd1]. eapply apart_sub; [|exact Hap]. set_solver.
    + eapply set_prev_ok; [done| |set_solver|].
      { eapply apart_sub; [|exact Hap]. set_solver. }
      apply (dseg_same m); [|exact Hd2]. intros c Hc. unfold m1.
      split; apply set_next_other; intros b Hb Heq; destruct (H12 b c Hb Hc) as (?&?&?&?); done.
Qed.

Lemma link_last_ok m l a : NoDup (l ++ [a]) → apart (l ++ [a]) → (∀ b, b ∈ l ++ [a] → b ≠ 0) → dseg m 0 l 0 →
  dseg (set_next_of_last (<[f_prev a := lst 0 l]> (<[f_next a := 0]> m)) l a) 0 (l ++ [a]) 0.
Proof.
  intros Hnd Hap Hnz Hd. pose proof Hnd as (Hn1 & Hn12 & _)%NoDup_app.
  assert (∀ b, b ∈ l → f_next b ≠ f_next a ∧ f_next b ≠ f_prev a ∧ f_prev b ≠ f_prev a ∧ f_prev b ≠ f_next a) as Hla.
  { intros b Hb. apply (apart_links _ b a Hap); set_solver. }
  rewrite dseg_app. simpl. split_and!; [| | |done].
  - eapply set_next_ok; [done| |set_solver|].
    + eapply apart_sub; [|exact Hap]. set_solver.
    + eapply dseg_same; [|exact Hd]. intros b Hb. destruct (Hla b Hb) as (?&?&?&?).
      by rewrite !lookup_insert_ne by done.
  - rewrite set_next_other; [|intros b Hb Heq; by destruct (Hla b Hb)].
    rewrite lookup_insert_ne by (unfold f_next, f_prev; lia). apply lookup_insert_eq.
  - rewrite set_next_other; [|intros b Hb Heq; destruct (Hla b Hb) as (?&?&_); done]. apply lookup_insert_eq.
Qed.

(** ** The operations on the list *)

(** Only links of blocks and the list itself differ. *)
Record relinked (B : gmap Z Z) (σ σ' : heap) : Prop := {
  rl_start : HEAP_START σ' = HEAP_START σ;
  rl_size : HEAP_SIZE σ' = HEAP_SIZE σ;
  rl_offset : HEAP_OFFSET σ' = HEAP_OFFSET σ;
  rl_words x : (∀ a, is_Some (B !! a) → x ≠ f_next a ∧ x ≠ f_prev a) → hmem σ' !! x = hmem σ !! x;
  rl_mapped x : is_Some (hmem σ !! x) → is_Some (hmem σ' !! x);
}.

Lemma relink_ok σ B L m L' : heap_ok σ B L →
  (∀ x, (∀ a, is_Some (B !! a) → x ≠ f_next a ∧ x ≠ f_prev a) → m !! x = hmem σ !! x) →
  (∀ x, is_Some (hmem σ !! x) → is_Some (m !! x)) →
  (∀ a, a ∈ L' → is_Some (B !! a)) → NoDup L' → dseg m 0 L' 0 →
  let σ' := Heap m (HEAP_START σ) (HEAP_SIZE σ) (HEAP_OFFSET σ) (hd 0 L') (lst 0 L') (Z.of_nat (length L')) in
  heap_ok σ' B L' ∧ relinked B σ σ'.
Proof.
  intros [H1 H1' H2 H3 H4 H5 H6 H7 H8 H9] Hw Hm HL Hnd Hd. split; [|by split]. split; try done.
  - intros x ? ? ?. by apply Hm, H3.
  - intros a s Ha. destruct (H4 a s Ha) as (? & ? & ? & ? & Hs). split_and!; try done. cbn [hmem]. rewrite Hw; [done|].
    intros b [t Hb]. destruct (H4 b t Hb) as (_ & ? & _). unfold f_size, f_next, f_prev.
    destruct (decide (a = b)) as [->|Hne]; [lia|]. destruct (H5 _ _ _ _ Ha Hb Hne); unfold BLOCK_SIZE in *; lia.
Qed.

Lemma free_nonzero σ B L : heap_ok σ B L → ∀ a, a ∈ L → a ≠ 0.
Proof. intros H a [s Hs]%(ho_free _ _ _ H). by eapply block_words. Qed.

Lemma free_aligned σ B L a : heap_ok σ B L → a ∈ L → f_next a mod 8 = 0 ∧ f_prev a mod 8 = 0 ∧
  is_Some (hmem σ !! f_next a) ∧ is_Some (hmem σ !! f_prev a).
Proof.
  intros H [s Hs]%(ho_free _ _ _ H). destruct (block_words _ _ _ _ _ H Hs) as (? & ? & ? & _).
  split_and!; [unfold f_next; divlia|unfold f_prev; divlia|done|done].
Qed.

Lemma lst_in l a : lst 0 l ≠ 0 → a = lst 0 l → a ∈ l.
Proof. intros Hne ->. destruct l as [|b l _] using rev_ind; [done|]. rewrite lst_app. set_solver. Qed.

Lemma hd_in l a : hd 0 l ≠ 0 → a = hd 0 l → a ∈ l.
Proof. intros Hne ->. destruct l as [|b l]; [done|by left]. Qed.

Lemma length_bound σ B L : heap_ok σ B L → (length L < S (size (hmem σ)))%nat.
Proof.
  intros H. rewrite <- (size_dom (D := gset Z)). assert (size (list_to_set (C := gset Z) (f_next <$> L)) = length L) as <-.
  { rewrite size_list_to_set; [by rewrite length_fmap|]. apply NoDup_fmap_2; [|apply H].
    intros x y. unfold f_next. lia. }
  apply Nat.lt_succ_r, subseteq_size. intros x. rewrite elem_of_list_to_set, list_elem_of_fmap, elem_of_dom.
  intros (a & -> & Ha). by destruct (free_aligned _ _ _ _ H Ha) as (_ & _ & ? & _).
Qed.

Lemma nodup_range (l : list Z) N : NoDup l → (∀ a, a ∈ l → 0 ≤ a < N) → 0 ≤ N → Z.of_nat (length l) ≤ N.
Proof.
  intros Hnd Hr HN. assert (l ⊆+ seqZ 0 N) as Hs%submseteq_length.
  { apply NoDup_submseteq; [done|]. intros a Ha%Hr. apply elem_of_seqZ. lia. }
  rewrite length_seqZ in Hs. lia.
Qed.

Lemma count_bound σ B L : heap_ok σ B L → Z.of_nat (length L) < 2 ^ 64 - 1.
Proof.
  intros H. pose proof (ho_start _ _ _ H) as (? & ? & ?). pose proof (ho_offset _ _ _ H).
  enough (Z.of_nat (length L) ≤ 2 ^ 64 - 24) by lia. apply nodup_range; [apply H| |lia].
  intros a [s Hs]%(ho_free _ _ _ H). destruct (ho_block _ _ _ H _ _ Hs) as (? & ? & ? & ? & _).
  unfold BLOCK_SIZE in *. lia.
Qed.

Lemma remove_ok σ B l1 a l2 : heap_ok σ B (l1 ++ a :: l2) →
  wp (remove a) (λ _ σ', heap_ok σ' B (l1 ++ l2) ∧ relinked B σ σ') σ.
Proof.
  intros H. pose proof (free_nonzero _ _ _ H) as Hnz. pose proof (ho_links _ _ _ H) as (Hd & Hh & Ht).
  destruct (unlink_ok (hmem σ) l1 a l2) as (Hp & Hn & Hp1 & Hn1 & Hd2);
    [apply H|by eapply free_apart|done|done|].
  destruct (free_aligned _ _ _ a H) as (Hn8 & Hp8 & _); [set_solver|]. unfold remove.
  apply wp_bind, (wp_hld _ (lst 0 l1)); [done|done|]. apply wp_bind, (wp_hld _ (hd 0 l2)); [done|done|].
  set (m1 := set_next_of_last (hmem σ) l1 (hd 0 l2)) in *. set (m2 := set_prev_of_first m1 l2 (lst 0 l1)) in *.
  set (h1 := if lst 0 l1 =? 0 then hd 0 l2 else head σ).
  apply wp_bind. apply (wp_mono _ (λ _ τ, τ = set_hmem m1 (set_head h1 σ))).
  { unfold m1, h1, set_next_of_last. destruct (Z.eqb_spec (lst 0 l1) 0) as [|Hne].
    - apply wp_modify. by destruct σ.
    - destruct (free_aligned _ _ _ (lst 0 l1) H) as (? & _ & ? & _).
      { apply elem_of_app. left. by apply lst_in. }
      apply wp_hsd; [done|done|]. by destruct σ. }
  intros [] ? ->. apply wp_bind, (wp_hld _ (hd 0 l2)); [done|done|]. apply wp_bind, (wp_hld _ (lst 0 l1)); [done|done|].
  set (t1 := if hd 0 l2 =? 0 then lst 0 l1 else tail σ).
  apply wp_bind. apply (wp_mono _ (λ _ τ, τ = set_hmem m2 (set_tail t1 (set_head h1 σ)))).
  { unfold m2, t1, set_prev_of_first. destruct (Z.eqb_spec (hd 0 l2) 0) as [|Hne].
    - apply wp_modify. by destruct σ.
    - destruct (free_aligned _ _ _ (hd 0 l2) H) as (_ & ? & _ & ?).
      { apply elem_of_app. right. right. by apply hd_in. }
      apply wp_hsd; [done| |by destruct σ]. cbn [hmem set_hmem]. unfold m1, set_next_of_last.
      destruct (lst 0 l1 =? 0); [done|]. apply lookup_insert_is_Some'. by right. }
  intros [] ? ->. pose proof (ho_count _ _ _ H) as Hc. pose proof (count_bound _ _ _ H) as Hlen.
  rewrite length_app in Hc, Hlen. cbn [length] in *. wp_steps. cbn [count set_hmem set_tail set_head].
  apply (wp_lift (Z.of_nat (length (l1 ++ l2)))).
  { rewrite Hc, checked_ok, length_app by lia. f_equal. lia. }
  apply wp_modify.
  assert (h1 = hd 0 (l1 ++ l2)) as ->.
  { unfold h1. rewrite Hh, lst_zero by set_solver. by destruct l1. }
  assert (t1 = lst 0 (l1 ++ l2)) as ->.
  { unfold t1. rewrite Ht, hd_zero by set_solver. destruct l2 as [|b l2]; [by rewrite app_nil_r|].
    by rewrite bool_decide_false, !lst_app_list, !lst_cons by done. }
  apply (relink_ok σ B (l1 ++ a :: l2) m2 (l1 ++ l2)); [done| | | | |done].
  - intros x Hx. unfold m2, m1. rewrite set_prev_other, set_next_other; [done| |];
      intros b Hb; apply Hx, (ho_free _ _ _ H); set_solver.
  - intros x Hx. unfold m2, m1, set_prev_of_first, set_next_of_last.
    repeat case_match; rewrite ?lookup_insert_is_Some'; auto.
  - intros b Hb. apply (ho_free _ _ _ H). set_solver.
  - pose proof (ho_nodup _ _ _ H) as (? & ? & [? ?]%NoDup_cons)%NoDup_app. apply NoDup_app. set_solver.
Qed.

Lemma push_back_ok σ B L a s : heap_ok σ B L → B !! a = Some s → a ∉ L →
  wp (push_back a) (λ _ σ', heap_ok σ' B (L ++ [a]) ∧ relinked B σ σ') σ.
Proof.
  intros H Ha HaL. pose proof (free_nonzero _ _ _ H) as Hnz. pose proof (ho_links _ _ _ H) as (Hd & Hh & Ht).
  destruct (block_words _ _ _ _ _ H Ha) as (Ha8 & Hna & Hpa & Ha0).
  assert (NoDup (L ++ [a])) as Hnd.
  { apply NoDup_app. split_and!; [apply H|set_solver|apply NoDup_singleton]. }
  assert (apart (L ++ [a])) as Hap.
  { intros b c Hb Hc Hne. assert (∀ x, x ∈ L ++ [a] → is_Some (B !! x)) as HB.
    { intros x [?|E%list_elem_of_singleton]%elem_of_app; [by apply (ho_free _ _ _ H)|subst x; by eauto]. }
    destruct (HB b Hb) as [sb Hsb], (HB c Hc) as [sc Hsc].
    destruct (ho_block _ _ _ H _ _ Hsb) as (_ & ? & _), (ho_block _ _ _ H _ _ Hsc) as (_ & ? & _).
    destruct (ho_apart _ _ _ H _ _ _ _ Hsb Hsc Hne); unfold BLOCK_SIZE in *; lia. }
  assert (∀ b, b ∈ L ++ [a] → b ≠ 0) as Hnz' by set_solver.
  pose proof (link_last_ok (hmem σ) L a Hnd Hap Hnz' Hd) as Hd'. unfold push_back.
  apply wp_bind, wp_hsd; [unfold f_next; divlia|done|]. wp_steps. cbn [tail set_hmem]. rewrite Ht.
  apply wp_hsd; [unfold f_prev; divlia| |].
  { cbn [hmem set_hmem]. apply lookup_insert_is_Some'. by right. }
  cbn [hmem set_hmem]. set (m2 := <[f_prev a := lst 0 L]> (<[f_next a := 0]> (hmem σ))) in *.
  set (m3 := set_next_of_last m2 L a) in *.
  set (h := if lst 0 L =? 0 then a else head σ).
  apply wp_bind. apply (wp_mono _ (λ _ τ, τ = set_hmem m3 (set_head h σ))).
  { unfold m3, h, set_next_of_last. destruct (Z.eqb_spec (lst 0 L) 0) as [|Hne]; cbn [negb].
    - apply wp_modify. by destruct σ.
    - destruct (free_aligned _ _ _ (lst 0 L) H) as (? & _ & ? & _); [by apply lst_in|].
      apply wp_hsd; [done| |by destruct σ]. cbn [hmem set_hmem]. unfold m2. rewrite !lookup_insert_is_Some'. auto. }
  intros [] ? ->. pose proof (ho_count _ _ _ H) as Hc. pose proof (count_bound _ _ _ H).
  wp_steps. cbn [count set_hmem set_tail set_head]. apply (wp_lift (Z.of_nat (length (L ++ [a])))).
  { rewrite Hc, checked_ok, length_app by lia. simpl. f_equal. lia. }
  apply wp_modify. assert (h = hd 0 (L ++ [a])) as ->.
  { unfold h. rewrite Hh, lst_zero by done. by destruct L. }
  pose proof (relink_ok σ B L m3 (L ++ [a])) as Hr. rewrite lst_app in Hr.
  apply Hr; [done| | | |done|exact Hd'].
  - intros x Hx. unfold m3. rewrite set_next_other by (intros b Hb; by apply Hx, (ho_free _ _ _ H)).
    destruct (Hx a ltac:(by eauto)). unfold m2. by rewrite !lookup_insert_ne by done.
  - intros x Hx. unfold m3, m2, set_next_of_last. case_match; rewrite ?lookup_insert_is_Some'; auto.
  - intros b [?|E%list_elem_of_singleton]%elem_of_app; [by apply (ho_free _ _ _ H)|subst b; by eauto].
Qed.

(** ** Allocation *)

Definition too_small (B : gmap Z Z) (size : Z) (l : list Z) : Prop := ∀ a s, a ∈ l → B !! a = Some s → s < size.

Lemma find_fit_ok σ B size n l1 l2 : heap_ok σ B (l1 ++ l2) → too_small B size l1 → (length l2 < n)%nat →
  wp (find_fit n (hd 0 l2) size) (λ r σ', match r with
    | Some p => ∃ k1 a k2 s, l1 ++ l2 = k1 ++ a :: k2 ∧ too_small B size k1 ∧ B !! a = Some s ∧ size ≤ s ∧
        p = a + BLOCK_SIZE ∧ heap_ok σ' B (k1 ++ k2) ∧ relinked B σ σ'
    | None => σ' = σ ∧ too_small B size (l1 ++ l2)
    end) σ.
Proof.
  revert n l1. induction l2 as [|a l2 IH]; intros n l1 H Hs Hn; destruct n as [|n]; try (simpl in Hn; lia).
  { cbn [find_fit hd]. apply wp_ret. by rewrite app_nil_r in *. }
  cbn [find_fit hd]. destruct (ho_free _ _ _ H a) as [s Ha]; [set_solver|].
  destruct (block_words _ _ _ _ _ H Ha) as (Ha8 & Hna & _ & Ha0). rewrite (proj2 (Z.eqb_neq a 0) Ha0).
  destruct (ho_block _ _ _ H _ _ Ha) as (_ & _ & _ & _ & Hsz).
  apply wp_bind, (wp_hld _ s); [done|done|]. destruct (Z.leb_spec size s) as [Hle|Hlt].
  - apply wp_bind. wp_call (remove_ok σ B l1 a l2); [done|]. intros _ σ' [H' Hr]. apply wp_ret.
    by exists l1, a, l2, s.
  - destruct (ho_links _ _ _ H) as (Hd & _). apply dseg_app in Hd as [_ (Hnx & _ & _)].
    apply wp_bind, (wp_hld _ (hd 0 l2)); [unfold f_next; divlia|done|].
    change (l1 ++ a :: l2) with (l1 ++ [a] ++ l2) in *. rewrite app_assoc in *. apply IH; [done| |simpl in Hn; lia].
    intros b t [Hb|E%list_elem_of_singleton]%elem_of_app Hbt; [by eapply Hs|]. subst b. simplify_eq. lia.
Qed.

(** A [Layout]: the alignment is a power of two. *)
Definition layout_ok (size align : Z) : Prop := 0 ≤ size < 2 ^ 62 ∧ ∃ k, 0 ≤ k < 62 ∧ align = 2 ^ k.

(** The offset of the next new block. *)
Definition next_block (off align : Z) : Z := Z.land (off + Z.max align 8 - 1) (not64 (Z.max align 8 - 1)).

Lemma next_block_ok off size align : layout_ok size align → 0 ≤ off ≤ 2 ^ 48 →
  off ≤ next_block off align < 2 ^ 63 ∧ next_block off align mod 8 = 0 ∧ next_block off align mod align = 0.
Proof.
  intros [_ (k & Hk & ->)] Ho. unfold next_block. destruct (decide (k < 3)) as [Hlt|Hge].
  - assert (k = 0 ∨ k = 1 ∨ k = 2) as Hcase by lia. replace (Z.max (2 ^ k) 8) with (2 ^ 3) by (destruct_or! Hcase; subst; done).
    destruct (round_up off 3) as [H1 H2]; [lia..|]. change (2 ^ 3) with 8 in *.
    split_and!; [lia|lia|done|]. destruct_or! Hcase; subst; [change (2 ^ 0) with 1|change (2 ^ 1) with 2|change (2 ^ 2) with 4]; divlia.
  - assert (8 * 2 ^ (k - 3) = 2 ^ k) as E by (rewrite <- (Z.pow_add_r 2 3) by lia; f_equal; lia).
    assert (2 ^ k < 2 ^ 62) by (apply Z.pow_lt_mono_r; lia).
    rewrite Z.max_l by lia. destruct (round_up off k) as [H1 H2]; [lia..|]. split_and!; [lia|lia| |done].
    apply Z.mod_divide; [lia|]. apply (Z.divide_trans _ (2 ^ k)); [|by apply Z.mod_divide; [lia|]].
    exists (2 ^ (k - 3)). lia.
Qed.

(** A new block at the end of the heap. *)
Definition carve (σ : heap) (a size fin : Z) : heap :=
  set_offset fin (set_hmem (<[f_prev a := 0]> (<[f_next a := 0]> (<[f_size a := size]> (hmem σ)))) σ).

Lemma carve_ok σ B L off size : heap_ok σ B L → 0 ≤ size → HEAP_OFFSET σ ≤ off → off mod 8 = 0 →
  off + (BLOCK_SIZE + size) ≤ HEAP_SIZE σ →
  let a := HEAP_START σ + off in
  B !! a = None ∧ heap_ok (carve σ a size (off + (BLOCK_SIZE + size))) (<[a := size]> B) L.
Proof.
  intros H Hs Ho H8 Hfit a. pose proof H as [(S1 & S2 & S3) S4 H2 H3 H4 H5 H6 H7 (H8a & H8b & H8c) H9].
  unfold BLOCK_SIZE in *. assert (a mod 8 = 0) as Ha8 by (subst a; divlia).
  assert (∀ b s, B !! b = Some s → b + 24 + s ≤ a) as Hlow.
  { intros b s Hb. destruct (H4 b s Hb) as (_ & _ & _ & ? & _). unfold a. lia. }
  assert (B !! a = None) as HaB.
  { destruct (B !! a) as [s|] eqn:E; [|done]. pose proof (Hlow a s E). destruct (H4 a s E) as (_ & ? & _). lia. }
  assert (∀ x, x < a → hmem (carve σ a size (off + (24 + size))) !! x = hmem σ !! x) as Hold.
  { intros x Hx. cbn [hmem carve set_offset set_hmem]. unfold f_prev, f_next, f_size. by rewrite !lookup_insert_ne by lia. }
  split; [done|]. split; cbn [HEAP_START HEAP_SIZE HEAP_OFFSET head tail count carve set_offset set_hmem]; try done.
  - lia.
  - intros x Hx1 Hx2 Hx3. cbn [hmem carve set_offset set_hmem]. rewrite !lookup_insert_is_Some'. do 3 right. by apply H3.
  - intros b s. rewrite lookup_insert_Some. intros [[<- <-]|[Hne Hb]].
    + split_and!; [done|done|lia|unfold a, BLOCK_SIZE; lia|]. cbn [hmem carve set_offset set_hmem].
      unfold f_prev, f_next, f_size. rewrite 2!lookup_insert_ne by lia. apply lookup_insert_eq.
    + destruct (H4 b s Hb) as (? & ? & ? & ? & Hsz). unfold BLOCK_SIZE in *. split_and!; [done|done|done|lia|].
      pose proof (Hlow b s Hb). rewrite Hold; [done|]. unfold f_size. lia.
  - intros b s b' s'. rewrite !lookup_insert_Some. unfold BLOCK_SIZE.
    intros [[<- <-]|[_ Hb]] [[<- <-]|[_ Hb']] Hne; [done|right|left|by eapply H5]; by eapply Hlow.
  - intros b Hb. rewrite lookup_insert_is_Some'. right. by apply H6.
  - split_and!; [|done|done]. eapply dseg_same; [|exact H8a]. intros b [s Hs']%H6.
    pose proof (Hlow b s Hs'). destruct (H4 b s Hs') as (_ & ? & _). unfold f_next, f_prev. by rewrite !Hold by lia.
Qed.

Lemma heap_alloc_ok σ B L size align : heap_ok σ B L → layout_ok size align →
  wp (alloc size align) (λ r σ',
    (∃ k1 a k2 s, L = k1 ++ a :: k2 ∧ too_small B size k1 ∧ B !! a = Some s ∧ size ≤ s ∧
      r = a + BLOCK_SIZE ∧ heap_ok σ' B (k1 ++ k2) ∧ relinked B σ σ') ∨
    too_small B size L ∧ let off := next_block (HEAP_OFFSET σ) align in let a := HEAP_START σ + off in
      (off + (BLOCK_SIZE + size) ≤ HEAP_SIZE σ ∧ r = a + BLOCK_SIZE ∧ B !! a = None ∧
        σ' = carve σ a size (off + (BLOCK_SIZE + size)) ∧ heap_ok σ' (<[a := size]> B) L ∨
       HEAP_SIZE σ < off + (BLOCK_SIZE + size) ∧ r = 0 ∧ σ' = σ)) σ.
Proof.
  intros H Hl. pose proof (ho_start _ _ _ H) as (S1 & S2 & S3). pose proof (ho_limit _ _ _ H) as S4.
  pose proof (ho_offset _ _ _ H) as S5. pose proof (ho_links _ _ _ H) as (_ & Hh & _).
  destruct (next_block_ok (HEAP_OFFSET σ) size align Hl) as (Hn1 & Hn2 & _); [lia|].
  destruct Hl as [Hsz (k & Hk & Hal)].
  assert (0 < align < 2 ^ 62) by (subst align; split; [lia|apply Z.pow_lt_mono_r; lia]).
  unfold alloc. wp_steps. rewrite Hh.
  wp_call (find_fit_ok σ B size _ [] L); [done|by intros ? ? ?%elem_of_nil|by eapply length_bound|].
  intros [p|] σ'; [intros (k1 & a & k2 & s & HL & Hr); apply wp_ret; left; by exists k1, a, k2, s|].
  intros [-> Hsmall]. simpl in Hsmall. wp_steps. rewrite (proj2 (Z.eqb_neq _ 0)) by lia. wp_steps.
  unfold BLOCK_ALIGN. apply (wp_lift (HEAP_OFFSET σ + Z.max align 8)); [apply checked_ok; lia|].
  fold (next_block (HEAP_OFFSET σ) align). set (off := next_block (HEAP_OFFSET σ) align) in *.
  apply wp_bind, (wp_lift (BLOCK_SIZE + size)); [apply checked_ok; unfold BLOCK_SIZE; lia|].
  apply wp_bind, (wp_lift (off + (BLOCK_SIZE + size))); [apply checked_ok; unfold BLOCK_SIZE; lia|]. wp_steps.
  destruct (Z.ltb_spec (HEAP_SIZE σ) (off + (BLOCK_SIZE + size))) as [|Hfit].
  { apply wp_ret. right. split; [done|]. by right. }
  destruct (carve_ok σ B L off size) as [HaB Hc]; [done|lia|lia|done|done|]. set (a := HEAP_START σ + off) in *.
  assert (∀ d, d = 0 ∨ d = 8 ∨ d = 16 → (a + d) mod 8 = 0 ∧ is_Some (hmem σ !! (a + d))) as Hw.
  { intros d Hd. unfold BLOCK_SIZE in *. assert ((a + d) mod 8 = 0) by (subst a; divlia). split; [done|].
    apply (ho_mapped _ _ _ H); [lia|lia|done]. }
  destruct (Hw 0) as [W1 W2]; [lia|]. destruct (Hw 8) as [W3 W4]; [lia|]. destruct (Hw 16) as [W5 W6]; [lia|].
  rewrite Z.add_0_r in W1, W2.
  apply wp_bind, wp_hsd; [done|done|]. apply wp_bind, wp_hsd; [done| |].
  { cbn [hmem set_hmem]. rewrite lookup_insert_is_Some'. by right. }
  apply wp_bind, wp_hsd; [done| |].
  { cbn [hmem set_hmem]. rewrite !lookup_insert_is_Some'. by right; right. }
  wp_steps. right. split; [done|]. left. split_and!; [done|done|done| |exact Hc]. by destruct σ.
Qed.

Lemma dealloc_ok σ B L a s : heap_ok σ B L → B !! a = Some s → a ∉ L →
  wp (dealloc (a + BLOCK_SIZE)) (λ _ σ', heap_ok σ' B (L ++ [a]) ∧ relinked B σ σ') σ.
Proof.
  intros H Ha HL. destruct (ho_block _ _ _ H _ _ Ha) as (_ & _ & ? & _). pose proof (ho_start _ _ _ H).
  unfold dealloc, BLOCK_SIZE. rewrite (proj2 (Z.eqb_neq _ 0)) by lia.
  replace (a + 24 - 24) with a by lia. by eapply push_back_ok.
Qed.

(** ** The start *)

Definition heap_entry (memory_map : list Entry) : option Entry :=
  List.find (λ e, usable e && (16 * 1024 * 1024 <? ent_length e)) memory_map.

(** The bytes [init_allocator] leaves out at the start of the entry. *)
Definition bitmap_bytes (top : Z) : Z := Z.land (((top + 4095) / 4096 + 63) / 64 * 8 + 4095) (not64 4095).

(** What [init_allocator] needs of the memory map: the memory ends at [top], and
    the memory of the heap is mapped. *)
Record heap_map_ok (σ : heap) (memory_map : list Entry) (top : Z) (e : Entry) : Prop := {
  hm_top : max_addr memory_map = Some top;
  hm_limit : top < 2 ^ 46;
  hm_entry : heap_entry memory_map = Some e;
  hm_base : 0 ≤ ent_base e ∧ ent_base e mod PAGE_SIZE = 0;
  hm_room : bitmap_bytes top ≤ ent_length e;
  hm_mapped x : ent_base e + HHDM_OFFSET ≤ x → x + 8 ≤ ent_base e + ent_length e + HHDM_OFFSET →
    x mod 8 = 0 → is_Some (hmem σ !! x);
}.

Lemma bitmap_bytes_ok top : 0 ≤ top < 2 ^ 46 →
  0 ≤ bitmap_bytes top < 2 ^ 46 ∧ bitmap_bytes top mod PAGE_SIZE = 0 ∧ ((top + 4095) / 4096 + 63) / 64 * 8 ≤ bitmap_bytes top.
Proof.
  intros Ht. unfold bitmap_bytes. set (n := ((top + 4095) / 4096 + 63) / 64 * 8).
  assert (0 ≤ n < 2 ^ 40) by (subst n; divlia).
  destruct (round_up n 12) as [H1 H2]; [lia..|]. change (2 ^ 12) with 4096 in *.
  replace (n + 4096 - 1) with (n + 4095) in * by lia. change (4096 - 1) with 4095 in *. unfold PAGE_SIZE. lia.
Qed.

Lemma find_heap_ok entries bytes e σ : heap_entry entries = Some e → 0 ≤ bytes ≤ ent_length e →
  0 ≤ ent_base e → ent_base e + ent_length e < 2 ^ 46 →
  wp (find_heap bytes entries) (λ _ σ', σ' =
    Heap (hmem σ) (ent_base e + bytes + HHDM_OFFSET) (ent_length e - bytes) 0 (head σ) (tail σ) (count σ)) σ.
Proof.
  intros He Hb H0 Hlen. induction entries as [|e' entries IH]; [done|]. simpl in *.
  destruct (usable e' && (16 * 1024 * 1024 <? ent_length e')); [|by apply IH]. injection He as ->.
  apply wp_bind, (wp_lift (ent_base e + bytes)); [apply checked_ok; lia|].
  apply wp_bind, (wp_lift (ent_length e - bytes)); [apply checked_ok; lia|].
  apply wp_bind, (wp_lift (ent_base e + bytes + HHDM_OFFSET)); [apply checked_ok; unfold HHDM_OFFSET; lia|].
  by apply wp_modify.
Qed.

Lemma heap_entry_in memory_map top e : heap_entry memory_map = Some e → max_addr memory_map = Some top →
  0 ≤ top ∧ ent_base e + ent_length e ≤ top.
Proof.
  intros [Hin _]%find_some Ht. destruct (max_addr_ge memory_map 0 top Ht) as [H0 Hge]. split; [done|].
  rewrite Forall_forall in Hge. apply Hge. by apply list_elem_of_In.
Qed.

Lemma init_allocator_ok σ memory_map top e : heap_map_ok σ memory_map top e →
  wp (init_allocator memory_map) (λ _ σ', heap_ok σ' ∅ [] ∧
    HEAP_START σ' = ent_base e + bitmap_bytes top + HHDM_OFFSET ∧
    HEAP_SIZE σ' = ent_length e - bitmap_bytes top ∧ HEAP_OFFSET σ' = 0) σ.
Proof.
  intros [Ht Hlim He [Hb0 Hb] Hroom Hmap]. destruct (heap_entry_in _ _ _ He Ht) as [Ht0 Hend].
  destruct (bitmap_bytes_ok top) as (Hbb & Hb4 & _); [lia|].
  unfold init_allocator. wp_steps. apply (wp_lift top); [done|].
  apply wp_bind, (wp_lift (top + 4095)); [apply checked_ok; lia|]. cbv zeta. fold (bitmap_bytes top). apply wp_bind.
  wp_call find_heap_ok; [done|lia|done|lia|]. intros _ ? ->. wp_steps.
  cbn [HEAP_START]. rewrite (proj2 (Z.eqb_neq _ 0)) by (unfold HHDM_OFFSET; lia). apply wp_ret.
  split; [|done]. unfold PAGE_SIZE, HHDM_OFFSET in *.
  split; cbn [HEAP_START HEAP_SIZE HEAP_OFFSET hmem head tail count]; try done.
  - split_and!; [lia|divlia|lia].
  - lia.
  - lia.
  - intros x H1 H2. apply Hmap; lia.
  - by intros a Ha%elem_of_nil.
  - constructor.
Qed.

(** ** Clients

    A client holds the blocks it was given, with the sizes it asked for; it gives
    back only these and writes only into these. *)
Section clients.
Context (memory_map : list Entry) (top : Z) (e : Entry).

Inductive heap_run : heap → gmap Z Z → Prop :=
  | run_start σ σ' : heap_map_ok σ memory_map top e → init_allocator memory_map σ = Some (tt, σ') → heap_run σ' ∅
  | run_null σ live size align σ' : heap_run σ live → layout_ok size align →
      alloc size align σ = Some (0, σ') → heap_run σ' live
  | run_block σ live size align p σ' : heap_run σ live → layout_ok size align →
      alloc size align σ = Some (p, σ') → p ≠ 0 → heap_run σ' (<[p := size]> live)
  | run_dealloc σ live p size σ' : heap_run σ live → live !! p = Some size →
      dealloc p σ = Some (tt, σ') → heap_run σ' (delete p live)
  | run_store σ live p size x w σ' : heap_run σ live → live !! p = Some size → p ≤ x < p + size →
      hsd x w σ = Some (tt, σ') → heap_run σ' live.

(** The blocks held are blocks of the heap that are not free, and every other
    block is free. *)
Definition held_ok (live B : gmap Z Z) (L : list Z) : Prop :=
  (∀ p s, live !! p = Some s → p - BLOCK_SIZE ∉ L ∧ ∃ s', B !! (p - BLOCK_SIZE) = Some s' ∧ s ≤ s') ∧
  (∀ a s, B !! a = Some s → a ∈ L ∨ is_Some (live !! (a + BLOCK_SIZE))).

Definition run_inv (σ : heap) (live : gmap Z Z) : Prop := ∃ B L, heap_ok σ B L ∧ held_ok live B L.

Lemma held_ok_reuse live B k1 a k2 s size : held_ok live B (k1 ++ a :: k2) → NoDup (k1 ++ a :: k2) →
  B !! a = Some s → size ≤ s → held_ok (<[a + BLOCK_SIZE := size]> live) B (k1 ++ k2).
Proof.
  intros [H1 H2] Hnd Ha Hs. assert (a ∉ k1 ++ k2) as Hout.
  { apply NoDup_app in Hnd as (_ & Hnd & [Hnd' _]%NoDup_cons). set_solver. }
  split.
  - intros p t. rewrite lookup_insert_Some. intros [[<- <-]|[_ [Hp Hex]%H1]]; [|split; [set_solver|done]].
    replace (a + BLOCK_SIZE - BLOCK_SIZE) with a by lia. split; [done|]. by exists s.
  - intros b t Hb. destruct (decide (b = a)) as [->|Hne]; [right; rewrite lookup_insert_eq; done|].
    rewrite lookup_insert_ne by lia. destruct (H2 b t Hb); [left; set_solver|by right].
Qed.

Lemma held_ok_new live B L a size : held_ok live B L → B !! a = None → a ∉ L →
  held_ok (<[a + BLOCK_SIZE := size]> live) (<[a := size]> B) L.
Proof.
  intros [H1 H2] Ha HL. split.
  - intros p t. rewrite lookup_insert_Some. intros [[<- <-]|[_ (Hp & s' & Hs' & Hle)%H1]].
    + replace (a + BLOCK_SIZE - BLOCK_SIZE) with a by lia. split; [done|]. exists size. by rewrite lookup_insert_eq.
    + split; [done|]. exists s'. split; [|done]. rewrite lookup_insert_ne; [done|]. by intros ->; rewrite Ha in Hs'.
  - intros b t. rewrite lookup_insert_Some. intros [[<- _]|[Hne Hb]]; [right; by rewrite lookup_insert_eq|].
    rewrite lookup_insert_ne by lia. by eapply H2.
Qed.

Lemma held_ok_free live B L p s : held_ok live B L → live !! p = Some s →
  held_ok (delete p live) B (L ++ [p - BLOCK_SIZE]).
Proof.
  intros [H1 H2] Hp. split.
  - intros q t. rewrite lookup_delete_Some. intros [Hne [Hq Hex]%H1]. split; [|done].
    rewrite elem_of_app, list_elem_of_singleton. intros [?|?]; [done|lia].
  - intros b t Hb. destruct (H2 b t Hb); [left; set_solver|]. destruct (decide (b = p - BLOCK_SIZE)) as [->|Hne].
    + left. set_solver.
    + right. rewrite lookup_delete_ne by lia. done.
Qed.

(** A word of a payload is no word of a header. *)
Lemma payload_word σ B L a s x : heap_ok σ B L → B !! a = Some s → a + BLOCK_SIZE ≤ x < a + BLOCK_SIZE + s →
  x mod 8 = 0 → ∀ b t, B !! b = Some t → x ≠ f_size b ∧ x ≠ f_next b ∧ x ≠ f_prev b.
Proof.
  intros H Ha Hx H8 b t Hb. unfold f_size, f_next, f_prev.
  destruct (ho_block _ _ _ H _ _ Ha) as (? & ? & _). destruct (ho_block _ _ _ H _ _ Hb) as (? & ? & _).
  unfold BLOCK_SIZE in *. destruct (decide (a = b)) as [->|Hne]; [lia|].
  destruct (ho_apart _ _ _ H _ _ _ _ Ha Hb Hne); unfold BLOCK_SIZE in *; divlia.
Qed.

Lemma store_ok σ B L x w : heap_ok σ B L → is_Some (hmem σ !! x) →
  (∀ b t, B !! b = Some t → x ≠ f_size b ∧ x ≠ f_next b ∧ x ≠ f_prev b) →
  heap_ok (set_hmem (<[x := w]> (hmem σ)) σ) B L.
Proof.
  intros [H1 H1' H2 H3 H4 H5 H6 H7 (H8 & Hh) H9] Hm Hx. split; cbn [hmem set_hmem]; try done.
  - intros y Hy1 Hy2 Hy3. rewrite lookup_insert_is_Some'. right. by apply H3.
  - intros b t Hb. destruct (H4 b t Hb) as (? & ? & ? & ? & ?). split_and!; try done.
    destruct (Hx b t Hb) as (? & _). by rewrite lookup_insert_ne.
  - split; [|done]. apply dseg_frame; [|done]. intros b [t Hb]%H6. by destruct (Hx b t Hb) as (_ & ? & ?).
Qed.

(** The payloads of the blocks held are kept. *)
Record kept (live : gmap Z Z) (σ σ' : heap) : Prop := {
  kp_start : HEAP_START σ' = HEAP_START σ;
  kp_size : HEAP_SIZE σ' = HEAP_SIZE σ;
  kp_words p s x : live !! p = Some s → p ≤ x < p + s → x mod 8 = 0 → hmem σ' !! x = hmem σ !! x;
}.

Lemma held_payload σ B L live p s x : heap_ok σ B L → held_ok live B L → live !! p = Some s → p ≤ x < p + s →
  x mod 8 = 0 → ∀ b t, B !! b = Some t → x ≠ f_size b ∧ x ≠ f_next b ∧ x ≠ f_prev b.
Proof.
  intros H [Hh _] Hp Hx H8. destruct (Hh p s Hp) as (_ & s' & Hs' & Hle).
  eapply payload_word; [done|done|lia|done].
Qed.

Lemma relinked_kept σ B L live σ' : heap_ok σ B L → held_ok live B L → relinked B σ σ' → kept live σ σ'.
Proof.
  intros H Hh Hr. split; [apply Hr..|]. intros p s x Hp Hx H8. apply (rl_words _ _ _ Hr).
  intros a [t Ha]. by apply (held_payload σ B L live p s x H Hh Hp Hx H8 a t Ha).
Qed.

Lemma held_start σ B L live p s : heap_ok σ B L → held_ok live B L → live !! p = Some s →
  HEAP_START σ + BLOCK_SIZE ≤ p ∧ p + s ≤ HEAP_START σ + HEAP_OFFSET σ ∧ p mod 8 = 0.
Proof.
  intros H [Hh _] Hp. destruct (Hh p s Hp) as (_ & s' & Hs' & Hle).
  destruct (ho_block _ _ _ H _ _ Hs') as (? & ? & ? & ? & _). unfold BLOCK_SIZE in *. split_and!; [lia|lia|divlia].
Qed.

Lemma carve_kept σ B L live off size fin : heap_ok σ B L → held_ok live B L → HEAP_OFFSET σ ≤ off →
  kept live σ (carve σ (HEAP_START σ + off) size fin).
Proof.
  intros H Hh Ho. split; [done..|]. intros p s x Hp Hx H8. destruct (held_start _ _ _ _ _ _ H Hh Hp) as (_ & ? & _).
  cbn [hmem carve set_offset set_hmem]. unfold f_prev, f_next, f_size. by rewrite !lookup_insert_ne by lia.
Qed.

Lemma alloc_run σ live size align : run_inv σ live → layout_ok size align →
  wp (alloc size align) (λ r σ', r = 0 ∧ σ' = σ ∨
    r ≠ 0 ∧ live !! r = None ∧ run_inv σ' (<[r := size]> live) ∧ kept live σ σ') σ.
Proof.
  intros (B & L & H & Hh) Hl. eapply wp_mono; [by apply heap_alloc_ok|]. intros r σ'.
  pose proof (ho_start _ _ _ H) as (S1 & _ & _). pose proof (ho_offset _ _ _ H). pose proof (ho_limit _ _ _ H).
  intros [(k1 & a & k2 & s & -> & _ & Ha & Hs & -> & H' & Hr)|[_ [(Hfit & -> & Ha & -> & H')|(_ & -> & ->)]]].
  - right. destruct (ho_block _ _ _ H _ _ Ha) as (_ & _ & ? & _). split_and!.
    + unfold BLOCK_SIZE. lia.
    + apply eq_None_not_Some. intros [t Ht]. destruct (proj1 Hh _ _ Ht) as [Hno _]. apply Hno.
      replace (a + BLOCK_SIZE - BLOCK_SIZE) with a by lia. set_solver.
    + exists B, (k1 ++ k2). split; [done|]. eapply held_ok_reuse; [done|apply (ho_nodup _ _ _ H)|done|done].
    + by eapply relinked_kept.
  - right. destruct (next_block_ok (HEAP_OFFSET σ) size align Hl) as (Hn & _); [lia|].
    set (a := HEAP_START σ + next_block (HEAP_OFFSET σ) align) in *. split_and!.
    + unfold BLOCK_SIZE. lia.
    + apply eq_None_not_Some. intros [t Ht]. destruct (proj1 Hh _ _ Ht) as (_ & s' & Hs' & _).
      replace (a + BLOCK_SIZE - BLOCK_SIZE) with a in Hs' by lia. by rewrite Ha in Hs'.
    + eexists _, L. split; [exact H'|]. apply held_ok_new; [done|done|]. intros HL%(ho_free _ _ _ H).
      rewrite Ha in HL. by destruct HL.
    + eapply carve_kept; [done|done|lia].
  - by left.
Qed.

Lemma dealloc_run σ live p size : run_inv σ live → live !! p = Some size →
  wp (dealloc p) (λ _ σ', run_inv σ' (delete p live) ∧ kept live σ σ') σ.
Proof.
  intros (B & L & H & Hh) Hp. destruct (proj1 Hh _ _ Hp) as (HL & s' & Hs' & _).
  replace p with (p - BLOCK_SIZE + BLOCK_SIZE) at 1 by lia.
  eapply wp_mono; [by eapply dealloc_ok|]. intros _ σ' [H' Hr]. split; [|by eapply relinked_kept].
  exists B, (L ++ [p - BLOCK_SIZE]). split; [done|]. by eapply held_ok_free.
Qed.

Lemma heap_run_inv σ live : heap_run σ live → run_inv σ live.
Proof.
  induction 1 as [σ σ' Hm E|σ live size align σ' _ IH Hl E|σ live size align p σ' _ IH Hl E Hp|
    σ live p size σ' _ IH Hp E|σ live p size x w σ' _ (B & L & H & Hh) Hp Hx E].
  - destruct (wp_result _ _ _ (init_allocator_ok _ _ _ _ Hm)) as (? & ? & E' & H & _). rewrite E in E'.
    injection E' as <- <-. exists ∅, []. split; [done|]. split; intros ? ? [=].
  - destruct (wp_result _ _ _ (alloc_run _ _ _ _ IH Hl)) as (? & ? & E' & H). rewrite E in E'.
    injection E' as <- <-. by destruct H as [[_ ->]|[? _]].
  - destruct (wp_result _ _ _ (alloc_run _ _ _ _ IH Hl)) as (? & ? & E' & H). rewrite E in E'.
    injection E' as <- <-. by destruct H as [[? _]|(_ & _ & ? & _)].
  - destruct (wp_result _ _ _ (dealloc_run _ _ _ _ IH Hp)) as (? & ? & E' & H & _). rewrite E in E'.
    by injection E' as <- <-.
  - unfold hsd, kstore in E. case_match eqn:H8; [|done]. destruct (hmem σ !! x) as [v|] eqn:Ex; [|done].
    simplify_eq/=. exists B, L. split; [|done]. apply store_ok; [done|by rewrite Ex|].
    eapply held_payload; [done|done|done|done|]. by apply Z.eqb_eq.
Qed.
End clients.

(** Two blocks held do not overlap. *)
Lemma held_apart σ B L live p s q t : heap_ok σ B L → held_ok live B L →
  live !! p = Some s → live !! q = Some t → p ≠ q → p + s ≤ q ∨ q + t ≤ p.
Proof.
  intros H [Hh _] Hp Hq Hne. destruct (Hh p s Hp) as (_ & s' & Hs' & ?). destruct (Hh q t Hq) as (_ & t' & Ht' & ?).
  destruct (ho_apart _ _ _ H _ _ _ _ Hs' Ht') as [?|?]; unfold BLOCK_SIZE in *; lia.
Qed.

(** Whether a block freed or the rest of the heap can hold [size] bytes. *)
Lemma alloc_null σ B L size align σ' : heap_ok σ B L → layout_ok size align → alloc size align σ = Some (0, σ') →
  (∀ a s, a ∈ L → B !! a = Some s → s < size) ∧
  HEAP_SIZE σ < next_block (HEAP_OFFSET σ) align + (BLOCK_SIZE + size).
Proof.
  intros H Hl E. destruct (wp_result _ _ _ (heap_alloc_ok _ _ _ _ _ H Hl)) as (? & ? & E' & Hr). rewrite E in E'.
  injection E' as <- <-. pose proof (ho_start _ _ _ H) as (S1 & _ & _). pose proof (ho_offset _ _ _ H).
  pose proof (ho_limit _ _ _ H). destruct (next_block_ok (HEAP_OFFSET σ) size align Hl) as (Hn & _); [lia|].
  destruct Hr as [(k1 & a & k2 & s & -> & _ & Ha & _ & Hr & _)|[Hs [(_ & Hr & _)|(Hf & _)]]].
  - destruct (ho_block _ _ _ H _ _ Ha) as (_ & _ & ? & _). unfold BLOCK_SIZE in Hr. lia.
  - unfold BLOCK_SIZE in Hr. lia.
  - split; [|done]. intros a s Ha Hb. by eapply Hs.
Qed.

(** C3. The kernel heap. Whatever clients do with the blocks they were given,
    the blocks they hold are in the heap, aligned to a word, and do not overlap;
    [alloc] never faults and terminates: it gives a block that is not held and
    leaves the payloads of the others alone, or null, and then nothing changed;
    [dealloc] of a block held never faults, leaves the payloads of the others
    alone, and the block can be given again: the next [alloc] of at most its size
    does not return null. *)
Theorem heap_client_safety memory_map top e σ live : heap_run memory_map top e σ live →
  (∀ p s, live !! p = Some s → HEAP_START σ < p ∧ p + s ≤ HEAP_START σ + HEAP_SIZE σ ∧ p mod 8 = 0 ∧
     ∀ q t, live !! q = Some t → p ≠ q → p + s ≤ q ∨ q + t ≤ p) ∧
  (∀ size align, layout_ok size align → ∃ r σ', alloc size align σ = Some (r, σ') ∧
     (r = 0 ∧ σ' = σ ∨ r ≠ 0 ∧ live !! r = None ∧ heap_run memory_map top e σ' (<[r := size]> live) ∧ kept live σ σ')) ∧
  (∀ p s, live !! p = Some s → ∃ σ', dealloc p σ = Some (tt, σ') ∧
     heap_run memory_map top e σ' (delete p live) ∧ kept live σ σ' ∧
     ∀ size align, layout_ok size align → size ≤ s → ∃ r σ'', alloc size align σ' = Some (r, σ'') ∧ r ≠ 0).
Proof.
  intros Hrun. pose proof (heap_run_inv _ _ _ _ _ Hrun) as Hinv. pose proof Hinv as (B & L & H & Hh).
  pose proof (ho_offset _ _ _ H) as Hoff. split_and!.
  - intros p s Hp. destruct (held_start _ _ _ _ _ _ H Hh Hp) as (? & ? & ?). unfold BLOCK_SIZE in *.
    split_and!; [lia|lia|done|]. intros q t Hq Hne. by eapply held_apart.
  - intros size align Hl. destruct (wp_result _ _ _ (alloc_run _ _ _ _ Hinv Hl)) as (r & σ' & E & Hr).
    exists r, σ'. split; [done|]. destruct Hr as [?|(? & ? & _ & ?)]; [by left|right].
    split_and!; [done|done|by eapply run_block|done].
  - intros p s Hp. destruct (wp_result _ _ _ (dealloc_run _ _ _ _ Hinv Hp)) as ([] & σ' & E & Hinv' & Hk).
    exists σ'. split_and!; [done|by eapply run_dealloc|done|]. intros size align Hl Hle.
    destruct (proj1 Hh _ _ Hp) as (HL & s' & Hs' & ?).
    replace p with (p - BLOCK_SIZE + BLOCK_SIZE) in E by lia.
    destruct (wp_result _ _ _ (dealloc_ok _ _ _ _ _ H Hs' HL)) as (? & ? & E' & H' & _). rewrite E in E'.
    injection E' as <- <-. destruct (wp_result _ _ _ (heap_alloc_ok _ _ _ _ _ H' Hl)) as (r & σ'' & Ea & _).
    exists r, σ''. split; [done|]. intros ->. destruct (alloc_null _ _ _ _ _ _ H' Hl Ea) as [Hsm _].
    specialize (Hsm (p - BLOCK_SIZE) s'). assert (s' < size); [|lia]. apply Hsm; [set_solver|done].
Qed.

(** ** New blocks *)

Lemma heap_run_start memory_map top e σ live : heap_run memory_map top e σ live →
  HEAP_START σ = ent_base e + bitmap_bytes top + HHDM_OFFSET ∧ HEAP_START σ mod PAGE_SIZE = 0.
Proof.
  induction 1 as [σ σ' Hm E|σ live size align σ' Hr IH Hl E|σ live size align p σ' Hr IH Hl E Hp|
    σ live p size σ' Hr IH Hp E|σ live p size x w σ' _ IH Hp Hx E].
  - destruct (wp_result _ _ _ (init_allocator_ok _ _ _ _ Hm)) as (? & ? & E' & _ & Hs & _). rewrite E in E'.
    injection E' as <- <-. split; [done|]. rewrite Hs. destruct Hm as [Ht Hlim He [_ Hb] _ _].
    destruct (heap_entry_in _ _ _ He Ht) as [? _]. destruct (bitmap_bytes_ok top) as (_ & Hb4 & _); [lia|].
    unfold PAGE_SIZE, HHDM_OFFSET in *. divlia.
  - destruct (wp_result _ _ _ (alloc_run _ _ _ _ (heap_run_inv _ _ _ _ _ Hr) Hl)) as (? & ? & E' & H). rewrite E in E'.
    injection E' as <- <-. by destruct H as [[_ ->]|[? _]].
  - destruct (wp_result _ _ _ (alloc_run _ _ _ _ (heap_run_inv _ _ _ _ _ Hr) Hl)) as (? & ? & E' & H). rewrite E in E'.
    injection E' as <- <-. destruct H as [[? _]|(_ & _ & _ & [-> _ _])]; done.
  - destruct (wp_result _ _ _ (dealloc_run _ _ _ _ (heap_run_inv _ _ _ _ _ Hr) Hp)) as (? & ? & E' & _ & [Hs _ _]).
    rewrite E in E'. injection E' as <- <-. by rewrite Hs.
  - unfold hsd, kstore in E. case_match eqn:H8; [|done]. destruct (hmem σ !! x) as [v|] eqn:Ex; [|done].
    by simplify_eq/=.
Qed.

(** An [alloc] that moves the end of the heap made a new block there. *)
Lemma alloc_new σ B L size align p σ' : heap_ok σ B L → layout_ok size align → alloc size align σ = Some (p, σ') →
  HEAP_OFFSET σ' ≠ HEAP_OFFSET σ → let off := next_block (HEAP_OFFSET σ) align in
  too_small B size L ∧ off + (BLOCK_SIZE + size) ≤ HEAP_SIZE σ ∧ p = HEAP_START σ + off + BLOCK_SIZE ∧
  σ' = carve σ (HEAP_START σ + off) size (off + (BLOCK_SIZE + size)).
Proof.
  intros H Hl E Hne off. destruct (wp_result _ _ _ (heap_alloc_ok _ _ _ _ _ H Hl)) as (? & ? & E' & Hr). rewrite E in E'.
  injection E' as <- <-.
  destruct Hr as [(? & ? & ? & ? & _ & _ & _ & _ & _ & _ & Hr)|[Hs [(? & ? & _ & ? & _)|(_ & _ & ->)]]]; [|done|done].
  by destruct (Hne (rl_offset _ _ _ Hr)).
Qed.

(** C38. A new block is not aligned as its [Layout] asks: the header of 24 bytes
    sits at the aligned address, so for every alignment from 16 bytes up to a
    page the pointer is 24 bytes past a multiple of it, and no multiple. The
    kernel stacks are asked for with the alignment of a page. *)
Theorem alloc_misaligned memory_map top e σ live size k p σ' : heap_run memory_map top e σ live →
  layout_ok size (2 ^ k) → 4 ≤ k ≤ 12 → alloc size (2 ^ k) σ = Some (p, σ') → HEAP_OFFSET σ' ≠ HEAP_OFFSET σ →
  p mod 2 ^ k = BLOCK_SIZE mod 2 ^ k ∧ p mod 2 ^ k ≠ 0.
Proof.
  intros Hrun Hl Hk E Hne. destruct (heap_run_inv _ _ _ _ _ Hrun) as (B & L & H & _).
  destruct (heap_run_start _ _ _ _ _ Hrun) as [_ Hpage]. destruct (alloc_new _ _ _ _ _ _ _ H Hl E Hne) as (_ & _ & -> & _).
  pose proof (ho_offset _ _ _ H). pose proof (ho_limit _ _ _ H).
  destruct (next_block_ok (HEAP_OFFSET σ) size (2 ^ k) Hl) as (_ & _ & Hn); [lia|].
  set (off := next_block _ _) in *. unfold BLOCK_SIZE.
  assert ((HEAP_START σ + off) mod 2 ^ k = 0) as Hz.
  { rewrite Z.add_mod, Hn, Z.add_0_r, Z.mod_mod by lia. apply Z.mod_divide; [lia|].
    apply (Z.divide_trans _ PAGE_SIZE); [|by apply Z.mod_divide].
    exists (2 ^ (12 - k)). rewrite <- Z.pow_add_r by lia. by replace (12 - k + k) with 12 by lia. }
  rewrite <- Zplus_mod_idemp_l, Hz, Z.add_0_l. split; [done|].
  assert (k = 4 ∨ 5 ≤ k) as [->|Hk5] by lia; [done|].
  assert (2 ^ 5 ≤ 2 ^ k) by (apply Z.pow_le_mono_r; lia). rewrite Z.mod_small; lia.
Qed.

(** The block can be made again once the offset is back at its start. *)
Lemma carve_back_ok σ B L a size off fin : heap_ok σ B L → HEAP_OFFSET σ ≤ off ≤ HEAP_SIZE σ →
  HEAP_START σ + off = a → a mod 8 = 0 → heap_ok (set_offset off (carve σ a size fin)) B L.
Proof.
  intros H Ho <- H8a. pose proof H as [H1 H1' H2 H3 H4 H5 H6 H7 (H8 & Hh) H9]. unfold BLOCK_SIZE in *.
  assert (∀ x, x < HEAP_START σ + off → hmem (carve σ (HEAP_START σ + off) size fin) !! x = hmem σ !! x) as Hold.
  { intros x Hx. cbn [hmem carve set_offset set_hmem]. unfold f_prev, f_next, f_size. by rewrite !lookup_insert_ne by lia. }
  split; cbn [HEAP_START HEAP_SIZE HEAP_OFFSET head tail count set_offset carve set_hmem]; try done.
  - lia.
  - intros x Hx1 Hx2 Hx3. cbn [hmem carve set_offset set_hmem]. rewrite !lookup_insert_is_Some'. do 3 right. by apply H3.
  - intros b s Hb. destruct (H4 b s Hb) as (? & ? & ? & ? & Hsz). unfold BLOCK_SIZE in *. split_and!; [done..|lia|].
    etransitivity; [apply Hold; unfold f_size; lia|done].
  - split; [|done]. eapply dseg_same; [|exact H8]. intros b [s Hs']%H6. destruct (H4 b s Hs') as (_ & ? & ? & ? & _).
    split; (etransitivity; [apply Hold; unfold f_next, f_prev; lia|done]).
Qed.

Lemma next_block_idem off size align : layout_ok size align → 0 ≤ off ≤ 2 ^ 48 → next_block off align ≤ 2 ^ 48 →
  next_block (next_block off align) align = next_block off align.
Proof.
  intros [_ (k & Hk & ->)] Ho Hn. set (n := next_block off (2 ^ k)) in *.
  assert (Z.max (2 ^ k) 8 = 2 ^ Z.max k 3) as Hmax.
  { destruct (Z.le_ge_cases k 3) as [?|?].
    - assert (2 ^ k ≤ 2 ^ 3) by (apply Z.pow_le_mono_r; lia). rewrite !Z.max_r; lia.
    - assert (2 ^ 3 ≤ 2 ^ k) by (apply Z.pow_le_mono_r; lia). rewrite !Z.max_l; lia. }
  assert (2 ^ Z.max k 3 < 2 ^ 63) by (apply Z.pow_lt_mono_r; lia).
  assert (off ≤ n ∧ n mod 2 ^ Z.max k 3 = 0) as [Hge Hn0].
  { destruct (round_up off (Z.max k 3)) as [H1 H2]; [lia..|]. unfold n, next_block. rewrite Hmax. split; [lia|done]. }
  unfold next_block. rewrite Hmax.
  destruct (round_up n (Z.max k 3)) as [H1 H2]; [lia..|]. revert H1 H2. set (r := Z.land _ _). intros H1 H2.
  assert (0 < 2 ^ Z.max k 3) by lia. apply Z.mod_divide in Hn0 as [u Hu]; [|lia]. apply Z.mod_divide in H2 as [v Hv]; [|lia].
  rewrite Hu, Hv in H1. assert (u = v) as -> by nia. lia.
Qed.


(** ** The heap and the frames *)

(** What the boot protocol promises of the memory map: usable entries are
    aligned to pages and overlap no other entry. *)
Record usable_apart (memory_map : list Entry) : Prop := {
  ua_pages e : e ∈ memory_map → usable e = true → ent_base e mod PAGE_SIZE = 0 ∧ ent_length e mod PAGE_SIZE = 0;
  ua_apart e e' : e ∈ memory_map → e' ∈ memory_map → usable e = true → e = e' ∨
    ent_base e + ent_length e ≤ ent_base e' ∨ ent_base e' + ent_length e' ≤ ent_base e;
  ua_nonneg e : e ∈ memory_map → 0 ≤ ent_base e ∧ 0 ≤ ent_length e;
}.

(** A page of a usable entry is in no other entry, as [init] counts its pages. *)
Lemma usable_page_apart memory_map e e' f : usable_apart memory_map → e ∈ memory_map → e' ∈ memory_map →
  usable e = true → e ≠ e' → ent_base e ≤ f * PAGE_SIZE < ent_base e + ent_length e →
  in_range (ent_base e' / PAGE_SIZE) ((ent_length e' + PAGE_SIZE - 1) / PAGE_SIZE) f = false.
Proof.
  intros [Hp Ha Hn] He He' Hu Hne Hf. destruct (Hp e He Hu). destruct (Hn e' He').
  destruct (Ha e e' He He' Hu) as [?|Hd]; [done|]. unfold in_range, PAGE_SIZE in *.
  apply not_true_is_false. rewrite andb_true_iff. divlia.
Qed.

Lemma bitmap_entry_in memory_map e : bitmap_entry (bitmap_words memory_map) memory_map = Some e →
  e ∈ memory_map ∧ usable e = true ∧ bitmap_words memory_map * 8 ≤ ent_length e.
Proof.
  intros [Hin Hb]%find_some. apply list_elem_of_In in Hin. split; [done|]. apply andb_true_iff in Hb as [? Hb].
  split; [done|]. lia.
Qed.

Lemma frame_run_entry memory_map e σ held : frame_run memory_map e σ held →
  bitmap_entry (bitmap_words memory_map) memory_map = Some e.
Proof. induction 1 as [σ σ' Hm _| | |]; [apply Hm|done..]. Qed.

(** The pages of the heap are free at the start. *)
Lemma heap_page_free memory_map top e eb f : usable_apart memory_map →
  max_addr memory_map = Some top → top < 2 ^ 46 → heap_entry memory_map = Some e →
  bitmap_entry (bitmap_words memory_map) memory_map = Some eb → 256 ≤ f →
  ent_base e + bitmap_bytes top ≤ f * PAGE_SIZE < ent_base e + ent_length e →
  free_at_start memory_map eb f = true.
Proof.
  intros Hua Ht Hlim He Heb Hf Hin. destruct (heap_entry_in _ _ _ He Ht) as [Ht0 Hend].
  apply find_some in He as [He%list_elem_of_In [Hu _]%andb_true_iff].
  destruct (bitmap_entry_in _ _ Heb) as (Hebin & Hub & Hroom).
  destruct (bitmap_bytes_ok top) as (Hbb & Hb4 & Hbw); [lia|].
  assert (bitmap_words memory_map * 8 ≤ bitmap_bytes top) as Hw.
  { unfold bitmap_words, total_frames. rewrite Ht. change (default 0 (Some top)) with top. unfold PAGE_SIZE.
    by replace (top + 4096 - 1) with (top + 4095) by lia. }
  destruct (ua_pages _ Hua e He Hu) as [Hp1 Hp2]. destruct (ua_nonneg _ Hua e He).
  unfold free_at_start. rewrite !andb_true_iff, !negb_true_iff. split_and!.
  - apply existsb_exists. exists e. split; [by apply list_elem_of_In|]. rewrite Hu. unfold in_range, PAGE_SIZE in *.
    apply andb_true_iff. rewrite andb_true_iff. divlia.
  - apply not_true_is_false. intros (e' & He'%list_elem_of_In & [Hu' Hr]%andb_true_iff)%existsb_exists.
    rewrite (usable_page_apart memory_map e e' f) in Hr; [done|done|done|done|done| |lia]. intros <-. by rewrite Hu in Hu'.
  - unfold in_range. apply andb_false_iff. lia.
  - destruct (decide (e = eb)) as [<-|Hne].
    + unfold in_range, PAGE_SIZE in *. apply andb_false_iff. divlia.
    + apply not_true_is_false. intros Hr.
      pose proof (usable_page_apart memory_map e eb f Hua He Hebin Hu Hne ltac:(lia)) as Hr'. revert Hr Hr'.
      unfold in_range, PAGE_SIZE in *. rewrite andb_true_iff, andb_false_iff. divlia.
  - unfold total_frames. rewrite Ht. change (default 0 (Some top)) with top. unfold PAGE_SIZE in *. divlia.
Qed.

(** C37. The heap is not reserved in the frame allocator: [VMM::init] marks the
    usable memory free before [init_allocator] takes the first large entry of it,
    and nothing marks the pages of the heap used. From any state of the frame
    allocator, every page of the heap above 1 MiB is given out as a frame after
    enough allocations, to clients that write page tables and user pages there. *)
Theorem heap_frames_shared memory_map top e eb h0 h σ held f : usable_apart memory_map →
  heap_map_ok h0 memory_map top e → init_allocator memory_map h0 = Some (tt, h) →
  frame_run memory_map eb σ held →
  256 ≤ f → HEAP_START h ≤ f * PAGE_SIZE + HHDM_OFFSET < HEAP_START h + HEAP_SIZE h →
  ∃ σ' more, frame_run memory_map eb σ' (more ++ held) ∧ f * PAGE_SIZE ∈ more ++ held.
Proof.
  intros Hua Hm E Hrun Hf Hin. eapply frame_given; [exact Hrun|].
  destruct (wp_result _ _ _ (init_allocator_ok _ _ _ _ Hm)) as (? & ? & E' & _ & Hs & Hz & _).
  rewrite E in E'. injection E' as <- <-. destruct Hm as [Ht Hlim He [Hb0 _] _ _].
  eapply heap_page_free; [done|done|done|done|by eapply frame_run_entry|done|lia].
Qed.

(** ** A machine with 17 MiB *)
Definition big_entry : Entry := MkEntry 0x100000 0x1002000 true.
Definition big_map : list Entry := [MkEntry 0 0x100000 false; big_entry].
Definition big_top : Z := 0x1102000.
Definition big_heap : heap := Heap (words_at (0x100000 + HHDM_OFFSET) 0x200400) 0 0 0 0 0 0.
Definition big_mm : mm := Mm (words_at (0x100000 + HHDM_OFFSET) 0x200400) (Frames 0 0 0) 0 0 0 0 0.

Lemma big_heap_ok : heap_map_ok big_heap big_map big_top big_entry.
Proof.
  split; [exact eq_refl|done|exact eq_refl|done| |].
  - by vm_compute.
  - cbn [ent_base ent_length big_entry hmem big_heap]. intros x H1 H2 H8.
    replace x with (0x100000 + HHDM_OFFSET + 8 * ((x - (0x100000 + HHDM_OFFSET)) / 8)) by (unfold HHDM_OFFSET in *; divlia).
    eexists. apply words_at_lookup. unfold HHDM_OFFSET in *. divlia.
Qed.

Lemma big_mm_ok : map_ok big_mm big_map big_entry.
Proof.
  split.
  - repeat constructor; done.
  - exists big_top. split; [exact eq_refl|done].
  - exact eq_refl.
  - split; [|exact eq_refl]. cbn [ent_base big_entry]. lia.
  - intros i Hi. eexists. apply words_at_lookup. change (bitmap_words big_map) with 69 in Hi. lia.
Qed.

Lemma big_apart : usable_apart big_map.
Proof.
  unfold big_map. split.
  - intros e [->|[->|[]%elem_of_nil]%elem_of_cons]%elem_of_cons; done.
  - intros e e' [->|[->|[]%elem_of_nil]%elem_of_cons]%elem_of_cons; [done|].
    intros [->|[->|[]%elem_of_nil]%elem_of_cons]%elem_of_cons _; [right; right; by vm_compute|by left].
  - intros e [->|[->|[]%elem_of_nil]%elem_of_cons]%elem_of_cons; done.
Qed.

(** The heap of the machine after the start, and with a block given. *)
Lemma big_start : ∃ h, init_allocator big_map big_heap = Some (tt, h) ∧ HEAP_OFFSET h = 0 ∧
  HEAP_START h = 0x101000 + HHDM_OFFSET ∧ HEAP_SIZE h = 0x1001000 ∧ heap_ok h ∅ [].
Proof.
  destruct (wp_result _ _ _ (init_allocator_ok _ _ _ _ big_heap_ok)) as ([] & h & E & H & Hs & Hz & H0).
  exists h. split_and!; [exact E|exact H0|rewrite Hs; exact eq_refl|rewrite Hz; exact eq_refl|exact H].
Qed.

(** A new block of the machine's heap. *)
Lemma big_alloc size align : layout_ok size align → next_block 0 align = 0 → size ≤ 0x1000000 → ∃ h p h',
  heap_run big_map big_top big_entry h ∅ ∧ alloc size align h = Some (p, h') ∧ p ≠ 0 ∧ HEAP_OFFSET h' ≠ HEAP_OFFSET h.
Proof.
  intros Hl Hn Hs. destruct big_start as (h & E & H0 & Hst & Hsz & H).
  destruct (wp_result _ _ _ (heap_alloc_ok _ _ _ _ _ H Hl)) as (p & h' & Ea & Hr).
  rewrite H0, Hn, Hst, Hsz in Hr. assert (0 ≤ size) by apply Hl.
  destruct Hr as [(k1 & a & k2 & s & HL & _)|[_ [(_ & -> & _ & -> & _)|(Hno & _)]]].
  - by destruct k1.
  - eexists h, _, _. split; [eapply run_start; [exact big_heap_ok|exact E]|]. split; [exact Ea|].
    cbn [HEAP_OFFSET carve set_offset]. unfold BLOCK_SIZE, HHDM_OFFSET. split; lia.
  - unfold BLOCK_SIZE in Hno. lia.
Qed.

Lemma layout_page : layout_ok 0x4000 (2 ^ 12).
Proof. split; [lia|]. exists 12. lia. Qed.
Lemma layout_word : layout_ok 100 8.
Proof. split; [lia|]. exists 3. lia. Qed.

Lemma heap_client_safety_witness : ∃ h p h', heap_run big_map big_top big_entry h {[p := 100]} ∧
  dealloc p h = Some (tt, h') ∧ ∃ r h'', alloc 100 8 h' = Some (r, h'') ∧ r ≠ 0.
Proof.
  destruct (big_alloc 100 8 layout_word eq_refl ltac:(lia)) as (h0 & p & h & Hrun0 & E & Hp & _).
  pose proof (run_block _ _ _ _ _ _ _ _ _ Hrun0 layout_word E Hp) as Hrun.
  destruct (heap_client_safety _ _ _ _ _ Hrun) as (_ & _ & Hfree).
  destruct (Hfree p 100) as (h' & Ed & _ & _ & Hagain); [apply lookup_insert_eq|].
  exists h, p, h'. split; [exact Hrun|]. split; [exact Ed|]. apply Hagain; [exact layout_word|lia].
Defined.

Lemma alloc_misaligned_witness : ∃ h p h', alloc 0x4000 (2 ^ 12) h = Some (p, h') ∧ p mod 2 ^ 12 = 24.
Proof.
  destruct (big_alloc 0x4000 (2 ^ 12) layout_page eq_refl ltac:(lia)) as (h & p & h' & Hrun & E & _ & Hne).
  exists h, p, h'. split; [exact E|].
  exact (proj1 (alloc_misaligned _ _ _ _ _ _ 12 _ _ Hrun layout_page ltac:(lia) E Hne)).
Defined.


Lemma heap_frames_shared_witness : ∃ h σ held, init_allocator big_map big_heap = Some (tt, h) ∧
  frame_run big_map big_entry σ held ∧ HEAP_START h = 0x101000 + HHDM_OFFSET ∧ 0x101000 ∈ held.
Proof.
  destruct big_start as (h & E & _ & Hst & Hsz & _).
  destruct (wp_result _ _ _ (init_ok _ _ _ big_mm_ok)) as ([] & σ & Ei & _).
  pose proof (run_init _ _ _ _ big_mm_ok Ei) as Hrun.
  destruct (heap_frames_shared big_map big_top big_entry big_entry big_heap h σ [] 257) as (σ' & more & Hrun' & Hin).
  - exact big_apart.
  - exact big_heap_ok.
  - exact E.
  - exact Hrun.
  - lia.
  - rewrite Hst, Hsz. unfold PAGE_SIZE, HHDM_OFFSET. lia.
  - exists h, σ', (more ++ []). split; [exact E|]. split; [exact Hrun'|]. split; [exact Hst|exact Hin].
Defined.
