(* ===== verification/FileSystem.v ===== *)
(** * File systems

    Models the trait [FileSystem] of vfs/src/lib.rs as a class over the handles
    [H] of mounted file systems and the state [G] they live in, what a file
    system promises to the VFS as the class [FileSystemSpec], and the driver
    [RamFs], an instance of both. *)
From Stdlib Require Import Ascii.
From S2P Require Import Prelude Rust.

(** ** Names *)

Definition to_ascii_lowercase (c : ascii) : ascii :=
  if (65 <=? N_of_ascii c)%N && (N_of_ascii c <=? 90)%N then ascii_of_N (N_of_ascii c + 32) else c.

Definition to_ascii_uppercase (c : ascii) : ascii :=
  if (97 <=? N_of_ascii c)%N && (N_of_ascii c <=? 122)%N then ascii_of_N (N_of_ascii c - 32) else c.

Fixpoint map_ascii (f : ascii → ascii) (s : string) : string :=
  match s with
  | EmptyString => EmptyString
  | String c s => String (f c) (map_ascii f s)
  end.

Definition eq_ignore_ascii_case (a b : string) : bool :=
  String.eqb (map_ascii to_ascii_lowercase a) (map_ascii to_ascii_lowercase b).

(** ** The trait *)

Record FsInfo := MkFsInfo { total_bytes : Z; free_bytes : Z; fs_type : string }.
Record VfsDirEntry := MkVfsDirEntry { de_name : string; de_is_dir : bool; de_size : Z }.

Class FileSystem (H G : Type) := {
  read_file : H → string → ST G (Result (list Z));
  create_file : H → string → list Z → ST G (Result unit);
  write_file : H → string → list Z → ST G (Result unit);
  append_file : H → string → list Z → ST G (Result unit);
  delete_file : H → string → ST G (Result unit);
  rename_file : H → string → string → ST G (Result unit);
  file_exists : H → string → ST G bool;
  get_file_size : H → string → ST G (option Z);
  list_dir : H → ST G (Result (list VfsDirEntry));
  create_dir : H → string → ST G (Result unit);
  delete_dir : H → string → ST G (Result unit);
  stat_fs : H → ST G FsInfo;
}.

(** A [Vec] whose first element in [p] is changed by [f]; [None] when there is none. *)
Fixpoint update_first {A} (p : A → bool) (f : A → A) (l : list A) : option (list A) :=
  match l with
  | [] => None
  | x :: l => if p x then Some (f x :: l) else cons x <$> update_first p f l
  end.

(** [Option::ok_or]. *)
Definition ok_or {A} (o : option A) (e : string) : Result A :=
  match o with Some x => Ok x | None => Err e end.

(** ** The driver RamFs

    A file system in memory: the files of each one, by its handle. *)
Record RamFile := MkRamFile { rf_name : string; rf_data : list Z }.
Abbreviation ram := (gmap nat (list RamFile)).

Module RamFs.
Definition files_of (h : nat) : ST ram (list RamFile) := λ g, fs ← g !! h; Some (fs, g).
Definition set_files (h : nat) (fs : list RamFile) : ST ram unit := modify (λ g, <[h := fs]> g).

(** The closure [|f| f.name.eq_ignore_ascii_case(filename)]. *)
Definition named (filename : string) (f : RamFile) : bool := eq_ignore_ascii_case (rf_name f) filename.

Definition new (h : nat) : ST ram unit := set_files h [].

Definition read_file (h : nat) (filename : string) : ST ram (Result (list Z)) :=
  files ← files_of h;
  mret (ok_or (rf_data <$> List.find (named filename) files) "File not found").

Definition create_file (h : nat) (filename : string) (data : list Z) : ST ram (Result unit) :=
  files ← files_of h;
  if existsb (named filename) files then mret (Err "File already exists")
  else
    _ ← set_files h (files ++ [MkRamFile filename data]);
    mret (Ok tt).

(** [iter_mut().find(..).map(..).ok_or("File not found")]. *)
Definition change (h : nat) (filename : string) (f : RamFile → RamFile) : ST ram (Result unit) :=
  files ← files_of h;
  match update_first (named filename) f files with
  | Some files => _ ← set_files h files; mret (Ok tt)
  | None => mret (Err "File not found")
  end.

Definition write_file (h : nat) (filename : string) (data : list Z) : ST ram (Result unit) :=
  change h filename (λ f, MkRamFile (rf_name f) data).

Definition append_file (h : nat) (filename : string) (data : list Z) : ST ram (Result unit) :=
  change h filename (λ f, MkRamFile (rf_name f) (rf_data f ++ data)).

Definition delete_file (h : nat) (filename : string) : ST ram (Result unit) :=
  files ← files_of h;
  let before := length files in
  let files := List.filter (λ f, negb (named filename f)) files in
  _ ← set_files h files;
  mret (if (length files =? before)%nat then Err "File not found" else Ok tt).

Definition rename_file (h : nat) (old_name new_name : string) : ST ram (Result unit) :=
  files ← files_of h;
  if existsb (named new_name) files then mret (Err "Destination filename already exists")
  else change h old_name (λ f, MkRamFile new_name (rf_data f)).

Definition file_exists (h : nat) (filename : string) : ST ram bool :=
  files ← files_of h;
  mret (existsb (named filename) files).

Definition get_file_size (h : nat) (filename : string) : ST ram (option Z) :=
  files ← files_of h;
  mret ((λ f, u32 (Z.of_nat (length (rf_data f)))) <$> List.find (named filename) files).

Definition list_dir (h : nat) : ST ram (Result (list VfsDirEntry)) :=
  files ← files_of h;
  mret (Ok ((λ f, MkVfsDirEntry (rf_name f) false (u32 (Z.of_nat (length (rf_data f))))) <$> files)).

Definition create_dir (h : nat) (dirname : string) : ST ram (Result unit) :=
  mret (Err "RamFs: subdirectories not supported").
Definition delete_dir (h : nat) (dirname : string) : ST ram (Result unit) :=
  mret (Err "RamFs: subdirectories not supported").

Definition stat_fs (h : nat) : ST ram FsInfo :=
  files ← files_of h;
  used ← lift (fold_left (λ acc f, a ← acc; checked 64 (a + Z.of_nat (length (rf_data f)))) files (Some 0));
  free ← lift (checked 64 (2 ^ 64 - 1 - used));
  mret (MkFsInfo (2 ^ 64 - 1) free "RAMFS").
End RamFs.

#[global] Instance RamFs_FileSystem : FileSystem nat ram := {|
  read_file := RamFs.read_file;
  create_file := RamFs.create_file;
  write_file := RamFs.write_file;
  append_file := RamFs.append_file;
  delete_file := RamFs.delete_file;
  rename_file := RamFs.rename_file;
  file_exists := RamFs.file_exists;
  get_file_size := RamFs.get_file_size;
  list_dir := RamFs.list_dir;
  create_dir := RamFs.create_dir;
  delete_dir := RamFs.delete_dir;
  stat_fs := RamFs.stat_fs;
|}.

(** ** What a file system is

    A map from names, in lower case, to contents, and the operations on it. *)
Definition lower (s : string) : string := map_ascii to_ascii_lowercase s.

Abbreviation afs := (gmap string (list Z)).

Inductive fs_op :=
  | FRead (n : string) | FCreate (n : string) (d : list Z) | FWrite (n : string) (d : list Z)
  | FAppend (n : string) (d : list Z) | FDelete (n : string) | FRename (o n : string)
  | FExists (n : string) | FSize (n : string).

Inductive fs_result :=
  | RData (r : Result (list Z)) | RUnit (r : Result unit) | RBool (b : bool) | RSize (s : option Z).

Definition spec_op (op : fs_op) (m : afs) : fs_result * afs :=
  match op with
  | FRead n => (RData (ok_or (m !! lower n) "File not found"), m)
  | FCreate n d =>
      match m !! lower n with
      | Some _ => (RUnit (Err "File already exists"), m)
      | None => (RUnit (Ok tt), <[lower n := d]> m)
      end
  | FWrite n d =>
      match m !! lower n with
      | Some _ => (RUnit (Ok tt), <[lower n := d]> m)
      | None => (RUnit (Err "File not found"), m)
      end
  | FAppend n d =>
      match m !! lower n with
      | Some d0 => (RUnit (Ok tt), <[lower n := d0 ++ d]> m)
      | None => (RUnit (Err "File not found"), m)
      end
  | FDelete n =>
      match m !! lower n with
      | Some _ => (RUnit (Ok tt), delete (lower n) m)
      | None => (RUnit (Err "File not found"), m)
      end
  | FRename o n =>
      match m !! lower n, m !! lower o with
      | Some _, _ => (RUnit (Err "Destination filename already exists"), m)
      | None, Some d => (RUnit (Ok tt), <[lower n := d]> (delete (lower o) m))
      | None, None => (RUnit (Err "File not found"), m)
      end
  | FExists n => (RBool (bool_decide (is_Some (m !! lower n))), m)
  | FSize n => (RSize ((λ d, u32 (Z.of_nat (length d))) <$> m !! lower n), m)
  end.

(** The same operation on a driver. *)
Definition fs_do {H G} `{!FileSystem H G} (h : H) (op : fs_op) : ST G fs_result :=
  match op with
  | FRead n => r ← read_file h n; mret (RData r)
  | FCreate n d => r ← create_file h n d; mret (RUnit r)
  | FWrite n d => r ← write_file h n d; mret (RUnit r)
  | FAppend n d => r ← append_file h n d; mret (RUnit r)
  | FDelete n => r ← delete_file h n; mret (RUnit r)
  | FRename o n => r ← rename_file h o n; mret (RUnit r)
  | FExists n => b ← file_exists h n; mret (RBool b)
  | FSize n => s ← get_file_size h n; mret (RSize s)
  end.

Fixpoint spec_ops (ops : list fs_op) (m : afs) : list fs_result * afs :=
  match ops with
  | [] => ([], m)
  | op :: ops => let '(r, m) := spec_op op m in let '(rs, m) := spec_ops ops m in (r :: rs, m)
  end.

Fixpoint fs_run {H G} `{!FileSystem H G} (h : H) (ops : list fs_op) : ST G (list fs_result) :=
  match ops with
  | [] => mret []
  | op :: ops => r ← fs_do h op; rs ← fs_run h ops; mret (r :: rs)
  end.

(** *** The files of a RamFs as such a map *)
Definition key (f : RamFile) : string := lower (rf_name f).
Definition abs (fs : list RamFile) : afs := list_to_map ((λ f, (key f, rf_data f)) <$> fs).

Lemma named_spec n f : RamFs.named n f = bool_decide (key f = lower n).
Proof.
  unfold RamFs.named, eq_ignore_ascii_case, key, lower. by destruct (String.eqb_spec
    (map_ascii to_ascii_lowercase (rf_name f)) (map_ascii to_ascii_lowercase n)); case_bool_decide.
Qed.

Lemma abs_cons f fs : abs (f :: fs) = <[key f := rf_data f]> (abs fs).
Proof. done. Qed.

Lemma find_abs n fs : rf_data <$> List.find (RamFs.named n) fs = abs fs !! lower n.
Proof.
  induction fs as [|f fs IH]; [done|]. rewrite abs_cons. simpl. rewrite named_spec. case_bool_decide as Hk.
  - by rewrite Hk, lookup_insert_eq.
  - by rewrite lookup_insert_ne.
Qed.

Lemma existsb_abs n fs : existsb (RamFs.named n) fs = bool_decide (is_Some (abs fs !! lower n)).
Proof.
  induction fs as [|f fs IH]; [done|]. rewrite abs_cons. simpl. rewrite named_spec, IH.
  destruct (decide (key f = lower n)) as [Hk|Hk].
  - rewrite (bool_decide_true (key f = _)), Hk, lookup_insert_eq by done. symmetry. by apply bool_decide_true.
  - by rewrite (bool_decide_false (key f = _)), lookup_insert_ne by done.
Qed.

Lemma abs_none k fs : abs fs !! k = None ↔ k ∉ key <$> fs.
Proof. unfold abs. by rewrite <- not_elem_of_list_to_map, <- list_fmap_compose. Qed.

Lemma abs_app fs f : key f ∉ key <$> fs → abs (fs ++ [f]) = <[key f := rf_data f]> (abs fs).
Proof.
  induction fs as [|g fs IH]; intros Hf; [done|]. rewrite <- app_comm_cons, !abs_cons, IH by set_solver.
  apply insert_insert_ne. set_solver.
Qed.

(** A change of the first file of a name. *)
Lemma update_abs n fs (c : RamFile → RamFile) : NoDup (key <$> fs) →
  match update_first (RamFs.named n) c fs with
  | Some fs' => ∃ fs1 f fs2, fs = fs1 ++ f :: fs2 ∧ key f = lower n ∧ fs' = fs1 ++ c f :: fs2
  | None => abs fs !! lower n = None
  end.
Proof.
  induction fs as [|f fs IH]; intros Hnd; [done|]. rewrite abs_cons. simpl in *. rewrite named_spec.
  apply NoDup_cons in Hnd as [Hf Hnd]. case_bool_decide as Hk.
  - by exists [], f, fs.
  - specialize (IH Hnd). destruct (update_first _ _ fs) as [fs'|]; simpl.
    + destruct IH as (fs1 & g & fs2 & -> & Hg & ->). by exists (f :: fs1), g, fs2.
    + by rewrite lookup_insert_ne.
Qed.

Lemma abs_mid fs1 f fs2 : key f ∉ key <$> fs1 → abs (fs1 ++ f :: fs2) = <[key f := rf_data f]> (abs (fs1 ++ fs2)).
Proof.
  induction fs1 as [|g fs1 IH]; intros Hf; [done|]. rewrite <- !app_comm_cons, !abs_cons, IH by set_solver.
  apply insert_insert_ne. set_solver.
Qed.

Lemma abs_filter n fs : abs (List.filter (λ f, negb (RamFs.named n f)) fs) = delete (lower n) (abs fs) ∧
  ((length (List.filter (λ f, negb (RamFs.named n f)) fs) =? length fs)%nat = false ↔ is_Some (abs fs !! lower n)).
Proof.
  induction fs as [|f fs [IH1 IH2]]; [split; [symmetry; exact (delete_empty (M := gmap string) (lower n))|split; [done|by intros []]]|].
  rewrite abs_cons. simpl. rewrite named_spec. case_bool_decide as Hk; simpl.
  - rewrite IH1, Hk, delete_insert_eq. split; [done|]. rewrite lookup_insert_eq. split; [by eauto|intros _].
    apply Nat.eqb_neq. pose proof (List.filter_length_le (λ f, negb (RamFs.named n f)) fs). lia.
  - rewrite abs_cons, IH1, delete_insert_ne, lookup_insert_ne by done. split; [done|]. exact IH2.
Qed.

(** The files of [h] are [m], and names differ. *)
Definition ram_ok (h : nat) (m : afs) (g : ram) : Prop :=
  ∃ fs, g !! h = Some fs ∧ NoDup (key <$> fs) ∧ abs fs = m.

(** Only the files of [h] change. *)
Definition ram_only (h : nat) (g g' : ram) : Prop := ∀ h', h' ≠ h → g' !! h' = g !! h'.

Lemma wp_files_of h fs (Q : list RamFile → ram → Prop) g : g !! h = Some fs → Q fs g → wp (RamFs.files_of h) Q g.
Proof. intros Hg HQ. unfold wp, RamFs.files_of. by rewrite Hg. Qed.

Lemma wp_set_files h fs (Q : unit → ram → Prop) g : Q tt (<[h := fs]> g) → wp (RamFs.set_files h fs) Q g.
Proof. done. Qed.

Lemma ram_set h m g fs : NoDup (key <$> fs) → abs fs = m → ram_ok h m (<[h := fs]> g) ∧ ram_only h g (<[h := fs]> g).
Proof.
  intros Hnd Ha. split; [exists fs; by rewrite lookup_insert_eq|]. intros h' Hh. by rewrite lookup_insert_ne.
Qed.

Lemma ram_change_ok h n c g fs : g !! h = Some fs → NoDup (key <$> fs) → (∀ f, key f = lower n → key (c f) = key f) →
  wp (RamFs.change h n c) (λ r g', ram_only h g g' ∧
    match abs fs !! lower n with
    | Some d => r = Ok tt ∧ ∃ f, rf_data f = d ∧ ram_ok h (<[lower n := rf_data (c f)]> (abs fs)) g'
    | None => r = Err "File not found" ∧ g' = g
    end) g.
Proof.
  intros Hg Hnd Hc. unfold RamFs.change. apply wp_bind, (wp_files_of h fs); [done|].
  pose proof (update_abs n fs c Hnd) as Hu. destruct (update_first _ _ _) as [fs'|]; [|rewrite Hu; by apply wp_ret].
  destruct Hu as (fs1 & f & fs2 & -> & Hk & ->). rewrite fmap_app, fmap_cons in Hnd.
  assert (key f ∉ key <$> fs1) as Hn1 by (apply NoDup_app in Hnd as (_ & Hn & _); intros Hin; apply (Hn _ Hin); by left).
  apply wp_bind, wp_set_files, wp_ret. rewrite abs_mid, Hk, lookup_insert_eq by done.
  destruct (ram_set h (<[lower n := rf_data (c f)]> (<[lower n := rf_data f]> (abs (fs1 ++ fs2)))) g (fs1 ++ c f :: fs2)) as [H1 H2].
  - rewrite fmap_app. simpl. by rewrite Hc.
  - rewrite abs_mid by (by rewrite Hc). rewrite Hc, Hk by done. by rewrite insert_insert_eq.
  - split; [done|]. split; [done|]. by exists f.
Qed.

Lemma ram_rename_ok h o n g fs : g !! h = Some fs → NoDup (key <$> fs) → abs fs !! lower n = None →
  wp (RamFs.change h o (λ f, MkRamFile n (rf_data f))) (λ r g', ram_only h g g' ∧
    match abs fs !! lower o with
    | Some d => r = Ok tt ∧ ram_ok h (<[lower n := d]> (delete (lower o) (abs fs))) g'
    | None => r = Err "File not found" ∧ g' = g
    end) g.
Proof.
  intros Hg Hnd Hn. unfold RamFs.change. apply wp_bind, (wp_files_of h fs); [done|].
  pose proof (update_abs o fs (λ f, MkRamFile n (rf_data f)) Hnd) as Hu.
  destruct (update_first _ _ _) as [fs'|]; [|rewrite Hu; by apply wp_ret].
  destruct Hu as (fs1 & f & fs2 & -> & Hk & ->). rewrite fmap_app, fmap_cons in Hnd.
  pose proof Hnd as (Hn1 & Hn12 & [Hf2 Hn2]%NoDup_cons)%NoDup_app.
  assert (key f ∉ key <$> fs1) as Hf1 by (intros Hin; apply (Hn12 _ Hin); by left).
  rewrite abs_mid in Hn |- * by done. rewrite Hk, lookup_insert_eq in *.
  assert (lower n ≠ lower o) as Hno by (intros He; by rewrite He, lookup_insert_eq in Hn).
  rewrite lookup_insert_ne in Hn by done.
  apply abs_none in Hn. rewrite fmap_app in Hn. apply wp_bind, wp_set_files, wp_ret.
  assert (lower o ∉ key <$> fs1 ++ fs2) as Ho by (rewrite fmap_app; apply not_elem_of_app; done).
  rewrite delete_insert_id by (by apply abs_none).
  destruct (ram_set h (<[lower n := rf_data f]> (abs (fs1 ++ fs2))) g (fs1 ++ MkRamFile n (rf_data f) :: fs2)) as [H1 H2].
  - rewrite fmap_app, fmap_cons. change (key (MkRamFile n (rf_data f))) with (lower n).
    apply NoDup_app. split_and!; [done| |apply NoDup_cons; split; [set_solver|done]]. set_solver.
  - apply (abs_mid fs1 (MkRamFile n (rf_data f)) fs2). set_solver.
  - by split.
Qed.

(** *** The driver does what the specification says *)
Lemma ram_do_ok h op m g : ram_ok h m g → wp (fs_do h op) (λ r g',
  r = (spec_op op m).1 ∧ ram_ok h (spec_op op m).2 g' ∧ ram_only h g g') g.
Proof.
  intros Hok. pose proof Hok as (fs & Hg & Hnd & Hm). assert (ram_only h g g) as Hrefl by done.
  destruct op as [n|n d|n d|n d|n|o n|n|n]; apply wp_bind; cbn [spec_op];
    [unfold read_file|unfold create_file|unfold write_file|unfold append_file|unfold delete_file|
     unfold rename_file|unfold file_exists|unfold get_file_size]; cbn [RamFs_FileSystem].
  - apply wp_bind, (wp_files_of h fs), wp_ret; [done|]. apply wp_ret. by rewrite find_abs, Hm.
  - apply wp_bind, (wp_files_of h fs); [done|]. rewrite existsb_abs, Hm.
    destruct (m !! lower n) as [d0|] eqn:E; [by apply wp_ret|]. apply wp_bind, wp_set_files, wp_ret, wp_ret.
    cbn [fst snd]. subst m. apply abs_none in E. split; [done|]. apply ram_set.
    + rewrite fmap_app. apply NoDup_app. split_and!; [done| |apply NoDup_singleton].
      intros k Hk ->%list_elem_of_singleton. done.
    + by apply (abs_app fs (MkRamFile n d)).
  - eapply wp_mono; [by apply (ram_change_ok h n _ g fs Hg Hnd)|]. intros r g' [Ho Hr]. apply wp_ret. rewrite Hm in Hr.
    destruct (m !! lower n) as [d0|]; destruct Hr as [-> Hr]; [|by subst g'].
    destruct Hr as (f & _ & Hr). split; [done|]. by split.
  - eapply wp_mono; [by apply (ram_change_ok h n _ g fs Hg Hnd)|]. intros r g' [Ho Hr]. apply wp_ret. rewrite Hm in Hr.
    destruct (m !! lower n) as [d0|]; destruct Hr as [-> Hr]; [|by subst g'].
    destruct Hr as (f & <- & Hr). split; [done|]. by split.
  - apply wp_bind, (wp_files_of h fs); [done|]. apply wp_bind, wp_set_files, wp_ret, wp_ret.
    destruct (abs_filter n fs) as [Ha Hl]. rewrite Hm in Ha, Hl.
    assert (NoDup (key <$> List.filter (λ f, negb (RamFs.named n f)) fs)) as Hnd'.
    { clear -Hnd. induction fs as [|f fs IH]; [done|]. apply NoDup_cons in Hnd as [Hf Hnd]. simpl.
      destruct (negb _); [|by apply IH]. apply NoDup_cons. split; [|by apply IH]. intros (f' & Hk & Hin)%list_elem_of_fmap.
      apply Hf. rewrite Hk. apply list_elem_of_fmap_2. apply list_elem_of_In in Hin. apply list_elem_of_In. by apply filter_In in Hin as [? _]. }
    destruct (ram_set h _ g _ Hnd' Ha) as [H1 H2]. destruct (m !! lower n) as [d|] eqn:E.
    + rewrite (proj2 Hl) by done. by split.
    + destruct (_ =? _)%nat; [|by destruct (proj1 Hl eq_refl)]. by rewrite delete_id in H1.
  - apply wp_bind, (wp_files_of h fs); [done|]. rewrite existsb_abs, Hm.
    destruct (m !! lower n) as [d0|] eqn:E; [by apply wp_ret|]. rewrite bool_decide_false by (by intros []).
    subst m. eapply wp_mono; [by apply (ram_rename_ok h o n g fs)|]. intros r g' [Ho Hr]. apply wp_ret.
    destruct (abs fs !! lower o) as [d0|]; destruct Hr as [-> Hr]; [by split|by subst g'].
  - apply wp_bind, (wp_files_of h fs), wp_ret; [done|]. apply wp_ret. by rewrite existsb_abs, Hm.
  - apply wp_bind, (wp_files_of h fs), wp_ret; [done|]. apply wp_ret. subst m. rewrite <- find_abs.
    by destruct (List.find _ fs).
Qed.

Lemma ram_run_ok h ops m g : ram_ok h m g → wp (fs_run h ops) (λ rs g',
  rs = (spec_ops ops m).1 ∧ ram_ok h (spec_ops ops m).2 g' ∧ ram_only h g g') g.
Proof.
  revert m g. induction ops as [|op ops IH]; intros m g Hok; [by apply wp_ret|]. simpl.
  apply wp_bind. wp_call ram_do_ok; [done|]. intros r g1 (-> & Hok1 & Ho1). destruct (spec_op op m) as [r m1]. simpl in *.
  apply wp_bind. wp_call IH; [done|]. intros rs g2 (-> & Hok2 & Ho2). destruct (spec_ops ops m1) as [rs m2]. simpl in *.
  apply wp_ret. split; [done|]. split; [done|]. intros h' Hh. by rewrite Ho2, Ho1.
Qed.

(** C5. The driver RamFs implements a file system: on a new one, whatever
    sequence of operations runs, each returns what it returns on a map from
    names, compared without case, to contents, with the same errors, and other
    file systems are not changed. *)
Theorem ramfs_refines h ops g : ∃ g',
  (_ ← RamFs.new h; fs_run h ops) g = Some ((spec_ops ops ∅).1, g') ∧ ram_ok h (spec_ops ops ∅).2 g' ∧ ram_only h g g'.
Proof.
  assert (ram_ok h ∅ (<[h := []]> g)) as Hnew by (exists []; rewrite lookup_insert_eq; by repeat constructor).
  assert (wp (_ ← RamFs.new h; fs_run h ops) (λ rs g', rs = (spec_ops ops ∅).1 ∧
    ram_ok h (spec_ops ops ∅).2 g' ∧ ram_only h (<[h := []]> g) g') g) as Hw.
  { apply wp_bind, wp_set_files. by apply ram_run_ok. }
  apply wp_result in Hw as (rs & g' & E & -> & Hok & Ho). exists g'. split; [done|]. split; [done|].
  intros h' Hh. rewrite Ho by done. by rewrite lookup_insert_ne.
Qed.

(** ** What the VFS relies on

    A driver may fail where the map would not, and then the file it was to
    change is lost, at worst; it never claims a success it did not have. *)
Definition target (op : fs_op) (k : string) : Prop :=
  match op with
  | FCreate n _ | FWrite n _ | FAppend n _ | FDelete n => k = lower n
  | FRename o n => k = lower o ∨ k = lower n
  | _ => False
  end.

Definition fs_allows (op : fs_op) (m : afs) (r : fs_result) (m' : afs) : Prop :=
  (r, m') = spec_op op m ∨ (∃ e, r = RUnit (Err e)) ∧ ∀ k, ¬ target op k → m' !! k = m !! k.

Class FileSystemSpec (H G : Type) `{!FileSystem H G} := {
  fs_rep : H → afs → G → Prop;
  fs_spec h op m g : fs_rep h m g → wp (fs_do h op) (λ r g', ∃ m', fs_allows op m r m' ∧ fs_rep h m' g') g;
}.

Lemma ram_fs_spec h op m g : ram_ok h m g →
  wp (fs_do h op) (λ r g', ∃ m', fs_allows op m r m' ∧ ram_ok h m' g') g.
Proof.
  intros Hok. eapply wp_mono; [by apply ram_do_ok|]. intros r g' (-> & Hok' & _).
  exists (spec_op op m).2. split; [left; by destruct (spec_op op m)|done].
Qed.

#[global] Instance RamFs_Spec : FileSystemSpec nat ram := {| fs_rep := ram_ok; fs_spec := ram_fs_spec |}.

(** The specification of the operation [op] of a driver. *)
Ltac by_fs_spec op :=
  intros Hr; pose proof (fs_spec _ op _ _ Hr) as Hw; unfold wp, fs_do, mbind, ST_bind in Hw; unfold wp;
  match goal with |- match ?c with _ => _ end => destruct c as [[r g']|]; [|done] end;
  destruct Hw as (m' & [Ha|[(e & Ha) Hk]] & Hr'); simpl in Ha; try done.

Section specs.
Context {H G : Type} `{!FileSystem H G} `{!FileSystemSpec H G}.

Lemma read_file_spec h n m g : fs_rep h m g →
  wp (read_file h n) (λ r g', r = ok_or (m !! lower n) "File not found" ∧ fs_rep h m g') g.
Proof. by_fs_spec (FRead n). by injection Ha as -> ->. Qed.

Lemma file_exists_spec h n m g : fs_rep h m g →
  wp (file_exists h n) (λ b g', b = bool_decide (is_Some (m !! lower n)) ∧ fs_rep h m g') g.
Proof. by_fs_spec (FExists n). by injection Ha as -> ->. Qed.

Lemma get_file_size_spec h n m g : fs_rep h m g →
  wp (get_file_size h n) (λ s g', s = (λ d, u32 (Z.of_nat (length d))) <$> m !! lower n ∧ fs_rep h m g') g.
Proof. by_fs_spec (FSize n). by injection Ha as -> ->. Qed.

Lemma write_file_spec h n d m g : fs_rep h m g →
  wp (write_file h n d) (λ r g', ∃ m', fs_rep h m' g' ∧ (∀ k, k ≠ lower n → m' !! k = m !! k) ∧
    (r = Ok tt → is_Some (m !! lower n) ∧ m' = <[lower n := d]> m)) g.
Proof.
  by_fs_spec (FWrite n d); exists m'; (split; [done|]).
  - destruct (m !! lower n) as [d0|]; injection Ha as -> ->; [|done].
    split; [intros k Hk; by rewrite lookup_insert_ne|by eauto].
  - injection Ha as ->. by split.
Qed.

Lemma create_file_spec h n d m g : fs_rep h m g →
  wp (create_file h n d) (λ r g', ∃ m', fs_rep h m' g' ∧ (∀ k, k ≠ lower n → m' !! k = m !! k) ∧
    (r = Ok tt → m !! lower n = None ∧ m' = <[lower n := d]> m)) g.
Proof.
  by_fs_spec (FCreate n d); exists m'; (split; [done|]).
  - destruct (m !! lower n) as [d0|]; injection Ha as -> ->; [done|].
    split; [intros k Hk; by rewrite lookup_insert_ne|by eauto].
  - injection Ha as ->. by split.
Qed.
End specs.
