(* ===== verification/Vfs.v ===== *)
(** * The virtual file system

    Models vfs/src/lib.rs over any [FileSystem]: paths, the mount table, the
    table of open nodes and the operations on them. The statics of the crate are
    the record [vfs]; [world] is the state of the mounted file systems.

    The lock is a spin lock of one processor: taking it while it is held does not
    return ([None]). *)
From Stdlib Require Import Ascii.
From S2P Require Import Prelude Rust FileSystem.

Definition O_RDONLY : Z := 0x0000.
Definition O_WRONLY : Z := 0x0001.
Definition O_RDWR : Z := 0x0002.
Definition O_CREAT : Z := 0x0040.
Definition O_TRUNC : Z := 0x0200.
Definition O_APPEND : Z := 0x0400.
Definition O_EXCL : Z := 0x0800.

Definition STDIN_NODE_ID : Z := 1.
Definition STDOUT_NODE_ID : Z := 2.
Definition STDERR_NODE_ID : Z := 3.

Inductive NodeKind := File | Dir.
#[global] Instance NodeKind_eq_dec : EqDecision NodeKind.
Proof. solve_decision. Defined.

Record VfsNode := MkVfsNode {
  node_id : Z;
  kind : NodeKind;
  mount : string;
  name : string;
  size : Z;
  cursor : Z;
  flags : Z;
  mode : Z;
}.

Definition set_cursor (c : Z) (n : VfsNode) : VfsNode :=
  MkVfsNode (node_id n) (kind n) (mount n) (name n) (size n) c (flags n) (mode n).
Definition set_size (s : Z) (n : VfsNode) : VfsNode :=
  MkVfsNode (node_id n) (kind n) (mount n) (name n) s (cursor n) (flags n) (mode n).

(** [flags & f != 0]. *)
Definition has (flags f : Z) : bool := negb (Z.land flags f =? 0).

Definition MAX_MOUNTS : nat := 8.
Definition MAX_NODES : nat := 64.

Section vfs.
Context {H G : Type} `{!FileSystem H G}.

Record MountEntry := MkMount { point : string; fs : H }.

Record vfs := Vfs {
  VFS_LOCK : bool;
  MOUNT_TABLE : option (list MountEntry);
  NODE_TABLE : option (list VfsNode);
  NEXT_NODE_ID : Z;
  world : G;
}.

Definition set_lock (b : bool) (σ : vfs) : vfs := Vfs b (MOUNT_TABLE σ) (NODE_TABLE σ) (NEXT_NODE_ID σ) (world σ).
Definition set_mounts (t : option (list MountEntry)) (σ : vfs) : vfs :=
  Vfs (VFS_LOCK σ) t (NODE_TABLE σ) (NEXT_NODE_ID σ) (world σ).
Definition set_nodes (t : option (list VfsNode)) (σ : vfs) : vfs :=
  Vfs (VFS_LOCK σ) (MOUNT_TABLE σ) t (NEXT_NODE_ID σ) (world σ).
Definition set_next (n : Z) (σ : vfs) : vfs := Vfs (VFS_LOCK σ) (MOUNT_TABLE σ) (NODE_TABLE σ) n (world σ).
Definition set_world (g : G) (σ : vfs) : vfs := Vfs (VFS_LOCK σ) (MOUNT_TABLE σ) (NODE_TABLE σ) (NEXT_NODE_ID σ) g.

(** A call of a driver. *)
Definition onfs {A} (m : ST G A) : ST vfs A :=
  λ σ, match m (world σ) with Some (x, g) => Some (x, set_world g σ) | None => None end.

Definition vfs_lock : ST vfs unit := λ σ, if VFS_LOCK σ then None else Some (tt, set_lock true σ).
Definition vfs_unlock : ST vfs unit := modify (set_lock false).

(** [let result = (|| body)(); vfs_unlock(); result]. *)
Definition locked {A} (body : ST vfs A) : ST vfs A :=
  _ ← vfs_lock;
  result ← body;
  _ ← vfs_unlock;
  mret result.

Definition get_fs (mount_point : string) : ST vfs (Result H) :=
  ms ← get MOUNT_TABLE;
  mret (match ms with
        | None => Err "VFS not initialised"
        | Some ms => ok_or (fs <$> List.find (λ e, String.eqb (point e) mount_point) ms) "Mount point not found"
        end).

Definition is_id (id : Z) (n : VfsNode) : bool := node_id n =? id.

Definition get_node (id : Z) : ST vfs (Result VfsNode) :=
  ns ← get NODE_TABLE;
  mret (match ns with
        | None => Err "VFS not initialised"
        | Some ns => ok_or (List.find (is_id id) ns) "Node not found"
        end).

(** A write through the reference [get_node] gave. *)
Definition put_node (id : Z) (f : VfsNode → VfsNode) : ST vfs unit :=
  ns ← get NODE_TABLE;
  ns ← lift (ns ≫= update_first (is_id id) f);
  modify (set_nodes (Some ns)).

(** The text before and after the first slash. *)
Fixpoint find_slash (path : string) : option (string * string) :=
  match path with
  | EmptyString => None
  | String c rest =>
      if Ascii.eqb c "/" then Some (EmptyString, rest)
      else '(a, b) ← find_slash rest; Some (String c a, b)
  end.

Definition split_path (path : string) : Result (string * string) :=
  match find_slash path with
  | None => Err "Invalid path: missing mount-point separator"
  | Some (mount, file) =>
      if String.eqb mount EmptyString || String.eqb file EmptyString
      then Err "Invalid path: empty mount-point or filename"
      else Ok (mount, file)
  end.

Definition vfs_init : ST vfs unit :=
  locked (
    _ ← modify (λ σ, match MOUNT_TABLE σ with None => set_mounts (Some []) σ | Some _ => σ end);
    modify (λ σ, match NODE_TABLE σ with None => set_nodes (Some []) σ | Some _ => σ end)).

Definition vfs_mount (mount_point : string) (f : H) : ST vfs (Result unit) :=
  locked (
    t ← get MOUNT_TABLE;
    match t with
    | None => mret (Err "VFS not initialised")
    | Some t =>
        if existsb (λ e, String.eqb (point e) mount_point) t then mret (Err "Mount point already in use")
        else if (MAX_MOUNTS <=? length t)%nat then mret (Err "Mount table full")
        else
          _ ← modify (set_mounts (Some (t ++ [MkMount mount_point f])));
          mret (Ok tt)
    end).

Definition vfs_unmount (mount_point : string) : ST vfs (Result unit) :=
  locked (
    t ← get MOUNT_TABLE;
    match t with
    | None => mret (Err "VFS not initialised")
    | Some t =>
        let t' := List.filter (λ e, negb (String.eqb (point e) mount_point)) t in
        _ ← modify (set_mounts (Some t'));
        mret (if (length t' =? length t)%nat then Err "Mount point not found" else Ok tt)
    end).

(** The kind and size of the node to open. *)
Definition node_kind (f : H) (name : string) : ST vfs (Result (NodeKind * Z)) :=
  ex ← onfs (file_exists f name);
  if ex : bool then
    sz ← onfs (get_file_size f name);
    mret (Ok (File, default 0 sz))
  else
    r ← onfs (list_dir f);
    let entries := match r with Ok l => l | Err _ => [] end in
    mret (if existsb (λ e, eq_ignore_ascii_case (de_name e) name && de_is_dir e) entries
          then Ok (Dir, 0) else Err "File not found").

Definition open_node (mount name : string) (flags mode : Z) : ST vfs (Result VfsNode) :=
  ns ← get NODE_TABLE;
  match ns with
  | None => mret (Err "VFS not initialised")
  | Some ns =>
      if (MAX_NODES <=? length ns)%nat then mret (Err "Node table full")
      else
        f ←r get_fs mount;
        ex ← onfs (file_exists f name);
        if has flags O_CREAT && has flags O_EXCL && ex then mret (Err "File already exists")
        else
          _ ←r (if has flags O_CREAT && negb ex then onfs (create_file f name []) else mret (Ok tt));
          _ ←r (if has flags O_TRUNC && ex then onfs (write_file f name []) else mret (Ok tt));
          ks ←r node_kind f name;
          let cursor := if has flags O_APPEND then snd ks else 0 in
          id ← get NEXT_NODE_ID;
          _ ← modify (set_next (u32 (id + 1)));
          ms ← get MOUNT_TABLE;
          e ← lift (ms ≫= List.find (λ e, String.eqb (point e) mount));
          let node := MkVfsNode id (fst ks) (point e) name (snd ks) cursor flags mode in
          _ ← modify (set_nodes (Some (ns ++ [node])));
          mret (Ok node)
  end.

Definition vfs_open (path : string) (flags mode : Z) : ST vfs (Result VfsNode) :=
  match split_path path with
  | Err e => mret (Err e)
  | Ok (mount, name) => locked (open_node mount name flags mode)
  end.

Definition vfs_close (id : Z) : ST vfs (Result unit) :=
  locked (
    ns ← get NODE_TABLE;
    match ns with
    | None => mret (Err "VFS not initialised")
    | Some ns =>
        let ns' := List.filter (λ n, negb (is_id id n)) ns in
        _ ← modify (set_nodes (Some ns'));
        mret (if (length ns' =? length ns)%nat then Err "Node not found" else Ok tt)
    end).

Definition vfs_node_stat (id : Z) : ST vfs (Result VfsNode) := locked (get_node id).

Definition vfs_seek (id offset : Z) : ST vfs (Result unit) :=
  locked (
    n ←r get_node id;
    _ ← put_node id (set_cursor (Z.min offset (size n)));
    mret (Ok tt)).

Definition vfs_list_nodes : ST vfs (list VfsNode) := locked (get (λ σ, default [] (NODE_TABLE σ))).

(** ** Open nodes *)

Definition vfs_read (id max_count : Z) : ST vfs (Result (list Z)) :=
  locked (
    node ←r get_node id;
    if negb (bool_decide (kind node = File)) then mret (Err "Node is not a file")
    else if Z.land (flags node) 0x3 =? O_WRONLY then mret (Err "Node not open for reading")
    else
      f ←r get_fs (mount node);
      data ←r onfs (read_file f (name node));
      let start := cursor node in
      let avail := saturating_sub (len data) start in
      let count := Z.min avail max_count in
      let slice := if 0 <? count then take (Z.to_nat count) (drop (Z.to_nat start) data) else [] in
      c ← lift (checked 32 (cursor node + u32 count));
      _ ← put_node id (set_cursor c);
      mret (Ok slice)).

Definition vfs_read_node (id : Z) : ST vfs (Result (list Z)) := vfs_read id (2 ^ 64 - 1).

(** [existing] with [data] at [cursor], grown with zeroes when it is too short. *)
Definition overwrite (existing : list Z) (cursor : Z) (data : list Z) : list Z :=
  let fin := cursor + len data in
  let existing := if len existing <? fin
    then existing ++ replicate (Z.to_nat (fin - len existing)) 0 else existing in
  take (Z.to_nat cursor) existing ++ data ++ drop (Z.to_nat fin) existing.

Definition vfs_write_node (id : Z) (data : list Z) : ST vfs (Result unit) :=
  locked (
    node ←r get_node id;
    if negb (bool_decide (kind node = File)) then mret (Err "Node is not a file")
    else if Z.land (flags node) 0x3 =? O_RDONLY then mret (Err "Node not open for writing")
    else
      let append := has (flags node) O_APPEND in
      let c := if append then size node else cursor node in
      f ←r get_fs (mount node);
      _ ←r (if c =? 0 then onfs (write_file f (name node) data)
            else
              existing ←r onfs (read_file f (name node));
              _ ← lift (checked 64 (c + len data));
              onfs (write_file f (name node) (overwrite existing c data)));
      node ←r get_node id;
      s ← onfs (get_file_size f (name node));
      let s := default (size node) s in
      _ ← put_node id (set_size s);
      c ← (if append then mret s else lift (checked 32 (cursor node + u32 (len data))));
      _ ← put_node id (set_cursor c);
      mret (Ok tt)).

(** ** Paths

    These take the lock and return early, without giving it back, when the mount
    point is unknown. *)

(** [let result = get_fs(mount)?.op(..); vfs_unlock(); result]. *)
Definition with_fs {A} (mount : string) (op : H → ST G (Result A)) : ST vfs (Result A) :=
  _ ← vfs_lock;
  f ←r get_fs mount;
  result ← onfs (op f);
  _ ← vfs_unlock;
  mret result.

(** The same for a path, split first. *)
Definition on_path {A} (path : string) (op : H → string → ST G (Result A)) : ST vfs (Result A) :=
  match split_path path with
  | Err e => mret (Err e)
  | Ok (mount, file) => with_fs mount (λ f, op f file)
  end.

Definition vfs_read_file (path : string) : ST vfs (Result (list Z)) := on_path path (λ f file, read_file f file).
Definition vfs_create_file (path : string) (data : list Z) : ST vfs (Result unit) :=
  on_path path (λ f file, create_file f file data).
Definition vfs_write_file (path : string) (data : list Z) : ST vfs (Result unit) :=
  on_path path (λ f file, write_file f file data).
Definition vfs_append_file (path : string) (data : list Z) : ST vfs (Result unit) :=
  on_path path (λ f file, append_file f file data).
Definition vfs_delete_file (path : string) : ST vfs (Result unit) := on_path path (λ f file, delete_file f file).
Definition vfs_create_dir (path : string) : ST vfs (Result unit) := on_path path (λ f dir, create_dir f dir).
Definition vfs_delete_dir (path : string) : ST vfs (Result unit) := on_path path (λ f dir, delete_dir f dir).
Definition vfs_list_dir (mount_point : string) : ST vfs (Result (list VfsDirEntry)) :=
  with_fs mount_point (λ f, list_dir f).
Definition vfs_stat (mount_point : string) : ST vfs (Result FsInfo) :=
  with_fs mount_point (λ f, i ← stat_fs f; mret (Ok i)).

Definition vfs_rename_file (old_path new_path : string) : ST vfs (Result unit) :=
  match split_path old_path with
  | Err e => mret (Err e)
  | Ok (old_mount, old_file) =>
      match split_path new_path with
      | Err e => mret (Err e)
      | Ok (new_mount, new_file) =>
          if negb (String.eqb old_mount new_mount) then mret (Err "Cross-mount rename not supported")
          else with_fs old_mount (λ f, rename_file f old_file new_file)
      end
  end.

Definition vfs_get_file_size (path : string) : ST vfs (option Z) :=
  match split_path path with
  | Err _ => mret None
  | Ok (mount, file) =>
      _ ← vfs_lock;
      r ← get_fs mount;
      match r with
      | Err _ => mret None
      | Ok f =>
          result ← onfs (get_file_size f file);
          _ ← vfs_unlock;
          mret result
      end
  end.

Definition vfs_file_exists (path : string) : ST vfs bool :=
  match split_path path with
  | Err _ => mret false
  | Ok (mount, file) =>
      locked (
        r ← get_fs mount;
        match r with
        | Err _ => mret false
        | Ok f => onfs (file_exists f file)
        end)
  end.

Fixpoint mount_types (t : list MountEntry) : ST vfs (list (string * string)) :=
  match t with
  | [] => mret []
  | e :: t =>
      i ← onfs (stat_fs (fs e));
      l ← mount_types t;
      mret ((point e, fs_type i) :: l)
  end.

Definition vfs_list_mounts : ST vfs (list (string * string)) :=
  locked (t ← get MOUNT_TABLE; mount_types (default [] t)).
End vfs.

Arguments MountEntry H : clear implicits.
Arguments vfs H G : clear implicits.

(** ** Reasoning about operations *)
Section wps.
Context {H G : Type} `{!FileSystem H G}.
Implicit Types σ : vfs H G.

Lemma wp_locked {A} (body : ST (vfs H G) A) Q σ : VFS_LOCK σ = false →
  wp body (λ r σ', Q r (set_lock false σ')) (set_lock true σ) → wp (locked body) Q σ.
Proof.
  intros Hl Hb. unfold locked. apply wp_bind. unfold wp at 1, vfs_lock. rewrite Hl. apply wp_bind.
  eapply wp_mono; [exact Hb|]. intros r σ' HQ. by apply wp_bind, wp_modify, wp_ret.
Qed.

Lemma wp_onfs {A} (m : ST G A) (Q : A → vfs H G → Prop) σ :
  wp m (λ r g, Q r (set_world g σ)) (world σ) → wp (onfs m) Q σ.
Proof. unfold wp, onfs. by destruct (m (world σ)) as [[r g]|]. Qed.

(** [e] is mounted at [mount_point]. *)
Definition mounted (σ : vfs H G) (mount_point : string) (f : H) : Prop :=
  ∃ ms e, MOUNT_TABLE σ = Some ms ∧ List.find (λ e, String.eqb (point e) mount_point) ms = Some e ∧ fs e = f.

Lemma wp_get_fs mount_point f (Q : Result H → vfs H G → Prop) σ :
  mounted σ mount_point f → Q (Ok f) σ → wp (get_fs mount_point) Q σ.
Proof.
  intros (ms & e & Hms & Hf & <-) HQ. unfold get_fs. apply wp_bind, wp_get, wp_ret. rewrite Hms, Hf. done.
Qed.

(** The node [n] is open under [id]. *)
Definition node_at (σ : vfs H G) (id : Z) (n : VfsNode) : Prop :=
  ∃ ns, NODE_TABLE σ = Some ns ∧ List.find (is_id id) ns = Some n.

Lemma wp_get_node id n (Q : Result VfsNode → vfs H G → Prop) σ :
  node_at σ id n → Q (Ok n) σ → wp (get_node id) Q σ.
Proof. intros (ns & Hns & Hf) HQ. unfold get_node. apply wp_bind, wp_get, wp_ret. by rewrite Hns, Hf. Qed.

Lemma update_find {A} (p : A → bool) f l x : List.find p l = Some x → (p x = true → p (f x) = true) →
  ∃ l', update_first p f l = Some l' ∧ List.find p l' = Some (f x) ∧
    (∀ q, (∀ y, p y = true → q y = false) → (∀ y, p y = true → q (f y) = false) → List.find q l' = List.find q l).
Proof.
  intros Hl Hf. induction l as [|y l IH]; [done|]. simpl in *. destruct (p y) eqn:Ey.
  - injection Hl as ->. exists (f x :: l). split; [done|]. simpl. rewrite Hf by done. split; [done|].
    intros q Hq Hqf. by rewrite Hqf, Hq by done.
  - destruct (IH Hl) as (l' & -> & Hl' & Hq). exists (y :: l'). simpl. rewrite Ey. split; [done|]. split; [done|].
    intros q Hq1 Hq2. by rewrite Hq.
Qed.

(** After a write to the node under [id]. *)
Lemma wp_put_node id f n (Q : unit → vfs H G → Prop) σ : node_at σ id n → (∀ n, node_id (f n) = node_id n) →
  (∀ ns', (∀ σ', NODE_TABLE σ' = Some ns' → node_at σ' id (f n) ∧
      ∀ id' n', id' ≠ id → node_at σ' id' n' ↔ node_at σ id' n') →
    Q tt (set_nodes (Some ns') σ)) →
  wp (put_node id f) Q σ.
Proof.
  intros (ns & Hns & Hf) Hid HQ. unfold put_node. apply wp_bind, wp_get.
  destruct (update_find (is_id id) f ns n Hf) as (ns' & Hu & Hn' & Hother); [by unfold is_id; rewrite Hid|].
  apply wp_bind, (wp_lift ns'); [by rewrite Hns|]. apply wp_modify, HQ. intros σ' Hσ'. split; [by exists ns'|].
  intros id' n' Hne. assert (List.find (is_id id') ns' = List.find (is_id id') ns) as Heq.
  { apply Hother; intros y; unfold is_id; rewrite ?Hid; lia. }
  split; intros (ns0 & H0 & Hf0).
  - exists ns. split; [done|]. rewrite Hσ' in H0. injection H0 as <-. by rewrite <- Heq.
  - exists ns'. split; [done|]. rewrite Hns in H0. injection H0 as <-. by rewrite Heq.
Qed.
End wps.

(** ** Reading and writing through a node *)
Section nodes.
Context {H G : Type} `{!FileSystem H G} `{!FileSystemSpec H G}.
Implicit Types σ : vfs H G.

(** Only the node [id] and the files differ. *)
Record node_step (σ σ' : vfs H G) (id : Z) : Prop := {
  st_lock : VFS_LOCK σ' = VFS_LOCK σ;
  st_mounts : MOUNT_TABLE σ' = MOUNT_TABLE σ;
  st_next : NEXT_NODE_ID σ' = NEXT_NODE_ID σ;
  st_others id' n' : id' ≠ id → node_at σ' id' n' ↔ node_at σ id' n';
}.

(** A file that is open: the lock is free, the node [n] is a file of a mounted
    file system whose files are [m], and the file holds [d]. *)
Record open_file (σ : vfs H G) (id : Z) (n : VfsNode) (h : H) (m : afs) (d : list Z) : Prop := {
  of_lock : VFS_LOCK σ = false;
  of_node : node_at σ id n;
  of_kind : kind n = File;
  of_fs : mounted σ (mount n) h;
  of_rep : fs_rep h m (world σ);
  of_file : m !! lower (name n) = Some d;
  of_cursor : 0 ≤ cursor n < 2 ^ 32;
  of_len : len d < 2 ^ 32;
}.

Lemma mounted_eq σ σ' p h : MOUNT_TABLE σ' = MOUNT_TABLE σ → mounted σ p h → mounted σ' p h.
Proof. intros He (ms & e & Hm & Hf & Hh). exists ms, e. by rewrite He. Qed.

Lemma node_at_eq σ σ' id n : NODE_TABLE σ' = NODE_TABLE σ → node_at σ id n → node_at σ' id n.
Proof. intros He (ns & Hn & Hf). exists ns. by rewrite He. Qed.

Lemma u32_len {A} (l : list A) : len l < 2 ^ 32 → u32 (len l) = len l.
Proof. intros Hl. apply u32_small. unfold len in *. lia. Qed.

Lemma take_drop_len (d : list Z) c k : 0 ≤ c → 0 ≤ k →
  let count := Z.min (saturating_sub (len d) c) k in
  (if 0 <? count then take (Z.to_nat count) (drop (Z.to_nat c) d) else []) = take (Z.to_nat k) (drop (Z.to_nat c) d) ∧
  len (take (Z.to_nat k) (drop (Z.to_nat c) d)) = count ∧ 0 ≤ count ≤ len d.
Proof.
  intros Hc Hk count. unfold len, saturating_sub in *. rewrite length_take, length_drop.
  split; [|subst count; lia]. destruct (Z.ltb_spec 0 count) as [Hp|Hp].
  - destruct (decide (k ≤ Z.of_nat (length d) - c)); [do 2 f_equal; lia|].
    rewrite !take_ge; [done| |]; rewrite length_drop; lia.
  - symmetry. apply length_zero_iff_nil. rewrite length_take, length_drop. lia.
Qed.

Lemma vfs_read_ok σ id n h m d k : open_file σ id n h m d → Z.land (flags n) 3 ≠ O_WRONLY → 0 ≤ k →
  wp (vfs_read id k) (λ r σ', let slice := take (Z.to_nat k) (drop (Z.to_nat (cursor n)) d) in
    r = Ok slice ∧ node_step σ σ' id ∧ open_file σ' id (set_cursor (cursor n + len slice) n) h m d) σ.
Proof.
  intros [Hl Hn Hk Hf Hr Hd Hc Hlen] Hacc Hk0. unfold vfs_read. apply wp_locked; [done|].
  apply wp_bind, (wp_get_node id n); [done|]. rewrite bool_decide_true by done. cbn [negb].
  rewrite (proj2 (Z.eqb_neq _ _)) by done. apply wp_bind, (wp_get_fs _ h); [done|].
  apply wp_bind, wp_onfs. wp_call (read_file_spec h (name n) m); [done|]. intros r g' [-> Hr']. rewrite Hd. cbn [ok_or].
  destruct (take_drop_len d (cursor n) k) as (Hs & Hlens & Hcount); [lia|done|]. cbv zeta. rewrite Hs.
  set (slice := take (Z.to_nat k) (drop (Z.to_nat (cursor n)) d)) in *. rewrite <- Hlens, u32_len by lia.
  assert (cursor n + len slice < 2 ^ 32) as Hbound by (rewrite Hlens; unfold saturating_sub in *; lia).
  apply wp_bind, (wp_lift (cursor n + len slice)); [apply checked_ok; unfold len in *; lia|].
  apply wp_bind, (wp_put_node id (set_cursor (cursor n + len slice)) n); [done|done|].
  intros ns' Hns'. apply wp_ret. split; [done|].
  match goal with |- context [node_step _ ?s] => set (σ' := s) end. destruct (Hns' σ' eq_refl) as [Hn' Ho].
  split; [by split; [symmetry; exact Hl|..|exact Ho]|]. split; [done|done|done| |done|done| |done].
  - by eapply mounted_eq; [|exact Hf].
  - cbn [cursor set_cursor]. unfold len in *. lia.
Qed.

Lemma vfs_seek_ok σ id n h m d o : open_file σ id n h m d → 0 ≤ o → 0 ≤ size n →
  wp (vfs_seek id o) (λ r σ', r = Ok tt ∧ node_step σ σ' id ∧
    (o < 2 ^ 32 → open_file σ' id (set_cursor (Z.min o (size n)) n) h m d)) σ.
Proof.
  intros [Hl Hn Hk Hf Hr Hd Hc Hlen] Ho Hs. unfold vfs_seek. apply wp_locked; [done|].
  apply wp_bind, (wp_get_node id n); [done|].
  apply wp_bind, (wp_put_node id (set_cursor (Z.min o (size n))) n); [done|done|].
  intros ns' Hns'. apply wp_ret. split; [done|].
  match goal with |- context [node_step _ ?s] => set (σ' := s) end. destruct (Hns' σ' eq_refl) as [Hn' Hother].
  split; [by split; [symmetry; exact Hl|..|exact Hother]|]. intros Ho'. split; [done|done|done| |done|done| |done].
  - by eapply mounted_eq; [|exact Hf].
  - cbn [cursor set_cursor]. lia.
Qed.

Lemma len_overwrite d c data : 0 ≤ c → len (overwrite d c data) = Z.max (len d) (c + len data).
Proof.
  intros Hc. unfold overwrite, len. destruct (Z.ltb_spec (Z.of_nat (length d)) (c + Z.of_nat (length data))) as [Hlt|Hge];
    rewrite !length_app, length_take, length_drop, ?length_app, ?length_replicate; lia.
Qed.

(** What a write leaves in the file. *)
Definition written (n : VfsNode) (d data : list Z) : list Z :=
  let c := if has (flags n) O_APPEND then size n else cursor n in
  if c =? 0 then data else overwrite d c data.

(** The node after the write. *)
Definition advanced (n : VfsNode) (d data : list Z) : VfsNode :=
  let s := len (written n d data) in
  set_cursor (if has (flags n) O_APPEND then s else cursor n + len data) (set_size s n).

Lemma vfs_write_ok σ id n h m d data : open_file σ id n h m d → Z.land (flags n) 3 ≠ O_RDONLY →
  0 ≤ size n → size n + len data < 2 ^ 32 → cursor n + len data < 2 ^ 32 →
  wp (vfs_write_node id data) (λ r σ', node_step σ σ' id ∧ ∃ m', fs_rep h m' (world σ') ∧
    (∀ k, k ≠ lower (name n) → m' !! k = m !! k) ∧
    (r = Ok tt → m' = <[lower (name n) := written n d data]> m ∧
       open_file σ' id (advanced n d data) h m' (written n d data))) σ.
Proof.
  intros [Hl Hn Hk Hf Hr Hd Hc Hlen] Hacc Hs Hsl Hcl. unfold vfs_write_node. apply wp_locked; [done|].
  apply wp_bind, (wp_get_node id n); [done|]. rewrite bool_decide_true by done. cbn [negb].
  rewrite (proj2 (Z.eqb_neq _ _)) by done. cbv zeta.
  set (app := has (flags n) O_APPEND). set (c := if app then size n else cursor n).
  assert (0 ≤ c ∧ c + len data < 2 ^ 32) as [Hc0 Hc1] by (subst c; destruct app; lia).
  assert (0 ≤ len data) as Hl0 by (unfold len; lia).
  assert (len (written n d data) < 2 ^ 32) as Hlw.
  { unfold written. fold app c. destruct (c =? 0); [lia|]. rewrite len_overwrite by done. lia. }
  apply wp_bind, (wp_get_fs _ h); [done|]. apply wp_bind.
  apply wp_mono with (Q := λ r σ1, ∃ g m', σ1 = set_world g (set_lock true σ) ∧ fs_rep h m' g ∧
    (∀ k, k ≠ lower (name n) → m' !! k = m !! k) ∧ (r = Ok tt → m' = <[lower (name n) := written n d data]> m)).
  { unfold written. fold app c. destruct (c =? 0).
    - apply wp_onfs. wp_call (write_file_spec h (name n) data m); [done|]. intros r g (m' & H1 & H2 & H3).
      exists g, m'. split_and!; [done..|]. intros Hrr. by apply H3.
    - apply wp_bind, wp_onfs. wp_call (read_file_spec h (name n) m); [done|]. intros r g [-> Hr']. rewrite Hd. cbn [ok_or].
      apply wp_bind, (wp_lift (c + len data)); [apply checked_ok; lia|]. apply wp_onfs.
      wp_call (write_file_spec h (name n) (overwrite d c data) m); [done|]. intros r g2 (m' & H1 & H2 & H3).
      exists g2, m'. split_and!; [done..|]. intros Hrr. by apply H3. }
  intros r σ1 (g & m' & -> & Hr' & Hother & Hok). destruct r as [[]|err].
  2:{ apply wp_ret. split; [by split; [symmetry; exact Hl|..]|]. by exists m'. }
  specialize (Hok eq_refl). apply wp_bind, (wp_get_node id n); [by eapply node_at_eq; [|exact Hn]|].
  apply wp_bind, wp_onfs. wp_call (get_file_size_spec h (name n) m'); [done|]. intros s g2 [-> Hr2].
  subst m'. rewrite lookup_insert_eq.
  change (default (size n) _) with (u32 (len (written n d data))). rewrite (u32_len (written n d data)) by done.
  set (s := len (written n d data)) in *.
  apply wp_bind, (wp_put_node id (set_size s) n); [by eapply node_at_eq; [|exact Hn]|done|]. intros ns1 Hns1.
  match goal with |- wp _ _ ?s => destruct (Hns1 s eq_refl) as [Hn1 Ho1] end.
  apply wp_bind. apply wp_mono with (Q := λ c' σ2, c' = (if app then s else cursor n + len data) ∧
    σ2 = set_nodes (Some ns1) (set_world g2 (set_world g (set_lock true σ)))).
  { destruct app; [by apply wp_ret|]. apply (wp_lift (cursor n + len data)); [|done].
    rewrite u32_len by lia. apply checked_ok; lia. }
  intros c' ? [-> ->].
  apply wp_bind, (wp_put_node id (set_cursor (if app then s else cursor n + len data)) (set_size s n)); [done|done|].
  intros ns2 Hns2. apply wp_ret.
  match goal with |- context [node_step _ ?s] => set (σ' := s) end. destruct (Hns2 σ' eq_refl) as [Hn2 Ho2].
  split.
  - split; [by symmetry|done|done|]. intros id' n' Hne. rewrite Ho2, Ho1 by done. done.
  - eexists. split; [exact Hr2|]. split; [done|]. intros _. split; [done|].
    split; [done|exact Hn2|done| |exact Hr2|by rewrite lookup_insert_eq| |done].
    + by eapply mounted_eq; [|exact Hf].
    + unfold advanced. fold app s. cbn [cursor set_cursor]. destruct app; [unfold s, len in *; lia|lia].
Qed.

Lemma read_back n d data : has (flags n) O_APPEND = false → 0 ≤ cursor n →
  take (Z.to_nat (len data)) (drop (Z.to_nat (cursor n)) (written n d data)) = data.
Proof.
  intros Ha Hc. unfold written. rewrite Ha. destruct (Z.eqb_spec (cursor n) 0) as [->|Hne].
  - change (Z.to_nat 0) with O. rewrite drop_0, take_ge; [done|]. unfold len. lia.
  - unfold overwrite. set (e := if _ <? _ then _ else _).
    assert (length (take (Z.to_nat (cursor n)) e) = Z.to_nat (cursor n)) as Hl.
    { rewrite length_take. subst e. destruct (Z.ltb_spec (len d) (cursor n + len data)) as [Hlt|Hge];
        rewrite ?length_app, ?length_replicate; unfold len in *; lia. }
    rewrite drop_app_length' by done. apply take_app_length'. unfold len. lia.
Qed.

(** C13. What is written through a node is read back: after a write that
    succeeded on a node open for both, seeking to where the cursor was and reading
    as many bytes gives the data; other files of the file system and other nodes
    are not changed. *)
Theorem vfs_write_read_roundtrip σ id n h m d data σ1 : open_file σ id n h m d →
  Z.land (flags n) 3 = O_RDWR → has (flags n) O_APPEND = false →
  0 ≤ size n → size n + len data < 2 ^ 32 → cursor n + len data < 2 ^ 32 →
  vfs_write_node id data σ = Some (Ok tt, σ1) →
  ∃ σ2 σ3 m', vfs_seek id (cursor n) σ1 = Some (Ok tt, σ2) ∧ vfs_read id (len data) σ2 = Some (Ok data, σ3) ∧
    fs_rep h m' (world σ3) ∧ (∀ k, k ≠ lower (name n) → m' !! k = m !! k) ∧
    ∀ id' n', id' ≠ id → node_at σ3 id' n' ↔ node_at σ id' n'.
Proof.
  intros Ho Hacc Happ Hs Hsl Hcl E.
  destruct (wp_result _ _ _ (vfs_write_ok σ id n h m d data Ho ltac:(by rewrite Hacc) Hs Hsl Hcl)) as (r & σ1' & E1 & Hst1 & m' & _ & Hk & Hok).
  rewrite E in E1. injection E1 as <- <-. destruct (Hok eq_refl) as [Hm' Ho1].
  pose proof (of_cursor _ _ _ _ _ _ Ho) as Hc. pose proof (of_cursor _ _ _ _ _ _ Ho1) as Hc1.
  assert (size (advanced n d data) = len (written n d data)) as Hsz by done.
  assert (0 ≤ len (written n d data)) as Hl0 by (unfold len; lia).
  assert (0 ≤ len data) as Hd0 by (unfold len; lia).
  assert (cursor n ≤ len (written n d data)) as Hcl'.
  { unfold written. rewrite Happ. destruct (Z.eqb_spec (cursor n) 0); [lia|]. rewrite len_overwrite by lia. lia. }
  destruct (wp_result _ _ _ (vfs_seek_ok σ1 id _ h m' _ (cursor n) Ho1 ltac:(lia) ltac:(by rewrite Hsz)))
    as (r & σ2 & E2 & -> & Hst2 & Ho2). specialize (Ho2 ltac:(lia)). rewrite Hsz, Z.min_l in Ho2 by done.
  destruct (wp_result _ _ _ (vfs_read_ok σ2 id _ h m' _ (len data) Ho2 ltac:(cbn; by rewrite Hacc) Hd0))
    as (r & σ3 & E3 & -> & Hst3 & Ho3).
  exists σ2, σ3, m'. split; [done|]. cbn [cursor set_cursor] in E3. rewrite read_back in E3 by (done || lia).
  split; [done|]. split; [apply Ho3|]. split; [done|].
  intros id' n' Hne. by rewrite (st_others _ _ _ Hst3), (st_others _ _ _ Hst2), (st_others _ _ _ Hst1).
Qed.

Lemma take_resume (e : list Z) (k j : nat) : take k e ++ take j (drop (length (take k e)) e) = take (k + j)%nat e.
Proof.
  rewrite <- take_take_drop. f_equal. rewrite length_take. destruct (decide (k ≤ length e)%nat).
  - by rewrite Nat.min_l by lia.
  - rewrite !drop_ge by lia. done.
Qed.

(** Reads one after the other. *)
Fixpoint reads (id : Z) (ks : list Z) : ST (vfs H G) (Result (list (list Z))) :=
  match ks with
  | [] => mret (Ok [])
  | k :: ks => s ←r vfs_read id k; l ←r reads id ks; mret (Ok (s :: l))
  end.

(** Reads through a node go through the file in order: whatever the counts,
    each read succeeds, and the pieces together are the bytes from the cursor on,
    as many as were asked for or as there are. The cursor ends after them. *)
Theorem vfs_reads_sequential σ id n h m d ks : open_file σ id n h m d →
  Z.land (flags n) 3 ≠ O_WRONLY → Forall (λ k, 0 ≤ k) ks →
  ∃ ss σ', reads id ks σ = Some (Ok ss, σ') ∧
    concat ss = take (Z.to_nat (fold_right Z.add 0 ks)) (drop (Z.to_nat (cursor n)) d) ∧
    open_file σ' id (set_cursor (cursor n + len (concat ss)) n) h m d.
Proof.
  intros Ho Hacc Hks. revert σ n Ho Hacc. induction Hks as [|k ks Hk Hks IH]; intros σ n Ho Hacc.
  - exists [], σ. split; [done|]. split; [done|]. change (len (concat [])) with 0. rewrite Z.add_0_r.
    destruct n. exact Ho.
  - destruct (wp_result _ _ _ (vfs_read_ok σ id n h m d k Ho Hacc Hk)) as (r & σ1 & E1 & -> & _ & Ho1).
    set (s := take _ _) in *. destruct (IH σ1 _ Ho1 Hacc) as (ss & σ' & E & Hc & Ho').
    exists (s :: ss), σ'.
    pose proof (of_cursor _ _ _ _ _ _ Ho) as Hcur. assert (0 ≤ fold_right Z.add 0 ks) as Hsum.
    { clear -Hks. induction Hks; simpl; lia. }
    assert (concat (s :: ss) = s ++ concat ss) as Hcc by done.
    split; [cbn [reads]; unfold mbind, ST_bind; by rewrite E1, E|].
    cbn [cursor set_cursor] in Hc, Ho'. rewrite Hcc. split.
    + change (foldr Z.add 0 (k :: ks)) with (k + foldr Z.add 0 ks). rewrite Hc, (Z2Nat.inj_add k) by done. rewrite <- take_resume. fold s. do 2 f_equal. rewrite drop_drop. f_equal.
      unfold len. lia.
    + unfold len in *. rewrite length_app, Nat2Z.inj_add, Z.add_assoc. exact Ho'.
Qed.

(** What a successful write leaves in the file, with no other file changed:
    at a cursor past the start the bytes from the cursor on are replaced and the
    rest is kept, the file growing with zeroes when the cursor is past its end; at
    the start the file becomes the data, and the bytes after it are lost; with
    [O_APPEND] the position is the size the node saw last, not the end of the
    file. *)
Theorem vfs_write_effect σ id n h m d data : open_file σ id n h m d → Z.land (flags n) 3 ≠ O_RDONLY →
  0 ≤ size n → size n + len data < 2 ^ 32 → cursor n + len data < 2 ^ 32 →
  let c := if has (flags n) O_APPEND then size n else cursor n in
  ∃ r σ' m', vfs_write_node id data σ = Some (r, σ') ∧ VFS_LOCK σ' = false ∧ fs_rep h m' (world σ') ∧
    (∀ k, k ≠ lower (name n) → m' !! k = m !! k) ∧
    (r = Ok tt → ∃ d', m' !! lower (name n) = Some d' ∧
       (c = 0 → d' = data) ∧
       (0 < c ≤ len d → d' = take (Z.to_nat c) d ++ data ++ drop (Z.to_nat (c + len data)) d) ∧
       (len d < c → d' = d ++ replicate (Z.to_nat (c - len d)) 0 ++ data)).
Proof.
  intros Ho Hacc Hs Hsl Hcl c.
  destruct (wp_result _ _ _ (vfs_write_ok σ id n h m d data Ho Hacc Hs Hsl Hcl)) as (r & σ' & E & Hst & m' & Hr & Hk & Hok).
  exists r, σ', m'. split; [done|]. split; [rewrite (st_lock _ _ _ Hst); apply Ho|]. split; [done|]. split; [done|].
  intros ->. destruct (Hok eq_refl) as [-> _]. exists (written n d data). split; [by rewrite lookup_insert_eq|].
  unfold written. fold c. assert (0 ≤ c) as Hc by (pose proof (of_cursor _ _ _ _ _ _ Ho); subst c; destruct (has _ _); lia).
  clearbody c. clear -Hc. unfold overwrite. split_and!; intros H1; [by rewrite H1|..];
    rewrite (proj2 (Z.eqb_neq c 0)) by (unfold len in *; lia).
  - destruct (Z.ltb_spec (len d) (c + len data)) as [Hlt|_]; [|done].
    rewrite take_app_le by (unfold len in *; lia). do 2 f_equal. rewrite !drop_ge; [done|unfold len in *; lia|].
    rewrite length_app, length_replicate. unfold len in *. lia.
  - destruct (Z.ltb_spec (len d) (c + len data)) as [_|?]; [|unfold len in *; lia].
    rewrite take_app_ge by (unfold len in *; lia). rewrite (drop_ge (d ++ _)), app_nil_r.
    2:{ rewrite length_app, length_replicate. unfold len in *. lia. }
    rewrite take_replicate, <- app_assoc. do 3 f_equal. unfold len in *. lia.
Qed.
End nodes.

(** ** A scratch file system *)

Definition fresh : vfs nat ram := Vfs false None None 4 ∅.

(** The VFS started, with a file system [ram] mounted that holds a file. *)
Definition boot : ST (vfs nat ram) (Result unit) :=
  _ ← vfs_init;
  _ ← onfs (RamFs.new 0);
  _ ←r vfs_mount "ram" 0%nat;
  vfs_create_file "ram/log" [1; 2; 3].

(** The log opened twice to append, each writing a byte. *)
Definition two_writers : ST (vfs nat ram) (Result (list Z)) :=
  _ ←r boot;
  a ←r vfs_open "ram/log" (Z.lor O_WRONLY O_APPEND) 0;
  b ←r vfs_open "ram/log" (Z.lor O_WRONLY O_APPEND) 0;
  _ ←r vfs_write_node (node_id a) [10];
  _ ←r vfs_write_node (node_id b) [20];
  vfs_read_file "ram/log".

(** [O_APPEND] does not write at the end of the file when another node grew
    it: of two nodes that append to the same file, the second overwrites what the
    first appended. *)
Theorem vfs_append_overwrites : fst <$> two_writers fresh = Some (Ok [1; 2; 3; 20]).
Proof. vm_compute. reflexivity. Qed.

(** ** All operations *)
Section operations.
Context {H G : Type} `{!FileSystem H G}.
Implicit Types σ : vfs H G.

Inductive vfs_op :=
  | OInit | OMount (p : string) (h : H) | OUnmount (p : string) | OOpen (path : string) (flags mode : Z)
  | OClose (id : Z) | ONodeStat (id : Z) | OSeek (id offset : Z) | OListNodes
  | ORead (id k : Z) | OWriteNode (id : Z) (d : list Z)
  | OReadFile (path : string) | OCreateFile (path : string) (d : list Z) | OWriteFile (path : string) (d : list Z)
  | OAppendFile (path : string) (d : list Z) | ODeleteFile (path : string) | ORenameFile (old_path new_path : string)
  | OFileExists (path : string) | OGetFileSize (path : string) | OListDir (p : string)
  | OCreateDir (path : string) | ODeleteDir (path : string) | OStat (p : string) | OListMounts.

Definition ignore {A} (m : ST (vfs H G) A) : ST (vfs H G) unit := _ ← m; mret tt.

Definition vfs_do (op : vfs_op) : ST (vfs H G) unit :=
  match op with
  | OInit => vfs_init
  | OMount p h => ignore (vfs_mount p h)
  | OUnmount p => ignore (vfs_unmount p)
  | OOpen path flags mode => ignore (vfs_open path flags mode)
  | OClose id => ignore (vfs_close id)
  | ONodeStat id => ignore (vfs_node_stat id)
  | OSeek id offset => ignore (vfs_seek id offset)
  | OListNodes => ignore vfs_list_nodes
  | ORead id k => ignore (vfs_read id k)
  | OWriteNode id d => ignore (vfs_write_node id d)
  | OReadFile path => ignore (vfs_read_file path)
  | OCreateFile path d => ignore (vfs_create_file path d)
  | OWriteFile path d => ignore (vfs_write_file path d)
  | OAppendFile path d => ignore (vfs_append_file path d)
  | ODeleteFile path => ignore (vfs_delete_file path)
  | ORenameFile o n => ignore (vfs_rename_file o n)
  | OFileExists path => ignore (vfs_file_exists path)
  | OGetFileSize path => ignore (vfs_get_file_size path)
  | OListDir p => ignore (vfs_list_dir p)
  | OCreateDir path => ignore (vfs_create_dir path)
  | ODeleteDir path => ignore (vfs_delete_dir path)
  | OStat p => ignore (vfs_stat p)
  | OListMounts => ignore vfs_list_mounts
  end.

(** The mount point of a path. *)
Definition path_mount (path : string) : option string :=
  match split_path path with Ok (mnt, _) => Some mnt | Err _ => None end.

(** The mount point an operation looks up after it took the lock, outside of a
    closure. *)
Definition op_mount (op : vfs_op) : option string :=
  match op with
  | OReadFile path | OCreateFile path _ | OWriteFile path _ | OAppendFile path _ | ODeleteFile path
  | OGetFileSize path | OCreateDir path | ODeleteDir path => path_mount path
  | ORenameFile o n =>
      a ← path_mount o; b ← path_mount n;
      if String.eqb a b then Some a else None
  | OListDir p | OStat p => Some p
  | _ => None
  end.

(** Whether an operation takes the lock. *)
Definition takes_lock (op : vfs_op) : bool :=
  match op with
  | OReadFile _ | OCreateFile _ _ | OWriteFile _ _ | OAppendFile _ _ | ODeleteFile _
  | OGetFileSize _ | OCreateDir _ | ODeleteDir _ | ORenameFile _ _ | OListDir _ | OStat _ =>
      bool_decide (is_Some (op_mount op))
  | OOpen path _ _ | OFileExists path => bool_decide (is_Some (path_mount path))
  | _ => true
  end.

Definition is_mounted (σ : vfs H G) (mnt : string) : bool :=
  existsb (λ e, String.eqb (point e) mnt) (default [] (MOUNT_TABLE σ)).

Lemma ignore_inv {A} (m : ST (vfs H G) A) σ σ' : ignore m σ = Some (tt, σ') ↔ ∃ x, m σ = Some (x, σ').
Proof.
  unfold ignore, mbind, ST_bind, mret, ST_ret. destruct (m σ) as [[x s]|]; [|naive_solver].
  split; [intros [= <-]; eauto|]. by intros (y & [= -> ->]).
Qed.

(** A closure under the lock gives it back. *)
Lemma locked_unlocks {A} (body : ST (vfs H G) A) σ x σ' : locked body σ = Some (x, σ') → VFS_LOCK σ' = false.
Proof.
  unfold locked, mbind, ST_bind, vfs_lock, vfs_unlock, modify, mret, ST_ret. destruct (VFS_LOCK σ); [done|].
  destruct (body _) as [[y s]|]; [|done]. by intros [= <- <-].
Qed.

Lemma locked_stuck {A} (body : ST (vfs H G) A) σ : VFS_LOCK σ = true → locked body σ = None.
Proof. intros Hl. unfold locked, mbind, ST_bind, vfs_lock. by rewrite Hl. Qed.

Lemma existsb_find {A} (p : A → bool) l : existsb p l = match List.find p l with Some _ => true | None => false end.
Proof. induction l as [|x l IH]; [done|]. simpl. by destruct (p x). Qed.

Lemma get_fs_run mnt σ : ∃ r, get_fs mnt σ = Some (r, σ) ∧
  match r with Ok _ => is_mounted σ mnt = true | Err _ => is_mounted σ mnt = false end.
Proof.
  unfold get_fs, is_mounted. rewrite existsb_find. eexists. split; [done|]. destruct (MOUNT_TABLE σ) as [ms|]; [|done].
  cbn. by destruct (List.find _ ms).
Qed.

Lemma with_fs_lock {A} mnt (op : H → ST G (Result A)) σ x σ' : with_fs mnt op σ = Some (x, σ') →
  VFS_LOCK σ' = negb (is_mounted σ mnt).
Proof.
  unfold with_fs, mbind, ST_bind, vfs_lock. destruct (VFS_LOCK σ); [done|].
  destruct (get_fs_run mnt (set_lock true σ)) as (r & -> & Hr). change (is_mounted (set_lock true σ) mnt) with (is_mounted σ mnt) in Hr.
  destruct r as [f|e]; rewrite Hr; [|by intros [= <- <-]].
  destruct (onfs _ _) as [[y s]|]; [|done]. by intros [= <- <-].
Qed.

Lemma with_fs_leak {A} mnt (op : H → ST G (Result A)) σ : VFS_LOCK σ = false → is_mounted σ mnt = false →
  ∃ e, with_fs mnt op σ = Some (Err e, set_lock true σ).
Proof.
  intros Hl Hm. unfold with_fs, mbind, ST_bind, vfs_lock. rewrite Hl.
  destruct (get_fs_run mnt (set_lock true σ)) as (r & -> & Hr). change (is_mounted (set_lock true σ) mnt) with (is_mounted σ mnt) in Hr.
  destruct r as [f|e]; [by rewrite Hm in Hr|]. by exists e.
Qed.

Lemma with_fs_stuck {A} mnt (op : H → ST G (Result A)) σ : VFS_LOCK σ = true → with_fs mnt op σ = None.
Proof. intros Hl. unfold with_fs, mbind, ST_bind, vfs_lock. by rewrite Hl. Qed.

Lemma ignore_none {A} (m : ST (vfs H G) A) σ : m σ = None → ignore m σ = None.
Proof. unfold ignore, mbind, ST_bind. by intros ->. Qed.

Lemma vfs_do_stuck op σ : takes_lock op = true → VFS_LOCK σ = true → vfs_do op σ = None.
Proof.
  intros Ht Hl. destruct op; simpl in *; try (apply ignore_none); try (by apply locked_stuck); try (by apply with_fs_stuck);
    unfold vfs_open, vfs_read_file, vfs_create_file, vfs_write_file, vfs_append_file, vfs_delete_file, vfs_rename_file,
      vfs_file_exists, vfs_get_file_size, vfs_create_dir, vfs_delete_dir, on_path, path_mount in *.
  all: try (destruct (split_path path) as [[mnt file]|]; [|done]; first [by apply locked_stuck|by apply with_fs_stuck|idtac]).
  - destruct (split_path old_path) as [[a f1]|]; [|done]. destruct (split_path new_path) as [[b f2]|]; [|done].
    simpl in Ht. destruct (String.eqb a b); [|done]. by apply with_fs_stuck.
  - unfold mbind, ST_bind, vfs_lock. by rewrite Hl.
Qed.

(** The operations that look up a mount point under the lock, as one. *)
Lemma op_mount_cases op mnt σ : op_mount op = Some mnt →
  (∃ A (f : H → ST G (Result A)), vfs_do op = ignore (with_fs mnt f)) ∨
  (∃ path file, op = OGetFileSize path ∧ split_path path = Ok (mnt, file)).
Proof.
  intros Hm. destruct op; simpl in *; try done;
    unfold vfs_read_file, vfs_create_file, vfs_write_file, vfs_append_file, vfs_delete_file, vfs_rename_file,
      vfs_create_dir, vfs_delete_dir, vfs_list_dir, vfs_stat, on_path, path_mount in *.
  all: try (injection Hm as <-; left; by eauto).
  all: try (destruct (split_path path) as [[a file]|] eqn:E; [|done]; injection Hm as <-;
    first [left; by eauto|right; by eauto]).
  destruct (split_path old_path) as [[a f1]|]; [|done]. destruct (split_path new_path) as [[b f2]|]; [|done].
  simpl in Hm. destruct (String.eqb a b) eqn:Eab; [|done]. injection Hm as <-. cbn [negb]. left. by eauto.
Qed.

Lemma get_file_size_lock path mnt file σ x σ' : split_path path = Ok (mnt, file) →
  vfs_get_file_size path σ = Some (x, σ') → VFS_LOCK σ' = negb (is_mounted σ mnt).
Proof.
  intros Hp. unfold vfs_get_file_size. rewrite Hp. unfold mbind, ST_bind, vfs_lock. destruct (VFS_LOCK σ); [done|].
  destruct (get_fs_run mnt (set_lock true σ)) as (r & -> & Hr). change (is_mounted (set_lock true σ) mnt) with (is_mounted σ mnt) in Hr.
  destruct r as [f|e]; rewrite Hr; [|by intros [= <- <-]].
  destruct (onfs _ _) as [[y s]|]; [|done]. by intros [= <- <-].
Qed.

Lemma get_file_size_leak path mnt file σ : split_path path = Ok (mnt, file) → VFS_LOCK σ = false →
  is_mounted σ mnt = false → vfs_get_file_size path σ = Some (None, set_lock true σ).
Proof.
  intros Hp Hl Hm. unfold vfs_get_file_size. rewrite Hp. unfold mbind, ST_bind, vfs_lock. rewrite Hl.
  destruct (get_fs_run mnt (set_lock true σ)) as (r & -> & Hr). change (is_mounted (set_lock true σ) mnt) with (is_mounted σ mnt) in Hr.
  destruct r as [f|e]; [by rewrite Hm in Hr|done].
Qed.

Lemma vfs_do_leak op mnt σ : op_mount op = Some mnt → VFS_LOCK σ = false → is_mounted σ mnt = false →
  vfs_do op σ = Some (tt, set_lock true σ).
Proof.
  intros Hop Hl Hm. destruct (op_mount_cases op mnt σ Hop) as [(A & f & ->)|(path & file & -> & Hp)].
  - apply ignore_inv. destruct (with_fs_leak mnt f σ Hl Hm) as [e E]. by eauto.
  - simpl. apply ignore_inv. eexists. by eapply get_file_size_leak.
Qed.

(** An operation that does not look up a mount point this way. *)
Lemma other_op_unlocks op σ σ' : op_mount op = None → VFS_LOCK σ = false → vfs_do op σ = Some (tt, σ') → VFS_LOCK σ' = false.
Proof.
  intros Hop Hl E. destruct op; simpl in *; try done; try (by eapply locked_unlocks);
    try (apply ignore_inv in E as [x E]); try (by eapply locked_unlocks);
    unfold vfs_open, vfs_read_file, vfs_create_file, vfs_write_file, vfs_append_file, vfs_delete_file, vfs_rename_file,
      vfs_file_exists, vfs_get_file_size, vfs_create_dir, vfs_delete_dir, on_path, path_mount in *.
  all: try (destruct (split_path path) as [[mnt file]|]; first [done|by eapply locked_unlocks|by injection E as <- <-]).
  destruct (split_path old_path) as [[a f1]|]; [|by injection E as <- <-].
  destruct (split_path new_path) as [[b f2]|]; [|by injection E as <- <-].
  simpl in Hop. destruct (String.eqb a b); [done|]. by injection E as <- <-.
Qed.

(** The lock of the VFS. An operation that returns has given the lock back,
    unless it looked up a mount point that is not mounted: each of the eleven
    operations that do this outside of a closure then returns its error with the
    lock held, and from there no operation that takes the lock returns again. *)
Theorem vfs_lock_leak op σ : VFS_LOCK σ = false →
  let unknown := ∃ mnt, op_mount op = Some mnt ∧ is_mounted σ mnt = false in
  (∀ σ', vfs_do op σ = Some (tt, σ') → VFS_LOCK σ' = true ↔ unknown) ∧
  (unknown → vfs_do op σ = Some (tt, set_lock true σ)) ∧
  (unknown → ∀ op', takes_lock op' = true → vfs_do op' (set_lock true σ) = None).
Proof.
  intros Hl unknown. split_and!.
  - intros σ' E. destruct (op_mount op) as [mnt|] eqn:Hop.
    + assert (VFS_LOCK σ' = negb (is_mounted σ mnt)) as ->.
      { destruct (op_mount_cases op mnt σ Hop) as [(A & f & Heq)|(path & file & -> & Hp)].
        - rewrite Heq in E. apply ignore_inv in E as [x E]. by eapply with_fs_lock.
        - simpl in E. apply ignore_inv in E as [x E]. by eapply get_file_size_lock. }
      rewrite negb_true_iff. split; [by exists mnt|]. by intros (? & [= <-] & ?).
    + rewrite (other_op_unlocks op σ σ' Hop Hl E). split; [done|]. by intros (? & [=] & _).
  - intros (mnt & Hop & Hm). by eapply vfs_do_leak.
  - intros _ op' Ht. by apply vfs_do_stuck.
Qed.
End operations.

(** The kernel asks for a file of a mount point that is not there. *)
Lemma vfs_lock_leak_witness : VFS_LOCK fresh = false ∧
  vfs_do (OReadFile "hda/KERNEL.BIN") fresh = Some (tt, set_lock true fresh) ∧
  vfs_do OInit (set_lock true fresh) = None.
Proof.
  destruct (vfs_lock_leak (OReadFile "hda/KERNEL.BIN") fresh eq_refl) as (_ & H1 & H2).
  assert (∃ mnt, op_mount (H := nat) (OReadFile "hda/KERNEL.BIN") = Some mnt ∧ is_mounted fresh mnt = false) as Hu.
  { exists "hda"%string. split; exact eq_refl. }
  split; [exact eq_refl|]. split; [exact (H1 Hu)|]. exact (H2 Hu OInit eq_refl).
Defined.

(** ** The tables *)
Section tables.
Context {H G : Type} `{!FileSystem H G}.
Implicit Types σ : vfs H G.

(** [get_file_size] returns a u32. *)
Context (size_typed : ∀ (h : H) (n : string) (g : G) s g', get_file_size h n g = Some (Some s, g') → 0 ≤ s < 2 ^ 32).

Record node_ok (next : Z) (n : VfsNode) : Prop := {
  no_id : 4 ≤ node_id n < next;
  no_cursor : 0 ≤ cursor n < 2 ^ 32;
  no_size : 0 ≤ size n < 2 ^ 32;
  no_name : name n ≠ EmptyString;
}.

(** Mount points differ, open nodes have different identifiers, none of them
    reserved, their cursors and sizes are in range, and neither table is larger
    than its limit. *)
Record tables_ok (σ : vfs H G) : Prop := {
  to_mounts ms : MOUNT_TABLE σ = Some ms → NoDup (point <$> ms) ∧ (length ms ≤ MAX_MOUNTS)%nat;
  to_nodes ns : NODE_TABLE σ = Some ns → NoDup (node_id <$> ns) ∧ (length ns ≤ MAX_NODES)%nat ∧
    Forall (node_ok (NEXT_NODE_ID σ)) ns;
  to_next : 4 ≤ NEXT_NODE_ID σ;
}.

(** Tables in order, with identifiers up to [b]. *)
Definition tables_at (b : Z) (σ : vfs H G) : Prop := tables_ok σ ∧ NEXT_NODE_ID σ ≤ b.

(** Every run of [m] that returns keeps the tables, and its result is in [Q]. *)
Definition keeps (b : Z) {A} (m : ST (vfs H G) A) (Q : A → Prop) : Prop :=
  ∀ σ x σ', tables_at b σ → m σ = Some (x, σ') → tables_at b σ' ∧ Q x.

Definition any {A} (x : A) : Prop := True.

Lemma keeps_ret b {A} (x : A) (Q : A → Prop) : Q x → keeps b (mret x) Q.
Proof. by intros HQ σ y σ' HI [= <- <-]. Qed.

Lemma keeps_bind b {A B} (m : ST (vfs H G) A) (k : A → ST (vfs H G) B) Q R :
  keeps b m Q → (∀ x, Q x → keeps b (k x) R) → keeps b (m ≫= k) R.
Proof.
  intros Hm Hk σ y σ' HI E. unfold mbind, ST_bind in E. destruct (m σ) as [[x σ1]|] eqn:E1; [|done].
  destruct (Hm _ _ _ HI E1) as [HI1 HQ]. by eapply Hk.
Qed.

Lemma keeps_get b {A} (f : vfs H G → A) : keeps b (get f) any.
Proof. by intros σ x σ' HI [= <- <-]. Qed.

Lemma keeps_checked b w x : keeps b (lift (checked w x)) (λ y, 0 ≤ y < 2 ^ w).
Proof.
  intros σ y σ' HI. unfold lift. destruct (checked w x) as [z|] eqn:E; [|done]. apply checked_inv in E as [-> ?].
  by intros [= <- <-].
Qed.

(** The lock and the files are no part of the tables. *)
Lemma tables_at_eq b σ σ' : MOUNT_TABLE σ' = MOUNT_TABLE σ → NODE_TABLE σ' = NODE_TABLE σ →
  NEXT_NODE_ID σ' = NEXT_NODE_ID σ → tables_at b σ → tables_at b σ'.
Proof. intros H1 H2 H3 [[Hm Hn Hx] Hb]. split; [split|]; rewrite ?H1, ?H2, ?H3; done. Qed.

Lemma keeps_lock b : keeps b vfs_lock any.
Proof.
  intros σ x σ' HI. unfold vfs_lock. destruct (VFS_LOCK σ); [done|]. intros [= <- <-]. split; [|done].
  by eapply tables_at_eq; [..|exact HI].
Qed.

Lemma keeps_unlock b : keeps b vfs_unlock any.
Proof. intros σ x σ' HI [= <- <-]. split; [|done]. by eapply tables_at_eq; [..|exact HI]. Qed.

Lemma keeps_onfs b {A} (m : ST G A) : keeps b (onfs m) any.
Proof.
  intros σ x σ' HI. unfold onfs. destruct (m _) as [[y g]|]; [|done]. intros [= <- <-]. split; [|done].
  by eapply tables_at_eq; [..|exact HI].
Qed.

Lemma keeps_size b h n : keeps b (onfs (get_file_size h n)) (λ s, 0 ≤ default 0 s < 2 ^ 32 ∧ ∀ d, 0 ≤ d < 2 ^ 32 → 0 ≤ default d s < 2 ^ 32).
Proof.
  intros σ x σ' HI. unfold onfs. destruct (get_file_size h n (world σ)) as [[[s|] g]|] eqn:E; [| |done]; intros [= <- <-].
  - apply size_typed in E. split; [by eapply tables_at_eq; [..|exact HI]|]. done.
  - split; [by eapply tables_at_eq; [..|exact HI]|]. done.
Qed.

Lemma keeps_get_fs b p : keeps b (get_fs p) any.
Proof. unfold get_fs. eapply keeps_bind; [apply keeps_get|]. intros ? _. by apply keeps_ret. Qed.

Lemma keeps_get_node b id : keeps b (get_node id) (λ r, match r with Ok n => 0 ≤ size n < 2 ^ 32 | Err _ => True end).
Proof.
  intros σ r σ' HI [= <- <-]. split; [done|]. destruct HI as [[_ Hn _] _]. destruct (NODE_TABLE σ) as [ns|]; [|done].
  destruct (Hn ns eq_refl) as (_ & _ & Hall). destruct (List.find _ ns) as [n|] eqn:E; [|done]. cbn [ok_or].
  apply find_some in E as [Hin _]. rewrite Forall_forall in Hall. by apply (no_size _ _ (Hall n (proj2 (list_elem_of_In _ _) Hin))).
Qed.

Lemma update_first_Forall {A} (P : A → Prop) p f l l' : Forall P l → (∀ x, P x → P (f x)) →
  update_first p f l = Some l' → Forall P l'.
Proof.
  intros HP Hf. revert l'. induction HP as [|x l Hx HP IH]; intros l'; simpl; [done|]. destruct (p x).
  - intros [= <-]. constructor; [by apply Hf|done].
  - destruct (update_first p f l) as [l0|]; [|done]. intros [= <-]. constructor; [done|]. by apply IH.
Qed.

Lemma update_first_fmap {A B} (g : A → B) p f l l' : (∀ x, g (f x) = g x) → update_first p f l = Some l' → g <$> l' = g <$> l.
Proof.
  intros Hg. revert l'. induction l as [|x l IH]; intros l'; simpl; [done|]. destruct (p x).
  - intros [= <-]. by rewrite !fmap_cons, Hg.
  - destruct (update_first p f l) as [l0|]; [|done]. intros [= <-]. rewrite !fmap_cons. f_equal. by apply IH.
Qed.

Lemma keeps_put_node b id f : (∀ n, node_id (f n) = node_id n) → (∀ next n, node_ok next n → node_ok next (f n)) →
  keeps b (put_node id f) any.
Proof.
  intros Hid Hf σ [] σ' [[Hm Hn Hx] Hb]. unfold put_node, mbind, ST_bind, get, lift, modify.
  destruct (NODE_TABLE σ) as [ns|] eqn:E; [|done]. destruct (Hn ns eq_refl) as (H1 & H2 & H3). simpl.
  destruct (update_first (is_id id) f ns) as [ns'|] eqn:Eu; [|done]. intros [= <-]. split; [|done].
  split; [split; [done| |done]|done]. intros ? [= <-]. pose proof (update_first_fmap node_id _ _ _ _ Hid Eu) as Hids.
  split; [by rewrite Hids|]. split.
  - apply (f_equal length) in Hids. rewrite !length_fmap in Hids. by rewrite Hids.
  - eapply update_first_Forall; [exact H3| |exact Eu]. apply Hf.
Qed.

Lemma keeps_set_cursor b id c : 0 ≤ c < 2 ^ 32 → keeps b (put_node id (set_cursor c)) any.
Proof. intros Hc. apply keeps_put_node; [done|]. intros next n [H1 H2 H3 H4]. by split. Qed.

Lemma keeps_set_size b id s : 0 ≤ s < 2 ^ 32 → keeps b (put_node id (set_size s)) any.
Proof. intros Hc. apply keeps_put_node; [done|]. intros next n [H1 H2 H3 H4]. by split. Qed.

(** The cursor after a write. *)
Lemma keeps_new_cursor b (app : bool) s x : 0 ≤ s < 2 ^ 32 →
  keeps b (if app then mret s else lift (checked 32 x)) (λ c, 0 ≤ c < 2 ^ 32).
Proof. intros Hs. destruct app; [by apply keeps_ret|apply keeps_checked]. Qed.

(** Steps through the code of an operation. *)
Ltac keeps_step :=
  first [apply keeps_new_cursor|apply keeps_get_node|apply keeps_get_fs|apply keeps_size|apply keeps_checked|apply keeps_lock|apply keeps_unlock
        |apply keeps_onfs|apply keeps_set_cursor|apply keeps_set_size|by apply keeps_ret|apply keeps_get
        |eapply keeps_bind; [|intros ? ?]|case_match].
Ltac keeps := repeat keeps_step.

Lemma keeps_locked b {A} (body : ST (vfs H G) A) Q : keeps b body Q → keeps b (locked body) Q.
Proof.
  intros Hb. unfold locked. eapply keeps_bind; [apply keeps_lock|intros _ _].
  eapply keeps_bind; [exact Hb|]. intros x HQ. eapply keeps_bind; [apply keeps_unlock|intros _ _]. by apply keeps_ret.
Qed.

Lemma keeps_with_fs b {A} p (op : H → ST G (Result A)) : keeps b (with_fs p op) any.
Proof. unfold with_fs. keeps. Qed.

Lemma keeps_ignore b {A} (m : ST (vfs H G) A) Q : keeps b m Q → keeps b (ignore m) any.
Proof. intros Hm. unfold ignore. eapply keeps_bind; [exact Hm|]. intros. by apply keeps_ret. Qed.

Lemma keeps_on_path b {A} path (op : H → string → ST G (Result A)) : keeps b (on_path path op) any.
Proof. unfold on_path. destruct (split_path path) as [[mnt file]|]; [apply keeps_with_fs|by apply keeps_ret]. Qed.

Lemma keeps_seek b id offset : 0 ≤ offset < 2 ^ 32 → keeps b (vfs_seek id offset) any.
Proof.
  intros Ho. apply keeps_locked. eapply keeps_bind; [apply keeps_get_node|]. intros [n|] Hn; keeps. lia.
Qed.

Lemma keeps_read b id k : keeps b (vfs_read id k) any.
Proof. apply keeps_locked. keeps. done. Qed.

Lemma keeps_write b id data : keeps b (vfs_write_node id data) any.
Proof.
  apply keeps_locked. unfold vfs_write_node. keeps; naive_solver.
Qed.

Lemma keeps_mount_types b t : keeps b (mount_types t) any.
Proof. induction t as [|e t IH]; simpl; keeps. exact IH. Qed.

(** Elements of a list, filtered. *)
Lemma filter_fmap_NoDup {A B} (g : A → B) (p : A → bool) l : NoDup (g <$> l) → NoDup (g <$> List.filter p l).
Proof.
  induction l as [|x l IH]; [done|]. rewrite fmap_cons. intros [Hx Hl]%NoDup_cons. simpl. destruct (p x); [|by apply IH].
  rewrite fmap_cons. apply NoDup_cons. split; [|by apply IH]. intros (y & Hy & Hin)%list_elem_of_fmap. apply Hx. rewrite Hy.
  apply list_elem_of_fmap_2, list_elem_of_In. by apply list_elem_of_In, filter_In in Hin as [? _].
Qed.

Lemma keeps_mounts b t : NoDup (point <$> t) → (length t ≤ MAX_MOUNTS)%nat → keeps b (modify (set_mounts (Some t))) any.
Proof. intros H1 H2 σ [] σ' [[Hm Hn Hx] Hb] [= <-]. split; [|done]. split; [split; [|done|done]|done]. by intros ? [= <-]. Qed.

(** Only the lock and the files differ. *)
Definition same (σ σ' : vfs H G) : Prop :=
  MOUNT_TABLE σ' = MOUNT_TABLE σ ∧ NODE_TABLE σ' = NODE_TABLE σ ∧ NEXT_NODE_ID σ' = NEXT_NODE_ID σ.

Lemma bind_inv {A B} (m : ST (vfs H G) A) (k : A → ST (vfs H G) B) σ y σ' : (m ≫= k) σ = Some (y, σ') →
  ∃ x σ1, m σ = Some (x, σ1) ∧ k x σ1 = Some (y, σ').
Proof. unfold mbind, ST_bind. destruct (m σ) as [[x σ1]|]; [|done]. by eauto. Qed.

Lemma onfs_same {A} (m : ST G A) σ x σ' : onfs m σ = Some (x, σ') → same σ σ'.
Proof. unfold onfs. destruct (m _) as [[y g]|]; [|done]. by intros [= <- <-]. Qed.

Lemma onfs_if_same {A} (c : bool) (m : ST G (Result A)) (r : Result A) σ x σ' :
  (if c then onfs m else mret r) σ = Some (x, σ') → same σ σ'.
Proof. destruct c; [apply onfs_same|]. by intros [= <- <-]. Qed.

Lemma node_kind_same f name σ r σ' : node_kind f name σ = Some (r, σ') →
  same σ σ' ∧ match r with Ok (_, s) => 0 ≤ s < 2 ^ 32 | Err _ => True end.
Proof.
  intros (ex & σ1 & E1 & E)%bind_inv. pose proof (onfs_same _ _ _ _ E1) as (H1 & H2 & H3). destruct ex.
  - apply bind_inv in E as (sz & σ2 & E2 & E). injection E as <- <-. pose proof (onfs_same _ _ _ _ E2) as (H4 & H5 & H6).
    split; [by unfold same; rewrite H4, H5, H6|]. unfold onfs in E2.
    destruct (get_file_size f name (world σ1)) as [[[s|] g]|] eqn:Es; [| |done]; injection E2 as <- <-; [|done].
    by apply size_typed in Es.
  - apply bind_inv in E as (l & σ2 & E2 & E). injection E as <- <-. pose proof (onfs_same _ _ _ _ E2) as (H4 & H5 & H6).
    split; [by unfold same; rewrite H4, H5, H6|]. by destruct (existsb _ _).
Qed.

(** What [open_node] does to the tables. *)
Lemma open_node_inv mnt name flags mode σ r σ' : open_node mnt name flags mode σ = Some (r, σ') →
  (∃ err, r = Err err) ∧ same σ σ' ∨ ∃ ns k p s, NODE_TABLE σ = Some ns ∧ (length ns < MAX_NODES)%nat ∧ 0 ≤ s < 2 ^ 32 ∧
    MOUNT_TABLE σ' = MOUNT_TABLE σ ∧ NEXT_NODE_ID σ' = u32 (NEXT_NODE_ID σ + 1) ∧
    let node := MkVfsNode (NEXT_NODE_ID σ) k p name s (if has flags O_APPEND then s else 0) flags mode in
    NODE_TABLE σ' = Some (ns ++ [node]) ∧ r = Ok node.
Proof.
  intros (ns0 & ? & [= <- <-] & E)%bind_inv. destruct (NODE_TABLE σ) as [ns|] eqn:Ens; [|injection E as <- <-; left; split; [by eauto|done]].
  destruct (Nat.leb_spec MAX_NODES (length ns)) as [?|Hlt]; [injection E as <- <-; left; split; [by eauto|done]|].
  apply bind_inv in E as (rf & ? & E1 & E). destruct (get_fs_run mnt σ) as (r0 & Er0 & _). rewrite Er0 in E1.
  injection E1 as <- <-. destruct r0 as [f|err]; [|injection E as <- <-; left; split; [by eauto|done]].
  apply bind_inv in E as (ex & σ1 & E1 & E). pose proof (onfs_same _ _ _ _ E1) as (A1 & A2 & A3).
  destruct (has flags O_CREAT && has flags O_EXCL && ex); [injection E as <- <-; left; split; [by eauto|done]|].
  apply bind_inv in E as (r1 & σ2 & E2 & E). pose proof (onfs_if_same _ _ _ _ _ _ E2) as (B1 & B2 & B3).
  destruct r1 as [[]|err]; [|injection E as <- <-; left; split; [by eauto|]; unfold same; by rewrite B1, B2, B3].
  apply bind_inv in E as (r2 & σ3 & E3 & E). pose proof (onfs_if_same _ _ _ _ _ _ E3) as (C1 & C2 & C3).
  destruct r2 as [[]|err]; [|injection E as <- <-; left; split; [by eauto|]; unfold same; by rewrite C1, C2, C3, B1, B2, B3].
  apply bind_inv in E as (ks & σ4 & E4 & E). destruct (node_kind_same _ _ _ _ _ E4) as [(D1 & D2 & D3) Hks].
  assert (same σ σ4) as (S1 & S2 & S3) by (unfold same; by rewrite D1, D2, D3, C1, C2, C3, B1, B2, B3).
  destruct ks as [[k s]|err]; [|injection E as <- <-; left; split; [by eauto|done]].
  apply bind_inv in E as (id & ? & [= <- <-] & E). apply bind_inv in E as ([] & ? & [= <-] & E).
  apply bind_inv in E as (ms & ? & [= <- <-] & E). apply bind_inv in E as (e & ? & Ee & E).
  unfold lift in Ee. cbn [MOUNT_TABLE set_next] in Ee. destruct (MOUNT_TABLE σ4 ≫= _) as [e0|]; [|done]. injection Ee as <- <-.
  apply bind_inv in E as ([] & ? & [= <-] & [= <- <-]).
  right. exists ns, k, (point e0), s. cbn [MOUNT_TABLE NEXT_NODE_ID NODE_TABLE set_nodes set_next fst snd]. by rewrite S1, S3.
Qed.

Lemma split_path_name path mnt name : split_path path = Ok (mnt, name) → name ≠ EmptyString.
Proof.
  unfold split_path. destruct (find_slash path) as [[a f]|]; [|done].
  destruct (String.eqb_spec a EmptyString), (String.eqb_spec f EmptyString); try done. by intros [= <- <-].
Qed.

Lemma tables_at_open b mnt name flags mode σ r σ' : name ≠ EmptyString → b + 1 < 2 ^ 32 → tables_at b σ →
  open_node mnt name flags mode σ = Some (r, σ') → tables_at (b + 1) σ'.
Proof.
  intros Hname Hb [[Hm Hn Hx] Hnb] E. destruct (open_node_inv _ _ _ _ _ _ _ E) as [[_ (E1 & E2 & E3)]|
    (ns & k & p & s & Hns & Hlt & Hs & E1 & E3 & E2 & _)].
  - split; [split; rewrite ?E1, ?E2, ?E3; done|]. rewrite E3. lia.
  - rewrite u32_small in E3 by lia. destruct (Hn ns Hns) as (Hnd & _ & Hall). split; [|rewrite E3; lia].
    split; rewrite ?E1, ?E2, ?E3; [done| |lia]. intros ? [= <-].
    assert (∀ n, n ∈ ns → node_id n < NEXT_NODE_ID σ) as Hids.
    { rewrite Forall_forall in Hall. intros n Hin. apply (no_id _ _ (Hall n Hin)). }
    split_and!.
    + rewrite fmap_app. apply NoDup_app. split; [done|]. split; [|apply NoDup_singleton].
      intros i (n & -> & Hin)%list_elem_of_fmap Hi%list_elem_of_singleton. apply Hids in Hin. simpl in Hi. lia.
    + rewrite length_app. simpl. unfold MAX_NODES in *. lia.
    + apply Forall_app. split.
      * eapply Forall_impl; [exact Hall|]. intros n [H1 H2 H3 H4]. split; [lia|done..].
      * apply Forall_singleton. split; cbn; [lia|destruct (has flags O_APPEND); lia|lia|done].
Qed.

Lemma tables_at_le b b' σ : b ≤ b' → tables_at b σ → tables_at b' σ.
Proof. intros Hb [Ht Hn]. split; [done|lia]. Qed.

Lemma keeps_nodes b ns : (∀ σ ns0, NODE_TABLE σ = Some ns0 → tables_at b σ → tables_at b (set_nodes (Some (ns ns0)) σ)) →
  keeps b (x ← get NODE_TABLE; match x with None => mret (Err "VFS not initialised") | Some n =>
    _ ← modify (set_nodes (Some (ns n)));
    mret (if (length (ns n) =? length n)%nat then Err "Node not found" else Ok tt) end) any.
Proof.
  intros Hns σ r σ' HI (x & ? & [= <- <-] & E)%bind_inv. destruct (NODE_TABLE σ) as [n|] eqn:En; [|by injection E as _ <-].
  apply bind_inv in E as ([] & ? & [= <-] & [= _ <-]). split; [|done]. by apply Hns.
Qed.

Lemma keeps_close b id : keeps b (vfs_close id) any.
Proof.
  apply keeps_locked, keeps_nodes. intros σ ns Hns [[Hm Hn Hx] Hb]. split; [|done]. split; [done| |done].
  intros ? [= <-]. destruct (Hn ns Hns) as (H1 & H2 & H3). split_and!.
  - by apply filter_fmap_NoDup.
  - pose proof (List.filter_length_le (λ n, negb (is_id id n)) ns). lia.
  - rewrite Forall_forall in H3 |- *. intros n Hin. apply H3, list_elem_of_In.
    by apply list_elem_of_In, filter_In in Hin as [? _].
Qed.

Lemma keeps_init b : keeps b vfs_init any.
Proof.
  apply keeps_locked. eapply keeps_bind with (Q := any).
  - intros σ [] σ' [[Hm Hn Hx] Hb] [= <-]. split; [|done]. destruct (MOUNT_TABLE σ) eqn:Em; [split; [split|]; by rewrite ?Em|].
    split; [|done]. split; [|done|done]. intros ? [= <-]. split; [constructor|]. unfold MAX_MOUNTS. simpl. lia.
  - intros _ _ σ [] σ' [[Hm Hn Hx] Hb] [= <-]. split; [|done]. destruct (NODE_TABLE σ) eqn:Em; [split; [split|]; by rewrite ?Em|].
    split; [|done]. split; [done| |done]. intros ? [= <-]. split; [constructor|]. split; [unfold MAX_NODES; simpl; lia|constructor].
Qed.

Lemma keeps_mount b p h : keeps b (vfs_mount p h) any.
Proof.
  apply keeps_locked. intros σ r σ' HI (x & ? & [= <- <-] & E)%bind_inv.
  destruct (MOUNT_TABLE σ) as [t|] eqn:Et; [|by injection E as _ <-]. destruct (existsb _ t) eqn:Eex; [by injection E as _ <-|].
  destruct (Nat.leb_spec MAX_MOUNTS (length t)) as [?|Hlt]; [by injection E as _ <-|].
  destruct (to_mounts _ (proj1 HI) t Et) as [Hnd _]. revert E. apply keeps_bind with any; [|intros; by apply keeps_ret|done].
  apply keeps_mounts.
  - rewrite fmap_app. apply NoDup_app. split; [done|]. split; [|apply NoDup_singleton].
    intros q (e & -> & Hin)%list_elem_of_fmap Hq%list_elem_of_singleton. apply not_true_iff_false in Eex. apply Eex.
    apply existsb_exists. exists e. split; [by apply list_elem_of_In|]. rewrite Hq. apply String.eqb_refl.
  - rewrite length_app. simpl. lia.
Qed.

Lemma keeps_unmount b p : keeps b (vfs_unmount p) any.
Proof.
  apply keeps_locked. intros σ r σ' HI (x & ? & [= <- <-] & E)%bind_inv.
  destruct (MOUNT_TABLE σ) as [t|] eqn:Et; [|by injection E as _ <-]. destruct (to_mounts _ (proj1 HI) t Et) as [Hnd Hl].
  revert E. apply keeps_bind with any; [|intros; by apply keeps_ret|done]. apply keeps_mounts; [by apply filter_fmap_NoDup|].
  etransitivity; [apply List.filter_length_le|done].
Qed.

(** The arguments have their types. *)
Definition op_ok (op : vfs_op (H := H)) : Prop :=
  match op with OSeek _ offset => 0 ≤ offset < 2 ^ 32 | _ => True end.

Lemma vfs_do_keeps b op : op_ok op → (∀ path flags mode, op ≠ OOpen path flags mode) → keeps b (vfs_do op) any.
Proof.
  intros Hop Hno. destruct op; simpl in *; try (by destruct (Hno path flags0 mode0)); [apply keeps_init|..];
    (eapply keeps_ignore);
    unfold vfs_read_file, vfs_create_file, vfs_write_file, vfs_append_file, vfs_delete_file, vfs_create_dir, vfs_delete_dir,
      vfs_list_dir, vfs_stat;
    first [apply keeps_mount|apply keeps_unmount|apply keeps_close|by apply keeps_seek|apply keeps_read|apply keeps_write
          |apply keeps_on_path|apply keeps_with_fs|idtac].
  - apply keeps_locked, keeps_get_node.
  - apply keeps_locked, keeps_get.
  - unfold vfs_rename_file. instantiate (1 := any). destruct (split_path old_path) as [[a f1]|]; [|by apply keeps_ret].
    destruct (split_path new_path) as [[c f2]|]; [|by apply keeps_ret].
    destruct (negb _); [by apply keeps_ret|apply keeps_with_fs].
  - unfold vfs_file_exists. instantiate (1 := any). destruct (split_path path) as [[a f1]|]; [|by apply keeps_ret].
    apply keeps_locked. keeps.
  - unfold vfs_get_file_size. instantiate (1 := any). destruct (split_path path) as [[a f1]|]; [|by apply keeps_ret]. keeps.
  - apply keeps_locked. eapply keeps_bind; [apply keeps_get|]. intros t _. apply keeps_mount_types.
Qed.

Lemma vfs_do_tables b op σ σ' : op_ok op → b + 1 < 2 ^ 32 → tables_at b σ → vfs_do op σ = Some (tt, σ') → tables_at (b + 1) σ'.
Proof.
  intros Hop Hb HI E. assert ((∃ path flags mode, op = OOpen path flags mode) ∨ ∀ path flags mode, op ≠ OOpen path flags mode) as [Hopen|Hno].
  { destruct op; try (right; done). left. by eauto. }
  - destruct Hopen as (path & flags & mode & ->). simpl in E. apply ignore_inv in E as [x E]. unfold vfs_open in E.
    destruct (split_path path) as [[mnt name]|] eqn:Ep; [|injection E as _ <-; eapply tables_at_le; [|done]; lia].
    apply bind_inv in E as ([] & σ1 & E1 & E). destruct (keeps_lock b _ _ _ HI E1) as [HI1 _].
    apply bind_inv in E as (r & σ2 & E2 & E). apply bind_inv in E as ([] & σ3 & E3 & [= _ <-]).
    eapply (keeps_unlock (b + 1)); [|exact E3]. eapply tables_at_open; [by eapply split_path_name|done|exact HI1|exact E2].
  - eapply tables_at_le; [|by eapply vfs_do_keeps]. lia.
Qed.

Fixpoint vfs_run (ops : list (vfs_op (H := H))) : ST (vfs H G) unit :=
  match ops with
  | [] => mret tt
  | op :: ops => _ ← vfs_do op; vfs_run ops
  end.

Lemma vfs_run_tables ops b σ σ' : Forall op_ok ops → b + Z.of_nat (length ops) < 2 ^ 32 → tables_at b σ →
  vfs_run ops σ = Some (tt, σ') → tables_at (b + Z.of_nat (length ops)) σ'.
Proof.
  intros Hops. revert b σ. induction Hops as [|op ops Hop Hops IH]; intros b σ Hb HI E.
  - injection E as <-. eapply tables_at_le; [|done]. simpl. lia.
  - rewrite length_cons in *. apply bind_inv in E as ([] & σ1 & E1 & E).
    eapply tables_at_le; [|eapply (IH (b + 1)); [lia| |exact E]]; [lia|].
    eapply vfs_do_tables; [exact Hop|lia|exact HI|exact E1].
Qed.
End tables.

(** C33. The tables of the VFS stay well formed: after any sequence of operations
    from the start, with fewer than 2^32 - 4 of them, mount points differ, no more
    than 8 are mounted, no more than 64 nodes are open, their identifiers differ
    and are none of the reserved ones, and their cursors and sizes are 32-bit
    values. It holds for every driver whose sizes are 32-bit values. *)
Theorem vfs_tables_typed {H G} `{!FileSystem H G} (g : G) ops σ :
  (∀ (h : H) n (g : G) s g', get_file_size h n g = Some (Some s, g') → 0 ≤ s < 2 ^ 32) →
  Forall op_ok ops → 4 + Z.of_nat (length ops) < 2 ^ 32 →
  vfs_run ops (Vfs (H := H) false None None 4 g) = Some (tt, σ) → tables_ok σ.
Proof.
  intros Hsize Hops Hlen E. eapply (vfs_run_tables Hsize ops 4); [done|done| |exact E].
  split; [|done]. by split.
Qed.

Lemma ram_size_typed (h : nat) n (g : ram) s g' : get_file_size h n g = Some (Some s, g') → 0 ≤ s < 2 ^ 32.
Proof.
  unfold get_file_size. simpl. unfold RamFs.get_file_size, RamFs.files_of, mbind, ST_bind, mret, ST_ret, option_bind.
  destruct (g !! h) as [fs|]; [|done]. destruct (List.find _ fs) as [f|]; [|done]. intros [= <- <-]. apply (u32_range).
Qed.

Definition some_ops : list (vfs_op (H := nat)) :=
  [OInit; OMount "ram" 0%nat; OOpen "ram/a" (Z.lor O_CREAT O_RDWR) 0; OWriteNode 4 [7]; OSeek 4 0; OClose 9].
Definition ram_world : ram := {[0%nat := []]}.

Lemma vfs_tables_typed_witness : ∃ σ, vfs_run some_ops (Vfs false None None 4 ram_world) = Some (tt, σ) ∧
  length (default [] (NODE_TABLE σ)) = 1%nat ∧ tables_ok σ.
Proof.
  destruct (vfs_run some_ops (Vfs false None None 4 ram_world)) as [[[] σ]|] eqn:E.
  - exists σ. split; [exact eq_refl|]. split.
    + assert (((λ p, length (default [] (NODE_TABLE (snd p)))) <$> vfs_run some_ops (Vfs false None None 4 ram_world)) = Some 1%nat) as Hl.
      { vm_compute. reflexivity. }
      rewrite E in Hl. injection Hl as Hl. exact Hl.
    + apply (vfs_tables_typed ram_world some_ops σ ram_size_typed); [|simpl; lia|exact E].
      repeat constructor; simpl; lia.
  - exfalso. assert (bool_decide (is_Some (vfs_run some_ops (Vfs false None None 4 ram_world))) = true) as Hs.
    { vm_compute. reflexivity. }
    rewrite E in Hs. discriminate Hs.
Defined.

(** The log, open for reading and writing after its first byte. *)
Definition log_files : list RamFile := [MkRamFile "log" [1; 2; 3]; MkRamFile "old" [9]].
Definition log_node : VfsNode := MkVfsNode 4 File "ram" "log" 3 1 O_RDWR 0.
Definition log_open : vfs nat ram :=
  Vfs false (Some [MkMount "ram"%string 0%nat]) (Some [log_node]) 5 {[0%nat := log_files]}.

Lemma log_open_file : open_file log_open 4 log_node 0%nat (abs log_files) [1; 2; 3].
Proof.
  split.
  - exact eq_refl.
  - eexists. split; exact eq_refl.
  - exact eq_refl.
  - eexists _, _. split; [exact eq_refl|]. split; exact eq_refl.
  - exists log_files. split; [exact eq_refl|]. split; [|exact eq_refl].
    apply (bool_decide_unpack (NoDup (key <$> log_files))). vm_compute. exact I.
  - vm_compute. reflexivity.
  - cbn. lia.
  - exact eq_refl.
Qed.

(** The write of a byte returns. *)
Definition wrote (r : option (Result unit * vfs nat ram)) : bool :=
  match r with Some (Ok _, _) => true | _ => false end.

Lemma wrote_result r : wrote r = true → ∃ σ, r = Some (Ok tt, σ).
Proof. destruct r as [[[[]|] σ]|]; [|done..]. by exists σ. Qed.

Lemma vfs_write_read_roundtrip_witness : ∃ σ1 σ2 σ3, vfs_write_node 4 [7; 8] log_open = Some (Ok tt, σ1) ∧
  vfs_seek 4 1 σ1 = Some (Ok tt, σ2) ∧ vfs_read 4 2 σ2 = Some (Ok [7; 8], σ3).
Proof.
  destruct (wrote_result (vfs_write_node 4 [7; 8] log_open)) as [σ1 E]; [vm_compute; reflexivity|].
  destruct (vfs_write_read_roundtrip log_open 4 log_node 0%nat (abs log_files) [1; 2; 3] [7; 8] σ1 log_open_file)
    as (σ2 & σ3 & m' & E2 & E3 & _); [exact eq_refl|exact eq_refl|discriminate|exact eq_refl|exact eq_refl|exact E|].
  exists σ1, σ2, σ3. split; [exact E|]. split; [exact E2|exact E3].
Defined.

Lemma vfs_reads_sequential_witness : ∃ ss σ', reads 4 [1; 5] log_open = Some (Ok ss, σ') ∧ concat ss = [2; 3].
Proof.
  destruct (vfs_reads_sequential log_open 4 log_node 0%nat (abs log_files) [1; 2; 3] [1; 5] log_open_file)
    as (ss & σ' & E & Hc & _).
  - discriminate.
  - repeat constructor; lia.
  - exists ss, σ'. split; [exact E|exact Hc].
Defined.

Lemma vfs_write_effect_witness : ∃ r σ' m', vfs_write_node 4 [7; 8] log_open = Some (r, σ') ∧
  fs_rep 0%nat m' (world σ') ∧ m' !! lower "old" = Some [9].
Proof.
  destruct (vfs_write_effect log_open 4 log_node 0%nat (abs log_files) [1; 2; 3] [7; 8] log_open_file)
    as (r & σ' & m' & E & _ & Hr & Hk & _); [discriminate|discriminate|exact eq_refl|exact eq_refl|].
  exists r, σ', m'. split; [exact E|]. split; [exact Hr|]. rewrite Hk; [vm_compute; reflexivity|discriminate].
Defined.
