(* ===== verification/Process.v ===== *)
(** * Processes

    Models process/src/lib.rs: the process table, the file descriptors of a
    process, and the creation and destruction of processes, which allocate from
    the kernel heap, the frame allocator and the VFS. The record [kernel] holds
    the statics of these crates and of the scheduler over one memory [RAM]:
    [on_mm] and [on_heap] run an operation of the memory crate on it.

    What is printed is left out. *)
From S2P Require Import Prelude Rust Frame Paging KHeap FileSystem Vfs.

Definition KERNEL_STACK_SIZE : Z := 64 * 1024.
Definition MAX_PROCESSES : Z := 64.
Definition USIZE_MAX : Z := 2 ^ 64 - 1.

(** ** Data *)

Inductive Priority := Idle | Normal | High | Realtime.
#[global] Instance Priority_eq_dec : EqDecision Priority.
Proof. solve_decision. Defined.

Inductive ProcessState := Ready | Running | Blocked | Sleeping | Terminated.
#[global] Instance ProcessState_eq_dec : EqDecision ProcessState.
Proof. solve_decision. Defined.

(** A file descriptor (vfs/src/lib.rs). *)
Record FD := MkFD { fd_node : Z; fd_flags : Z; ref_count : Z }.
Definition FD_EMPTY : FD := MkFD 0 0 0.
Definition is_empty (fd : FD) : bool := fd_node fd =? 0.
Definition is_special (fd : FD) : bool := (STDIN_NODE_ID <=? fd_node fd) && (fd_node fd <=? STDERR_NODE_ID).

Record Process := MkProcess {
  pid : Z;
  rsp : Z;
  stack_base : Z;
  entry : Z;
  pml4 : Z;
  state : ProcessState;
  priority : Priority;
  fildes : list FD;
  ticks_ready : Z;
  wake_at_tick : Z;
}.

Definition set_state (s : ProcessState) (p : Process) : Process :=
  MkProcess (pid p) (rsp p) (stack_base p) (entry p) (pml4 p) s (priority p) (fildes p) (ticks_ready p) (wake_at_tick p).
Definition set_rsp (r : Z) (p : Process) : Process :=
  MkProcess (pid p) r (stack_base p) (entry p) (pml4 p) (state p) (priority p) (fildes p) (ticks_ready p) (wake_at_tick p).
Definition set_fildes (f : list FD) (p : Process) : Process :=
  MkProcess (pid p) (rsp p) (stack_base p) (entry p) (pml4 p) (state p) (priority p) f (ticks_ready p) (wake_at_tick p).
Definition set_wake (t : Z) (p : Process) : Process :=
  MkProcess (pid p) (rsp p) (stack_base p) (entry p) (pml4 p) (state p) (priority p) (fildes p) (ticks_ready p) t.

(** The table of a new process: the three standard streams. *)
Definition initial_fildes : list FD :=
  [MkFD STDIN_NODE_ID O_RDONLY 1; MkFD STDOUT_NODE_ID O_WRONLY 1; MkFD STDERR_NODE_ID O_WRONLY 1]
  ++ replicate 1021 FD_EMPTY.

Section kernel.
Context {H G : Type} `{!FileSystem H G}.

Record kernel := Kernel {
  RAM : kmem;
  k_mm : mm;
  k_heap : heap;
  k_vfs : vfs H G;
  processes : list (option Process);
  current : Z;
  PROCESS_COUNT : Z;
  SCHEDULER_ENABLED : bool;
  CURRENT_TICKS : Z;
  QUANTUM_REMAINING : Z;
}.

Definition set_k_mm (μ : mm) (κ : kernel) : kernel :=
  Kernel (mem μ) μ (k_heap κ) (k_vfs κ) (processes κ) (current κ) (PROCESS_COUNT κ) (SCHEDULER_ENABLED κ) (CURRENT_TICKS κ) (QUANTUM_REMAINING κ).
Definition set_k_heap (η : heap) (κ : kernel) : kernel :=
  Kernel (hmem η) (k_mm κ) η (k_vfs κ) (processes κ) (current κ) (PROCESS_COUNT κ) (SCHEDULER_ENABLED κ) (CURRENT_TICKS κ) (QUANTUM_REMAINING κ).
Definition set_k_vfs (ν : vfs H G) (κ : kernel) : kernel :=
  Kernel (RAM κ) (k_mm κ) (k_heap κ) ν (processes κ) (current κ) (PROCESS_COUNT κ) (SCHEDULER_ENABLED κ) (CURRENT_TICKS κ) (QUANTUM_REMAINING κ).
Definition set_RAM (m : kmem) (κ : kernel) : kernel :=
  Kernel m (k_mm κ) (k_heap κ) (k_vfs κ) (processes κ) (current κ) (PROCESS_COUNT κ) (SCHEDULER_ENABLED κ) (CURRENT_TICKS κ) (QUANTUM_REMAINING κ).
Definition set_processes (ps : list (option Process)) (κ : kernel) : kernel :=
  Kernel (RAM κ) (k_mm κ) (k_heap κ) (k_vfs κ) ps (current κ) (PROCESS_COUNT κ) (SCHEDULER_ENABLED κ) (CURRENT_TICKS κ) (QUANTUM_REMAINING κ).
Definition set_current (c : Z) (κ : kernel) : kernel :=
  Kernel (RAM κ) (k_mm κ) (k_heap κ) (k_vfs κ) (processes κ) c (PROCESS_COUNT κ) (SCHEDULER_ENABLED κ) (CURRENT_TICKS κ) (QUANTUM_REMAINING κ).
Definition set_pcount (n : Z) (κ : kernel) : kernel :=
  Kernel (RAM κ) (k_mm κ) (k_heap κ) (k_vfs κ) (processes κ) (current κ) n (SCHEDULER_ENABLED κ) (CURRENT_TICKS κ) (QUANTUM_REMAINING κ).
Definition set_enabled (b : bool) (κ : kernel) : kernel :=
  Kernel (RAM κ) (k_mm κ) (k_heap κ) (k_vfs κ) (processes κ) (current κ) (PROCESS_COUNT κ) b (CURRENT_TICKS κ) (QUANTUM_REMAINING κ).
Definition set_ticks (t : Z) (κ : kernel) : kernel :=
  Kernel (RAM κ) (k_mm κ) (k_heap κ) (k_vfs κ) (processes κ) (current κ) (PROCESS_COUNT κ) (SCHEDULER_ENABLED κ) t (QUANTUM_REMAINING κ).
Definition set_quantum (q : Z) (κ : kernel) : kernel :=
  Kernel (RAM κ) (k_mm κ) (k_heap κ) (k_vfs κ) (processes κ) (current κ) (PROCESS_COUNT κ) (SCHEDULER_ENABLED κ) (CURRENT_TICKS κ) q.

(** Calls of the memory crate and of the VFS. *)
Definition on_mm {A} (m : ST mm A) : ST kernel A :=
  λ κ, match m (set_mem (RAM κ) (k_mm κ)) with Some (x, μ) => Some (x, set_k_mm μ κ) | None => None end.
Definition on_heap {A} (m : ST heap A) : ST kernel A :=
  λ κ, match m (set_hmem (RAM κ) (k_heap κ)) with Some (x, η) => Some (x, set_k_heap η κ) | None => None end.
Definition on_vfs {A} (m : ST (vfs H G) A) : ST kernel A :=
  λ κ, match m (k_vfs κ) with Some (x, ν) => Some (x, set_k_vfs ν κ) | None => None end.

(** A word of memory. *)
Definition ram_load (a : Z) : ST kernel Z := λ κ, w ← kload (RAM κ) a; Some (w, κ).
Definition ram_store (a w : Z) : ST kernel unit := λ κ, m ← kstore (RAM κ) a w; Some (tt, set_RAM m κ).

(** [PROCESS_TABLE.processes[i]], read and written; an index out of range
    panics. *)
Definition get_slot (i : Z) : ST kernel (option Process) :=
  λ κ, p ← (if i <? MAX_PROCESSES then processes κ !! Z.to_nat i else None); Some (p, κ).
Definition put_slot (i : Z) (p : option Process) : ST kernel unit :=
  λ κ, if i <? MAX_PROCESSES then Some (tt, set_processes (<[Z.to_nat i := p]> (processes κ)) κ) else None.

(** A write through [processes[i].as_mut()]. *)
Definition update_slot (i : Z) (f : Process → Process) : ST kernel unit :=
  p ← get_slot i;
  match p with
  | Some p => put_slot i (Some (f p))
  | None => mret tt
  end.

(** ** File descriptors of a process *)

Fixpoint position {A} (f : A → bool) (l : list A) : option Z :=
  match l with
  | [] => None
  | x :: l => if f x then Some 0 else (λ i, i + 1) <$> position f l
  end.

Definition get_free_fd_index (p : Process) : option Z := (λ i, i + 3) <$> position is_empty (drop 3 (fildes p)).

(** Returns the index and the process changed. *)
Definition open_fd (p : Process) (node flags : Z) : option (Z * Process) :=
  idx ← get_free_fd_index p;
  Some (idx, set_fildes (<[Z.to_nat idx := MkFD node flags 1]> (fildes p)) p).

(** Closes one reference of a descriptor; returns what is left of it. *)
Definition close_entry (e : FD) : ST (vfs H G) FD :=
  let e := MkFD (fd_node e) (fd_flags e) (saturating_sub (ref_count e) 1) in
  if ref_count e =? 0 then
    _ ← (if negb (is_special e) then ignore (vfs_close (fd_node e)) else mret tt);
    mret FD_EMPTY
  else mret e.

Definition close_fd (p : Process) (fd : Z) : ST (vfs H G) (bool * Process) :=
  if len (fildes p) <=? fd then mret (false, p)
  else
    e ← lift (fildes p !! Z.to_nat fd);
    if is_empty e then mret (false, p)
    else
      e ← close_entry e;
      mret (true, set_fildes (<[Z.to_nat fd := e]> (fildes p)) p).

(** ** Creation *)

Definition init_kernel_process (r : Z) : ST kernel unit :=
  kernel_pml4 ← on_mm get_page_table;
  let process := MkProcess 0 r 0 0 kernel_pml4 Running Idle initial_fildes 0 0 in
  _ ← put_slot 0 (Some process);
  _ ← modify (set_current 0);
  modify (set_pcount 1).

(** [alloc_zeroed]: [alloc], and the block filled with zeroes. *)
Definition alloc_zeroed (size align : Z) : ST kernel Z :=
  on_heap (
    p ← LinkAllocator.alloc size align;
    if p =? 0 then mret 0
    else
      _ ← for_range 0 (Z.to_nat (size / 8)) (λ i, hsd (p + 8 * i) 0);
      mret p).

Definition allocate_kernel_stack : ST kernel (option Z) :=
  ptr ← alloc_zeroed KERNEL_STACK_SIZE 4096;
  mret (if ptr =? 0 then None else Some ptr).

(** The address of [process_entry_wrapper]. *)
Context (process_entry_wrapper : Z).

(** [rsp = rsp.sub(1); *rsp = w]. *)
Definition push (r w : Z) : ST kernel Z :=
  _ ← ram_store (r - 8) w;
  mret (r - 8).

Fixpoint push_all (r : Z) (ws : list Z) : ST kernel Z :=
  match ws with
  | [] => mret r
  | w :: ws => r ← push r w; push_all r ws
  end.

Definition setup_initial_stack (base e : Z) : ST kernel Z :=
  let stack_top := base + KERNEL_STACK_SIZE in
  r ← push stack_top 0x10;
  r ← push r stack_top;
  r ← push r 0x202;
  r ← push r 0x08;
  r ← push r process_entry_wrapper;
  push_all r ((λ i : Z, if i =? 1 then e else 0) <$> seqZ 0 15).

Definition create_process (e : Z) : ST kernel (option Z) :=
  p ← get PROCESS_COUNT;
  if MAX_PROCESSES <=? p then mret None
  else
    base ←o allocate_kernel_stack;
    r ← setup_initial_stack base e;
    user_pml4 ←o on_mm create_user_pml4;
    let process := MkProcess p r base e user_pml4 Ready Normal initial_fildes 0 0 in
    _ ← put_slot p (Some process);
    n ← lift (checked 64 (p + 1));
    _ ← modify (set_pcount n);
    mret (Some p).

(** ** Destruction *)

(** The loop over the descriptors of a process that is taken from the table. *)
Fixpoint close_all (fds : list FD) : ST (vfs H G) unit :=
  match fds with
  | [] => mret tt
  | fd :: fds =>
      _ ← (if negb (is_empty fd) then ignore (close_entry fd) else mret tt);
      close_all fds
  end.

Definition destroy_process (p : Z) : ST kernel bool :=
  if MAX_PROCESSES <=? p then mret false
  else
    slot ← get_slot p;
    _ ← put_slot p None;
    match slot with
    | None => mret false
    | Some process =>
        _ ← on_vfs (close_all (fildes process));
        _ ← (if negb (stack_base process =? 0) then on_heap (LinkAllocator.dealloc (stack_base process)) else mret tt);
        c ← get current;
        _ ← (if c =? p then modify (set_current 0) else mret tt);
        mret true
    end.

Definition cleanup_terminated_processes : ST kernel unit :=
  n ← get PROCESS_COUNT;
  for_range 0 (Z.to_nat n) (λ i,
    slot ← get_slot i;
    match slot with
    | Some proc =>
        if bool_decide (state proc = Terminated) then _ ← destroy_process (pid proc); mret tt else mret tt
    | None => mret tt
    end).

Definition exit_current_process : ST kernel unit :=
  c ← get current;
  update_slot c (set_state Terminated).

(** ** Access *)

(** [get_current_process] and [get_current_process_mut]. *)
Definition get_current_process : ST kernel (option Process) :=
  c ← get current;
  if c =? USIZE_MAX then mret None else get_slot c.

(** [get_process] and [get_process_mut]. *)
Definition get_process (p : Z) : ST kernel (option Process) :=
  if MAX_PROCESSES <=? p then mret None else get_slot p.

Definition does_pid_exist (p : Z) : ST kernel bool :=
  n ← get PROCESS_COUNT;
  mret (negb ((MAX_PROCESSES <=? p) && (n <? p))).
End kernel.

Arguments kernel H G : clear implicits.
