(* ===== verification/Sched.v ===== *)
(** * The scheduler

    Models sched/src/lib.rs over the process table: the round robin scheduler
    driven by the timer interrupt, and the calls that give up the processor. *)
From S2P Require Import Prelude Rust Frame Paging KHeap FileSystem Vfs Process.

Definition QUANTUM_TICKS : Z := 5.

Section sched.
Context {H G : Type} `{!FileSystem H G}.
Implicit Types κ : kernel H G.

Definition init_scheduler : ST (kernel H G) unit :=
  n ← get PROCESS_COUNT;
  if n =? 0 then mret tt
  else
    _ ← modify (set_current 0);
    _ ← modify (set_quantum QUANTUM_TICKS);
    update_slot 0 (set_state Running).

Definition enable_scheduler : ST (kernel H G) unit := modify (set_enabled true).
Definition disable_scheduler : ST (kernel H G) unit := modify (set_enabled false).

(** The loop of [find_next_ready], from [offset] on for [n] more, with the idle
    process found so far. *)
Fixpoint find_ready (current count offset : Z) (n : nat) (idle_fallback : option Z) : ST (kernel H G) (option Z * option Z) :=
  match n with
  | O => mret (None, idle_fallback)
  | S n =>
      sum ← lift (checked 64 (current + offset));
      let idx := sum mod count in
      p ← get_slot idx;
      match p with
      | Some proc =>
          if negb (bool_decide (state proc = Ready)) then find_ready current count (offset + 1) n idle_fallback
          else if bool_decide (priority proc = Idle) then
            find_ready current count (offset + 1) n (match idle_fallback with None => Some idx | f => f end)
          else mret (Some idx, idle_fallback)
      | None => find_ready current count (offset + 1) n idle_fallback
      end
  end.

Definition find_next_ready (current : Z) (allow_idle : bool) : ST (kernel H G) (option Z) :=
  count ← get PROCESS_COUNT;
  r ← find_ready current count 1 (Z.to_nat count) None;
  match r with
  | (Some idx, _) => mret (Some idx)
  | (None, idle_fallback) => mret (if allow_idle then idle_fallback else None)
  end.

Definition load_cr3 (p : Z) : ST (kernel H G) unit :=
  let phys := if HHDM_OFFSET <=? p then p - HHDM_OFFSET else p in
  current_cr3 ← get (λ κ, cr3 (k_mm κ));
  if Z.land current_cr3 0x000FFFFFFFFFF000 =? phys then mret tt
  else on_mm (modify (set_cr3 phys)).

Definition switch_to (current current_rsp next : Z) : ST (kernel H G) Z :=
  _ ← update_slot current (λ p,
    let p := set_rsp current_rsp p in
    if bool_decide (state p = Running) then set_state Ready p else p);
  q ← get_slot next;
  proc ← lift q;
  _ ← put_slot next (Some (set_state Running proc));
  _ ← modify (set_current next);
  _ ← load_cr3 (pml4 proc);
  mret (rsp proc).

Definition schedule (current_rsp : Z) : ST (kernel H G) Z :=
  current ← get current;
  p ← get_slot current;
  match state <$> p with
  | Some Running =>
      q ← get QUANTUM_REMAINING;
      _ ← (if 0 <? q then modify (set_quantum (q - 1)) else mret tt);
      q ← get QUANTUM_REMAINING;
      if q =? 0 then
        r ← find_next_ready current true;
        match r with
        | Some next =>
            _ ← modify (set_quantum QUANTUM_TICKS);
            switch_to current current_rsp next
        | None =>
            _ ← modify (set_quantum QUANTUM_TICKS);
            mret current_rsp
        end
      else mret current_rsp
  | Some (Terminated | Sleeping | Blocked) =>
      r ← find_next_ready current true;
      match r with
      | Some next =>
          _ ← modify (set_quantum QUANTUM_TICKS);
          switch_to current current_rsp next
      | None => mret current_rsp
      end
  | _ => mret current_rsp
  end.

(** The loop that wakes the processes whose time has come. *)
Definition wake (i : Z) : ST (kernel H G) unit :=
  ticks ← get CURRENT_TICKS;
  update_slot i (λ p, if bool_decide (state p = Sleeping) && (wake_at_tick p <=? ticks) then set_state Ready p else p).

Definition handle_timer_interrupt (current_rsp : Z) : ST (kernel H G) Z :=
  enabled ← get SCHEDULER_ENABLED;
  if negb enabled then mret current_rsp
  else
    t ← get CURRENT_TICKS;
    t ← lift (checked 64 (t + 1));
    _ ← modify (set_ticks t);
    n ← get PROCESS_COUNT;
    _ ← for_range 0 (Z.to_nat n) wake;
    schedule current_rsp.

(** ** Giving up the processor

    Each of these ends with [hlt]: the processor waits for the next interrupt. *)

Definition yield_process : ST (kernel H G) unit :=
  current ← get current;
  _ ← update_slot current (set_state Ready);
  modify (set_quantum 0).

Definition block_current : ST (kernel H G) unit :=
  current ← get current;
  update_slot current (set_state Blocked).

Definition unblock_process (p : Z) : ST (kernel H G) unit :=
  r ← get_process p;
  match r with
  | Some proc => if bool_decide (state proc = Blocked) then put_slot p (Some (set_state Ready proc)) else mret tt
  | None => mret tt
  end.

(** Up to the loop that waits until the process is no longer asleep. *)
Definition sleep_proc (amount ticks_per_sec unit_per_sec : Z) : ST (kernel H G) unit :=
  x ← lift (checked 64 (amount * ticks_per_sec));
  x ← lift (checked 64 (x + (unit_per_sec - 1)));
  let ticks := Z.max (x / unit_per_sec) 1 in
  current ← get current;
  p ← get_slot current;
  match p with
  | Some p =>
      t ← get CURRENT_TICKS;
      w ← lift (checked 64 (t + ticks));
      put_slot current (Some (set_state Sleeping (set_wake w p)))
  | None => mret tt
  end.

Definition sleep_proc_ms (ms ticks_per_sec : Z) : ST (kernel H G) unit := sleep_proc ms ticks_per_sec 1000.
Definition sleep_proc_us (us ticks_per_sec : Z) : ST (kernel H G) unit := sleep_proc us ticks_per_sec 1000000.

(** [process_exit] of process/src/lib.rs, up to its loop. *)
Definition process_exit : ST (kernel H G) unit :=
  current ← get current;
  update_slot current (set_state Terminated).

(** ** The order of the processes *)

(** The process in a slot. *)
Definition proc_at κ (i : Z) : option Process := mjoin (processes κ !! Z.to_nat i).

Definition is_ready κ (i : Z) : bool :=
  match proc_at κ i with Some p => bool_decide (state p = Ready) | None => false end.
Definition is_idle κ (i : Z) : bool :=
  match proc_at κ i with Some p => bool_decide (priority p = Idle) | None => false end.

(** The slots after [c], in a circle, [c] last. *)
Definition circle (c count : Z) : list Z := (λ off, (c + off) mod count) <$> seqZ 1 count.

(** The first ready process that is not idle, or the first idle one. *)
Definition pick κ (c : Z) : option Z :=
  let slots := circle c (PROCESS_COUNT κ) in
  match List.find (λ i, is_ready κ i && negb (is_idle κ i)) slots with
  | Some i => Some i
  | None => List.find (λ i, is_ready κ i && is_idle κ i) slots
  end.

(** ** The invariant

    The slots of processes that were created hold their own identifiers and 1024
    descriptors each; only the current process is marked running, and it has some
    of its quantum left. *)
Record table_ok κ : Prop := {
  tk_len : length (processes κ) = 64%nat;
  tk_count : 1 ≤ PROCESS_COUNT κ ≤ MAX_PROCESSES;
  tk_current : 0 ≤ current κ < PROCESS_COUNT κ;
  tk_proc i p : 0 ≤ i → proc_at κ i = Some p → pid p = i ∧ i < PROCESS_COUNT κ ∧ length (fildes p) = 1024%nat;
  tk_running i p : 0 ≤ i → proc_at κ i = Some p → state p = Running → i = current κ;
  tk_quantum : 0 ≤ QUANTUM_REMAINING κ ≤ QUANTUM_TICKS;
  tk_left p : proc_at κ (current κ) = Some p → state p = Running → 1 ≤ QUANTUM_REMAINING κ;
}.

Lemma wp_get_slot κ i (Q : option Process → kernel H G → Prop) : length (processes κ) = 64%nat →
  0 ≤ i < MAX_PROCESSES → Q (proc_at κ i) κ → wp (get_slot i) Q κ.
Proof.
  intros Hl Hi HQ. unfold wp, get_slot. rewrite (proj2 (Z.ltb_lt i _)) by lia. unfold proc_at in HQ.
  destruct (lookup_lt_is_Some_2 (processes κ) (Z.to_nat i)) as [p Hp]; [unfold MAX_PROCESSES in Hi; lia|].
  rewrite Hp in HQ |- *. done.
Qed.

Definition put κ (i : Z) (p : Process) : kernel H G := set_processes (<[Z.to_nat i := Some p]> (processes κ)) κ.

Lemma wp_put_slot κ i p (Q : unit → kernel H G → Prop) : 0 ≤ i < MAX_PROCESSES →
  Q tt (put κ i p) → wp (put_slot i (Some p)) Q κ.
Proof. intros Hi HQ. unfold wp, put_slot. by rewrite (proj2 (Z.ltb_lt i _)) by lia. Qed.

Lemma wp_update_slot κ i f (Q : unit → kernel H G → Prop) : length (processes κ) = 64%nat → 0 ≤ i < MAX_PROCESSES →
  match proc_at κ i with Some p => Q tt (put κ i (f p)) | None => Q tt κ end → wp (update_slot i f) Q κ.
Proof.
  intros Hl Hi HQ. unfold update_slot. apply wp_bind, wp_get_slot; [done|done|].
  destruct (proc_at κ i); [by apply wp_put_slot|by apply wp_ret].
Qed.

Lemma proc_at_put κ i p j : length (processes κ) = 64%nat → 0 ≤ i < MAX_PROCESSES → 0 ≤ j →
  proc_at (put κ i p) j = if decide (i = j) then Some p else proc_at κ j.
Proof.
  intros Hl Hi Hj. unfold proc_at, put. cbn [processes set_processes]. destruct (decide (i = j)) as [->|Hne].
  - rewrite list_lookup_insert_eq; [done|]. unfold MAX_PROCESSES in Hi. lia.
  - rewrite list_lookup_insert_ne; [done|]. lia.
Qed.

Lemma find_ready_ok κ c count off n fb : length (processes κ) = 64%nat → 1 ≤ count ≤ MAX_PROCESSES → 0 ≤ c < 2 ^ 32 →
  0 ≤ off → off + Z.of_nat n < 2 ^ 32 →
  let slots := (λ o, (c + o) mod count) <$> seqZ off (Z.of_nat n) in
  wp (find_ready c count off n fb) (λ r κ', κ' = κ ∧
    match List.find (λ i, is_ready κ i && negb (is_idle κ i)) slots with
    | Some i => r.1 = Some i
    | None => r = (None, match fb with Some f => Some f | None => List.find (λ i, is_ready κ i && is_idle κ i) slots end)
    end) κ.
Proof.
  intros Hl Hc Hcur. revert off fb. induction n as [|n IH]; intros off fb Ho Hn slots.
  { apply wp_ret. split; [done|]. simpl. by destruct fb. }
  unfold slots. rewrite seqZ_cons by lia. rewrite fmap_cons. set (idx := (c + off) mod count).
  replace (Z.pred (Z.of_nat (S n))) with (Z.of_nat n) by lia. replace (Z.succ off) with (off + 1) by lia.
  assert (0 ≤ idx < MAX_PROCESSES) as Hidx by (unfold idx; divlia).
  cbn [find_ready]. apply wp_bind, (wp_lift (c + off)); [apply checked_ok; lia|]. fold idx.
  apply wp_bind, wp_get_slot; [done|done|]. cbn [List.find].
  assert (is_ready κ idx = match proc_at κ idx with Some p => bool_decide (state p = Ready) | None => false end) as Hr by done.
  assert (is_idle κ idx = match proc_at κ idx with Some p => bool_decide (priority p = Idle) | None => false end) as Hi by done.
  rewrite Hr, Hi. destruct (proc_at κ idx) as [p|]; [|apply (IH (off + 1) fb); lia].
  destruct (bool_decide (state p = Ready)); cbn [negb andb]; [|apply (IH (off + 1) fb); lia].
  destruct (bool_decide (priority p = Idle)); cbn [negb andb]; [|by apply wp_ret].
  eapply wp_mono; [apply (IH (off + 1)); lia|]. intros r κ' [-> H1]. split; [done|].
  destruct (List.find _ _); [done|]. by destruct fb.
Qed.

Lemma find_next_ready_ok κ c : length (processes κ) = 64%nat → 1 ≤ PROCESS_COUNT κ ≤ MAX_PROCESSES → 0 ≤ c < 2 ^ 32 →
  wp (find_next_ready c true) (λ r κ', κ' = κ ∧ r = pick κ c) κ.
Proof.
  intros Hl Hc Hcur. unfold find_next_ready. apply wp_bind, wp_get, wp_bind.
  wp_call find_ready_ok; [done|done|done|lia|unfold MAX_PROCESSES in *; lia|].
  rewrite Z2Nat.id by lia. intros r κ' [-> Hr]. unfold pick, circle.
  destruct (List.find _ _) as [i|].
  - destruct r as [[j|] fb]; [|done]. simpl in Hr. injection Hr as ->. by apply wp_ret.
  - subst r. by apply wp_ret.
Qed.

(** Going around a circle of [n]. *)
Lemma circle_forward n c o : 0 ≤ c < n → 0 ≤ o ≤ n → (c + o) mod n = if c + o <? n then c + o else c + o - n.
Proof.
  intros Hc Ho. destruct (Z.ltb_spec (c + o) n); [apply Z.mod_small; lia|].
  rewrite <- (Z.mod_small (c + o - n) n) by lia. rewrite <- (Z_mod_plus_full (c + o - n) 1). f_equal. lia.
Qed.

Lemma circle_distance n c i : 0 ≤ c < n → 0 ≤ i < n → (i - c) mod n = if c <=? i then i - c else i - c + n.
Proof.
  intros Hc Hi. destruct (Z.leb_spec c i); [apply Z.mod_small; lia|].
  rewrite <- (Z.mod_small (i - c + n) n) by lia. rewrite <- (Z_mod_plus_full (i - c) 1). f_equal. lia.
Qed.

(** Who is picked, and how far from [c]. *)
Lemma pick_range κ c i : 1 ≤ PROCESS_COUNT κ → pick κ c = Some i → 0 ≤ i < PROCESS_COUNT κ ∧ is_ready κ i = true.
Proof.
  intros Hc Hp. assert (i ∈ circle c (PROCESS_COUNT κ) ∧ is_ready κ i = true) as [Hin Hr].
  { unfold pick in Hp. destruct (List.find _ _) as [i'|] eqn:E1.
    - injection Hp as ->. apply find_some in E1 as [Hin [Hr _]%andb_true_iff]. by rewrite list_elem_of_In.
    - apply find_some in Hp as [Hin [Hr _]%andb_true_iff]. by rewrite list_elem_of_In. }
  split; [|done]. apply list_elem_of_fmap in Hin as (o & -> & _). divlia.
Qed.

(** Processes between [c] and the one picked are not ready, if one is ready that
    is not idle: the picked one is the nearest. *)
Lemma pick_nearest κ c j : 1 ≤ PROCESS_COUNT κ → 0 ≤ j < PROCESS_COUNT κ → 0 ≤ c < PROCESS_COUNT κ → j ≠ c →
  is_ready κ j = true → is_idle κ j = false →
  ∃ i, pick κ c = Some i ∧ is_idle κ i = false ∧ 1 ≤ (i - c) mod PROCESS_COUNT κ ≤ (j - c) mod PROCESS_COUNT κ.
Proof.
  intros Hn Hj Hc Hne Hr Hi. set (n := PROCESS_COUNT κ) in *. set (d := (j - c) mod n).
  pose proof (circle_distance n c j Hc Hj) as Hdj. fold d in Hdj.
  assert (1 ≤ d < n) as Hd by (destruct (Z.leb_spec c j); lia).
  assert ((c + d) mod n = j) as Hjd.
  { rewrite circle_forward by lia. destruct (Z.leb_spec c j), (Z.ltb_spec (c + d) n); lia. }
  unfold pick, circle. fold n. set (ready := λ i, is_ready κ i && negb (is_idle κ i)).
  assert (seqZ 1 n = seqZ 1 d ++ seqZ (1 + d) (n - d)) as -> by (rewrite <- seqZ_app by lia; f_equal; lia).
  rewrite fmap_app.
  assert (∀ l1 l2, ∃ k, (List.find ready (l1 ++ l2) = List.find ready l1 ∧ k = true) ∨
    (List.find ready l1 = None ∧ List.find ready (l1 ++ l2) = List.find ready l2 ∧ k = false)) as Happ.
  { intros l1 l2. induction l1 as [|x l1 [k IH]]; [exists false; by right|]. simpl.
    destruct (ready x); [exists true; by left|]. by exists k. }
  assert (is_Some (List.find ready ((λ o, (c + o) mod n) <$> seqZ 1 d))) as [i Hfi].
  { destruct (List.find ready _) as [i|] eqn:E; [done|]. exfalso.
    pose proof (find_none _ _ E j) as Hnone. unfold ready in Hnone. rewrite Hr, Hi in Hnone. discriminate Hnone.
    apply list_elem_of_In, list_elem_of_fmap. exists d. split; [done|]. apply elem_of_seqZ. lia. }
  destruct (Happ ((λ o, (c + o) mod n) <$> seqZ 1 d) ((λ o, (c + o) mod n) <$> seqZ (1 + d) (n - d))) as [k [[-> _]|[Hnone _]]];
    [|by rewrite Hfi in Hnone].
  rewrite Hfi. exists i. split; [done|]. apply find_some in Hfi as [Hin Hrd]. unfold ready in Hrd.
  apply andb_true_iff in Hrd as [_ Hid%negb_true_iff]. split; [done|].
  apply list_elem_of_In, list_elem_of_fmap in Hin as (o & -> & Ho%elem_of_seqZ).
  rewrite circle_forward by lia. rewrite circle_distance; [|done|destruct (Z.ltb_spec (c + o) n); lia].
  destruct (Z.ltb_spec (c + o) n), (Z.leb_spec c (c + o)), (Z.leb_spec c (c + o - n)); lia.
Qed.

(** ** The operations *)

(** The process when its time to wake up has come. *)
Definition awake (t : Z) (p : Process) : Process :=
  if bool_decide (state p = Sleeping) && (wake_at_tick p <=? t) then set_state Ready p else p.

Lemma wake_all_ok κ : table_ok κ → wp (for_range 0 (Z.to_nat (PROCESS_COUNT κ)) wake) (λ _ κ', ∃ ps,
  κ' = set_processes ps κ ∧ length ps = 64%nat ∧ ∀ j, 0 ≤ j → proc_at κ' j = awake (CURRENT_TICKS κ) <$> proc_at κ j) κ.
Proof.
  intros Hok. pose proof (tk_count _ Hok) as Hc. pose proof (tk_len _ Hok) as Hl.
  eapply (wp_for_range (λ i κ', ∃ ps, κ' = set_processes ps κ ∧ length ps = 64%nat ∧
    ∀ j, 0 ≤ j → proc_at κ' j = if j <? i then awake (CURRENT_TICKS κ) <$> proc_at κ j else proc_at κ j)).
  - exists (processes κ). split; [by destruct κ|]. split; [done|]. intros j Hj. by rewrite (proj2 (Z.ltb_ge j 0)).
  - intros i κ' Hi (ps & -> & Hlp & Hps). rewrite Z2Nat.id in Hi by lia. unfold wake. apply wp_bind, wp_get.
    apply wp_update_slot; [done|lia|]. pose proof (Hps i ltac:(lia)) as Hpi. rewrite Z.ltb_irrefl in Hpi. rewrite Hpi.
    assert (∀ j, 0 ≤ j → j ≠ i → (j <? i + 1) = (j <? i)) as Hstep by (intros j Hj Hne; destruct (Z.ltb_spec j i), (Z.ltb_spec j (i + 1)); lia).
    destruct (proc_at κ i) as [p|] eqn:Ep.
    + eexists. split; [done|]. split; [by rewrite length_insert|]. intros j Hj.
      rewrite proc_at_put by (done || lia). destruct (decide (i = j)) as [<-|Hne].
      * rewrite (proj2 (Z.ltb_lt i (i + 1))) by lia. by rewrite Ep.
      * rewrite Hps, Hstep by done. done.
    + exists ps. split; [done|]. split; [done|]. intros j Hj. rewrite Hps by done. destruct (decide (j = i)) as [->|Hne].
      * by rewrite Z.ltb_irrefl, Ep, (proj2 (Z.ltb_lt i (i + 1))) by lia.
      * by rewrite Hstep.
  - intros κ' (ps & -> & Hlp & Hps). exists ps. split; [done|]. split; [done|]. intros j Hj. rewrite Hps by done.
    rewrite Z2Nat.id by lia. destruct (Z.ltb_spec j (0 + PROCESS_COUNT κ)) as [|Hge]; [done|].
    destruct (proc_at κ j) as [p|] eqn:Ep; [|done]. destruct (tk_proc _ Hok j p Hj Ep) as (_ & ? & _). lia.
Qed.

(** The process that leaves the processor. *)
Definition saved (r : Z) (p : Process) : Process :=
  let p := set_rsp r p in if bool_decide (state p = Running) then set_state Ready p else p.

(** The address space [load_cr3] leaves. *)
Definition loaded (c p : Z) : Z :=
  let phys := if HHDM_OFFSET <=? p then p - HHDM_OFFSET else p in
  if Z.land c 0x000FFFFFFFFFF000 =? phys then c else phys.

Record switched κ κ' (r i : Z) (p : Process) : Prop := {
  sw_table j : 0 ≤ j → proc_at κ' j = if decide (i = j) then Some (set_state Running p)
    else if decide (current κ = j) then saved r <$> proc_at κ j else proc_at κ j;
  sw_len : length (processes κ') = 64%nat;
  sw_current : current κ' = i;
  sw_count : PROCESS_COUNT κ' = PROCESS_COUNT κ;
  sw_quantum : QUANTUM_REMAINING κ' = QUANTUM_REMAINING κ;
  sw_ticks : CURRENT_TICKS κ' = CURRENT_TICKS κ;
  sw_enabled : SCHEDULER_ENABLED κ' = SCHEDULER_ENABLED κ;
  sw_cr3 : cr3 (k_mm κ') = loaded (cr3 (k_mm κ)) (pml4 p);
  sw_rest : RAM κ' = RAM κ ∧ k_heap κ' = k_heap κ ∧ k_vfs κ' = k_vfs κ;
}.

Lemma switch_to_ok κ r i p : length (processes κ) = 64%nat → 0 ≤ current κ < MAX_PROCESSES → 0 ≤ i < MAX_PROCESSES →
  i ≠ current κ → proc_at κ i = Some p →
  wp (switch_to (current κ) r i) (λ r' κ', r' = rsp p ∧ switched κ κ' r i p) κ.
Proof.
  intros Hl Hc Hi Hne Hp. unfold switch_to. apply wp_bind.
  apply wp_mono with (Q := λ _ κ1, ∃ ps, κ1 = set_processes ps κ ∧ length ps = 64%nat ∧
    ∀ j, 0 ≤ j → proc_at κ1 j = if decide (current κ = j) then saved r <$> proc_at κ j else proc_at κ j).
  { apply wp_update_slot; [done|done|]. destruct (proc_at κ (current κ)) as [q|] eqn:Eq.
    - eexists. split; [done|]. split; [by rewrite length_insert|]. intros j Hj. rewrite proc_at_put by done.
      destruct (decide (current κ = j)) as [<-|]; [|done]. by rewrite Eq.
    - exists (processes κ). split; [by destruct κ|]. split; [done|]. intros j Hj.
      destruct (decide (current κ = j)) as [<-|]; [|done]. by rewrite Eq. }
  intros _ κ1 (ps & -> & Hlp & Hps). apply wp_bind, wp_get_slot; [done|done|].
  rewrite Hps, decide_False, Hp by lia. apply wp_bind, (wp_lift p); [done|].
  apply wp_bind, wp_put_slot; [done|]. apply wp_bind, wp_modify, wp_bind.
  set (κ2 := set_current i (put (set_processes ps κ) i (set_state Running p))).
  assert (∀ j, 0 ≤ j → proc_at κ2 j = if decide (i = j) then Some (set_state Running p)
    else if decide (current κ = j) then saved r <$> proc_at κ j else proc_at κ j) as Htab.
  { intros j Hj. change (proc_at κ2 j) with (proc_at (put (set_processes ps κ) i (set_state Running p)) j).
    rewrite proc_at_put by done. by rewrite Hps. }
  assert (length (processes κ2) = 64%nat) as Hl2 by (by cbn; rewrite length_insert).
  unfold load_cr3. apply wp_bind, wp_get. change (cr3 (k_mm κ2)) with (cr3 (k_mm κ)).
  destruct (Z.land (cr3 (k_mm κ)) 0x000FFFFFFFFFF000 =? _) eqn:Ecr; apply wp_ret.
  - apply wp_ret. split; [done|]. split; try done. unfold loaded. by rewrite Ecr.
  - apply wp_ret. split; [done|]. split; try done. unfold loaded. by rewrite Ecr.
Qed.

(** The process that runs next, when it is another one. *)
Definition next_process κ : option Z :=
  match state <$> proc_at κ (current κ) with
  | Some Running => if QUANTUM_REMAINING κ <=? 1 then pick κ (current κ) else None
  | Some (Terminated | Sleeping | Blocked) => pick κ (current κ)
  | _ => None
  end.

(** The quantum when it is the same one. *)
Definition next_quantum κ : Z :=
  match state <$> proc_at κ (current κ) with
  | Some Running => if QUANTUM_REMAINING κ <=? 1 then QUANTUM_TICKS else QUANTUM_REMAINING κ - 1
  | _ => QUANTUM_REMAINING κ
  end.

Lemma ready_proc κ i : is_ready κ i = true → ∃ p, proc_at κ i = Some p ∧ state p = Ready.
Proof. unfold is_ready. destruct (proc_at κ i) as [p|]; [|done]. intros ?%bool_decide_eq_true. by exists p. Qed.

Lemma pick_quantum κ q c : pick (set_quantum q κ) c = pick κ c.
Proof. done. Qed.

Lemma set_quantum_same κ : set_quantum (QUANTUM_REMAINING κ) κ = κ.
Proof. by destruct κ. Qed.

(** A switch to the process picked. *)
Lemma schedule_switch κ r (stay : ST (kernel H G) Z) (Φ : Z → kernel H G → Prop) : length (processes κ) = 64%nat →
  1 ≤ PROCESS_COUNT κ ≤ MAX_PROCESSES → 0 ≤ current κ < PROCESS_COUNT κ →
  (∀ p, proc_at κ (current κ) = Some p → state p ≠ Ready) →
  (pick κ (current κ) = None → wp stay Φ κ) →
  (∀ i p κ', pick κ (current κ) = Some i → proc_at κ i = Some p → state p = Ready → 0 ≤ i < PROCESS_COUNT κ →
     i ≠ current κ → switched (set_quantum QUANTUM_TICKS κ) κ' r i p → Φ (rsp p) κ') →
  wp (x ← find_next_ready (current κ) true;
      match x with
      | Some next => _ ← modify (set_quantum QUANTUM_TICKS); switch_to (current κ) r next
      | None => stay
      end) Φ κ.
Proof.
  intros Hl Hc Hcur Hnr Hstay Hsw. unfold MAX_PROCESSES in *. apply wp_bind.
  wp_call find_next_ready_ok; [done|done|lia|]. intros x κ' [-> ->].
  destruct (pick κ (current κ)) as [i|] eqn:Epick; [|by apply Hstay].
  destruct (pick_range _ _ _ (proj1 Hc) Epick) as [Hi Hr]. destruct (ready_proc _ _ Hr) as (p & Hp & Hst).
  assert (i ≠ current κ) as Hne by (intros ->; by apply (Hnr p)).
  apply wp_bind, wp_modify. change (current κ) with (current (set_quantum QUANTUM_TICKS κ)) at 1.
  wp_call switch_to_ok; [done|unfold MAX_PROCESSES; cbn; lia|unfold MAX_PROCESSES; lia|done|exact Hp|].
  intros r' κ' [-> Hsw']. by apply (Hsw i p).
Qed.

Lemma schedule_ok κ r : table_ok κ → wp (schedule r) (λ r' κ', match next_process κ with
  | Some i => ∃ p, proc_at κ i = Some p ∧ state p = Ready ∧ 0 ≤ i < PROCESS_COUNT κ ∧ i ≠ current κ ∧ r' = rsp p ∧
      switched (set_quantum QUANTUM_TICKS κ) κ' r i p
  | None => r' = r ∧ κ' = set_quantum (next_quantum κ) κ
  end) κ.
Proof.
  intros Hok. pose proof (tk_count _ Hok) as Hc. pose proof (tk_current _ Hok) as Hcur. pose proof (tk_len _ Hok) as Hl.
  pose proof (tk_quantum _ Hok) as Hq. unfold schedule, next_process, next_quantum.
  apply wp_bind, wp_get, wp_bind, wp_get_slot; [done|lia|].
  destruct (proc_at κ (current κ)) as [p|] eqn:Ep; cbn [fmap option_fmap option_map];
    [|apply wp_ret; by rewrite set_quantum_same].
  assert (state p ≠ Ready → ∀ p', proc_at κ (current κ) = Some p' → state p' ≠ Ready) as Hnr.
  { intros Hst p' Hp'. rewrite Ep in Hp'. by injection Hp' as <-. }
  destruct (state p) eqn:Est; [apply wp_ret; by rewrite set_quantum_same| | | |].
  2-4: apply schedule_switch; [done|done|done|by apply Hnr|intros ->; apply wp_ret; by rewrite set_quantum_same
    |intros i p' κ' -> ? ? ? ? ?; by exists p'].
  pose proof (tk_left _ Hok p Ep Est) as Hleft. apply wp_bind, wp_get, wp_bind.
  rewrite (proj2 (Z.ltb_lt 0 _)) by lia. apply wp_modify, wp_bind, wp_get. cbn [QUANTUM_REMAINING set_quantum].
  destruct (Z.eqb_spec (QUANTUM_REMAINING κ - 1) 0) as [H0|Hn0].
  - rewrite (proj2 (Z.leb_le _ 1)) by lia.
    apply (schedule_switch (set_quantum (QUANTUM_REMAINING κ - 1) κ)); [done|done|done|by apply Hnr| |];
      change (pick (set_quantum ?q κ) ?c) with (pick κ (current κ)).
    + intros ->. by apply wp_bind, wp_modify, wp_ret.
    + intros i p' κ' -> ? ? ? ? ?. by exists p'.
  - rewrite (proj2 (Z.leb_gt _ 1)) by lia. by apply wp_ret.
Qed.

(** The table after the tick, with the processes woken whose time has come. *)
Definition woken κ : kernel H G :=
  let t := CURRENT_TICKS κ + 1 in
  set_processes ((λ o : option Process, awake t <$> o) <$> processes κ) (set_ticks t κ).

Lemma proc_at_woken κ j : proc_at (woken κ) j = awake (CURRENT_TICKS κ + 1) <$> proc_at κ j.
Proof.
  unfold proc_at, woken. cbn [processes set_processes]. rewrite list_lookup_fmap. by destruct (processes κ !! _) as [[p|]|].
Qed.

Lemma processes_ext (l l' : list (option Process)) : length l' = length l →
  (∀ i, 0 ≤ i → mjoin (l' !! Z.to_nat i) = mjoin (l !! Z.to_nat i)) → l' = l.
Proof.
  intros Hl He. apply list_eq. intros i. specialize (He (Z.of_nat i) ltac:(lia)). rewrite Nat2Z.id in He.
  destruct (decide (i < length l)%nat) as [Hlt|Hge].
  - destruct (lookup_lt_is_Some_2 l i Hlt) as [x Hx]. destruct (lookup_lt_is_Some_2 l' i ltac:(lia)) as [y Hy].
    rewrite Hx, Hy in He |- *. simpl in He. by rewrite He.
  - by rewrite !lookup_ge_None_2 by lia.
Qed.

Lemma table_ok_ticks κ t : table_ok κ → table_ok (set_ticks t κ).
Proof. intros [A1 A2 A3 A4 A5 A6 A7]. by split. Qed.

Lemma table_ok_woken κ : table_ok κ → table_ok (woken κ).
Proof.
  intros Hok. split; cbn [processes set_processes set_ticks PROCESS_COUNT current QUANTUM_REMAINING woken].
  - by rewrite length_fmap, (tk_len _ Hok).
  - apply (tk_count _ Hok).
  - apply (tk_current _ Hok).
  - intros i p Hi. rewrite proc_at_woken. destruct (proc_at κ i) as [q|] eqn:Eq; [|done]. intros [= <-].
    destruct (tk_proc _ Hok i q Hi Eq) as (? & ? & ?). unfold awake. by destruct (_ && _).
  - intros i p Hi. rewrite proc_at_woken. destruct (proc_at κ i) as [q|] eqn:Eq; [|done]. intros [= <-].
    unfold awake. destruct (_ && _); [done|]. by apply (tk_running _ Hok).
  - apply (tk_quantum _ Hok).
  - intros p. rewrite proc_at_woken. destruct (proc_at κ (current κ)) as [q|] eqn:Eq; [|done]. intros [= <-].
    unfold awake. destruct (_ && _); [done|]. by apply (tk_left _ Hok).
Qed.

Lemma timer_ok κ r : table_ok κ → SCHEDULER_ENABLED κ = true → 0 ≤ CURRENT_TICKS κ < 2 ^ 64 - 1 →
  wp (handle_timer_interrupt r) (λ r' κ', match next_process (woken κ) with
    | Some i => ∃ p, proc_at (woken κ) i = Some p ∧ state p = Ready ∧ 0 ≤ i < PROCESS_COUNT κ ∧ i ≠ current κ ∧
        r' = rsp p ∧ switched (set_quantum QUANTUM_TICKS (woken κ)) κ' r i p
    | None => r' = r ∧ κ' = set_quantum (next_quantum (woken κ)) (woken κ)
    end) κ.
Proof.
  intros Hok He Ht. unfold handle_timer_interrupt. apply wp_bind, wp_get. rewrite He. cbn [negb].
  apply wp_bind, wp_get, wp_bind, (wp_lift (CURRENT_TICKS κ + 1)); [apply checked_ok; lia|].
  apply wp_bind, wp_modify, wp_bind, wp_get, wp_bind.
  wp_call (wake_all_ok (set_ticks (CURRENT_TICKS κ + 1) κ)); [by apply table_ok_ticks|].
  intros _ κ1 (ps & -> & Hlp & Hps). cbn [CURRENT_TICKS set_ticks] in Hps.
  assert (set_processes ps (set_ticks (CURRENT_TICKS κ + 1) κ) = woken κ) as ->.
  { unfold woken. f_equal. apply processes_ext; [by rewrite length_fmap, Hlp, (tk_len _ Hok)|].
    intros i Hi. specialize (Hps i Hi). unfold proc_at in Hps at 1. cbn [processes set_processes] in Hps. rewrite Hps.
    symmetry. apply (proc_at_woken κ i). }
  apply (schedule_ok (woken κ)). by apply table_ok_woken.
Qed.

Lemma saved_state r p : state (saved r p) ≠ Running ∧ pid (saved r p) = pid p ∧ fildes (saved r p) = fildes p.
Proof. unfold saved. destruct (bool_decide_reflect (state (set_rsp r p) = Running)) as [?|Hn]; [done|]. by split. Qed.

Lemma table_ok_switched κ κ' r i p : table_ok κ → proc_at κ i = Some p → 0 ≤ i < PROCESS_COUNT κ → i ≠ current κ →
  switched (set_quantum QUANTUM_TICKS κ) κ' r i p → table_ok κ'.
Proof.
  intros Hok Hp Hi Hne [S1 S2 S3 S4 S5 S6 S7 S8 S9]. cbn [current PROCESS_COUNT QUANTUM_REMAINING set_quantum] in *.
  assert (∀ j, proc_at (set_quantum QUANTUM_TICKS κ) j = proc_at κ j) as Hq by done.
  split; rewrite ?S3, ?S4, ?S5; [done|apply (tk_count _ Hok)|done| | |unfold QUANTUM_TICKS; lia|unfold QUANTUM_TICKS; lia].
  - intros j q Hj. rewrite S1, Hq by done. destruct (decide (i = j)) as [<-|Hij].
    + intros [= <-]. apply (tk_proc _ Hok i p Hj Hp).
    + destruct (decide (current κ = j)) as [<-|]; [|by apply (tk_proc _ Hok)].
      destruct (proc_at κ (current κ)) as [q0|] eqn:E0; [|done]. intros [= <-]. destruct (saved_state r q0) as (_ & -> & ->).
      by apply (tk_proc _ Hok).
  - intros j q Hj. rewrite S1, Hq by done. destruct (decide (i = j)) as [<-|Hij]; [done|].
    destruct (decide (current κ = j)) as [<-|Hcj].
    + destruct (proc_at κ (current κ)) as [q0|]; [|done]. intros [= <-]. by destruct (saved_state r q0).
    + intros Hj' Hrun. by destruct (Hcj (eq_sym (tk_running _ Hok j q Hj Hj' Hrun))).
Qed.

Lemma table_ok_stay κ : table_ok κ → table_ok (set_quantum (next_quantum κ) κ).
Proof.
  intros Hok. pose proof (tk_quantum _ Hok) as Hq. pose proof (tk_left _ Hok) as Hleft.
  assert (0 ≤ next_quantum κ ≤ QUANTUM_TICKS ∧ ∀ p, proc_at κ (current κ) = Some p → state p = Running → 1 ≤ next_quantum κ) as [H1 H2].
  { unfold next_quantum, QUANTUM_TICKS in *. destruct (proc_at κ (current κ)) as [p|]; simpl; [|done].
    destruct (state p) eqn:Est; [by split; [|intros ? [= <-] ?; congruence]| |by split; [|intros ? [= <-] ?; congruence]..].
    specialize (Hleft p eq_refl Est). destruct (Z.leb_spec (QUANTUM_REMAINING κ) 1); split; intros; lia. }
  destruct Hok as [A1 A2 A3 A4 A5 A6 A7]. by split.
Qed.

(** C7. The timer interrupt. From a table in order, with the scheduler on, it
    returns and leaves a table in order. It wakes the processes whose time has
    come. Then, if the current process runs and has more than one tick left, or is
    ready, nothing but the quantum changes; if not, the next process in the circle
    that is ready and not idle, or else the first idle one, becomes current, with
    a full quantum, its stack pointer is returned and its address space loaded,
    and the stack pointer of the one that leaves is saved. *)
Theorem timer_interrupt_correct κ r : table_ok κ → SCHEDULER_ENABLED κ = true → 0 ≤ CURRENT_TICKS κ < 2 ^ 64 - 1 →
  ∃ r' κ', handle_timer_interrupt r κ = Some (r', κ') ∧ table_ok κ' ∧
    match next_process (woken κ) with
    | Some i => ∃ p, proc_at (woken κ) i = Some p ∧ state p = Ready ∧ i ≠ current κ ∧ r' = rsp p ∧
        switched (set_quantum QUANTUM_TICKS (woken κ)) κ' r i p
    | None => r' = r ∧ κ' = set_quantum (next_quantum (woken κ)) (woken κ)
    end.
Proof.
  intros Hok He Ht. destruct (wp_result _ _ _ (timer_ok κ r Hok He Ht)) as (r' & κ' & E & HQ). exists r', κ'.
  split; [done|]. pose proof (table_ok_woken _ Hok) as Hokw. destruct (next_process (woken κ)) as [i|].
  - destruct HQ as (p & Hp & Hst & Hi & Hne & -> & Hsw). split; [|by exists p]. by eapply (table_ok_switched (woken κ)).
  - destruct HQ as [-> ->]. split; [by apply table_ok_stay|done].
Qed.

(** ** Liveness *)

(** The process [j] waits for the processor, and the current process either runs,
    or has given up the processor for more than one tick. *)
Record waits κ (j : Z) : Prop := {
  wa_ok : table_ok κ;
  wa_enabled : SCHEDULER_ENABLED κ = true;
  wa_range : 0 ≤ j < PROCESS_COUNT κ;
  wa_other : j ≠ current κ;
  wa_ready : is_ready κ j = true;
  wa_normal : is_idle κ j = false;
  wa_current : ∃ p, proc_at κ (current κ) = Some p ∧ state p ≠ Ready ∧
    (state p = Sleeping → CURRENT_TICKS κ + 1 < wake_at_tick p);
  wa_quantum : 1 ≤ QUANTUM_REMAINING κ;
}.

(** What may happen until the next tick: anything that leaves [j] waiting, and
    the current process, the number of processes, the clock and the quantum as
    they are. *)
Record between (j : Z) κ κ' : Prop := {
  be_waits : waits κ' j;
  be_current : current κ' = current κ;
  be_count : PROCESS_COUNT κ' = PROCESS_COUNT κ;
  be_ticks : CURRENT_TICKS κ' = CURRENT_TICKS κ;
  be_quantum : QUANTUM_REMAINING κ' = QUANTUM_REMAINING κ;
}.

(** How many ticks [j] waits at most. *)
Definition ticks_left κ (j : Z) : Z :=
  QUANTUM_TICKS * ((j - current κ) mod PROCESS_COUNT κ - 1) + QUANTUM_REMAINING κ.

Lemma is_ready_woken κ j : is_ready κ j = true → is_ready (woken κ) j = true ∧ is_idle (woken κ) j = is_idle κ j.
Proof.
  unfold is_ready, is_idle. rewrite proc_at_woken. destruct (proc_at κ j) as [p|]; [|done].
  intros Hr%bool_decide_eq_true. simpl. unfold awake. rewrite Hr. simpl. by rewrite Hr.
Qed.

Lemma current_woken κ p : proc_at κ (current κ) = Some p → (state p = Sleeping → CURRENT_TICKS κ + 1 < wake_at_tick p) →
  proc_at (woken κ) (current κ) = Some p.
Proof.
  intros Hp Hs. rewrite proc_at_woken, Hp. simpl. unfold awake. case_bool_decide as Hst; [|done].
  rewrite (proj2 (Z.leb_gt _ _)) by (by apply Hs). done.
Qed.

Lemma distance_switch n c i j : 0 ≤ c < n → 0 ≤ i < n → 0 ≤ j < n → i ≠ j →
  1 ≤ (i - c) mod n ≤ (j - c) mod n → (j - i) mod n ≤ (j - c) mod n - 1.
Proof.
  intros Hc Hi Hj Hne. rewrite !circle_distance by done.
  destruct (Z.leb_spec c i), (Z.leb_spec c j), (Z.leb_spec i j); lia.
Qed.

(** A tick brings [j] nearer. *)
Lemma tick_nearer κ j r r' κ' : waits κ j → 0 ≤ CURRENT_TICKS κ < 2 ^ 64 - 1 → handle_timer_interrupt r κ = Some (r', κ') →
  (current κ' = j ∧ ∃ p, proc_at κ' j = Some p ∧ state p = Running) ∨
  (current κ' ≠ j ∧ ticks_left κ' j < ticks_left κ j).
Proof.
  intros [Hok He Hj Hne Hr Hi (p & Hp & Hst & Hsl) Hq] Ht E.
  destruct (wp_result _ _ _ (timer_ok κ r Hok He Ht)) as (x & y & E' & HQ). rewrite E in E'. injection E' as <- <-.
  destruct (is_ready_woken _ _ Hr) as [Hrw Hiw]. rewrite Hi in Hiw. pose proof (current_woken _ _ Hp Hsl) as Hpw.
  pose proof (tk_current _ Hok) as Hcur. pose proof (tk_quantum _ Hok) as Hq5.
  destruct (pick_nearest (woken κ) (current κ) j) as (i & Hpick & _ & Hd); [cbn; lia|done|done|done|done|done|].
  change (PROCESS_COUNT (woken κ)) with (PROCESS_COUNT κ) in Hd.
  assert (next_process (woken κ) = Some i ∨
    next_process (woken κ) = None ∧ next_quantum (woken κ) = QUANTUM_REMAINING κ - 1) as Hnext.
  { unfold next_process, next_quantum. change (current (woken κ)) with (current κ).
    change (QUANTUM_REMAINING (woken κ)) with (QUANTUM_REMAINING κ). rewrite Hpw, Hpick. simpl.
    destruct (state p); [done| |by left..]. destruct (QUANTUM_REMAINING κ <=? 1); [by left|by right]. }
  destruct Hnext as [Hnext|[Hnext Hnq]]; rewrite Hnext in HQ.
  - destruct HQ as (p' & Hp' & _ & Hi' & Hic & _ & Hsw). pose proof (sw_current _ _ _ _ _ Hsw) as Hc'.
    destruct (decide (i = j)) as [->|Hij].
    + left. split; [done|]. exists (set_state Running p'). split; [|done].
      rewrite (sw_table _ _ _ _ _ Hsw) by lia. by rewrite decide_True.
    + right. split; [by rewrite Hc'|]. unfold ticks_left. rewrite Hc', (sw_count _ _ _ _ _ Hsw), (sw_quantum _ _ _ _ _ Hsw).
      cbn [PROCESS_COUNT QUANTUM_REMAINING set_quantum woken set_processes set_ticks].
      pose proof (distance_switch (PROCESS_COUNT κ) (current κ) i j Hcur Hi' Hj Hij Hd). unfold QUANTUM_TICKS in *. lia.
  - destruct HQ as [_ ->]. right. split; [done|]. unfold ticks_left. rewrite Hnq.
    cbn [PROCESS_COUNT QUANTUM_REMAINING set_quantum woken set_processes set_ticks current]. lia.
Qed.

Lemma ticks_left_between j κ κ' : between j κ κ' → ticks_left κ' j = ticks_left κ j ∧
  1 ≤ ticks_left κ j < QUANTUM_TICKS * PROCESS_COUNT κ.
Proof.
  intros [[Hok _ Hj Hne _ _ _ Hq] Hc Hn _ Hqq]. unfold ticks_left. rewrite Hc, Hn, Hqq in *. split; [done|].
  pose proof (tk_current _ Hok) as Hcur. pose proof (tk_quantum _ Hok) as Hq5. rewrite Hc, Hn, ?Hqq in *.
  rewrite circle_distance by done. unfold QUANTUM_TICKS in *. destruct (Z.leb_spec (current κ) j); lia.
Qed.

(** C8. The scheduler is fair to processes that wait and are not of Idle priority:
    along any run in which, from tick to tick, such a process [j] stays ready and the
    current process runs or has given up the processor for more than one tick, [j]
    gets the processor within five ticks for each process there is. *)
Theorem ready_process_runs j (run : nat → kernel H G) (N : nat) :
  waits (run 0%nat) j → QUANTUM_TICKS * PROCESS_COUNT (run 0%nat) ≤ Z.of_nat N →
  (∀ k, (k < N)%nat → current (run k) ≠ j → ∃ κ r r', between j (run k) κ ∧ 0 ≤ CURRENT_TICKS κ < 2 ^ 64 - 1 ∧
     handle_timer_interrupt r κ = Some (r', run (S k))) →
  ∃ k, (k ≤ N)%nat ∧ current (run k) = j ∧ ∃ p, proc_at (run k) j = Some p ∧ state p = Running.
Proof.
  intros Hw HN Hstep. assert (current (run 0%nat) ≠ j) as H0 by (intros Heq; by apply (wa_other _ _ Hw)).
  assert (∀ k, (k ≤ N)%nat → (∃ k', (k' ≤ N)%nat ∧ current (run k') = j ∧ ∃ p, proc_at (run k') j = Some p ∧ state p = Running) ∨
    (current (run k) ≠ j ∧ ticks_left (run k) j ≤ ticks_left (run 0%nat) j - Z.of_nat k)) as Hk.
  { induction k as [|k IH]; intros Hle; [right; split; [done|lia]|]. destruct (IH ltac:(lia)) as [?|[Hne Hleft]]; [by left|].
    destruct (Hstep k ltac:(lia) Hne) as (κ & r & r' & Hbe & Ht & E). destruct (ticks_left_between _ _ _ Hbe) as [Heq _].
    destruct (tick_nearer κ j r r' _ (be_waits _ _ _ Hbe) Ht E) as [[Hc Hp]|[Hc Hlt]].
    - left. exists (S k). by split.
    - right. split; [done|]. lia. }
  assert (0 < N)%nat as HN0.
  { pose proof (tk_count _ (wa_ok _ _ Hw)). unfold QUANTUM_TICKS in HN. lia. }
  destruct (Hstep 0%nat HN0 H0) as (κ & r & r' & Hbe & _). destruct (ticks_left_between _ _ _ Hbe) as [_ Hb].
  destruct (Hk (Z.to_nat (ticks_left (run 0%nat) j)) ltac:(lia)) as [?|[Hne Hleft]]; [done|].
  destruct (Hstep (Z.to_nat (ticks_left (run 0%nat) j)) ltac:(lia) Hne) as (κ' & r2 & r2' & Hbe' & _).
  destruct (ticks_left_between _ _ _ Hbe') as [_ Hb']. lia.
Qed.

(** Ticks one after the other, with the stack pointers at each. *)
Fixpoint ticks (rs : list Z) : ST (kernel H G) (list Z) :=
  match rs with
  | [] => mret []
  | r :: rs => r' ← handle_timer_interrupt r; rs' ← ticks rs; mret (r' :: rs')
  end.

(** The current process is marked ready, or wakes at the next tick. *)
Definition still_current κ : Prop := ∃ p, proc_at κ (current κ) = Some p ∧
  (state p = Ready ∨ state p = Sleeping ∧ wake_at_tick p ≤ CURRENT_TICKS κ + 1).

Lemma tick_still_current κ r : table_ok κ → SCHEDULER_ENABLED κ = true → 0 ≤ CURRENT_TICKS κ < 2 ^ 64 - 1 → still_current κ →
  ∃ κ', handle_timer_interrupt r κ = Some (r, κ') ∧ table_ok κ' ∧ SCHEDULER_ENABLED κ' = true ∧
    CURRENT_TICKS κ' = CURRENT_TICKS κ + 1 ∧ current κ' = current κ ∧ still_current κ'.
Proof.
  intros Hok He Ht (p & Hp & Hst). destruct (wp_result _ _ _ (timer_ok κ r Hok He Ht)) as (r' & κ' & E & HQ).
  assert (∃ q, proc_at (woken κ) (current κ) = Some q ∧ state q = Ready) as (q & Hq & Hqs).
  { rewrite proc_at_woken, Hp. eexists. split; [done|]. unfold awake. destruct Hst as [Hst|[Hst Hw]]; rewrite Hst; [done|].
    simpl. by rewrite (proj2 (Z.leb_le _ _)) by lia. }
  assert (next_process (woken κ) = None) as Hn.
  { unfold next_process. change (current (woken κ)) with (current κ). by rewrite Hq; simpl; rewrite Hqs. }
  rewrite Hn in HQ. destruct HQ as [-> ->]. eexists. split; [exact E|]. split; [by apply table_ok_stay, table_ok_woken|].
  split_and!; [done..|]. exists q. split; [exact Hq|by left].
Qed.

Lemma ticks_still_current κ rs : table_ok κ → SCHEDULER_ENABLED κ = true → 0 ≤ CURRENT_TICKS κ →
  CURRENT_TICKS κ + Z.of_nat (length rs) < 2 ^ 64 - 1 → still_current κ →
  ∃ κ', ticks rs κ = Some (rs, κ') ∧ current κ' = current κ.
Proof.
  revert κ. induction rs as [|r rs IH]; intros κ Hok He H0 Ht Hs; [by exists κ|]. rewrite length_cons in Ht.
  destruct (tick_still_current κ r Hok He ltac:(lia) Hs) as (κ1 & E1 & Hok1 & He1 & Ht1 & Hc1 & Hs1).
  destruct (IH κ1 Hok1 He1 ltac:(lia) ltac:(lia) Hs1) as (κ' & E & Hc). exists κ'. split; [|by rewrite Hc].
  cbn [ticks]. unfold mbind, ST_bind. by rewrite E1, E.
Qed.

Lemma put_state κ i s p : proc_at κ i = Some p → table_ok κ → 0 ≤ i < MAX_PROCESSES → s ≠ Running →
  ∀ f, (∀ q, state (f q) = s ∧ pid (f q) = pid q ∧ fildes (f q) = fildes q) → ∀ q, 0 ≤ q ≤ QUANTUM_TICKS →
  (i ≠ current κ → q = QUANTUM_REMAINING κ) → table_ok (set_quantum q (put κ i (f p))).
Proof.
  intros Hp Hok Hi Hs f Hf q Hq Hqq. pose proof (tk_current _ Hok) as Hc. pose proof (tk_count _ Hok) as Hn.
  assert (∀ j, 0 ≤ j → proc_at (set_quantum q (put κ i (f p))) j = if decide (i = j) then Some (f p) else proc_at κ j) as Htab.
  { intros j Hj. change (proc_at (set_quantum q ?k) j) with (proc_at k j).
    apply proc_at_put; [apply (tk_len _ Hok)|done|done]. }
  destruct (Hf p) as (F1 & F2 & F3).
  split; cbn [processes PROCESS_COUNT current QUANTUM_REMAINING set_quantum put set_processes]; [|done|done| | |done|].
  - by rewrite length_insert, (tk_len _ Hok).
  - intros j p' Hj. rewrite Htab by done. destruct (decide (i = j)) as [<-|]; [|by apply (tk_proc _ Hok)].
    intros [= <-]. rewrite F2, F3. by apply (tk_proc _ Hok).
  - intros j p' Hj. rewrite Htab by done. destruct (decide (i = j)) as [<-|]; [|by apply (tk_running _ Hok)].
    intros [= <-] Hrun. congruence.
  - intros p'. rewrite Htab by lia. destruct (decide (i = current κ)) as [->|Hne]; [intros [= <-] Hrun; congruence|].
    rewrite Hqq by done. apply (tk_left _ Hok).
Qed.

(** C40. A process that yields keeps the processor: it is marked ready, and the
    scheduler switches away from a current process only when it runs, sleeps,
    blocks or has ended. However many ticks pass while it does nothing else, each
    returns to it. *)
Theorem yield_keeps_processor κ p rs : table_ok κ → SCHEDULER_ENABLED κ = true → proc_at κ (current κ) = Some p →
  0 ≤ CURRENT_TICKS κ → CURRENT_TICKS κ + Z.of_nat (length rs) < 2 ^ 64 - 1 →
  ∃ κ1 κ2, yield_process κ = Some (tt, κ1) ∧ ticks rs κ1 = Some (rs, κ2) ∧ current κ2 = current κ.
Proof.
  intros Hok He Hp H0 Ht. pose proof (tk_current _ Hok) as Hc. pose proof (tk_count _ Hok) as Hn.
  set (κ1 := set_quantum 0 (put κ (current κ) (set_state Ready p))).
  assert (wp yield_process (λ _ κ', κ' = κ1) κ) as Hy.
  { unfold yield_process. apply wp_bind, wp_get, wp_bind, wp_update_slot; [apply (tk_len _ Hok)|lia|]. rewrite Hp. by apply wp_modify. }
  destruct (wp_result _ _ _ Hy) as ([] & ? & E & ->).
  assert (table_ok κ1) as Hok1 by (apply (put_state κ (current κ) Ready p); done || lia).
  assert (still_current κ1) as Hs1.
  { exists (set_state Ready p). split; [|by left]. change (proc_at κ1 (current κ1)) with (proc_at (put κ (current κ) (set_state Ready p)) (current κ)).
    rewrite proc_at_put; [by rewrite decide_True|apply (tk_len _ Hok)|lia|lia]. }
  destruct (ticks_still_current κ1 rs Hok1 He H0 Ht Hs1) as (κ2 & E2 & Hc2). by exists κ1, κ2.
Qed.

(** ** Everything that happens to the table *)
Context (process_entry_wrapper : Z).

Inductive event :=
  | Tick (r : Z) | Yield | Block | Unblock (p : Z) | SleepMs (ms ticks_per_sec : Z) | SleepUs (us ticks_per_sec : Z)
  | Exit | ExitCurrent | Create (e : Z) | Destroy (p : Z) | Cleanup | Enable | Disable.

Definition quiet {A} (m : ST (kernel H G) A) : ST (kernel H G) unit := _ ← m; mret tt.

Definition do_event (ev : event) : ST (kernel H G) unit :=
  match ev with
  | Tick r => quiet (handle_timer_interrupt r)
  | Yield => yield_process
  | Block => block_current
  | Unblock p => unblock_process p
  | SleepMs ms t => sleep_proc_ms ms t
  | SleepUs us t => sleep_proc_us us t
  | Exit => process_exit
  | ExitCurrent => exit_current_process
  | Create e => quiet (create_process process_entry_wrapper e)
  | Destroy p => quiet (destroy_process p)
  | Cleanup => cleanup_terminated_processes
  | Enable => enable_scheduler
  | Disable => disable_scheduler
  end.

Fixpoint do_events (evs : list event) : ST (kernel H G) unit :=
  match evs with
  | [] => mret tt
  | ev :: evs => _ ← do_event ev; do_events evs
  end.

(** Identifiers of processes are unsigned. *)
Definition event_ok (ev : event) : Prop := match ev with Unblock p | Destroy p => 0 ≤ p | _ => True end.

Definition clock_ok κ : Prop := table_ok κ ∧ 0 ≤ CURRENT_TICKS κ.

Definition stays {A} (m : ST (kernel H G) A) : Prop := ∀ κ x κ', clock_ok κ → m κ = Some (x, κ') → clock_ok κ'.

Lemma kbind_inv {A B} (m : ST (kernel H G) A) (k : A → ST (kernel H G) B) κ y κ' : (m ≫= k) κ = Some (y, κ') →
  ∃ x κ1, m κ = Some (x, κ1) ∧ k x κ1 = Some (y, κ').
Proof. unfold mbind, ST_bind. destruct (m κ) as [[x κ1]|]; [|done]. by eauto. Qed.

Lemma stays_bind {A B} (m : ST (kernel H G) A) (k : A → ST (kernel H G) B) : stays m → (∀ x, stays (k x)) → stays (m ≫= k).
Proof. intros Hm Hk κ y κ' Hok (x & κ1 & E1 & E)%kbind_inv. eapply Hk; [|exact E]. by eapply Hm. Qed.

Lemma stays_ret {A} (x : A) : stays (mret x).
Proof. by intros κ y κ' Hok [= <- <-]. Qed.

Lemma stays_get {A} (f : kernel H G → A) : stays (get f).
Proof. by intros κ y κ' Hok [= <- <-]. Qed.

Lemma stays_lift {A} (o : option A) : stays (lift o).
Proof. intros κ y κ' Hok. unfold lift. destruct o; [|done]. by intros [= <- <-]. Qed.

Lemma stays_get_slot i : stays (get_slot i).
Proof. intros κ y κ' Hok. unfold get_slot. destruct (if _ <? _ then _ else _); [|done]. by intros [= <- <-]. Qed.

(** Memory and the VFS are no part of the table. *)
Lemma clock_ok_eq κ κ' : processes κ' = processes κ → current κ' = current κ → PROCESS_COUNT κ' = PROCESS_COUNT κ →
  QUANTUM_REMAINING κ' = QUANTUM_REMAINING κ → CURRENT_TICKS κ' = CURRENT_TICKS κ → clock_ok κ → clock_ok κ'.
Proof.
  intros H1 H2 H3 H4 H5 [[A1 A2 A3 A4 A5 A6 A7] A8]. assert (∀ i, proc_at κ' i = proc_at κ i) as Hp by (intros i; unfold proc_at; by rewrite H1).
  split; [split|]; rewrite ?H1, ?H2, ?H3, ?H4, ?H5; try done.
  - intros i p. rewrite Hp. by apply A4.
  - intros i p. rewrite Hp. by apply A5.
  - intros p. rewrite Hp. by apply A7.
Qed.

Lemma stays_on_mm {A} (m : ST mm A) : stays (on_mm m).
Proof. intros κ x κ' Hok. unfold on_mm. destruct (m _) as [[y μ]|]; [|done]. intros [= <- <-]. by eapply clock_ok_eq; [..|exact Hok]. Qed.
Lemma stays_on_heap {A} (m : ST heap A) : stays (on_heap m).
Proof. intros κ x κ' Hok. unfold on_heap. destruct (m _) as [[y μ]|]; [|done]. intros [= <- <-]. by eapply clock_ok_eq; [..|exact Hok]. Qed.
Lemma stays_on_vfs {A} (m : ST (vfs H G) A) : stays (on_vfs m).
Proof. intros κ x κ' Hok. unfold on_vfs. destruct (m _) as [[y μ]|]; [|done]. intros [= <- <-]. by eapply clock_ok_eq; [..|exact Hok]. Qed.

Lemma get_slot_inv κ i x κ' : get_slot i κ = Some (x, κ') → κ' = κ ∧ i < MAX_PROCESSES ∧ x = proc_at κ i.
Proof.
  unfold get_slot, proc_at. destruct (Z.ltb_spec i MAX_PROCESSES); [|done]. destruct (processes κ !! _); [|done].
  by intros [= <- <-].
Qed.

Lemma put_slot_inv κ i o x κ' : put_slot i o κ = Some (x, κ') →
  i < MAX_PROCESSES ∧ κ' = set_processes (<[Z.to_nat i := o]> (processes κ)) κ.
Proof. unfold put_slot. destruct (Z.ltb_spec i MAX_PROCESSES); [|done]. by intros [= <- <-]. Qed.

(** A process that is marked as not running. *)
Lemma clock_ok_put κ i s p f : clock_ok κ → 0 ≤ i < MAX_PROCESSES → proc_at κ i = Some p → s ≠ Running →
  (∀ q, state (f q) = s ∧ pid (f q) = pid q ∧ fildes (f q) = fildes q) → clock_ok (put κ i (f p)).
Proof.
  intros [Hok Ht] Hi Hp Hs Hf. split; [|done]. rewrite <- (set_quantum_same (put κ i (f p))).
  eapply put_state; [done|done|done|exact Hs|done|apply (tk_quantum _ Hok)|done].
Qed.

Lemma stays_mark s f : s ≠ Running → (∀ q, state (f q) = s ∧ pid (f q) = pid q ∧ fildes (f q) = fildes q) →
  stays (c ← get current; update_slot c f).
Proof.
  intros Hs Hf κ [] κ' Hok (c & ? & [= <- <-] & E)%kbind_inv. apply kbind_inv in E as (o & ? & E1 & E).
  apply get_slot_inv in E1 as (-> & Hlt & ->). destruct (proc_at κ (current κ)) as [p|] eqn:Ep; [|by injection E as <-].
  apply put_slot_inv in E as [_ ->]. pose proof (tk_current _ (proj1 Hok)). eapply clock_ok_put; [done|lia|done|exact Hs|done].
Qed.

Lemma stays_sleep amount tps ups : stays (sleep_proc amount tps ups).
Proof.
  unfold sleep_proc. apply stays_bind; [apply stays_lift|intros x]. apply stays_bind; [apply stays_lift|intros y].
  intros κ [] κ' Hok (c & ? & [= <- <-] & E)%kbind_inv. apply kbind_inv in E as (o & ? & E1 & E).
  apply get_slot_inv in E1 as (-> & Hlt & ->). destruct (proc_at κ (current κ)) as [p|] eqn:Ep; [|by injection E as <-].
  apply kbind_inv in E as (t & ? & [= <- <-] & E). apply kbind_inv in E as (w & κ1 & E1 & E).
  unfold lift in E1. destruct (checked 64 _) as [w'|]; [|done]. injection E1 as <- <-.
  apply put_slot_inv in E as [_ ->]. pose proof (tk_current _ (proj1 Hok)).
  eapply (clock_ok_put κ (current κ) Sleeping p (λ p, set_state Sleeping (set_wake w' p))); [done|lia|done|done|done].
Qed.

Lemma stays_yield : stays yield_process.
Proof.
  intros κ [] κ' [Hok Ht] (c & ? & [= <- <-] & E)%kbind_inv. apply kbind_inv in E as ([] & κ1 & E1 & [= <-]).
  apply kbind_inv in E1 as (o & ? & E2 & E1). apply get_slot_inv in E2 as (-> & Hlt & ->). pose proof (tk_current _ Hok).
  destruct (proc_at κ (current κ)) as [p|] eqn:Ep.
  - apply put_slot_inv in E1 as [_ ->]. split; [|done]. apply (put_state κ (current κ) Ready p); [done|done|lia|done|done|done|done].
  - injection E1 as <-. split; [|done]. destruct Hok as [A1 A2 A3 A4 A5 A6 A7]. split; try done.
    intros p Hp. change (proc_at κ (current κ) = Some p) in Hp. by rewrite Ep in Hp.
Qed.

Lemma stays_unblock i : 0 ≤ i → stays (unblock_process i).
Proof.
  intros Hi κ [] κ' Hok (o & κ1 & E1 & E)%kbind_inv. unfold get_process in E1.
  destruct (MAX_PROCESSES <=? i); [injection E1 as <- <-; by injection E as <-|].
  apply get_slot_inv in E1 as (-> & Hlt & ->). destruct (proc_at κ i) as [p|] eqn:Ep; [|by injection E as <-].
  destruct (bool_decide _); [|by injection E as <-]. apply put_slot_inv in E as [_ ->].
  eapply (clock_ok_put κ i Ready p (set_state Ready)); [done|lia|done|done|done].
Qed.

Lemma stays_tick r : stays (handle_timer_interrupt r).
Proof.
  intros κ r' κ' [Hok Ht] E. destruct (SCHEDULER_ENABLED κ) eqn:He.
  - assert (CURRENT_TICKS κ < 2 ^ 64 - 1) as Hlt.
    { apply Z.lt_nge. intros Hge. unfold handle_timer_interrupt, mbind, ST_bind, get, lift in E. rewrite He in E. cbn [negb] in E.
      destruct (checked 64 (CURRENT_TICKS κ + 1)) as [t|] eqn:Ec; [|done]. apply checked_inv in Ec. lia. }
    destruct (wp_result _ _ _ (timer_ok κ r Hok He (conj Ht Hlt))) as (x & y & E' & HQ). rewrite E in E'. injection E' as <- <-.
    pose proof (table_ok_woken _ Hok) as Hw. assert (0 ≤ CURRENT_TICKS (woken κ)) as Ht' by (cbn; lia).
    destruct (next_process (woken κ)) as [i|].
    + destruct HQ as (p & Hp & _ & Hi & Hne & _ & Hsw). split; [by eapply (table_ok_switched (woken κ))|].
      rewrite (sw_ticks _ _ _ _ _ Hsw). done.
    + destruct HQ as [_ ->]. split; [by apply table_ok_stay|done].
  - unfold handle_timer_interrupt, mbind, ST_bind, get in E. rewrite He in E. by injection E as <- <-.
Qed.

(** Operations that leave the table alone. *)
Definition same_table κ κ' : Prop := processes κ' = processes κ ∧ current κ' = current κ ∧ PROCESS_COUNT κ' = PROCESS_COUNT κ ∧
  QUANTUM_REMAINING κ' = QUANTUM_REMAINING κ ∧ CURRENT_TICKS κ' = CURRENT_TICKS κ ∧ SCHEDULER_ENABLED κ' = SCHEDULER_ENABLED κ.
Definition aside {A} (m : ST (kernel H G) A) : Prop := ∀ κ x κ', m κ = Some (x, κ') → same_table κ κ'.

Lemma aside_bind {A B} (m : ST (kernel H G) A) (k : A → ST (kernel H G) B) : aside m → (∀ x, aside (k x)) → aside (m ≫= k).
Proof.
  intros Hm Hk κ y κ' (x & κ1 & E1 & E)%kbind_inv. apply Hm in E1 as (? & ? & ? & ? & ? & ?). apply Hk in E as (? & ? & ? & ? & ? & ?).
  split_and!; congruence.
Qed.
Lemma aside_ret {A} (x : A) : aside (mret x).
Proof. by intros κ y κ' [= <- <-]. Qed.
Lemma aside_on_mm {A} (m : ST mm A) : aside (on_mm m).
Proof. intros κ x κ'. unfold on_mm. destruct (m _) as [[y μ]|]; [|done]. by intros [= <- <-]. Qed.
Lemma aside_on_heap {A} (m : ST heap A) : aside (on_heap m).
Proof. intros κ x κ'. unfold on_heap. destruct (m _) as [[y μ]|]; [|done]. by intros [= <- <-]. Qed.

Lemma aside_push r w : aside (push r w).
Proof.
  unfold push. apply aside_bind; [|intros; apply aside_ret]. intros κ x κ'. unfold ram_store.
  destruct (kstore _ _ _) as [m|]; [|done]. by intros [= <- <-].
Qed.

Lemma aside_push_all r ws : aside (push_all r ws).
Proof.
  revert r. induction ws as [|w ws IH]; intros r; [apply aside_ret|]. cbn [push_all].
  apply aside_bind; [apply aside_push|]. intros ?. apply IH.
Qed.

Lemma aside_setup base e : aside (setup_initial_stack process_entry_wrapper base e).
Proof.
  unfold setup_initial_stack. do 5 (apply aside_bind; [apply aside_push|intros ?]).
  apply aside_push_all.
Qed.

Lemma aside_stack : aside allocate_kernel_stack.
Proof. unfold allocate_kernel_stack, alloc_zeroed. apply aside_bind; [apply aside_on_heap|intros; apply aside_ret]. Qed.

Lemma same_table_clock κ κ' : same_table κ κ' → clock_ok κ → clock_ok κ'.
Proof. intros (? & ? & ? & ? & ? & ?) Hok. by eapply clock_ok_eq; [..|exact Hok]. Qed.

(** A new process in the next free slot. *)
Lemma clock_ok_new κ p : clock_ok κ → PROCESS_COUNT κ < MAX_PROCESSES → pid p = PROCESS_COUNT κ → length (fildes p) = 1024%nat →
  state p = Ready → clock_ok (set_pcount (PROCESS_COUNT κ + 1) (put κ (PROCESS_COUNT κ) p)).
Proof.
  intros [Hok Ht] Hn Hpid Hfd Hst. split; [|done]. pose proof (tk_count _ Hok) as Hc. pose proof (tk_current _ Hok) as Hcur.
  set (n := PROCESS_COUNT κ) in *.
  assert (∀ j, 0 ≤ j → proc_at (set_pcount (n + 1) (put κ n p)) j = if decide (n = j) then Some p else proc_at κ j) as Htab.
  { intros j Hj. change (proc_at (set_pcount (n + 1) ?k) j) with (proc_at k j).
    apply proc_at_put; [apply (tk_len _ Hok)|lia|done]. }
  split; cbn [processes PROCESS_COUNT current QUANTUM_REMAINING set_pcount put set_processes]; [|lia|lia| | |apply (tk_quantum _ Hok)|].
  - by rewrite length_insert, (tk_len _ Hok).
  - intros j q Hj. rewrite Htab by done. destruct (decide (n = j)) as [<-|Hne].
    + intros [= <-]. split_and!; [done|lia|done].
    + intros Hq. destruct (tk_proc _ Hok j q Hj Hq) as (? & ? & ?). fold n in H1. split_and!; [done|lia|done].
  - intros j q Hj. rewrite Htab by done. destruct (decide (n = j)) as [<-|Hne]; [|by apply (tk_running _ Hok)].
    intros [= <-] Hrun. congruence.
  - intros q. rewrite Htab by lia. rewrite decide_False by lia. apply (tk_left _ Hok).
Qed.

Lemma stays_create e : stays (create_process process_entry_wrapper e).
Proof.
  intros κ r κ' Hok (n & ? & [= <- <-] & E)%kbind_inv. destruct (Z.leb_spec MAX_PROCESSES (PROCESS_COUNT κ)) as [|Hlt]; [by injection E as _ <-|].
  apply kbind_inv in E as ([base|] & κ1 & E1 & E); [|injection E as _ <-; by eapply same_table_clock; [apply aside_stack in E1|]].
  apply aside_stack in E1. pose proof (same_table_clock _ _ E1 Hok) as Hok1. destruct E1 as (_ & _ & Hn1 & _).
  apply kbind_inv in E as (rs & κ2 & E2 & E). apply aside_setup in E2. pose proof (same_table_clock _ _ E2 Hok1) as Hok2.
  destruct E2 as (_ & _ & Hn2 & _). apply kbind_inv in E as (o & κ3 & E3 & E). apply aside_on_mm in E3.
  pose proof (same_table_clock _ _ E3 Hok2) as Hok3. destruct E3 as (_ & _ & Hn3 & _).
  destruct o as [u|]; [|by injection E as _ <-].
  apply kbind_inv in E as ([] & κ4 & E4 & E). apply put_slot_inv in E4 as [_ ->].
  apply kbind_inv in E as (m & ? & E4 & E). unfold lift in E4. destruct (checked 64 _) as [m'|] eqn:Em; [|done].
  apply checked_inv in Em as [-> _]. injection E4 as <- <-. apply kbind_inv in E as ([] & ? & [= <-] & [= _ <-]).
  rewrite <- Hn1, <- Hn2, <- Hn3. apply clock_ok_new; [done|congruence|done|done|done].
Qed.

Lemma aside_on_vfs {A} (m : ST (vfs H G) A) : aside (on_vfs m).
Proof. intros κ x κ'. unfold on_vfs. destruct (m _) as [[y μ]|]; [|done]. by intros [= <- <-]. Qed.

Lemma proc_at_gone κ i j : length (processes κ) = 64%nat → 0 ≤ i < MAX_PROCESSES → 0 ≤ j →
  proc_at (set_processes (<[Z.to_nat i := None]> (processes κ)) κ) j = if decide (i = j) then None else proc_at κ j.
Proof.
  intros Hl Hi Hj. unfold proc_at. cbn [processes set_processes]. destruct (decide (i = j)) as [->|Hne].
  - rewrite list_lookup_insert_eq; [done|]. unfold MAX_PROCESSES in Hi. lia.
  - rewrite list_lookup_insert_ne; [done|]. lia.
Qed.

Lemma clock_ok_gone κ i : clock_ok κ → 0 ≤ i < MAX_PROCESSES → clock_ok (set_processes (<[Z.to_nat i := None]> (processes κ)) κ).
Proof.
  intros [Hok Ht] Hi. split; [|done]. pose proof (tk_len _ Hok) as Hl. pose proof (tk_current _ Hok) as Hc.
  split; [by cbn; rewrite length_insert|apply (tk_count _ Hok)|done| | |apply (tk_quantum _ Hok)|].
  - intros j p Hj. rewrite proc_at_gone by done. destruct (decide (i = j)); [done|]. by apply (tk_proc _ Hok).
  - intros j p Hj. rewrite proc_at_gone by done. destruct (decide (i = j)); [done|]. by apply (tk_running _ Hok).
  - intros p. cbn [current set_processes]. rewrite proc_at_gone by (done || lia). destruct (decide _); [done|]. by apply (tk_left _ Hok).
Qed.

Lemma clock_ok_zero κ : clock_ok κ → proc_at κ (current κ) = None → clock_ok (set_current 0 κ).
Proof.
  intros [Hok Ht] Hnone. split; [|done]. pose proof (tk_count _ Hok) as Hc.
  assert (∀ i p, 0 ≤ i → proc_at κ i = Some p → state p ≠ Running) as Hno.
  { intros i p Hi Hp Hrun. pose proof (tk_running _ Hok i p Hi Hp Hrun) as ->. by rewrite Hnone in Hp. }
  split; [apply (tk_len _ Hok)|done|cbn; lia|apply (tk_proc _ Hok)| |apply (tk_quantum _ Hok)|].
  - intros i p Hi Hp Hrun. by destruct (Hno i p Hi Hp).
  - intros p Hp Hrun. by destruct (Hno 0 p ltac:(lia) Hp).
Qed.

Lemma stays_destroy i : 0 ≤ i → stays (destroy_process i).
Proof.
  intros Hi κ b κ' Hok E. unfold destroy_process in E. destruct (Z.leb_spec MAX_PROCESSES i) as [|Hlt]; [by injection E as _ <-|].
  apply kbind_inv in E as (o & ? & E1 & E). apply get_slot_inv in E1 as (-> & _ & ->).
  apply kbind_inv in E as ([] & κ1 & E1 & E). apply put_slot_inv in E1 as [_ ->].
  pose proof (clock_ok_gone κ i Hok (conj Hi Hlt)) as Hok1.
  pose proof (proc_at_gone κ i i (tk_len _ (proj1 Hok)) (conj Hi Hlt) Hi) as Hgone. rewrite decide_True in Hgone by done.
  set (κ1 := set_processes _ κ) in *. destruct (proc_at κ i) as [p|]; [|by injection E as _ <-].
  apply kbind_inv in E as ([] & κ2 & E2 & E). apply aside_on_vfs in E2.
  apply kbind_inv in E as ([] & κ3 & E3 & E).
  assert (same_table κ2 κ3) as S3 by (destruct (negb _); [by apply aside_on_heap in E3|by injection E3 as <-]).
  pose proof (same_table_clock _ _ S3 (same_table_clock _ _ E2 Hok1)) as Hok3.
  assert (proc_at κ3 i = None) as Hg3.
  { unfold proc_at. destruct S3 as (-> & _). destruct E2 as (-> & _). exact Hgone. }
  apply kbind_inv in E as (c & ? & [= <- <-] & E). apply kbind_inv in E as ([] & κ4 & E4 & [= _ <-]).
  destruct (Z.eqb_spec (current κ3) i) as [Hci|]; injection E4 as <-; [|done]. apply clock_ok_zero; [done|by rewrite Hci].
Qed.

Lemma stays_for_range lo n (body : Z → ST (kernel H G) unit) : (∀ i, lo ≤ i → stays (body i)) → stays (for_range lo n body).
Proof.
  revert lo. induction n as [|n IH]; intros lo Hb; simpl; [apply stays_ret|].
  apply stays_bind; [apply Hb; lia|]. intros _. apply IH. intros i Hi. apply Hb. lia.
Qed.

Lemma stays_cleanup : stays cleanup_terminated_processes.
Proof.
  unfold cleanup_terminated_processes. apply stays_bind; [apply stays_get|intros n]. apply stays_for_range. intros i Hi.
  intros κ [] κ' Hok (o & κ1 & E1 & E)%kbind_inv. apply get_slot_inv in E1 as (-> & Hlt & ->).
  destruct (proc_at κ i) as [p|] eqn:Ep; [|by injection E as <-]. destruct (bool_decide _); [|by injection E as <-].
  destruct (tk_proc _ (proj1 Hok) i p Hi Ep) as (Hpid & _). rewrite Hpid in E. apply kbind_inv in E as (b & κ1 & E1 & [= <-]).
  by eapply (stays_destroy i).
Qed.

Lemma stays_event ev : event_ok ev → stays (do_event ev).
Proof.
  intros Hev. destruct ev; simpl in *; try (apply stays_bind; [|intros; apply stays_ret]).
  - apply stays_tick.
  - apply stays_yield.
  - by apply (stays_mark Blocked).
  - by apply stays_unblock.
  - apply stays_sleep.
  - apply stays_sleep.
  - by apply (stays_mark Terminated).
  - by apply (stays_mark Terminated).
  - apply stays_create.
  - by apply stays_destroy.
  - apply stays_cleanup.
  - intros κ [] κ' Hok [= <-]. by eapply clock_ok_eq; [..|exact Hok].
  - intros κ [] κ' Hok [= <-]. by eapply clock_ok_eq; [..|exact Hok].
Qed.

(** The kernel starts its own process, then others, and the scheduler. *)
Definition start (r : Z) (es : list Z) : ST (kernel H G) unit :=
  _ ← init_kernel_process r;
  _ ← do_events (Create <$> es);
  _ ← init_scheduler;
  enable_scheduler.

Lemma stays_events evs : Forall event_ok evs → stays (do_events evs).
Proof.
  induction 1 as [|ev evs Hev _ IH]; [apply stays_ret|]. cbn [do_events]. apply stays_bind; [by apply stays_event|]. by intros _.
Qed.

(** Creating a process leaves the current one current. *)
Lemma create_current e κ r κ' : create_process process_entry_wrapper e κ = Some (r, κ') → current κ' = current κ.
Proof.
  intros (n & ? & [= <- <-] & E)%kbind_inv. destruct (MAX_PROCESSES <=? _); [by injection E as _ <-|].
  apply kbind_inv in E as (o & κ1 & (_ & H1 & _)%aside_stack & E). destruct o as [base|]; [|by injection E as _ <-].
  apply kbind_inv in E as (rs & κ2 & (_ & H2 & _)%aside_setup & E).
  apply kbind_inv in E as (o & κ3 & (_ & H3 & _)%aside_on_mm & E). destruct o as [u|]; [|injection E as _ <-; congruence].
  apply kbind_inv in E as ([] & κ4 & [_ ->]%put_slot_inv & E). apply kbind_inv in E as (m & ? & E4 & E).
  unfold lift in E4. destruct (checked 64 _); [|done]. injection E4 as <- <-.
  apply kbind_inv in E as ([] & ? & [= <-] & [= _ <-]). cbn. congruence.
Qed.

Lemma creates_current es κ κ' : do_events (Create <$> es) κ = Some (tt, κ') → current κ' = current κ.
Proof.
  revert κ. induction es as [|e es IH]; intros κ; [by intros [= <-]|]. rewrite fmap_cons. cbn [do_events do_event].
  intros ([] & κ1 & E1 & E)%kbind_inv. apply kbind_inv in E1 as (r & κ2 & E1 & [= <-]).
  apply create_current in E1. apply IH in E. congruence.
Qed.

(** The tables before anything runs. *)
Record empty_table κ : Prop := {
  em_processes : processes κ = replicate 64 None;
  em_ticks : 0 ≤ CURRENT_TICKS κ;
  em_quantum : QUANTUM_REMAINING κ = QUANTUM_TICKS;
}.

Lemma init_kernel_process_ok r κ κ' : empty_table κ → init_kernel_process r κ = Some (tt, κ') → clock_ok κ' ∧ current κ' = 0.
Proof.
  intros [Hp Ht Hq] (k & κ1 & (E1 & E2 & E3 & E4 & E5 & _)%aside_on_mm & E)%kbind_inv.
  apply kbind_inv in E as ([] & κ2 & [_ ->]%put_slot_inv & E). apply kbind_inv in E as ([] & ? & [= <-] & [= <-]).
  split; [|done]. rewrite Hp in E1. set (p := MkProcess 0 r 0 0 k Running Idle initial_fildes 0 0).
  assert (length (processes κ1) = 64%nat) as Hl by (by rewrite E1).
  assert (∀ j q, 0 ≤ j → proc_at (put κ1 0 p) j = Some q → j = 0 ∧ q = p) as Hall.
  { intros j q Hj. rewrite proc_at_put; [|done|by split|done]. destruct (decide (0 = j)) as [<-|Hne]; [by intros [= <-]|].
    unfold proc_at. rewrite E1. destruct (replicate 64 None !! Z.to_nat j) as [[x|]|] eqn:E; [|done..].
    by apply lookup_replicate in E as [? _]. }
  split; [|cbn; lia]. split; cbn [processes set_processes set_current set_pcount PROCESS_COUNT current QUANTUM_REMAINING].
  - by rewrite length_insert.
  - done.
  - done.
  - intros j q Hj Hq'. destruct (Hall j q Hj Hq') as [-> ->]. done.
  - intros j q Hj Hq'. destruct (Hall j q Hj Hq') as [-> ->]. done.
  - rewrite E4, Hq. unfold QUANTUM_TICKS. lia.
  - intros q _ _. rewrite E4, Hq. unfold QUANTUM_TICKS. lia.
Qed.

Lemma init_scheduler_ok κ κ' : clock_ok κ → current κ = 0 → init_scheduler κ = Some (tt, κ') → clock_ok κ'.
Proof.
  intros [Hok Ht] Hc (n & ? & [= <- <-] & E)%kbind_inv. destruct (PROCESS_COUNT κ =? 0); [by injection E as <-|].
  apply kbind_inv in E as ([] & ? & [= <-] & E). apply kbind_inv in E as ([] & ? & [= <-] & E).
  set (κ1 := set_quantum QUANTUM_TICKS (set_current 0 κ)) in *. apply kbind_inv in E as (o & ? & (-> & _ & ->)%get_slot_inv & E).
  assert (∀ j, proc_at κ1 j = proc_at κ j) as Hsame by done. destruct (proc_at κ1 0) as [p|] eqn:Ep.
  - apply put_slot_inv in E as [_ ->]. split; [|done]. rewrite Hsame in Ep.
    assert (∀ j, 0 ≤ j → proc_at (put κ1 0 (set_state Running p)) j = if decide (0 = j) then Some (set_state Running p) else proc_at κ j) as Htab.
    { intros j Hj. rewrite proc_at_put; [done|apply (tk_len _ Hok)|by split|done]. }
    split; cbn [processes set_processes PROCESS_COUNT current QUANTUM_REMAINING κ1 set_quantum set_current].
    + by rewrite length_insert, (tk_len _ Hok).
    + apply (tk_count _ Hok).
    + pose proof (tk_current _ Hok). lia.
    + intros j q Hj. rewrite Htab by done. destruct (decide (0 = j)) as [<-|]; [|by apply (tk_proc _ Hok)].
      intros [= <-]. apply (tk_proc _ Hok 0 p Hj Ep).
    + intros j q Hj. rewrite Htab by done. destruct (decide (0 = j)) as [<-|]; [done|]. rewrite <- Hc. by apply (tk_running _ Hok).
    + unfold QUANTUM_TICKS. lia.
    + intros q _ _. unfold QUANTUM_TICKS. lia.
  - injection E as <-. split; [|done]. destruct Hok as [A1 A2 A3 A4 A5 A6 A7]. unfold QUANTUM_TICKS in *. split; try done.
    + cbn. lia.
    + intros j q Hj. rewrite Hsame. cbn. rewrite <- Hc. by apply A5.
Qed.

(** C34. The process table stays well formed: from the start of the kernel on,
    after any sequence of timer interrupts and of calls that create, destroy,
    block, unblock, put to sleep or end processes, there are at most 64 processes,
    each in the slot of its identifier and with 1024 file descriptors, the current
    process is one of the slots used, and no other process is marked running. *)
Theorem process_table_typed r es evs κ κ' : empty_table κ → Forall event_ok evs →
  (_ ← start r es; do_events evs) κ = Some (tt, κ') → table_ok κ'.
Proof.
  intros Hem Hevs ([] & κ4 & E & E')%kbind_inv. unfold start in E. apply kbind_inv in E as ([] & κ1 & E1 & E).
  destruct (init_kernel_process_ok _ _ _ Hem E1) as [Hok1 Hc1]. apply kbind_inv in E as ([] & κ2 & E2 & E).
  assert (Forall event_ok (Create <$> es)) as Hes by (apply Forall_fmap, Forall_true; done).
  pose proof (stays_events _ Hes _ _ _ Hok1 E2) as Hok2. pose proof (creates_current _ _ _ E2) as Hc2. rewrite Hc1 in Hc2.
  apply kbind_inv in E as ([] & κ3 & E3 & [= <-]). pose proof (init_scheduler_ok _ _ Hok2 Hc2 E3) as Hok3.
  apply (stays_events evs Hevs _ _ _) in E'; [apply E'|]. by eapply clock_ok_eq; [..|exact Hok3].
Qed.
End sched.

(** ** Three processes *)

Definition proc_of (i r : Z) (s : ProcessState) (pr : Priority) : Process := MkProcess i r 0 0 0 s pr initial_fildes 0 0.
Definition no_mm : mm := Mm ∅ (Frames 0 0 0) 0 0 0 0 0.
Definition no_heap : heap := Heap ∅ 0 0 0 0 0 0.

(** The kernel before the start. *)
Definition bare : kernel nat ram := Kernel ∅ no_mm no_heap fresh (replicate 64 None) USIZE_MAX 0 false 0 QUANTUM_TICKS.

(** The idle process runs, two others are ready; their stacks end at 0x1000,
    0x2000 and 0x3000. *)
Definition trio : list (option Process) :=
  [Some (proc_of 0 0x1000 Running Idle); Some (proc_of 1 (0x2000 - 160) Ready Normal); Some (proc_of 2 (0x3000 - 160) Ready Normal)]
  ++ replicate 61 None.
Definition trio_ram : kmem := words_at (0x1000 - 160) 20 ∪ words_at (0x2000 - 160) 20 ∪ words_at (0x3000 - 160) 20.
Definition busy : kernel nat ram := Kernel trio_ram no_mm no_heap fresh trio 0 3 true 0 1.

Lemma trio_at i p : 0 ≤ i → mjoin (trio !! Z.to_nat i) = Some p →
  i = 0 ∧ p = proc_of 0 0x1000 Running Idle ∨ i = 1 ∧ p = proc_of 1 (0x2000 - 160) Ready Normal ∨
  i = 2 ∧ p = proc_of 2 (0x3000 - 160) Ready Normal.
Proof.
  intros Hi. destruct (Z.to_nat i) as [|[|[|k]]] eqn:Ei.
  - intros [= <-]. left. split; [lia|done].
  - intros [= <-]. right. left. split; [lia|done].
  - intros [= <-]. right. right. split; [lia|done].
  - change (trio !! S (S (S k))) with (replicate 61 (None : option Process) !! k).
    destruct (replicate 61 None !! k) as [[q|]|] eqn:E; [|done..]. by apply lookup_replicate in E as [? _].
Qed.

Lemma busy_ok : table_ok busy.
Proof.
  split.
  - exact eq_refl.
  - cbn. unfold MAX_PROCESSES. lia.
  - cbn. lia.
  - intros i p Hi Hp. destruct (trio_at i p Hi Hp) as [[-> ->]|[[-> ->]|[-> ->]]]; (split; [exact eq_refl|split; exact eq_refl]).
  - intros i p Hi Hp. destruct (trio_at i p Hi Hp) as [[-> ->]|[[-> ->]|[-> ->]]]; intros Hs; [exact eq_refl|discriminate..].
  - cbn. unfold QUANTUM_TICKS. lia.
  - intros p Hp Hs. cbn. lia.
Qed.

Lemma timer_interrupt_correct_witness : ∃ r' κ', handle_timer_interrupt 0x900 busy = Some (r', κ') ∧
  r' = 0x2000 - 160 ∧ current κ' = 1.
Proof.
  destruct (timer_interrupt_correct busy 0x900 busy_ok eq_refl) as (r' & κ' & E & _ & HQ); [cbn; lia|].
  assert (next_process (woken busy) = Some 1) as Hn by (vm_compute; reflexivity). rewrite Hn in HQ.
  destruct HQ as (p & Hp & _ & _ & -> & Hsw). exists (rsp p), κ'. split; [exact E|]. split.
  - assert (rsp <$> proc_at (woken busy) 1 = Some (0x2000 - 160)) as Hr by (vm_compute; reflexivity).
    rewrite Hp in Hr. injection Hr as Hr. exact Hr.
  - exact (sw_current _ _ _ _ _ Hsw).
Defined.

Lemma yield_keeps_processor_witness : ∃ κ1 κ2, yield_process busy = Some (tt, κ1) ∧
  ticks [0x900; 0x900; 0x900; 0x900; 0x900; 0x900; 0x900] κ1 = Some ([0x900; 0x900; 0x900; 0x900; 0x900; 0x900; 0x900], κ2) ∧ current κ2 = 0.
Proof.
  destruct (yield_keeps_processor busy (proc_of 0 0x1000 Running Idle) [0x900; 0x900; 0x900; 0x900; 0x900; 0x900; 0x900] busy_ok eq_refl eq_refl)
    as (κ1 & κ2 & E1 & E2 & Hc); [cbn; lia|cbn; lia|].
  exists κ1, κ2. split; [exact E1|]. split; [exact E2|exact Hc].
Defined.

(** Ticks from there, with nothing in between. *)
Definition tick_of (κ : kernel nat ram) : kernel nat ram :=
  match handle_timer_interrupt 0x900 κ with Some (_, κ') => κ' | None => κ end.
Definition run_of (k : nat) : kernel nat ram := Nat.iter k tick_of busy.

(** [waits], decided, but for the table. *)
Definition waits_b (κ : kernel nat ram) (j : Z) : bool :=
  SCHEDULER_ENABLED κ && (0 <=? j) && (j <? PROCESS_COUNT κ) && negb (j =? current κ) && is_ready κ j && negb (is_idle κ j) &&
  match proc_at κ (current κ) with Some p => bool_decide (state p = Running) | None => false end && (1 <=? QUANTUM_REMAINING κ).

Lemma waits_b_ok κ j : table_ok κ → waits_b κ j = true → waits κ j.
Proof.
  intros Hok Hb. unfold waits_b in Hb. rewrite !andb_true_iff, !negb_true_iff in Hb.
  destruct Hb as (((((((H1 & H2) & H3) & H4) & H5) & H6) & H7) & H8).
  destruct (proc_at κ (current κ)) as [p|] eqn:Ep; [|done]. apply bool_decide_eq_true in H7. split; try done; try lia.
  exists p. split; [done|]. rewrite H7. done.
Qed.

Lemma run_of_ok k : clock_ok (run_of k).
Proof.
  induction k as [|k IH]; [split; [exact busy_ok|done]|]. change (run_of (S k)) with (tick_of (run_of k)). unfold tick_of.
  destruct (handle_timer_interrupt 0x900 (run_of k)) as [[r κ']|] eqn:E; [|done]. by eapply stays_tick.
Qed.

(** The process 2 runs, or waits and the next tick works. *)
Definition run_b (k : nat) : bool :=
  (current (run_of k) =? 2) || waits_b (run_of k) 2 && (CURRENT_TICKS (run_of k) <? 2 ^ 64 - 1) &&
    match handle_timer_interrupt 0x900 (run_of k) with Some _ => true | None => false end.

Lemma run_checked : forallb run_b (seq 0 15) = true.
Proof. vm_compute. reflexivity. Qed.

Lemma ready_process_runs_witness : ∃ k, (k ≤ 15)%nat ∧ current (run_of k) = 2.
Proof.
  destruct (ready_process_runs 2 run_of 15) as (k & Hk & Hc & _).
  - apply waits_b_ok; [exact busy_ok|vm_compute; reflexivity].
  - cbn. unfold QUANTUM_TICKS. lia.
  - intros k Hk Hne. assert (In k (seq 0 15)) as Hin by (apply in_seq; lia).
    pose proof (proj1 (forallb_forall run_b (seq 0 15)) run_checked k Hin) as Hb.
    unfold run_b in Hb. apply orb_true_iff in Hb as [Hb|Hb]; [lia|]. apply andb_true_iff in Hb as [Hb Hs].
    apply andb_true_iff in Hb as [Hw Ht]. pose proof (run_of_ok k) as [Hok Ht0].
    destruct (handle_timer_interrupt 0x900 (run_of k)) as [[r' κ']|] eqn:E; [|discriminate Hs].
    exists (run_of k), 0x900, r'. split; [|split; [lia|]].
    + split; [by apply waits_b_ok|reflexivity..].
    + change (run_of (S k)) with (tick_of (run_of k)). unfold tick_of. rewrite E. reflexivity.
  - exists k. split; [exact Hk|exact Hc].
Defined.

(** A start, and some events. *)
Definition some_events : list event := [Tick 0x900; Block; Tick 0x900; Unblock 0; SleepMs 1 100; Tick 0x900; Exit; Cleanup; Enable].

Lemma process_table_typed_witness : ∃ κ', (_ ← start 0x400 0x1000 []; do_events 0x400 some_events) bare = Some (tt, κ') ∧ table_ok κ'.
Proof.
  destruct ((_ ← start 0x400 0x1000 []; do_events 0x400 some_events) bare) as [[[] κ']|] eqn:E.
  - exists κ'. split; [exact eq_refl|]. apply (process_table_typed 0x400 0x1000 [] some_events bare κ'); [| |exact E].
    + split; [exact eq_refl|cbn; lia|exact eq_refl].
    + repeat constructor; cbn; lia.
  - exfalso. assert (match (_ ← start 0x400 0x1000 []; do_events 0x400 some_events) bare with Some _ => true | None => false end = true) as Hs.
    { vm_compute. reflexivity. }
    rewrite E in Hs. discriminate Hs.
Defined.
