(* ===== verification/Context.v ===== *)
(** * The context switch

    Models the timer interrupt handler of kernel/src/idt.rs around
    [handle_timer_interrupt]: the processor and the handler push the registers on
    the stack of the process, and pop those of the process that runs next.

    The acknowledgement of the interrupt and the tick counter of this file are
    left out; they touch nothing else that is modelled. *)
From S2P Require Import Prelude Rust Frame Paging KHeap FileSystem Vfs Process Sched.

(** The registers: the general ones in the order they are pushed, [rax], [rbx],
    [rcx], [rdx], [rsi], [rdi], [rbp], [r8] to [r15]. *)
Record cpu := Cpu {
  gp : list Z;
  c_rip : Z;
  c_cs : Z;
  c_rflags : Z;
  c_rsp : Z;
  c_ss : Z;
}.

Section context.
Context {H G : Type} `{!FileSystem H G}.
Implicit Types κ : kernel H G.

(** What is on the stack, from the top down: the frame of the processor, and the
    fifteen registers. *)
Definition frame_words (c : cpu) : list Z := [c_ss c; c_rsp c; c_rflags c; c_cs c; c_rip c] ++ gp c.

(** The interrupt: the stack pointer is aligned to 16 bytes, the processor pushes
    its frame, the handler the registers. *)
Definition push_context (c : cpu) : ST (kernel H G) Z := push_all (Z.land (c_rsp c) (not64 15)) (frame_words c).

(** [n] words popped, the first one last in the list. *)
Fixpoint pop_all (r : Z) (n : nat) (acc : list Z) : ST (kernel H G) (Z * list Z) :=
  match n with
  | O => mret (r, acc)
  | S n => w ← ram_load r; pop_all (r + 8) n (w :: acc)
  end.

(** The fifteen registers, and [iretq]. *)
Definition pop_context (r : Z) : ST (kernel H G) cpu :=
  x ← pop_all r 15 [];
  y ← pop_all (fst x) 5 [];
  match snd y with
  | [ss; sp; fl; cs; ip] => mret (Cpu (snd x) ip cs fl sp ss)
  | _ => panic
  end.

Definition apic_timer_handler (c : cpu) : ST (kernel H G) cpu :=
  r ← push_context c;
  r' ← handle_timer_interrupt r;
  pop_context r'.

(** ** Frames in memory *)

(** The words [ws] below [top], the first one highest. *)
Definition frame_at (m : kmem) (top : Z) (ws : list Z) : Prop :=
  ∀ k w, ws !! k = Some w → m !! (top - 8 * (Z.of_nat k + 1)) = Some w.

Lemma push_all_ok r ws κ r' κ' : push_all r ws κ = Some (r', κ') →
  r' = r - 8 * Z.of_nat (length ws) ∧ frame_at (RAM κ') r ws ∧ (ws ≠ [] → r mod 8 = 0) ∧
  κ' = set_RAM (RAM κ') κ ∧ ∀ x, r ≤ x → RAM κ' !! x = RAM κ !! x.
Proof.
  revert r κ. induction ws as [|w ws IH]; intros r κ E.
  - injection E as <- <-. split_and!; [simpl; lia|by intros k w|done|by destruct κ|done].
  - cbn [push_all] in E. apply kbind_inv in E as (r1 & κ1 & E1 & E). apply kbind_inv in E1 as ([] & κ2 & Es & [= <- <-]).
    unfold ram_store, kstore in Es. destruct (Z.eqb_spec ((r - 8) mod 8) 0) as [H8|]; [|done].
    destruct (RAM κ !! (r - 8)) as [v|]; [|done]. injection Es as <-.
    destruct (IH _ _ E) as (-> & Hf & _ & Hκ & Hkeep). split_and!.
    + rewrite length_cons. lia.
    + intros [|k] w'; cbn [lookup list_lookup]; [intros [= <-]|].
      * rewrite Hkeep by lia. replace (r - 8 * (Z.of_nat 0 + 1)) with (r - 8) by lia. apply lookup_insert_eq.
      * intros Hk. specialize (Hf k w' Hk). rewrite <- Hf. f_equal. lia.
    + intros _. divlia.
    + rewrite Hκ. done.
    + intros x Hx. rewrite Hkeep by lia. apply lookup_insert_ne. lia.
Qed.

(** Popping what is in memory. *)
Lemma pop_all_ok ws top acc κ : top mod 8 = 0 → frame_at (RAM κ) top ws →
  pop_all (top - 8 * Z.of_nat (length ws)) (length ws) acc κ = Some ((top, ws ++ acc), κ).
Proof.
  revert top acc. induction ws as [|w ws IH] using rev_ind; intros top acc H8 Hf.
  - simpl. by rewrite Z.sub_0_r.
  - rewrite length_app. simpl. rewrite Nat.add_1_r. cbn [pop_all]. unfold mbind, ST_bind, ram_load.
    assert (RAM κ !! (top - 8 * Z.of_nat (S (length ws))) = Some w) as Hw.
    { replace (top - 8 * Z.of_nat (S (length ws))) with (top - 8 * (Z.of_nat (length ws) + 1)) by lia.
      apply Hf. by rewrite lookup_app_r, Nat.sub_diag by lia. }
    unfold kload. rewrite (proj2 (Z.eqb_eq _ 0)) by divlia. rewrite Hw. simpl.
    replace (top - 8 * Z.of_nat (S (length ws)) + 8) with (top - 8 * Z.of_nat (length ws)) by lia.
    rewrite IH; [by rewrite <- app_assoc|done|]. intros k w' Hk. apply Hf. by apply lookup_app_l_Some.
Qed.

Lemma pop_context_ok c top κ : length (gp c) = 15%nat → top mod 8 = 0 → frame_at (RAM κ) top (frame_words c) →
  pop_context (top - 160) κ = Some (c, κ).
Proof.
  intros Hg H8 Hf. unfold pop_context, mbind, ST_bind.
  assert (frame_at (RAM κ) (top - 40) (gp c)) as Hfg.
  { intros k w Hk. replace (top - 40 - 8 * (Z.of_nat k + 1)) with (top - 8 * (Z.of_nat (5 + k) + 1)) by lia.
    apply Hf. unfold frame_words. rewrite lookup_app_r by (simpl; lia). simpl. by rewrite Nat.sub_0_r. }
  pose proof (pop_all_ok (gp c) (top - 40) [] κ ltac:(divlia) Hfg) as E1. rewrite Hg in E1.
  replace (top - 40 - 8 * Z.of_nat 15) with (top - 160) in E1 by lia. rewrite E1. cbn [fst snd].
  assert (frame_at (RAM κ) top [c_ss c; c_rsp c; c_rflags c; c_cs c; c_rip c]) as Hf5.
  { intros k w Hk. apply Hf. by apply lookup_app_l_Some. }
  pose proof (pop_all_ok _ top [] κ H8 Hf5) as E2. cbn [length] in E2.
  replace (top - 8 * Z.of_nat 5) with (top - 40) in E2 by lia. rewrite E2. cbn. rewrite app_nil_r. by destruct c.
Qed.

(** The context of the process [i] is saved on its stack, below [top]. *)
Definition suspended κ (i top : Z) (c : cpu) : Prop :=
  ∃ p, proc_at κ i = Some p ∧ rsp p = top - 160 ∧ top mod 8 = 0 ∧ length (gp c) = 15%nat ∧ frame_at (RAM κ) top (frame_words c).

Lemma frame_at_eq m m' top ws : (∀ x, top - 8 * Z.of_nat (length ws) ≤ x < top → m' !! x = m !! x) → frame_at m top ws → frame_at m' top ws.
Proof. intros Heq Hf k w Hk. pose proof (lookup_lt_Some _ _ _ Hk). rewrite Heq by lia. by apply Hf. Qed.

(** Pushing succeeds where there is memory below the stack pointer. *)
Definition room κ (top n : Z) : Prop := top mod 8 = 0 ∧ ∀ x, top - n ≤ x < top → x mod 8 = 0 → is_Some (RAM κ !! x).

Lemma push_all_some r ws κ : room κ r (8 * Z.of_nat (length ws)) → ∃ r' κ', push_all r ws κ = Some (r', κ').
Proof.
  revert r κ. induction ws as [|w ws IH]; intros r κ [H8 Hm]; [by exists r, κ|]. rewrite length_cons in Hm.
  cbn [push_all]. unfold push, mbind, ST_bind, ram_store, kstore. rewrite (proj2 (Z.eqb_eq _ 0)) by divlia.
  destruct (Hm (r - 8)) as [v Hv]; [lia|divlia|]. rewrite Hv. simpl. apply IH. split; [divlia|].
  intros x Hx Hx8. cbn [RAM set_RAM]. rewrite lookup_insert_is_Some'. right. apply Hm; [lia|done].
Qed.

Lemma push_context_ok c κ r κ' : length (gp c) = 15%nat → push_context c κ = Some (r, κ') →
  let top := Z.land (c_rsp c) (not64 15) in
  r = top - 160 ∧ top mod 8 = 0 ∧ frame_at (RAM κ') top (frame_words c) ∧ κ' = set_RAM (RAM κ') κ ∧
  ∀ x, top ≤ x ∨ x < top - 160 → RAM κ' !! x = RAM κ !! x.
Proof.
  intros Hg E top. pose proof (push_all_ok _ _ _ _ _ E) as (Hr & Hf & H8 & Hκ & Hkeep).
  assert (length (frame_words c) = 20%nat) as Hlen by (unfold frame_words; rewrite length_app, Hg; done).
  rewrite Hlen in Hr. split_and!; [lia|by apply H8|done|done|]. intros x [Hx|Hx]; [by apply Hkeep|].
  unfold push_context in E. fold top in E. clear -E Hx Hlen. remember (frame_words c) as ws eqn:Hws. clear Hws.
  assert (∀ r, push_all top ws κ = Some (r, κ') → x < top - 8 * Z.of_nat (length ws) → RAM κ' !! x = RAM κ !! x) as Hlow.
  { clear. generalize top. intros t r. revert t κ. induction ws as [|w ws IH]; intros t κ E Hx; [by injection E as _ <-|].
    rewrite length_cons in Hx. cbn [push_all] in E. apply kbind_inv in E as (r1 & κ1 & E1 & E).
    apply kbind_inv in E1 as ([] & κ2 & Es & [= <- <-]). unfold ram_store, kstore in Es. destruct (_ =? 0); [|done].
    destruct (RAM κ !! (t - 8)) as [v|]; [|done]. injection Es as <-. rewrite (IH _ _ E) by lia. apply lookup_insert_ne. lia. }
  apply (Hlow r); [done|]. rewrite Hlen. lia.
Qed.

Lemma table_ok_RAM m κ : table_ok κ → table_ok (set_RAM m κ).
Proof. intros [A1 A2 A3 A4 A5 A6 A7]. by split. Qed.

(** C18. The context switch. Whatever the registers of the current process at a
    timer interrupt, if the scheduler stays with it, the handler returns with the
    same registers; if it switches to a process whose context is saved, it returns
    with the registers saved there, and the context of the process that leaves is
    saved on its own stack, from where it is restored when its turn comes: a
    process never notices that it was suspended. *)
Theorem context_switch_correct κ c : table_ok κ → SCHEDULER_ENABLED κ = true → 0 ≤ CURRENT_TICKS κ < 2 ^ 64 - 1 →
  length (gp c) = 15%nat → let top := Z.land (c_rsp c) (not64 15) in room κ top 160 →
  (next_process (woken κ) = None → ∃ κ', apic_timer_handler c κ = Some (c, κ')) ∧
  (∀ i top' c' p, next_process (woken κ) = Some i → proc_at κ (current κ) = Some p → suspended κ i top' c' →
     top ≤ top' - 160 ∨ top' ≤ top - 160 →
     ∃ κ', apic_timer_handler c κ = Some (c', κ') ∧ current κ' = i ∧ suspended κ' (current κ) top c).
Proof.
  intros Hok He Ht Hg top Hroom. destruct (push_all_some top (frame_words c) κ) as (r & κ1 & E1).
  { unfold frame_words. by rewrite length_app, Hg. }
  destruct (push_context_ok c κ r κ1 Hg E1) as (-> & H8 & Hf & Hκ1 & Hkeep). fold top in H8, Hf, Hkeep, E1 |- *.
  assert (table_ok κ1 ∧ SCHEDULER_ENABLED κ1 = true ∧ CURRENT_TICKS κ1 = CURRENT_TICKS κ) as (Hok1 & He1 & Ht1).
  { rewrite Hκ1. split; [by apply table_ok_RAM|done]. }
  destruct (wp_result _ _ _ (timer_ok κ1 (top - 160) Hok1 He1 ltac:(by rewrite Ht1))) as (r' & κ2 & E2 & HQ).
  assert (next_process (woken κ1) = next_process (woken κ)) as Hnext by (by rewrite Hκ1). rewrite Hnext in HQ.
  assert (∀ y, apic_timer_handler c κ = y ↔ pop_context r' κ2 = y) as Hhandler.
  { intros y. unfold apic_timer_handler, push_context, mbind, ST_bind. fold top. by rewrite E1, E2. }
  split.
  - intros Hn. rewrite Hn in HQ. destruct HQ as [-> ->]. eexists. apply Hhandler. by apply pop_context_ok.
  - intros i top' c' p Hn Hp (q & Hq & Hr & H8' & Hg' & Hf') Hapart. rewrite Hn in HQ.
    destruct HQ as (p' & Hp' & Hready & Hi & Hne & -> & Hsw). pose proof (sw_rest _ _ _ _ _ Hsw) as (HR & _).
    change (RAM (set_quantum QUANTUM_TICKS (woken κ1))) with (RAM κ1) in HR.
    assert (current κ1 = current κ) as Hc1 by (by rewrite Hκ1).
    assert (∀ j, proc_at (woken κ1) j = awake (CURRENT_TICKS κ + 1) <$> proc_at κ j) as Hpw by (intros j; rewrite Hκ1; apply (proc_at_woken κ)).
    assert (rsp p' = rsp q) as Hrq.
    { rewrite Hpw, Hq in Hp'. injection Hp' as <-. unfold awake. by destruct (_ && _). }
    exists κ2. rewrite Hhandler, Hrq, Hr. split_and!.
    + apply pop_context_ok; [done|done|]. rewrite HR. eapply frame_at_eq; [|exact Hf']. intros x Hx. apply Hkeep.
      unfold frame_words in Hx. rewrite length_app, Hg' in Hx. cbn [length] in Hx. lia.
    + apply (sw_current _ _ _ _ _ Hsw).
    + exists (saved (top - 160) (awake (CURRENT_TICKS κ + 1) p)). split_and!; [| |done|done|by rewrite HR].
      * rewrite (sw_table _ _ _ _ _ Hsw) by apply (tk_current _ Hok).
        change (current (set_quantum QUANTUM_TICKS (woken κ1))) with (current κ1). rewrite Hc1.
        rewrite decide_False by congruence. rewrite decide_True by done.
        change (proc_at (set_quantum QUANTUM_TICKS (woken κ1)) (current κ)) with (proc_at (woken κ1) (current κ)).
        by rewrite Hpw, Hp.
      * unfold saved. by destruct (bool_decide _).
Qed.

(** The registers a new process starts with. *)
Definition initial_context (wrapper base e : Z) : cpu :=
  Cpu ([0; e] ++ replicate 13 0) wrapper 0x08 0x202 (base + KERNEL_STACK_SIZE) 0x10.

(** The first switch to a process that was created: popping the stack that
    [setup_initial_stack] prepared gives the processor the address of the wrapper
    that calls [rbx], with the entry point in [rbx], interrupts on, the code and
    stack segments of the kernel, and the whole stack free. *)
Theorem first_activation wrapper base e κ r κ' : setup_initial_stack wrapper base e κ = Some (r, κ') →
  pop_context r κ' = Some (initial_context wrapper base e, κ') ∧
  r = base + KERNEL_STACK_SIZE - 160 ∧ ∀ x, base + KERNEL_STACK_SIZE ≤ x → RAM κ' !! x = RAM κ !! x.
Proof.
  intros E. set (c := initial_context wrapper base e).
  assert (push_all (base + KERNEL_STACK_SIZE) (frame_words c) κ = Some (r, κ')) as E'.
  { rewrite <- E. unfold setup_initial_stack. cbn [frame_words app c initial_context c_ss c_rsp c_rflags c_cs c_rip gp].
    cbn [push_all]. reflexivity. }
  pose proof (push_all_ok _ _ _ _ _ E') as (Hr & Hf & H8 & _ & Hkeep). change (length (frame_words c)) with 20%nat in Hr.
  split; [|split; [lia|done]]. replace r with (base + KERNEL_STACK_SIZE - 160) by lia. apply pop_context_ok; [done|by apply H8|done].
Qed.
End context.

(** ** Witnesses *)

(** Registers of the idle process. *)
Definition idle_cpu : cpu := Cpu (seqZ 100 15) 7 0x08 0x202 0x1000 0x10.
Definition zero_cpu : cpu := Cpu (replicate 15 0) 0 0 0 0 0.

Lemma trio_ram_at t x : t = 0x1000 ∨ t = 0x2000 ∨ t = 0x3000 → t - 160 ≤ x < t → x mod 8 = 0 → trio_ram !! x = Some 0.
Proof.
  intros Ht Hx H8. assert (∃ i, 0 ≤ i < 20 ∧ x = t - 160 + 8 * i) as (i & Hi & ->) by (exists ((x - (t - 160)) / 8); destruct_or! Ht; subst; divlia).
  assert (∀ a b j, 0 ≤ j < 20 → (∀ l, 0 ≤ l < 20 → b + 8 * l ≠ a + 8 * j) → words_at b 20 !! (a + 8 * j) = None) as Hno.
  { intros a b j Hj Hne. unfold words_at. apply not_elem_of_list_to_map_1. rewrite <- list_fmap_compose.
    intros (l & Hl & Hin%elem_of_seqZ)%list_elem_of_fmap. simpl in Hl. apply (Hne l); lia. }
  unfold trio_ram. destruct_or! Ht; subst t.
  - apply lookup_union_Some_l, lookup_union_Some_l, words_at_lookup. lia.
  - apply lookup_union_Some_l. rewrite lookup_union_r; [apply words_at_lookup; lia|]. apply Hno; lia.
  - rewrite lookup_union_r; [apply words_at_lookup; lia|]. apply lookup_union_None. split; apply Hno; lia.
Qed.

Lemma busy_suspended : suspended busy 1 0x2000 zero_cpu.
Proof.
  exists (proc_of 1 (0x2000 - 160) Ready Normal). split; [exact eq_refl|]. split; [exact eq_refl|]. split; [exact eq_refl|].
  split; [exact eq_refl|]. intros k w Hk. change (frame_words zero_cpu) with (replicate 20 0) in Hk.
  apply lookup_replicate in Hk as [-> Hk]. apply (trio_ram_at 0x2000); [lia|lia|divlia].
Qed.

Lemma context_switch_correct_witness : ∃ κ', apic_timer_handler idle_cpu busy = Some (zero_cpu, κ') ∧
  current κ' = 1 ∧ suspended κ' 0 0x1000 idle_cpu.
Proof.
  destruct (context_switch_correct busy idle_cpu busy_ok eq_refl) as [_ Hsw].
  - cbn. lia.
  - exact eq_refl.
  - change (Z.land (c_rsp idle_cpu) (not64 15)) with 0x1000. split; [exact eq_refl|]. intros x Hx H8.
    exists 0. apply (trio_ram_at 0x1000); [lia|lia|exact H8].
  - apply (Hsw 1 0x2000 zero_cpu (proc_of 0 0x1000 Running Idle)); [vm_compute; reflexivity|exact eq_refl|exact busy_suspended|].
    change (Z.land (c_rsp idle_cpu) (not64 15)) with 0x1000. lia.
Defined.

(** A stack of 64 KiB, of which the top is written. *)
Definition stack_kernel : kernel nat ram :=
  Kernel (words_at (0x10000 + KERNEL_STACK_SIZE - 160) 20) no_mm no_heap fresh trio 0 3 true 0 1.

Lemma first_activation_witness : ∃ r κ', setup_initial_stack 0x400 0x10000 0x500 stack_kernel = Some (r, κ') ∧
  pop_context r κ' = Some (initial_context 0x400 0x10000 0x500, κ').
Proof.
  destruct (setup_initial_stack 0x400 0x10000 0x500 stack_kernel) as [[r κ']|] eqn:E.
  - exists r, κ'. split; [exact eq_refl|]. exact (proj1 (first_activation _ _ _ _ _ _ E)).
  - exfalso. assert (match setup_initial_stack 0x400 0x10000 0x500 stack_kernel with Some _ => true | None => false end = true) as Hs.
    { vm_compute. reflexivity. }
    rewrite E in Hs. discriminate Hs.
Defined.
