(* ===== verification/Syscall.v ===== *)
(** * System calls

    Models syscall/src/syscall_handler.rs: the dispatch of system calls and each
    of them, on the memory of the process, its file descriptors, the VFS and the
    heap. The frame buffer the boot loader gives is a parameter; what is printed
    is left out. A pointer from the process is used as it is, as in the code: an
    address that is not mapped, or not aligned for its type, fails. *)
From Stdlib Require Import Ascii.
From S2P Require Import Prelude Rust Frame Paging KHeap FileSystem Vfs Process Sched.

Definition ENOSYS : Z := -38.
Definition EBADF : Z := -9.
Definition EINVAL : Z := -22.

Inductive Syscall := PlotPoint | FramebufferInfo | PrintCall | Open | Close | Sbrk | GetPid | Read | Write.

Definition from_u64 (n : Z) : option Syscall :=
  match n with
  | 0 => Some PlotPoint
  | 1 => Some FramebufferInfo
  | 2 => Some PrintCall
  | 3 => Some Open
  | 4 => Some Close
  | 5 => Some Sbrk
  | 6 => Some GetPid
  | 7 => Some Read
  | 8 => Some Write
  | _ => None
  end.

(** ** Bytes *)

(** [core::str::from_utf8]: the encodings of code points, shortest form, no
    surrogates. *)
Definition cont (b : Z) : bool := (0x80 <=? b) && (b <=? 0xBF).
Definition within (lo hi b : Z) : bool := (lo <=? b) && (b <=? hi).

Fixpoint utf8_ok (l : list Z) : bool :=
  match l with
  | [] => true
  | b0 :: l =>
      if b0 <? 0x80 then utf8_ok l
      else if within 0xC2 0xDF b0 then
        match l with b1 :: l => cont b1 && utf8_ok l | _ => false end
      else if within 0xE0 0xEF b0 then
        match l with
        | b1 :: b2 :: l =>
            (if b0 =? 0xE0 then within 0xA0 0xBF b1 else if b0 =? 0xED then within 0x80 0x9F b1 else cont b1) &&
            cont b2 && utf8_ok l
        | _ => false
        end
      else if within 0xF0 0xF4 b0 then
        match l with
        | b1 :: b2 :: b3 :: l =>
            (if b0 =? 0xF0 then within 0x90 0xBF b1 else if b0 =? 0xF4 then within 0x80 0x8F b1 else cont b1) &&
            cont b2 && cont b3 && utf8_ok l
        | _ => false
        end
      else false
  end.

Definition from_utf8 (l : list Z) : option string := if utf8_ok l then Some (to_string l) else None.

Record Framebuffer := MkFramebuffer { addr : Z; width : Z; height : Z; pitch : Z; bpp : Z }.

Section syscalls.
Context {H G : Type} `{!FileSystem H G}.
Implicit Types κ : kernel H G.

(** The byte at an address, in the word that holds it. *)
Definition load_byte (a : Z) : ST (kernel H G) Z :=
  w ← ram_load (a - a mod 8);
  mret (Z.land (Z.shiftr w (8 * (a mod 8))) 0xFF).

(** A field of [n] bytes at an address, within a word. *)
Definition store_field (a n v : Z) : ST (kernel H G) unit :=
  let s := 8 * (a mod 8) in
  w ← ram_load (a - a mod 8);
  ram_store (a - a mod 8) (Z.lor (Z.land w (not64 (Z.shiftl (Z.ones (8 * n)) s))) (Z.shiftl v s)).

(** The bytes of a slice. *)
Fixpoint load_bytes (a : Z) (n : nat) : ST (kernel H G) (list Z) :=
  match n with
  | O => mret []
  | S n => b ← load_byte a; l ← load_bytes (a + 1) n; mret (b :: l)
  end.

(** [core::slice::from_raw_parts]: a length over [isize::MAX] panics, and all
    bytes have to be mapped. *)
Definition load_slice (a n : Z) : ST (kernel H G) (list Z) :=
  if 2 ^ 63 <=? n then panic else load_bytes a (Z.to_nat n).

(** [copy_nonoverlapping] of bytes. *)
Fixpoint store_slice (a : Z) (l : list Z) : ST (kernel H G) unit :=
  match l with
  | [] => mret tt
  | b :: l => _ ← store_field a 1 b; store_slice (a + 1) l
  end.

(** An i64 in range, or a panic. *)
Definition checked_i64 (x : Z) : option Z := checked_isize x.

(** ** The calls *)
Context (fb : option Framebuffer).

Definition plot_point (x y color : Z) : ST (kernel H G) Z :=
  match fb with
  | Some fb =>
      if (x <? 0) || (y <? 0) || (s64 (width fb) <=? x) || (s64 (height fb) <=? y) then mret (-1)
      else
        let pitch := s64 (pitch fb) in
        a ← lift (checked_i64 (y * pitch));
        b ← lift (checked_i64 (x * 4));
        c ← lift (checked_i64 (a + b));
        let a := addr fb + u64 c in
        if negb (a mod 4 =? 0) then panic
        else _ ← store_field a 4 (u32 color); mret 0
  | None => mret 0
  end.

Definition framebuffer_info (query : Z) : Z :=
  match fb with
  | Some fb =>
      match query with
      | 0 => s64 (width fb)
      | 1 => s64 (height fb)
      | 2 => s64 (pitch fb)
      | 3 => bpp fb
      | _ => 0
      end
  | None => 0
  end.

Definition print (ptr n : Z) : ST (kernel H G) Z :=
  let ptr := u64 ptr in
  let n := u64 n in
  if negb (ptr =? 0) && (0 <? n) then _ ← load_slice ptr n; mret 0 else mret 0.

(** A write through [get_current_process_mut]. *)
Definition put_current (p : Process) : ST (kernel H G) unit :=
  c ← get current;
  put_slot c (Some p).

Definition sys_open (ptr n flags : Z) : ST (kernel H G) Z :=
  let ptr := u64 ptr in
  let n := u64 n in
  if (ptr =? 0) || (n =? 0) || (4096 <? n) then mret EINVAL
  else
    slice ← load_slice ptr n;
    match from_utf8 slice with
    | None => mret EINVAL
    | Some path =>
        let flags_u32 := u32 flags in
        r ← on_vfs (vfs_open path flags_u32 0);
        match r with
        | Err _ => mret (-1)
        | Ok node =>
            p ← get_current_process;
            match p with
            | None => _ ← on_vfs (vfs_close (node_id node)); mret (-1)
            | Some proc =>
                match open_fd proc (node_id node) flags_u32 with
                | Some (fd_idx, proc) => _ ← put_current proc; mret fd_idx
                | None => _ ← on_vfs (vfs_close (node_id node)); mret (-1)
                end
            end
        end
    end.

Definition sys_close (fd : Z) : ST (kernel H G) Z :=
  if (fd <? 0) || (1023 <? fd) then mret EBADF
  else
    p ← get_current_process;
    match p with
    | None => mret (-1)
    | Some proc =>
        r ← on_vfs (close_fd proc fd);
        _ ← put_current (snd r);
        mret (if fst r : bool then 0 else EBADF)
    end.

(** The checks [read] and [write] share: the descriptor, or what to return. *)
Definition lookup_fd (fd buf count : Z) : ST (kernel H G) (Z + FD) :=
  if (fd <? 0) || (1023 <? fd) then mret (inl EBADF)
  else if (buf =? 0) || (count <? 0) then mret (inl EINVAL)
  else if count =? 0 then mret (inl 0)
  else
    p ← get_current_process;
    match p with
    | None => mret (inl (-1))
    | Some proc =>
        entry ← lift (fildes proc !! Z.to_nat fd);
        if is_empty entry then mret (inl EBADF) else mret (inr entry)
    end.

Definition sys_read (fd buf count : Z) : ST (kernel H G) Z :=
  e ← lookup_fd fd buf count;
  match e with
  | inl err => mret err
  | inr entry =>
      if fd_node entry =? STDIN_NODE_ID then mret 0
      else
        r ← on_vfs (vfs_read (fd_node entry) count);
        match r with
        | Err _ => mret (-1)
        | Ok data =>
            _ ← (if 0 <? len data then store_slice (u64 buf) data else mret tt);
            mret (len data)
        end
  end.

Definition sys_write (fd buf count : Z) : ST (kernel H G) Z :=
  e ← lookup_fd fd buf count;
  match e with
  | inl err => mret err
  | inr entry =>
      data ← load_slice (u64 buf) count;
      if (fd_node entry =? STDOUT_NODE_ID) || (fd_node entry =? STDERR_NODE_ID) then mret count
      else
        r ← on_vfs (vfs_write_node (fd_node entry) data);
        match r with
        | Ok _ => mret count
        | Err _ => mret (-1)
        end
  end.

Definition sys_sbrk (increment : Z) : ST (kernel H G) Z :=
  ptr ← on_heap (sbrk increment);
  mret (if ptr =? 0 then -1 else s64 ptr).

Definition get_pid : ST (kernel H G) Z :=
  p ← get_current_process;
  mret (match p with Some proc => s64 (pid proc) | None => -1 end).

Definition handle (syscall_number arg1 arg2 arg3 : Z) : ST (kernel H G) Z :=
  match from_u64 syscall_number with
  | Some PlotPoint => plot_point arg1 arg2 arg3
  | Some FramebufferInfo => mret (framebuffer_info arg1)
  | Some PrintCall => print arg1 arg2
  | Some Open => sys_open arg1 arg2 arg3
  | Some Close => sys_close arg1
  | Some Sbrk => sys_sbrk arg1
  | Some GetPid => get_pid
  | Some Read => sys_read arg1 arg2 arg3
  | Some Write => sys_write arg1 arg2 arg3
  | None => mret ENOSYS
  end.
End syscalls.
