(* ===== verification/SyscallSpec.v ===== *)
(** * What system calls do

    Theorems about [Syscall]: bytes of memory, the frame buffer, arguments that
    are refused, files written and read through descriptors, and the descriptors
    of all processes against the open nodes of the VFS. *)
From S2P Require Import Prelude Rust Frame Paging KHeap FileSystem Vfs Process Sched Syscall.

(** ** Bytes of memory *)

Definition byte_of (m : kmem) (a : Z) : option Z :=
  w ← m !! (a - a mod 8); Some (Z.land (Z.shiftr w (8 * (a mod 8))) 0xFF).

Definition bytes_at (m : kmem) (a : Z) (l : list Z) : Prop :=
  ∀ i b, l !! i = Some b → byte_of m (a + Z.of_nat i) = Some b.

Lemma word_of_mod a : (a - a mod 8) mod 8 = 0.
Proof. divlia. Qed.

Lemma land_ff_bits w s k : 0 ≤ s → 0 ≤ k → Z.testbit (Z.land (Z.shiftr w s) 0xFF) k = (k <? 8) && Z.testbit w (k + s).
Proof.
  intros Hs Hk. change 0xFF with (Z.ones 8). rewrite Z.land_spec, Z.shiftr_spec, Z.testbit_ones_nonneg by lia.
  apply andb_comm.
Qed.

(** A field of [8 * n] bits at bit [s] of a word replaced. *)
Definition put_field (w s n v : Z) : Z := Z.lor (Z.land w (not64 (Z.shiftl (Z.ones (8 * n)) s))) (Z.shiftl v s).

Lemma put_field_bits w s n v k : 0 ≤ s → 0 ≤ n → s + 8 * n ≤ 64 → 0 ≤ v < 2 ^ (8 * n) → 0 ≤ k < 64 →
  Z.testbit (put_field w s n v) k = if (s <=? k) && (k <? s + 8 * n) then Z.testbit v (k - s) else Z.testbit w k.
Proof.
  intros Hs Hn Hsn Hv Hk. unfold put_field. rewrite Z.lor_spec, Z.land_spec, testbit_not64, !Z.shiftl_spec by lia.
  destruct (Z.leb_spec s k) as [H1|H1]; cbn [andb].
  - rewrite Z.testbit_ones_nonneg by lia. destruct (Z.ltb_spec (k - s) (8 * n)), (Z.ltb_spec k (s + 8 * n)); try lia.
    + by rewrite andb_false_r.
    + rewrite (testbit_small (8 * n) v) by lia. by rewrite andb_true_r, orb_false_r.
  - rewrite !(Z.testbit_neg_r _ (k - s)) by lia. by rewrite andb_true_r, orb_false_r.
Qed.

Lemma byte_of_range m a b : byte_of m a = Some b → 0 ≤ b < 256.
Proof.
  unfold byte_of. destruct (m !! _) as [w|]; [|done]. intros [= <-]. change 0xFF with (Z.ones 8).
  rewrite Z.land_ones by lia. apply Z.mod_pos_bound. lia.
Qed.

(** Byte [j] of a number. *)
Definition nth_byte (v j : Z) : Z := Z.land (Z.shiftr v (8 * j)) 0xFF.

(** A field stored within a word: its bytes, and those around it. *)
Lemma byte_of_put m a w n v x : m !! (a - a mod 8) = Some w → 0 ≤ n → a mod 8 + n ≤ 8 → 0 ≤ v < 2 ^ (8 * n) →
  byte_of (<[a - a mod 8 := put_field w (8 * (a mod 8)) n v]> m) x =
    if (a <=? x) && (x <? a + n) then Some (nth_byte v (x - a)) else byte_of m x.
Proof.
  intros Hw Hn Han Hv. unfold byte_of. assert (0 ≤ a mod 8 < 8 ∧ 0 ≤ x mod 8 < 8) as [Ha Hx] by divlia.
  destruct (decide (a - a mod 8 = x - x mod 8)) as [He|Hne].
  - rewrite <- He, lookup_insert_eq, Hw. cbn [mbind option_bind].
    assert ((a <=? x) && (x <? a + n) = (a mod 8 <=? x mod 8) && (x mod 8 <? a mod 8 + n)) as ->.
    { destruct (Z.leb_spec a x), (Z.leb_spec (a mod 8) (x mod 8)), (Z.ltb_spec x (a + n)), (Z.ltb_spec (x mod 8) (a mod 8 + n)); try done; lia. }
    destruct ((a mod 8 <=? x mod 8) && (x mod 8 <? a mod 8 + n)) eqn:E; f_equal; unfold nth_byte; apply Z.bits_inj'; intros k Hk.
    + rewrite !land_ff_bits by lia. destruct (Z.ltb_spec k 8); [|done]. cbn [andb]. zb. rewrite put_field_bits by lia.
      replace (_ && _) with true by lia. f_equal. lia.
    + rewrite !land_ff_bits by lia. destruct (Z.ltb_spec k 8); [|done]. cbn [andb]. rewrite put_field_bits by lia.
      replace ((8 * (a mod 8) <=? k + 8 * (x mod 8)) && _) with false; [done|]. symmetry.
      apply andb_false_iff. apply andb_false_iff in E as [E|E]; zb; [left; apply Z.leb_gt; lia|right; apply Z.ltb_ge; lia].
  - rewrite lookup_insert_ne by done. replace ((a <=? x) && (x <? a + n)) with false; [done|]. symmetry.
    apply andb_false_iff. destruct (Z.leb_spec a x); [right; apply Z.ltb_ge; divlia|by left].
Qed.

Section bytes.
Context {H G : Type} `{!FileSystem H G}.
Implicit Types κ : kernel H G.

Lemma wp_load_byte κ a b (Q : Z → kernel H G → Prop) : byte_of (RAM κ) a = Some b → Q b κ → wp (load_byte a) Q κ.
Proof.
  unfold byte_of, load_byte. destruct (RAM κ !! _) as [w|] eqn:E; [|done]. intros [= <-] HQ.
  apply wp_bind. unfold wp, ram_load. rewrite (kload_ok _ _ w) by (done || apply word_of_mod). done.
Qed.

Lemma wp_load_bytes κ a l (Q : list Z → kernel H G → Prop) : bytes_at (RAM κ) a l → Q l κ → wp (load_bytes a (length l)) Q κ.
Proof.
  revert a Q. induction l as [|b l IH]; intros a Q Hl HQ; [by apply wp_ret|]. cbn [length load_bytes].
  apply wp_bind, (wp_load_byte κ a b). { rewrite <- (Hl 0%nat b eq_refl). f_equal. lia. }
  apply wp_bind, (IH (a + 1)); [|by apply wp_ret]. intros i c Hi. rewrite <- (Hl (S i) c Hi). f_equal. lia.
Qed.

Lemma wp_load_slice κ a l (Q : list Z → kernel H G → Prop) : len l < 2 ^ 63 → bytes_at (RAM κ) a l → Q l κ →
  wp (load_slice a (len l)) Q κ.
Proof.
  intros Hlt Hl HQ. unfold load_slice. rewrite (proj2 (Z.leb_gt _ _)) by done. unfold len. rewrite Nat2Z.id. by apply wp_load_bytes.
Qed.

(** A field of [n] bytes within a word. *)
Lemma wp_store_field κ a n v (Q : unit → kernel H G → Prop) : is_Some (byte_of (RAM κ) a) → 0 ≤ n → a mod 8 + n ≤ 8 →
  0 ≤ v < 2 ^ (8 * n) →
  (∀ m', (∀ x, byte_of m' x = if (a <=? x) && (x <? a + n) then Some (nth_byte v (x - a)) else byte_of (RAM κ) x) →
    Q tt (set_RAM m' κ)) → wp (store_field a n v) Q κ.
Proof.
  intros Hb Hn Han Hv HQ. unfold byte_of in Hb. destruct (RAM κ !! (a - a mod 8)) as [w|] eqn:E; [|by destruct Hb].
  unfold store_field. apply wp_bind. unfold wp at 1, ram_load. rewrite (kload_ok _ _ w) by (done || apply word_of_mod). cbn [mbind option_bind].
  unfold wp, ram_store. rewrite kstore_ok by (done || apply word_of_mod). apply HQ. intros x. by apply byte_of_put.
Qed.

(** Bytes stored: they are in memory, and the others are as before. *)
Definition stored (m m' : kmem) (a : Z) (l : list Z) : Prop :=
  bytes_at m' a l ∧ ∀ x, ¬ (a ≤ x < a + len l) → byte_of m' x = byte_of m x.

Lemma wp_store_slice κ a l (Q : unit → kernel H G → Prop) : Forall (λ b, 0 ≤ b < 256) l →
  (∀ x, a ≤ x < a + len l → is_Some (byte_of (RAM κ) x)) →
  (∀ m', stored (RAM κ) m' a l → Q tt (set_RAM m' κ)) → wp (store_slice a l) Q κ.
Proof.
  intros Hl. revert κ a Q. induction Hl as [|b l Hb Hl IH]; intros κ a Q Hm HQ.
  - apply wp_ret. replace κ with (set_RAM (RAM κ) κ) by (by destruct κ). apply HQ. split; [by intros i ?|done].
  - cbn [store_slice]. unfold len in Hm. cbn [length] in Hm. apply wp_bind, wp_store_field; [apply Hm; lia|done|divlia|done|].
    intros m1 H1. apply IH.
    + intros x Hx. cbn [RAM set_RAM]. rewrite H1. unfold len in Hx. destruct (_ && _); [done|apply Hm; lia].
    + intros m2 [H2 H3]. cbn [RAM set_RAM] in H3. apply HQ. split.
      * intros [|i] c Hi.
        -- injection Hi as <-. rewrite Z.add_0_r, H3, H1 by lia. replace (_ && _) with true by lia. f_equal. unfold nth_byte.
           rewrite Z.sub_diag, Z.shiftr_0_r. change 0xFF with (Z.ones 8). rewrite Z.land_ones by lia. apply Z.mod_small. lia.
        -- rewrite <- (H2 i c Hi). f_equal. lia.
      * intros x Hx. unfold len in Hx, H3. cbn [length] in Hx. rewrite H3, H1 by lia. by replace (_ && _) with false by lia.
Qed.
End bytes.

(** ** The frame buffer *)
Section frame_buffer.
Context {H G : Type} `{!FileSystem H G}.
Implicit Types κ : kernel H G.

(** Lines of whole pixels of four bytes, in mapped memory. *)
Record fb_ok (fb : Framebuffer) κ : Prop := {
  fb_size : 0 ≤ width fb < 2 ^ 63 ∧ 0 ≤ height fb < 2 ^ 63;
  fb_pitch : 4 * width fb ≤ pitch fb < 2 ^ 63 ∧ pitch fb mod 4 = 0;
  fb_end : 0 ≤ addr fb ∧ addr fb mod 4 = 0 ∧ height fb * pitch fb < 2 ^ 63;
  fb_mapped x : addr fb ≤ x < addr fb + height fb * pitch fb → is_Some (byte_of (RAM κ) x);
}.

(** C29. [plot_point] writes inside the frame buffer only. For a point inside, the
    four bytes of its pixel hold the colour, no other byte of memory changes and
    the call returns 0; for any other point it returns -1 and nothing changes. *)
Theorem plot_point_bounds fb κ x y color : fb_ok fb κ →
  if bool_decide (0 ≤ x < width fb ∧ 0 ≤ y < height fb) then
    let a := addr fb + (y * pitch fb + 4 * x) in
    addr fb ≤ a ∧ a + 4 ≤ addr fb + height fb * pitch fb ∧
    ∃ m', plot_point (Some fb) x y color κ = Some (0, set_RAM m' κ) ∧
      ∀ b, byte_of m' b = if (a <=? b) && (b <? a + 4) then Some (nth_byte (u32 color) (b - a)) else byte_of (RAM κ) b
  else plot_point (Some fb) x y color κ = Some (-1, κ).
Proof.
  intros [[Hw Hh] [Hp Hp4] (Ha0 & Ha4 & He) Hm]. unfold plot_point. rewrite (s64_small (width fb)), (s64_small (height fb)), (s64_small (pitch fb)) by lia.
  destruct (bool_decide_reflect (0 ≤ x < width fb ∧ 0 ≤ y < height fb)) as [[Hx Hy]|Hout].
  - cbv zeta. assert (0 ≤ y * pitch fb ∧ y * pitch fb + 4 * x + 4 ≤ height fb * pitch fb) as [H0 H1] by nia.
    split; [lia|]. split; [lia|]. replace (_ || _ || _ || _) with false by lia.
    enough (wp (a ← lift (checked_i64 (y * pitch fb)); b ← lift (checked_i64 (x * 4)); c ← lift (checked_i64 (a + b));
      let a0 := addr fb + u64 c in if negb (a0 mod 4 =? 0) then panic else _ ← store_field a0 4 (u32 color); mret 0)
      (λ r κ', r = 0 ∧ ∃ m', κ' = set_RAM m' κ ∧ ∀ b, byte_of m' b =
        if (addr fb + (y * pitch fb + 4 * x) <=? b) && (b <? addr fb + (y * pitch fb + 4 * x) + 4)
        then Some (nth_byte (u32 color) (b - (addr fb + (y * pitch fb + 4 * x)))) else byte_of (RAM κ) b) κ) as Hwp.
    { destruct (wp_result _ _ _ Hwp) as (r & κ' & E & -> & m' & -> & Hb). by exists m'. }
    assert (∀ z, 0 ≤ z < 2 ^ 63 → checked_i64 z = Some z) as Hc.
    { intros z Hz. unfold checked_i64, checked_isize. by replace (_ && _) with true by lia. }
    apply wp_bind, (wp_lift _ _ _ _ (Hc (y * pitch fb) ltac:(lia))).
    apply wp_bind, (wp_lift _ _ _ _ (Hc (x * 4) ltac:(nia))).
    apply wp_bind, (wp_lift _ _ _ _ (Hc (y * pitch fb + x * 4) ltac:(lia))). cbv zeta.
    rewrite u64_small by lia. replace (y * pitch fb + x * 4) with (y * pitch fb + 4 * x) by lia.
    assert ((addr fb + (y * pitch fb + 4 * x)) mod 4 = 0) as Hal.
    { rewrite <- (Z.add_mod_idemp_l (addr fb)), Ha4 by lia. rewrite Z.add_0_l, Z.add_mod, Z.mul_mod, Hp4, Z.mul_0_r by lia.
      rewrite Z.mod_0_l, Z.add_0_l, Z.mod_mod by lia. rewrite Z.mul_comm. by apply Z.mod_mul. }
    rewrite Hal. cbn [Z.eqb negb]. apply wp_bind, wp_store_field; [apply Hm; lia|done|divlia|apply wrapu_range; lia|].
    intros m' Hm'. apply wp_ret. split; [done|]. by exists m'.
  - replace (_ || _ || _ || _) with true by lia. done.
Qed.
End frame_buffer.

(** ** Arguments that are refused *)
Section calls.
Context {H G : Type} `{!FileSystem H G}.
Implicit Types κ : kernel H G.
Context (fb : option Framebuffer).

(** The process [p] runs. *)
Record runs κ (p : Process) : Prop := {
  ru_len : length (processes κ) = 64%nat;
  ru_current : 0 ≤ current κ < MAX_PROCESSES;
  ru_proc : proc_at κ (current κ) = Some p;
  ru_fds : length (fildes p) = 1024%nat;
}.

Lemma wp_on_vfs {A} (m : ST (vfs H G) A) (Q : A → kernel H G → Prop) κ :
  wp m (λ r ν, Q r (set_k_vfs ν κ)) (k_vfs κ) → wp (on_vfs m) Q κ.
Proof. unfold wp, on_vfs. by destruct (m (k_vfs κ)) as [[]|]. Qed.

Lemma wp_current κ p (Q : option Process → kernel H G → Prop) : runs κ p → Q (Some p) κ → wp get_current_process Q κ.
Proof.
  intros [Hl Hc Hp _] HQ. unfold get_current_process. apply wp_bind, wp_get. unfold MAX_PROCESSES in Hc.
  rewrite (proj2 (Z.eqb_neq _ _)) by (unfold USIZE_MAX; lia). apply wp_get_slot; [done|unfold MAX_PROCESSES; lia|]. by rewrite Hp.
Qed.

Lemma wp_put_current κ p p' (Q : unit → kernel H G → Prop) : runs κ p → Q tt (put κ (current κ) p') → wp (put_current p') Q κ.
Proof. intros [_ Hc _ _] HQ. unfold put_current. apply wp_bind, wp_get. by apply wp_put_slot. Qed.

Lemma put_same κ p : runs κ p → put κ (current κ) p = κ.
Proof.
  intros [Hl Hc Hp _]. unfold put. destruct κ as [RM mm' hp vf ps cu pc se ct qr]. unfold set_processes, proc_at in *. cbn in *. f_equal.
  apply list_insert_id. by destruct (ps !! Z.to_nat cu) as [[q|]|]; simplify_eq/=.
Qed.

Lemma from_u64_none n : ¬ (0 ≤ n ≤ 8) → from_u64 n = None.
Proof. intros Hn. destruct n as [|q|q]; [lia| |done]. do 4 (try destruct q as [q|q|]); try done; lia. Qed.

(** The descriptor [fd] of the process is [e]. *)
Lemma lookup_fd_eq κ p fd buf count e : runs κ p → 0 ≤ fd ≤ 1023 → buf ≠ 0 → 0 < count → fildes p !! Z.to_nat fd = Some e →
  lookup_fd fd buf count κ = Some (if is_empty e then inl EBADF else inr e, κ).
Proof.
  intros Hr Hfd Hbuf Hc He. unfold lookup_fd. rewrite (proj2 (orb_false_iff _ _)) by lia.
  rewrite (proj2 (orb_false_iff _ _)) by lia. rewrite (proj2 (Z.eqb_neq count 0)) by lia.
  apply wp_intro_eq, wp_bind, (wp_current κ p); [done|]. apply wp_bind, (wp_lift e); [done|]. by destruct (is_empty e).
Qed.

(** The checks of [read] and [write], before a descriptor is looked up. *)
Lemma lookup_fd_refused κ fd buf count :
  (¬ (0 ≤ fd ≤ 1023) → lookup_fd fd buf count κ = Some (inl EBADF, κ)) ∧
  (0 ≤ fd ≤ 1023 → buf = 0 ∨ count < 0 → lookup_fd fd buf count κ = Some (inl EINVAL, κ)) ∧
  (0 ≤ fd ≤ 1023 → buf ≠ 0 → lookup_fd fd buf 0 κ = Some (inl 0, κ)).
Proof.
  unfold lookup_fd. split_and!.
  - intros Hfd. by rewrite (proj2 (orb_true_iff _ _)) by lia.
  - intros Hfd Hb. rewrite (proj2 (orb_false_iff _ _)) by lia. by rewrite (proj2 (orb_true_iff _ _)) by lia.
  - intros Hfd Hb. rewrite (proj2 (orb_false_iff _ _)) by lia. by rewrite (proj2 (orb_false_iff _ _)) by lia.
Qed.

(** What [read] and [write] return when no descriptor is found. *)
Lemma call_refused (k : Z) fd buf count κ err : k = 7 ∨ k = 8 → lookup_fd fd buf count κ = Some (inl err, κ) →
  handle fb k fd buf count κ = Some (err, κ).
Proof.
  intros Hk E. assert (handle fb k fd buf count = sys_read fd buf count ∨ handle fb k fd buf count = sys_write fd buf count) as [-> | ->]
    by (destruct Hk as [-> | ->]; [by left|by right]);
    unfold sys_read, sys_write, mbind, ST_bind; rewrite E; done.
Qed.

(** C30. System calls with bad arguments are refused and change nothing. An unknown
    number gives ENOSYS. [open] gives EINVAL for a null pointer, a length that is
    zero, negative or over 4096, and text that is not UTF-8. [close], [read] and
    [write] give EBADF for a descriptor out of range or not open; [read] and
    [write] give EINVAL for a null buffer or a negative count, and 0 for no bytes. *)
Theorem syscall_errors κ p : runs κ p →
  (∀ n a b c, ¬ (0 ≤ n ≤ 8) → handle fb n a b c κ = Some (ENOSYS, κ)) ∧
  (∀ ptr n flags, - 2 ^ 63 ≤ n < 2 ^ 63 → ptr = 0 ∨ ¬ (1 ≤ n ≤ 4096) → handle fb 3 ptr n flags κ = Some (EINVAL, κ)) ∧
  (∀ ptr l flags, - 2 ^ 63 ≤ ptr < 2 ^ 63 → ptr ≠ 0 → 1 ≤ len l ≤ 4096 → bytes_at (RAM κ) (u64 ptr) l → utf8_ok l = false →
     handle fb 3 ptr (len l) flags κ = Some (EINVAL, κ)) ∧
  (∀ fd a b, ¬ (0 ≤ fd ≤ 1023) → handle fb 4 fd a b κ = Some (EBADF, κ)) ∧
  (∀ fd a b e, 0 ≤ fd ≤ 1023 → fildes p !! Z.to_nat fd = Some e → is_empty e = true → handle fb 4 fd a b κ = Some (EBADF, κ)) ∧
  (∀ k fd buf count, k = 7 ∨ k = 8 →
     (¬ (0 ≤ fd ≤ 1023) → handle fb k fd buf count κ = Some (EBADF, κ)) ∧
     (0 ≤ fd ≤ 1023 → buf = 0 ∨ count < 0 → handle fb k fd buf count κ = Some (EINVAL, κ)) ∧
     (0 ≤ fd ≤ 1023 → buf ≠ 0 → handle fb k fd buf 0 κ = Some (0, κ)) ∧
     (∀ e, 0 ≤ fd ≤ 1023 → buf ≠ 0 → 0 < count → fildes p !! Z.to_nat fd = Some e → is_empty e = true →
        handle fb k fd buf count κ = Some (EBADF, κ))).
Proof.
  intros Hr. split_and!.
  - intros n a b c Hn. unfold handle. by rewrite from_u64_none.
  - intros ptr n flags Hn Hbad. change (sys_open ptr n flags κ = Some (EINVAL, κ)). unfold sys_open.
    replace ((u64 ptr =? 0) || (u64 n =? 0) || (4096 <? u64 n)) with true; [done|]. symmetry. unfold wrapu.
    destruct Hbad as [-> |Hb]; [done|]. rewrite !orb_true_iff, Z.eqb_eq, Z.ltb_lt, Z.eqb_eq. divlia.
  - intros ptr l flags Hp Hp0 Hl Hb Hu. change (sys_open ptr (len l) flags κ = Some (EINVAL, κ)). unfold sys_open.
    rewrite (u64_small (len l)) by lia. replace (_ || _ || _) with false.
    2:{ symmetry. rewrite !orb_false_iff, !Z.eqb_neq, Z.ltb_ge. unfold wrapu. divlia. }
    apply wp_intro_eq, wp_bind, (wp_load_slice κ); [lia|done|]. unfold from_utf8. by rewrite Hu.
  - intros fd a b Hfd. change (sys_close fd κ = Some (EBADF, κ)). unfold sys_close. by rewrite (proj2 (orb_true_iff _ _)) by lia.
  - intros fd a b e Hfd He Hem. change (sys_close fd κ = Some (EBADF, κ)). unfold sys_close. rewrite (proj2 (orb_false_iff _ _)) by lia.
    apply wp_intro_eq, wp_bind, (wp_current κ p); [done|]. apply wp_bind, wp_on_vfs. unfold close_fd, len. rewrite (ru_fds _ _ Hr).
    rewrite (proj2 (Z.leb_gt _ _)) by lia. apply wp_bind, (wp_lift e); [done|]. rewrite Hem. apply wp_ret.
    replace (set_k_vfs (k_vfs κ) κ) with κ by (by destruct κ). cbn [fst snd]. apply wp_bind, (wp_put_current κ p); [done|].
    rewrite put_same by done. by apply wp_ret.
  - intros k fd buf count Hk. destruct (lookup_fd_refused κ fd buf count) as (H1 & H2 & H3).
    split_and!; [intros; apply call_refused; [done|by auto]..|]. intros e Hfd Hbuf Hc He Hem.
    apply call_refused; [done|]. rewrite (lookup_fd_eq κ p fd buf count e) by done. by rewrite Hem.
Qed.
End calls.

(** ** Opening and closing *)
Section opening.
Context {H G : Type} `{!FileSystem H G} `{!FileSystemSpec H G}.
Implicit Types σ : vfs H G.

(** The files after [open_node] with these flags. *)
Definition opened (flags : Z) (m : afs) (k : string) : afs :=
  if (if m !! k then has flags O_TRUNC else has flags O_CREAT) then <[k := []]> m else m.

(** Only nodes and files may differ. *)
Definition nodes_step σ σ' : Prop := VFS_LOCK σ' = VFS_LOCK σ ∧ MOUNT_TABLE σ' = MOUNT_TABLE σ.

Lemma find_app_new id ns n : id ∉ node_id <$> ns → node_id n = id → List.find (is_id id) (ns ++ [n]) = Some n.
Proof.
  intros Hn Hid. induction ns as [|x ns IH]; simpl.
  - unfold is_id. by rewrite Hid, Z.eqb_refl.
  - rewrite fmap_cons in Hn. apply not_elem_of_cons in Hn as [Hx Hn]. unfold is_id at 1.
    rewrite (proj2 (Z.eqb_neq _ _)) by done. by apply IH.
Qed.

Lemma next_fresh σ ns : tables_ok σ → NODE_TABLE σ = Some ns → NEXT_NODE_ID σ ∉ node_id <$> ns.
Proof.
  intros Ht Hn (n & He & Hin)%list_elem_of_fmap. destruct (to_nodes _ Ht _ Hn) as (_ & _ & Hall).
  rewrite Forall_forall in Hall. pose proof (no_id _ _ (Hall n Hin)). lia.
Qed.

(** The end of [open_node], once the file exists. *)
Definition open_end (ns : list VfsNode) (f : H) (mnt nm : string) (flags mode : Z) : ST (vfs H G) (Result VfsNode) :=
  ks ←r node_kind f nm;
  let cursor := if has flags O_APPEND then snd ks else 0 in
  id ← get NEXT_NODE_ID;
  _ ← modify (set_next (u32 (id + 1)));
  ms ← get MOUNT_TABLE;
  e ← lift (ms ≫= List.find (λ e, String.eqb (point e) mnt));
  let node := MkVfsNode id (fst ks) (point e) nm (snd ks) cursor flags mode in
  _ ← modify (set_nodes (Some (ns ++ [node])));
  mret (Ok node).

Lemma open_end_ok σ mnt nm flags mode h m d ns : tables_ok σ → NODE_TABLE σ = Some ns →
  NEXT_NODE_ID σ + 1 < 2 ^ 32 → mounted σ mnt h → fs_rep h m (world σ) → m !! lower nm = Some d → len d < 2 ^ 32 →
  wp (open_end ns h mnt nm flags mode) (λ r σ',
    let n := MkVfsNode (NEXT_NODE_ID σ) File mnt nm (len d) (if has flags O_APPEND then len d else 0) flags mode in
    r = Ok n ∧ nodes_step σ σ' ∧ NODE_TABLE σ' = Some (ns ++ [n]) ∧ NEXT_NODE_ID σ' = NEXT_NODE_ID σ + 1 ∧
    open_file (set_lock false σ') (node_id n) n h m d) σ.
Proof.
  intros Ht Hns Hnext (ms & e & Hms & Hf & <-) Hrep Hd Hlen. unfold open_end, node_kind. apply wp_bind, wp_bind, wp_onfs.
  wp_call (file_exists_spec (fs e) nm m); [done|]. intros ex g1 [-> Hg1]. rewrite Hd, bool_decide_true by eauto.
  apply wp_bind, wp_onfs. wp_call (get_file_size_spec (fs e) nm m); [done|]. intros s g2 [-> Hg2]. rewrite Hd.
  apply wp_ret. cbn [fmap option_fmap option_map default fst snd]. change (Z.of_nat (length d)) with (len d). cbn [from_option id]. rewrite (u32_len d) by done.
  apply wp_bind, wp_get, wp_bind, wp_modify, wp_bind, wp_get, wp_bind, (wp_lift e); [by cbn; rewrite Hms|].
  apply wp_bind, wp_modify, wp_ret. pose proof (to_next _ Ht) as H4.
  assert (point e = mnt) as Hp by (apply find_some in Hf as [_ Hf]; by apply String.eqb_eq). rewrite Hp.
  cbn [NEXT_NODE_ID set_world]. split_and!; [done|done|done| |].
  - cbn. apply u32_small. lia.
  - split; cbn [VFS_LOCK set_lock mount name kind cursor node_id]; [done| |done| |done|done| |done].
    + eexists. split; [done|]. apply find_app_new; [by apply next_fresh|done].
    + exists ms, e. by rewrite <- Hp at 1.
    + destruct (has flags O_APPEND); unfold len in *; lia.
Qed.

Lemma open_ok σ path mnt nm flags mode h m ns : VFS_LOCK σ = false → tables_ok σ → NODE_TABLE σ = Some ns →
  (length ns < MAX_NODES)%nat → NEXT_NODE_ID σ + 1 < 2 ^ 32 → split_path path = Ok (mnt, nm) → mounted σ mnt h →
  fs_rep h m (world σ) → (∀ d, m !! lower nm = Some d → len d < 2 ^ 32) → is_Some (opened flags m (lower nm) !! lower nm) →
  wp (vfs_open path flags mode) (λ r σ', nodes_step σ σ' ∧ match r with
    | Ok n => let m' := opened flags m (lower nm) in ∃ d,
        n = MkVfsNode (NEXT_NODE_ID σ) File mnt nm (len d) (if has flags O_APPEND then len d else 0) flags mode ∧
        NODE_TABLE σ' = Some (ns ++ [n]) ∧ NEXT_NODE_ID σ' = NEXT_NODE_ID σ + 1 ∧ open_file σ' (node_id n) n h m' d
    | Err _ => NODE_TABLE σ' = Some ns ∧ NEXT_NODE_ID σ' = NEXT_NODE_ID σ ∧ (has flags O_CREAT || has flags O_TRUNC = true) ∧
        ∃ m', fs_rep h m' (world σ') ∧ ∀ k, k ≠ lower nm → m' !! k = m !! k
    end) σ.
Proof.
  intros Hl Ht Hns Hlt Hnext Hpath Hmnt Hrep Hlen Hex. unfold vfs_open. rewrite Hpath. apply wp_locked; [done|].
  unfold open_node. apply wp_bind, wp_get. change (NODE_TABLE (set_lock true σ)) with (NODE_TABLE σ). rewrite Hns.
  rewrite (proj2 (Nat.leb_gt _ _)) by done. apply wp_bind, (wp_get_fs _ h); [by eapply mounted_eq; [|exact Hmnt]|].
  apply wp_bind, wp_onfs. wp_call (file_exists_spec h nm m); [done|]. intros ex g1 [-> Hg1]. cbv beta.
  assert (∀ g d, fs_rep h (opened flags m (lower nm)) g → opened flags m (lower nm) !! lower nm = Some d → len d < 2 ^ 32 →
    wp (open_end ns h mnt nm flags mode) (λ r σ', nodes_step σ (set_lock false σ') ∧ match r with
      | Ok n => ∃ d, n = MkVfsNode (NEXT_NODE_ID σ) File mnt nm (len d) (if has flags O_APPEND then len d else 0) flags mode ∧
          NODE_TABLE σ' = Some (ns ++ [n]) ∧ NEXT_NODE_ID σ' = NEXT_NODE_ID σ + 1 ∧
          open_file (set_lock false σ') (node_id n) n h (opened flags m (lower nm)) d
      | Err _ => False end) (set_world g (set_lock true σ))) as Hend.
  { intros g d Hg Hd Hd32. eapply wp_mono.
    - apply (open_end_ok _ mnt nm flags mode h (opened flags m (lower nm)) d); try done. destruct Ht as [T1 T2 T3]. by split.
    - intros r σ' (-> & [_ Hm'] & H1 & H2 & H3). split; [by split; [symmetry|]|]. exists d. done. }
  fold (open_end ns h mnt nm flags mode).
  unfold opened in *. destruct (m !! lower nm) as [d|] eqn:Ed.
  - rewrite bool_decide_true by eauto. cbn [negb]. rewrite !andb_true_r, andb_false_r.
    destruct (has flags O_CREAT && has flags O_EXCL) eqn:Ece.
    { apply andb_true_iff in Ece as [-> _]. apply wp_ret. split; [by split; [symmetry|]|]. split_and!; [done..|]. by exists m. }
    apply wp_bind, wp_ret, wp_bind. destruct (has flags O_TRUNC) eqn:Etr.
    + apply wp_onfs. wp_call (write_file_spec h nm [] m); [done|]. intros r g2 (m' & Hm' & Hother & Hok). destruct r as [[]|err].
      * destruct (Hok eq_refl) as [_ ->]. eapply wp_mono; [by apply (Hend g2 []); rewrite ?lookup_insert_eq|]. intros [n|] σ' [? ?]; done.
      * apply wp_ret. split; [by split; [symmetry|]|]. rewrite orb_true_r. split_and!; [done..|]. by exists m'.
    + apply wp_ret. eapply wp_mono; [apply (Hend g1 d); [done..|by apply Hlen]|]. intros [n|] σ' [? ?]; done.
  - rewrite bool_decide_false by (by intros []). cbn [negb]. rewrite !andb_false_r, andb_true_r.
    destruct (has flags O_CREAT) eqn:Ec; [|by rewrite Ed in Hex; destruct Hex]. apply wp_bind, wp_onfs.
    wp_call (create_file_spec h nm [] m); [done|]. intros r g2 (m' & Hm' & Hother & Hok). destruct r as [[]|err].
    + destruct (Hok eq_refl) as [_ ->]. apply wp_bind, wp_ret.
      eapply wp_mono; [by apply (Hend g2 []); rewrite ?lookup_insert_eq|]. intros [n|] σ' [? ?]; done.
    + apply wp_ret. split; [by split; [symmetry|]|]. split_and!; [done..|]. by exists m'.
Qed.
End opening.

(** ** Calls on descriptors

    What each call does, given what the VFS does. *)
Section descriptors.
Context {H G : Type} `{!FileSystem H G}.
Implicit Types κ : kernel H G.
Context (fb : option Framebuffer).

(** A path in memory, as [open] takes it. *)
Record path_at κ (ptr : Z) (path : list Z) : Prop := {
  pa_ptr : 0 < ptr < 2 ^ 63;
  pa_len : 1 ≤ len path ≤ 4096;
  pa_bytes : bytes_at (RAM κ) ptr path;
  pa_utf8 : utf8_ok path = true;
}.

(** The process [p] of the table replaced and the VFS changed. *)
Definition updated κ (σ : vfs H G) (p : Process) : kernel H G := put (set_k_vfs σ κ) (current κ) p.

Lemma runs_vfs κ p σ : runs κ p → runs (set_k_vfs σ κ) p.
Proof. by intros [? ? ? ?]. Qed.

Lemma runs_updated κ p σ p' : runs κ p → length (fildes p') = 1024%nat → runs (updated κ σ p') p'.
Proof.
  intros [Hl Hc Hp Hf] Hf'. unfold updated. split; cbn [processes current put set_processes set_k_vfs]; [by rewrite length_insert|done| |done].
  rewrite proc_at_put by (done || lia). by rewrite decide_True.
Qed.

Lemma vfs_run_wp {A} (m : ST (vfs H G) A) κ r σ' (Q : A → kernel H G → Prop) : m (k_vfs κ) = Some (r, σ') →
  Q r (set_k_vfs σ' κ) → wp (on_vfs m) Q κ.
Proof. intros E HQ. apply wp_on_vfs. by eapply wp_intro. Qed.

Lemma sys_open_eq κ p ptr path flags r σ' i : runs κ p → path_at κ ptr path →
  vfs_open (to_string path) (u32 flags) 0 (k_vfs κ) = Some (r, σ') → get_free_fd_index p = Some i →
  handle fb 3 ptr (len path) flags κ = Some (match r with
    | Ok n => (i, updated κ σ' (set_fildes (<[Z.to_nat i := MkFD (node_id n) (u32 flags) 1]> (fildes p)) p))
    | Err _ => (-1, set_k_vfs σ' κ)
    end).
Proof.
  intros Hr [Hp Hl Hb Hu] E Hi. change (handle fb 3 ptr (len path) flags) with (sys_open ptr (len path) flags). unfold sys_open.
  rewrite (u64_small ptr), (u64_small (len path)) by lia. replace (_ || _ || _) with false by lia.
  match goal with |- _ = Some ?x => enough (wp (slice ← load_slice ptr (len path);
    match from_utf8 slice with None => mret EINVAL | Some path => let flags_u32 := u32 flags in
      r ← on_vfs (vfs_open path flags_u32 0); match r with Err _ => mret (-1) | Ok node => q ← get_current_process;
        match q with None => _ ← on_vfs (vfs_close (node_id node)); mret (-1) | Some proc =>
          match open_fd proc (node_id node) flags_u32 with Some (fd_idx, proc) => _ ← put_current proc; mret fd_idx
          | None => _ ← on_vfs (vfs_close (node_id node)); mret (-1) end end end end) (λ y τ, (y, τ) = x) κ) as Hw end.
  { destruct (wp_result _ _ _ Hw) as (y & τ & E' & <-). exact E'. }
  apply wp_bind, (wp_load_slice κ); [lia|done|]. unfold from_utf8. rewrite Hu. cbv zeta.
  apply wp_bind, (vfs_run_wp _ _ _ _ _ E). destruct r as [n|]; [|by apply wp_ret].
  apply wp_bind, (wp_current _ p); [by apply runs_vfs|]. unfold open_fd. rewrite Hi. cbn [mbind option_bind].
  apply wp_bind, (wp_put_current _ p); [by apply runs_vfs|]. by apply wp_ret.
Qed.

Lemma sys_write_eq κ p fd e buf data r σ' : runs κ p → 0 ≤ fd ≤ 1023 → fildes p !! Z.to_nat fd = Some e →
  is_empty e = false → is_special e = false → 0 < buf < 2 ^ 63 → 0 < len data < 2 ^ 63 → bytes_at (RAM κ) buf data →
  vfs_write_node (fd_node e) data (k_vfs κ) = Some (r, σ') →
  handle fb 8 fd buf (len data) κ = Some (match r with Ok _ => len data | Err _ => -1 end, set_k_vfs σ' κ).
Proof.
  intros Hr Hfd He Hem Hsp Hb Hl Hd E. change (handle fb 8 fd buf (len data)) with (sys_write fd buf (len data)).
  apply wp_intro_eq. unfold sys_write. apply wp_bind. eapply wp_intro; [apply (lookup_fd_eq κ p fd _ _ e); done || lia|].
  rewrite Hem, u64_small by lia. apply wp_bind, (wp_load_slice κ); [lia|done|].
  replace (_ || _) with false by (unfold is_special in Hsp; unfold STDIN_NODE_ID, STDOUT_NODE_ID, STDERR_NODE_ID in *; lia).
  apply wp_bind, (vfs_run_wp _ _ _ _ _ E). by destruct r.
Qed.

Lemma sys_close_eq κ p fd e r σ' a b : runs κ p → 0 ≤ fd ≤ 1023 → fildes p !! Z.to_nat fd = Some e →
  is_empty e = false → is_special e = false → ref_count e = 1 → vfs_close (fd_node e) (k_vfs κ) = Some (r, σ') →
  handle fb 4 fd a b κ = Some (0, updated κ σ' (set_fildes (<[Z.to_nat fd := FD_EMPTY]> (fildes p)) p)).
Proof.
  intros Hr Hfd He Hem Hsp Hrc E. change (handle fb 4 fd a b) with (sys_close (H := H) (G := G) fd). apply wp_intro_eq. unfold sys_close.
  rewrite (proj2 (orb_false_iff _ _)) by lia. apply wp_bind, (wp_current κ p); [done|]. apply wp_bind, wp_on_vfs.
  unfold close_fd, len. rewrite (ru_fds _ _ Hr). rewrite (proj2 (Z.leb_gt _ _)) by lia. apply wp_bind, (wp_lift e); [done|].
  rewrite Hem. apply wp_bind. unfold close_entry. cbn [fd_node fd_flags ref_count]. rewrite Hrc. cbn [saturating_sub].
  change (is_special (MkFD _ _ _)) with (is_special e). rewrite Hsp. cbn [negb]. apply wp_bind. unfold ignore. apply wp_bind.
  eapply wp_intro; [exact E|]. apply wp_ret, wp_ret, wp_ret. cbn [fst snd]. apply wp_bind, (wp_put_current _ p); [by apply runs_vfs|].
  by apply wp_ret.
Qed.

Lemma sys_read_eq κ p fd e buf count data σ' : runs κ p → 0 ≤ fd ≤ 1023 → fildes p !! Z.to_nat fd = Some e →
  is_empty e = false → is_special e = false → 0 < buf < 2 ^ 63 → 0 < count →
  vfs_read (fd_node e) count (k_vfs κ) = Some (Ok data, σ') → Forall (λ b, 0 ≤ b < 256) data →
  (∀ x, buf ≤ x < buf + len data → is_Some (byte_of (RAM κ) x)) →
  ∃ m', handle fb 7 fd buf count κ = Some (len data, set_RAM m' (set_k_vfs σ' κ)) ∧ stored (RAM κ) m' buf data.
Proof.
  intros Hr Hfd He Hem Hsp Hb Hc E Hd Hm. change (handle fb 7 fd buf count) with (sys_read fd buf count).
  enough (wp (sys_read fd buf count) (λ y τ, y = len data ∧ ∃ m', τ = set_RAM m' (set_k_vfs σ' κ) ∧ stored (RAM κ) m' buf data) κ) as Hw.
  { destruct (wp_result _ _ _ Hw) as (y & τ & E' & -> & m' & -> & Hst). by exists m'. }
  unfold sys_read. apply wp_bind. eapply wp_intro; [apply (lookup_fd_eq κ p fd _ _ e); done || lia|]. rewrite Hem.
  replace (_ =? STDIN_NODE_ID) with false by (unfold is_special in Hsp; unfold STDIN_NODE_ID, STDERR_NODE_ID in *; lia).
  apply wp_bind, (vfs_run_wp _ _ _ _ _ E). rewrite u64_small by lia. apply wp_bind. destruct (Z.ltb_spec 0 (len data)) as [Hlt|Hge].
  - apply wp_store_slice; [done|done|]. intros m' Hst. apply wp_ret. split; [done|]. by exists m'.
  - apply wp_ret, wp_ret. split; [done|]. exists (RAM κ). split; [by destruct κ|]. split; [|done].
    destruct data; [by intros ? ?|]. unfold len in Hge. simpl in Hge. lia.
Qed.

Lemma position_fmap {A} (f : A → bool) l : position f l = position (λ b, b) (f <$> l).
Proof. induction l as [|x l IH]; [done|]. rewrite fmap_cons. cbn [position]. destruct (f x); [done|]. by rewrite IH. Qed.

Lemma position_inv {A} (f : A → bool) l i : position f l = Some i → 0 ≤ i ∧ ∃ x, l !! Z.to_nat i = Some x ∧ f x = true.
Proof.
  revert i. induction l as [|x l IH]; [done|]. intros i. cbn [position]. destruct (f x) eqn:E; [intros [= <-]; split; [done|]; by exists x|].
  destruct (position f l) as [j|]; [|done]. intros [= <-]. destruct (IH j eq_refl) as (Hj & y & Hy & Hf). split; [lia|].
  exists y. split; [|done]. by replace (Z.to_nat (j + 1)) with (S (Z.to_nat j)) by lia.
Qed.

Lemma free_fd_inv p i : get_free_fd_index p = Some i → length (fildes p) = 1024%nat →
  3 ≤ i ≤ 1023 ∧ ∃ e, fildes p !! Z.to_nat i = Some e ∧ is_empty e = true.
Proof.
  unfold get_free_fd_index. destruct (position _ _) as [j|] eqn:E; [|done]. intros [= <-] Hl.
  destruct (position_inv _ _ _ E) as (Hj & e & He & Hem). rewrite lookup_drop in He.
  replace (3 + Z.to_nat j)%nat with (Z.to_nat (j + 3)) in He by lia. pose proof (lookup_lt_Some _ _ _ He). split; [lia|]. by exists e.
Qed.

(** A free index stays the first one when its slot is filled and emptied again. *)
Lemma free_fd_again p i fd : get_free_fd_index p = Some i → length (fildes p) = 1024%nat →
  get_free_fd_index (set_fildes (<[Z.to_nat i := FD_EMPTY]> (<[Z.to_nat i := fd]> (fildes p))) p) = Some i.
Proof.
  intros Hi Hl. destruct (free_fd_inv p i Hi Hl) as (_ & e & He & Hem). rewrite <- Hi. unfold get_free_fd_index. cbn [fildes set_fildes].
  rewrite list_insert_insert_eq. f_equal. rewrite position_fmap, (position_fmap is_empty (drop 3 (fildes p))). f_equal.
  rewrite !fmap_drop, list_fmap_insert. f_equal. apply list_insert_id. rewrite list_lookup_fmap, He. cbn. by rewrite Hem.
Qed.
End descriptors.

(** ** Files through system calls *)
Section files.
Context {H G : Type} `{!FileSystem H G} `{!FileSystemSpec H G}.
Implicit Types κ : kernel H G.
Context (fb : option Framebuffer).

Lemma filter_shorter id ns : id ∈ node_id <$> ns → (length (List.filter (λ n, negb (is_id id n)) ns) < length ns)%nat.
Proof.
  intros (n & -> & Hin)%list_elem_of_fmap. induction ns as [|x ns IH]; [by apply not_elem_of_nil in Hin|]. cbn [List.filter length].
  pose proof (List.filter_length_le (λ m, negb (is_id (node_id n) m)) ns). apply elem_of_cons in Hin as [<-|Hin].
  - unfold is_id at 1. rewrite Z.eqb_refl. cbn [negb]. lia.
  - specialize (IH Hin). destruct (negb _); cbn [length]; lia.
Qed.

Lemma close_ok (σ : vfs H G) id ns : VFS_LOCK σ = false → NODE_TABLE σ = Some ns → id ∈ node_id <$> ns →
  vfs_close id σ = Some (Ok tt, set_nodes (Some (List.filter (λ n, negb (is_id id n)) ns)) σ).
Proof.
  intros Hl Hns Hin. apply wp_intro_eq. unfold vfs_close. apply wp_locked; [done|]. apply wp_bind, wp_get.
  change (NODE_TABLE (set_lock true σ)) with (NODE_TABLE σ). rewrite Hns. apply wp_bind, wp_modify, wp_ret. split.
  - pose proof (filter_shorter id ns Hin). by rewrite (proj2 (Nat.eqb_neq _ _)) by lia.
  - destruct σ. cbn in *. by subst.
Qed.

(** A process that has a descriptor to spare, a path in its memory that names a
    file of a mounted file system, and the state of the VFS. *)
Record file_request κ (p : Process) (i ptr : Z) (path : list Z) (mnt nm : string) (h : H) (m : afs) : Prop := {
  rq_runs : runs κ p;
  rq_free : get_free_fd_index p = Some i;
  rq_path : path_at κ ptr path;
  rq_split : split_path (to_string path) = Ok (mnt, nm);
  rq_lock : VFS_LOCK (k_vfs κ) = false;
  rq_tables : tables_ok (k_vfs κ);
  rq_nodes : ∃ ns, NODE_TABLE (k_vfs κ) = Some ns ∧ (length ns < MAX_NODES)%nat;
  rq_next : NEXT_NODE_ID (k_vfs κ) + 1 < 2 ^ 32;
  rq_mount : mounted (k_vfs κ) mnt h;
  rq_rep : fs_rep h m (world (k_vfs κ));
  rq_len d : m !! lower nm = Some d → len d < 2 ^ 32;
}.

Definition O_WRITE : Z := Z.lor (Z.lor O_CREAT O_TRUNC) O_WRONLY.

Lemma opened_write m k : opened O_WRITE m k = <[k := []]> m.
Proof. unfold opened. by destruct (m !! k). Qed.

Lemma opened_read m k : opened O_RDONLY m k = m.
Proof. unfold opened. by destruct (m !! k). Qed.

(** File sizes are u32. *)
Context (size_typed : ∀ (h : H) n (g : G) s g', get_file_size h n g = Some (Some s, g') → 0 ≤ s < 2 ^ 32).

Lemma open_tables (σ : vfs H G) path flags mode r σ' b : b + 1 < 2 ^ 32 → tables_at b σ →
  vfs_open path flags mode σ = Some (r, σ') → tables_at (b + 1) σ'.
Proof.
  intros Hb HI E. eapply (vfs_do_tables size_typed b (OOpen path flags mode)); [done|done|exact HI|].
  simpl. unfold ignore, mbind, ST_bind. by rewrite E.
Qed.

Lemma list_find_elem id ns n : List.find (is_id id) ns = Some n → id ∈ node_id <$> ns.
Proof.
  intros [Hin Hid]%find_some. unfold is_id in Hid. apply Z.eqb_eq in Hid. subst id. by apply list_elem_of_fmap_2, list_elem_of_In.
Qed.

(** Opening a file under the free descriptor. *)
Lemma open_fd_ok κ p i ptr path mnt nm h m flags : file_request κ p i ptr path mnt nm h m → 0 ≤ flags < 2 ^ 32 →
  has flags O_APPEND = false → is_Some (opened flags m (lower nm) !! lower nm) →
  ∃ r κ1, handle fb 3 ptr (len path) flags κ = Some (r, κ1) ∧
    (r = -1 ∧ has flags O_CREAT || has flags O_TRUNC = true ∨ r = i ∧ ∃ σ1 d n,
    κ1 = updated κ σ1 (set_fildes (<[Z.to_nat i := MkFD (node_id n) flags 1]> (fildes p)) p) ∧
    n = MkVfsNode (NEXT_NODE_ID (k_vfs κ)) File mnt nm (len d) 0 flags 0 ∧ tables_at (NEXT_NODE_ID (k_vfs κ) + 1) σ1 ∧
    open_file σ1 (node_id n) n h (opened flags m (lower nm)) d).
Proof.
  intros [Hr Hi Hp Hs Hl Ht (ns & Hns & Hlt) Hnext Hm Hrep Hlen] Hfl Happ Hex.
  destruct (wp_result _ _ _ (open_ok (k_vfs κ) _ mnt nm flags 0 h m ns Hl Ht Hns Hlt ltac:(lia) Hs Hm Hrep Hlen Hex)) as (r & σ1 & E & Hst & HQ).
  assert (tables_at (NEXT_NODE_ID (k_vfs κ) + 1) σ1) as Ht1 by (eapply open_tables; [lia|split; [exact Ht|lia]|exact E]).
  rewrite <- (u32_small flags) in E by lia. pose proof (sys_open_eq fb κ p ptr path flags r σ1 i Hr Hp E Hi) as Eo.
  rewrite u32_small in Eo by lia. destruct r as [n|err].
  - destruct HQ as (d & Hn & _ & _ & Hof). rewrite Happ in Hn. do 2 eexists. split; [exact Eo|]. right. split; [done|]. by exists σ1, d, n.
  - do 2 eexists. split; [exact Eo|]. left. split; [done|]. apply HQ.
Qed.

(** Writing to a new file. *)
Lemma write_fd_ok κ p i e n h m data buf : runs κ p → 0 ≤ i ≤ 1023 → fildes p !! Z.to_nat i = Some e →
  is_empty e = false → is_special e = false → tables_ok (k_vfs κ) → open_file (k_vfs κ) (fd_node e) n h m [] →
  flags n = O_WRITE → cursor n = 0 → size n = 0 → 0 < buf < 2 ^ 63 → 0 < len data < 2 ^ 32 → bytes_at (RAM κ) buf data →
  ∃ w σ2, handle fb 8 i buf (len data) κ = Some (w, set_k_vfs σ2 κ) ∧ (w = -1 ∨ w = len data ∧
    tables_at (NEXT_NODE_ID (k_vfs κ)) σ2 ∧ NEXT_NODE_ID σ2 = NEXT_NODE_ID (k_vfs κ) ∧
    ∃ n', mount n' = mount n ∧ name n' = name n ∧ open_file σ2 (fd_node e) n' h (<[lower (name n) := data]> m) data).
Proof.
  intros Hr Hi He Hem Hsp Ht Hof Hfl Hcur Hsz Hb Hd Hbytes.
  assert (Z.land (flags n) 3 ≠ O_RDONLY) as Hacc by (by rewrite Hfl).
  destruct (wp_result _ _ _ (vfs_write_ok (k_vfs κ) (fd_node e) n h m [] data Hof Hacc ltac:(lia) ltac:(lia) ltac:(lia)))
    as (r & σ2 & E & Hst & m2 & Hrep & Hother & Hok).
  pose proof (sys_write_eq fb κ p i e buf data r σ2 Hr Hi He Hem Hsp Hb ltac:(lia) Hbytes E) as Ew.
  do 2 eexists. split; [exact Ew|]. destruct r as [[]|]; [|by left]. right. split; [done|].
  destruct (Hok eq_refl) as [-> Hof2]. assert (written n [] data = data) as Hw by (unfold written; by rewrite Hfl, Hcur).
  rewrite Hw in Hof2. split; [|split; [apply (st_next _ _ _ Hst)|by eexists (advanced n [] data)]].
  eapply (keeps_write size_typed); [|exact E]. split; [done|lia].
Qed.

(** Closing the descriptor: a request as before. *)
Lemma close_fd_ok κ p0 p i fd n h m data ptr path : runs κ p → p = set_fildes (<[Z.to_nat i := fd]> (fildes p0)) p0 →
  get_free_fd_index p0 = Some i → length (fildes p0) = 1024%nat → is_empty fd = false → is_special fd = false →
  ref_count fd = 1 → tables_ok (k_vfs κ) → NEXT_NODE_ID (k_vfs κ) + 1 < 2 ^ 32 → open_file (k_vfs κ) (fd_node fd) n h m data →
  path_at κ ptr path → split_path (to_string path) = Ok (mount n, name n) →
  ∃ κ' p', handle fb 4 i 0 0 κ = Some (0, κ') ∧ RAM κ' = RAM κ ∧ NEXT_NODE_ID (k_vfs κ') = NEXT_NODE_ID (k_vfs κ) ∧
    file_request κ' p' i ptr path (mount n) (name n) h m.
Proof.
  intros Hr Hp Hi Hl Hem Hsp Hrc Ht Hnext Hof Hpath Hs. destruct (free_fd_inv _ _ Hi Hl) as (Hi3 & _).
  assert (fildes p !! Z.to_nat i = Some fd) as He by (subst p; apply list_lookup_insert_eq; lia).
  pose proof (of_node _ _ _ _ _ _ Hof) as (ns & Hns & Hf).
  pose proof (close_ok _ (fd_node fd) ns (of_lock _ _ _ _ _ _ Hof) Hns (list_find_elem _ _ _ Hf)) as Ec.
  pose proof (sys_close_eq fb κ p i fd _ _ 0 0 Hr ltac:(lia) He Hem Hsp Hrc Ec) as E.
  do 2 eexists. split; [exact E|]. split; [done|]. split; [done|]. pose proof Hof as [H1 H2 H3 H4 H5 H6 H7 H8].
  split.
  - apply (runs_updated κ p); [done|]. cbn [fildes set_fildes]. by rewrite length_insert, (ru_fds _ _ Hr).
  - subst p. by apply (free_fd_again p0 i fd).
  - by destruct Hpath.
  - done.
  - done.
  - eapply keeps_close; [|exact Ec]. split; [done|]. reflexivity.
  - eexists. split; [done|]. destruct (to_nodes _ Ht _ Hns) as (_ & Hle & _).
    eapply Nat.lt_le_trans; [|exact Hle]. apply filter_shorter. by eapply list_find_elem.
  - done.
  - by eapply mounted_eq; [|exact H4].
  - done.
  - intros d. rewrite H6. by intros [= <-].
Qed.

(** Opening a file and reading it. *)
Lemma read_fd_ok κ p i ptr path mnt nm h m data buf : file_request κ p i ptr path mnt nm h m → m !! lower nm = Some data →
  0 < len data < 2 ^ 32 → Forall (λ b, 0 ≤ b < 256) data → 0 < buf < 2 ^ 63 →
  (∀ x, buf ≤ x < buf + len data → is_Some (byte_of (RAM κ) x)) →
  ∃ κ1 κ2, handle fb 3 ptr (len path) O_RDONLY κ = Some (i, κ1) ∧
    handle fb 7 i buf (len data) κ1 = Some (len data, κ2) ∧ stored (RAM κ) (RAM κ2) buf data.
Proof.
  intros Hrq Hd Hlen Hbytes Hb Hmap. pose proof (rq_runs _ _ _ _ _ _ _ _ _ Hrq) as Hr.
  pose proof (to_next _ (rq_tables _ _ _ _ _ _ _ _ _ Hrq)) as H4.
  destruct (free_fd_inv _ _ (rq_free _ _ _ _ _ _ _ _ _ Hrq) (ru_fds _ _ Hr)) as (Hi3 & _).
  destruct (open_fd_ok κ p i ptr path mnt nm h m O_RDONLY Hrq ltac:(done) eq_refl) as (r & κ1 & E1 & [[_ Hbad]|(-> & σ1 & d & n & Hκ1 & Hn & Ht1 & Hof1)]).
  { rewrite opened_read, Hd. by eauto. }
  { done. }
  rewrite opened_read in Hof1. assert (Some d = Some data) as [= ->] by (rewrite <- Hd, <- (of_file _ _ _ _ _ _ Hof1); by rewrite Hn).
  assert (Z.land (flags n) 3 ≠ O_WRONLY) as Hacc by (by rewrite Hn).
  destruct (wp_result _ _ _ (vfs_read_ok σ1 (node_id n) n h m data (len data) Hof1 Hacc ltac:(lia))) as (r & σ2 & E & -> & _).
  rewrite Hn in E at 2. cbn [cursor] in E. change (Z.to_nat 0) with 0%nat in E.
  rewrite drop_0, take_ge in E by (unfold len; lia).
  set (fd := MkFD (node_id n) O_RDONLY 1) in *. set (p1 := set_fildes (<[Z.to_nat i := fd]> (fildes p)) p) in *.
  assert (node_id n = NEXT_NODE_ID (k_vfs κ)) as Hid by (by rewrite Hn).
  assert (is_empty fd = false ∧ is_special fd = false) as [Hem Hsp].
  { unfold is_empty, is_special, STDIN_NODE_ID, STDERR_NODE_ID. cbn [fd_node fd]. lia. }
  assert (runs κ1 p1) as Hr1.
  { rewrite Hκ1. eapply runs_updated; [exact Hr|]. cbn. by rewrite length_insert, (ru_fds _ _ Hr). }
  assert (k_vfs κ1 = σ1 ∧ RAM κ1 = RAM κ) as [Hv1 Hram1] by (by rewrite Hκ1). rewrite <- Hv1 in E. rewrite <- Hram1 in Hmap |- *.
  destruct (sys_read_eq fb κ1 p1 i fd buf (len data) data σ2 Hr1 ltac:(lia)) as (m' & E2 & Hst); try done; [|lia|].
  { apply list_lookup_insert_eq. rewrite (ru_fds _ _ Hr). lia. }
  by exists κ1, (set_RAM m' (set_k_vfs σ2 κ1)).
Qed.

(** C9. Files through system calls, over any driver that keeps its contract: a
    process opens a path for writing, which creates or empties the file, writes a
    buffer, closes the descriptor, opens the path again and reads. Every call
    returns. Unless the driver refuses the first open or the write, both opens
    give the first free descriptor, the counts are complete, the second buffer
    then holds the bytes of the first, and no other byte of memory changed. *)
Theorem file_calls_roundtrip κ p i ptr path mnt nm h m data buf buf2 : file_request κ p i ptr path mnt nm h m →
  NEXT_NODE_ID (k_vfs κ) + 2 < 2 ^ 32 → 0 < len data < 2 ^ 32 → 0 < buf < 2 ^ 63 → bytes_at (RAM κ) buf data →
  0 < buf2 < 2 ^ 63 → (∀ x, buf2 ≤ x < buf2 + len data → is_Some (byte_of (RAM κ) x)) →
  ∃ r κ1, handle fb 3 ptr (len path) O_WRITE κ = Some (r, κ1) ∧ (r = -1 ∨ r = i ∧
  ∃ w κ2, handle fb 8 i buf (len data) κ1 = Some (w, κ2) ∧ (w = -1 ∨ w = len data ∧
  ∃ κ3 κ4 κ5, handle fb 4 i 0 0 κ2 = Some (0, κ3) ∧ handle fb 3 ptr (len path) O_RDONLY κ3 = Some (i, κ4) ∧
    handle fb 7 i buf2 (len data) κ4 = Some (len data, κ5) ∧ stored (RAM κ) (RAM κ5) buf2 data)).
Proof.
  intros Hrq Hnext Hd Hb Hbytes Hb2 Hmap. pose proof Hrq as [Hr Hi Hp Hs Hl Ht Hns _ Hm Hrep Hlen].
  pose proof (to_next _ Ht) as H4. destruct (free_fd_inv _ _ Hi (ru_fds _ _ Hr)) as (Hi3 & _).
  destruct (open_fd_ok κ p i ptr path mnt nm h m O_WRITE Hrq ltac:(done) eq_refl) as (r & κ1 & E1 & [[-> _]|(-> & σ1 & d & n & Hκ1 & Hn & Ht1 & Hof1)]).
  { rewrite opened_write, lookup_insert_eq. by eauto. }
  { do 2 eexists. split; [exact E1|]. by left. }
  do 2 eexists. split; [exact E1|]. right. split; [done|]. rewrite opened_write in Hof1.
  assert (d = []) as -> by (pose proof (of_file _ _ _ _ _ _ Hof1) as Hfile; rewrite Hn in Hfile; cbn in Hfile; rewrite lookup_insert_eq in Hfile; congruence).
  set (fd := MkFD (node_id n) O_WRITE 1) in *. set (p1 := set_fildes (<[Z.to_nat i := fd]> (fildes p)) p) in *.
  assert (node_id n = NEXT_NODE_ID (k_vfs κ)) as Hid by (by rewrite Hn).
  assert (is_empty fd = false ∧ is_special fd = false) as [Hem Hsp].
  { unfold is_empty, is_special, STDIN_NODE_ID, STDERR_NODE_ID. cbn [fd_node fd]. lia. }
  assert (runs κ1 p1) as Hr1.
  { rewrite Hκ1. eapply runs_updated; [exact Hr|]. cbn. by rewrite length_insert, (ru_fds _ _ Hr). }
  assert (k_vfs κ1 = σ1 ∧ RAM κ1 = RAM κ) as [Hv1 Hram1] by (by rewrite Hκ1). rewrite <- Hv1 in Ht1, Hof1.
  destruct (write_fd_ok κ1 p1 i fd n h (<[lower nm := []]> m) data buf) as (w & σ2 & E2 & [-> |(-> & Ht2 & Hn2 & n' & Hmn & Hnm & Hof2)]);
    try done; try (by rewrite Hn); try (by rewrite Hram1); try apply Ht1; [lia|apply list_lookup_insert_eq; rewrite (ru_fds _ _ Hr); lia| |].
  { do 2 eexists. split; [exact E2|]. by left. }
  do 2 eexists. split; [exact E2|]. right. split; [done|].
  rewrite Hn in Hof2. cbn [name] in Hof2. rewrite insert_insert_eq in Hof2.
  assert (mount n' = mnt ∧ name n' = nm) as [Hmn' Hnm'] by (by rewrite Hmn, Hnm, Hn).
  destruct (close_fd_ok (set_k_vfs σ2 κ1) p p1 i fd n' h (<[lower nm := data]> m) data ptr path) as (κ3 & p3 & E3 & Hram3 & Hn3 & Hrq3); try done; try exact (ru_fds _ _ Hr).
  { by apply runs_vfs. }
  { apply Ht2. }
  { cbn [k_vfs set_k_vfs]. rewrite Hn2. destruct Ht1 as [_ Hle]. lia. }
  { destruct Hp as [? ? ? ?]. split; try done. cbn [RAM set_k_vfs]. by rewrite Hram1. }
  { by rewrite Hmn', Hnm'. }
  assert (RAM κ3 = RAM κ) as Hram by (by rewrite Hram3). rewrite Hmn', Hnm' in Hrq3.
  destruct (read_fd_ok κ3 p3 i ptr path mnt nm h (<[lower nm := data]> m) data buf2 Hrq3) as (κ4 & κ5 & E4 & E5 & Hst); try done.
  { by rewrite lookup_insert_eq. }
  { apply Forall_lookup. intros j b Hj. by eapply byte_of_range, Hbytes. }
  { by rewrite Hram. }
  rewrite Hram in Hst. by exists κ3, κ4, κ5.
Qed.
End files.

(** ** A process with a path and two buffers in memory *)

(** The path ram/log at 0x5000, five bytes at 0x5008, and room at 0x5010. *)
Definition user_ram : kmem :=
  {[0x5000 := 0x00676f6c2f6d6172; 0x5008 := 0x0504030201; 0x5010 := 0]}.
Definition log_path : list Z := [0x72; 0x61; 0x6d; 0x2f; 0x6c; 0x6f; 0x67].
Definition log_idle : vfs nat ram := Vfs false (Some [MkMount "ram"%string 0%nat]) (Some []) 4 {[0%nat := log_files]}.
Definition one_process : list (option Process) := Some (proc_of 0 0x1000 Running Idle) :: replicate 63 None.
Definition user_state : kernel nat ram := Kernel user_ram no_mm no_heap log_idle one_process 0 1 true 0 1.

(** Bytes in memory, decided. *)
Fixpoint bytes_in (m : kmem) (a : Z) (l : list Z) : bool :=
  match l with
  | [] => true
  | b :: l => bool_decide (byte_of m a = Some b) && bytes_in m (a + 1) l
  end.

Lemma bytes_in_ok m a l : bytes_in m a l = true → bytes_at m a l.
Proof.
  revert a. induction l as [|b l IH]; intros a Hb i c Hi; [done|]. cbn [bytes_in] in Hb. apply andb_true_iff in Hb as [Hb Hl].
  apply bool_decide_eq_true in Hb. destruct i as [|i]; [injection Hi as <-; by rewrite Z.add_0_r|].
  rewrite <- (IH (a + 1) Hl i c Hi). f_equal. lia.
Qed.

Lemma user_runs : runs user_state (proc_of 0 0x1000 Running Idle).
Proof. split; [exact eq_refl|cbn; unfold MAX_PROCESSES; lia|exact eq_refl|exact eq_refl]. Qed.

Lemma log_idle_tables : tables_ok log_idle.
Proof.
  split; [|intros ns [= <-]; split; [apply NoDup_nil; done|split; [cbn; lia|constructor]]|cbn; lia].
  intros ms [= <-]. split; [apply NoDup_singleton|cbn; unfold MAX_MOUNTS; lia].
Qed.

Lemma user_request : file_request user_state (proc_of 0 0x1000 Running Idle) 3 0x5000 log_path "ram" "log" 0%nat (abs log_files).
Proof.
  split.
  - exact user_runs.
  - vm_compute. reflexivity.
  - split; [lia|split; discriminate|apply bytes_in_ok; vm_compute; reflexivity|exact eq_refl].
  - vm_compute. reflexivity.
  - exact eq_refl.
  - exact log_idle_tables.
  - exists []. split; [exact eq_refl|cbn; unfold MAX_NODES; lia].
  - exact eq_refl.
  - eexists _, _. split; [exact eq_refl|]. split; exact eq_refl.
  - exists log_files. split; [exact eq_refl|]. split; [|exact eq_refl].
    apply (bool_decide_unpack (NoDup (key <$> log_files))). vm_compute. exact I.
  - intros d Hd. assert (abs log_files !! lower "log" = Some [1; 2; 3]) as Hl by (vm_compute; reflexivity).
    rewrite Hl in Hd. injection Hd as <-. exact eq_refl.
Qed.

Lemma file_calls_roundtrip_witness : ∃ r κ1, handle None 3 0x5000 7 O_WRITE user_state = Some (r, κ1) ∧ (r = -1 ∨ r = 3 ∧
  ∃ w κ2, handle None 8 3 0x5008 5 κ1 = Some (w, κ2) ∧ (w = -1 ∨ w = 5 ∧
  ∃ κ3 κ4 κ5, handle None 4 3 0 0 κ2 = Some (0, κ3) ∧ handle None 3 0x5000 7 O_RDONLY κ3 = Some (3, κ4) ∧
    handle None 7 3 0x5010 5 κ4 = Some (5, κ5) ∧ stored user_ram (RAM κ5) 0x5010 [1; 2; 3; 4; 5])).
Proof.
  apply (file_calls_roundtrip None ram_size_typed user_state (proc_of 0 0x1000 Running Idle) 3 0x5000 log_path "ram" "log" 0%nat (abs log_files) [1; 2; 3; 4; 5] 0x5008 0x5010).
  - exact user_request.
  - exact eq_refl.
  - split; exact eq_refl.
  - lia.
  - apply bytes_in_ok. vm_compute. reflexivity.
  - lia.
  - intros x Hx. change (len [1; 2; 3; 4; 5]) with 5 in Hx. assert (x ∈ seqZ 0x5010 5) as Hin by (apply elem_of_seqZ; lia).
    clear Hx. revert x Hin. rewrite <- Forall_forall. apply (bool_decide_unpack _). vm_compute. exact I.
Defined.

Lemma syscall_errors_witness : handle None 9 0 0 0 user_state = Some (ENOSYS, user_state) ∧
  handle None 8 5 0x5008 3 user_state = Some (EBADF, user_state).
Proof.
  destruct (syscall_errors None user_state _ user_runs) as (H1 & _ & _ & _ & _ & H2). split.
  - apply H1. lia.
  - destruct (H2 8 5 0x5008 3) as (_ & _ & _ & H3); [right; exact eq_refl|].
    apply (H3 FD_EMPTY); [lia|lia|lia|vm_compute; reflexivity|exact eq_refl].
Defined.

(** A frame buffer of two by two pixels. *)
Definition screen : Framebuffer := MkFramebuffer 0x6000 2 2 8 32.
Definition screen_state : kernel nat ram :=
  Kernel {[0x6000 := 0; 0x6008 := 0]} no_mm no_heap log_idle one_process 0 1 true 0 1.

Lemma screen_ok : fb_ok screen screen_state.
Proof.
  split; [cbn; lia|cbn; split; [lia|exact eq_refl]|cbn; split; [lia|split; [exact eq_refl|lia]]|].
  intros x Hx. cbn in Hx. assert (x ∈ seqZ 0x6000 16) as Hin by (apply elem_of_seqZ; lia).
  clear Hx. revert x Hin. rewrite <- Forall_forall. apply (bool_decide_unpack _). vm_compute. exact I.
Qed.

Lemma plot_point_bounds_witness : (∃ m', plot_point (Some screen) 1 0 0x11223344 screen_state = Some (0, set_RAM m' screen_state) ∧
    byte_of m' 0x6004 = Some 0x44 ∧ byte_of m' 0x6008 = Some 0) ∧
  plot_point (Some screen) 2 0 0x11223344 screen_state = Some (-1, screen_state).
Proof.
  split.
  - destruct (plot_point_bounds screen screen_state 1 0 0x11223344 screen_ok) as (_ & _ & m' & E & Hb).
    exists m'. split; [exact E|]. split; [rewrite Hb; vm_compute; reflexivity|rewrite Hb; vm_compute; reflexivity].
  - exact (plot_point_bounds screen screen_state 2 0 0x11223344 screen_ok).
Defined.
