(* ===== verification/Descriptors.v ===== *)
(** * Descriptors and open nodes

    System calls, the creation and destruction of processes and the scheduler run
    in any order. The invariant [fds_ok] says that the descriptors of all
    processes and the open nodes of the VFS correspond one to one. *)
From S2P Require Import Prelude Rust Frame Paging KHeap FileSystem Vfs Process Sched Syscall SyscallSpec.

(** ** Lists of lists *)

Lemma concat_insert {A} (l : list (list A)) i x y : l !! i = Some x → concat (<[i := y]> l) ++ x ≡ₚ concat l ++ y.
Proof.
  intros Hi. rewrite <- (take_drop_middle l i x Hi) at 2. rewrite insert_take_drop by (by eapply lookup_lt_Some).
  rewrite !concat_app. cbn [concat]. solve_Permutation.
Qed.

(** The node a descriptor owns: all but the standard streams. *)
Definition own (e : FD) : list Z := if is_empty e || is_special e then [] else [fd_node e].
Definition owned_fds (l : list FD) : list Z := concat (own <$> l).
Definition owned_by (o : option Process) : list Z := match o with Some p => owned_fds (fildes p) | None => [] end.

Lemma owned_fds_insert l i e e' : l !! i = Some e → owned_fds (<[i := e']> l) ++ own e ≡ₚ owned_fds l ++ own e'.
Proof.
  intros Hi. unfold owned_fds. rewrite list_fmap_insert. apply concat_insert. by rewrite list_lookup_fmap, Hi.
Qed.

Lemma filter_ids id ns : NoDup (node_id <$> ns) → id ∈ node_id <$> ns →
  node_id <$> ns ≡ₚ id :: (node_id <$> List.filter (λ n, negb (is_id id n)) ns).
Proof.
  induction ns as [|n ns IH]; [by intros _ ?%not_elem_of_nil|]. rewrite fmap_cons. intros [Hn Hnd]%NoDup_cons Hin. cbn [List.filter].
  unfold is_id at 1. destruct (Z.eqb_spec (node_id n) id) as [He|Hne]; cbn [negb].
  - rewrite He. f_equiv. rewrite He in Hn. clear -Hn. induction ns as [|m ns IH]; [done|]. rewrite fmap_cons in Hn |- *.
    apply not_elem_of_cons in Hn as [Hm Hn]. cbn [List.filter]. unfold is_id at 1. rewrite (proj2 (Z.eqb_neq _ _)) by done. cbn [negb].
    rewrite fmap_cons. f_equiv. by apply IH.
  - apply elem_of_cons in Hin as [?|Hin]; [done|]. rewrite fmap_cons, (IH Hnd Hin). apply perm_swap.
Qed.

Section invariant.
Context {H G : Type} `{!FileSystem H G}.
Implicit Types κ : kernel H G.
Implicit Types σ : vfs H G.

Definition owned κ : list Z := concat (owned_by <$> processes κ).

(** The identifiers of the open nodes. *)
Definition node_ids σ : list Z := node_id <$> default [] (NODE_TABLE σ).

(** A descriptor in use is its only reference. *)
Definition single (e : FD) : Prop := is_empty e = false → ref_count e = 1.

Record fds_ok κ : Prop := {
  fo_clock : clock_ok κ;
  fo_lock : VFS_LOCK (k_vfs κ) = false;
  fo_tables : tables_ok (k_vfs κ);
  fo_own : owned κ ≡ₚ node_ids (k_vfs κ);
  fo_ref i p : 0 ≤ i → proc_at κ i = Some p → Forall single (fildes p);
}.

Lemma owned_slot κ i o o' : processes κ !! i = Some o →
  owned (set_processes (<[i := o']> (processes κ)) κ) ++ owned_by o ≡ₚ owned κ ++ owned_by o'.
Proof.
  intros Hi. unfold owned. cbn [processes set_processes]. rewrite list_fmap_insert. apply concat_insert.
  by rewrite list_lookup_fmap, Hi.
Qed.

Lemma proc_slot κ i p : proc_at κ i = Some p → processes κ !! Z.to_nat i = Some (Some p).
Proof. unfold proc_at. destruct (processes κ !! Z.to_nat i) as [[q|]|]; simpl; congruence. Qed.

(** ** The VFS *)

(** Operations that keep the identifiers of nodes. *)
Definition idkeep {A} (m : ST (vfs H G) A) : Prop := ∀ σ x σ', m σ = Some (x, σ') → node_ids σ' = node_ids σ.

Lemma idkeep_bind {A B} (m : ST (vfs H G) A) (k : A → ST (vfs H G) B) : idkeep m → (∀ x, idkeep (k x)) → idkeep (m ≫= k).
Proof. intros Hm Hk σ y σ' (x & σ1 & E1 & E)%bind_inv. rewrite (Hk _ _ _ _ E). by eapply Hm. Qed.
Lemma idkeep_ret {A} (x : A) : idkeep (mret x).
Proof. by intros σ y σ' [= <- <-]. Qed.
Lemma idkeep_get {A} (f : vfs H G → A) : idkeep (get f).
Proof. by intros σ y σ' [= <- <-]. Qed.
Lemma idkeep_lift {A} (o : option A) : idkeep (lift o).
Proof. intros σ y σ'. unfold lift. destruct o; [|done]. by intros [= <- <-]. Qed.
Lemma idkeep_onfs {A} (m : ST G A) : idkeep (onfs m).
Proof. intros σ y σ'. unfold onfs. destruct (m _) as [[z g]|]; [|done]. by intros [= <- <-]. Qed.
Lemma idkeep_get_fs p : idkeep (get_fs p).
Proof. by intros σ y σ' [= <- <-]. Qed.
Lemma idkeep_get_node id : idkeep (get_node id).
Proof. by intros σ y σ' [= <- <-]. Qed.
Lemma idkeep_put_node id f : (∀ n, node_id (f n) = node_id n) → idkeep (put_node id f).
Proof.
  intros Hf σ [] σ'. unfold put_node, mbind, ST_bind, get, lift, modify, node_ids. destruct (NODE_TABLE σ) as [ns|]; [|done]. simpl.
  destruct (update_first (is_id id) f ns) as [ns'|] eqn:E; [|done]. intros [= <-]. simpl. by eapply update_first_fmap.
Qed.
Lemma idkeep_lock : idkeep vfs_lock.
Proof. intros σ y σ'. unfold vfs_lock. destruct (VFS_LOCK σ); [done|]. by intros [= <- <-]. Qed.

Lemma idkeep_locked {A} (body : ST (vfs H G) A) : idkeep body → idkeep (locked body).
Proof.
  intros Hb. unfold locked. apply idkeep_bind; [apply idkeep_lock|intros _]. apply idkeep_bind; [done|intros x].
  apply idkeep_bind; [by intros σ y σ' [= <- <-]|intros _]. apply idkeep_ret.
Qed.

Ltac idkeep := repeat first [apply idkeep_get_node|apply idkeep_get_fs|apply idkeep_onfs|by apply idkeep_put_node|apply idkeep_lift
  |apply idkeep_ret|apply idkeep_get|apply idkeep_bind; [|intros ?]|case_match].

Lemma idkeep_read id k : idkeep (vfs_read id k).
Proof. apply idkeep_locked. idkeep. Qed.
Lemma idkeep_write id data : idkeep (vfs_write_node id data).
Proof. apply idkeep_locked. idkeep. Qed.

(** What the VFS has to keep for the invariant, and how its nodes change. *)
Definition vfs_fine σ : Prop := VFS_LOCK σ = false ∧ tables_ok σ.

Lemma close_ids σ id r σ' : vfs_fine σ → vfs_close id σ = Some (r, σ') →
  vfs_fine σ' ∧ NEXT_NODE_ID σ' = NEXT_NODE_ID σ ∧ ∀ l, id :: l ≡ₚ node_ids σ → l ≡ₚ node_ids σ'.
Proof.
  intros [Hl Ht] E. assert (tables_ok σ') as Ht'.
  { eapply (keeps_close (NEXT_NODE_ID σ)); [|exact E]. by split. }
  split; [split; [by eapply locked_unlocks|done]|].
  unfold vfs_close, locked in E. apply bind_inv in E as ([] & σ1 & E1 & E). unfold vfs_lock in E1. rewrite Hl in E1. injection E1 as <-.
  apply bind_inv in E as (x & σ2 & E2 & E). apply bind_inv in E as ([] & ? & [= <-] & [= _ <-]).
  apply bind_inv in E2 as (ns & ? & [= <- <-] & E2). change (NODE_TABLE (set_lock true σ)) with (NODE_TABLE σ) in E2.
  unfold node_ids. destruct (NODE_TABLE σ) as [ns|] eqn:Ens.
  - apply bind_inv in E2 as ([] & ? & [= <-] & [= _ <-]). split; [done|]. intros l Hperm. simpl in *.
    destruct (to_nodes _ Ht _ Ens) as (Hnd & _). rewrite (filter_ids id ns Hnd) in Hperm.
    + by apply Permutation_cons_inv in Hperm.
    + rewrite <- Hperm. by left.
  - injection E2 as _ <-. split; [done|]. intros l Hperm. simpl in *. symmetry in Hperm. by apply Permutation_nil_cons in Hperm.
Qed.

(** File sizes are u32. *)
Context (size_typed : ∀ (h : H) n (g : G) s g', get_file_size h n g = Some (Some s, g') → 0 ≤ s < 2 ^ 32).

Lemma open_ids σ path flags mode r σ' : vfs_fine σ → NEXT_NODE_ID σ + 1 < 2 ^ 32 → vfs_open path flags mode σ = Some (r, σ') →
  vfs_fine σ' ∧ NEXT_NODE_ID σ' ≤ NEXT_NODE_ID σ + 1 ∧
  match r with Ok n => node_ids σ' = node_ids σ ++ [node_id n] ∧ 4 ≤ node_id n | Err _ => node_ids σ' = node_ids σ end.
Proof.
  intros [Hl Ht] Hb E. destruct (open_tables size_typed σ path flags mode r σ' (NEXT_NODE_ID σ) Hb) as [Ht' Hn']; [by split|done|].
  unfold vfs_open in E. destruct (split_path path) as [[mnt nm]|] eqn:Ep; [|injection E as <- <-; split; [by split|]; split; [lia|done]].
  split; [split; [by eapply locked_unlocks|done]|]. split; [done|]. unfold locked in E.
  apply bind_inv in E as ([] & σ1 & E1 & E). unfold vfs_lock in E1. rewrite Hl in E1. injection E1 as <-.
  apply bind_inv in E as (x & σ2 & E2 & E). apply bind_inv in E as ([] & ? & [= <-] & [= <- <-]).
  destruct (open_node_inv size_typed _ _ _ _ _ _ _ E2) as [[(err & ->) (_ & Hs & _)]|(ns & k & q & s & Hns & _ & _ & _ & _ & Hns' & ->)].
  - unfold node_ids. cbn [NODE_TABLE set_lock] in *. by rewrite Hs.
  - unfold node_ids. cbn [NODE_TABLE set_lock NEXT_NODE_ID] in *. rewrite Hns, Hns'. cbn [default from_option id node_id].
    split; [by rewrite fmap_app|]. apply (to_next _ Ht).
Qed.

(** ** The kernel *)

(** Calls that touch neither the table nor the VFS. *)
Definition still {A} (m : ST (kernel H G) A) : Prop := ∀ κ x κ', m κ = Some (x, κ') → same_table κ κ' ∧ k_vfs κ' = k_vfs κ.

Lemma still_bind {A B} (m : ST (kernel H G) A) (k : A → ST (kernel H G) B) : still m → (∀ x, still (k x)) → still (m ≫= k).
Proof.
  intros Hm Hk κ y κ' (x & κ1 & E1 & E)%kbind_inv. apply Hm in E1 as [(? & ? & ? & ? & ? & ?) ?].
  apply Hk in E as [(? & ? & ? & ? & ? & ?) ?]. split; [split_and!|]; congruence.
Qed.
Lemma still_ret {A} (x : A) : still (mret x).
Proof. by intros κ y κ' [= <- <-]. Qed.
Lemma still_get {A} (f : kernel H G → A) : still (get f).
Proof. by intros κ y κ' [= <- <-]. Qed.
Lemma still_lift {A} (o : option A) : still (lift o).
Proof. intros κ y κ'. unfold lift. destruct o; [|done]. by intros [= <- <-]. Qed.
Lemma still_panic {A} : still (panic (A := A)).
Proof. by intros κ y κ'. Qed.
Lemma still_load a : still (ram_load a).
Proof. intros κ y κ'. unfold ram_load. destruct (kload _ _); [|done]. by intros [= <- <-]. Qed.
Lemma still_store a w : still (ram_store a w).
Proof. intros κ y κ'. unfold ram_store. destruct (kstore _ _ _); [|done]. by intros [= <- <-]. Qed.
Lemma still_on_heap {A} (m : ST heap A) : still (on_heap m).
Proof. intros κ y κ'. unfold on_heap. destruct (m _) as [[z η]|]; [|done]. by intros [= <- <-]. Qed.
Lemma still_on_mm {A} (m : ST mm A) : still (on_mm m).
Proof. intros κ y κ'. unfold on_mm. destruct (m _) as [[z η]|]; [|done]. by intros [= <- <-]. Qed.
Lemma still_get_slot i : still (get_slot i).
Proof. by intros κ y κ' (-> & _ & _)%get_slot_inv. Qed.

Ltac still := repeat first [apply still_ret|apply still_get|apply still_lift|apply still_panic|apply still_load|apply still_store
  |apply still_on_heap|apply still_on_mm|apply still_get_slot|assumption|apply still_bind; [|intros ?]|case_match].

Lemma still_load_bytes a n : still (load_bytes a n).
Proof. revert a. induction n as [|n IH]; intros a; cbn [load_bytes]; unfold load_byte; still; apply IH. Qed.
Lemma still_load_slice a n : still (load_slice a n).
Proof. unfold load_slice. still. apply still_load_bytes. Qed.
Lemma still_store_slice a l : still (store_slice a l).
Proof. revert a. induction l as [|b l IH]; intros a; cbn [store_slice]; unfold store_field; still; apply IH. Qed.
Lemma still_current : still get_current_process.
Proof. unfold get_current_process. still. Qed.
Lemma still_lookup fd buf count : still (lookup_fd fd buf count).
Proof. unfold lookup_fd. still. Qed.

Definition fds_at (b : Z) κ : Prop := fds_ok κ ∧ NEXT_NODE_ID (k_vfs κ) ≤ b.

(** A change of the VFS that keeps the nodes, and of parts that do not matter. *)
Lemma fds_at_frame b b' κ κ' : same_table κ κ' → vfs_fine (k_vfs κ') → node_ids (k_vfs κ') ≡ₚ node_ids (k_vfs κ) →
  NEXT_NODE_ID (k_vfs κ') ≤ b' → fds_at b κ → fds_at b' κ'.
Proof.
  intros Hs [Hl Ht] Hids Hb [[Hc _ _ Ho Hr] _]. pose proof Hs as (Hp & _). split; [|done]. split; [by eapply same_table_clock|done|done| |].
  - unfold owned. rewrite Hp. by rewrite Hids.
  - intros i p Hi. unfold proc_at. rewrite Hp. by apply Hr.
Qed.

Lemma fds_at_still b {A} (m : ST (kernel H G) A) κ x κ' : still m → fds_at b κ → m κ = Some (x, κ') → fds_at b κ'.
Proof.
  intros Hm Hok E. destruct (Hm _ _ _ E) as [Hs Hv]. pose proof Hok as [[_ Hl Ht _ _] Hb].
  eapply fds_at_frame; [exact Hs|by rewrite Hv; split|by rewrite Hv|by rewrite Hv|exact Hok].
Qed.

(** The current process. *)
Lemma current_inv κ o κ' : get_current_process κ = Some (o, κ') → clock_ok κ → κ' = κ ∧ o = proc_at κ (current κ).
Proof.
  intros (c & ? & [= <- <-] & E)%kbind_inv [Hok _]. pose proof (tk_current _ Hok). pose proof (tk_count _ Hok). unfold MAX_PROCESSES in *.
  rewrite (proj2 (Z.eqb_neq _ _)) in E by (unfold USIZE_MAX; lia). by apply get_slot_inv in E as (-> & _ & ->).
Qed.

(** The descriptors of the current process replaced. *)
Lemma clock_ok_fildes κ p f : clock_ok κ → proc_at κ (current κ) = Some p → length f = 1024%nat →
  clock_ok (put κ (current κ) (set_fildes f p)).
Proof.
  intros [[A1 A2 A3 A4 A5 A6 A7] A8] Hp Hf. split; [|done]. unfold MAX_PROCESSES in *.
  assert (∀ j, 0 ≤ j → proc_at (put κ (current κ) (set_fildes f p)) j = if decide (current κ = j) then Some (set_fildes f p) else proc_at κ j) as Htab.
  { intros j Hj. apply proc_at_put; unfold MAX_PROCESSES; [done|lia|done]. }
  split; try done; cbn [processes put set_processes].
  - by rewrite length_insert.
  - intros j q Hj. rewrite Htab by done. destruct (decide _) as [<-|]; [|by apply A4]. intros [= <-].
    destruct (A4 _ p Hj Hp) as (? & ? & _). done.
  - intros j q Hj. rewrite Htab by done. destruct (decide _) as [<-|]; [done|by apply A5].
  - intros q. rewrite Htab by (cbn; lia). rewrite decide_True by done. intros [= <-]. exact (A7 p Hp).
Qed.

(** The VFS and one descriptor of the current process changed together. *)
Lemma fds_at_update b κ σ p i e e' : fds_ok κ → vfs_fine σ → NEXT_NODE_ID σ ≤ b → proc_at κ (current κ) = Some p →
  fildes p !! i = Some e → single e' → node_ids σ ++ own e ≡ₚ node_ids (k_vfs κ) ++ own e' →
  fds_at b (updated κ σ (set_fildes (<[i := e']> (fildes p)) p)).
Proof.
  intros [Hc Hl Ht Ho Hr] [Hl' Ht'] Hb Hp He Hs Hids. split; [|done]. pose proof (tk_current _ (proj1 Hc)) as Hcur.
  pose proof (tk_count _ (proj1 Hc)) as Hn. destruct (tk_proc _ (proj1 Hc) _ p (proj1 Hcur) Hp) as (_ & _ & Hlen).
  unfold updated. split; [|done|done| |].
  - apply (clock_ok_fildes (set_k_vfs σ κ)); [by eapply clock_ok_eq; [..|exact Hc]|done|]. by rewrite length_insert.
  - pose proof (owned_slot (set_k_vfs σ κ) (Z.to_nat (current κ)) (Some p) (Some (set_fildes (<[i := e']> (fildes p)) p)) (proc_slot _ _ _ Hp)) as H1.
    pose proof (owned_fds_insert (fildes p) i e e' He) as H2. cbn [owned_by fildes set_fildes] in H1.
    change (owned (put (set_k_vfs σ κ) (current κ) ?q)) with (owned (set_processes (<[Z.to_nat (current κ) := Some q]> (processes (set_k_vfs σ κ))) (set_k_vfs σ κ))).
    change (owned (set_k_vfs σ κ)) with (owned κ) in H1. rewrite Ho in H1. cbn [k_vfs put set_processes set_k_vfs].
    apply (Permutation_app_inv_r (owned_fds (fildes p) ++ own e)). rewrite app_assoc, H1, <- app_assoc, H2.
    rewrite !(Permutation_app_comm (owned_fds (fildes p))), !app_assoc. by rewrite Hids.
  - intros j q Hj. rewrite proc_at_put; [|apply (tk_len _ (proj1 Hc))|unfold MAX_PROCESSES in *; cbn; lia|done].
    destruct (decide _) as [_|]; [|exact (Hr j q Hj)]. intros [= <-]. cbn [fildes set_fildes]. apply Forall_insert; [|done].
    exact (Hr _ p (proj1 Hcur) Hp).
Qed.

Lemma own_new id flags : 4 ≤ id → own (MkFD id flags 1) = [id].
Proof. intros Hid. unfold own, is_empty, is_special, STDIN_NODE_ID, STDERR_NODE_ID. cbn [fd_node]. by replace (_ || _) with false by lia. Qed.

Lemma own_empty e : is_empty e = true → own e = [].
Proof. intros He. unfold own. by rewrite He. Qed.

Lemma open_call b ptr n flags κ r κ' : b + 1 < 2 ^ 32 → fds_at b κ → sys_open ptr n flags κ = Some (r, κ') → fds_at (b + 1) κ'.
Proof.
  intros Hb Hok E. assert (fds_at (b + 1) κ) as Hok1 by (destruct Hok; split; [done|lia]). unfold sys_open in E.
  destruct (_ || _ || _); [by injection E as _ <-|]. apply kbind_inv in E as (sl & κ1 & E1 & E).
  pose proof (fds_at_still _ _ _ _ _ (still_load_slice _ _) Hok E1) as Hok2. clear Hok Hok1 E1 κ. destruct (from_utf8 sl) as [path|].
  2:{ injection E as _ <-. destruct Hok2. split; [done|lia]. }
  cbv zeta in E. apply kbind_inv in E as (ro & κ2 & E2 & E). unfold on_vfs in E2.
  destruct (vfs_open path (u32 flags) 0 (k_vfs κ1)) as [[x σ]|] eqn:Eo; [|done]. injection E2 as <- <-.
  pose proof Hok2 as [[Hc Hl Ht Ho Hr] Hbn]. destruct (open_ids _ _ _ _ _ _ (conj Hl Ht) ltac:(lia) Eo) as (Hfine & Hnext & Hids).
  destruct x as [nd|err].
  2:{ injection E as _ <-. eapply (fds_at_frame b); [..|exact Hok2]; cbn; [done|done|by rewrite Hids|lia]. }
  destruct Hids as [Hids H4]. apply kbind_inv in E as (o & κ2 & E2 & E). apply current_inv in E2 as [-> ->]; [|by eapply clock_ok_eq; [..|exact Hc]].
  (* without a descriptor for it, the node is closed again *)
  assert (∀ s κ3, on_vfs (vfs_close (node_id nd)) (set_k_vfs σ κ1) = Some (s, κ3) → fds_at (b + 1) κ3) as Hback.
  { intros s κ3 E3. unfold on_vfs in E3. destruct (vfs_close _ _) as [[y σ3]|] eqn:Ec; [|done]. injection E3 as <- <-.
    destruct (close_ids _ _ _ _ Hfine Ec) as (Hfine3 & Hn3 & Hid3). eapply (fds_at_frame b); [..|exact Hok2]; cbn; [done|done| |cbn in *; lia].
    symmetry. apply Hid3. cbn. rewrite Hids. apply Permutation_cons_append. }
  change (proc_at (set_k_vfs σ κ1) (current (set_k_vfs σ κ1))) with (proc_at κ1 (current κ1)) in E.
  destruct (proc_at κ1 (current κ1)) as [p|] eqn:Ep.
  2:{ apply kbind_inv in E as (s & κ3 & E3 & [= _ <-]). by eapply Hback. }
  unfold open_fd in E. destruct (get_free_fd_index p) as [i|] eqn:Ei; cbn [mbind option_bind] in E.
  2:{ apply kbind_inv in E as (s & κ3 & E3 & [= _ <-]). by eapply Hback. }
  pose proof (tk_current _ (proj1 Hc)) as Hcur. destruct (tk_proc _ (proj1 Hc) _ p (proj1 Hcur) Ep) as (_ & _ & Hlen).
  destruct (free_fd_inv _ _ Ei Hlen) as (_ & e & He & Hem). apply kbind_inv in E as ([] & κ3 & E3 & [= _ <-]).
  apply kbind_inv in E3 as (c & ? & [= <- <-] & [_ ->]%put_slot_inv).
  eapply (fds_at_update (b + 1) κ1 σ p (Z.to_nat i) e (MkFD (node_id nd) (u32 flags) 1)); try done; [lia|].
  rewrite (own_empty e Hem), (own_new _ _ H4), app_nil_r. by rewrite Hids.
Qed.

(** Closing a descriptor in use closes the node it owns. *)
Lemma close_entry_ids e σ e' σ' : vfs_fine σ → ref_count e = 1 → is_empty e = false → close_entry e σ = Some (e', σ') →
  e' = FD_EMPTY ∧ vfs_fine σ' ∧ NEXT_NODE_ID σ' = NEXT_NODE_ID σ ∧ ∀ l, own e ++ l ≡ₚ node_ids σ → l ≡ₚ node_ids σ'.
Proof.
  intros Hf Hrc Hem E. unfold close_entry in E. cbn [fd_node fd_flags ref_count] in E. rewrite Hrc in E.
  change (saturating_sub 1 1 =? 0) with true in E. cbn iota in E. apply bind_inv in E as ([] & σ1 & E1 & [= <- <-]). split; [done|].
  change (is_special (MkFD _ _ _)) with (is_special e) in E1. unfold own. rewrite Hem. destruct (is_special e); cbn [negb orb] in *.
  - by injection E1 as <-.
  - unfold ignore in E1. apply bind_inv in E1 as (s & σ2 & E2 & [= <-]). apply (close_ids _ _ _ _ Hf E2).
Qed.

Lemma close_all_ids fds σ σ' : Forall single fds → vfs_fine σ → close_all fds σ = Some (tt, σ') →
  vfs_fine σ' ∧ NEXT_NODE_ID σ' = NEXT_NODE_ID σ ∧ ∀ l, owned_fds fds ++ l ≡ₚ node_ids σ → l ≡ₚ node_ids σ'.
Proof.
  intros Hs. revert σ. induction Hs as [|e fds He Hs IH]; intros σ Hf E; [by injection E as <-|].
  cbn [close_all] in E. apply bind_inv in E as ([] & σ1 & E1 & E). unfold owned_fds. rewrite fmap_cons. cbn [concat].
  destruct (is_empty e) eqn:Hem; cbn [negb] in E1.
  - injection E1 as <-. rewrite (own_empty e Hem). by apply IH.
  - unfold ignore in E1. apply bind_inv in E1 as (e' & σ2 & E2 & [= <-]).
    destruct (close_entry_ids _ _ _ _ Hf (He Hem) Hem E2) as (_ & Hf2 & Hn2 & Hi2).
    destruct (IH _ Hf2 E) as (Hf3 & Hn3 & Hi3). split; [done|]. split; [congruence|]. intros l Hl. apply Hi3, Hi2. by rewrite app_assoc.
Qed.

(** The nodes of a process and those of the others. *)
Lemma owned_split κ i p : proc_at κ i = Some p →
  owned κ ≡ₚ owned_fds (fildes p) ++ owned (set_processes (<[Z.to_nat i := None]> (processes κ)) κ).
Proof.
  intros Hp. pose proof (owned_slot κ (Z.to_nat i) (Some p) None (proc_slot _ _ _ Hp)) as Ho. cbn [owned_by] in Ho.
  rewrite app_nil_r in Ho. rewrite <- Ho. apply Permutation_app_comm.
Qed.

Lemma close_call b fd κ r κ' : fds_at b κ → sys_close fd κ = Some (r, κ') → fds_at b κ'.
Proof.
  intros Hok E. unfold sys_close in E. destruct (_ || _) eqn:Efd; [by injection E as _ <-|]. apply orb_false_iff in Efd as [Hfd _]. zb.
  apply kbind_inv in E as (o & κ1 & E1 & E). pose proof Hok as [[Hc Hl Ht Ho Hr] Hb]. apply current_inv in E1 as [-> ->]; [|done].
  destruct (proc_at κ (current κ)) as [p|] eqn:Ep; [|by injection E as _ <-]. pose proof (tk_current _ (proj1 Hc)) as Hcur.
  destruct (tk_proc _ (proj1 Hc) _ p (proj1 Hcur) Ep) as (_ & _ & Hlen).
  assert (runs κ p) as Hruns. { split; [apply (tk_len _ (proj1 Hc))| |done|done]. pose proof (tk_count _ (proj1 Hc)). lia. }
  apply kbind_inv in E as ([ok p'] & κ1 & E1 & E). unfold on_vfs in E1. destruct (close_fd p fd (k_vfs κ)) as [[x σ]|] eqn:Ec; [|done].
  injection E1 as -> <-. apply kbind_inv in E as ([] & κ2 & E2 & [= _ <-]).
  apply kbind_inv in E2 as (c & ? & [= <- <-] & [_ ->]%put_slot_inv). cbn [snd]. change (fds_at b (updated κ σ p')).
  assert ((ok, p') = (false, p) ∧ σ = k_vfs κ ∨ ∃ e e', fildes p !! Z.to_nat fd = Some e ∧ is_empty e = false ∧
    close_entry e (k_vfs κ) = Some (e', σ) ∧ p' = set_fildes (<[Z.to_nat fd := e']> (fildes p)) p) as [[[= -> ->] ->]|(e & e' & He & Hem & Ee & ->)].
  { unfold close_fd in Ec. destruct (_ <=? _); [injection Ec as <- <- <-; by left|]. apply bind_inv in Ec as (e & σ1 & E1 & Ec).
    unfold lift in E1. destruct (fildes p !! Z.to_nat fd) as [e0|]; [|done]. injection E1 as <- <-. destruct (is_empty e0) eqn:Hem; [injection Ec as <- <- <-; by left|].
    apply bind_inv in Ec as (e' & σ2 & E2 & [= <- <- <-]). right. by exists e0, e'. }
  - unfold updated. replace (set_k_vfs (k_vfs κ) κ) with κ by (by destruct κ). by rewrite put_same.
  - assert (ref_count e = 1) as Hrc.
    { pose proof (Hr _ p (proj1 Hcur) Ep) as Hall. rewrite Forall_lookup in Hall. by apply (Hall _ _ He). }
    destruct (close_entry_ids _ _ _ _ (conj Hl Ht) Hrc Hem Ee) as (-> & Hf & Hn & Hids).
    eapply (fds_at_update b κ σ p (Z.to_nat fd) e FD_EMPTY); try done; [lia|].
    rewrite (own_empty FD_EMPTY eq_refl), app_nil_r, Permutation_app_comm.
    pose proof (owned_fds_insert (fildes p) (Z.to_nat fd) e FD_EMPTY He) as Hfds. rewrite (own_empty FD_EMPTY eq_refl), app_nil_r in Hfds.
    rewrite <- Ho. rewrite (owned_split κ _ p Ep), <- Hfds, (Permutation_app_comm _ (own e)), <- app_assoc. f_equiv. symmetry. apply Hids.
    by rewrite <- Ho, (owned_split κ _ p Ep), <- Hfds, (Permutation_app_comm _ (own e)), <- app_assoc.
Qed.

Lemma fds_at_on_vfs b {A} (m : ST (vfs H G) A) κ x κ' : idkeep m → keeps (NEXT_NODE_ID (k_vfs κ)) m any →
  (∀ σ y σ', m σ = Some (y, σ') → VFS_LOCK σ' = false) → fds_at b κ → on_vfs m κ = Some (x, κ') → fds_at b κ'.
Proof.
  intros Hid Hk Hl Hok E. unfold on_vfs in E. destruct (m (k_vfs κ)) as [[y σ]|] eqn:Em; [|done]. injection E as <- <-.
  pose proof Hok as [[_ Hl0 Ht0 _ _] Hb]. destruct (Hk _ _ _ (conj Ht0 (Z.le_refl _)) Em) as [[Ht Hn] _].
  eapply (fds_at_frame b b κ); [done|split; [by eapply Hl|done]|cbn; rewrite (Hid _ _ _ Em); reflexivity|cbn; lia|exact Hok].
Qed.

Lemma handle_fds b fb n a1 a2 a3 κ r κ' : b + 1 < 2 ^ 32 → fds_at b κ → handle fb n a1 a2 a3 κ = Some (r, κ') → fds_at (b + 1) κ'.
Proof.
  intros Hb Hok E. assert (∀ κ, fds_at b κ → fds_at (b + 1) κ) as Hup by (intros ? []; split; [done|lia]).
  unfold handle in E. destruct (from_u64 n) as [[]|].
  - apply Hup. eapply fds_at_still; [|exact Hok|exact E]. unfold plot_point, store_field. still.
  - apply Hup. eapply fds_at_still; [|exact Hok|exact E]. still.
  - apply Hup. eapply fds_at_still; [|exact Hok|exact E]. unfold print. still. apply still_load_slice.
  - by eapply open_call.
  - apply Hup. by eapply close_call.
  - apply Hup. eapply fds_at_still; [|exact Hok|exact E]. unfold sys_sbrk. still.
  - apply Hup. eapply fds_at_still; [|exact Hok|exact E]. unfold get_pid. still.
  - apply Hup. unfold sys_read in E. apply kbind_inv in E as (e & κ1 & E1 & E).
    pose proof (fds_at_still _ _ _ _ _ (still_lookup _ _ _) Hok E1) as Hok1. destruct e as [err|e]; [by injection E as _ <-|].
    destruct (_ =? _); [by injection E as _ <-|]. apply kbind_inv in E as (d & κ2 & E2 & E).
    assert (fds_at b κ2) as Hok2.
    { eapply fds_at_on_vfs; [apply idkeep_read|apply keeps_read|intros ? ? ?; apply locked_unlocks|exact Hok1|exact E2]. }
    eapply fds_at_still; [|exact Hok2|exact E]. still. apply still_store_slice.
  - apply Hup. unfold sys_write in E. apply kbind_inv in E as (e & κ1 & E1 & E).
    pose proof (fds_at_still _ _ _ _ _ (still_lookup _ _ _) Hok E1) as Hok1. destruct e as [err|e]; [by injection E as _ <-|].
    apply kbind_inv in E as (d & κ2 & E2 & E). pose proof (fds_at_still _ _ _ _ _ (still_load_slice _ _) Hok1 E2) as Hok2.
    destruct (_ || _); [by injection E as _ <-|]. apply kbind_inv in E as (s & κ3 & E3 & E).
    assert (fds_at b κ3) as Hok3.
    { eapply fds_at_on_vfs; [apply idkeep_write|apply (keeps_write size_typed)|intros ? ? ?; apply locked_unlocks|exact Hok2|exact E3]. }
    destruct s; by injection E as _ <-.
  - apply Hup. by injection E as _ <-.
Qed.

(** ** Processes *)

(** Steps that keep every descriptor and the VFS. *)
Definition fdsame {A} (m : ST (kernel H G) A) : Prop := ∀ κ x κ', m κ = Some (x, κ') →
  k_vfs κ' = k_vfs κ ∧ fmap (M := option) fildes <$> processes κ' = fmap (M := option) fildes <$> processes κ.

Lemma fdsame_bind {A B} (m : ST (kernel H G) A) (k : A → ST (kernel H G) B) : fdsame m → (∀ x, fdsame (k x)) → fdsame (m ≫= k).
Proof. intros Hm Hk κ y κ' (x & κ1 & [H1 H2]%Hm & [H3 H4]%Hk)%kbind_inv. split; congruence. Qed.

Lemma fdsame_still {A} (m : ST (kernel H G) A) : still m → fdsame m.
Proof. intros Hm κ x κ' [(Hp & _) Hv]%Hm. by rewrite Hp. Qed.

(** A process put back with the same descriptors. *)
Lemma put_slot_fds κ i p p' κ' : proc_at κ i = Some p → fildes p' = fildes p → put_slot i (Some p') κ = Some (tt, κ') →
  k_vfs κ' = k_vfs κ ∧ fmap (M := option) fildes <$> processes κ' = fmap (M := option) fildes <$> processes κ.
Proof.
  intros Hp Hf [_ ->]%put_slot_inv. split; [done|]. cbn [processes set_processes]. rewrite list_fmap_insert. apply list_insert_id.
  rewrite list_lookup_fmap, (proc_slot _ _ _ Hp). cbn. by rewrite Hf.
Qed.

Lemma fdsame_update_slot i f : (∀ p, fildes (f p) = fildes p) → fdsame (update_slot i f).
Proof.
  intros Hf κ [] κ' (o & ? & (-> & _ & ->)%get_slot_inv & E)%kbind_inv. destruct (proc_at κ i) as [p|] eqn:Ep; [|by injection E as <-].
  eapply put_slot_fds; [exact Ep|apply Hf|exact E].
Qed.

Lemma fdsame_modify (f : kernel H G → kernel H G) : (∀ κ, k_vfs (f κ) = k_vfs κ ∧ processes (f κ) = processes κ) → fdsame (modify f).
Proof. intros Hf κ [] κ' [= <-]. destruct (Hf κ) as [-> ->]. done. Qed.

Lemma fdsame_for_range lo n (body : Z → ST (kernel H G) unit) : (∀ i, fdsame (body i)) → fdsame (for_range lo n body).
Proof.
  intros Hb. revert lo. induction n as [|n IH]; intros lo; cbn [for_range]; [apply fdsame_still, still_ret|].
  apply fdsame_bind; [apply Hb|]. intros _. apply IH.
Qed.

Lemma still_find_ready cur count off n fallback : still (find_ready cur count off n fallback).
Proof. revert off fallback. induction n as [|n IH]; intros off fallback; cbn [find_ready]; still; apply IH. Qed.

Lemma still_find_next cur allow : still (find_next_ready cur allow).
Proof. unfold find_next_ready. apply still_bind; [apply still_get|intros n]. apply still_bind; [apply still_find_ready|]. intros [[i|] f]; apply still_ret. Qed.

Lemma fdsame_switch cur r next : fdsame (switch_to cur r next).
Proof.
  unfold switch_to. apply fdsame_bind; [apply fdsame_update_slot; intros p; cbn; by destruct (bool_decide _)|intros _].
  intros κ x κ' (o & ? & (-> & _ & ->)%get_slot_inv & E)%kbind_inv. apply kbind_inv in E as (p & ? & E1 & E). unfold lift in E1.
  destruct (proc_at κ next) as [q|] eqn:Eq; [|done]. injection E1 as <- <-. apply kbind_inv in E as ([] & κ1 & E1 & E).
  assert (fdsame (_ ← modify (set_current (H := H) (G := G) next); _ ← load_cr3 (pml4 q); mret (rsp q))) as Hrest.
  { apply fdsame_bind; [by apply fdsame_modify|intros _]. apply fdsame_still. unfold load_cr3. still. }
  destruct (Hrest _ _ _ E) as [-> ->]. by apply (put_slot_fds κ next q (set_state Running q)).
Qed.

Lemma fdsame_schedule r : fdsame (schedule r).
Proof.
  unfold schedule. apply fdsame_bind; [apply fdsame_still, still_get|intros c]. apply fdsame_bind; [apply fdsame_still, still_get_slot|intros p].
  assert (fdsame (s ← find_next_ready (H := H) (G := G) c true; match s with
    | Some next => _ ← modify (set_quantum QUANTUM_TICKS); switch_to c r next | None => mret r end)) as Hnext.
  { apply fdsame_bind; [apply fdsame_still, still_find_next|]. intros [next|]; [|apply fdsame_still, still_ret].
    apply fdsame_bind; [by apply fdsame_modify|intros _]. apply fdsame_switch. }
  destruct (state <$> p) as [[]|]; try (apply fdsame_still, still_ret); try exact Hnext.
  apply fdsame_bind; [apply fdsame_still, still_get|intros q].
  apply fdsame_bind; [destruct (0 <? q); [by apply fdsame_modify|apply fdsame_still, still_ret]|intros _].
  apply fdsame_bind; [apply fdsame_still, still_get|intros q']. destruct (q' =? 0); [|apply fdsame_still, still_ret].
  apply fdsame_bind; [apply fdsame_still, still_find_next|]. intros [next|]; (apply fdsame_bind; [by apply fdsame_modify|intros _]);
    [apply fdsame_switch|apply fdsame_still, still_ret].
Qed.

Lemma fdsame_tick r : fdsame (handle_timer_interrupt r).
Proof.
  unfold handle_timer_interrupt. apply fdsame_bind; [apply fdsame_still, still_get|intros en]. destruct (negb en); [apply fdsame_still, still_ret|].
  apply fdsame_bind; [apply fdsame_still, still_get|intros t]. apply fdsame_bind; [apply fdsame_still, still_lift|intros t'].
  apply fdsame_bind; [by apply fdsame_modify|intros _]. apply fdsame_bind; [apply fdsame_still, still_get|intros n].
  apply fdsame_bind; [|intros _; apply fdsame_schedule].
  apply fdsame_for_range. intros i. unfold wake. apply fdsame_bind; [apply fdsame_still, still_get|intros tk].
  apply fdsame_update_slot. intros p. by destruct (_ && _).
Qed.

Lemma fdsame_sleep a t u : fdsame (sleep_proc a t u).
Proof.
  unfold sleep_proc. do 2 (apply fdsame_bind; [apply fdsame_still, still_lift|intros ?]). cbv zeta.
  apply fdsame_bind; [apply fdsame_still, still_get|intros cur].
  intros κ [] κ' (o & ? & (-> & _ & ->)%get_slot_inv & E)%kbind_inv. destruct (proc_at κ cur) as [p|] eqn:Ep; [|by injection E as <-].
  apply kbind_inv in E as (tk & ? & [= <- <-] & E). apply kbind_inv in E as (w & κ1 & E1 & E). unfold lift in E1.
  destruct (checked _ _); [|done]. injection E1 as <- <-. by eapply put_slot_fds; [exact Ep| |exact E].
Qed.

Lemma fdsame_unblock i : fdsame (unblock_process i).
Proof.
  intros κ [] κ' (o & κ1 & E1 & E)%kbind_inv. unfold get_process in E1. destruct (_ <=? _); [injection E1 as <- <-; by injection E as <-|].
  apply get_slot_inv in E1 as (-> & _ & ->). destruct (proc_at κ i) as [p|] eqn:Ep; [|by injection E as <-].
  destruct (bool_decide _); [|by injection E as <-]. by eapply put_slot_fds; [exact Ep| |exact E].
Qed.

Lemma fds_ok_same κ κ' : clock_ok κ' → k_vfs κ' = k_vfs κ →
  fmap (M := option) fildes <$> processes κ' = fmap (M := option) fildes <$> processes κ → fds_ok κ → fds_ok κ'.
Proof.
  intros Hc' Hv Hp [Hc Hl Ht Ho Hr]. split; [done|by rewrite Hv|by rewrite Hv| |].
  - rewrite Hv, <- Ho. unfold owned. assert (∀ l : list (option Process), owned_by <$> l =
      (λ o : option (list FD), match o with Some f => owned_fds f | None => [] end) <$> (fmap (M := option) fildes <$> l)) as Hf.
    { intros l. rewrite <- list_fmap_compose. apply list_fmap_ext. by intros i [p|] _. }
    by rewrite !Hf, Hp.
  - intros i p Hi Hpr. apply proc_slot in Hpr. apply (f_equal (λ l, l !! Z.to_nat i)) in Hp. rewrite !list_lookup_fmap, Hpr in Hp. cbn in Hp.
    destruct (processes κ !! Z.to_nat i) as [[q|]|] eqn:E; simplify_eq/=. rewrite Hp. apply (Hr i q Hi). unfold proc_at. by rewrite E.
Qed.

Lemma still_push_all r ws : still (push_all r ws).
Proof. revert r. induction ws as [|w ws IH]; intros r; cbn [push_all]; unfold push; still; apply IH. Qed.

Lemma still_setup w base e : still (setup_initial_stack w base e).
Proof.
  unfold setup_initial_stack. do 5 (apply still_bind; [unfold push; apply still_bind; [apply still_store|intros; apply still_ret]|intros ?]).
  apply still_push_all.
Qed.

(** A new process in the table: the standard streams, no nodes. *)
Lemma fds_at_new b κ p : fds_at b κ → proc_at κ (PROCESS_COUNT κ) = None → PROCESS_COUNT κ < MAX_PROCESSES → fildes p = initial_fildes →
  clock_ok (set_pcount (PROCESS_COUNT κ + 1) (put κ (PROCESS_COUNT κ) p)) → fds_at b (set_pcount (PROCESS_COUNT κ + 1) (put κ (PROCESS_COUNT κ) p)).
Proof.
  intros [[Hc Hl Ht Ho Hr] Hb] Hnone Hlt Hf Hc'. pose proof (tk_count _ (proj1 Hc)) as Hn. split; [|done]. split; [done|done|done| |].
  - cbn [k_vfs set_pcount put set_processes]. rewrite <- Ho. set (i := PROCESS_COUNT κ) in *.
    assert (processes κ !! Z.to_nat i = Some None) as Hi.
    { unfold proc_at in Hnone. destruct (lookup_lt_is_Some_2 (processes κ) (Z.to_nat i)) as [o Hi].
      - rewrite (tk_len _ (proj1 Hc)). unfold MAX_PROCESSES in *. lia.
      - rewrite Hi in Hnone |- *. by destruct o. }
    pose proof (owned_slot κ _ None (Some p) Hi) as Hs. cbn [owned_by] in Hs. rewrite Hf, app_nil_r in Hs.
    change (owned_fds initial_fildes) with (@nil Z) in Hs. rewrite app_nil_r in Hs. done.
  - intros j q Hj. change (proc_at (set_pcount ?n ?k) j) with (proc_at k j). rewrite proc_at_put; [|apply (tk_len _ (proj1 Hc))|lia|done].
    destruct (decide _); [|by apply Hr]. intros [= <-]. rewrite Hf. apply Forall_app. split; [by repeat constructor|].
    by apply Forall_replicate.
Qed.

Lemma create_fds b w e κ r κ' : fds_at b κ → create_process w e κ = Some (r, κ') → fds_at b κ'.
Proof.
  intros Hok E0. pose proof (stays_create w e κ r κ' (fo_clock _ (proj1 Hok)) E0) as Hc'. pose proof E0 as E.
  apply kbind_inv in E as (n & ? & [= <- <-] & E). destruct (Z.leb_spec MAX_PROCESSES (PROCESS_COUNT κ)) as [|Hlt]; [by injection E as _ <-|].
  assert (still allocate_kernel_stack) as Hst by (unfold allocate_kernel_stack, alloc_zeroed; still).
  apply kbind_inv in E as (o & κ1 & E1 & E). pose proof (fds_at_still _ _ _ _ _ Hst Hok E1) as Hok1.
  apply Hst in E1 as [(_ & _ & Hn1 & _) _]. destruct o as [base|]; [|by injection E as _ <-].
  apply kbind_inv in E as (rs & κ2 & E2 & E). pose proof (fds_at_still _ _ _ _ _ (still_setup _ _ _) Hok1 E2) as Hok2.
  apply still_setup in E2 as [(_ & _ & Hn2 & _) _]. apply kbind_inv in E as (o & κ3 & E3 & E).
  pose proof (fds_at_still _ _ _ _ _ (still_on_mm _) Hok2 E3) as Hok3. apply still_on_mm in E3 as [(_ & _ & Hn3 & _) _].
  destruct o as [u|]; [|by injection E as _ <-]. apply kbind_inv in E as ([] & κ4 & [_ ->]%put_slot_inv & E).
  apply kbind_inv in E as (m & ? & E4 & E). unfold lift in E4. destruct (checked 64 _) as [m'|] eqn:Em; [|done].
  apply checked_inv in Em as [-> _]. injection E4 as <- <-. apply kbind_inv in E as ([] & ? & [= <-] & [= _ <-]).
  rewrite <- Hn1, <- Hn2, <- Hn3 in *. apply fds_at_new; [done| |congruence|done|exact Hc'].
  destruct (proc_at κ3 (PROCESS_COUNT κ3)) as [q|] eqn:Eq; [|done]. pose proof (fo_clock _ (proj1 Hok3)) as [Htk _]. pose proof (tk_count _ Htk).
  destruct (tk_proc _ Htk (PROCESS_COUNT κ3) q) as (_ & ? & _); [lia|done|lia].
Qed.

Lemma destroy_fds b i κ r κ' : 0 ≤ i → fds_at b κ → destroy_process i κ = Some (r, κ') → fds_at b κ'.
Proof.
  intros Hi Hok E0. pose proof (stays_destroy i Hi κ r κ' (fo_clock _ (proj1 Hok)) E0) as Hc'. pose proof E0 as E. unfold destroy_process in E.
  destruct (Z.leb_spec MAX_PROCESSES i) as [|Hlt]; [by injection E as _ <-|].
  apply kbind_inv in E as (o & ? & (-> & _ & ->)%get_slot_inv & E). apply kbind_inv in E as ([] & κ1 & [_ ->]%put_slot_inv & E).
  pose proof Hok as [[Hc Hl Ht Ho Hr] Hb]. destruct (proc_at κ i) as [p|] eqn:Ep.
  2:{ injection E as _ <-. split; [|done]. eapply (fds_ok_same κ); [exact Hc'|done| |by destruct Hok].
      cbn [processes set_processes]. rewrite list_fmap_insert. apply list_insert_id. rewrite list_lookup_fmap.
      unfold proc_at in Ep. destruct (lookup_lt_is_Some_2 (processes κ) (Z.to_nat i)) as [x Hx].
      - rewrite (tk_len _ (proj1 Hc)). unfold MAX_PROCESSES in *. lia.
      - rewrite Hx in Ep |- *. by destruct x. }
  set (κ1 := set_processes _ κ) in *. apply kbind_inv in E as ([] & κ2 & E2 & E). unfold on_vfs in E2.
  destruct (close_all (fildes p) (k_vfs κ1)) as [[[] σ]|] eqn:Eca; [|done]. injection E2 as <-.
  destruct (close_all_ids _ _ _ (Hr i p Hi Ep) (conj Hl Ht) Eca) as (Hf & Hn & Hids).
  assert (owned κ1 ≡ₚ node_ids σ) as Hown by (apply Hids; by rewrite <- Ho, (owned_split κ i p Ep)).
  assert (still (if negb (stack_base p =? 0) then on_heap (LinkAllocator.dealloc (stack_base p)) else mret tt)) as Hst by still.
  apply kbind_inv in E as ([] & κ3 & E3 & E). apply Hst in E3 as [(Hp3 & _) Hv3].
  apply kbind_inv in E as (c & ? & [= <- <-] & E). apply kbind_inv in E as ([] & κ4 & E4 & [= _ <-]).
  assert (k_vfs κ4 = σ ∧ processes κ4 = processes κ1) as [Hv4 Hp4].
  { destruct (_ =? _); injection E4 as <-; by rewrite ?Hv3, ?Hp3. }
  assert (∀ j, proc_at κ4 j = proc_at κ1 j) as Hpr by (intros j; unfold proc_at; by rewrite Hp4).
  destruct Hf as [Hf1 Hf2]. split; [|rewrite Hv4; cbn in Hn; lia]. split; [done|by rewrite Hv4|by rewrite Hv4| |].
  - rewrite Hv4, <- Hown. unfold owned. by rewrite Hp4.
  - intros j q Hj. rewrite Hpr. unfold κ1. rewrite proc_at_gone; [|apply (tk_len _ (proj1 Hc))|lia|done].
    destruct (decide _); [done|]. by apply Hr.
Qed.

Lemma cleanup_fds b κ κ' : fds_at b κ → cleanup_terminated_processes κ = Some (tt, κ') → fds_at b κ'.
Proof.
  intros Hok (n & ? & [= <- <-] & E)%kbind_inv. remember 0 as lo eqn:Hlo in E. assert (0 ≤ lo) as H0 by lia. clear Hlo.
  revert E Hok H0. generalize (Z.to_nat (PROCESS_COUNT κ)) as k. intros k. revert κ lo. induction k as [|k IH]; intros κ lo E Hok Hlo; cbn [for_range] in E; [by injection E as <-|].
  apply kbind_inv in E as ([] & κ1 & E1 & E). apply (IH _ _ E); [|lia]. clear IH E.
  apply kbind_inv in E1 as (o & ? & (-> & _ & ->)%get_slot_inv & E1). destruct (proc_at κ lo) as [p|] eqn:Ep; [|by injection E1 as <-].
  destruct (bool_decide _); [|by injection E1 as <-]. destruct (tk_proc _ (proj1 (fo_clock _ (proj1 Hok))) lo p Hlo Ep) as (Hpid & _).
  rewrite Hpid in E1. apply kbind_inv in E1 as (x & κ2 & E1 & [= <-]). by eapply destroy_fds.
Qed.

Lemma event_fds b w ev κ κ' : event_ok ev → fds_at b κ → do_event w ev κ = Some (tt, κ') → fds_at b κ'.
Proof.
  intros Hev Hok E. pose proof (stays_event w ev Hev κ tt κ' (fo_clock _ (proj1 Hok)) E) as Hc'.
  assert (fdsame (do_event w ev) → fds_at b κ') as Hsame.
  { intros Hs. destruct (Hs _ _ _ E) as [Hv Hp]. destruct Hok as [Hok Hb]. split; [|by rewrite Hv]. by eapply (fds_ok_same κ). }
  destruct ev; cbn [do_event] in *.
  - apply Hsame. unfold quiet. apply fdsame_bind; [apply fdsame_tick|intros; apply fdsame_still, still_ret].
  - apply Hsame. unfold yield_process. apply fdsame_bind; [apply fdsame_still, still_get|intros c].
    apply fdsame_bind; [by apply fdsame_update_slot|intros; by apply fdsame_modify].
  - apply Hsame. unfold block_current. apply fdsame_bind; [apply fdsame_still, still_get|intros c]. by apply fdsame_update_slot.
  - apply Hsame. apply fdsame_unblock.
  - apply Hsame. apply fdsame_sleep.
  - apply Hsame. apply fdsame_sleep.
  - apply Hsame. unfold process_exit. apply fdsame_bind; [apply fdsame_still, still_get|intros c]. by apply fdsame_update_slot.
  - apply Hsame. unfold exit_current_process. apply fdsame_bind; [apply fdsame_still, still_get|intros c]. by apply fdsame_update_slot.
  - apply kbind_inv in E as (r & κ1 & E & [= <-]). by eapply create_fds.
  - apply kbind_inv in E as (r & κ1 & E & [= <-]). by eapply destroy_fds.
  - by eapply cleanup_fds.
  - apply Hsame. by apply fdsame_modify.
  - apply Hsame. by apply fdsame_modify.
Qed.

(** ** Runs *)
Context (fb : option Framebuffer) (process_entry_wrapper : Z).

Inductive kstep := Call (n a1 a2 a3 : Z) | Event (ev : event).

Definition do_kstep (s : kstep) : ST (kernel H G) unit :=
  match s with
  | Call n a1 a2 a3 => quiet (handle fb n a1 a2 a3)
  | Event ev => do_event process_entry_wrapper ev
  end.

Fixpoint do_ksteps (ss : list kstep) : ST (kernel H G) unit :=
  match ss with
  | [] => mret tt
  | s :: ss => _ ← do_kstep s; do_ksteps ss
  end.

Definition kstep_ok (s : kstep) : Prop := match s with Call _ _ _ _ => True | Event ev => event_ok ev end.

Lemma ksteps_fds ss b κ κ' : Forall kstep_ok ss → b + Z.of_nat (length ss) < 2 ^ 32 → fds_at b κ → do_ksteps ss κ = Some (tt, κ') →
  fds_at (b + Z.of_nat (length ss)) κ'.
Proof.
  intros Hss. revert b κ. induction Hss as [|s ss Hs Hss IH]; intros b κ Hb Hok E; cbn [do_ksteps length] in *.
  - injection E as <-. by rewrite Z.add_0_r.
  - apply kbind_inv in E as ([] & κ1 & E1 & E). replace (b + Z.of_nat (S (length ss))) with (b + 1 + Z.of_nat (length ss)) by lia.
    apply (IH (b + 1) κ1); [lia| |done]. destruct s as [n a1 a2 a3|ev]; cbn [do_kstep] in E1.
    + apply kbind_inv in E1 as (r & κ2 & E1 & [= <-]). eapply handle_fds; [lia|exact Hok|exact E1].
    + destruct (event_fds _ _ _ _ _ Hs Hok E1). split; [done|lia].
Qed.

(** The kernel before its first process: nothing is open. *)
Record nothing_open κ : Prop := {
  ne_table : empty_table κ;
  ne_lock : VFS_LOCK (k_vfs κ) = false;
  ne_tables : tables_ok (k_vfs κ);
  ne_nodes : node_ids (k_vfs κ) = [];
  ne_next : NEXT_NODE_ID (k_vfs κ) = 4;
}.

Lemma start_fds r es κ κ' : nothing_open κ → start process_entry_wrapper r es κ = Some (tt, κ') → fds_at 4 κ'.
Proof.
  intros [Hem Hl Ht Hn Hx] E. unfold start in E. apply kbind_inv in E as ([] & κ1 & E1 & E).
  destruct (init_kernel_process_ok _ _ _ Hem E1) as [Hok1 Hc1]. assert (fds_at 4 κ1) as Hf1.
  { apply kbind_inv in E1 as (k & κ0 & E0 & E1). apply still_on_mm in E0 as [(Hp0 & _) Hv0].
    apply kbind_inv in E1 as ([] & κ2 & [_ ->]%put_slot_inv & E1). apply kbind_inv in E1 as ([] & ? & [= <-] & [= <-]).
    split; [|cbn; rewrite Hv0, Hx; lia]. split; [done|cbn; by rewrite Hv0|cbn; by rewrite Hv0| |].
    - cbn. rewrite Hv0, Hn. unfold owned. cbn [processes set_pcount set_current set_processes]. rewrite Hp0, (em_processes _ Hem). done.
    - intros i p Hi Hp. unfold proc_at in Hp. cbn [processes set_pcount set_current set_processes] in Hp. rewrite Hp0, (em_processes _ Hem) in Hp.
      destruct (decide (i = 0)) as [->|Hne].
      + injection Hp as <-. apply Forall_app. split; [by repeat constructor|]. by apply Forall_replicate.
      + rewrite list_lookup_insert_ne in Hp by lia. destruct (replicate 64 None !! Z.to_nat i) as [o|] eqn:Eo; [|done].
        apply lookup_replicate in Eo as [-> _]. done. }
  apply kbind_inv in E as ([] & κ2 & E2 & E).
  assert (fds_at 4 κ2 ∧ current κ2 = 0) as [Hf2 Hc2].
  { split; [|rewrite (creates_current _ _ _ _ E2); done]. clear E E1 Hok1 Hc1. revert κ1 Hf1 E2.
    induction es as [|e es IH]; intros κ1 Hf1 E2; [by injection E2 as <-|]. rewrite fmap_cons in E2. cbn [do_events] in E2.
    apply kbind_inv in E2 as ([] & κ3 & E3 & E2). apply (IH κ3); [|done]. by eapply (event_fds 4 _ (Create e)). }
  apply kbind_inv in E as ([] & κ3 & E3 & [= <-]). pose proof (init_scheduler_ok _ _ (fo_clock _ (proj1 Hf2)) Hc2 E3) as Hok3.
  assert (fdsame init_scheduler) as Hs.
  { unfold init_scheduler. apply fdsame_bind; [apply fdsame_still, still_get|intros n]. destruct (n =? 0); [apply fdsame_still, still_ret|].
    apply fdsame_bind; [by apply fdsame_modify|intros _]. apply fdsame_bind; [by apply fdsame_modify|intros _]. by apply fdsame_update_slot. }
  destruct (Hs _ _ _ E3) as [Hv3 Hp3]. destruct Hf2 as [Hf2 Hb2]. split; [|cbn; by rewrite Hv3].
  eapply (fds_ok_same κ2); [by eapply clock_ok_eq; [..|exact Hok3]|done|done|done].
Qed.

(** C10. Descriptors and open nodes correspond one to one. From the start of the
    kernel, when nothing is open, whatever system calls processes make, with
    whatever arguments, and however processes are created, destroyed and
    scheduled in between, the open nodes of the VFS are exactly the nodes that the
    descriptors of the processes name, each by one descriptor: no node is shared,
    left open without an owner or closed under one. The lock of the VFS is free
    after each step. *)
Theorem descriptors_own_nodes r es ss κ κ' : nothing_open κ → Forall kstep_ok ss → 4 + Z.of_nat (length ss) < 2 ^ 32 →
  (_ ← start process_entry_wrapper r es; do_ksteps ss) κ = Some (tt, κ') →
  VFS_LOCK (k_vfs κ') = false ∧ owned κ' ≡ₚ node_ids (k_vfs κ') ∧ NoDup (owned κ').
Proof.
  intros Hn Hss Hb ([] & κ1 & E1 & E)%kbind_inv. pose proof (start_fds _ _ _ _ Hn E1) as Hok.
  destruct (ksteps_fds _ _ _ _ Hss Hb Hok E) as [[_ Hl Ht Ho _] _]. split; [done|]. split; [done|]. rewrite Ho.
  unfold node_ids. destruct (NODE_TABLE (k_vfs κ')) as [ns|] eqn:Ens; [|by apply NoDup_nil]. by destruct (to_nodes _ Ht ns Ens).
Qed.
End invariant.

(** ** A run

    The kernel starts, its process opens a file twice, writes, closes one
    descriptor and leaves the other open. *)
Definition quiet_state : kernel nat ram := Kernel user_ram no_mm no_heap log_idle (replicate 64 None) USIZE_MAX 0 false 0 QUANTUM_TICKS.
Definition some_calls : list kstep :=
  [Call 3 0x5000 7 O_WRITE; Call 3 0x5000 7 O_RDONLY; Event (Tick 0); Call 8 3 0x5008 5; Call 4 3 0 0; Call 4 9 0 0; Event Yield].
Abbreviation after_calls := ((_ ← start 0 0x1000 []; do_ksteps None 0 some_calls) quiet_state).

Lemma quiet_state_ok : nothing_open quiet_state.
Proof. split; [split; [exact eq_refl|cbn; lia|exact eq_refl]|exact eq_refl|exact log_idle_tables|exact eq_refl|exact eq_refl]. Qed.

Lemma descriptors_own_nodes_witness : ∃ κ', after_calls = Some (tt, κ') ∧ owned κ' = [5] ∧
  VFS_LOCK (k_vfs κ') = false ∧ owned κ' ≡ₚ node_ids (k_vfs κ') ∧ NoDup (owned κ').
Proof.
  assert ((λ p, owned (snd p)) <$> after_calls = Some [5]) as Hrun by (vm_compute; reflexivity).
  destruct after_calls as [[[] κ']|] eqn:E; [|discriminate Hrun]. injection Hrun as Hrun. exists κ'.
  split; [exact eq_refl|]. split; [exact Hrun|].
  apply (descriptors_own_nodes ram_size_typed None 0 0x1000 [] some_calls quiet_state κ' quiet_state_ok); [|exact eq_refl|exact E].
  repeat constructor.
Defined.
