(* ===== verification/Disk.v ===== *)
(** * Sectors of a disk

    The interface of the IDE driver (ide/src/lib.rs) that the file systems call,
    as the class [Disk], and what they rely on as [DiskLaws]: a call for one sector
    returns; when it reports success the sector was read or written; it changes no
    other sector; and it reports success for a sector that is [ready], on a device
    that answers. The driver may fail for others. A disk in memory is an instance. *)
From S2P Require Import Prelude Rust.

Class Disk (D : Type) := {
  (** [ide_read_sectors(drive, lba, buffer)]: the error code, and the buffer after. *)
  ide_read_sectors : Z → Z → Z → ST D (Z * list Z);
  ide_write_sectors : Z → Z → list Z → ST D Z;
  (** [IDE_DEVICES[drive].size], in sectors; there are four. *)
  device_size : D → Z → Z;
}.

Class DiskLaws (D : Type) `{!Disk D} := {
  sector : D → Z → Z → list Z;
  ready : D → Z → Z → Prop;
  sector_len δ d l : length (sector δ d l) = 512%nat;
  sector_bytes δ d l : Forall is_byte (sector δ d l);
  read_law drive lba δ : 0 ≤ drive < 4 → 0 ≤ lba < 2 ^ 48 → wp (ide_read_sectors drive lba 512) (λ r δ',
    (∀ d l, sector δ' d l = sector δ d l) ∧ (∀ d l, ready δ d l → ready δ' d l) ∧
    (fst r = 0 → snd r = sector δ drive lba) ∧ (ready δ drive lba → fst r = 0)) δ;
  write_law drive lba data δ : 0 ≤ drive < 4 → 0 ≤ lba < 2 ^ 48 → length data = 512%nat → Forall is_byte data →
    wp (ide_write_sectors drive lba data) (λ r δ',
      (∀ d l, (d, l) ≠ (drive, lba) → sector δ' d l = sector δ d l) ∧ (∀ d l, ready δ d l → ready δ' d l) ∧
      (r = 0 → sector δ' drive lba = data) ∧ (ready δ drive lba → r = 0)) δ;
}.

(** ** A disk in memory

    Four drives of [rd_size] sectors; those never written hold zeroes. *)
Record ramdisk := RamDisk { rd_sectors : gmap (Z * Z) (list Z); rd_size : Z }.

Definition blank : list Z := replicate 512 0.
Definition rd_sector (δ : ramdisk) (d l : Z) : list Z :=
  match rd_sectors δ !! (d, l) with
  | Some s => if bool_decide (length s = 512%nat ∧ Forall is_byte s) then s else blank
  | None => blank
  end.

#[global] Instance is_byte_dec b : Decision (is_byte b).
Proof. unfold is_byte. apply _. Defined.

#[global] Instance ramdisk_Disk : Disk ramdisk := {|
  ide_read_sectors := λ d l n δ, Some ((if (0 <=? l) && (l <? rd_size δ) then 0 else 3, rd_sector δ d l), δ);
  ide_write_sectors := λ d l data δ,
    if (0 <=? l) && (l <? rd_size δ) then Some (0, RamDisk (<[(d, l) := data]> (rd_sectors δ)) (rd_size δ)) else Some (3, δ);
  device_size := λ δ _, rd_size δ;
|}.

Lemma blank_bytes : Forall is_byte blank.
Proof. apply Forall_replicate. unfold is_byte. lia. Qed.

#[global] Program Instance ramdisk_Laws : DiskLaws ramdisk := {| sector := rd_sector; ready δ d l := 0 ≤ l < rd_size δ |}.
Next Obligation. intros δ d l. unfold rd_sector. destruct (rd_sectors δ !! _); [|done]. case_bool_decide; [naive_solver|done]. Qed.
Next Obligation.
  intros δ d l. unfold rd_sector. destruct (rd_sectors δ !! _); [|apply blank_bytes]. case_bool_decide; [naive_solver|apply blank_bytes].
Qed.
Next Obligation. intros d l δ _ _. unfold wp. cbn. split_and!; try done. intros Hl. by replace (_ && _) with true by lia. Qed.
Next Obligation.
  intros d l data δ _ _ Hl Hb. unfold wp. cbn. destruct (_ && _) eqn:E; cbn; split_and!; try done; try lia.
  - intros d' l' Hne. unfold rd_sector. simpl. by rewrite lookup_insert_ne.
  - intros _. unfold rd_sector. simpl. rewrite lookup_insert_eq. by rewrite bool_decide_true.
Qed.
