(* ===== verification/Fat12.v ===== *)
(** * The FAT12 driver

    Models fat12/src/lib.rs over any [Disk], and its adapter [Fat12Driver] of
    vfs/src/lib.rs: the parameter block, directory entries with their 8.3 names,
    the table of 12-bit entries that link clusters, and every operation on files
    and directories. The statics of the crate are the record [fat].

    A walk along a chain of clusters gets [CHAIN] rounds. Only clusters 2 to 0xFF6
    are followed, so a walk that visits none twice ends before, and one that
    visits a cluster twice never ends ([None]). Memory for vectors does not run
    out; what is printed is left out. *)
From Stdlib Require Import Ascii.
From S2P Require Import Prelude Rust FileSystem Disk.

Definition SECTOR_SIZE : Z := 512.
Definition FAT12_EOF : Z := 0xFF8.
Definition FAT12_BAD_CLUSTER : Z := 0xFF7.
Definition FAT12_FREE_CLUSTER : Z := 0x000.
Definition DIR_ENTRY_DELETED : Z := 0xE5.
Definition DIR_ENTRY_END : Z := 0x00.
Definition ATTR_DIRECTORY : Z := 0x10.
Definition ATTR_VOLUME_ID : Z := 0x08.
Definition ATTR_LFN : Z := 0x0F.
Definition ATTR_ARCHIVE : Z := 0x20.

(** ** The parameter block *)

Record BiosParameterBlock := MkBPB {
  jmp_boot : list Z;
  oem_name : list Z;
  bytes_per_sector : Z;
  sectors_per_cluster : Z;
  reserved_sectors : Z;
  num_fats : Z;
  root_entry_count : Z;
  total_sectors_16 : Z;
  media_type : Z;
  fat_size_16 : Z;
  sectors_per_track : Z;
  num_heads : Z;
  hidden_sectors : Z;
  total_sectors_32 : Z;
  drive_number : Z;
  reserved1 : Z;
  boot_signature : Z;
  volume_id : Z;
  volume_label : list Z;
  bpb_fs_type : list Z;
}.

(** The integer of [n] bytes at an offset. *)
Definition field (l : list Z) (off : nat) (n : nat) : Z := from_le (take n (drop off l)).

(** The packed struct at the start of a sector. *)
Definition read_bpb (l : list Z) : BiosParameterBlock :=
  MkBPB (take 3 l) (take 8 (drop 3 l)) (field l 11 2) (field l 13 1) (field l 14 2) (field l 16 1) (field l 17 2) (field l 19 2)
    (field l 21 1) (field l 22 2) (field l 24 2) (field l 26 2) (field l 28 4) (field l 32 4) (field l 36 1) (field l 37 1)
    (field l 38 1) (field l 39 4) (take 11 (drop 43 l)) (take 8 (drop 54 l)).

(** ** Directory entries *)

Record DirectoryEntry := MkEntry {
  de_name11 : list Z;
  attributes : Z;
  reserved : Z;
  creation_time_tenth : Z;
  creation_time : Z;
  creation_date : Z;
  last_access_date : Z;
  first_cluster_high : Z;
  last_mod_time : Z;
  last_mod_date : Z;
  first_cluster : Z;
  file_size : Z;
}.

Definition read_entry (l : list Z) : DirectoryEntry :=
  MkEntry (take 11 l) (field l 11 1) (field l 12 1) (field l 13 1) (field l 14 2) (field l 16 2) (field l 18 2) (field l 20 2)
    (field l 22 2) (field l 24 2) (field l 26 2) (field l 28 4).

Definition entry_bytes (e : DirectoryEntry) : list Z :=
  de_name11 e ++ to_le 1 (attributes e) ++ to_le 1 (reserved e) ++ to_le 1 (creation_time_tenth e) ++ to_le 2 (creation_time e)
  ++ to_le 2 (creation_date e) ++ to_le 2 (last_access_date e) ++ to_le 2 (first_cluster_high e) ++ to_le 2 (last_mod_time e)
  ++ to_le 2 (last_mod_date e) ++ to_le 2 (first_cluster e) ++ to_le 4 (file_size e).

Definition set_name11 (n : list Z) (e : DirectoryEntry) : DirectoryEntry :=
  MkEntry n (attributes e) (reserved e) (creation_time_tenth e) (creation_time e) (creation_date e) (last_access_date e)
    (first_cluster_high e) (last_mod_time e) (last_mod_date e) (first_cluster e) (file_size e).
Definition set_file (c s : Z) (e : DirectoryEntry) : DirectoryEntry :=
  MkEntry (de_name11 e) (attributes e) (reserved e) (creation_time_tenth e) (creation_time e) (creation_date e) (last_access_date e)
    (first_cluster_high e) (last_mod_time e) (last_mod_date e) c s.

Definition name0 (e : DirectoryEntry) : Z := default 0 (de_name11 e !! 0%nat).
Definition is_empty (e : DirectoryEntry) : bool := name0 e =? DIR_ENTRY_END.
Definition is_deleted (e : DirectoryEntry) : bool := name0 e =? DIR_ENTRY_DELETED.
Definition is_lfn (e : DirectoryEntry) : bool := attributes e =? ATTR_LFN.
Definition is_directory (e : DirectoryEntry) : bool := negb (Z.land (attributes e) ATTR_DIRECTORY =? 0).
Definition is_volume_id (e : DirectoryEntry) : bool := negb (Z.land (attributes e) ATTR_VOLUME_ID =? 0).
Definition visible (e : DirectoryEntry) : bool := negb (is_deleted e) && negb (is_lfn e) && negb (is_volume_id e).

(** [String::push(b as char)]: the code point in UTF-8. *)
Definition char_bytes (b : Z) : list Z :=
  if b <? 0x80 then [b] else [Z.lor 0xC0 (Z.shiftr b 6); Z.lor 0x80 (Z.land b 0x3F)].

Fixpoint before_space (l : list Z) : list Z :=
  match l with
  | [] => []
  | b :: l => if b =? 32 then [] else b :: before_space l
  end.

Definition get_name (e : DirectoryEntry) : Result string :=
  if is_empty e || is_deleted e || is_lfn e || is_volume_id e then Err "Invalid entry"
  else
    let base := before_space (take 8 (de_name11 e)) in
    let ext := List.filter (λ b, negb (b =? 32)) (take 3 (drop 8 (de_name11 e))) in
    Ok (to_string (concat (char_bytes <$> base) ++ match ext with [] => [] | _ => 46 :: concat (char_bytes <$> ext) end)).

(** [str::split('.')]. *)
Fixpoint split_dot (l : list Z) : list (list Z) :=
  match l with
  | [] => [[]]
  | b :: l =>
      if b =? 46 then [] :: split_dot l
      else match split_dot l with [] => [[b]] | p :: ps => (b :: p) :: ps end
  end.

Definition upper_byte (b : Z) : Z := if (97 <=? b) && (b <=? 122) then b - 32 else b.

(** [n] bytes, the rest spaces. *)
Definition pad (n : nat) (l : list Z) : list Z := l ++ replicate (n - length l) 32.

(** The name field [set_name] writes. *)
Definition encode_name (filename : string) : Result (list Z) :=
  match split_dot (bytes_of filename) with
  | [name_part; ext_part] =>
      if (8 <? len name_part) || (3 <? len ext_part) then Err "Filename too long"
      else Ok (pad 8 (upper_byte <$> name_part) ++ pad 3 (upper_byte <$> ext_part))
  | [name_part] =>
      if 8 <? len name_part then Err "Filename too long" else Ok (pad 8 (upper_byte <$> name_part) ++ pad 3 [])
  | _ => Err "Invalid filename format"
  end.

Definition set_name (filename : string) (e : DirectoryEntry) : Result DirectoryEntry :=
  match encode_name filename with Ok n => Ok (set_name11 n e) | Err err => Err err end.

Definition new_entry (attr first size : Z) : DirectoryEntry := MkEntry (replicate 11 32) attr 0 0 0 0 0 0 0 0 first size.
Definition new_file (name : string) (first size : Z) : Result DirectoryEntry := set_name name (new_entry ATTR_ARCHIVE first size).
Definition new_directory (name : string) (first : Z) : Result DirectoryEntry := set_name name (new_entry ATTR_DIRECTORY first 0).

(** [e.get_name()] is Ok and equal to the name without case. *)
Definition has_name (filename : string) (e : DirectoryEntry) : bool :=
  match get_name e with Ok n => eq_ignore_ascii_case n filename | Err _ => false end.

(** The first element in [p], with its index. *)
Fixpoint find_index {A} (p : A → bool) (l : list A) : option (nat * A) :=
  match l with
  | [] => None
  | x :: l => if p x then Some (0%nat, x) else (λ r, (S (fst r), snd r)) <$> find_index p l
  end.

(** The entries of a directory, up to the first one that is not used, without
    those that are not files or directories. *)
Fixpoint scan_entries (l : list Z) (off : Z) (n : nat) : option (list DirectoryEntry * bool) :=
  match n with
  | O => Some ([], false)
  | S n =>
      b ← slice l off (off + 32);
      let e := read_entry b in
      if is_empty e then Some ([], true)
      else
        r ← scan_entries l (off + 32) n;
        Some (if visible e then e :: fst r else fst r, snd r)
  end.

(** Entries written from an offset on. *)
Fixpoint put_entries (l : list Z) (off : Z) (es : list DirectoryEntry) : option (list Z) :=
  match es with
  | [] => Some l
  | e :: es => l ← patch l off (entry_bytes e); put_entries l (off + 32) es
  end.

Definition CHAIN : nat := 4096.

Section fat12.
Context {D : Type} `{!Disk D}.

Record fat := Fat {
  FAT_LOCK : bool;
  FAT_INITIALIZED : bool;
  FAT_DRIVE : Z;
  BPB : BiosParameterBlock;
  FAT_START_SECTOR : Z;
  ROOT_DIR_START_SECTOR : Z;
  DATA_START_SECTOR : Z;
  ROOT_DIR_SECTORS : Z;
  FAT_CACHE : list Z;
  disk : D;
}.

Definition set_fat_lock (b : bool) (φ : fat) : fat :=
  Fat b (FAT_INITIALIZED φ) (FAT_DRIVE φ) (BPB φ) (FAT_START_SECTOR φ) (ROOT_DIR_START_SECTOR φ) (DATA_START_SECTOR φ)
    (ROOT_DIR_SECTORS φ) (FAT_CACHE φ) (disk φ).
Definition set_cache (c : list Z) (φ : fat) : fat :=
  Fat (FAT_LOCK φ) (FAT_INITIALIZED φ) (FAT_DRIVE φ) (BPB φ) (FAT_START_SECTOR φ) (ROOT_DIR_START_SECTOR φ) (DATA_START_SECTOR φ)
    (ROOT_DIR_SECTORS φ) c (disk φ).
Definition set_disk (δ : D) (φ : fat) : fat :=
  Fat (FAT_LOCK φ) (FAT_INITIALIZED φ) (FAT_DRIVE φ) (BPB φ) (FAT_START_SECTOR φ) (ROOT_DIR_START_SECTOR φ) (DATA_START_SECTOR φ)
    (ROOT_DIR_SECTORS φ) (FAT_CACHE φ) δ.

Definition on_disk {A} (m : ST D A) : ST fat A :=
  λ φ, match m (disk φ) with Some (x, δ) => Some (x, set_disk δ φ) | None => None end.

Definition fat_lock : ST fat unit := λ φ, if FAT_LOCK φ then None else Some (tt, set_fat_lock true φ).
Definition fat_unlock : ST fat unit := modify (set_fat_lock false).

(** [fat_lock(); let result = (|| body)(); fat_unlock(); result]. *)
Definition fat_locked {A} (body : ST fat A) : ST fat A :=
  _ ← fat_lock;
  result ← body;
  _ ← fat_unlock;
  mret result.

(** ** Runs of sectors *)

(** The loop that reads [n] sectors into a buffer, with its error. *)
Fixpoint read_run (err : string) (drive lba : Z) (n : nat) : ST fat (Result (list Z)) :=
  match n with
  | O => mret (Ok [])
  | S n =>
      r ← on_disk (ide_read_sectors drive lba SECTOR_SIZE);
      if negb (fst r =? 0) then mret (Err err)
      else
        rest ←r read_run err drive (lba + 1) n;
        mret (Ok (snd r ++ rest))
  end.

(** The loop that writes [n] sectors from a buffer. *)
Fixpoint write_run (err : string) (drive lba : Z) (data : list Z) (i : Z) (n : nat) : ST fat (Result unit) :=
  match n with
  | O => mret (Ok tt)
  | S n =>
      s ← lift (slice data (i * SECTOR_SIZE) ((i + 1) * SECTOR_SIZE));
      r ← on_disk (ide_write_sectors drive (lba + i) s);
      if negb (r =? 0) then mret (Err err) else write_run err drive lba data (i + 1) n
  end.

Definition cluster_to_sector (cluster : Z) : ST fat Z :=
  start ← get DATA_START_SECTOR;
  spc ← get (λ φ, sectors_per_cluster (BPB φ));
  c ← lift (checked 64 (cluster - 2));
  lift (checked 64 (start + c * spc)).

Definition cluster_size (φ : fat) : Z := sectors_per_cluster (BPB φ) * SECTOR_SIZE.

Definition read_cluster_unlocked (cluster : Z) : ST fat (Result (list Z)) :=
  sector ← cluster_to_sector cluster;
  spc ← get (λ φ, sectors_per_cluster (BPB φ));
  drive ← get FAT_DRIVE;
  read_run "Failed to read cluster" drive sector (Z.to_nat spc).

Definition write_cluster_unlocked (cluster : Z) (data : list Z) : ST fat (Result unit) :=
  sector ← cluster_to_sector cluster;
  spc ← get (λ φ, sectors_per_cluster (BPB φ));
  cs ← get cluster_size;
  let copy_len := Z.min (len data) cs in
  padded ← lift (patch (replicate (Z.to_nat cs) 0) 0 (take (Z.to_nat copy_len) data));
  drive ← get FAT_DRIVE;
  write_run "Failed to write cluster" drive sector padded 0 (Z.to_nat spc).

Definition read_root_directory_unlocked : ST fat (Result (list DirectoryEntry)) :=
  n ← get ROOT_DIR_SECTORS;
  start ← get ROOT_DIR_START_SECTOR;
  drive ← get FAT_DRIVE;
  root_data ←r read_run "Failed to read root directory" drive start (Z.to_nat n);
  count ← get (λ φ, root_entry_count (BPB φ));
  r ← lift (scan_entries root_data 0 (Z.to_nat count));
  mret (Ok (fst r)).

Definition write_root_directory_unlocked (entries : list DirectoryEntry) : ST fat (Result unit) :=
  n ← get ROOT_DIR_SECTORS;
  root_data ← lift (put_entries (replicate (Z.to_nat (n * SECTOR_SIZE)) 0) 0 entries);
  start ← get ROOT_DIR_START_SECTOR;
  drive ← get FAT_DRIVE;
  write_run "Failed to write root directory" drive start root_data 0 (Z.to_nat n).

(** The copies of the table after the first one. *)
Fixpoint flush_copies (fat_num : Z) (n : nat) : ST fat (Result unit) :=
  match n with
  | O => mret (Ok tt)
  | S n =>
      start ← get FAT_START_SECTOR;
      size ← get (λ φ, fat_size_16 (BPB φ));
      cache ← get FAT_CACHE;
      drive ← get FAT_DRIVE;
      _ ←r write_run "Failed to write backup FAT" drive (start + fat_num * size) cache 0 (Z.to_nat size);
      flush_copies (fat_num + 1) n
  end.

Definition flush_fat_unlocked : ST fat (Result unit) :=
  start ← get FAT_START_SECTOR;
  size ← get (λ φ, fat_size_16 (BPB φ));
  cache ← get FAT_CACHE;
  drive ← get FAT_DRIVE;
  _ ←r write_run "Failed to write FAT" drive start cache 0 (Z.to_nat size);
  n ← get (λ φ, num_fats (BPB φ));
  flush_copies 1 (Z.to_nat (n - 1)).

(** ** The table *)

Definition get_fat_entry (cluster : Z) : ST fat Z :=
  cache ← get FAT_CACHE;
  let off := cluster * 3 / 2 in
  b0 ← lift (cache !! Z.to_nat off);
  b1 ← lift (cache !! Z.to_nat (off + 1));
  let val := from_le [b0; b1] in
  mret (if Z.land cluster 1 =? 0 then Z.land val 0x0FFF else Z.shiftr val 4).

(** [FAT_CACHE[i] = b]. *)
Definition put_byte (i b : Z) : ST fat unit :=
  cache ← get FAT_CACHE;
  if i <? len cache then modify (set_cache (<[Z.to_nat i := b]> cache)) else panic.

Definition get_byte (i : Z) : ST fat Z := cache ← get FAT_CACHE; lift (cache !! Z.to_nat i).

Definition set_fat_entry (cluster value : Z) : ST fat unit :=
  let off := cluster * 3 / 2 in
  if Z.land cluster 1 =? 0 then
    _ ← put_byte off (Z.land value 0xFF);
    b ← get_byte (off + 1);
    put_byte (off + 1) (Z.lor (Z.land b 0xF0) (Z.land (Z.shiftr value 8) 0x0F))
  else
    b ← get_byte off;
    _ ← put_byte off (Z.lor (Z.land b 0x0F) (u8 (Z.shiftl (Z.land value 0x0F) 4)));
    put_byte (off + 1) (Z.land (Z.shiftr value 4) 0xFF).

Definition allocate_cluster : ST fat (Result Z) :=
  r ← find_range 2 (Z.to_nat (0xFF0 - 2)) (λ cluster,
    v ← get_fat_entry cluster;
    if v =? FAT12_FREE_CLUSTER then _ ← set_fat_entry cluster FAT12_EOF; mret (Some cluster) else mret None);
  mret (ok_or r "No free clusters").

Fixpoint free_chain (fuel : nat) (cluster : Z) : ST fat unit :=
  match fuel with
  | O => panic
  | S fuel =>
      if (2 <=? cluster) && (cluster <? FAT12_BAD_CLUSTER) then
        next ← get_fat_entry cluster;
        _ ← set_fat_entry cluster FAT12_FREE_CLUSTER;
        if FAT12_EOF <=? next then mret tt else free_chain fuel next
      else mret tt
  end.

Definition free_cluster_chain (first : Z) : ST fat unit := free_chain CHAIN first.

Fixpoint count_free (cluster : Z) (n : nat) : ST fat Z :=
  match n with
  | O => mret 0
  | S n =>
      v ← get_fat_entry cluster;
      r ← count_free (cluster + 1) n;
      mret (if v =? FAT12_FREE_CLUSTER then r + 1 else r)
  end.

Definition count_free_clusters : ST fat Z := count_free 2 (Z.to_nat (0xFF0 - 2)).

(** ** Directories and chains *)

Definition find_entry_unlocked (filename : string) : ST fat (Result DirectoryEntry) :=
  entries ←r read_root_directory_unlocked;
  mret (ok_or (List.find (has_name filename) entries) "File not found").

Definition find_entry_with_index_unlocked (filename : string) : ST fat (Result (nat * DirectoryEntry)) :=
  entries ←r read_root_directory_unlocked;
  mret (ok_or (find_index (has_name filename) entries) "File not found").

Fixpoint read_subdir (fuel : nat) (cluster : Z) : ST fat (Result (list DirectoryEntry)) :=
  match fuel with
  | O => panic
  | S fuel =>
      if (cluster <? 2) || (FAT12_BAD_CLUSTER <=? cluster) then mret (Ok [])
      else
        data ←r read_cluster_unlocked cluster;
        r ← lift (scan_entries data 0 (Z.to_nat (len data / 32)));
        if snd r : bool then mret (Ok (fst r))
        else
          next ← get_fat_entry cluster;
          if FAT12_EOF <=? next then mret (Ok (fst r))
          else
            rest ←r read_subdir fuel next;
            mret (Ok (fst r ++ rest))
  end.

Definition read_subdirectory_unlocked (first : Z) : ST fat (Result (list DirectoryEntry)) := read_subdir CHAIN first.

(** The loop of [write_subdirectory_unlocked], for the clusters that are left. *)
Fixpoint write_subdir (cluster : Z) (dir_data : list Z) (chunk : Z) (more : nat) : ST fat (Result unit) :=
  cs ← get cluster_size;
  s ← lift (slice dir_data (chunk * cs) (chunk * cs + cs));
  _ ←r write_cluster_unlocked cluster s;
  next ← get_fat_entry cluster;
  match more with
  | O =>
      _ ← (if next <? FAT12_EOF then free_cluster_chain next else mret tt);
      _ ← set_fat_entry cluster FAT12_EOF;
      mret (Ok tt)
  | S more =>
      if FAT12_EOF <=? next then
        new_cluster ←r allocate_cluster;
        _ ← set_fat_entry cluster new_cluster;
        write_subdir new_cluster dir_data (chunk + 1) more
      else write_subdir next dir_data (chunk + 1) more
  end.

Definition write_subdirectory_unlocked (first : Z) (entries : list DirectoryEntry) : ST fat (Result unit) :=
  cs ← get cluster_size;
  let entries_per_cluster := cs / 32 in
  if entries_per_cluster =? 0 then panic
  else
    let clusters_needed := (len entries + 1 + entries_per_cluster - 1) / entries_per_cluster in
    dir_data ← lift (put_entries (replicate (Z.to_nat (clusters_needed * cs)) 0) 0 entries);
    write_subdir first dir_data 0 (Z.to_nat (clusters_needed - 1)).

Fixpoint allocate_clusters (n : nat) : ST fat (Result (list Z)) :=
  match n with
  | O => mret (Ok [])
  | S n => c ←r allocate_cluster; cs ←r allocate_clusters n; mret (Ok (c :: cs))
  end.

(** Each cluster linked to the next one, and the last one to the end; without
    clusters the index underflows. *)
Fixpoint link_clusters (cs : list Z) : ST fat unit :=
  match cs with
  | [] => panic
  | [c] => set_fat_entry c FAT12_EOF
  | c :: ((d :: _) as cs) => _ ← set_fat_entry c d; link_clusters cs
  end.

Fixpoint write_clusters (cs : list Z) (data : list Z) (off : Z) : ST fat (Result unit) :=
  match cs with
  | [] => mret (Ok tt)
  | c :: cs =>
      size ← get cluster_size;
      s ← lift (slice data off (Z.min (off + size) (len data)));
      _ ←r write_cluster_unlocked c s;
      write_clusters cs data (off + size)
  end.

Definition allocate_and_write_chain (data : list Z) : ST fat (Result (list Z)) :=
  size ← get cluster_size;
  if size =? 0 then panic
  else
    let num_clusters := (len data + size - 1) / size in
    clusters ←r allocate_clusters (Z.to_nat num_clusters);
    _ ← link_clusters clusters;
    _ ←r write_clusters clusters data 0;
    mret (Ok clusters).

(** ** Operations *)

Definition fat12_init (drive : Z) : ST fat (Result unit) :=
  fat_locked (
    b ← on_disk (ide_read_sectors drive 0 SECTOR_SIZE);
    if negb (fst b =? 0) then mret (Err "Failed to read boot sector")
    else
      let boot_sector := snd b in
      let bpb := read_bpb boot_sector in
      if negb ((field boot_sector 510 1 =? 0x55) && (field boot_sector 511 1 =? 0xAA)) then mret (Err "Invalid boot sector signature")
      else if negb (bool_decide (take 5 (bpb_fs_type bpb) = bytes_of "FAT12")) &&
              negb ((bytes_per_sector bpb =? 512) && (0 <? sectors_per_cluster bpb)) then mret (Err "Not a FAT12 filesystem")
      else
        let fat_start := reserved_sectors bpb in
        m ← lift (checked 32 (bytes_per_sector bpb - 1));
        let root_dir_sectors := (root_entry_count bpb * 32 + m) / bytes_per_sector bpb in
        let root_dir_start := fat_start + num_fats bpb * fat_size_16 bpb in
        let data_start := root_dir_start + root_dir_sectors in
        fat_cache ←r read_run "Failed to read FAT" drive fat_start (Z.to_nat (fat_size_16 bpb));
        _ ← modify (λ φ, Fat (FAT_LOCK φ) true drive bpb fat_start root_dir_start data_start root_dir_sectors fat_cache (disk φ));
        mret (Ok tt)).

(** The loop of [fat12_read_file]. *)
Fixpoint read_chain (fuel : nat) (cluster : Z) : ST fat (Result (list Z)) :=
  match fuel with
  | O => panic
  | S fuel =>
      if (cluster <? 2) || (FAT12_BAD_CLUSTER <=? cluster) then mret (Ok [])
      else
        data ←r read_cluster_unlocked cluster;
        next ← get_fat_entry cluster;
        if FAT12_EOF <=? next then mret (Ok data)
        else
          rest ←r read_chain fuel next;
          mret (Ok (data ++ rest))
  end.

Definition fat12_read_file (filename : string) : ST fat (Result (list Z)) :=
  fat_locked (
    entry ←r find_entry_unlocked filename;
    if file_size entry =? 0 then mret (Ok [])
    else
      data ←r read_chain CHAIN (first_cluster entry);
      mret (Ok (take (Z.to_nat (file_size entry)) data))).

Definition fat12_create_file (filename : string) (data : list Z) : ST fat (Result unit) :=
  fat_locked (
    init ← get FAT_INITIALIZED;
    if negb init then mret (Err "FAT12 not initialized")
    else if len data =? 0 then mret (Err "Cannot create empty file")
    else
      clusters ←r allocate_and_write_chain data;
      entries ←r read_root_directory_unlocked;
      if existsb (has_name filename) entries then mret (Err "File already exists")
      else
        c0 ← lift (clusters !! 0%nat);
        match new_file filename c0 (u32 (len data)) with
        | Err err => mret (Err err)
        | Ok e =>
            _ ←r write_root_directory_unlocked (entries ++ [e]);
            flush_fat_unlocked
        end).

(** [entries[index] = e]. *)
Definition put_entry (entries : list DirectoryEntry) (index : nat) (f : DirectoryEntry → DirectoryEntry) : option (list DirectoryEntry) :=
  e ← entries !! index; Some (<[index := f e]> entries).

Definition fat12_write_file (filename : string) (data : list Z) : ST fat (Result unit) :=
  fat_locked (
    init ← get FAT_INITIALIZED;
    if negb init then mret (Err "FAT12 not initialized")
    else
      ie ←r find_entry_with_index_unlocked filename;
      _ ← free_cluster_chain (first_cluster (snd ie));
      entries ←r read_root_directory_unlocked;
      if len data =? 0 then
        entries ← lift (put_entry entries (fst ie) (set_file 0 0));
        _ ←r write_root_directory_unlocked entries;
        flush_fat_unlocked
      else
        clusters ←r allocate_and_write_chain data;
        c0 ← lift (clusters !! 0%nat);
        entries ← lift (put_entry entries (fst ie) (set_file c0 (u32 (len data))));
        _ ←r write_root_directory_unlocked entries;
        flush_fat_unlocked).

Definition fat12_append_file (filename : string) (data : list Z) : ST fat (Result unit) :=
  existing ←r fat12_read_file filename;
  fat12_write_file filename (existing ++ data).

Definition fat12_rename_file (old_name new_name : string) : ST fat (Result unit) :=
  fat_locked (
    init ← get FAT_INITIALIZED;
    if negb init then mret (Err "FAT12 not initialized")
    else
      entries ←r read_root_directory_unlocked;
      if existsb (has_name new_name) entries then mret (Err "Destination filename already exists")
      else
        ie ←r find_entry_with_index_unlocked old_name;
        e ← lift (entries !! fst ie);
        match set_name new_name e with
        | Err err => mret (Err err)
        | Ok e => write_root_directory_unlocked (<[fst ie := e]> entries)
        end).

(** [name[0] = DIR_ENTRY_DELETED]. *)
Definition mark_deleted (e : DirectoryEntry) : DirectoryEntry := set_name11 (<[0%nat := DIR_ENTRY_DELETED]> (de_name11 e)) e.

(** The end of both deletions. *)
Definition remove_entry (index : nat) (first : Z) : ST fat (Result unit) :=
  _ ← free_cluster_chain first;
  entries ←r read_root_directory_unlocked;
  entries ← lift (put_entry entries index mark_deleted);
  _ ←r write_root_directory_unlocked entries;
  flush_fat_unlocked.

Definition fat12_delete_file (filename : string) : ST fat (Result unit) :=
  fat_locked (
    ie ←r find_entry_with_index_unlocked filename;
    remove_entry (fst ie) (first_cluster (snd ie))).

Definition fat12_create_directory (dirname : string) : ST fat (Result unit) :=
  fat_locked (
    init ← get FAT_INITIALIZED;
    if negb init then mret (Err "FAT12 not initialized")
    else
      entries ←r read_root_directory_unlocked;
      if existsb (has_name dirname) entries then mret (Err "Directory already exists")
      else
        cluster ←r allocate_cluster;
        cs ← get cluster_size;
        let dot := set_name11 (pad 11 [46]) (new_entry ATTR_DIRECTORY cluster 0) in
        let dotdot := set_name11 (pad 11 [46; 46]) (new_entry ATTR_DIRECTORY 0 0) in
        dir_data ← lift (put_entries (replicate (Z.to_nat cs) 0) 0 [dot; dotdot]);
        _ ←r write_cluster_unlocked cluster dir_data;
        match new_directory dirname cluster with
        | Err err => mret (Err err)
        | Ok e =>
            _ ←r write_root_directory_unlocked (entries ++ [e]);
            flush_fat_unlocked
        end).

Definition non_dot (e : DirectoryEntry) : bool :=
  match get_name e with Ok n => negb (String.eqb n ".") && negb (String.eqb n "..") | Err _ => false end.

Definition fat12_delete_directory (dirname : string) : ST fat (Result unit) :=
  fat_locked (
    ie ←r find_entry_with_index_unlocked dirname;
    if negb (is_directory (snd ie)) then mret (Err "Not a directory")
    else
      sub ←r read_subdirectory_unlocked (first_cluster (snd ie));
      if existsb non_dot sub then mret (Err "Directory not empty")
      else remove_entry (fst ie) (first_cluster (snd ie))).

Definition fat12_list_entries : ST fat (Result (list DirectoryEntry)) := fat_locked read_root_directory_unlocked.

Definition fat12_list_directory (dirname : string) : ST fat (Result (list DirectoryEntry)) :=
  fat_locked (
    entry ←r find_entry_unlocked dirname;
    if negb (is_directory entry) then mret (Err "Not a directory")
    else read_subdirectory_unlocked (first_cluster entry)).

(** [filter_map(|e| e.get_name().ok())]. *)
Definition names_of (es : list DirectoryEntry) : list string :=
  omap (λ e, match get_name e with Ok n => Some n | Err _ => None end) es.

Definition fat12_list_files : ST fat (Result (list string)) :=
  fat_locked (
    entries ←r read_root_directory_unlocked;
    mret (Ok (names_of entries))).

(** [Result::ok]. *)
Definition ok {A} (r : Result A) : option A := match r with Ok x => Some x | Err _ => None end.

Definition fat12_file_exists (filename : string) : ST fat bool :=
  fat_locked (r ← find_entry_unlocked filename; mret (match r with Ok _ => true | Err _ => false end)).
Definition fat12_get_file_size (filename : string) : ST fat (option Z) :=
  fat_locked (r ← find_entry_unlocked filename; mret (file_size <$> ok r)).
Definition fat12_get_attributes (filename : string) : ST fat (option Z) :=
  fat_locked (r ← find_entry_unlocked filename; mret (attributes <$> ok r)).

Definition fat12_stat : ST fat (Z * Z) :=
  fat_locked (
    bpb ← get BPB;
    let total_sectors := if negb (total_sectors_16 bpb =? 0) then total_sectors_16 bpb else total_sectors_32 bpb in
    free ← count_free_clusters;
    mret (total_sectors * SECTOR_SIZE, free * sectors_per_cluster bpb * SECTOR_SIZE)).

(** ** The driver of the VFS *)

Definition fat12_list_dir : ST fat (Result (list VfsDirEntry)) :=
  entries ←r fat12_list_entries;
  mret (Ok (omap (λ e, match get_name e with
    | Ok name => Some (MkVfsDirEntry name (is_directory e) (file_size e))
    | Err _ => None
    end) entries)).

(** [Fat12Driver { drive }]; the drive is not looked at. *)
#[global] Instance Fat12Driver : FileSystem Z fat := {|
  read_file _ := fat12_read_file;
  create_file _ := fat12_create_file;
  write_file _ := fat12_write_file;
  append_file _ := fat12_append_file;
  delete_file _ := fat12_delete_file;
  rename_file _ := fat12_rename_file;
  file_exists _ := fat12_file_exists;
  get_file_size _ := fat12_get_file_size;
  list_dir _ := fat12_list_dir;
  create_dir _ := fat12_create_directory;
  delete_dir _ := fat12_delete_directory;
  stat_fs _ := r ← fat12_stat; mret (MkFsInfo (fst r) (snd r) "FAT12");
|}.
End fat12.
Arguments fat D : clear implicits.
