(* ===== verification/FatTable.v ===== *)
(** * The table of clusters

    Entries of 12 bits packed in bytes, and what the functions of [Fat12] that
    allocate, link and free clusters do to the table as a map from clusters to
    entries. *)
From S2P Require Import Prelude Rust FileSystem Disk Fat12.

(** ** Packed entries *)

(** All pairs below two bounds, for facts on bytes and nibbles. *)
Lemma below_forall (P : Z → bool) n x : forallb P (seqZ 0 n) = true → 0 ≤ x < n → P x = true.
Proof. intros Hall Hx. rewrite forallb_forall in Hall. apply Hall. apply list_elem_of_In, elem_of_seqZ. lia. Qed.

Lemma byte_parts b : is_byte b → Z.land b 0xF0 = b / 16 * 16 ∧ Z.land b 0x0F = b mod 16.
Proof.
  intros Hb. assert ((Z.land b 0xF0 =? b / 16 * 16) && (Z.land b 0x0F =? b mod 16) = true) as H%andb_true_iff.
  { apply (below_forall (λ b, (Z.land b 0xF0 =? b / 16 * 16) && (Z.land b 0x0F =? b mod 16)) 256); [vm_compute; reflexivity|exact Hb]. }
  destruct H. lia.
Qed.

Lemma nibbles_lor x y : 0 ≤ x < 16 → 0 ≤ y < 16 → Z.lor (x * 16) y = x * 16 + y ∧ Z.lor y (x * 16) = x * 16 + y.
Proof.
  intros Hx Hy. assert (Z.lor (x * 16) y = x * 16 + y) as E.
  { pose proof (below_forall (λ x, forallb (λ y, Z.lor (x * 16) y =? x * 16 + y) (seqZ 0 16)) 16 x ltac:(vm_compute; reflexivity) Hx) as H.
    apply Z.eqb_eq. exact (below_forall (λ y, Z.lor (x * 16) y =? x * 16 + y) 16 y H Hy). }
  split; [done|]. by rewrite Z.lor_comm.
Qed.

(** The entry of a cluster: bytes [3k] and half of [3k + 1] for cluster [2k], the
    other half and byte [3k + 2] for the next one. *)
Definition entry_of (t : list Z) (c : Z) : option Z :=
  let off := c * 3 / 2 in
  b0 ← t !! Z.to_nat off;
  b1 ← t !! Z.to_nat (off + 1);
  Some (if Z.even c then b0 + 256 * (b1 mod 16) else b0 / 16 + 16 * b1).

Lemma land_1_even c : 0 ≤ c → (Z.land c 1 =? 0) = Z.even c.
Proof. intros Hc. change 1 with (Z.ones 1). rewrite Z.land_ones by lia. change (2 ^ 1) with 2. by rewrite Zeven_mod. Qed.

Lemma even_cases c : Z.even c = true ∧ (∃ k, c = 2 * k ∧ c * 3 / 2 = 3 * k) ∨ Z.even c = false ∧ ∃ k, c = 2 * k + 1 ∧ c * 3 / 2 = 3 * k + 1.
Proof.
  rewrite Zeven_mod. destruct (Z.eqb_spec (c mod 2) 0) as [H|H]; [left|right]; (split; [done|]).
  - exists (c / 2). divlia.
  - exists (c / 2). divlia.
Qed.

(** The table with an entry changed. *)
Definition with_entry (t : list Z) (c v : Z) : list Z :=
  let off := c * 3 / 2 in
  let b := default 0 (t !! Z.to_nat (if Z.even c then off + 1 else off)) in
  if Z.even c then <[Z.to_nat (off + 1) := b / 16 * 16 + v / 256]> (<[Z.to_nat off := v mod 256]> t)
  else <[Z.to_nat (off + 1) := v / 16]> (<[Z.to_nat off := b mod 16 + v mod 16 * 16]> t).

(** The entry of [c] is in the table. *)
Definition in_table (t : list Z) (c : Z) : Prop := 0 ≤ c ∧ c * 3 / 2 + 1 < len t.

#[global] Instance in_table_dec t c : Decision (in_table t c).
Proof. unfold in_table. apply _. Defined.

Lemma lookup_byte (t : list Z) i : Forall is_byte t → 0 ≤ i < len t → ∃ b, t !! Z.to_nat i = Some b ∧ is_byte b.
Proof.
  intros Ht Hi. unfold len in Hi. destruct (lookup_lt_is_Some_2 t (Z.to_nat i)) as [b Hb]; [lia|]. exists b. split; [done|].
  rewrite Forall_lookup in Ht. by eapply Ht.
Qed.

Lemma in_table_entry t c : Forall is_byte t → in_table t c → ∃ v, entry_of t c = Some v ∧ 0 ≤ v < 4096.
Proof.
  intros Ht [Hc Hin]. assert (0 ≤ c * 3 / 2) by divlia. unfold entry_of. destruct (lookup_byte t (c * 3 / 2) Ht) as (b0 & -> & H0); [lia|].
  destruct (lookup_byte t (c * 3 / 2 + 1) Ht) as (b1 & -> & H1); [lia|]. cbn. eexists. split; [done|]. unfold is_byte in *.
  destruct (Z.even c); divlia.
Qed.

Lemma entry_in_table t c v : 0 ≤ c → entry_of t c = Some v → in_table t c.
Proof.
  intros Hc. unfold entry_of. destruct (t !! Z.to_nat (c * 3 / 2)); [|done]. cbn. destruct (t !! Z.to_nat (c * 3 / 2 + 1)) eqn:E; [|done].
  intros _. apply lookup_lt_Some in E. split; [done|]. unfold len. assert (0 ≤ c * 3 / 2) by divlia. lia.
Qed.

Lemma length_with_entry t c v : length (with_entry t c v) = length t.
Proof. unfold with_entry. destruct (Z.even c); by rewrite !length_insert. Qed.

Lemma with_entry_bytes t c v : Forall is_byte t → in_table t c → 0 ≤ v < 4096 → Forall is_byte (with_entry t c v).
Proof.
  intros Ht [Hc Hin] Hv. assert (0 ≤ c * 3 / 2) by divlia. unfold with_entry.
  destruct (lookup_byte t (if Z.even c then c * 3 / 2 + 1 else c * 3 / 2) Ht) as (b & -> & Hb); [destruct (Z.even c); lia|].
  cbn [default from_option id]. unfold is_byte in *. destruct (Z.even c); (apply Forall_insert; [apply Forall_insert; [done|]|]); divlia.
Qed.

(** An entry changed is read back, and the others are as before. *)
Lemma entry_with t c v c' : Forall is_byte t → in_table t c → 0 ≤ v < 4096 → 0 ≤ c' →
  entry_of (with_entry t c v) c' = if c' =? c then Some v else entry_of t c'.
Proof.
  intros Ht [Hc Hin] Hv Hc'. unfold len in Hin. unfold with_entry, entry_of.
  destruct (even_cases c) as [[-> (k & -> & Ek)]|[-> (k & -> & Ek)]]; rewrite Ek in *;
    (destruct (lookup_byte t (3 * k) Ht) as (b0 & L0 & H0); [unfold len; lia|]);
    (destruct (lookup_byte t (3 * k + 1) Ht) as (b1 & L1 & H1); [unfold len; lia|]); unfold is_byte in *.
  - rewrite L1. cbn [default from_option id]. destruct (Z.eqb_spec c' (2 * k)) as [->|Hne].
    + rewrite Ek. rewrite (list_lookup_insert_ne _ _ (Z.to_nat (3 * k))) by lia. rewrite (list_lookup_insert_eq t) by lia. cbn [mbind option_bind].
      rewrite list_lookup_insert_eq by (rewrite length_insert; lia). cbn [mbind option_bind].
      rewrite Z.even_mul. cbn [Z.even orb]. f_equal. divlia.
    + destruct (even_cases c') as [[-> (k' & -> & Ek')]|[-> (k' & -> & Ek')]]; rewrite Ek' in *.
      * rewrite !list_lookup_insert_ne by lia. done.
      * destruct (Z.eq_dec k' k) as [->|Hk]; [|by rewrite !list_lookup_insert_ne by lia].
        rewrite list_lookup_insert_eq by (rewrite length_insert; lia). rewrite !list_lookup_insert_ne by lia. rewrite L1. cbn [mbind option_bind].
        by replace ((b1 / 16 * 16 + v / 256) / 16) with (b1 / 16) by divlia.
  - destruct (lookup_byte t (3 * k + 1 + 1) Ht) as (b2 & L2 & H2); [unfold len; lia|]. unfold is_byte in *.
    rewrite L1. cbn [default from_option id]. destruct (Z.eqb_spec c' (2 * k + 1)) as [->|Hne].
    + rewrite Ek. rewrite (list_lookup_insert_ne _ _ (Z.to_nat (3 * k + 1))) by lia. rewrite (list_lookup_insert_eq t) by lia. cbn [mbind option_bind].
      rewrite list_lookup_insert_eq by (rewrite length_insert; lia). cbn [mbind option_bind].
      replace (Z.even (2 * k + 1)) with false by (rewrite Z.even_add, Z.even_mul; done). f_equal. divlia.
    + destruct (even_cases c') as [[-> (k' & -> & Ek')]|[-> (k' & -> & Ek')]]; rewrite Ek' in *.
      * destruct (Z.eq_dec k' k) as [->|Hk]; [|by rewrite !list_lookup_insert_ne by lia].
        rewrite (list_lookup_insert_ne _ (Z.to_nat (3 * k + 1 + 1)) (Z.to_nat (3 * k + 1))) by lia.
        rewrite list_lookup_insert_eq by lia. rewrite !list_lookup_insert_ne by lia. rewrite L0, L1. cbn. f_equal. divlia.
      * by rewrite !list_lookup_insert_ne by lia.
Qed.

Section table.
Context {D : Type} `{!Disk D}.
Implicit Types φ : fat D.

Lemma get_entry_eq φ c v : Forall is_byte (FAT_CACHE φ) → 0 ≤ c → entry_of (FAT_CACHE φ) c = Some v → get_fat_entry c φ = Some (v, φ).
Proof.
  intros Ht Hc E. pose proof (entry_in_table _ _ _ Hc E) as [_ Hin]. assert (0 ≤ c * 3 / 2) by divlia. unfold entry_of in E.
  destruct (lookup_byte _ (c * 3 / 2) Ht) as (b0 & L0 & H0); [lia|]. destruct (lookup_byte _ (c * 3 / 2 + 1) Ht) as (b1 & L1 & H1); [lia|].
  rewrite L0, L1 in E. cbn [mbind option_bind] in E. injection E as <-. unfold is_byte in *.
  apply wp_intro_eq. unfold get_fat_entry. apply wp_bind, wp_get. cbv zeta.
  apply wp_bind, (wp_lift b0); [done|]. apply wp_bind, (wp_lift b1); [done|]. apply wp_ret. rewrite land_1_even by done. cbn [from_le].
  split; [|done]. destruct (Z.even c).
  - change 0x0FFF with (Z.ones 12). rewrite Z.land_ones by lia. divlia.
  - rewrite Z.shiftr_div_pow2 by lia. divlia.
Qed.

Lemma wp_put_byte φ i b (Q : unit → fat D → Prop) : i < len (FAT_CACHE φ) →
  Q tt (set_cache (<[Z.to_nat i := b]> (FAT_CACHE φ)) φ) → wp (put_byte i b) Q φ.
Proof. intros Hi HQ. unfold put_byte. apply wp_bind, wp_get. rewrite (proj2 (Z.ltb_lt _ _)) by done. by apply wp_modify. Qed.

Lemma wp_get_byte φ i b (Q : Z → fat D → Prop) : FAT_CACHE φ !! Z.to_nat i = Some b → Q b φ → wp (get_byte i) Q φ.
Proof. intros Hb HQ. unfold get_byte. apply wp_bind, wp_get. by apply (wp_lift b). Qed.

Lemma set_entry_eq φ c v : Forall is_byte (FAT_CACHE φ) → in_table (FAT_CACHE φ) c → 0 ≤ v < 4096 →
  set_fat_entry c v φ = Some (tt, set_cache (with_entry (FAT_CACHE φ) c v) φ).
Proof.
  intros Ht [Hc Hin] Hv. assert (0 ≤ c * 3 / 2) as H0 by divlia. apply wp_intro_eq. unfold set_fat_entry, with_entry. rewrite land_1_even by done.
  assert (len (FAT_CACHE φ) = Z.of_nat (length (FAT_CACHE φ))) as Hl by done. destruct (Z.even c).
  - destruct (lookup_byte _ (c * 3 / 2 + 1) Ht) as (b & L & Hb); [lia|]. rewrite L. cbn [default from_option id].
    apply wp_bind, wp_put_byte; [lia|]. apply wp_bind, (wp_get_byte _ _ b).
    { cbn [FAT_CACHE set_cache]. by rewrite list_lookup_insert_ne by lia. }
    apply wp_put_byte; [cbn [FAT_CACHE set_cache]; unfold len; rewrite length_insert; lia|]. split; [done|]. cbn [FAT_CACHE set_cache].
    unfold set_cache. cbn. f_equal. f_equal.
    + rewrite (proj1 (byte_parts b Hb)). change 0x0F with (Z.ones 4). rewrite Z.land_ones, Z.shiftr_div_pow2 by lia.
      change (2 ^ 4) with 16. change (2 ^ 8) with 256. rewrite (Z.mod_small (v / 256)) by divlia.
      unfold is_byte in Hb. by destruct (nibbles_lor (b / 16) (v / 256) ltac:(divlia) ltac:(divlia)) as [-> _].
    + f_equal. change 0xFF with (Z.ones 8). by rewrite Z.land_ones by lia.
  - destruct (lookup_byte _ (c * 3 / 2) Ht) as (b & L & Hb); [lia|]. rewrite L. cbn [default from_option id].
    apply wp_bind, (wp_get_byte _ _ b); [done|]. apply wp_bind, wp_put_byte; [lia|].
    apply wp_put_byte; [cbn [FAT_CACHE set_cache]; unfold len; rewrite length_insert; lia|]. split; [done|]. cbn [FAT_CACHE set_cache].
    unfold set_cache. cbn. f_equal. f_equal.
    + change 0xFF with (Z.ones 8). rewrite Z.land_ones, Z.shiftr_div_pow2 by lia. change (2 ^ 4) with 16. apply Z.mod_small. divlia.
    + f_equal. rewrite (proj2 (byte_parts b Hb)). change 0x0F with (Z.ones 4). rewrite Z.land_ones by lia. change (2 ^ 4) with 16.
      rewrite Z.shiftl_mul_pow2 by lia. change (2 ^ 4) with 16. rewrite u8_small by divlia.
      destruct (nibbles_lor (v mod 16) (b mod 16) ltac:(divlia) ltac:(divlia)) as [_ ->]. lia.
Qed.

(** Entries of the table are 12 bits, two to three bytes. Writing one that lies
    in the table returns; reading it gives the value back, every other entry reads
    as before, and nothing but the table changes. *)
Theorem fat_entry_roundtrip φ c v : Forall is_byte (FAT_CACHE φ) → in_table (FAT_CACHE φ) c → 0 ≤ v < 4096 →
  ∃ t', set_fat_entry c v φ = Some (tt, set_cache t' φ) ∧ length t' = length (FAT_CACHE φ) ∧ Forall is_byte t' ∧
    get_fat_entry c (set_cache t' φ) = Some (v, set_cache t' φ) ∧
    ∀ c', c' ≠ c → in_table (FAT_CACHE φ) c' → ∃ v', get_fat_entry c' φ = Some (v', φ) ∧
      get_fat_entry c' (set_cache t' φ) = Some (v', set_cache t' φ).
Proof.
  intros Ht Hin Hv. exists (with_entry (FAT_CACHE φ) c v). pose proof (with_entry_bytes _ _ _ Ht Hin Hv) as Ht'.
  split; [by apply set_entry_eq|]. split; [apply length_with_entry|]. split; [done|]. split.
  - apply get_entry_eq; [done|apply Hin|]. cbn [FAT_CACHE set_cache]. rewrite entry_with by (done || apply Hin). by rewrite Z.eqb_refl.
  - intros c' Hne Hin'. destruct (in_table_entry _ _ Ht Hin') as (v' & E & _). exists v'. split; [apply get_entry_eq; [done|apply Hin'|done]|].
    apply get_entry_eq; [done|apply Hin'|]. cbn [FAT_CACHE set_cache]. rewrite entry_with by (done || apply Hin').
    by rewrite (proj2 (Z.eqb_neq _ _)) by done.
Qed.

(** ** Chains *)

(** The clusters a walk follows. *)
Definition clus (c : Z) : Prop := 2 ≤ c < FAT12_BAD_CLUSTER.

(** The clusters [l] are linked in this order, and the last one ends the chain. *)
Fixpoint chain (t : list Z) (l : list Z) : Prop :=
  match l with
  | [] => False
  | c :: l => clus c ∧ match l with
      | [] => ∃ v, entry_of t c = Some v ∧ FAT12_EOF ≤ v
      | d :: _ => entry_of t c = Some d ∧ chain t l
      end
  end.

Lemma chain_entries t t' l : (∀ c, c ∈ l → entry_of t' c = entry_of t c) → chain t l → chain t' l.
Proof.
  induction l as [|c l IH]; [done|]. intros Hs [Hc Hl]. split; [done|]. destruct l as [|d l].
  - destruct Hl as (v & Hv & He). exists v. split; [|done]. rewrite Hs; [done|by left].
  - destruct Hl as [Hd Hl]. split; [rewrite Hs; [done|by left]|]. apply IH; [|done]. intros x Hx. apply Hs. by right.
Qed.

Lemma chain_clus t l : chain t l → Forall clus l.
Proof. induction l as [|c l IH]; [done|]. intros [Hc Hl]. constructor; [done|]. destruct l as [|d l]; [by constructor|]. by apply IH, Hl. Qed.

(** A cluster of a chain is not free. *)
Lemma chain_used t l c : chain t l → c ∈ l → ∃ v, entry_of t c = Some v ∧ v ≠ 0.
Proof.
  induction l as [|x l IH]; [done|]. intros [Hx Hl] Hin. unfold FAT12_EOF in *. apply elem_of_cons in Hin as [->|Hin].
  - destruct l as [|d l]; [destruct Hl as (v & ? & ?); exists v; split; [done|lia]|]. destruct Hl as [Hd [Hc _]]. exists d. split; [done|].
    unfold clus in Hc. lia.
  - destruct l as [|d l]; [by apply not_elem_of_nil in Hin|]. destruct Hl as [_ Hl]. by apply IH.
Qed.

(** Clusters that differ are fewer than the rounds of a walk. *)
Lemma clus_length l : NoDup l → Forall clus l → (length l < CHAIN)%nat.
Proof.
  intros Hnd Hl. unfold CHAIN. assert (l ⊆ seqZ 2 (FAT12_BAD_CLUSTER - 2)) as Hsub.
  { intros c Hc. rewrite Forall_forall in Hl. specialize (Hl c Hc). unfold clus in Hl. apply elem_of_seqZ. lia. }
  pose proof (submseteq_length _ _ (NoDup_submseteq _ _ Hnd Hsub)) as Hle. rewrite length_seqZ in Hle. unfold FAT12_BAD_CLUSTER in Hle. lia.
Qed.

(** The table in the state [φ'], as changed from [φ]. *)
Record retabled φ φ' (f : Z → option Z) : Prop := {
  rt_state : φ' = set_cache (FAT_CACHE φ') φ;
  rt_len : length (FAT_CACHE φ') = length (FAT_CACHE φ);
  rt_bytes : Forall is_byte (FAT_CACHE φ');
  rt_entry c : 0 ≤ c → entry_of (FAT_CACHE φ') c = f c;
}.

Lemma retabled_refl φ : Forall is_byte (FAT_CACHE φ) → retabled φ φ (entry_of (FAT_CACHE φ)).
Proof. intros Hb. split; [by destruct φ|done|done|done]. Qed.

Lemma retabled_trans φ φ1 φ2 f g : retabled φ φ1 f → retabled φ1 φ2 g → retabled φ φ2 g.
Proof.
  intros [E1 L1 B1 _] [E2 L2 B2 F2]. split; [|congruence|done|done]. etransitivity; [exact E2|]. by rewrite E1 at 1.
Qed.

Lemma retabled_ext φ φ' f g : (∀ c, 0 ≤ c → f c = g c) → retabled φ φ' f → retabled φ φ' g.
Proof. intros Hfg [E L B F]. split; [done|done|done|]. intros c Hc. by rewrite F, Hfg. Qed.

(** Writing an entry. *)
Lemma wp_set_entry φ c v (Q : unit → fat D → Prop) : Forall is_byte (FAT_CACHE φ) → in_table (FAT_CACHE φ) c → 0 ≤ v < 4096 →
  (∀ φ', retabled φ φ' (λ c', if c' =? c then Some v else entry_of (FAT_CACHE φ) c') → Q tt φ') → wp (set_fat_entry c v) Q φ.
Proof.
  intros Hb Hin Hv HQ. eapply wp_intro; [by apply set_entry_eq|]. apply HQ. split; cbn [FAT_CACHE set_cache]; [by destruct φ|apply length_with_entry|by apply with_entry_bytes|].
  intros c' Hc'. by apply entry_with.
Qed.

Lemma wp_get_entry φ c v (Q : Z → fat D → Prop) : Forall is_byte (FAT_CACHE φ) → 0 ≤ c → entry_of (FAT_CACHE φ) c = Some v →
  Q v φ → wp (get_fat_entry c) Q φ.
Proof. intros Hb Hc E HQ. eapply wp_intro; [by apply get_entry_eq|done]. Qed.

(** ** Freeing *)
Lemma free_chain_ok φ l c0 fuel : Forall is_byte (FAT_CACHE φ) → chain (FAT_CACHE φ) l → NoDup l → head l = Some c0 → (length l ≤ fuel)%nat →
  wp (free_chain fuel c0) (λ _ φ', retabled φ φ' (λ c, if bool_decide (c ∈ l) then Some 0 else entry_of (FAT_CACHE φ) c)) φ.
Proof.
  revert φ c0 fuel. induction l as [|c l IH]; intros φ c0 fuel Hb Hch Hnd Hhd Hf; [done|]. injection Hhd as <-.
  destruct fuel as [|fuel]; [simpl in Hf; lia|]. destruct Hch as [Hc Hl]. apply NoDup_cons in Hnd as [Hcl Hnd]. cbn [free_chain].
  unfold clus in Hc. replace (_ && _) with true by (unfold FAT12_BAD_CLUSTER in *; lia).
  assert (∃ v, entry_of (FAT_CACHE φ) c = Some v) as [v Hv] by (destruct l; naive_solver).
  apply wp_bind, (wp_get_entry φ c v); [done|lia|done|]. pose proof (entry_in_table _ c v ltac:(lia) Hv) as Hin.
  apply wp_bind, wp_set_entry; [done|done|unfold FAT12_FREE_CLUSTER; lia|]. intros φ1 H1. destruct l as [|d l].
  - destruct Hl as (v' & Hv' & He). assert (v' = v) as -> by congruence. rewrite (proj2 (Z.leb_le _ _)) by done. apply wp_ret.
    eapply retabled_ext; [|exact H1]. intros c' _. cbn beta. destruct (Z.eqb_spec c' c) as [->|Hne].
    + rewrite bool_decide_true; [done|by left].
    + rewrite bool_decide_false; [done|]. by intros ->%list_elem_of_singleton.
  - destruct Hl as [Hd Hl]. assert (v = d) as -> by congruence. pose proof (chain_clus _ _ Hl) as Hcl'. apply Forall_cons in Hcl' as [Hdc _].
    unfold clus in Hdc. rewrite (proj2 (Z.leb_gt _ _)) by (unfold FAT12_BAD_CLUSTER, FAT12_EOF in *; lia).
    assert (chain (FAT_CACHE φ1) (d :: l)) as Hch1.
    { eapply chain_entries; [|exact Hl]. intros x Hx. pose proof (chain_clus _ _ Hl) as Hxs. rewrite Forall_forall in Hxs. specialize (Hxs x Hx).
      unfold clus in Hxs. rewrite (rt_entry _ _ _ H1) by lia. rewrite (proj2 (Z.eqb_neq _ _)); [done|]. intros Heq. by rewrite Heq in Hx. }
    cbn [length] in Hf. eapply wp_mono; [apply (IH φ1 d fuel (rt_bytes _ _ _ H1) Hch1 Hnd eq_refl); cbn [length]; lia|]. intros [] φ2 H2.
    eapply retabled_ext; [|exact (retabled_trans _ _ _ _ _ H1 H2)]. intros c' Hc'. cbn beta. rewrite (rt_entry _ _ _ H1) by done.
    destruct (Z.eqb_spec c' c) as [Heq|Hne]; [rewrite Heq|].
    + rewrite bool_decide_false by done. rewrite bool_decide_true; [done|by left].
    + destruct (bool_decide_reflect (c' ∈ d :: l)) as [Hin'|Hnin]; [by rewrite bool_decide_true by (by right)|].
      rewrite bool_decide_false; [done|]. intros [?|?]%elem_of_cons; done.
Qed.

(** ** Allocating *)

(** The clusters [allocate_cluster] may give, in the order it gives them. *)
Definition free_list (t : list Z) : list Z := filter (λ c, entry_of t c = Some 0) (seqZ 2 0xFEE).

Lemma free_list_elem t c : c ∈ free_list t ↔ 2 ≤ c < 0xFF0 ∧ entry_of t c = Some 0.
Proof. unfold free_list. rewrite list_elem_of_filter, elem_of_seqZ. naive_solver lia. Qed.

Lemma free_list_nodup t : NoDup (free_list t).
Proof. apply NoDup_filter, NoDup_seqZ. Qed.

Lemma filter_ext_in {A} (P Q : A → Prop) `{!∀ x, Decision (P x), !∀ x, Decision (Q x)} (l : list A) :
  Forall (λ x, P x ↔ Q x) l → filter P l = filter Q l.
Proof.
  induction 1 as [|x l Hx _ IH]; [done|]. rewrite !filter_cons, IH. destruct (decide (P x)), (decide (Q x)); tauto.
Qed.

Lemma filter_all {A} (P : A → Prop) `{!∀ x, Decision (P x)} (l : list A) : Forall P l → filter P l = l.
Proof. induction 1 as [|x l Hx _ IH]; [done|]. by rewrite filter_cons_True, IH. Qed.

Lemma filter_seqZ_head (P : Z → Prop) `{!∀ x, Decision (P x)} n lo c fs : filter P (seqZ lo (Z.of_nat n)) = c :: fs → ∀ j, lo ≤ j < c → ¬ P j.
Proof.
  revert lo. induction n as [|n IH]; intros lo E; [done|]. rewrite seqZ_cons in E by lia. rewrite filter_cons in E.
  destruct (decide (P lo)) as [HP|HP]; [injection E as <- _; lia|]. intros j Hj. destruct (decide (j = lo)) as [->|Hne]; [done|].
  apply (IH (Z.succ lo)); [|lia]. by replace (Z.of_nat n) with (Z.pred (Z.of_nat (S n))) by lia.
Qed.

(** Taking the first free cluster out of the list. *)
Lemma free_list_take t t' c fs v : free_list t = c :: fs → v ≠ 0 → (∀ x, 0 ≤ x → entry_of t' x = if x =? c then Some v else entry_of t x) →
  free_list t' = fs.
Proof.
  intros E Hv Ht'. pose proof (free_list_nodup t) as Hnd. rewrite E in Hnd. apply NoDup_cons in Hnd as [Hc Hnd].
  transitivity (filter (λ x, x ≠ c) (free_list t)).
  - unfold free_list. rewrite list_filter_filter. apply filter_ext_in. apply Forall_forall. intros x Hx%elem_of_seqZ. rewrite Ht' by lia.
    destruct (Z.eqb_spec x c) as [->|Hne]; split; [intros [= ?]; done|by intros [? _]|done|by intros [_ ?]].
  - rewrite E. rewrite filter_cons_False by (intros []; done). apply filter_all. apply Forall_forall. intros x Hx ->. done.
Qed.

Lemma entry_below t c c' v : Forall is_byte t → 0 ≤ c' ≤ c → entry_of t c = Some v → ∃ v', entry_of t c' = Some v'.
Proof.
  intros Hb Hc Hv. pose proof (entry_in_table _ c v ltac:(lia) Hv) as [_ Hin]. destruct (in_table_entry t c' Hb) as (v' & E & _); [|by exists v'].
  split; [lia|]. divlia.
Qed.

Lemma allocate_ok φ c fs : Forall is_byte (FAT_CACHE φ) → free_list (FAT_CACHE φ) = c :: fs → wp allocate_cluster (λ r φ', r = Ok c ∧
  retabled φ φ' (λ c', if c' =? c then Some FAT12_EOF else entry_of (FAT_CACHE φ) c')) φ.
Proof.
  intros Hb E. unfold allocate_cluster. assert (c ∈ free_list (FAT_CACHE φ)) as [Hc H0]%free_list_elem by (rewrite E; by left).
  pose proof (filter_seqZ_head (λ c, entry_of (FAT_CACHE φ) c = Some 0) (Z.to_nat 0xFEE) 2 c fs) as Hmin.
  rewrite Z2Nat.id in Hmin by lia. specialize (Hmin E).
  apply wp_bind, (wp_find_range (λ i φ', φ' = φ ∧ i ≤ c)); [by split; [|lia]| |intros ? [_ ?]; lia].
  intros i φ' Hi [-> Hic]. destruct (entry_below _ c i 0 Hb ltac:(lia) H0) as [v Hv].
  apply wp_bind, (wp_get_entry φ i v); [done|lia|done|]. destruct (Z.eqb_spec v FAT12_FREE_CLUSTER) as [->|Hne].
  - assert (i = c) as -> by (destruct (decide (i = c)); [done|]; destruct (Hmin i); [lia|done]).
    apply wp_bind, wp_set_entry; [done|by eapply entry_in_table; [lia|]|unfold FAT12_EOF; lia|]. intros φ' H'. by apply wp_ret, wp_ret.
  - apply wp_ret. split; [done|]. destruct (decide (i = c)) as [->|]; [|lia]. rewrite H0 in Hv. by injection Hv as <-.
Qed.

(** A table with an entry for each cluster that may be asked for. *)
Definition full_table (t : list Z) : Prop := 6120 ≤ len t.

Lemma allocate_none φ : Forall is_byte (FAT_CACHE φ) → full_table (FAT_CACHE φ) → free_list (FAT_CACHE φ) = [] →
  allocate_cluster φ = Some (Err "No free clusters"%string, φ).
Proof.
  intros Hb Hfull E. apply wp_intro_eq. unfold allocate_cluster. apply wp_bind, (wp_find_range (λ _ φ', φ' = φ)); [done| |intros ? ->; by apply wp_ret].
  intros i φ' Hi ->. destruct (in_table_entry _ i Hb) as (v & Hv & _); [split; [lia|unfold full_table in Hfull; divlia]|].
  apply wp_bind, (wp_get_entry φ i v); [done|lia|done|]. destruct (Z.eqb_spec v FAT12_FREE_CLUSTER) as [->|Hne]; [|by apply wp_ret].
  exfalso. apply (not_elem_of_nil i). rewrite <- E. apply free_list_elem. split; [lia|done].
Qed.

(** What fails first, fails; a loop fails at the round that does. *)
Lemma bind_none {A B} (m : ST (fat D) A) (k : A → ST (fat D) B) φ : wp m (λ x φ', k x φ' = None) φ → (m ≫= k) φ = None.
Proof. unfold wp, mbind, ST_bind. by destruct (m φ) as [[]|]. Qed.

Lemma find_range_none {A} (body : Z → ST (fat D) (option A)) φ lo n k :
  (∀ i, lo ≤ i < k → body i φ = Some (None, φ)) → body k φ = None → lo ≤ k < lo + Z.of_nat n → find_range lo n body φ = None.
Proof.
  revert lo. induction n as [|n IH]; intros lo Hb Hk Hr; [lia|]. cbn [find_range]. destruct (decide (k = lo)) as [->|Hne].
  - unfold mbind, ST_bind. by rewrite Hk.
  - apply bind_none. eapply wp_intro; [apply Hb; lia|]. apply IH; [|done|lia]. intros i Hi. apply Hb. lia.
Qed.

(** On a smaller table the search runs off its end. *)
Lemma allocate_panics φ : Forall is_byte (FAT_CACHE φ) → ¬ full_table (FAT_CACHE φ) → free_list (FAT_CACHE φ) = [] → allocate_cluster φ = None.
Proof.
  intros Hb Hsmall E. unfold full_table in Hsmall. unfold allocate_cluster, mbind at 1, ST_bind.
  pose proof (len_nonneg (FAT_CACHE φ)) as Hl. set (k := Z.max 2 (2 * len (FAT_CACHE φ) / 3)).
  assert (∀ c, 0 ≤ c < k → 2 ≤ c → in_table (FAT_CACHE φ) c) as Hin by (intros c Hc H2; split; [lia|]; subst k; divlia).
  assert (get_fat_entry k φ = None) as Hk.
  { unfold get_fat_entry. apply bind_none, wp_get. destruct (FAT_CACHE φ !! Z.to_nat (k * 3 / 2)) as [b0|] eqn:E0; [|done].
    apply bind_none, (wp_lift b0); [done|]. rewrite (lookup_ge_None_2 (FAT_CACHE φ)); [done|]. subst k. unfold len in *. divlia. }
  rewrite (find_range_none _ φ _ _ k); [done| |unfold mbind, ST_bind; by rewrite Hk|subst k; divlia].
  intros i Hi. apply wp_intro_eq. destruct (in_table_entry _ i Hb) as (v & Hv & _); [apply Hin; lia|].
  apply wp_bind, (wp_get_entry φ i v); [done|lia|done|]. destruct (Z.eqb_spec v FAT12_FREE_CLUSTER) as [->|Hne]; [|by apply wp_ret].
  exfalso. apply (not_elem_of_nil i). rewrite <- E. apply free_list_elem. split; [subst k; divlia|done].
Qed.

Lemma allocate_clusters_panics φ n : Forall is_byte (FAT_CACHE φ) → ¬ full_table (FAT_CACHE φ) → (length (free_list (FAT_CACHE φ)) < n)%nat →
  allocate_clusters n φ = None.
Proof.
  revert φ. induction n as [|n IH]; intros φ Hb Hfull Hn; [lia|]. cbn [allocate_clusters].
  destruct (free_list (FAT_CACHE φ)) as [|c fs] eqn:E; [unfold mbind, ST_bind; by rewrite allocate_panics|].
  apply bind_none. eapply wp_mono; [by apply (allocate_ok φ c fs)|]. intros r φ1 [-> H1].
  assert (free_list (FAT_CACHE φ1) = fs) as E1 by (eapply free_list_take; [done| |apply (rt_entry _ _ _ H1)]; done).
  unfold mbind, ST_bind. rewrite IH; [done|apply (rt_bytes _ _ _ H1)|unfold full_table, len in *; by rewrite (rt_len _ _ _ H1)|rewrite E1; cbn in Hn; lia].
Qed.

Lemma allocate_clusters_ok φ n : Forall is_byte (FAT_CACHE φ) → (n ≤ length (free_list (FAT_CACHE φ)))%nat →
  wp (allocate_clusters n) (λ r φ', r = Ok (take n (free_list (FAT_CACHE φ))) ∧
    retabled φ φ' (λ c, if bool_decide (c ∈ take n (free_list (FAT_CACHE φ))) then Some FAT12_EOF else entry_of (FAT_CACHE φ) c)) φ.
Proof.
  revert φ. induction n as [|n IH]; intros φ Hb Hn; cbn [allocate_clusters].
  - apply wp_ret. split; [done|]. by apply retabled_refl.
  - destruct (free_list (FAT_CACHE φ)) as [|c fs] eqn:E; [cbn in Hn; lia|]. apply wp_bind. eapply wp_mono; [by apply (allocate_ok φ c fs)|].
    intros r φ1 [-> H1]. assert (free_list (FAT_CACHE φ1) = fs) as E1 by (eapply free_list_take; [done| |apply (rt_entry _ _ _ H1)]; done).
    apply wp_bind. eapply wp_mono; [apply IH; [apply (rt_bytes _ _ _ H1)|rewrite E1; cbn in Hn; lia]|]. intros r φ2 [-> H2]. apply wp_ret.
    rewrite E1 in *. cbn [take]. split; [done|]. eapply retabled_ext; [|exact (retabled_trans _ _ _ _ _ H1 H2)]. intros x Hx. cbn beta.
    rewrite (rt_entry _ _ _ H1) by done. destruct (bool_decide_reflect (x ∈ take n fs)) as [Hin|Hnin]; [by rewrite bool_decide_true by (by right)|].
    destruct (Z.eqb_spec x c) as [->|Hne]; [by rewrite bool_decide_true by (by left)|].
    rewrite bool_decide_false; [done|]. intros [?|?]%elem_of_cons; done.
Qed.

(** When there are too few, all of them are taken. *)
Lemma allocate_clusters_none φ n : Forall is_byte (FAT_CACHE φ) → full_table (FAT_CACHE φ) → (length (free_list (FAT_CACHE φ)) < n)%nat →
  wp (allocate_clusters n) (λ r φ', r = Err "No free clusters"%string ∧
    retabled φ φ' (λ c, if bool_decide (c ∈ free_list (FAT_CACHE φ)) then Some FAT12_EOF else entry_of (FAT_CACHE φ) c)) φ.
Proof.
  revert φ. induction n as [|n IH]; intros φ Hb Hfull Hn; [lia|]. cbn [allocate_clusters].
  destruct (free_list (FAT_CACHE φ)) as [|c fs] eqn:E.
  - apply wp_bind. eapply wp_intro; [by apply allocate_none|]. apply wp_ret. split; [done|]. by apply retabled_refl.
  - apply wp_bind. eapply wp_mono; [by apply (allocate_ok φ c fs)|]. intros r φ1 [-> H1].
    assert (free_list (FAT_CACHE φ1) = fs) as E1 by (eapply free_list_take; [done| |apply (rt_entry _ _ _ H1)]; done).
    apply wp_bind. eapply wp_mono; [apply IH; [apply (rt_bytes _ _ _ H1)|unfold full_table, len in *; by rewrite (rt_len _ _ _ H1)|rewrite E1; cbn in Hn; lia]|].
    intros r φ2 [-> H2]. apply wp_ret. rewrite E1 in *. split; [done|]. eapply retabled_ext; [|exact (retabled_trans _ _ _ _ _ H1 H2)].
    intros x Hx. cbn beta. rewrite (rt_entry _ _ _ H1) by done.
    destruct (bool_decide_reflect (x ∈ fs)) as [Hin|Hnin]; [by rewrite bool_decide_true by (by right)|].
    destruct (Z.eqb_spec x c) as [->|Hne]; [by rewrite bool_decide_true by (by left)|].
    rewrite bool_decide_false; [done|]. intros [?|?]%elem_of_cons; done.
Qed.

(** Linking new clusters makes a chain of them. *)
Lemma link_clusters_ok φ cs : Forall is_byte (FAT_CACHE φ) → cs ≠ [] → NoDup cs → Forall (λ c, clus c ∧ in_table (FAT_CACHE φ) c) cs →
  wp (link_clusters cs) (λ _ φ', chain (FAT_CACHE φ') cs ∧ ∃ f, retabled φ φ' f ∧ ∀ c, 0 ≤ c → c ∉ cs → f c = entry_of (FAT_CACHE φ) c) φ.
Proof.
  revert φ. induction cs as [|c cs IH]; intros φ Hb Hne Hnd Hcs; [done|]. apply NoDup_cons in Hnd as [Hc Hnd].
  apply Forall_cons in Hcs as [[Hcl Hin] Hcs]. destruct cs as [|d cs].
  - cbn [link_clusters]. apply wp_set_entry; [done|done|unfold FAT12_EOF; lia|]. intros φ1 H1. unfold clus in Hcl. split.
    + split; [done|]. exists FAT12_EOF. rewrite (rt_entry _ _ _ H1) by lia. by rewrite Z.eqb_refl.
    + eexists. split; [exact H1|]. intros x _ Hx. cbn beta. rewrite (proj2 (Z.eqb_neq _ _)); [done|]. intros ->. apply Hx. by left.
  - change (link_clusters (c :: d :: cs)) with ((_ ← set_fat_entry c d; link_clusters (d :: cs)) : ST (fat D) unit).
    pose proof Hcs as Hcs0. apply Forall_cons in Hcs0 as [[Hd _] _]. unfold clus, FAT12_BAD_CLUSTER in Hcl, Hd.
    apply wp_bind, wp_set_entry; [done|done|lia|]. intros φ1 H1.
    eapply wp_mono; [apply (IH φ1); [apply (rt_bytes _ _ _ H1)|done|done|]|].
    + eapply Forall_impl; [exact Hcs|]. cbn beta. intros x [Hx Hxin]. split; [done|]. unfold in_table, len in *. by rewrite (rt_len _ _ _ H1).
    + intros [] φ2 (Hch & f & H2 & Hf). split.
      * split; [done|]. split; [|done]. rewrite (rt_entry _ _ _ H2) by lia. rewrite Hf by (lia || done). rewrite (rt_entry _ _ _ H1) by lia. by rewrite Z.eqb_refl.
      * exists f. split; [by eapply retabled_trans|]. intros x H0 Hx. apply not_elem_of_cons in Hx as [Hxc Hx]. rewrite Hf by done.
        rewrite (rt_entry _ _ _ H1) by done. by rewrite (proj2 (Z.eqb_neq _ _)).
Qed.
End table.

(** ** A witness *)

(** An empty table of one sector, and a disk in memory. *)
Definition small_fat : fat ramdisk :=
  Fat false true 0 (read_bpb []) 1 2 3 1 (replicate 512 0) (RamDisk ∅ 32).

Lemma fat_entry_roundtrip_witness :
  ∃ t', set_fat_entry 5 0xABC small_fat = Some (tt, set_cache t' small_fat) ∧
    get_fat_entry 5 (set_cache t' small_fat) = Some (0xABC, set_cache t' small_fat).
Proof.
  destruct (fat_entry_roundtrip small_fat 5 0xABC) as (t' & H1 & _ & _ & H2 & _).
  - apply Forall_replicate. unfold is_byte. lia.
  - split; [discriminate|reflexivity].
  - lia.
  - by exists t'.
Defined.
