(* ===== verification/FatDisk.v ===== *)
(** * Clusters and runs of sectors of a FAT12 volume

    What the loops of fat12/src/lib.rs that read and write sectors do, over a disk
    that keeps [DiskLaws]: which sectors change, and what they hold. From them, the
    data of clusters and of chains of clusters. *)
From S2P Require Import Prelude Rust FileSystem Disk Fat12 FatTable.

Section runs.
Context {D : Type} `{!Disk D} `{!DiskLaws D}.
Implicit Types φ : fat D.

(** The [n] sectors from [lba] on. *)
Fixpoint run (δ : D) (d lba : Z) (n : nat) : list Z :=
  match n with
  | O => []
  | S n => sector δ d lba ++ run δ d (lba + 1) n
  end.

Lemma length_run δ d lba n : length (run δ d lba n) = (n * 512)%nat.
Proof. revert lba. induction n as [|n IH]; intros lba; [done|]. cbn [run]. rewrite length_app, sector_len, IH. lia. Qed.

Lemma run_bytes δ d lba n : Forall is_byte (run δ d lba n).
Proof. revert lba. induction n as [|n IH]; intros lba; [done|]. cbn [run]. apply Forall_app. by split; [apply sector_bytes|]. Qed.

Lemma run_ext δ δ' d lba n : (∀ l, lba ≤ l < lba + Z.of_nat n → sector δ' d l = sector δ d l) → run δ' d lba n = run δ d lba n.
Proof.
  revert lba. induction n as [|n IH]; intros lba Hs; [done|]. cbn [run]. rewrite (Hs lba) by lia. f_equal. apply IH. intros l Hl. apply Hs. lia.
Qed.

(** From [φ] to [φ'] only sectors in [P] of the drive changed, and nothing else. *)
Record rewritten φ φ' (P : Z → Prop) : Prop := {
  rw_state : φ' = set_disk (disk φ') φ;
  rw_sector d l : ¬ (d = FAT_DRIVE φ ∧ P l) → sector (disk φ') d l = sector (disk φ) d l;
  rw_ready d l : ready (disk φ) d l → ready (disk φ') d l;
}.

(** The statics the driver computes from the parameter block. *)
Definition layout φ : Z * BiosParameterBlock * Z * Z * Z * Z * bool :=
  (FAT_DRIVE φ, BPB φ, FAT_START_SECTOR φ, ROOT_DIR_START_SECTOR φ, DATA_START_SECTOR φ, ROOT_DIR_SECTORS φ, FAT_INITIALIZED φ).

Lemma rw_layout φ φ' P : rewritten φ φ' P → layout φ' = layout φ.
Proof. by intros [-> _ _]. Qed.

Lemma rw_cache φ φ' P : rewritten φ φ' P → FAT_CACHE φ' = FAT_CACHE φ.
Proof. by intros [-> _ _]. Qed.

Lemma rewritten_refl φ P : rewritten φ φ P.
Proof. split; [by destruct φ|done|done]. Qed.

Lemma rewritten_mono φ φ' (P Q : Z → Prop) : (∀ l, P l → Q l) → rewritten φ φ' P → rewritten φ φ' Q.
Proof. intros HPQ [E S R]. split; [done| |done]. intros d l Hn. apply S. intros [-> HP]. by apply Hn; auto. Qed.

Lemma rewritten_trans φ φ1 φ2 P : rewritten φ φ1 P → rewritten φ1 φ2 P → rewritten φ φ2 P.
Proof.
  intros [E1 S1 R1] [E2 S2 R2]. assert (FAT_DRIVE φ1 = FAT_DRIVE φ) as Hd by (by rewrite E1).
  split; [etransitivity; [exact E2|]; by rewrite E1 at 1| |by auto]. intros d l Hn. rewrite S2 by (by rewrite Hd). by apply S1.
Qed.

Lemma wp_on_disk {A} (m : ST D A) (Q : A → fat D → Prop) φ : wp m (λ r δ, Q r (set_disk δ φ)) (disk φ) → wp (on_disk m) Q φ.
Proof. unfold wp, on_disk. by destruct (m (disk φ)) as [[]|]. Qed.

(** All sectors of a run can be read and written. *)
Definition ready_run φ (lba n : Z) : Prop := 0 ≤ lba ∧ lba + n ≤ 2 ^ 48 ∧ ∀ l, lba ≤ l < lba + n → ready (disk φ) (FAT_DRIVE φ) l.

Lemma ready_rewritten φ φ' P lba n : rewritten φ φ' P → ready_run φ lba n → ready_run φ' lba n.
Proof.
  intros [E _ R] (H0 & H1 & Hr). split; [done|]. split; [done|]. intros l Hl. apply R. rewrite E. by apply Hr.
Qed.

Lemma read_run_at err φ d lba n : 0 ≤ d < 4 → 0 ≤ lba → lba + Z.of_nat n ≤ 2 ^ 48 → (∀ l, lba ≤ l < lba + Z.of_nat n → ready (disk φ) d l) →
  wp (read_run err d lba n) (λ r φ', r = Ok (run (disk φ) d lba n) ∧ rewritten φ φ' (λ _, False)) φ.
Proof.
  intros Hd. revert φ lba. induction n as [|n IH]; intros φ lba H0 H1 Hr; cbn [read_run]; [apply wp_ret; by split; [|apply rewritten_refl]|].
  apply wp_bind, wp_on_disk. eapply wp_mono; [apply read_law; [done|lia]|]. intros [e s] δ1 (Hs & Hrd & Hok & H00).
  cbn [fst snd] in *. rewrite H00 by (apply Hr; lia). cbn [Z.eqb negb]. specialize (Hok (H00 ltac:(apply Hr; lia))).
  assert (rewritten φ (set_disk δ1 φ) (λ _, False)) as R1 by (split; [done|by intros; apply Hs|done]).
  apply wp_bind. eapply wp_mono; [apply (IH (set_disk δ1 φ)); [lia|lia|]|].
  - intros l Hl. apply Hrd, Hr. lia.
  - intros r φ2 [-> R2]. apply wp_ret. split; [|by eapply rewritten_trans]. cbn [run disk set_disk]. rewrite Hok. do 2 f_equal.
    by apply run_ext.
Qed.

Lemma read_run_ok err φ lba n : 0 ≤ FAT_DRIVE φ < 4 → ready_run φ lba (Z.of_nat n) → wp (read_run err (FAT_DRIVE φ) lba n) (λ r φ',
  r = Ok (run (disk φ) (FAT_DRIVE φ) lba n) ∧ rewritten φ φ' (λ _, False)) φ.
Proof. intros Hd (H0 & H1 & Hr). by apply read_run_at. Qed.

Lemma write_run_from err φ lba data i n : 0 ≤ FAT_DRIVE φ < 4 → 0 ≤ i → ready_run φ (lba + i) (Z.of_nat n) →
  len data = (i + Z.of_nat n) * SECTOR_SIZE → Forall is_byte data → wp (write_run err (FAT_DRIVE φ) lba data i n) (λ r φ',
    r = Ok tt ∧ rewritten φ φ' (λ l, lba + i ≤ l < lba + i + Z.of_nat n) ∧
    run (disk φ') (FAT_DRIVE φ) (lba + i) n = drop (Z.to_nat (i * SECTOR_SIZE)) data) φ.
Proof.
  unfold SECTOR_SIZE. revert φ i. induction n as [|n IH]; intros φ i Hd Hi (H0 & H1 & Hr) Hlen Hb; cbn [write_run].
  - apply wp_ret. split; [done|]. split; [apply rewritten_refl|]. cbn [run]. rewrite drop_ge; [done|]. unfold len in Hlen. lia.
  - unfold SECTOR_SIZE. apply wp_bind, (wp_lift (take 512 (drop (Z.to_nat (i * 512)) data))).
    { rewrite slice_ok by (unfold len in *; lia). do 2 f_equal. lia. }
    apply wp_bind, wp_on_disk. eapply wp_mono; [apply write_law; [done|lia| |by apply Forall_take, Forall_drop]|].
    { rewrite length_take, length_drop. unfold len in Hlen. lia. }
    intros e δ1 (Hs & Hrd & Hok & H00). rewrite H00 by (apply Hr; lia). cbn [Z.eqb negb]. specialize (Hok (H00 ltac:(apply Hr; lia))).
    assert (rewritten φ (set_disk δ1 φ) (λ l, lba + i ≤ l < lba + i + Z.of_nat (S n))) as R1.
    { split; [done| |done]. intros d l Hn. apply Hs. intros [= -> ->]. apply Hn. split; [done|lia]. }
    change (FAT_DRIVE φ) with (FAT_DRIVE (set_disk δ1 φ)). eapply wp_mono; [apply (IH (set_disk δ1 φ) (i + 1)); [done|lia| |lia|done]|].
    { split; [lia|]. split; [lia|]. intros l Hl. apply Hrd, Hr. lia. }
    intros r φ2 (-> & R2 & E2). split; [done|]. split.
    + eapply rewritten_trans; [exact R1|]. eapply rewritten_mono; [|exact R2]. cbn beta. lia.
    + cbn [run]. rewrite <- Z.add_assoc, E2. rewrite (rw_sector _ _ _ R2) by lia. cbn [disk set_disk FAT_DRIVE]. rewrite Hok.
      replace (Z.to_nat ((i + 1) * 512)) with (Z.to_nat (i * 512) + 512)%nat by lia. rewrite <- drop_drop. apply take_drop.
Qed.

Lemma write_run_ok err φ lba data n : 0 ≤ FAT_DRIVE φ < 4 → ready_run φ lba (Z.of_nat n) → len data = Z.of_nat n * SECTOR_SIZE → Forall is_byte data →
  wp (write_run err (FAT_DRIVE φ) lba data 0 n) (λ r φ', r = Ok tt ∧ rewritten φ φ' (λ l, lba ≤ l < lba + Z.of_nat n) ∧
    run (disk φ') (FAT_DRIVE φ) lba n = data) φ.
Proof.
  intros Hd Hr Hlen Hb. pose proof (write_run_from err φ lba data 0 n Hd ltac:(done)) as Hw. rewrite Z.add_0_r in Hw. by apply Hw.
Qed.

(** ** Clusters *)

Record geometry φ : Prop := {
  g_drive : 0 ≤ FAT_DRIVE φ < 4;
  g_spc : 1 ≤ sectors_per_cluster (BPB φ) < 256;
  g_data : 0 ≤ DATA_START_SECTOR φ < 2 ^ 40;
}.

Lemma geometry_rewritten φ φ' P : rewritten φ φ' P → geometry φ → geometry φ'.
Proof. intros [-> _ _] []. by split. Qed.

Definition cstart φ (c : Z) : Z := DATA_START_SECTOR φ + (c - 2) * sectors_per_cluster (BPB φ).
Definition in_cluster φ (c l : Z) : Prop := cstart φ c ≤ l < cstart φ c + sectors_per_cluster (BPB φ).
Definition usable φ (c : Z) : Prop := ready_run φ (cstart φ c) (sectors_per_cluster (BPB φ)).

(** The bytes of a cluster, and of several. *)
Definition cdata φ (c : Z) : list Z := run (disk φ) (FAT_DRIVE φ) (cstart φ c) (Z.to_nat (sectors_per_cluster (BPB φ))).
Definition cdatas φ (ch : list Z) : list Z := concat (cdata φ <$> ch).

Lemma cluster_disjoint φ c c' l : geometry φ → c ≠ c' → in_cluster φ c l → ¬ in_cluster φ c' l.
Proof. intros [_ Hs _]. unfold in_cluster, cstart. nia. Qed.

Lemma usable_rewritten φ φ' P c : rewritten φ φ' P → usable φ c → usable φ' c.
Proof.
  intros R Hu. unfold usable, cstart in *. pose proof (rw_layout _ _ _ R) as [= _ Hb _ _ Hs _ _]. rewrite Hb, Hs. by eapply ready_rewritten.
Qed.

Lemma in_cluster_rewritten φ φ' P c l : rewritten φ φ' P → in_cluster φ' c l ↔ in_cluster φ c l.
Proof. intros R. unfold in_cluster, cstart. by rewrite (rw_state _ _ _ R). Qed.

Lemma cdata_frame φ φ' P c : geometry φ → rewritten φ φ' P → (∀ l, in_cluster φ c l → ¬ P l) → cdata φ' c = cdata φ c.
Proof.
  intros [_ Hs _] R HP. unfold cdata, cstart. rewrite (rw_state _ _ _ R). cbn [FAT_DRIVE DATA_START_SECTOR BPB set_disk disk].
  apply run_ext. intros l Hl. apply (rw_sector _ _ _ R). intros [_ ?]. apply (HP l); [|done]. unfold in_cluster, cstart. lia.
Qed.

Lemma cdatas_frame φ φ' P ch : geometry φ → rewritten φ φ' P → (∀ c l, c ∈ ch → in_cluster φ c l → ¬ P l) → cdatas φ' ch = cdatas φ ch.
Proof.
  intros Hg R HP. unfold cdatas. f_equal. apply list_fmap_ext. intros i c Hc. apply (cdata_frame φ φ' P); [done|done|]. intros l. apply HP.
  by eapply list_elem_of_lookup_2.
Qed.

Lemma length_cdata φ c : geometry φ → len (cdata φ c) = cluster_size φ.
Proof. intros [_ Hs _]. unfold len, cdata, cluster_size, SECTOR_SIZE. rewrite length_run. lia. Qed.

Lemma length_cdatas φ ch : geometry φ → len (cdatas φ ch) = len ch * cluster_size φ.
Proof.
  intros Hg. induction ch as [|c ch IH]; [done|]. unfold cdatas in *. cbn [fmap list_fmap concat]. rewrite len_app, length_cdata, IH by done.
  unfold len. cbn [length]. lia.
Qed.

Lemma wp_cluster_to_sector φ c (Q : Z → fat D → Prop) : geometry φ → 2 ≤ c < 4096 → Q (cstart φ c) φ → wp (cluster_to_sector c) Q φ.
Proof.
  intros [_ Hs Hd] Hc HQ. unfold cluster_to_sector. wp_steps. apply (wp_lift (c - 2)); [apply checked_ok; lia|].
  apply (wp_lift (cstart φ c)); [|done]. apply checked_ok. unfold cstart. nia.
Qed.

Lemma read_cluster_ok φ c : geometry φ → 2 ≤ c < 4096 → usable φ c → wp (read_cluster_unlocked c) (λ r φ',
  r = Ok (cdata φ c) ∧ rewritten φ φ' (λ _, False)) φ.
Proof.
  intros Hg Hc Hu. unfold read_cluster_unlocked. apply wp_bind, wp_cluster_to_sector; [done|done|]. wp_steps. apply read_run_ok; [apply Hg|].
  destruct Hg. by rewrite Z2Nat.id by lia.
Qed.

Lemma write_cluster_ok φ c data : geometry φ → 2 ≤ c < 4096 → usable φ c → len data ≤ cluster_size φ → Forall is_byte data →
  wp (write_cluster_unlocked c data) (λ r φ', r = Ok tt ∧ rewritten φ φ' (in_cluster φ c) ∧
    cdata φ' c = data ++ replicate (Z.to_nat (cluster_size φ - len data)) 0) φ.
Proof.
  intros Hg Hc Hu Hlen Hb. pose proof Hg as [Hd Hs _]. unfold write_cluster_unlocked. apply wp_bind, wp_cluster_to_sector; [done|done|]. wp_steps.
  set (padded := data ++ replicate (Z.to_nat (cluster_size φ - len data)) 0).
  apply (wp_lift padded).
  { pose proof (len_nonneg data). rewrite Z.min_l by done. rewrite take_ge by (unfold len; lia). unfold patch.
    replace (len (replicate _ _)) with (cluster_size φ) by (unfold len; rewrite length_replicate; lia).
    replace (_ && _) with true by lia. rewrite Z.add_0_l, drop_replicate. change (Z.to_nat 0) with 0%nat. rewrite take_0. cbn [app]. unfold padded. do 3 f_equal. unfold len. lia. }
  wp_steps. eapply wp_mono; [apply write_run_ok; [done|by rewrite Z2Nat.id by lia| |]|].
  - unfold padded. rewrite len_app. unfold len at 2. rewrite length_replicate. unfold cluster_size, SECTOR_SIZE in *. lia.
  - apply Forall_app. split; [done|]. apply Forall_replicate. unfold is_byte. lia.
  - intros r φ' (-> & R & E). split; [done|]. rewrite Z2Nat.id in R by lia. split; [exact R|]. unfold cdata, cstart.
    rewrite (rw_state _ _ _ R) at 2 3 4 5. exact E.
Qed.

(** ** Chains *)

Lemma cdatas_same φ φ' ch : geometry φ → rewritten φ φ' (λ _, False) → cdatas φ' ch = cdatas φ ch.
Proof. intros Hg R. apply (cdatas_frame φ φ' (λ _, False)); [done|done|]. by intros c l _ _ []. Qed.

Lemma read_chain_ok φ ch c fuel : geometry φ → Forall is_byte (FAT_CACHE φ) → chain (FAT_CACHE φ) ch → Forall (usable φ) ch → head ch = Some c →
  (length ch ≤ fuel)%nat → wp (read_chain fuel c) (λ r φ', r = Ok (cdatas φ ch) ∧ rewritten φ φ' (λ _, False)) φ.
Proof.
  revert φ c fuel. induction ch as [|c ch IH]; intros φ c0 fuel Hg Hb Hch Hu Hhd Hf; [done|]. injection Hhd as <-.
  destruct fuel as [|fuel]; [cbn in Hf; lia|]. destruct Hch as [Hc Hl]. apply Forall_cons in Hu as [Huc Hu]. cbn [read_chain].
  unfold clus, FAT12_BAD_CLUSTER in *. replace (_ || _) with false by lia.
  apply wp_bind. eapply wp_mono; [apply read_cluster_ok; [done|lia|done]|]. intros r φ1 [-> R1].
  assert (∃ v, entry_of (FAT_CACHE φ) c = Some v) as [v Hv] by (destruct ch; naive_solver).
  apply wp_bind, (wp_get_entry φ1 c v); [by rewrite (rw_cache _ _ _ R1)|lia|by rewrite (rw_cache _ _ _ R1)|]. destruct ch as [|d ch].
  - destruct Hl as (v' & Hv' & He). assert (v' = v) as -> by congruence. rewrite (proj2 (Z.leb_le _ _)) by done. apply wp_ret.
    split; [|done]. unfold cdatas. cbn. by rewrite app_nil_r.
  - destruct Hl as [Hd Hl]. assert (v = d) as -> by congruence. pose proof (chain_clus _ _ Hl) as [Hdc _]%Forall_cons.
    unfold clus, FAT12_BAD_CLUSTER in Hdc. rewrite (proj2 (Z.leb_gt _ _)) by (unfold FAT12_EOF; lia).
    apply wp_bind. eapply wp_mono; [apply (IH φ1 d fuel); [by eapply geometry_rewritten| | | |done|cbn in *; lia]|].
    + by rewrite (rw_cache _ _ _ R1).
    + by rewrite (rw_cache _ _ _ R1).
    + eapply Forall_impl; [exact Hu|]. intros x. by eapply usable_rewritten.
    + intros r φ2 [-> R2]. apply wp_ret. split; [|by eapply rewritten_trans]. by rewrite (cdatas_same φ φ1).
Qed.

(** Writing data over clusters; what is left of the last one is cleared. *)
Lemma write_clusters_ok φ cs data off : geometry φ → NoDup cs → Forall (λ c, 2 ≤ c < 4096 ∧ usable φ c) cs → Forall is_byte data → 0 ≤ off →
  (len cs - 1) * cluster_size φ < len data - off ≤ len cs * cluster_size φ → wp (write_clusters cs data off) (λ r φ', r = Ok tt ∧
    rewritten φ φ' (λ l, ∃ c, c ∈ cs ∧ in_cluster φ c l) ∧ ∃ z, cdatas φ' cs = drop (Z.to_nat off) data ++ z) φ.
Proof.
  revert φ off. induction cs as [|c cs IH]; intros φ off Hg Hnd Hcs Hb Hoff Hlen; cbn [write_clusters].
  { apply wp_ret. split; [done|]. split; [apply rewritten_refl|]. exists []. rewrite drop_ge; [done|]. unfold len in *. cbn in Hlen. lia. }
  apply NoDup_cons in Hnd as [Hc Hnd]. apply Forall_cons in Hcs as [[Hcr Hcu] Hcs]. unfold len in Hlen at 1 4. cbn [length] in Hlen.
  assert (0 < cluster_size φ) as Hs by (destruct Hg; unfold cluster_size, SECTOR_SIZE; lia).
  wp_steps. set (e := Z.min (off + cluster_size φ) (len data)).
  apply (wp_lift (take (Z.to_nat (e - off)) (drop (Z.to_nat off) data))); [apply slice_ok; nia|].
  set (s := take _ _). assert (len s = e - off) as Hls by (unfold s, len in *; rewrite length_take, length_drop; nia).
  apply wp_bind. eapply wp_mono; [apply write_cluster_ok; [done|done|done|lia|by apply Forall_take, Forall_drop]|].
  intros r φ1 (-> & R1 & E1). pose proof (rw_layout _ _ _ R1) as [= _ HB _ _ _ _ _].
  assert (cluster_size φ1 = cluster_size φ) as Hsz by (unfold cluster_size; by rewrite HB).
  destruct cs as [|d cs].
  { cbn [write_clusters]. apply wp_ret. split; [done|]. split; [eapply rewritten_mono; [|exact R1]; intros l Hl; exists c; by split; [left|]|].
    exists (replicate (Z.to_nat (cluster_size φ - len s)) 0). unfold cdatas. cbn. rewrite app_nil_r, E1. f_equal. unfold s.
    apply take_ge. rewrite length_drop. unfold len in *. cbn in Hlen. lia. }
  eapply wp_mono; [apply (IH φ1 (off + cluster_size φ)); [by eapply geometry_rewritten|done| |done|lia|rewrite Hsz; unfold len in *; cbn [length] in *; lia]|].
  { eapply Forall_impl; [exact Hcs|]. intros x [Hx Hxu]. split; [done|]. by eapply usable_rewritten. }
  intros r φ2 (-> & R2 & z & E2). split; [done|]. assert (rewritten φ1 φ2 (λ l, ∃ x, x ∈ d :: cs ∧ in_cluster φ x l)) as R2'.
  { eapply rewritten_mono; [|exact R2]. intros l (x & Hx & Hl). exists x. split; [done|]. by rewrite (in_cluster_rewritten _ _ _ _ _ R1) in Hl. }
  split.
  - eapply rewritten_trans; (eapply rewritten_mono; [|eassumption]); cbn beta; [intros l Hl; exists c; by split; [left|]|].
    intros l (x & Hx & Hl). exists x. by split; [right|].
  - exists z. change (cdatas φ2 (c :: d :: cs)) with (cdata φ2 c ++ cdatas φ2 (d :: cs)). rewrite E2.
    rewrite (cdata_frame φ1 φ2 _ c (geometry_rewritten _ _ _ R1 Hg) R2'), E1.
    + assert (len s = cluster_size φ) as Hfull by (unfold len in *; cbn [length] in *; nia).
      rewrite Hfull, Z.sub_diag, app_nil_r. rewrite app_assoc. f_equal. unfold s. replace (e - off) with (cluster_size φ) by lia.
      replace (Z.to_nat (off + cluster_size φ)) with (Z.to_nat off + Z.to_nat (cluster_size φ))%nat by lia. rewrite <- drop_drop. apply take_drop.
    + intros l Hl (x & Hx & Hxl). rewrite (in_cluster_rewritten _ _ _ _ _ R1) in Hl. apply (cluster_disjoint φ c x l); [done| |done|done].
      intros ->. done.
Qed.
End runs.
