(* ===== verification/FatName.v ===== *)
(** * Names and directory entries of FAT12

    The 8.3 names and the 32 bytes of directory entries of fat12/src/lib.rs: a good
    name is read back as it was set, in upper case; an entry is read back as it was
    written; and scanning a directory gives the entries put in it. *)
From Stdlib Require Import Ascii.
From S2P Require Import Prelude Rust FileSystem Disk Fat12.

(** ** Names *)

(** Names that can be stored: an ASCII text without spaces, up to eight bytes, and
    after a dot one to three more. *)
Definition good_char (b : Z) : bool := (b <? 128) && negb (b =? 32).
Definition good_name (s : string) : bool :=
  forallb good_char (bytes_of s) &&
  match split_dot (bytes_of s) with
  | [base] => (0 <? len base) && (len base <=? 8) && negb (default 0 (head base) =? 0)
  | [base; ext] => (0 <? len base) && (len base <=? 8) && negb (default 0 (head base) =? 0) && (0 <? len ext) && (len ext <=? 3)
  | _ => false
  end.

Lemma split_dot_ne l : split_dot l ≠ [].
Proof. destruct l as [|b l]; [done|]. simpl. destruct (b =? 46); [done|]. by destruct (split_dot l). Qed.

Lemma split_dot_one l a : split_dot l = [a] → l = a.
Proof.
  revert a. induction l as [|b l IH]; intros a; simpl; [by intros [= <-]|]. destruct (b =? 46); [intros [= <- ?]; by destruct (split_dot_ne l)|].
  destruct (split_dot l) as [|p [|q ps]] eqn:E; [by destruct (split_dot_ne l)| |done]. intros [= <-]. by rewrite (IH p).
Qed.

Lemma split_dot_two l a b : split_dot l = [a; b] → l = a ++ 46 :: b.
Proof.
  revert a. induction l as [|x l IH]; intros a; simpl; [done|]. destruct (Z.eqb_spec x 46) as [->|Hx].
  - intros [= <- E]. by rewrite (split_dot_one l b).
  - destruct (split_dot l) as [|p ps] eqn:E; [done|]. intros [= <- ->]. by rewrite (IH p).
Qed.

Lemma upper_to_string s : to_string (upper_byte <$> bytes_of s) = map_ascii to_ascii_uppercase s.
Proof.
  induction s as [|c s IH]; [done|]. cbn [bytes_of fmap list_fmap to_string map_ascii]. f_equal; [|exact IH].
  by destruct c as [[] [] [] [] [] [] [] []].
Qed.

Lemma lower_upper s : lower (map_ascii to_ascii_uppercase s) = lower s.
Proof. unfold lower. induction s as [|c s IH]; [done|]. cbn [map_ascii]. f_equal; [|exact IH]. by destruct c as [[] [] [] [] [] [] [] []]. Qed.

Lemma bytes_of_bytes s : Forall is_byte (bytes_of s).
Proof. induction s as [|c s IH]; [done|]. constructor; [|done]. unfold is_byte. pose proof (N_ascii_bounded c). lia. Qed.

Lemma good_upper b : is_byte b → good_char b = true → good_char (upper_byte b) = true ∧ is_byte (upper_byte b).
Proof. unfold good_char, upper_byte, is_byte. intros Hb. destruct ((97 <=? b) && (b <=? 122)) eqn:E; lia. Qed.

Lemma good_uppers l : Forall is_byte l → Forall (λ b, good_char b = true) l →
  Forall (λ b, good_char b = true) (upper_byte <$> l) ∧ Forall is_byte (upper_byte <$> l).
Proof.
  intros Hb Hg. rewrite !Forall_fmap, <- Forall_and. eapply Forall_impl; [exact (proj2 (Forall_and _ _) (conj Hb Hg))|].
  intros b [H1 H2]. by apply good_upper.
Qed.

Lemma chars_good l : Forall (λ b, good_char b = true) l → concat (char_bytes <$> l) = l.
Proof.
  induction 1 as [|b l Hb _ IH]; [done|]. cbn. rewrite IH. unfold char_bytes, good_char in *. by replace (b <? 128) with true by lia.
Qed.

Lemma before_space_good l k : Forall (λ b, good_char b = true) l → before_space (l ++ replicate k 32) = l.
Proof.
  induction 1 as [|b l Hb _ IH]; [by destruct k|]. cbn. unfold good_char in Hb. replace (b =? 32) with false by lia. by rewrite IH.
Qed.

Lemma filter_good l k : Forall (λ b, good_char b = true) l → List.filter (λ b, negb (b =? 32)) (l ++ replicate k 32) = l.
Proof.
  induction 1 as [|b l Hb _ IH]; [by induction k|]. cbn. unfold good_char in Hb. replace (b =? 32) with false by lia. cbn. by rewrite IH.
Qed.

Lemma length_pad n l : (length l ≤ n)%nat → length (pad n l) = n.
Proof. intros Hl. unfold pad. rewrite length_app, length_replicate. lia. Qed.

(** What a padded name reads as. *)
Definition plain (e : DirectoryEntry) : Prop := is_empty e = false ∧ visible e = true.

Lemma get_name_plain e : plain e → ∃ s, get_name e = Ok s.
Proof.
  intros [He Hv]. unfold visible in Hv. unfold get_name. rewrite He. destruct (is_deleted e), (is_lfn e), (is_volume_id e); try done. by eexists.
Qed.

Lemma get_name_pad e base ext : plain e → de_name11 e = pad 8 base ++ pad 3 ext → (length base ≤ 8)%nat → (length ext ≤ 3)%nat →
  Forall (λ b, good_char b = true) base → Forall (λ b, good_char b = true) ext →
  get_name e = Ok (to_string (base ++ match ext with [] => [] | _ => 46 :: ext end)).
Proof.
  intros [He Hv] Hn Hb He3 Hgb Hge. unfold visible in Hv. unfold get_name. rewrite He.
  destruct (is_deleted e), (is_lfn e), (is_volume_id e); try done. cbn [orb]. rewrite Hn.
  rewrite take_app_length' by (by rewrite length_pad). rewrite drop_app_length' by (by rewrite length_pad).
  rewrite take_ge by (by rewrite length_pad). unfold pad. rewrite before_space_good, filter_good by done.
  rewrite !chars_good by done. by destruct ext.
Qed.

Lemma pad_bytes n l : Forall is_byte l → Forall is_byte (pad n l).
Proof. intros Hl. apply Forall_app. split; [done|]. apply Forall_replicate. unfold is_byte. lia. Qed.

Lemma encode_parts base ext : Forall is_byte base → Forall is_byte ext → Forall (λ b, good_char b = true) base → Forall (λ b, good_char b = true) ext →
  0 < len base ≤ 8 → len ext ≤ 3 → default 0 (head base) ≠ 0 →
  let n := pad 8 (upper_byte <$> base) ++ pad 3 (upper_byte <$> ext) in
  length n = 11%nat ∧ Forall is_byte n ∧ n !! 0%nat ≠ Some 0 ∧ n !! 0%nat ≠ Some DIR_ENTRY_DELETED ∧
  ∀ e, plain e → de_name11 e = n → get_name e = Ok (to_string ((upper_byte <$> base) ++ match ext with [] => [] | _ => 46 :: (upper_byte <$> ext) end)).
Proof.
  intros Hb He Hgb Hge Hlb Hle H0 n. unfold len in *. destruct (good_uppers base Hb Hgb) as [Hgb' Hb'], (good_uppers ext He Hge) as [Hge' He'].
  split; [by unfold n; rewrite length_app, !length_pad by (rewrite length_fmap; lia)|]. split; [by apply Forall_app; split; apply pad_bytes|].
  assert (∃ b, n !! 0%nat = Some (upper_byte b) ∧ good_char b = true ∧ b ≠ 0 ∧ is_byte b) as (b & E & Hg & Hb0 & Hbb).
  { destruct base as [|b base]; [cbn in Hlb; lia|]. exists b. split; [done|]. apply Forall_cons in Hgb as [? _], Hb as [? _]. done. }
  rewrite E. unfold good_char, upper_byte, DIR_ENTRY_DELETED, is_byte in *. split; [|split].
  - intros [= Hu]. destruct (_ && _) eqn:E2 in Hu; lia.
  - intros [= Hu]. destruct (_ && _) eqn:E2 in Hu; lia.
  - intros e Hp Hn. rewrite (get_name_pad e (upper_byte <$> base) (upper_byte <$> ext)) by (done || rewrite length_fmap; lia). by destruct ext.
Qed.

(** A good name is encoded in 11 bytes, and read as the name in upper case. *)
Lemma good_name_encode s : good_name s = true → ∃ n, encode_name s = Ok n ∧ length n = 11%nat ∧ Forall is_byte n ∧
  n !! 0%nat ≠ Some 0 ∧ n !! 0%nat ≠ Some DIR_ENTRY_DELETED ∧
  ∀ e, plain e → de_name11 e = n → get_name e = Ok (map_ascii to_ascii_uppercase s).
Proof.
  unfold good_name, encode_name. intros [Hg Hs]%andb_prop. pose proof (bytes_of_bytes s) as Hb. rewrite <- upper_to_string.
  assert (Forall (λ b, good_char b = true) (bytes_of s)) as Hgs.
  { apply Forall_forall. intros b Hin. rewrite forallb_forall in Hg. apply Hg. by apply list_elem_of_In. }
  destruct (split_dot (bytes_of s)) as [|base [|ext [|]]] eqn:E; try done.
  - apply split_dot_one in E. rewrite E in *. replace (8 <? len base) with false by lia.
    destruct (encode_parts base [] Hb ltac:(done) Hgs ltac:(done)) as (H1 & H2 & H3 & H4 & H5); [lia|done|lia|].
    eexists. split_and!; [done|done|done|done|done|]. intros e Hp Hn. rewrite (H5 e Hp Hn). by rewrite app_nil_r.
  - apply split_dot_two in E. rewrite E in *. replace (8 <? len base) with false by lia. replace (3 <? len ext) with false by lia.
    apply Forall_app in Hb as [Hb1 [_ Hb2]%Forall_cons], Hgs as [Hg1 [_ Hg2]%Forall_cons].
    destruct (encode_parts base ext Hb1 Hb2 Hg1 Hg2) as (H1 & H2 & H3 & H4 & H5); [lia|lia|lia|].
    eexists. split_and!; [done|done|done|done|done|]. intros e Hp Hn. rewrite (H5 e Hp Hn). rewrite fmap_app, fmap_cons.
    assert (0 < len ext) by lia. by destruct ext.
Qed.

(** ** Entries *)

Record wf_entry (e : DirectoryEntry) : Prop := {
  w_name : length (de_name11 e) = 11%nat ∧ Forall is_byte (de_name11 e);
  w_bytes : is_byte (attributes e) ∧ is_byte (reserved e) ∧ is_byte (creation_time_tenth e);
  w_times : 0 ≤ creation_time e < 2 ^ 16 ∧ 0 ≤ creation_date e < 2 ^ 16 ∧ 0 ≤ last_access_date e < 2 ^ 16 ∧
    0 ≤ last_mod_time e < 2 ^ 16 ∧ 0 ≤ last_mod_date e < 2 ^ 16;
  w_file : 0 ≤ first_cluster_high e < 2 ^ 16 ∧ 0 ≤ first_cluster e < 2 ^ 16 ∧ 0 ≤ file_size e < 2 ^ 32;
}.

Lemma entry_bytes_wf e : wf_entry e → length (entry_bytes e) = 32%nat ∧ Forall is_byte (entry_bytes e).
Proof.
  intros [[Hl Hb] _ _ _]. unfold entry_bytes. rewrite !length_app, !length_to_le, Hl. split; [done|].
  rewrite !Forall_app. split_and!; try apply to_le_bytes. done.
Qed.

(** What is read from an entry is what was written. *)
Lemma read_entry_bytes e : wf_entry e → read_entry (entry_bytes e) = e.
Proof.
  intros [[Hl _] (Ha & Hr & Hc) (H1 & H2 & H3 & H4 & H5) (H6 & H7 & H8)]. destruct e as [n a r c t1 t2 t3 f1 t4 t5 f2 f3]. cbn in *. unfold is_byte in *.
  do 12 (destruct n as [|? n]; [try done|try done]).
  unfold read_entry, field, entry_bytes. cbn [de_name11 attributes reserved creation_time_tenth creation_time creation_date last_access_date
    first_cluster_high last_mod_time last_mod_date first_cluster file_size].
  cbn [to_le app take drop]. f_equal;
    match goal with |- _ = ?v => first [exact (from_to_le_small 1 v ltac:(assumption))|exact (from_to_le_small 2 v ltac:(assumption))|
      exact (from_to_le_small 4 v ltac:(assumption))] end.
Qed.

Lemma field_range l off n : Forall is_byte l → 0 ≤ field l off n < 2 ^ (8 * Z.of_nat n).
Proof.
  intros Hl. unfold field. pose proof (from_le_range (take n (drop off l)) ltac:(by apply Forall_take, Forall_drop)) as Hr.
  unfold len in Hr. rewrite length_take in Hr. pose proof (Z.pow_le_mono_r 2 (8 * Z.of_nat (n `min` length (drop off l))) (8 * Z.of_nat n)). lia.
Qed.

Lemma read_entry_wf l : Forall is_byte l → length l = 32%nat → wf_entry (read_entry l).
Proof.
  intros Hb Hl. unfold read_entry. assert (∀ off n, 0 ≤ field l off n < 2 ^ (8 * Z.of_nat n)) as Hf by (intros; by apply field_range).
  split; cbn; unfold is_byte; split_and!; try apply Hf; [rewrite length_take; lia|by apply Forall_take].
Qed.

(** ** Directories *)

Lemma len_entries es : Forall wf_entry es → len (concat (entry_bytes <$> es)) = 32 * len es.
Proof.
  induction 1 as [|e es He _ IH]; [done|]. cbn [fmap list_fmap concat]. rewrite len_app, IH. unfold len. rewrite (proj1 (entry_bytes_wf e He)).
  cbn [length]. lia.
Qed.

Lemma put_entries_ok es l off : Forall wf_entry es → 0 ≤ off → off + 32 * len es ≤ len l →
  put_entries l off es = Some (take (Z.to_nat off) l ++ concat (entry_bytes <$> es) ++ drop (Z.to_nat (off + 32 * len es)) l).
Proof.
  intros Hes. revert l off. induction Hes as [|e es He Hes IH]; intros l off H0 Hlen; cbn [put_entries].
  - unfold len. cbn. rewrite Z.add_0_r. by rewrite take_drop.
  - destruct (entry_bytes_wf e He) as [Hl _]. unfold patch.
    assert (len (e :: es) = len es + 1) as Hcons by (unfold len; cbn [length]; lia). rewrite Hcons in *. pose proof (len_nonneg es).
    assert (len (entry_bytes e) = 32) as Hl' by (unfold len; lia). rewrite Hl'. replace (_ && _) with true by lia. cbn [mbind option_bind].
    set (l' := take _ _ ++ _). assert (len l' = len l) as Hlen'.
    { unfold l', len in *. rewrite !length_app, length_take, length_drop, Hl. lia. }
    rewrite IH by lia. f_equal. cbn [fmap list_fmap concat]. unfold l'.
    assert (length (take (Z.to_nat off) l) = Z.to_nat off) as Ht by (rewrite length_take; unfold len in *; lia).
    rewrite (app_assoc (take _ l) (entry_bytes e)). rewrite take_app_length' by (rewrite length_app, Ht, Hl; lia).
    rewrite drop_app_ge by (rewrite length_app, Ht, Hl; lia). rewrite drop_drop, length_app, Ht, Hl. rewrite <- !app_assoc. do 4 f_equal. lia.
Qed.

Lemma zero_entry n : (32 ≤ n)%nat → is_empty (read_entry (take 32 (replicate n 0))) = true.
Proof. intros Hn. rewrite take_replicate, Nat.min_l by done. done. Qed.

(** Scanning what was written gives the entries that are visible. *)
Lemma scan_entries_ok es a k n : Forall (λ e, wf_entry e ∧ is_empty e = false) es → (length es ≤ n)%nat → (n * 32 ≤ length es * 32 + k)%nat →
  scan_entries (a ++ concat (entry_bytes <$> es) ++ replicate k 0) (len a) n = Some (List.filter visible es, (length es <? n)%nat).
Proof.
  intros Hes. revert a n. induction Hes as [|e es [He Hne] Hes IH]; intros a n Hn Hk.
  - cbn [fmap list_fmap concat app]. cbn [length] in Hk. destruct n as [|n]; [done|]. cbn [scan_entries].
    rewrite slice_ok by (unfold len; rewrite ?length_app, ?length_replicate; lia). rewrite Z.add_simpl_l.
    unfold len. rewrite Nat2Z.id, drop_app_length. change (Z.to_nat 32) with 32%nat. cbn [mbind option_bind]. by rewrite zero_entry by lia.
  - destruct n as [|n]; [cbn in Hn; lia|]. destruct (entry_bytes_wf e He) as [Hl _]. cbn [scan_entries fmap list_fmap concat].
    rewrite slice_ok by (unfold len; rewrite ?length_app, ?Hl; lia). rewrite Z.add_simpl_l.
    replace (Z.to_nat (len a)) with (length a) by (unfold len; lia). rewrite drop_app_length. change (Z.to_nat 32) with 32%nat.
    rewrite <- app_assoc, take_app_length' by done. cbn [mbind option_bind]. rewrite (read_entry_bytes e He), Hne.
    rewrite app_assoc. replace (len a + 32) with (len (a ++ entry_bytes e)) by (rewrite len_app; unfold len; lia).
    rewrite IH by (cbn in *; lia). cbn [mbind option_bind fst snd List.filter length]. by destruct (visible e).
Qed.

(** What scanning gives are well-formed entries that are in use. *)
Lemma scan_entries_plain l off n es b : Forall is_byte l → scan_entries l off n = Some (es, b) →
  Forall (λ e, wf_entry e ∧ plain e) es ∧ (length es ≤ n)%nat.
Proof.
  intros Hl. revert off es b. induction n as [|n IH]; intros off es b; cbn [scan_entries]; [intros [= <- <-]; split; [done|cbn; lia]|].
  destruct (slice l off (off + 32)) as [s|] eqn:Es; [|done]. cbn [mbind option_bind].
  assert (wf_entry (read_entry s)) as Hwf.
  { unfold slice in Es. destruct (_ && _) eqn:E in Es; [|done]. injection Es as <-. apply read_entry_wf; [by apply Forall_take, Forall_drop|].
    rewrite length_take, length_drop. unfold len in E. lia. }
  destruct (is_empty (read_entry s)) eqn:Ee; [intros [= <- <-]; split; [done|cbn; lia]|].
  destruct (scan_entries l (off + 32) n) as [[es' b']|] eqn:E'; [|done]. cbn. intros [= <- <-]. destruct (IH _ _ _ E') as [Hes Hn].
  destruct (visible (read_entry s)) eqn:Ev; cbn [length]; [|by split; [|lia]]. split; [constructor; [|done]; by split|lia].
Qed.
