(* ===== verification/FatSpec.v ===== *)
(** * FAT12 as a file system

    A volume as it is kept by fat12/src/lib.rs: the statics of a mounted volume,
    its table, its root directory and the chains of its files ([vol]), and the map
    from names to contents they stand for. Each operation of the driver does on a
    volume what it does on the map. *)
From S2P Require Import Prelude Rust FileSystem Disk Fat12 FatTable FatDisk FatName.

(** A file: its entry, and the clusters of its chain. *)
Abbreviation file := (DirectoryEntry * list Z)%type.

Section volume.
Context {D : Type} `{!Disk D} `{!DiskLaws D}.
Implicit Types φ : fat D.

(** ** Changes

    From [φ] to [φ'], entries of the table outside [C] and sectors outside [P] are
    kept, and so are the statics and the lock. *)
Record evolves φ φ' (C P : Z → Prop) : Prop := {
  ev_layout : layout φ' = layout φ;
  ev_lock : FAT_LOCK φ' = FAT_LOCK φ;
  ev_len : length (FAT_CACHE φ') = length (FAT_CACHE φ);
  ev_bytes : Forall is_byte (FAT_CACHE φ) → Forall is_byte (FAT_CACHE φ');
  ev_entry c : 0 ≤ c → ¬ C c → entry_of (FAT_CACHE φ') c = entry_of (FAT_CACHE φ) c;
  ev_sector d l : ¬ (d = FAT_DRIVE φ ∧ P l) → sector (disk φ') d l = sector (disk φ) d l;
  ev_ready d l : ready (disk φ) d l → ready (disk φ') d l;
}.

Definition none (_ : Z) : Prop := False.

Lemma evolves_refl φ C P : evolves φ φ C P.
Proof. by split. Qed.

Lemma evolves_trans φ φ1 φ2 C P : evolves φ φ1 C P → evolves φ1 φ2 C P → evolves φ φ2 C P.
Proof.
  intros [A1 B1 L1 F1 E1 S1 R1] [A2 B2 L2 F2 E2 S2 R2]. pose proof A1 as [= Hd _ _ _ _ _ _]. split; [congruence|congruence|congruence|by auto| | |by auto].
  - intros c Hc HC. by rewrite E2, E1.
  - intros d l Hn. rewrite S2 by (by rewrite Hd). by apply S1.
Qed.

Lemma evolves_mono φ φ' (C C' P P' : Z → Prop) : (∀ c, C c → C' c) → (∀ l, P l → P' l) → evolves φ φ' C P → evolves φ φ' C' P'.
Proof.
  intros HC HP [A B L F E S R]. split; [done|done|done|done| | |done].
  - intros c Hc Hn. apply E; [done|]. by auto.
  - intros d l Hn. apply S. intros [-> ?]. apply Hn. by auto.
Qed.

Lemma evolves_rewritten φ φ' C P : rewritten φ φ' P → evolves φ φ' C P.
Proof.
  intros R. split; [by eapply rw_layout| | | | |apply (rw_sector _ _ _ R)|apply (rw_ready _ _ _ R)]; rewrite (rw_state _ _ _ R); done.
Qed.

Lemma evolves_retabled φ φ' f (C P : Z → Prop) : retabled φ φ' f → (∀ c, 0 ≤ c → ¬ C c → f c = entry_of (FAT_CACHE φ) c) → evolves φ φ' C P.
Proof.
  intros [E L B F] Hf. split; [by rewrite E|by rewrite E|done|done| |by rewrite E|by rewrite E]. intros c Hc HC. rewrite F by done. by apply Hf.
Qed.

(** ** The parts of a volume *)

Record formatted (b : BiosParameterBlock) : Prop := {
  f_bps : bytes_per_sector b = 512;
  f_spc : 1 ≤ sectors_per_cluster b < 256;
  f_res : 1 ≤ reserved_sectors b < 2 ^ 16;
  f_fats : 1 ≤ num_fats b < 256;
  f_root : 0 ≤ root_entry_count b < 2 ^ 16;
  f_size : 0 ≤ fat_size_16 b < 2 ^ 16;
}.

Definition root_sectors (b : BiosParameterBlock) : Z := (root_entry_count b * 32 + 511) / 512.
Definition root_start (b : BiosParameterBlock) : Z := reserved_sectors b + num_fats b * fat_size_16 b.
Definition data_start (b : BiosParameterBlock) : Z := root_start b + root_sectors b.

(** The statics of a mounted volume, and its table in memory. *)
Record base φ : Prop := {
  b_drive : 0 ≤ FAT_DRIVE φ < 4;
  b_format : formatted (BPB φ);
  b_layout : layout φ = (FAT_DRIVE φ, BPB φ, reserved_sectors (BPB φ), root_start (BPB φ), data_start (BPB φ), root_sectors (BPB φ), true);
  b_ready : ready_run φ 0 (data_start (BPB φ));
  b_len : len (FAT_CACHE φ) = fat_size_16 (BPB φ) * 512;
  b_bytes : Forall is_byte (FAT_CACHE φ);
}.

Lemma base_geometry φ : base φ → geometry φ.
Proof.
  intros [Hd [_ H1 H2 H3 H4 H5] HL _ _ _]. split; [done|done|]. injection HL as _ _ -> _ _. unfold data_start, root_start, root_sectors. 
  assert (num_fats (BPB φ) * fat_size_16 (BPB φ) ≤ 256 * 2 ^ 16) by nia. assert (0 ≤ num_fats (BPB φ) * fat_size_16 (BPB φ)) by nia. divlia.
Qed.

Lemma base_evolves φ φ' C P : evolves φ φ' C P → base φ → base φ'.
Proof.
  intros [A _ L F _ _ R] [Hd Hf HL (H0 & H1 & Hr) Hl Hb]. pose proof A as [= HD HB _ _ _ _ _]. 
  split; rewrite ?HD, ?HB; [done|done|by rewrite A| |unfold len in *; by rewrite L|by auto].
  split; [done|]. split; [done|]. intros l Hll. rewrite HD. by apply R, Hr.
Qed.

(** The sectors of the tables and of the root directory. *)
Definition in_fats φ (l : Z) : Prop := FAT_START_SECTOR φ ≤ l < ROOT_DIR_START_SECTOR φ.
Definition in_root φ (l : Z) : Prop := ROOT_DIR_START_SECTOR φ ≤ l < DATA_START_SECTOR φ.
Definition root φ : list Z := run (disk φ) (FAT_DRIVE φ) (ROOT_DIR_START_SECTOR φ) (Z.to_nat (ROOT_DIR_SECTORS φ)).

(** The entries of the root directory are [es]. *)
Definition dir φ (es : list DirectoryEntry) : Prop := ∃ b, scan_entries (root φ) 0 (Z.to_nat (root_entry_count (BPB φ))) = Some (es, b).

Lemma base_regions φ : base φ → 1 ≤ FAT_START_SECTOR φ ≤ ROOT_DIR_START_SECTOR φ ∧ ROOT_DIR_START_SECTOR φ + ROOT_DIR_SECTORS φ = DATA_START_SECTOR φ ∧
  0 ≤ ROOT_DIR_SECTORS φ ∧ 0 ≤ root_entry_count (BPB φ) ∧ root_entry_count (BPB φ) * 32 ≤ ROOT_DIR_SECTORS φ * 512 ∧
  ready_run φ 0 (DATA_START_SECTOR φ) ∧ FAT_START_SECTOR φ + num_fats (BPB φ) * fat_size_16 (BPB φ) = ROOT_DIR_START_SECTOR φ.
Proof.
  intros [_ [_ H1 H2 H3 H4 H5] HL Hr _ _]. injection HL as -> -> -> -> _. unfold data_start, root_start, root_sectors in *.
  assert (0 ≤ num_fats (BPB φ) * fat_size_16 (BPB φ)) by nia. split_and!; try done; divlia.
Qed.

Lemma dir_evolves φ φ' C P es : base φ → evolves φ φ' C P → (∀ l, in_root φ l → ¬ P l) → dir φ es → dir φ' es.
Proof.
  intros Hb [A _ _ _ _ S _] HP [b E]. exists b. pose proof A as [= HD HB _ HR _ HS _]. unfold root in *. rewrite HD, HB, HR, HS.
  rewrite (run_ext (disk φ)); [done|]. destruct (base_regions φ Hb) as (_ & H1 & H2 & _). intros l Hl. apply S. intros [_ ?]. apply (HP l); [|done].
  unfold in_root. lia.
Qed.

(** ** Steps of the operations *)

Lemma ready_part φ n lba k : ready_run φ 0 n → 0 ≤ lba → lba + k ≤ n → ready_run φ lba k.
Proof. intros (_ & H1 & Hr) H0 Hk. split; [done|]. split; [lia|]. intros l Hl. apply Hr. lia. Qed.

Lemma read_root_ok φ es : base φ → dir φ es → wp read_root_directory_unlocked (λ r φ', r = Ok es ∧ rewritten φ φ' none) φ.
Proof.
  intros Hb [b E]. destruct (base_regions φ Hb) as (H1 & H2 & H3 & H4 & H5 & Hr & _). unfold read_root_directory_unlocked. wp_steps.
  eapply wp_mono; [apply read_run_ok; [apply Hb|]|]; [rewrite Z2Nat.id by done; apply (ready_part φ _ _ _ Hr); lia|].
  intros r φ1 [-> R]. wp_steps. pose proof (rw_layout _ _ _ R) as [= _ HB _ _ _ _ _]. rewrite HB. apply (wp_lift _ _ _ _ E). by apply wp_ret.
Qed.

(** Entries that can be written to a directory. *)
Definition storable (es : list DirectoryEntry) : Prop := Forall (λ e, wf_entry e ∧ is_empty e = false) es.

Lemma write_root_ok φ es : base φ → storable es → len es ≤ root_entry_count (BPB φ) → wp (write_root_directory_unlocked es) (λ r φ',
  r = Ok tt ∧ rewritten φ φ' (in_root φ) ∧ dir φ' (List.filter visible es)) φ.
Proof.
  intros Hb Hes Hlen. destruct (base_regions φ Hb) as (H1 & H2 & H3 & H4 & H5 & Hr & _). unfold write_root_directory_unlocked, SECTOR_SIZE. wp_steps.
  assert (Forall wf_entry es) as Hwf by (eapply Forall_impl; [exact Hes|]; by intros e [? _]). pose proof (len_entries es Hwf) as Hle.
  set (k := (Z.to_nat (ROOT_DIR_SECTORS φ * 512) - Z.to_nat (32 * len es))%nat).
  apply (wp_lift (concat (entry_bytes <$> es) ++ replicate k 0)).
  { rewrite put_entries_ok; [|done|done|unfold len in *; rewrite length_replicate; lia]. by rewrite Z.add_0_l, drop_replicate, take_0. }
  pose proof (len_nonneg es). wp_steps. eapply wp_mono; [apply write_run_ok; [apply Hb| | |]|].
  - rewrite Z2Nat.id by done. apply (ready_part φ _ _ _ Hr); lia.
  - rewrite len_app, Hle. unfold len at 2. rewrite length_replicate. unfold k, SECTOR_SIZE. lia.
  - apply Forall_app. split; [|apply Forall_replicate; unfold is_byte; lia]. apply Forall_concat, Forall_fmap. eapply Forall_impl; [exact Hwf|].
    intros e He. by apply entry_bytes_wf.
  - intros r φ' (-> & R & E). split; [done|]. rewrite Z2Nat.id in R by done. split; [eapply rewritten_mono; [|exact R]; unfold in_root; lia|].
    exists (length es <? Z.to_nat (root_entry_count (BPB φ)))%nat. pose proof (rw_layout _ _ _ R) as [= HD HB _ HR _ HS _].
    unfold root. rewrite HD, HB, HR, HS, E. apply (scan_entries_ok es [] k); [done|unfold len in *; lia|unfold k, len in *; lia].
Qed.

(** The first table of the disk is the one in memory. *)
Definition synced φ : Prop := run (disk φ) (FAT_DRIVE φ) (FAT_START_SECTOR φ) (Z.to_nat (fat_size_16 (BPB φ))) = FAT_CACHE φ.

Lemma flush_copies_ok φ k n : base φ → 1 ≤ k → k + Z.of_nat n ≤ num_fats (BPB φ) → wp (flush_copies k n) (λ r φ', r = Ok tt ∧
  rewritten φ φ' (λ l, FAT_START_SECTOR φ + fat_size_16 (BPB φ) ≤ l < ROOT_DIR_START_SECTOR φ)) φ.
Proof.
  revert φ k. induction n as [|n IH]; intros φ k Hb Hk Hn; cbn [flush_copies]; [apply wp_ret; split; [done|apply rewritten_refl]|].
  destruct (base_regions φ Hb) as (H1 & H2 & H3 & _ & _ & Hr & Hf). pose proof (f_size _ (b_format _ Hb)) as Hs.
  wp_steps. eapply wp_mono; [apply write_run_ok; [apply Hb| | |apply Hb]|].
  - rewrite Z2Nat.id by lia. apply (ready_part φ _ _ _ Hr); nia.
  - rewrite (b_len _ Hb), Z2Nat.id by lia. done.
  - intros r φ1 (-> & R & _). rewrite Z2Nat.id in R by lia. pose proof (rw_layout _ _ _ R) as [= HD HB HF HR _ HS _].
    eapply wp_mono; [apply (IH φ1 (k + 1)); [by eapply base_evolves; [eapply (evolves_rewritten _ _ none)|]|lia|rewrite HB; lia]|].
    intros r φ2 [-> R2]. split; [done|]. eapply rewritten_trans; [|rewrite HB, HF, HR in R2; exact R2]. eapply rewritten_mono; [|exact R]. cbn beta. nia.
Qed.

Lemma flush_ok φ : base φ → wp flush_fat_unlocked (λ r φ', r = Ok tt ∧ rewritten φ φ' (in_fats φ) ∧ synced φ') φ.
Proof.
  intros Hb. destruct (base_regions φ Hb) as (H1 & H2 & H3 & _ & _ & Hr & Hf). pose proof (b_format _ Hb) as [_ _ _ Hnf _ Hs].
  unfold flush_fat_unlocked. wp_steps. eapply wp_mono; [apply write_run_ok; [apply Hb| | |apply Hb]|].
  - rewrite Z2Nat.id by lia. apply (ready_part φ _ _ _ Hr); nia.
  - rewrite (b_len _ Hb), Z2Nat.id by lia. done.
  - intros r φ1 (-> & R & E). rewrite Z2Nat.id in R by lia. pose proof (rw_layout _ _ _ R) as [= HD HB HF HR _ HS _].
    wp_steps. rewrite HB. eapply wp_mono; [apply (flush_copies_ok φ1); [by eapply base_evolves; [eapply (evolves_rewritten _ _ none)|]|lia|rewrite HB; lia]|].
    intros r φ2 [-> R2]. split; [done|]. pose proof (rw_layout _ _ _ R2) as [= HD2 HB2 HF2 _ _ _ _]. rewrite HB, HF, HR in R2. split.
    + eapply rewritten_trans; (eapply rewritten_mono; [|eassumption]); unfold in_fats; cbn beta; nia.
    + unfold synced. rewrite HD2, HB2, HF2, HD, HB, HF, (rw_cache _ _ _ R2), (rw_cache _ _ _ R), <- E. apply run_ext. intros l Hl. rewrite <- HD.
      apply (rw_sector _ _ _ R2). lia.
Qed.

(** ** Files *)

Lemma usable_evolves φ φ' C P c : evolves φ φ' C P → usable φ c → usable φ' c.
Proof.
  intros [A _ _ _ _ _ R] (H0 & H1 & Hr). pose proof A as [= HD HB _ _ HS _ _]. unfold usable, cstart in *. rewrite HB, HS.
  split; [done|]. split; [done|]. intros l Hl. rewrite HD. by apply R, Hr.
Qed.

Lemma in_cluster_evolves φ φ' C P c l : evolves φ φ' C P → in_cluster φ' c l ↔ in_cluster φ c l.
Proof. intros [A _ _ _ _ _ _]. pose proof A as [= _ HB _ _ HS _ _]. unfold in_cluster, cstart. by rewrite HB, HS. Qed.

Lemma cluster_size_evolves φ φ' C P : evolves φ φ' C P → cluster_size φ' = cluster_size φ.
Proof. intros [A _ _ _ _ _ _]. pose proof A as [= _ HB _ _ _ _ _]. unfold cluster_size. by rewrite HB. Qed.

Lemma cdatas_evolves φ φ' C P ch : base φ → evolves φ φ' C P → (∀ c l, c ∈ ch → in_cluster φ c l → ¬ P l) → cdatas φ' ch = cdatas φ ch.
Proof.
  intros Hb [A _ _ _ _ S _] HP. pose proof A as [= HD HB _ _ HS _ _]. pose proof (g_spc _ (base_geometry _ Hb)).
  unfold cdatas. f_equal. apply list_fmap_ext. intros i c Hc%list_elem_of_lookup_2. unfold cdata, cstart. rewrite HD, HB, HS. apply run_ext.
  intros l Hl. apply S. intros [_ ?]. apply (HP c l); [done| |done]. unfold in_cluster, cstart. lia.
Qed.

Definition file_ok φ (x : file) : Prop :=
  (snd x = [] ∧ first_cluster (fst x) < 2 ∧ file_size (fst x) = 0) ∨
  (chain (FAT_CACHE φ) (snd x) ∧ head (snd x) = Some (first_cluster (fst x)) ∧ file_size (fst x) ≤ len (snd x) * cluster_size φ).
Definition chains (fl : list file) : list Z := concat (snd <$> fl).
Definition content φ (x : file) : list Z := take (Z.to_nat (file_size (fst x))) (cdatas φ (snd x)).

(** No cluster belongs to two files, and those of files and free ones are on the disk. *)
Record store φ (fl : list file) : Prop := {
  s_files : Forall (file_ok φ) fl;
  s_nodup : NoDup (chains fl);
  s_usable c : c ∈ chains fl ∨ c ∈ free_list (FAT_CACHE φ) → usable φ c;
}.

Lemma file_clus φ x c : file_ok φ x → c ∈ snd x → clus c.
Proof. intros [(-> & _)|(Hc & _)] Hin; [by apply not_elem_of_nil in Hin|]. apply chain_clus in Hc. rewrite Forall_forall in Hc. by apply Hc. Qed.

Lemma file_ok_evolves φ φ' C P x : evolves φ φ' C P → (∀ c, c ∈ snd x → ¬ C c) → file_ok φ x → file_ok φ' x.
Proof.
  intros Hev HC Hx. pose proof (file_clus φ x) as Hcl. destruct Hx as [Hx|(Hc & Hh & Hs)]; [by left|right].
  rewrite (cluster_size_evolves _ _ _ _ Hev). split; [|done]. eapply chain_entries; [|exact Hc]. intros c Hin. apply (ev_entry _ _ _ _ Hev); [|by apply HC].
  assert (clus c) as Hcc by (apply Hcl; [by right|done]). unfold clus in Hcc. lia.
Qed.

Lemma chains_elem fl c : c ∈ chains fl ↔ ∃ x, x ∈ fl ∧ c ∈ snd x.
Proof.
  unfold chains. rewrite list_elem_of_In, in_concat. split.
  - intros (l & Hl & Hc). apply list_elem_of_In, list_elem_of_fmap in Hl as (x & -> & Hx). exists x. split; [done|]. by apply list_elem_of_In.
  - intros (x & Hx & Hc). exists (snd x). split; [|by apply list_elem_of_In]. apply list_elem_of_In, list_elem_of_fmap. by exists x.
Qed.

Lemma store_evolves φ φ' C P fl : evolves φ φ' C P → (∀ c, c ∈ chains fl → ¬ C c) →
  (∀ c, c ∈ free_list (FAT_CACHE φ') → c ∈ free_list (FAT_CACHE φ)) → store φ fl → store φ' fl.
Proof.
  intros Hev HC Hfree [Hf Hnd Hu]. split; [|done|].
  - rewrite Forall_forall in Hf |- *. intros x Hx. eapply file_ok_evolves; [exact Hev| |by apply Hf]. intros c Hc. apply HC, chains_elem. by exists x.
  - intros c [Hc|Hc]; eapply usable_evolves; [exact Hev|apply Hu; by left|exact Hev|apply Hu; right; by apply Hfree].
Qed.

Lemma length_content φ x : base φ → file_ok φ x → 0 ≤ file_size (fst x) → len (content φ x) = file_size (fst x).
Proof.
  intros Hb Hx H0. unfold content, len. rewrite length_take. pose proof (length_cdatas φ (snd x) (base_geometry _ Hb)) as Hl. unfold len in Hl.
  destruct Hx as [(E & _ & ->)|(_ & _ & Hs)]; unfold len in *; lia.
Qed.

(** ** Freeing and allocating the clusters of a file *)

Lemma free_file_ok φ x : base φ → file_ok φ x → NoDup (snd x) → wp (free_cluster_chain (first_cluster (fst x))) (λ _ φ',
  evolves φ φ' (λ c, c ∈ snd x) none ∧ ∀ c, c ∈ snd x → entry_of (FAT_CACHE φ') c = Some 0) φ.
Proof.
  intros Hb Hx Hnd. unfold free_cluster_chain. destruct Hx as [(E & Hc & _)|(Hc & Hh & _)].
  - assert (∃ f, CHAIN = S f) as [f ->] by (by eexists). cbn [free_chain]. replace (_ && _) with false by lia. apply wp_ret.
    rewrite E. split; [apply evolves_refl|]. by intros c ?%not_elem_of_nil.
  - pose proof (chain_clus _ _ Hc) as Hcl. eapply wp_mono; [apply (free_chain_ok φ (snd x)); [apply Hb|done|done|done|]|].
    + pose proof (clus_length _ Hnd Hcl). lia.
    + intros [] φ' R. split.
      * eapply evolves_retabled; [exact R|]. intros c _ Hn. cbn beta. by rewrite bool_decide_false.
      * intros c Hin. rewrite Forall_forall in Hcl. pose proof (Hcl c Hin) as Hcc. unfold clus in Hcc. rewrite (rt_entry _ _ _ R) by lia.
        by rewrite bool_decide_true.
Qed.

(** How many clusters data takes. *)
Definition needed φ (data : list Z) : nat := Z.to_nat ((len data + cluster_size φ - 1) / cluster_size φ).

Lemma needed_spec φ data : 0 < cluster_size φ → data ≠ [] →
  (Z.of_nat (needed φ data) - 1) * cluster_size φ < len data ≤ Z.of_nat (needed φ data) * cluster_size φ ∧ (0 < needed φ data)%nat.
Proof.
  intros Hs Hd. assert (0 < len data) by (destruct data; [done|unfold len; cbn [length]; lia]). unfold needed.
  assert (0 < (len data + cluster_size φ - 1) / cluster_size φ) by (apply Z.div_str_pos; lia). rewrite Z2Nat.id by lia. split; [|lia].
  pose proof (Z.div_mod (len data + cluster_size φ - 1) (cluster_size φ) ltac:(lia)).
  pose proof (Z.mod_pos_bound (len data + cluster_size φ - 1) (cluster_size φ) ltac:(lia)). nia.
Qed.

Lemma cluster_size_pos φ : base φ → 0 < cluster_size φ.
Proof. intros Hb. destruct (base_geometry φ Hb) as [_ H _]. unfold cluster_size, SECTOR_SIZE. lia. Qed.

Lemma allocate_write_ok φ data : base φ → data ≠ [] → Forall is_byte data → (∀ c, c ∈ free_list (FAT_CACHE φ) → usable φ c) →
  (needed φ data ≤ length (free_list (FAT_CACHE φ)))%nat → wp (allocate_and_write_chain data) (λ r φ', ∃ ch z, r = Ok ch ∧
    ch = take (needed φ data) (free_list (FAT_CACHE φ)) ∧
    evolves φ φ' (λ c, c ∈ ch) (λ l, ∃ c, c ∈ ch ∧ in_cluster φ c l) ∧ chain (FAT_CACHE φ') ch ∧ cdatas φ' ch = data ++ z) φ.
Proof.
  intros Hb Hne Hd Hu Hn. pose proof (cluster_size_pos φ Hb) as Hs. destruct (needed_spec φ data Hs Hne) as [Hlen Hpos].
  set (ch := take (needed φ data) (free_list (FAT_CACHE φ))). assert (length ch = needed φ data) as Hch by (unfold ch; rewrite length_take; lia).
  assert (Forall (λ c, 2 ≤ c < 0xFF0 ∧ entry_of (FAT_CACHE φ) c = Some 0 ∧ usable φ c) ch) as Hcs.
  { apply Forall_forall. intros c Hc. assert (c ∈ free_list (FAT_CACHE φ)) as Hc' by (eapply elem_of_sublist; [exact Hc|apply sublist_take]). clear Hc; rename Hc' into Hc. pose proof (Hu c Hc).
    apply free_list_elem in Hc as [? ?]. done. }
  assert (NoDup ch) as Hnd by (eapply sublist_NoDup; [apply (free_list_nodup (FAT_CACHE φ))|apply sublist_take]).
  unfold allocate_and_write_chain. wp_steps. rewrite (proj2 (Z.eqb_neq _ _)) by lia. fold (needed φ data).
  apply wp_bind. eapply wp_mono; [apply allocate_clusters_ok; [apply Hb|done]|]. intros r φ1 [-> H1]. fold ch in H1 |- *.
  apply wp_bind. eapply wp_mono; [apply (link_clusters_ok φ1 ch); [apply (rt_bytes _ _ _ H1)|by destruct ch; [cbn in Hch; lia|]|done|]|].
  { eapply Forall_impl; [exact Hcs|]. intros c (Hc & E0 & _). split; [unfold clus, FAT12_BAD_CLUSTER; lia|].
    destruct (entry_in_table _ c 0 ltac:(lia) E0) as [? Hl]. split; [done|]. unfold len in *. by rewrite (rt_len _ _ _ H1). }
  intros [] φ2 (Hchain & f & H2 & Hf).
  assert (evolves φ φ2 (λ c, c ∈ ch) none) as E2.
  { eapply evolves_trans; [eapply evolves_retabled; [exact H1|]|eapply evolves_retabled; [exact H2|exact Hf]]. intros c _ Hc. cbn beta.
    by rewrite bool_decide_false. }
  assert (geometry φ2) as Hg by (by eapply base_geometry, base_evolves).
  pose proof (cluster_size_evolves _ _ _ _ E2) as Hsz. apply wp_bind. eapply wp_mono; [apply (write_clusters_ok φ2 ch data 0); [done|done| |done|done|]|].
  { eapply Forall_impl; [exact Hcs|]. intros c (Hc & _ & Hcu). split; [lia|]. by eapply usable_evolves. }
  { rewrite Hsz. unfold len at 1 4. rewrite Hch. lia. }
  intros r φ3 (-> & R3 & z & E3). apply wp_ret. exists ch, z. split; [done|]. split; [done|]. split_and!; [| |done].
  - eapply evolves_trans; [eapply evolves_mono; [| |exact E2]; [done|by intros l []]|].
    eapply evolves_mono; [| |exact (evolves_rewritten _ _ (λ c, c ∈ ch) _ R3)]; [done|].
    intros l (c & Hc & Hl). exists c. split; [done|]. by rewrite (in_cluster_evolves _ _ _ _ _ _ E2) in Hl.
  - by rewrite (rw_cache _ _ _ R3).
Qed.

(** ** Volumes *)

Definition ename (e : DirectoryEntry) : string := match get_name e with Ok n => n | Err _ => EmptyString end.
Definition file_of φ (x : file) : RamFile := MkRamFile (ename (fst x)) (content φ x).
Definition files φ (fl : list file) : list RamFile := file_of φ <$> fl.

Record vol φ (fl : list file) : Prop := {
  v_base : base φ;
  v_dir : dir φ (fst <$> fl);
  v_store : store φ fl;
  v_names : NoDup (key <$> files φ fl);
}.

Lemma dir_plain φ es : base φ → dir φ es → Forall (λ e, wf_entry e ∧ plain e) es ∧ len es ≤ root_entry_count (BPB φ).
Proof.
  intros Hb [b E]. apply scan_entries_plain in E as [H1 H2]; [|apply run_bytes]. split; [done|]. destruct (base_regions φ Hb) as (_ & _ & _ & H & _).
  unfold len. lia.
Qed.

Lemma has_name_key n e : plain e → has_name n e = bool_decide (lower (ename e) = lower n).
Proof.
  intros Hp. destruct (get_name_plain e Hp) as [s E]. unfold has_name, ename. rewrite E. unfold eq_ignore_ascii_case, lower.
  destruct (String.eqb_spec (map_ascii to_ascii_lowercase s) (map_ascii to_ascii_lowercase n)); by case_bool_decide.
Qed.

(** The first entry of a name, as the searches find it. *)
Lemma find_file φ fl n : Forall (λ x, plain (fst x)) fl →
  (∃ fl1 x fl2, fl = fl1 ++ x :: fl2 ∧ key (file_of φ x) = lower n ∧ List.find (has_name n) (fst <$> fl) = Some (fst x) ∧
     find_index (has_name n) (fst <$> fl) = Some (length fl1, fst x) ∧ existsb (has_name n) (fst <$> fl) = true ∧
     abs (files φ fl) !! lower n = Some (content φ x)) ∨
  (List.find (has_name n) (fst <$> fl) = None ∧ find_index (has_name n) (fst <$> fl) = None ∧ existsb (has_name n) (fst <$> fl) = false ∧
     abs (files φ fl) !! lower n = None).
Proof.
  induction 1 as [|x fl Hx _ IH]; [by right|]. unfold files in *. rewrite !fmap_cons, abs_cons. cbn [List.find find_index existsb].
  change (key (file_of φ x)) with (lower (ename (fst x))). rewrite (has_name_key n (fst x) Hx). case_bool_decide as Hk.
  - left. exists [], x, fl. cbn [orb]. rewrite Hk, lookup_insert_eq. done.
  - cbn [orb]. rewrite lookup_insert_ne by done. destruct IH as [(fl1 & y & fl2 & -> & Hy & H1 & H2 & H3 & H4)|(H1 & H2 & H3 & H4)].
    + left. exists (x :: fl1), y, fl2. rewrite H1, H2, H3, H4. done.
    + right. rewrite H1, H2, H3, H4. done.
Qed.

(** Contents that do not change. *)
Definition keeps φ φ' (fl : list file) : Prop := Forall (λ x, content φ' x = content φ x) fl.

Lemma keeps_files φ φ' fl : keeps φ φ' fl → files φ' fl = files φ fl.
Proof. unfold files, keeps. induction 1 as [|x fl Hx _ IH]; [done|]. rewrite !fmap_cons, IH. unfold file_of. by rewrite Hx. Qed.

Lemma keeps_evolves φ φ' C P fl : base φ → evolves φ φ' C P → (∀ c l, c ∈ chains fl → in_cluster φ c l → ¬ P l) → keeps φ φ' fl.
Proof.
  intros Hb Hev HP. apply Forall_forall. intros x Hx. unfold content. f_equal. eapply cdatas_evolves; [done|done|]. intros c l Hc. apply HP.
  apply chains_elem. by exists x.
Qed.

Lemma keeps_trans φ φ1 φ2 fl : keeps φ φ1 fl → keeps φ1 φ2 fl → keeps φ φ2 fl.
Proof. unfold keeps. rewrite !Forall_forall. intros H1 H2 x Hx. by rewrite H2, H1. Qed.

Lemma store_clus φ fl c : store φ fl → c ∈ chains fl → clus c ∧ ∃ v, entry_of (FAT_CACHE φ) c = Some v ∧ v ≠ 0.
Proof.
  intros [Hf _ _] (x & Hx & Hc)%chains_elem. rewrite Forall_forall in Hf. split; [by eapply file_clus; [apply Hf|]|].
  destruct (Hf x Hx) as [(E & _)|(Hch & _)]; [rewrite E in Hc; by apply not_elem_of_nil in Hc|]. by eapply chain_used.
Qed.

(** Sectors before the clusters, without the boot sector. *)
Definition system φ (l : Z) : Prop := 1 ≤ l < DATA_START_SECTOR φ.

Lemma system_cluster φ fl c l : base φ → store φ fl → c ∈ chains fl → in_cluster φ c l → ¬ system φ l.
Proof.
  intros Hb Hs Hc Hl [_ Hlt]. destruct (store_clus φ fl c Hs Hc) as [Hcl _]. destruct (base_geometry φ Hb) as [_ Hsp _].
  unfold clus, in_cluster, cstart in *. nia.
Qed.

(** A change of the system area leaves all files alone. *)
Lemma store_system φ φ' fl : base φ → store φ fl → evolves φ φ' none (system φ) → store φ' fl ∧ keeps φ φ' fl.
Proof.
  intros Hb Hs Hev. split.
  - eapply store_evolves; [exact Hev|by intros c _ []| |done]. intros c [Hc E]%free_list_elem. apply free_list_elem. split; [done|].
    rewrite <- (ev_entry _ _ _ _ Hev) by (lia || by intros []). done.
  - eapply keeps_evolves; [done|exact Hev|]. intros c l. by apply system_cluster.
Qed.

Lemma chains_mid fl1 x fl2 : chains (fl1 ++ x :: fl2) ≡ₚ snd x ++ chains (fl1 ++ fl2).
Proof.
  unfold chains. rewrite !fmap_app, fmap_cons, !concat_app. cbn [concat]. rewrite !app_assoc. f_equiv. apply Permutation_app_comm.
Qed.

(** Giving up the clusters of a file. *)
Lemma store_free φ φ' fl1 x fl2 : base φ → store φ (fl1 ++ x :: fl2) → evolves φ φ' (λ c, c ∈ snd x) none →
  store φ' (fl1 ++ fl2) ∧ keeps φ φ' (fl1 ++ fl2).
Proof.
  intros Hb [Hf Hnd Hu] Hev. rewrite chains_mid in Hnd. apply NoDup_app in Hnd as (_ & Hdis & Hnd).
  assert (Forall (file_ok φ) (fl1 ++ fl2)) as Hf' by (rewrite !Forall_app, Forall_cons in *; naive_solver). split.
  - split; [|done|].
    + rewrite Forall_forall in Hf' |- *. intros y Hy. eapply file_ok_evolves; [exact Hev| |by apply Hf']. intros c Hc Hcx. apply (Hdis c Hcx).
      apply chains_elem. by exists y.
    + intros c Hc. apply (usable_evolves _ _ _ _ _ Hev), Hu. rewrite chains_mid, elem_of_app. destruct Hc as [Hc|Hc]; [by left; right|].
      destruct (decide (c ∈ snd x)) as [Hcx|Hcx]; [by left; left|right]. apply free_list_elem in Hc as [Hc E]. apply free_list_elem. split; [done|].
      rewrite <- (ev_entry _ _ _ _ Hev) by (lia || done). done.
  - eapply keeps_evolves; [done|exact Hev|]. by intros c l _ _ [].
Qed.

(** A new chain of free clusters. *)
Lemma store_alloc φ φ' fl1 fl2 e ch : base φ → store φ (fl1 ++ fl2) → NoDup ch → (∀ c, c ∈ ch → c ∈ free_list (FAT_CACHE φ)) →
  evolves φ φ' (λ c, c ∈ ch) (λ l, ∃ c, c ∈ ch ∧ in_cluster φ c l) → chain (FAT_CACHE φ') ch → head ch = Some (first_cluster e) →
  file_size e ≤ len ch * cluster_size φ → store φ' (fl1 ++ (e, ch) :: fl2) ∧ keeps φ φ' (fl1 ++ fl2).
Proof.
  intros Hb Hs Hnd Hfree Hev Hch Hh Hsize.
  assert (∀ c, c ∈ chains (fl1 ++ fl2) → c ∉ ch) as Hdis.
  { intros c Hc Hin. destruct (store_clus _ _ _ Hs Hc) as [_ (v & E & Hv)]. apply Hfree, free_list_elem in Hin as [_ E0]. rewrite E0 in E. by injection E as <-. }
  assert (store φ' (fl1 ++ fl2)) as [Hf' Hnd' Hu'].
  { eapply store_evolves; [exact Hev|done| |done]. intros c [Hc E]%free_list_elem. apply free_list_elem. split; [done|].
    rewrite <- (ev_entry _ _ _ _ Hev); [done|lia|]. intros Hin. destruct (chain_used _ _ c Hch Hin) as (v & Ev & Hv). rewrite E in Ev. by injection Ev as <-. }
  split.
  - split.
    + apply Forall_app in Hf' as [? ?]. apply Forall_app. split; [done|]. constructor; [|done]. right. cbn [fst snd].
      rewrite (cluster_size_evolves _ _ _ _ Hev). done.
    + rewrite chains_mid. cbn [snd]. apply NoDup_app. split; [done|]. split; [|done]. intros c Hin Hc. by apply (Hdis c).
    + intros c Hc. rewrite chains_mid, elem_of_app in Hc. cbn [snd] in Hc. destruct Hc as [[Hc|Hc]|Hc]; [|apply Hu'; by left|apply Hu'; by right].
      eapply usable_evolves; [exact Hev|]. apply (s_usable _ _ Hs). right. by apply Hfree.
  - eapply keeps_evolves; [done|exact Hev|]. intros c l Hc Hl (c' & Hc' & Hl'). apply (cluster_disjoint φ c c' l); [by apply base_geometry| |done|done].
    intros ->. by apply (Hdis c').
Qed.

(** The end of each operation that changes files. *)
Lemma commit_ok φ es : base φ → storable es → len es ≤ root_entry_count (BPB φ) →
  wp (_ ←r write_root_directory_unlocked es; flush_fat_unlocked) (λ r φ', r = Ok tt ∧ evolves φ φ' none (system φ) ∧
    dir φ' (List.filter visible es) ∧ synced φ') φ.
Proof.
  intros Hb Hes Hlen. destruct (base_regions φ Hb) as (H1 & H2 & H3 & _). wp_steps. eapply wp_mono; [by apply write_root_ok|].
  intros r φ1 (-> & R1 & Hd). assert (evolves φ φ1 none (system φ)) as E1.
  { apply evolves_rewritten. eapply rewritten_mono; [|exact R1]. unfold in_root, system. lia. }
  assert (base φ1) as Hb1 by (by eapply base_evolves). pose proof (ev_layout _ _ _ _ E1) as [= HD HB HF HR HS HRS _].
  eapply wp_mono; [by apply flush_ok|]. intros r φ2 (-> & R2 & Hsync). split; [done|]. assert (evolves φ1 φ2 none (in_fats φ1)) as E2 by (by apply evolves_rewritten).
  split_and!; [|eapply dir_evolves; [exact Hb1|exact E2| |done]|done].
  - eapply evolves_trans; [exact E1|]. eapply evolves_mono; [| |exact E2]; [done|]. unfold in_fats, system. rewrite HF, HR. lia.
  - unfold in_root, in_fats. lia.
Qed.
End volume.
