(* ===== verification/FatOps.v ===== *)
(** * The operations of the FAT12 driver

    Each operation of fat12/src/lib.rs on files, on a volume ([FatSpec.vol]) whose
    sectors can be read and written, does what [FileSystem.spec_op] does on the map
    from names to contents: reading, creating, writing, appending, deleting,
    renaming, and asking for existence and size. *)
From S2P Require Import Prelude Rust FileSystem Disk Fat12 FatTable FatDisk FatName FatSpec.

Section ops.
Context {D : Type} `{!Disk D} `{!DiskLaws D}.
Implicit Types φ : fat D.

Definition any (_ : Z) : Prop := True.

(** ** Steps that change no file *)

Lemma synced_rewritten φ φ' P : base φ → rewritten φ φ' P → (∀ l, in_fats φ l → ¬ P l) → synced φ → synced φ'.
Proof.
  intros Hb R HP Hs. unfold synced in *. pose proof (rw_layout _ _ _ R) as [= HD HB HF _ _ _ _]. rewrite HD, HB, HF, (rw_cache _ _ _ R), <- Hs.
  apply run_ext. intros l Hl. apply (rw_sector _ _ _ R). intros [_ ?]. apply (HP l); [|done]. destruct (base_regions φ Hb) as (_ & _ & _ & _ & _ & _ & E).
  pose proof (b_format _ Hb) as [_ _ _ H1 _ H2]. unfold in_fats. nia.
Qed.

(** The same files, and the table as it was. *)
Record same φ φ' (fl : list file) : Prop := {
  sm_vol : vol φ' fl;
  sm_keeps : keeps φ φ' fl;
  sm_ev : evolves φ φ' none none;
  sm_cache : FAT_CACHE φ' = FAT_CACHE φ;
  sm_synced : synced φ → synced φ';
}.

Lemma none_system φ φ' : evolves φ φ' none none → evolves φ φ' none (system φ).
Proof. apply evolves_mono; [done|by intros l []]. Qed.

Lemma vol_rewritten φ φ' fl : vol φ fl → rewritten φ φ' none → same φ φ' fl.
Proof.
  intros [Hb Hd Hs Hn] R. assert (evolves φ φ' none none) as Hev by (by apply evolves_rewritten).
  destruct (store_system φ φ' fl Hb Hs (none_system _ _ Hev)) as [Hs' Hk]. split; [|done|done|by eapply rw_cache|].
  2: { eapply synced_rewritten; [done|exact R|]. by intros l _ []. }
  split; [by eapply base_evolves|eapply dir_evolves; [exact Hb|exact Hev|by intros l _ []|done]|done|by rewrite (keeps_files _ _ _ Hk)].
Qed.

Lemma same_trans φ φ1 φ2 fl : same φ φ1 fl → same φ1 φ2 fl → same φ φ2 fl.
Proof.
  intros [A1 B1 C1 D1 E1] [A2 B2 C2 D2 E2]. split; [done|by eapply keeps_trans|by eapply evolves_trans|congruence|by auto].
Qed.

Lemma wp_read_root φ fl : vol φ fl → wp read_root_directory_unlocked (λ r φ', r = Ok (fst <$> fl) ∧ same φ φ' fl) φ.
Proof.
  intros Hv. eapply wp_mono; [apply read_root_ok; [apply Hv|apply Hv]|]. intros r φ' [-> R]. split; [done|]. by apply vol_rewritten.
Qed.

Lemma wp_find_entry φ fl n : vol φ fl → wp (find_entry_unlocked n) (λ r φ',
  r = ok_or (List.find (has_name n) (fst <$> fl)) "File not found" ∧ same φ φ' fl) φ.
Proof. intros Hv. unfold find_entry_unlocked. wp_steps. eapply wp_mono; [by apply wp_read_root|]. intros r φ' [-> Hs]. by apply wp_ret. Qed.

Lemma wp_find_index φ fl n : vol φ fl → wp (find_entry_with_index_unlocked n) (λ r φ',
  r = ok_or (find_index (has_name n) (fst <$> fl)) "File not found" ∧ same φ φ' fl) φ.
Proof. intros Hv. unfold find_entry_with_index_unlocked. wp_steps. eapply wp_mono; [by apply wp_read_root|]. intros r φ' [-> Hs]. by apply wp_ret. Qed.

Lemma vol_plain φ fl : vol φ fl → Forall (λ x, wf_entry (fst x) ∧ plain (fst x)) fl ∧ len fl ≤ root_entry_count (BPB φ).
Proof.
  intros [Hb Hd _ _]. destruct (dir_plain _ _ Hb Hd) as [Hp Hl]. rewrite Forall_fmap in Hp. unfold len in *. rewrite length_fmap in Hl. done.
Qed.

Lemma vol_find φ fl n : vol φ fl →
  (∃ fl1 x fl2, fl = fl1 ++ x :: fl2 ∧ key (file_of φ x) = lower n ∧ List.find (has_name n) (fst <$> fl) = Some (fst x) ∧
     find_index (has_name n) (fst <$> fl) = Some (length fl1, fst x) ∧ existsb (has_name n) (fst <$> fl) = true ∧
     abs (files φ fl) !! lower n = Some (content φ x)) ∨
  (List.find (has_name n) (fst <$> fl) = None ∧ find_index (has_name n) (fst <$> fl) = None ∧ existsb (has_name n) (fst <$> fl) = false ∧
     abs (files φ fl) !! lower n = None).
Proof. intros Hv. apply find_file. eapply Forall_impl; [exact (proj1 (vol_plain _ _ Hv))|]. by intros x [_ ?]. Qed.

(** ** The lock *)

Lemma vol_lock b φ fl : vol φ fl → vol (set_fat_lock b φ) fl.
Proof. intros [[? ? ? ? ? ?] Hd [? ? ?] Hn]. split; [split; assumption|exact Hd|split; assumption|exact Hn]. Qed.

(** What an operation under the lock has to do. *)
Lemma wp_fat_locked {A} (body : ST (fat D) A) (Q : A → fat D → Prop) φ : FAT_LOCK φ = false →
  wp body (λ r φ', Q r (set_fat_lock false φ')) (set_fat_lock true φ) → wp (fat_locked body) Q φ.
Proof. intros HL Hw. unfold fat_locked, wp, mbind, ST_bind, fat_lock. rewrite HL. unfold wp in Hw. by destruct (body _) as [[]|]. Qed.

(** ** Reading *)

Lemma read_file_ok φ fl n : vol φ fl → wp (entry ←r find_entry_unlocked n;
    if file_size entry =? 0 then mret (Ok [])
    else data ←r read_chain CHAIN (first_cluster entry); mret (Ok (take (Z.to_nat (file_size entry)) data)))
  (λ r φ', r = ok_or (abs (files φ fl) !! lower n) "File not found" ∧ same φ φ' fl) φ.
Proof.
  intros Hv. wp_steps. eapply wp_mono; [by apply wp_find_entry|]. intros r φ1 [-> H1].
  destruct (vol_find φ fl n Hv) as [(fl1 & x & fl2 & E & _ & -> & _ & _ & ->)|(-> & _ & _ & ->)]; [|by apply wp_ret]. cbn [ok_or].
  pose proof (sm_keeps _ _ _ H1) as Hk. assert (x ∈ fl) as Hx by (rewrite E; apply elem_of_app; right; by left).
  rewrite <- (proj1 (Forall_forall _ _) Hk x Hx). destruct (Z.eqb_spec (file_size (fst x)) 0) as [E0|E0].
  - apply wp_ret. split; [|done]. unfold content. by rewrite E0.
  - destruct (sm_vol _ _ _ H1) as [Hb1 _ [Hf1 Hnd Hu1] _]. rewrite Forall_forall in Hf1. destruct (Hf1 x Hx) as [(_ & _ & ?)|(Hc & Hh & _)]; [done|].
    wp_steps. eapply wp_mono; [apply (read_chain_ok φ1 (snd x)); [by apply base_geometry|apply Hb1|done| |done|]|].
    + apply Forall_forall. intros c Hc'. apply Hu1. left. apply chains_elem. by exists x.
    + assert (NoDup (snd x)) as Hndx by (rewrite E, chains_mid in Hnd; by apply NoDup_app in Hnd as [? _]).
      pose proof (clus_length _ Hndx (chain_clus _ _ Hc)). lia.
    + intros r φ2 [-> R2]. apply wp_ret. pose proof (vol_rewritten _ _ _ (sm_vol _ _ _ H1) R2) as H2. split; [done|].
      by eapply same_trans.
Qed.

(** ** Writing *)

(** The end of an operation, for the files [fl] whose clusters are in place. *)
Lemma commit_vol φ fl es : base φ → store φ fl → storable es → List.filter visible es = fst <$> fl → len es ≤ root_entry_count (BPB φ) →
  NoDup (key <$> files φ fl) → wp (_ ←r write_root_directory_unlocked es; flush_fat_unlocked) (λ r φ', r = Ok tt ∧ vol φ' fl ∧
    files φ' fl = files φ fl ∧ evolves φ φ' none (system φ) ∧ synced φ') φ.
Proof.
  intros Hb Hs Hes Hv Hlen Hn. eapply wp_mono; [by apply commit_ok|]. intros r φ' (-> & Hev & Hd & Hsync). rewrite Hv in Hd.
  destruct (store_system φ φ' fl Hb Hs Hev) as [Hs' Hk]. rewrite (keeps_files _ _ _ Hk). split; [done|]. split; [|done].
  split; [by eapply base_evolves|done|done|by rewrite (keeps_files _ _ _ Hk)].
Qed.

Lemma plain_storable fl : Forall (λ x : file, wf_entry (fst x) ∧ plain (fst x)) fl → storable (fst <$> fl) ∧ List.filter visible (fst <$> fl) = fst <$> fl.
Proof.
  induction 1 as [|x fl [Hw [He Hv]] _ [IH1 IH2]]; [split; [constructor|done]|]. rewrite fmap_cons. split; [constructor; [by split|done]|]. cbn [List.filter]. by rewrite Hv, IH2.
Qed.

(** What is known of a new chain. *)
Record fresh φ φ' (ch data : list Z) : Prop := {
  fr_nodup : NoDup ch;
  fr_free c : c ∈ ch → c ∈ free_list (FAT_CACHE φ);
  fr_ev : evolves φ φ' (λ c, c ∈ ch) (λ l, ∃ c, c ∈ ch ∧ in_cluster φ c l);
  fr_chain : chain (FAT_CACHE φ') ch;
  fr_data : ∃ z, cdatas φ' ch = data ++ z;
  fr_size : len data ≤ len ch * cluster_size φ;
  fr_len : len data < 2 ^ 32;
  fr_take : ch = take (needed φ data) (free_list (FAT_CACHE φ));
}.

Lemma wp_fresh φ data : base φ → (∀ c, c ∈ free_list (FAT_CACHE φ) → usable φ c) → data ≠ [] → Forall is_byte data →
  (needed φ data ≤ length (free_list (FAT_CACHE φ)))%nat →
  wp (allocate_and_write_chain data) (λ r φ', ∃ ch, r = Ok ch ∧ fresh φ φ' ch data) φ.
Proof.
  intros Hb Hu Hne Hd Hn. eapply wp_mono; [by apply allocate_write_ok|]. intros r φ' (ch & z & -> & Hch & Hev & Hc & Hz). exists ch. split; [done|].
  destruct (needed_spec φ data (cluster_size_pos φ Hb) Hne) as [Hlen _].
  assert (length ch = needed φ data) as Hl by (rewrite Hch, length_take; lia).
  assert (length (free_list (FAT_CACHE φ)) ≤ 0xFEE)%nat as Hmax.
  { unfold free_list. etransitivity; [apply length_filter|]. by rewrite length_seqZ. }
  split; [|by intros c; rewrite Hch; apply subseteq_take|done|done|by exists z|unfold len in *; rewrite Hl; lia| |done].
  - rewrite Hch. eapply sublist_NoDup; [apply free_list_nodup|apply sublist_take].
  - destruct (base_geometry φ Hb) as [_ Hs _]. unfold cluster_size, SECTOR_SIZE in *. nia.
Qed.

Lemma set_name_ok n e : good_name n = true → wf_entry e → plain e → ∃ e', set_name n e = Ok e' ∧ wf_entry e' ∧ plain e' ∧
  lower (ename e') = lower n ∧ first_cluster e' = first_cluster e ∧ file_size e' = file_size e.
Proof.
  intros Hn [_ H2 H3 H4] [_ Hv]. destruct (good_name_encode n Hn) as (nm & E & Hl & Hb & H0 & H5 & Hg). unfold set_name. rewrite E. eexists.
  split; [done|]. assert (plain (set_name11 nm e)) as Hp.
  { destruct nm as [|b nm]; [done|]. cbn in H0, H5. unfold plain, visible, is_empty, is_deleted, name0 in *. cbn [de_name11 set_name11 lookup list_lookup default from_option id].
    split; [apply Z.eqb_neq; naive_solver|]. rewrite (proj2 (Z.eqb_neq b DIR_ENTRY_DELETED)) by naive_solver.
    apply andb_prop in Hv as [[_ Hv]%andb_prop Hv']. unfold is_lfn, is_volume_id in *. cbn [attributes set_name11]. by rewrite Hv, Hv'. }
  split; [by split|]. split; [done|]. split; [|done]. unfold ename. rewrite (Hg _ Hp eq_refl). apply lower_upper.
Qed.

Lemma new_file_ok n c s : good_name n = true → 0 ≤ c < 2 ^ 16 → 0 ≤ s < 2 ^ 32 → ∃ e, new_file n c s = Ok e ∧ wf_entry e ∧ plain e ∧
  lower (ename e) = lower n ∧ first_cluster e = c ∧ file_size e = s.
Proof.
  intros Hn Hc Hs. apply (set_name_ok n (new_entry ATTR_ARCHIVE c s) Hn); [|done].
  split; [split; [done|apply (Forall_replicate is_byte 11); unfold is_byte; lia]|..]; cbn; unfold is_byte; split_and!; try done; lia.
Qed.

(** The data of a new chain is the content of its file. *)
Lemma fresh_content φ φ' ch data e : fresh φ φ' ch data → file_size e = len data → content φ' (e, ch) = data.
Proof.
  intros [_ _ _ _ [z Hz] _ _ _] Hs. unfold content. cbn [fst snd]. rewrite Hs, Hz. unfold len. rewrite Nat2Z.id. by apply take_app_length.
Qed.

Lemma fresh_head φ φ' ch data : fresh φ φ' ch data → ∃ c, ch !! 0%nat = Some c ∧ head ch = Some c ∧ 0 ≤ c < 2 ^ 16.
Proof.
  intros [_ Hf _ Hc _ _ _ _]. destruct ch as [|c ch]; [done|]. exists c. split_and!; [done|done| |]; destruct (proj1 (free_list_elem _ _) (Hf c ltac:(by left))); lia.
Qed.

(** A state in which the files are [m], from which nothing but the clusters, the
    table and the directory changed. *)
Definition holds φ (m : afs) : Prop := ∃ fl, vol φ fl ∧ abs (files φ fl) = m.
Definition later φ φ' : Prop := evolves φ φ' any (λ l, 1 ≤ l).

Lemma later_trans φ φ1 φ2 : later φ φ1 → later φ1 φ2 → later φ φ2.
Proof. apply evolves_trans. Qed.

Lemma later_system φ φ' C : evolves φ φ' C (system φ) → later φ φ'.
Proof. apply evolves_mono; [done|]. by intros l [? _]. Qed.

Lemma later_none φ φ' C : evolves φ φ' C none → later φ φ'.
Proof. apply evolves_mono; [done|]. by intros l []. Qed.

Lemma later_fresh φ φ' ch data : base φ → fresh φ φ' ch data → later φ φ'.
Proof.
  intros Hb [_ Hf Hev _ _ _ _ _]. eapply evolves_mono; [| |exact Hev]; [done|]. intros l (c & Hc & Hl). apply Hf, free_list_elem in Hc as [Hc _].
  destruct (base_regions φ Hb) as (H1 & H2 & H3 & _). destruct (base_geometry φ Hb) as [_ Hs _]. unfold in_cluster, cstart in Hl. nia.
Qed.

(** ** The operations

    What it means that an operation did on the volume what it does on the map [m].
    When it did not fail the table on the disk stays up to date. *)
Definition did (op : fs_op) (m : afs) φ (r : fs_result) φ' : Prop :=
  later φ φ' ∧ ∃ m', (r, m') = spec_op op m ∧ holds φ' m' ∧ (synced φ → (∀ e, r ≠ RUnit (Err e)) → synced φ').

Lemma did_locked {A} (body : ST (fat D) A) (w : A → fs_result) op m φ : FAT_LOCK φ = false →
  wp body (λ r φ', did op m (set_fat_lock true φ) (w r) φ') (set_fat_lock true φ) → wp (r ← fat_locked body; mret (w r)) (did op m φ) φ.
Proof.
  intros HL Hw. apply wp_bind, wp_fat_locked; [done|]. eapply wp_mono; [exact Hw|]. intros r φ' ([A1 B1 C1 D1 E1 F1 G1] & m' & Hr & (fl & Hv & Hm) & Hs).
  apply wp_ret. split; [by split|]. exists m'. split; [done|]. split; [exists fl; split; [by apply vol_lock|done]|done].
Qed.

(** An operation that leaves the files as they are. *)
Lemma did_same op φ φ' fl r : same φ φ' fl → (r, abs (files φ fl)) = spec_op op (abs (files φ fl)) →
  did op (abs (files φ fl)) φ r φ'.
Proof.
  intros [Hv' Hk Hev _ Hs] Hr. split; [by eapply later_none|]. eexists. split; [exact Hr|]. split; [|by auto]. exists fl. split; [done|].
  by rewrite (keeps_files _ _ _ Hk).
Qed.

(** The lock is taken: the same volume, for the body. *)
Lemma did_enter {A} (body : ST (fat D) A) (w : A → fs_result) op φ fl : vol φ fl → FAT_LOCK φ = false →
  (∀ φ0, φ0 = set_fat_lock true φ → vol φ0 fl → wp body (λ r φ', did op (abs (files φ0 fl)) φ0 (w r) φ') φ0) →
  wp (r ← fat_locked body; mret (w r)) (did op (abs (files φ fl)) φ) φ.
Proof. intros Hv HL Hw. apply did_locked; [done|]. apply (Hw _ eq_refl). by apply vol_lock. Qed.

Lemma read_did φ fl n : vol φ fl → FAT_LOCK φ = false → wp (r ← fat12_read_file n; mret (RData r)) (did (FRead n) (abs (files φ fl)) φ) φ.
Proof.
  intros Hv HL. apply did_locked; [done|]. eapply wp_mono; [apply (read_file_ok _ fl), vol_lock, Hv|]. intros r φ' [-> Hs]. by apply (did_same _ _ _ _ _ Hs).
Qed.

Lemma exists_did φ fl n : vol φ fl → FAT_LOCK φ = false → wp (b ← fat12_file_exists n; mret (RBool b)) (did (FExists n) (abs (files φ fl)) φ) φ.
Proof.
  intros Hv HL. apply did_locked; [done|]. pose proof (vol_lock true _ _ Hv) as Hv'. wp_steps. eapply wp_mono; [by apply (wp_find_entry _ fl)|].
  intros r φ' [-> Hs]. apply wp_ret, (did_same _ _ _ _ _ Hs). cbn [spec_op]. do 2 f_equal.
  destruct (vol_find _ fl n Hv') as [(fl1 & x & fl2 & _ & _ & -> & _ & _ & ->)|(-> & _ & _ & ->)]; done.
Qed.

Lemma size_did φ fl n : vol φ fl → FAT_LOCK φ = false → wp (s ← fat12_get_file_size n; mret (RSize s)) (did (FSize n) (abs (files φ fl)) φ) φ.
Proof.
  intros Hv HL. apply did_locked; [done|]. pose proof (vol_lock true _ _ Hv) as Hv'. wp_steps. eapply wp_mono; [by apply (wp_find_entry _ fl)|].
  intros r φ' [-> Hs]. apply wp_ret, (did_same _ _ _ _ _ Hs). cbn [spec_op]. do 2 f_equal.
  destruct (vol_find _ fl n Hv') as [(fl1 & x & fl2 & E & _ & -> & _ & _ & ->)|(-> & _ & _ & ->)]; [|done]. cbn [ok_or ok fmap option_fmap option_map].
  destruct (vol_plain _ _ Hv') as [Hp _]. rewrite E in Hp. apply Forall_app in Hp as [_ [[Hw _] _]%Forall_cons]. destruct Hw as [_ _ _ (_ & _ & Hsz)].
  pose proof (s_files _ _ (v_store _ _ Hv')) as Hf. rewrite E in Hf. apply Forall_app in Hf as [_ [Hx _]%Forall_cons].
  pose proof (length_content _ x (v_base _ _ Hv') Hx ltac:(lia)) as Hl. unfold len in Hl. by rewrite Hl, u32_small.
Qed.

Lemma len_ne {A} (l : list A) : l ≠ [] → (len l =? 0) = false.
Proof. intros Hl. apply Z.eqb_neq. destruct l; [done|]. unfold len. cbn [length]. lia. Qed.

(** The clusters [data] takes are free. *)
Definition room φ (data : list Z) : Prop := (needed φ data ≤ length (free_list (FAT_CACHE φ)))%nat.

(** After an allocation the files are the same, and a file may have the new chain. *)
Lemma vol_fresh φ φ' fl ch data : vol φ fl → fresh φ φ' ch data → vol φ' fl ∧ keeps φ φ' fl.
Proof.
  intros [Hb Hd Hs Hn] Hf. destruct (fresh_head _ _ _ _ Hf) as (c & _ & Hh & Hc). pose proof Hf as [Hnd Hfree Hev Hch _ Hsz _ _].
  assert (store φ (fl ++ [])) as Hs0 by (by rewrite app_nil_r).
  pose (e := MkEntry [] 0 0 0 0 0 0 0 0 0 c 0).
  assert (0 ≤ len ch * cluster_size φ) as Hge by (apply Z.mul_nonneg_nonneg; [apply len_nonneg|apply Z.lt_le_incl, cluster_size_pos, Hb]).
  destruct (store_alloc φ φ' fl [] e ch Hb Hs0 Hnd Hfree Hev Hch Hh ltac:(cbn; lia)) as [Hs' Hk]. rewrite app_nil_r in Hk. split; [|done].
  split; [by eapply base_evolves| | |by rewrite (keeps_files _ _ _ Hk)].
  - eapply dir_evolves; [exact Hb|exact Hev| |done]. intros l Hl (c' & Hc' & Hl'). apply Hfree, free_list_elem in Hc' as [Hc' _].
    destruct (base_geometry φ Hb) as [_ Hsp _]. unfold in_root, in_cluster, cstart in *. nia.
  - assert (evolves φ' φ' (λ x, x ∈ ch) none) as Hev' by apply evolves_refl.
    destruct (store_free φ' φ' fl (e, ch) [] (base_evolves _ _ _ _ Hev Hb) Hs' Hev') as [H _]. by rewrite app_nil_r in H.
Qed.

Lemma create_did φ fl n data : vol φ fl → FAT_LOCK φ = false → good_name n = true → data ≠ [] → Forall is_byte data → room φ data →
  len fl < root_entry_count (BPB φ) → wp (r ← fat12_create_file n data; mret (RUnit r)) (did (FCreate n data) (abs (files φ fl)) φ) φ.
Proof.
  intros Hv0 HL Hn Hne Hd Hr0 Hlen0. apply (did_enter _ _ _ _ _ Hv0 HL). intros φ0 E0 Hv.
  assert (room φ0 data ∧ len fl < root_entry_count (BPB φ0)) as [Hr Hlen] by (by rewrite E0). clear φ E0 Hv0 HL Hr0 Hlen0.
  rename φ0 into φ. pose proof (v_base _ _ Hv) as Hb. pose proof (b_layout _ Hb) as [= _ _ _ _ Hi].
  wp_steps. rewrite Hi. cbn [negb]. rewrite (len_ne data Hne).
  wp_steps. eapply wp_mono; [apply wp_fresh; [done| |done|done|exact Hr]|].
  { intros c Hc. apply (s_usable _ _ (v_store _ _ Hv)). by right. }
  intros r φ1 (ch & -> & Hf). destruct (vol_fresh _ _ _ _ _ Hv Hf) as [Hv1 Hk1]. pose proof (fr_ev _ _ _ _ Hf) as Hev1.
  wp_steps. eapply wp_mono; [by apply (wp_read_root _ fl)|]. intros r φ2 [-> H2]. destruct (vol_find φ fl n Hv) as
    [(fl1 & x & fl2 & _ & _ & _ & _ & -> & E)|(_ & _ & -> & E)].
  { apply wp_ret. split; [eapply later_trans; [by eapply later_fresh|eapply later_none, H2]|]. exists (abs (files φ fl)). cbn [spec_op]. rewrite E.
    split; [done|]. split; [|intros _ Hx; by destruct (Hx "File already exists"%string)]. exists fl. split; [apply H2|].
    by rewrite (keeps_files _ _ _ (sm_keeps _ _ _ H2)), (keeps_files _ _ _ Hk1). }
  destruct (fresh_head _ _ _ _ Hf) as (c0 & Hc0 & Hh & Hcr). apply wp_bind, (wp_lift _ _ _ _ Hc0).
  pose proof (fr_len _ _ _ _ Hf) as Hdl. pose proof (len_nonneg data). rewrite u32_small by lia.
  destruct (new_file_ok n c0 (len data) Hn Hcr ltac:(lia)) as (e & -> & Hwf & Hp & Hkey & Hfc & Hfs).
  destruct (store_alloc φ φ1 fl [] e ch) as [Hs1 _]; try apply Hf; [done|rewrite app_nil_r; apply Hv|by rewrite Hfc|rewrite Hfs; apply Hf|].
  destruct (store_system φ1 φ2 _ (v_base _ _ Hv1) Hs1 (none_system _ _ (sm_ev _ _ _ H2))) as [Hs2 Hk2].
  assert (content φ2 (e, ch) = data) as Hdata.
  { apply Forall_app in Hk2 as [_ [-> _]%Forall_cons]. by eapply fresh_content. }
  assert (files φ2 (fl ++ [(e, ch)]) = files φ fl ++ [MkRamFile (ename e) data]) as Hfiles.
  { unfold files at 1. rewrite fmap_app. cbn [fmap list_fmap]. unfold file_of at 2. rewrite Hdata. f_equal.
    change (files φ2 fl = files φ fl). by rewrite (keeps_files _ _ _ (sm_keeps _ _ _ H2)), (keeps_files _ _ _ Hk1). }
  apply abs_none in E. pose proof (sm_vol _ _ _ H2) as Hv2. pose proof (v_base _ _ Hv2) as Hb2.
  assert (later φ φ2) as Hl2 by (eapply later_trans; [by eapply later_fresh|eapply later_none, H2]).
  pose proof (ev_layout _ _ _ _ Hl2) as [= _ HB2 _ _ _ _ _].
  destruct (plain_storable (fl ++ [(e, ch)])) as [Hst Hvis].
  { apply Forall_app. split; [by apply (vol_plain φ)|]. by constructor. }
  rewrite fmap_app in Hst, Hvis. eapply wp_mono; [apply (commit_vol φ2 (fl ++ [(e, ch)]))|]; [done|done|exact Hst|by rewrite fmap_app| | |].
  - rewrite HB2, len_app. unfold len in *. rewrite length_fmap. cbn [length]. lia.
  - rewrite Hfiles, fmap_app. apply NoDup_app. split; [apply Hv|]. split; [|apply NoDup_singleton].
    intros k Hk ->%list_elem_of_singleton. apply E. by rewrite <- Hkey.
  - intros r φ3 (-> & Hv3 & Hf3 & Hev3 & Hsy). split; [eapply later_trans; [exact Hl2|by eapply later_system]|].
    exists (<[lower n := data]> (abs (files φ fl))). cbn [spec_op]. rewrite (proj2 (abs_none _ _) E). split; [done|]. split; [|done].
    exists (fl ++ [(e, ch)]). split; [done|]. rewrite Hf3, Hfiles. rewrite abs_app; [by rewrite <- Hkey|]. change (lower (ename e) ∉ key <$> files φ fl).
    by rewrite Hkey.
Qed.

(** ** Changing a file *)

(** The steps that give up the clusters of a file and read the directory again. *)
Lemma wp_free_read {A} φ fl1 x fl2 (K : list DirectoryEntry → ST (fat D) (Result A)) (Q : Result A → fat D → Prop) : vol φ (fl1 ++ x :: fl2) →
  (∀ φ', base φ' → store φ' (fl1 ++ fl2) → keeps φ φ' (fl1 ++ fl2) → evolves φ φ' (λ c, c ∈ snd x) none →
     (length (free_list (FAT_CACHE φ)) ≤ length (free_list (FAT_CACHE φ')))%nat → wp (K (fst <$> (fl1 ++ x :: fl2))) Q φ') →
  wp (_ ← free_cluster_chain (first_cluster (fst x)); entries ←r read_root_directory_unlocked; K entries) Q φ.
Proof.
  intros [Hb Hd Hs Hn] HK. pose proof (s_files _ _ Hs) as Hf. apply Forall_app in Hf as [_ [Hx _]%Forall_cons].
  assert (NoDup (snd x)) as Hnd by (pose proof (s_nodup _ _ Hs) as Hnd; rewrite chains_mid in Hnd; by apply NoDup_app in Hnd as [? _]).
  apply wp_bind. eapply wp_mono; [by apply free_file_ok|]. intros [] φ1 [Hev1 _]. destruct (store_free _ _ _ _ _ Hb Hs Hev1) as [Hs1 Hk1].
  assert (base φ1) as Hb1 by (by eapply base_evolves).
  assert (dir φ1 (fst <$> (fl1 ++ x :: fl2))) as Hd1 by (eapply dir_evolves; [exact Hb|exact Hev1|by intros l _ []|done]).
  apply wp_bind. eapply wp_mono; [by apply read_root_ok|]. intros r φ2 [-> R2]. assert (evolves φ1 φ2 none none) as Hev2 by (by apply evolves_rewritten).
  destruct (store_system φ1 φ2 _ Hb1 Hs1 (none_system _ _ Hev2)) as [Hs2 Hk2]. apply HK; [by eapply base_evolves|done|by eapply keeps_trans| |].
  - eapply evolves_trans; [exact Hev1|]. eapply evolves_mono; [| |exact Hev2]; [by intros c []|done].
  - rewrite (rw_cache _ _ _ R2). apply submseteq_length, NoDup_submseteq; [apply free_list_nodup|]. intros c [Hc E0]%free_list_elem.
    apply free_list_elem. split; [done|]. rewrite (ev_entry _ _ _ _ Hev1); [done|lia|]. intros Hin.
    destruct (store_clus _ _ c Hs) as [_ (v & Ev & Hv)]; [rewrite chains_mid, elem_of_app; by left|]. rewrite E0 in Ev. by injection Ev as <-.
Qed.

(** One file in place of another of the same name. *)
Lemma abs_replace fs1 f g fs2 : NoDup (key <$> fs1 ++ f :: fs2) → key g = key f →
  NoDup (key <$> fs1 ++ g :: fs2) ∧ abs (fs1 ++ g :: fs2) = <[key f := rf_data g]> (abs (fs1 ++ f :: fs2)).
Proof.
  rewrite !fmap_app, !fmap_cons. intros Hnd Hk. rewrite Hk. split; [done|].
  assert (key f ∉ key <$> fs1) as Hf by (apply NoDup_app in Hnd as (_ & Hn & _); intros Hin; apply (Hn _ Hin); by left).
  rewrite !abs_mid by (by rewrite ?Hk). by rewrite Hk, insert_insert_eq.
Qed.

Lemma files_mid φ φ' fl1 x fl2 : keeps φ φ' (fl1 ++ fl2) → files φ' (fl1 ++ x :: fl2) = files φ fl1 ++ file_of φ' x :: files φ fl2.
Proof.
  intros [H1%keeps_files H2%keeps_files]%Forall_app. unfold files in *. by rewrite fmap_app, fmap_cons, H1, H2.
Qed.

Lemma put_entry_mid fl1 (x : file) fl2 f : put_entry (fst <$> (fl1 ++ x :: fl2)) (length fl1) f = Some ((fst <$> fl1) ++ f (fst x) :: (fst <$> fl2)).
Proof.
  unfold put_entry. rewrite fmap_app, fmap_cons. rewrite list_lookup_middle by (by rewrite length_fmap). cbn [mbind option_bind].
  f_equal. rewrite <- (length_fmap fst fl1). rewrite <- (Nat.add_0_r (length (fst <$> fl1))). by rewrite insert_app_r.
Qed.

Lemma set_file_ok c s e : wf_entry e → plain e → 0 ≤ c < 2 ^ 16 → 0 ≤ s < 2 ^ 32 → wf_entry (set_file c s e) ∧ plain (set_file c s e).
Proof. intros [H1 H2 H3 (H4 & _ & _)] Hp Hc Hs. split; [|done]. by split. Qed.

(** The last steps of an operation that puts the file [x'] in the place of [x]. *)
Lemma replace_did op φ φ' fl1 x x' fl2 r : vol φ (fl1 ++ x :: fl2) → later φ φ' → keeps φ φ' (fl1 ++ fl2) → base φ' → store φ' (fl1 ++ x' :: fl2) →
  wf_entry (fst x') ∧ plain (fst x') → lower (ename (fst x')) = lower (ename (fst x)) → r = RUnit (Ok tt) →
  (r, <[key (file_of φ x) := content φ' x']> (abs (files φ (fl1 ++ x :: fl2)))) = spec_op op (abs (files φ (fl1 ++ x :: fl2))) →
  wp (_ ←r write_root_directory_unlocked ((fst <$> fl1) ++ fst x' :: (fst <$> fl2)); flush_fat_unlocked)
    (λ r φ', did op (abs (files φ (fl1 ++ x :: fl2))) φ (RUnit r) φ') φ'.
Proof.
  intros Hv Hl Hk Hb Hs Hx' Hname -> Hop. destruct (vol_plain _ _ Hv) as [Hp Hlen]. pose proof (ev_layout _ _ _ _ Hl) as [= _ HB _ _ _ _ _].
  destruct (plain_storable (fl1 ++ x' :: fl2)) as [Hst Hvis].
  { apply Forall_app in Hp as [? [_ ?]%Forall_cons]. apply Forall_app. split; [done|]. by constructor. }
  pose proof (files_mid φ φ' fl1 x' fl2 Hk) as Hf. pose proof (v_names _ _ Hv) as Hnd. unfold files in Hnd, Hop |- *. rewrite fmap_app, fmap_cons in Hnd, Hop |- *.
  destruct (abs_replace _ _ (file_of φ' x') _ Hnd Hname) as [Hnd' Habs].
  rewrite fmap_app, fmap_cons in Hst, Hvis. eapply wp_mono; [apply (commit_vol φ' (fl1 ++ x' :: fl2))|]; [done|done|exact Hst|by rewrite fmap_app| | |].
  - rewrite HB. unfold len in *. rewrite length_app in *. cbn [length] in *. by rewrite !length_fmap.
  - rewrite Hf. exact Hnd'.
  - intros r φ3 (-> & Hv3 & Hf3 & Hev3 & Hsy). split; [eapply later_trans; [exact Hl|by eapply later_system]|].
    eexists. split; [exact Hop|]. split; [|done]. exists (fl1 ++ x' :: fl2). split; [done|]. rewrite Hf3, Hf. exact Habs.
Qed.

Lemma write_did φ fl n data : vol φ fl → FAT_LOCK φ = false → Forall is_byte data → room φ data →
  wp (r ← fat12_write_file n data; mret (RUnit r)) (did (FWrite n data) (abs (files φ fl)) φ) φ.
Proof.
  intros Hv0 HL Hd Hr0. apply (did_enter _ _ _ _ _ Hv0 HL). intros φ0 E0 Hv. assert (room φ0 data) as Hr by (by rewrite E0). clear φ E0 Hv0 HL Hr0.
  rename φ0 into φ. pose proof (b_layout _ (v_base _ _ Hv)) as [= _ _ _ _ Hi]. wp_steps. rewrite Hi. cbn [negb].
  wp_steps. eapply wp_mono; [by apply (wp_find_index _ fl)|]. intros r φ1 [-> H1].
  destruct (vol_find φ fl n Hv) as [(fl1 & x & fl2 & -> & Hkey & _ & -> & _ & E)|(_ & -> & _ & E)]; cbn [ok_or fst snd].
  2: { apply wp_ret, (did_same _ _ _ _ _ H1). cbn [spec_op]. by rewrite E. }
  apply (wp_free_read φ1 fl1 x fl2); [apply H1|]. intros φ2 Hb2 Hs2 Hk2 Hev2 Hfree.
  assert (later φ φ2) as Hl2 by (eapply later_trans; [eapply later_none, H1|by eapply later_none]).
  destruct (vol_plain _ _ Hv) as [Hp _]. apply Forall_app in Hp as [_ [[Hwf Hpl] _]%Forall_cons].
  assert (keeps φ φ2 (fl1 ++ fl2)) as Hk.
  { eapply keeps_trans; [|exact Hk2]. pose proof (sm_keeps _ _ _ H1) as Hk. unfold keeps in *. rewrite !Forall_app, Forall_cons in *. naive_solver. }
  destruct (decide (data = [])) as [->|Hne].
  - cbn [len length Z.of_nat Z.eqb]. apply wp_bind, (wp_lift _ _ _ _ (put_entry_mid fl1 x fl2 (set_file 0 0))).
    destruct (set_file_ok 0 0 (fst x) Hwf Hpl) as [Hwf' Hpl']; [lia|lia|].
    apply (replace_did _ _ _ _ x (set_file 0 0 (fst x), []) fl2 (RUnit (Ok tt))); try done; [|by rewrite Hkey; cbn [spec_op]; rewrite E].
    destruct Hs2 as [Hf2 Hnd2 Hu2]. split; [|by rewrite chains_mid|intros c Hc; rewrite chains_mid in Hc; by apply Hu2]. apply Forall_app in Hf2 as [? ?].
    apply Forall_app. split; [done|]. constructor; [by left|done].
  - rewrite (len_ne data Hne). wp_steps. eapply wp_mono; [apply wp_fresh; [done| |done|done|]|].
    + intros c Hc. apply (s_usable _ _ Hs2). by right.
    + unfold room, needed in *. rewrite (cluster_size_evolves _ _ _ _ Hl2). rewrite (sm_cache _ _ _ H1) in Hfree. lia.
    + intros r φ3 (ch & -> & Hf). destruct (fresh_head _ _ _ _ Hf) as (c0 & Hc0 & Hh & Hcr). wp_steps. apply (wp_lift _ _ _ _ Hc0).
      pose proof (fr_len _ _ _ _ Hf) as Hdl. pose proof (len_nonneg data). rewrite u32_small by lia.
      apply wp_bind, (wp_lift _ _ _ _ (put_entry_mid fl1 x fl2 (set_file c0 (len data)))).
      destruct (set_file_ok c0 (len data) (fst x) Hwf Hpl Hcr) as [Hwf' Hpl']; [lia|].
      destruct (store_alloc φ2 φ3 fl1 fl2 (set_file c0 (len data) (fst x)) ch) as [Hs3 Hk3]; try apply Hf; [done|done|done|].
      apply (replace_did _ _ _ _ x (set_file c0 (len data) (fst x), ch) fl2 (RUnit (Ok tt))); try done.
      * eapply later_trans; [exact Hl2|by eapply later_fresh].
      * by eapply keeps_trans.
      * by eapply base_evolves; [apply Hf|].
      * rewrite (fresh_content _ _ _ _ _ Hf) by done. rewrite Hkey. cbn [spec_op]. by rewrite E.
Qed.

Lemma same_locked φ φ' fl : FAT_LOCK φ = false → same (set_fat_lock true φ) φ' fl → same φ (set_fat_lock false φ') fl.
Proof.
  intros HL [Hv Hk [A1 B1 C1 D1 E1 F1 G1] Hc Hs]. split; [by apply vol_lock|exact Hk|by split|exact Hc|exact Hs].
Qed.

Lemma append_did φ fl n data : vol φ fl → FAT_LOCK φ = false → Forall is_byte data → room φ (default [] (abs (files φ fl) !! lower n) ++ data) →
  wp (r ← fat12_append_file n data; mret (RUnit r)) (did (FAppend n data) (abs (files φ fl)) φ) φ.
Proof.
  intros Hv HL Hd Hr. unfold fat12_append_file. wp_steps. apply wp_fat_locked; [done|].
  eapply wp_mono; [apply (read_file_ok _ fl), vol_lock, Hv|]. intros r φ1 [-> H1%same_locked]; [|done]. change (files (set_fat_lock true φ) fl) with (files φ fl).
  destruct (abs (files φ fl) !! lower n) as [d0|] eqn:E; cbn [ok_or default from_option id] in *.
  2: { do 2 apply wp_ret. apply (did_same _ _ _ _ _ H1). cbn [spec_op]. by rewrite E. }
  assert (Forall is_byte (d0 ++ data)) as Hd'.
  { apply Forall_app. split; [|done]. destruct (vol_find φ fl n Hv) as [(fl1 & x & fl2 & _ & _ & _ & _ & _ & E')|(_ & _ & _ & E')]; [|congruence].
    assert (d0 = content φ x) as -> by congruence. unfold content, cdatas. apply Forall_take, Forall_concat, Forall_fmap, Forall_forall. intros c _. apply run_bytes. }
  rewrite <- (keeps_files _ _ _ (sm_keeps _ _ _ H1)) in E |- *.
  pose proof (write_did (set_fat_lock false φ1) fl n (d0 ++ data) (sm_vol _ _ _ H1) eq_refl Hd') as Hw.
  assert (later φ (set_fat_lock false φ1)) as Hl by (eapply later_none, H1).
  specialize (Hw ltac:(unfold room, needed in *; by rewrite (sm_cache _ _ _ H1), (cluster_size_evolves _ _ _ _ Hl))).
  apply wp_result in Hw as (r & φ2 & Er & Hl2 & m' & Hm & Hh & Hs). unfold mbind, ST_bind in Er.
  destruct (fat12_write_file n (d0 ++ data) (set_fat_lock false φ1)) as [[r1 φ3]|] eqn:Ew; [|done]. injection Er as <- <-.
  eapply wp_intro; [exact Ew|]. apply wp_ret. split; [by eapply later_trans|]. exists m'. cbn [spec_op] in *. rewrite E in *. split; [done|].
  split; [done|]. intros Hsy. by apply Hs, (sm_synced _ _ _ H1).
Qed.

Lemma mark_deleted_ok e : wf_entry e → wf_entry (mark_deleted e) ∧ is_empty (mark_deleted e) = false ∧ visible (mark_deleted e) = false.
Proof.
  intros [[Hl Hb] H2 H3 H4]. destruct e as [nm ? ? ? ? ? ? ? ? ? ? ?]. cbn in *. destruct nm as [|b nm]; [done|]. apply Forall_cons in Hb as [_ Hb].
  split; [|done]. split; cbn; [|done|done|done]. split; [done|]. constructor; [|done]. unfold is_byte, DIR_ENTRY_DELETED. lia.
Qed.

Lemma abs_delete fs1 f fs2 : NoDup (key <$> fs1 ++ f :: fs2) → NoDup (key <$> fs1 ++ fs2) ∧ abs (fs1 ++ fs2) = delete (key f) (abs (fs1 ++ f :: fs2)) ∧
  abs (fs1 ++ fs2) !! key f = None.
Proof.
  intros Hnd. assert (NoDup (key <$> f :: fs1 ++ fs2)) as [Hf Hnd']%NoDup_cons.
  { rewrite <- Permutation_middle in Hnd. exact Hnd. }
  assert (abs (fs1 ++ fs2) !! key f = None) as Hnone by (by apply abs_none). split; [done|]. split; [|done].
  rewrite abs_mid; [by rewrite delete_insert_id|]. change (key f ∉ key <$> fs1 ++ fs2) in Hf. rewrite fmap_app in Hf. set_solver.
Qed.

Lemma delete_did φ fl n : vol φ fl → FAT_LOCK φ = false → wp (r ← fat12_delete_file n; mret (RUnit r)) (did (FDelete n) (abs (files φ fl)) φ) φ.
Proof.
  intros Hv0 HL. apply (did_enter _ _ _ _ _ Hv0 HL). intros φ0 _ Hv. clear φ Hv0 HL. rename φ0 into φ.
  wp_steps. eapply wp_mono; [by apply (wp_find_index _ fl)|]. intros r φ1 [-> H1].
  destruct (vol_find φ fl n Hv) as [(fl1 & x & fl2 & -> & Hkey & _ & -> & _ & E)|(_ & -> & _ & E)]; cbn [ok_or fst snd].
  2: { apply wp_ret, (did_same _ _ _ _ _ H1). cbn [spec_op]. by rewrite E. }
  unfold remove_entry. apply (wp_free_read φ1 fl1 x fl2); [apply H1|]. intros φ2 Hb2 Hs2 Hk2 Hev2 _.
  assert (later φ φ2) as Hl2 by (eapply later_trans; [eapply later_none, H1|by eapply later_none]).
  pose proof (ev_layout _ _ _ _ Hl2) as [= _ HB _ _ _ _ _].
  destruct (vol_plain _ _ Hv) as [Hp Hlen]. apply Forall_app in Hp as [Hp1 [[Hwf Hpl] Hp2]%Forall_cons].
  destruct (mark_deleted_ok _ Hwf) as (Hwf' & Hne & Hvis). destruct (plain_storable _ Hp1) as [Hst1 Hv1], (plain_storable _ Hp2) as [Hst2 Hv2].
  apply wp_bind, (wp_lift _ _ _ _ (put_entry_mid fl1 x fl2 mark_deleted)).
  assert (keeps φ φ2 (fl1 ++ fl2)) as Hk.
  { eapply keeps_trans; [|exact Hk2]. pose proof (sm_keeps _ _ _ H1) as Hk. unfold keeps in *. rewrite !Forall_app, Forall_cons in *. naive_solver. }
  apply keeps_files in Hk. pose proof (v_names _ _ Hv) as Hnd. unfold files in Hnd, Hk |- *. rewrite fmap_app, fmap_cons in Hnd |- *.
  destruct (abs_delete _ _ _ Hnd) as (Hnd' & Habs & _). rewrite <- fmap_app in Hnd', Habs.
  eapply wp_mono; [apply (commit_vol φ2 (fl1 ++ fl2))|]; [done|done| | | | |].
  - apply Forall_app. split; [done|]. by constructor.
  - rewrite List.filter_app. cbn [List.filter]. by rewrite Hvis, Hv1, Hv2, fmap_app.
  - rewrite HB. unfold len in *. rewrite length_app in *. cbn [length] in *. by rewrite !length_fmap.
  - unfold files. by rewrite Hk.
  - intros r φ3 (-> & Hv3 & Hf3 & Hev3 & Hsy). split; [eapply later_trans; [exact Hl2|by eapply later_system]|].
    eexists. split; [cbn [spec_op]; unfold files in E; rewrite fmap_app, fmap_cons in E; by rewrite E|]. split; [|done]. exists (fl1 ++ fl2). split; [done|].
    unfold files in *. by rewrite Hf3, Hk, Habs, Hkey.
Qed.

Lemma rename_did φ fl o n : vol φ fl → FAT_LOCK φ = false → good_name n = true →
  wp (r ← fat12_rename_file o n; mret (RUnit r)) (did (FRename o n) (abs (files φ fl)) φ) φ.
Proof.
  intros Hv0 HL Hgood. apply (did_enter _ _ _ _ _ Hv0 HL). intros φ0 _ Hv. clear φ Hv0 HL. rename φ0 into φ.
  pose proof (b_layout _ (v_base _ _ Hv)) as [= _ _ _ _ Hi]. wp_steps. rewrite Hi. cbn [negb].
  wp_steps. eapply wp_mono; [by apply (wp_read_root _ fl)|]. intros r φ1 [-> H1].
  destruct (vol_find φ fl n Hv) as [(fl1 & x & fl2 & _ & _ & _ & _ & -> & En)|(_ & _ & -> & En)].
  { apply wp_ret, (did_same _ _ _ _ _ H1). cbn [spec_op]. by rewrite En. }
  wp_steps. eapply wp_mono; [by apply (wp_find_index _ fl), (sm_vol _ _ _ H1)|]. intros r φ2 [-> H2].
  pose proof (same_trans _ _ _ _ H1 H2) as H02. clear φ1 H1 H2.
  destruct (vol_find φ fl o Hv) as [(fl1 & x & fl2 & -> & Hkey & _ & -> & _ & E)|(_ & -> & _ & E)]; cbn [ok_or fst snd].
  2: { apply wp_ret, (did_same _ _ _ _ _ H02). cbn [spec_op]. by rewrite En, E. }
  pose proof (sm_vol _ _ _ H02) as Hv2. destruct (vol_plain _ _ Hv2) as [Hp Hlen]. apply Forall_app in Hp as [Hp1 [[Hwf Hpl] Hp2]%Forall_cons].
  destruct (set_name_ok n (fst x) Hgood Hwf Hpl) as (e & Ee & Hwf' & Hpl' & Hne & Hfc & Hfs).
  rewrite fmap_app, fmap_cons. apply wp_bind, (wp_lift (fst x)); [by rewrite list_lookup_middle by (by rewrite length_fmap)|]. rewrite Ee.
  rewrite <- (length_fmap fst fl1). rewrite <- (Nat.add_0_r (length (fst <$> fl1))), insert_app_r. cbn [insert list_insert].
  destruct (plain_storable (fl1 ++ (e, snd x) :: fl2)) as [Hst Hvis]; [apply Forall_app; split; [done|]; by constructor|].
  rewrite fmap_app, fmap_cons in Hst, Hvis. eapply wp_mono; [apply write_root_ok; [apply Hv2|exact Hst|]|].
  { unfold len in *. rewrite length_app in *. cbn [length] in *. by rewrite !length_fmap. }
  intros r φ3 (-> & R3 & Hd3). cbn [fst] in Hvis. rewrite Hvis in Hd3. destruct (base_regions φ2 (v_base _ _ Hv2)) as (G1 & G2 & G3 & _).
  assert (evolves φ2 φ3 none (system φ2)) as Hev3 by (apply evolves_rewritten; eapply rewritten_mono; [|exact R3]; unfold in_root, system; lia).
  assert (store φ2 (fl1 ++ (e, snd x) :: fl2)) as Hs2.
  { destruct (v_store _ _ Hv2) as [Hf Hnd Hu]. apply Forall_app in Hf as [? [Hx ?]%Forall_cons].
    split; [|by rewrite chains_mid in Hnd |- *|intros c Hc; apply Hu; by rewrite chains_mid in Hc |- *].
    apply Forall_app. split; [done|]. constructor; [|done]. unfold file_ok in *. cbn [fst snd]. by rewrite Hfc, Hfs. }
  destruct (store_system φ2 φ3 _ (v_base _ _ Hv2) Hs2 Hev3) as [Hs3 Hk3].
  assert (files φ3 (fl1 ++ (e, snd x) :: fl2) = files φ fl1 ++ MkRamFile (ename e) (content φ x) :: files φ fl2) as Hf3.
  { rewrite (keeps_files _ _ _ Hk3). rewrite (files_mid φ φ2).
    - unfold file_of. do 3 f_equal. unfold content. cbn [fst snd]. rewrite Hfs. pose proof (sm_keeps _ _ _ H02) as Hk.
      apply Forall_app in Hk as [_ [Hk _]%Forall_cons]. exact Hk.
    - pose proof (sm_keeps _ _ _ H02) as Hk. unfold keeps in *. rewrite !Forall_app, Forall_cons in *. naive_solver. }
  pose proof (v_names _ _ Hv) as Hnd. unfold files in Hnd, En, E, Hf3 |- *. rewrite fmap_app, fmap_cons in Hnd, En, E |- *.
  destruct (abs_delete _ _ _ Hnd) as (Hnd' & Habs & _). rewrite Hkey in Habs.
  assert (lower n ∉ key <$> (file_of φ <$> fl1) ++ (file_of φ <$> fl2)) as Hfresh.
  { apply abs_none in En. rewrite fmap_app, fmap_cons in En. rewrite fmap_app. set_solver. }
  split; [eapply later_trans; [eapply later_none, H02|by eapply later_system]|]. exists (<[lower n := content φ x]> (abs ((file_of φ <$> fl1) ++ (file_of φ <$> fl2)))).
  cbn [spec_op]. rewrite En, E, Habs. split; [done|]. rewrite <- Habs. split.
  - exists (fl1 ++ (e, snd x) :: fl2). unfold files. rewrite Hf3. split.
    + split; [by eapply base_evolves; [exact Hev3|apply Hv2]|by rewrite fmap_app|done|]. unfold files. rewrite Hf3. rewrite <- Permutation_middle. cbn [fmap list_fmap].
      apply NoDup_cons. split; [|exact Hnd']. change (lower (ename e) ∉ key <$> (file_of φ <$> fl1) ++ (file_of φ <$> fl2)). by rewrite Hne.
    + rewrite abs_mid; [by rewrite <- Hne|]. change (lower (ename e) ∉ key <$> (file_of φ <$> fl1)). rewrite Hne, fmap_app in *. set_solver.
  - intros Hsy _. eapply synced_rewritten; [apply Hv2|exact R3| |by apply (sm_synced _ _ _ H02)]. unfold in_fats, in_root. lia.
Qed.
End ops.
