(* ===== verification/FatVolume.v ===== *)
(** * FAT12 volumes implement a file system

    The driver of fat12/src/lib.rs, called by the VFS, runs any sequence of
    operations on a volume as on the map from names to contents; what it did is
    there again after the volume is mounted anew; and what failed creations cost. *)
From S2P Require Import Prelude Rust FileSystem Disk Fat12 FatTable FatDisk FatName FatSpec FatOps.

Section volumes.
Context {D : Type} `{!Disk D} `{!DiskLaws D}.
Implicit Types φ : fat D.

(** The files of the volume are [m], and no operation is running. *)
Definition rep φ (m : afs) : Prop := FAT_LOCK φ = false ∧ holds φ m.

(** An operation the volume has room for, with names that can be stored. *)
Definition op_fits φ (m : afs) (op : fs_op) : Prop :=
  match op with
  | FCreate n d => good_name n = true ∧ d ≠ [] ∧ Forall is_byte d ∧ room φ d ∧ Z.of_nat (size m) < root_entry_count (BPB φ)
  | FWrite _ d => Forall is_byte d ∧ room φ d
  | FAppend n d => Forall is_byte d ∧ room φ (default [] (m !! lower n) ++ d)
  | FRename _ n => good_name n = true
  | _ => True
  end.

Lemma size_files fl φ : NoDup (key <$> files φ fl) → size (abs (files φ fl)) = length fl.
Proof.
  intros Hnd. unfold abs. rewrite map_size_list_to_map; [by unfold files; rewrite !length_fmap|]. by rewrite <- list_fmap_compose.
Qed.

Lemma fat12_do (h : Z) φ m op : rep φ m → op_fits φ m op → wp (fs_do h op) (λ r φ', did op m φ r φ' ∧ rep φ' (spec_op op m).2) φ.
Proof.
  intros [HL (fl & Hv & <-)] Hfit. assert (wp (fs_do h op) (did op (abs (files φ fl)) φ) φ) as Hw.
  { destruct op as [n|n d|n d|n d|n|o n|n|n]; cbn [op_fits] in Hfit; cbn [fs_do read_file create_file write_file append_file delete_file rename_file file_exists get_file_size Fat12Driver].
    - by apply read_did.
    - destruct Hfit as (H1 & H2 & H3 & H4 & H5). apply create_did; try done. rewrite size_files in H5 by apply Hv. done.
    - by apply write_did; try apply Hfit.
    - by apply append_did; try apply Hfit.
    - by apply delete_did.
    - by apply rename_did.
    - by apply exists_did.
    - by apply size_did. }
  eapply wp_mono; [exact Hw|]. intros r φ' Hd. split; [done|]. destruct Hd as (Hl & m' & Hr & Hh & _). rewrite <- Hr. cbn [snd].
  split; [|done]. by rewrite (ev_lock _ _ _ _ Hl).
Qed.

(** Every operation of a sequence fits when it runs. *)
Fixpoint all_fit (h : Z) φ (m : afs) (ops : list fs_op) : Prop :=
  match ops with
  | [] => True
  | op :: ops => op_fits φ m op ∧ ∀ r φ', fs_do h op φ = Some (r, φ') → all_fit h φ' (spec_op op m).2 ops
  end.

Lemma fat12_run_ok h ops φ m : rep φ m → all_fit h φ m ops → wp (fs_run h ops) (λ rs φ', rs = (spec_ops ops m).1 ∧ rep φ' (spec_ops ops m).2 ∧
  later φ φ' ∧ (synced φ → Forall (λ r, ∀ e, r ≠ RUnit (Err e)) rs → synced φ')) φ.
Proof.
  revert φ m. induction ops as [|op ops IH]; intros φ m Hr Hfit; cbn [fs_run]; [apply wp_ret; by split_and!; [..|apply evolves_refl|]|].
  destruct Hfit as [Hf Hfits]. apply wp_bind. pose proof (fat12_do h φ m op Hr Hf) as (r & φ1 & E & (Hl & m1 & Hm & _ & Hs) & Hr1)%wp_result.
  eapply wp_intro; [exact E|]. apply wp_bind. eapply wp_mono; [apply (IH φ1 m1); [by rewrite <- Hm in Hr1|]|].
  { specialize (Hfits _ _ E). by rewrite <- Hm in Hfits. }
  intros rs φ2 (-> & Hr2 & Hl2 & Hs2). apply wp_ret. cbn [spec_ops]. rewrite <- Hm. destruct (spec_ops ops m1) as [rs m2]. cbn [fst snd] in *.
  split; [done|]. split; [done|]. split; [by eapply later_trans|]. intros Hsy [Ho Hrs]%Forall_cons. by apply Hs2, Hrs; apply Hs.
Qed.

(** C4. The FAT12 driver implements a file system. On a mounted volume whose root
    directory and cluster chains hold the files [m], any sequence of reads,
    creations, writes, appends, deletions, renames and queries that fit on the
    volume runs to its end, and every result and error is the one on the map from
    names, compared without case, to contents; at the end the volume holds the map
    that results. *)
Theorem fat12_refines h ops φ m : rep φ m → all_fit h φ m ops →
  ∃ φ', fs_run h ops φ = Some ((spec_ops ops m).1, φ') ∧ rep φ' (spec_ops ops m).2.
Proof.
  intros Hr Hf. pose proof (fat12_run_ok h ops φ m Hr Hf) as (rs & φ' & E & -> & Hr' & _)%wp_result. by exists φ'.
Qed.

(** ** Mounting again *)

(** The boot sector the volume was mounted from. *)
Definition booted φ : Prop :=
  let s := sector (disk φ) (FAT_DRIVE φ) 0 in
  read_bpb s = BPB φ ∧ field s 510 1 = 0x55 ∧ field s 511 1 = 0xAA.

Lemma booted_later φ φ' : later φ φ' → booted φ → booted φ'.
Proof.
  intros Hl. unfold booted. pose proof (ev_layout _ _ _ _ Hl) as [= HD HB _ _ _ _ _]. rewrite HD, HB. rewrite (ev_sector _ _ _ _ Hl); [done|].
  intros [_ ?]. lia.
Qed.

(** Reading the statics from the disk gives those of the volume. *)
Lemma fat12_mount φ fl φ1 : vol φ fl → FAT_LOCK φ = false → booted φ → synced φ → FAT_LOCK φ1 = false → disk φ1 = disk φ →
  wp (fat12_init (FAT_DRIVE φ)) (λ r φ', r = Ok tt ∧ FAT_LOCK φ' = false ∧ vol φ' fl ∧ files φ' fl = files φ fl) φ1.
Proof.
  intros Hv HL0 (Hbpb & H55 & HAA) Hsy HL HD. pose proof (v_base _ _ Hv) as Hb. destruct (base_regions φ Hb) as (G1 & G2 & G3 & _ & _ & (_ & _ & Hr) & G4).
  pose proof Hb as [Hdr [F1 F2 F3 F4 F5 F6] Hlay _ _ _]. apply wp_fat_locked; [done|]. wp_steps. apply wp_on_disk. cbn [disk set_fat_lock]. rewrite HD.
  eapply wp_mono; [apply read_law; [done|lia]|]. intros [e s] δ1 (Hs & Hrd & Hok & H0). cbn [fst snd] in *.
  rewrite H0 by (apply Hr; lia). rewrite (Hok ltac:(apply H0, Hr; lia)), Hbpb, H55, HAA, F1. cbn [Z.eqb Pos.eqb negb andb].
  rewrite (proj2 (Z.ltb_lt _ _)) by lia. rewrite andb_false_r. wp_steps. apply (wp_lift 511); [done|]. wp_steps.
  set (φ2 := set_disk δ1 _). assert (run (disk φ2) (FAT_DRIVE φ) (reserved_sectors (BPB φ)) (Z.to_nat (fat_size_16 (BPB φ))) = FAT_CACHE φ) as Hrun.
  { rewrite <- Hsy. injection Hlay as -> _ _ _ _. apply run_ext. intros l _. apply Hs. }
  eapply wp_mono; [apply read_run_at; [done|lia|nia|]|].
  { intros l Hl. apply Hrd, Hr. injection Hlay as E1 E2 E3 E4 _. unfold data_start, root_start in *. nia. }
  intros r φ3 [-> R3]. wp_steps. rewrite Hrun. set (φ4 := set_fat_lock false _).
  assert (rewritten φ φ4 none) as R4.
  { destruct R3 as [_ S3 R3]. split.
    - unfold φ4. destruct φ. cbn in *. injection Hlay as -> -> -> -> ->. subst FAT_LOCK. done.
    - intros d l Hn. unfold φ4. cbn [disk set_fat_lock]. rewrite S3 by (by intros [_ []]). apply Hs.
    - intros d l Hl. apply R3, Hrd, Hl. }
  destruct (vol_rewritten _ _ _ Hv R4) as [Hv4 Hk4 _ _ _]. split; [done|]. split; [done|]. split; [done|]. by apply keeps_files.
Qed.

(** C11. What successful operations did is on the disk: after any sequence of
    operations that fit and do not fail, on a volume whose table on the disk is up
    to date, mounting the disk anew, from statics in any state, succeeds and finds
    the files the operations left. *)
Theorem fat12_durable h ops φ m : rep φ m → booted φ → synced φ → all_fit h φ m ops → Forall (λ r, ∀ e, r ≠ RUnit (Err e)) (spec_ops ops m).1 →
  ∃ φ', fs_run h ops φ = Some ((spec_ops ops m).1, φ') ∧
    ∀ φ1, FAT_LOCK φ1 = false → disk φ1 = disk φ' → ∃ φ2, fat12_init (FAT_DRIVE φ) φ1 = Some (Ok tt, φ2) ∧ rep φ2 (spec_ops ops m).2.
Proof.
  intros Hr Hbo Hsy Hf Hok. pose proof (fat12_run_ok h ops φ m Hr Hf) as (rs & φ' & E & -> & [HL' (fl & Hv & Hm)] & Hl & Hs)%wp_result.
  exists φ'. split; [done|]. intros φ1 HL HD. pose proof (ev_layout _ _ _ _ Hl) as [= <- _ _ _ _ _ _].
  pose proof (fat12_mount φ' fl φ1 Hv HL' (booted_later _ _ Hl Hbo) (Hs Hsy Hok) HL HD) as (r & φ2 & E2 & -> & HL2 & Hv2 & Hf2)%wp_result.
  exists φ2. split; [done|]. split; [done|]. exists fl. split; [done|]. by rewrite Hf2.
Qed.

(** ** Creations that fail *)

Lemma filter_none {A} (P : A → Prop) `{!∀ x, Decision (P x)} (l : list A) : Forall (λ x, ¬ P x) l → filter P l = [].
Proof. induction 1 as [|x l Hx _ IH]; [done|]. by rewrite filter_cons_False. Qed.

Lemma filter_not_in (k l : list Z) : NoDup (k ++ l) → filter (λ x, x ∉ k) (k ++ l) = l.
Proof.
  intros (_ & Hdis & _)%NoDup_app. rewrite filter_app, filter_none, filter_all; [done|apply Forall_forall; intros x Hx Hk; by apply (Hdis x)|].
  apply Forall_forall. intros x Hx Hn. by apply Hn.
Qed.

(** The free clusters after some were taken. *)
Lemma free_list_without t t' (ch : list Z) : (∀ c, 2 ≤ c < 0xFF0 → entry_of t' c = Some 0 ↔ entry_of t c = Some 0 ∧ c ∉ ch) →
  free_list t' = filter (λ c, c ∉ ch) (free_list t).
Proof.
  intros Hc. unfold free_list. rewrite list_filter_filter. apply filter_ext_in, Forall_forall. intros c Hin%elem_of_seqZ. rewrite Hc by lia. tauto.
Qed.

Lemma full_allocate φ fl data : vol φ fl → full_table (FAT_CACHE φ) → data ≠ [] → ¬ room φ data → wp (allocate_and_write_chain data) (λ r φ',
  r = Err "No free clusters"%string ∧ evolves φ φ' any none ∧ vol φ' fl ∧ keeps φ φ' fl ∧ free_list (FAT_CACHE φ') = []) φ.
Proof.
  intros [Hb Hd Hs Hn] Hfull Hne Hroom. unfold allocate_and_write_chain. wp_steps. rewrite (proj2 (Z.eqb_neq _ _)) by (pose proof (cluster_size_pos φ Hb); lia).
  fold (needed φ data). wp_steps. eapply wp_mono; [apply allocate_clusters_none; [apply Hb|done|unfold room in Hroom; lia]|]. intros r φ1 [-> H1]. apply wp_ret.
  assert (evolves φ φ1 (λ c, c ∈ free_list (FAT_CACHE φ)) none) as Hev.
  { eapply evolves_retabled; [exact H1|]. intros c _ Hc. cbn beta. by rewrite bool_decide_false. }
  assert (free_list (FAT_CACHE φ1) = []) as Hnil.
  { rewrite (free_list_without (FAT_CACHE φ) _ (free_list (FAT_CACHE φ))).
    - apply filter_none, Forall_forall. intros c Hc Hnin. done.
    - intros c Hc. rewrite (rt_entry _ _ _ H1) by lia. destruct (bool_decide_reflect (c ∈ free_list (FAT_CACHE φ))) as [Hin|Hnin]; naive_solver. }
  assert (store φ1 fl) as Hs1.
  { eapply store_evolves; [exact Hev| |rewrite Hnil; by intros c ?%not_elem_of_nil|done]. intros c Hc [_ E0]%free_list_elem.
    destruct (store_clus _ _ c Hs Hc) as [_ (v & E & Hv)]. rewrite E0 in E. by injection E as <-. }
  assert (keeps φ φ1 fl) as Hk by (eapply keeps_evolves; [done|exact Hev|by intros c l _ _ []]).
  split; [done|]. split; [by eapply evolves_mono; [| |exact Hev]|]. split; [|done].
  split; [by eapply base_evolves|eapply dir_evolves; [exact Hb|exact Hev|by intros l _ []|done]|done|by rewrite (keeps_files _ _ _ Hk)].
Qed.

(** Files of a state under the lock, once it is given back. *)
Lemma rep_unlock φ φ' fl : vol φ' fl → files φ' fl = files φ fl → rep (set_fat_lock false φ') (abs (files φ fl)).
Proof. intros Hv Hf. split; [done|]. exists fl. split; [by apply vol_lock|]. by rewrite <- Hf. Qed.

(** The first steps of a creation. *)
Lemma create_enter φ fl n data (Q : Result unit → fat D → Prop) : vol φ fl → FAT_LOCK φ = false → data ≠ [] →
  (∀ φ0, φ0 = set_fat_lock true φ → vol φ0 fl → wp (
    clusters ←r allocate_and_write_chain data;
    entries ←r read_root_directory_unlocked;
    if existsb (has_name n) entries then mret (Err "File already exists"%string)
    else
      c0 ← lift (clusters !! 0%nat);
      match new_file n c0 (u32 (len data)) with
      | Err err => mret (Err err)
      | Ok e => _ ←r write_root_directory_unlocked (entries ++ [e]); flush_fat_unlocked
      end) (λ r φ', Q r (set_fat_lock false φ')) φ0) → wp (fat12_create_file n data) Q φ.
Proof.
  intros Hv HL Hne Hw. apply wp_fat_locked; [done|]. specialize (Hw _ eq_refl (vol_lock _ _ _ Hv)). pose proof (b_layout _ (v_base _ _ Hv)) as [= _ _ _ _ Hi].
  wp_steps. change (FAT_INITIALIZED (set_fat_lock true φ)) with (FAT_INITIALIZED φ). rewrite Hi. cbn [negb]. rewrite (len_ne data Hne). exact Hw.
Qed.

Lemma create_exists φ fl n data : vol φ fl → FAT_LOCK φ = false → data ≠ [] → Forall is_byte data → room φ data → is_Some (abs (files φ fl) !! lower n) →
  wp (fat12_create_file n data) (λ r φ', r = Err "File already exists"%string ∧ rep φ' (abs (files φ fl)) ∧
    free_list (FAT_CACHE φ') = drop (needed φ data) (free_list (FAT_CACHE φ))) φ.
Proof.
  intros Hv0 HL Hne Hd Hr0 Hn. apply (create_enter φ fl); [done|done|done|]. intros φ0 E0 Hv.
  assert (room φ0 data ∧ is_Some (abs (files φ0 fl) !! lower n)) as [Hr [d Ed]] by (by rewrite E0).
  change (files φ fl) with (files (set_fat_lock true φ) fl). change (FAT_CACHE φ) with (FAT_CACHE (set_fat_lock true φ)).
  change (needed φ data) with (needed (set_fat_lock true φ) data). rewrite <- E0. clear φ E0 Hv0 HL Hr0 Hn. rename φ0 into φ.
  wp_steps. eapply wp_mono; [apply wp_fresh; [apply Hv| |done|done|exact Hr]|].
  { intros c Hc. apply (s_usable _ _ (v_store _ _ Hv)). by right. }
  intros r φ1 (ch & -> & Hf). destruct (vol_fresh _ _ _ _ _ Hv Hf) as [Hv1 Hk1].
  wp_steps. eapply wp_mono; [by apply (wp_read_root _ fl)|]. intros r φ2 [-> H2].
  destruct (vol_find φ fl n Hv) as [(fl1 & x & fl2 & _ & _ & _ & _ & -> & _)|(_ & _ & _ & E)]; [|congruence]. apply wp_ret. split; [done|].
  split; [apply rep_unlock; [apply H2|by rewrite (keeps_files _ _ _ (sm_keeps _ _ _ H2)), (keeps_files _ _ _ Hk1)]|].
  cbn [FAT_CACHE set_fat_lock]. rewrite (sm_cache _ _ _ H2). rewrite (free_list_without (FAT_CACHE φ) _ ch).
  - rewrite (fr_take _ _ _ _ Hf). pose proof (filter_not_in (take (needed φ data) (free_list (FAT_CACHE φ))) (drop (needed φ data) (free_list (FAT_CACHE φ)))) as Hfi.
    rewrite take_drop in Hfi. apply Hfi, free_list_nodup.
  - intros c Hc. destruct (decide (c ∈ ch)) as [Hin|Hnin].
    + destruct (chain_used _ _ c (fr_chain _ _ _ _ Hf) Hin) as (v & -> & Hv0). naive_solver.
    + rewrite (ev_entry _ _ _ _ (fr_ev _ _ _ _ Hf)) by (lia || done). naive_solver.
Qed.

Lemma create_full φ fl n data : vol φ fl → FAT_LOCK φ = false → data ≠ [] → ¬ room φ data → full_table (FAT_CACHE φ) →
  wp (fat12_create_file n data) (λ r φ', r = Err "No free clusters"%string ∧ rep φ' (abs (files φ fl)) ∧ free_list (FAT_CACHE φ') = []) φ.
Proof.
  intros Hv0 HL Hne Hr Hfull. apply (create_enter φ fl); [done|done|done|]. intros φ0 E0 Hv.
  wp_steps. eapply wp_mono; [apply (full_allocate φ0 fl); [done|by rewrite E0|done|by rewrite E0]|]. intros r φ1 (-> & _ & Hv1 & Hk & Hnil).
  apply wp_ret. split; [done|]. split; [|done]. apply rep_unlock; [done|]. rewrite (keeps_files _ _ _ Hk). by rewrite E0.
Qed.

Lemma create_panics φ fl n data : vol φ fl → FAT_LOCK φ = false → data ≠ [] → ¬ room φ data → ¬ full_table (FAT_CACHE φ) → fat12_create_file n data φ = None.
Proof.
  intros Hv HL Hne Hr Hfull. pose proof (b_layout _ (v_base _ _ Hv)) as [= _ _ _ _ Hi]. unfold fat12_create_file, fat_locked. apply bind_none.
  unfold wp, fat_lock. rewrite HL. unfold mbind at 1, ST_bind at 1. match goal with |- match ?x with _ => _ end = _ => enough (x = None) as -> by done end.
  apply bind_none, wp_get. change (FAT_INITIALIZED (set_fat_lock true φ)) with (FAT_INITIALIZED φ). rewrite Hi. cbn [negb]. rewrite (len_ne data Hne).
  unfold mbind at 1, ST_bind at 1. match goal with |- match ?x with _ => _ end = _ => enough (x = None) as -> by done end.
  unfold allocate_and_write_chain. apply bind_none, wp_get. change (cluster_size (set_fat_lock true φ)) with (cluster_size φ).
  rewrite (proj2 (Z.eqb_neq _ _)) by (pose proof (cluster_size_pos φ (v_base _ _ Hv)); lia). fold (needed φ data).
  unfold mbind, ST_bind. rewrite allocate_clusters_panics; [done|apply (v_base _ _ Hv)|done|unfold room in Hr; cbn; lia].
Qed.

(** C35. A creation that fails costs space. On a volume that holds the files [m], for
    data that is not empty: when the name is taken and the data fits, the clusters for
    the data have been marked used in the table. When the data does not fit and the
    table covers all cluster numbers up to FEF (12 sectors), all free clusters have
    been marked used. The files are as they were, so no file has these clusters.
    When it does not fit and the table is smaller, the creation panics. *)
Theorem fat12_failed_create φ m n data : rep φ m → data ≠ [] → Forall is_byte data →
  (room φ data → is_Some (m !! lower n) → ∃ φ', fat12_create_file n data φ = Some (Err "File already exists"%string, φ') ∧ rep φ' m ∧
     free_list (FAT_CACHE φ') = drop (needed φ data) (free_list (FAT_CACHE φ))) ∧
  (¬ room φ data → full_table (FAT_CACHE φ) → ∃ φ', fat12_create_file n data φ = Some (Err "No free clusters"%string, φ') ∧ rep φ' m ∧
     free_list (FAT_CACHE φ') = []) ∧
  (¬ room φ data → ¬ full_table (FAT_CACHE φ) → fat12_create_file n data φ = None).
Proof.
  intros [HL (fl & Hv & <-)] Hne Hd. split; [|split].
  - intros Hr Hn. pose proof (create_exists φ fl n data Hv HL Hne Hd Hr Hn) as (? & φ' & E & -> & H)%wp_result. by exists φ'.
  - intros Hr Hfull. pose proof (create_full φ fl n data Hv HL Hne Hr Hfull) as (? & φ' & E & -> & H)%wp_result. by exists φ'.
  - by apply (create_panics φ fl).
Qed.
End volumes.

(** ** Witnesses *)

(** Volumes of clusters of one sector, with two tables of one sector and a root
    directory of 16 entries, on a disk in memory: an empty one, and one with a file. *)
Definition boot_sector : list Z :=
  [0xEB; 0x3C; 0x90] ++ bytes_of "EUCALYPT" ++ to_le 2 512 ++ [1] ++ to_le 2 1 ++ [2] ++ to_le 2 16 ++ to_le 2 400 ++ [0xF8] ++ to_le 2 1
  ++ to_le 2 1 ++ to_le 2 1 ++ to_le 4 0 ++ to_le 4 0 ++ [0x80; 0; 0x29] ++ to_le 4 0 ++ bytes_of "NO NAME    " ++ bytes_of "FAT12   "
  ++ replicate 448 0 ++ [0x55; 0xAA].
Definition volume (table root first : list Z) : fat ramdisk :=
  Fat false true 0 (read_bpb boot_sector) 1 3 4 1 table
    (RamDisk (<[(0, 0) := boot_sector]> (<[(0, 1) := table]> (<[(0, 3) := root]> (<[(0, 4) := first]> ∅)))) 400).

Definition empty_table : list Z := [0xF8; 0xFF; 0xFF] ++ replicate 509 0.
Definition fresh_volume : fat ramdisk := volume empty_table blank blank.

Definition used_table : list Z := [0xF8; 0xFF; 0xFF; 0xF8; 0x0F] ++ replicate 507 0.
Definition a_txt : DirectoryEntry := set_name11 (bytes_of "A       TXT") (new_entry ATTR_ARCHIVE 2 3).
Definition used_volume : fat ramdisk := volume used_table (entry_bytes a_txt ++ replicate 480 0) ([1; 2; 3] ++ replicate 509 0).

Lemma bytes_dec (l : list Z) : forallb (λ b, (0 <=? b) && (b <? 256)) l = true → Forall is_byte l.
Proof. intros Hl. apply Forall_forall. intros b Hb%list_elem_of_In. rewrite forallb_forall in Hl. specialize (Hl b Hb). unfold is_byte. lia. Qed.

Lemma volume_base t r f : length t = 512%nat → Forall is_byte t → base (volume t r f).
Proof.
  intros Hl Hb. split; [done|by split; vm_compute|by vm_compute| |unfold len; cbn [FAT_CACHE volume]; by rewrite Hl|done].
  split; [done|]. split; [by vm_compute|]. intros l Hll. cbn in *. change (data_start _) with 4 in Hll. lia.
Qed.

Lemma volume_usable t r f c : length t = 512%nat → 2 ≤ c < 341 → usable (volume t r f) c.
Proof.
  intros Hl Hc. unfold usable, cstart. change (sectors_per_cluster (BPB (volume t r f))) with 1. cbn [DATA_START_SECTOR volume].
  split; [lia|]. split; [lia|]. intros l Hll. cbn. lia.
Qed.

Lemma volume_free t r f c : length t = 512%nat → c ∈ free_list t → usable (volume t r f) c.
Proof.
  intros Hl [Hc E]%free_list_elem. apply entry_in_table in E as [_ Hlt]; [|lia]. unfold len in Hlt. rewrite Hl in Hlt. apply volume_usable; [done|divlia].
Qed.

Lemma fresh_volume_rep : rep fresh_volume ∅.
Proof.
  split; [done|]. exists []. split; [|done]. split; [apply volume_base; [done|by apply bytes_dec; vm_compute]|by exists true; vm_compute| |by apply NoDup_nil].
  split; [done|by apply NoDup_nil|]. intros c [Hc%not_elem_of_nil|Hc]; [done|]. by apply volume_free.
Qed.

Lemma used_volume_rep : rep used_volume {[lower "A.TXT" := [1; 2; 3]]}.
Proof.
  split; [done|]. exists [(a_txt, [2])]. split; [|by vm_compute]. split; [apply volume_base; [done|by apply bytes_dec; vm_compute]|by exists true; vm_compute| |by apply NoDup_singleton].
  split; [|by apply NoDup_singleton|].
  - apply Forall_singleton. right. split; [|split; [done|by vm_compute]]. split; [by vm_compute|]. exists FAT12_EOF. by split; [vm_compute|].
  - intros c [->%list_elem_of_singleton|Hc]; [by apply volume_usable|]. by apply volume_free.
Qed.

(** One cluster is enough, and there is one. *)
Lemma one_cluster (φ : fat ramdisk) data c : needed φ data = 1%nat → c ∈ free_list (FAT_CACHE φ) → room φ data.
Proof. intros E Hc. unfold room. rewrite E. destruct (free_list _); [by apply not_elem_of_nil in Hc|cbn; lia]. Qed.

Definition few_ops : list fs_op :=
  [FCreate "A.TXT" [1; 2; 3]; FRead "a.txt"; FRename "a.txt" "B.TXT"; FSize "b.txt"; FExists "a.txt"].

Lemma few_ops_fit : all_fit 0 fresh_volume ∅ few_ops.
Proof.
  split; [|by repeat (intros ? ? _; split)]. split_and!; [done|done|by apply bytes_dec| |by vm_compute].
  apply (one_cluster _ _ 2); [by vm_compute|]. apply free_list_elem. split; [lia|by vm_compute].
Qed.

Lemma fat12_refines_witness : ∃ φ', fs_run 0 few_ops fresh_volume =
  Some ([RUnit (Ok tt); RData (Ok [1; 2; 3]); RUnit (Ok tt); RSize (Some 3); RBool false], φ') ∧ rep φ' (spec_ops few_ops ∅).2.
Proof.
  destruct (fat12_refines 0 few_ops fresh_volume ∅) as (φ' & E & Hr); [apply fresh_volume_rep|apply few_ops_fit|].
  exists φ'. split; [exact E|exact Hr].
Defined.

Lemma fat12_durable_witness : ∃ φ', fs_run 0 few_ops fresh_volume =
  Some ([RUnit (Ok tt); RData (Ok [1; 2; 3]); RUnit (Ok tt); RSize (Some 3); RBool false], φ') ∧
  ∀ φ1, FAT_LOCK φ1 = false → disk φ1 = disk φ' → ∃ φ2, fat12_init 0 φ1 = Some (Ok tt, φ2) ∧ rep φ2 (spec_ops few_ops ∅).2.
Proof.
  destruct (fat12_durable 0 few_ops fresh_volume ∅) as (φ' & E & Hm);
    [apply fresh_volume_rep|by vm_compute|by vm_compute|apply few_ops_fit|by repeat constructor|].
  exists φ'. split; [exact E|exact Hm].
Defined.

(** A volume with a table of twelve sectors, and one of one sector, without a free cluster. *)
Definition full_boot_sector : list Z := take 22 boot_sector ++ to_le 2 12 ++ drop 24 boot_sector.
Definition full_volume : fat ramdisk :=
  Fat false true 0 (read_bpb full_boot_sector) 1 25 26 1 (replicate 6144 0xFF) (RamDisk (<[(0, 25) := blank]> ∅) 400).
Definition spent_volume : fat ramdisk := volume (replicate 512 0xFF) blank blank.

Lemma full_volume_free : free_list (FAT_CACHE full_volume) = [].
Proof. vm_compute. reflexivity. Qed.

Lemma full_volume_rep : rep full_volume ∅.
Proof.
  split; [done|]. exists []. split; [|done]. split; [|exists true; vm_compute; reflexivity| |apply NoDup_nil_2].
  - split; [done|by split; vm_compute|vm_compute; reflexivity| |vm_compute; reflexivity|].
    + split; [done|]. split; [by vm_compute|]. intros l Hll. cbn in Hll. change (data_start _) with 26 in Hll. cbn. lia.
    + apply bytes_dec. vm_compute. reflexivity.
  - split; [apply Forall_nil_2|apply NoDup_nil_2|]. rewrite full_volume_free. by intros c [Hc%not_elem_of_nil|Hc%not_elem_of_nil].
Qed.

Lemma spent_volume_rep : rep spent_volume ∅.
Proof.
  split; [done|]. exists []. split; [|done]. split; [apply volume_base; [done|by apply bytes_dec; vm_compute]|by exists true; vm_compute| |by apply NoDup_nil].
  split; [done|by apply NoDup_nil|]. intros c [Hc%not_elem_of_nil|Hc]; [done|]. by apply volume_free.
Qed.

(** A byte needs a cluster. *)
Lemma no_room (φ : fat ramdisk) : cluster_size φ = 512 → free_list (FAT_CACHE φ) = [] → ¬ room φ [7].
Proof. unfold room, needed. intros -> -> Hr. apply (Nat.nle_succ_0 0). exact Hr. Qed.

Lemma fat12_failed_create_witness :
  (∃ φ', fat12_create_file "a.txt" [7] used_volume = Some (Err "File already exists"%string, φ') ∧
    rep φ' {[lower "A.TXT" := [1; 2; 3]]} ∧ free_list (FAT_CACHE φ') = drop (needed used_volume [7]) (free_list (FAT_CACHE used_volume))) ∧
  (∃ φ', fat12_create_file "a.txt" [7] full_volume = Some (Err "No free clusters"%string, φ') ∧ rep φ' ∅) ∧
  fat12_create_file "a.txt" [7] spent_volume = None.
Proof.
  split; [|split].
  - destruct (fat12_failed_create used_volume {[lower "A.TXT" := [1; 2; 3]]} "a.txt" [7]) as [H _]; [apply used_volume_rep|done|by apply bytes_dec|].
    apply H; [|by exists [1; 2; 3]; vm_compute]. apply (one_cluster _ _ 3); [by vm_compute|]. apply free_list_elem. split; [lia|by vm_compute].
  - destruct (fat12_failed_create full_volume ∅ "a.txt" [7]) as (_ & H & _); [apply full_volume_rep|done|by apply bytes_dec|].
    destruct H as (φ' & E & Hr & _); [apply no_room; [vm_compute; reflexivity|apply full_volume_free]|by vm_compute|]. exists φ'. split; [exact E|exact Hr].
  - destruct (fat12_failed_create spent_volume ∅ "a.txt" [7]) as (_ & _ & H); [apply spent_volume_rep|done|by apply bytes_dec|].
    apply H; [apply no_room; vm_compute; reflexivity|]. intros Hf.
    assert (len (FAT_CACHE spent_volume) = 512) as E by (vm_compute; reflexivity).
    unfold full_table in Hf. rewrite E in Hf. lia.
Defined.
