(* ===== verification/FatVfs.v ===== *)
(** * FAT12 under the VFS

    The driver of FAT12 behind the paths of vfs/src/lib.rs: a file created through
    the VFS is read back through it; and opening a file that does not exist with
    the flag to create it fails on FAT12, since the driver refuses empty files. *)
From S2P Require Import Prelude Rust FileSystem Vfs Disk Fat12 FatTable FatDisk FatName FatSpec FatOps FatVolume.

Section fat_vfs.
Context {D : Type} `{!Disk D} `{!DiskLaws D}.
Implicit Types σ : vfs Z (fat D).

Lemma wp_with_fs {A} σ mount f (op : Z → ST (fat D) (Result A)) (Q : Result A → vfs Z (fat D) → Prop) : VFS_LOCK σ = false → mounted σ mount f →
  wp (op f) (λ r g, Q r (set_lock false (set_world g (set_lock true σ)))) (world σ) → wp (with_fs mount op) Q σ.
Proof.
  intros HL Hm Hw. unfold with_fs. apply wp_bind. unfold wp at 1, vfs_lock. rewrite HL. apply wp_bind, (wp_get_fs mount f); [exact Hm|].
  apply wp_bind, wp_onfs. eapply wp_mono; [exact Hw|]. intros r g HQ. by apply wp_bind, wp_modify, wp_ret.
Qed.

(** An operation of the driver, from the operation of the specification. *)
Lemma wp_of_do {A} (mm : ST (fat D) A) (w : A → fs_result) (Q : fs_result → fat D → Prop) φ :
  wp (r ← mm; mret (w r)) Q φ → wp mm (λ r φ', Q (w r) φ') φ.
Proof. unfold wp, mbind, ST_bind. by destruct (mm φ) as [[]|]. Qed.

Lemma wp_create (h : Z) φ m n d : rep φ m → op_fits φ m (FCreate n d) → m !! lower n = None →
  wp (create_file h n d) (λ r φ', r = Ok tt ∧ rep φ' (<[lower n := d]> m)) φ.
Proof.
  intros Hr Hf Hn. pose proof (wp_of_do _ RUnit _ _ (fat12_do h φ m (FCreate n d) Hr Hf)) as Hw. eapply wp_mono; [exact Hw|].
  intros r φ' [(_ & m' & E & _) Hr']. cbn [spec_op] in E, Hr'. rewrite Hn in E, Hr'. by injection E as -> _.
Qed.

Lemma wp_read (h : Z) φ m n : rep φ m → wp (read_file h n) (λ r φ', r = ok_or (m !! lower n) "File not found" ∧ rep φ' m) φ.
Proof.
  intros Hr. pose proof (wp_of_do _ RData _ _ (fat12_do h φ m (FRead n) Hr I)) as Hw. eapply wp_mono; [exact Hw|].
  intros r φ' [(_ & m' & E & _) Hr']. cbn [spec_op] in E, Hr'. by injection E as -> _.
Qed.

Lemma wp_exists (h : Z) φ m n : rep φ m → wp (file_exists h n) (λ b φ', b = bool_decide (is_Some (m !! lower n)) ∧ rep φ' m) φ.
Proof.
  intros Hr. pose proof (wp_of_do _ RBool _ _ (fat12_do h φ m (FExists n) Hr I)) as Hw. eapply wp_mono; [exact Hw|].
  intros r φ' [(_ & m' & E & _) Hr']. cbn [spec_op] in E, Hr'. by injection E as -> _.
Qed.

(** C21. A file created on a FAT12 volume through a path of the VFS is read back
    through the path with the same bytes; the volume then holds the files it held
    and this one, and the lock of the VFS is free. *)
Theorem vfs_fat12_roundtrip σ h path mount name data m : VFS_LOCK σ = false → split_path path = Ok (mount, name) → mounted σ mount h →
  rep (world σ) m → m !! lower name = None → op_fits (world σ) m (FCreate name data) →
  ∃ σ', (r1 ← vfs_create_file path data; r2 ← vfs_read_file path; mret (r1, r2)) σ = Some ((Ok tt, Ok data), σ') ∧
    VFS_LOCK σ' = false ∧ rep (world σ') (<[lower name := data]> m).
Proof.
  intros HL Hp Hm Hr Hn Hf. cut (wp (r1 ← vfs_create_file path data; r2 ← vfs_read_file path; mret (r1, r2)) (λ r σ', r = (Ok tt, Ok data) ∧
    VFS_LOCK σ' = false ∧ rep (world σ') (<[lower name := data]> m)) σ); [intros (? & σ' & E & -> & H)%wp_result; by exists σ'|].
  apply wp_bind. unfold vfs_create_file, vfs_read_file, on_path. rewrite Hp. apply (wp_with_fs _ _ h); [done|done|].
  eapply wp_mono; [by apply (wp_create h _ m)|]. intros r φ1 [-> Hr1]. apply wp_bind, (wp_with_fs _ _ h); [done|exact Hm|].
  eapply wp_mono; [by apply (wp_read h)|]. intros r φ2 [-> Hr2]. apply wp_ret. by rewrite lookup_insert_eq.
Qed.

(** C36. Opening a file that does not exist on a FAT12 volume with the flag O_CREAT
    fails: [vfs_open] creates the file without data, and the driver refuses. The
    volume keeps its files, and no node is opened. *)
Theorem fat12_open_creat σ h path mount name flags mode ns m : VFS_LOCK σ = false → split_path path = Ok (mount, name) → mounted σ mount h →
  NODE_TABLE σ = Some ns → (length ns < MAX_NODES)%nat → rep (world σ) m → m !! lower name = None → has flags O_CREAT = true →
  ∃ σ', vfs_open path flags mode σ = Some (Err "Cannot create empty file"%string, σ') ∧ rep (world σ') m ∧ NODE_TABLE σ' = Some ns ∧ VFS_LOCK σ' = false.
Proof.
  intros HL Hp Hm Hns Hlen Hr Hn Hc. cut (wp (vfs_open path flags mode) (λ r σ', r = Err "Cannot create empty file"%string ∧
    rep (world σ') m ∧ NODE_TABLE σ' = Some ns ∧ VFS_LOCK σ' = false) σ); [intros (? & σ' & E & -> & H)%wp_result; by exists σ'|].
  unfold vfs_open. rewrite Hp. apply Vfs.wp_locked; [done|]. unfold open_node. apply wp_bind, wp_get. cbn [NODE_TABLE set_lock]. rewrite Hns.
  rewrite (proj2 (Nat.leb_gt _ _)) by done. apply wp_bind, (wp_get_fs mount h); [exact Hm|]. apply wp_bind, wp_onfs.
  eapply wp_mono; [by apply (wp_exists h _ m)|]. intros b φ1 [-> Hr1]. rewrite Hn, bool_decide_false by (by intros []). rewrite Hc, andb_false_r. cbn [andb negb].
  apply wp_bind, wp_onfs. destruct Hr1 as [HL1 (fl & Hv & Hm1)]. apply wp_fat_locked; [done|].
  pose proof (b_layout _ (v_base _ _ Hv)) as [= _ _ _ _ Hi]. wp_steps. cbn [world set_world FAT_INITIALIZED set_fat_lock]. rewrite Hi. cbn [negb].
  change (len [] =? 0) with true. cbn match. do 2 apply wp_ret. split_and!; [done| |exact Hns|done]. split; [done|]. exists fl. split; [|exact Hm1]. by apply vol_lock, vol_lock.
Qed.
End fat_vfs.

(** ** Witnesses *)

(** The empty volume, mounted as fat12. *)
Definition fat_mounted : vfs Z (fat ramdisk) := Vfs false (Some [MkMount "fat12" 0]) (Some []) 3 fresh_volume.

Lemma vfs_fat12_roundtrip_witness : ∃ σ',
  (r1 ← vfs_create_file "fat12/HELLO.TXT" [72; 105]; r2 ← vfs_read_file "fat12/HELLO.TXT"; mret (r1, r2)) fat_mounted = Some ((Ok tt, Ok [72; 105]), σ') ∧
  VFS_LOCK σ' = false ∧ rep (world σ') (<[lower "HELLO.TXT" := [72; 105]]> ∅).
Proof.
  apply (vfs_fat12_roundtrip fat_mounted 0 "fat12/HELLO.TXT" "fat12" "HELLO.TXT" [72; 105] ∅).
  - exact eq_refl.
  - exact eq_refl.
  - eexists _, _. split; [exact eq_refl|]. split; exact eq_refl.
  - exact fresh_volume_rep.
  - exact eq_refl.
  - split; [exact eq_refl|]. split; [discriminate|]. split; [by apply bytes_dec|]. split; [|exact eq_refl].
    apply (one_cluster _ _ 2); [exact eq_refl|]. apply free_list_elem. split; [lia|exact eq_refl].
Defined.

Lemma fat12_open_creat_witness : ∃ σ', vfs_open "fat12/NEW.TXT" (O_CREAT + O_RDWR) 0 fat_mounted = Some (Err "Cannot create empty file"%string, σ') ∧
  rep (world σ') ∅ ∧ NODE_TABLE σ' = Some [] ∧ VFS_LOCK σ' = false.
Proof.
  apply (fat12_open_creat fat_mounted 0 "fat12/NEW.TXT" "fat12" "NEW.TXT").
  - exact eq_refl.
  - exact eq_refl.
  - eexists _, _. split; [exact eq_refl|]. split; exact eq_refl.
  - exact eq_refl.
  - unfold MAX_NODES. cbn. lia.
  - exact fresh_volume_rep.
  - exact eq_refl.
  - exact eq_refl.
Defined.
