(* ===== verification/SuperBlock.v ===== *)
(** * The super block of the file system of the kernel

    Models eucalypt_fs/src/super_block.rs and lib.rs: the layout of a disk in
    regions of blocks, the bytes of the super block, and the functions that write
    it to a disk and read it back. Text on the screen is left out. *)
From S2P Require Import Prelude Rust FileSystem Disk.

Record SuperBlock := MkSuperBlock {
  magic : Z;
  version : Z;
  sb_size : Z;
  block_size : Z;
  blocks : Z;
  inodes : Z;
  sb_reserved : Z;
  superblock_blocks : Z;
  inode_table_start : Z;
  inode_table_blocks : Z;
  block_bitmap_start : Z;
  block_bitmap_blocks : Z;
  data_region_start : Z;
  reserved_start : Z;
  reserved_blocks : Z;
}.

Definition MAGIC : Z := 0xEC1.
Definition VERSION : Z := 1.
Definition DEFAULT_INODES : Z := 500.
Definition RESERVED : Z := 500.
Definition INODE_SIZE : Z := 128.
Definition SECTOR_SIZE : Z := 512.
Definition SUPERBLOCK_SIZE : Z := 512.

(** ** The layout *)

Definition calculate_block_size (size_bytes : Z) : Z :=
  if size_bytes <=? 16_000_000_000_000 then 4 * 1024
  else if size_bytes <=? 32_000_000_000_000 then 8 * 1024
  else if size_bytes <=? 64_000_000_000_000 then 16 * 1024
  else if size_bytes <=? 128_000_000_000_000 then 32 * 1024
  else if size_bytes <=? 256_000_000_000_000 then 64 * 1024
  else if size_bytes <=? 512_000_000_000_000 then 128 * 1024
  else 2048 * 1024.

(** [(a + b - 1) / b], which panics when the sum overflows. *)
Definition div_up (a b : Z) : option Z := s ← checked 64 (a + b); d ← checked 64 (s - 1); Some (d / b).

Definition calculate_inode_table_blocks (block_size : Z) : option Z := div_up (DEFAULT_INODES * INODE_SIZE) block_size.

Definition calculate_bitmap_blocks (blocks block_size : Z) : option Z :=
  n ← checked 64 (blocks + 7);
  div_up (n / 8) block_size.

(** [SuperBlock::new], for a drive of so many sectors. *)
Definition new (sector_count : Z) : option SuperBlock :=
  size_bytes ← checked 64 (sector_count * SECTOR_SIZE);
  let block_size := calculate_block_size size_bytes in
  let blocks := size_bytes / block_size in
  let superblock_blocks := 1 in
  let inode_table_start := superblock_blocks in
  inode_table_blocks ← calculate_inode_table_blocks block_size;
  block_bitmap_start ← checked 64 (inode_table_start + inode_table_blocks);
  block_bitmap_blocks ← calculate_bitmap_blocks blocks block_size;
  reserved_start ← checked 64 (block_bitmap_start + block_bitmap_blocks);
  let reserved_blocks := RESERVED in
  data_region_start ← checked 64 (reserved_start + reserved_blocks);
  Some (MkSuperBlock MAGIC VERSION size_bytes block_size blocks DEFAULT_INODES RESERVED superblock_blocks inode_table_start inode_table_blocks
    block_bitmap_start block_bitmap_blocks data_region_start reserved_start reserved_blocks).

(** ** Bytes *)

Definition to_bytes (sb : SuperBlock) : option (list Z) :=
  b ← patch (replicate (Z.to_nat SUPERBLOCK_SIZE) 0) 0 (to_le 2 (magic sb));
  b ← patch b 2 [version sb];
  b ← patch b 8 (to_le 8 (sb_size sb));
  b ← patch b 16 (to_le 8 (block_size sb));
  b ← patch b 24 (to_le 8 (blocks sb));
  b ← patch b 32 (to_le 2 (inodes sb));
  b ← patch b 34 (to_le 2 (sb_reserved sb));
  b ← patch b 40 (to_le 8 (superblock_blocks sb));
  b ← patch b 48 (to_le 8 (inode_table_start sb));
  b ← patch b 56 (to_le 8 (inode_table_blocks sb));
  b ← patch b 64 (to_le 8 (block_bitmap_start sb));
  b ← patch b 72 (to_le 8 (block_bitmap_blocks sb));
  b ← patch b 80 (to_le 8 (data_region_start sb));
  b ← patch b 88 (to_le 8 (reserved_start sb));
  patch b 96 (to_le 8 (reserved_blocks sb)).

(** The integer of the bytes [a..b]. *)
Definition le_at (bytes : list Z) (a b : Z) : option Z := from_le <$> slice bytes a b.

Definition from_bytes (bytes : list Z) : option (Result SuperBlock) :=
  if len bytes <? 104 then Some (Err "Buffer too small")
  else
    magic ← le_at bytes 0 2;
    if negb (magic =? MAGIC) then Some (Err "Invalid magic number")
    else
      version ← bytes !! 2%nat;
      size ← le_at bytes 8 16;
      block_size ← le_at bytes 16 24;
      blocks ← le_at bytes 24 32;
      inodes ← le_at bytes 32 34;
      reserved ← le_at bytes 34 36;
      superblock_blocks ← le_at bytes 40 48;
      inode_table_start ← le_at bytes 48 56;
      inode_table_blocks ← le_at bytes 56 64;
      block_bitmap_start ← le_at bytes 64 72;
      block_bitmap_blocks ← le_at bytes 72 80;
      data_region_start ← le_at bytes 80 88;
      reserved_start ← le_at bytes 88 96;
      reserved_blocks ← le_at bytes 96 104;
      Some (Ok (MkSuperBlock magic version size block_size blocks inodes reserved superblock_blocks inode_table_start inode_table_blocks
        block_bitmap_start block_bitmap_blocks data_region_start reserved_start reserved_blocks)).

(** ** The disk *)

Section disk.
Context {D : Type} `{!Disk D}.

(** [IDE_DEVICES[drive]], which panics out of range. *)
Definition sectors_of (drive : Z) : ST D Z := if drive <? 4 then get (λ δ, device_size δ drive) else panic.

Definition read_super_block (drive : Z) : ST D (Result SuperBlock) :=
  r ← ide_read_sectors drive 1 512;
  if negb (fst r =? 0) then mret (Err "Failed to read superblock from disk") else lift (from_bytes (snd r)).

(** [IdeDriver { drive }] as a [StorageDriver]. *)
Definition read_sector (drive lba n : Z) : ST D (bool * list Z) :=
  r ← ide_read_sectors drive lba n; mret (fst r =? 0, snd r).
Definition write_sector (drive lba : Z) (data : list Z) : ST D bool :=
  r ← ide_write_sectors drive lba data; mret (r =? 0).

(** The loop of [zero_blocks]. *)
Fixpoint zero_sectors (drive start_sector i : Z) (n : nat) : ST D bool :=
  match n with
  | O => mret true
  | S n =>
      sector_to_write ← lift (checked 64 (start_sector + i));
      r ← ide_write_sectors drive sector_to_write (replicate 512 0);
      if negb (r =? 0) then mret false else zero_sectors drive start_sector (i + 1) n
  end.

Definition zero_blocks (drive start_block num_blocks block_size_bytes : Z) : ST D bool :=
  let sectors_per_block := block_size_bytes / SECTOR_SIZE in
  start_sector ← lift (checked 64 (start_block * sectors_per_block));
  total_sectors ← lift (checked 64 (num_blocks * sectors_per_block));
  zero_sectors drive start_sector 0 (Z.to_nat total_sectors).

Definition erase_disk (drive : Z) : ST D unit :=
  _ ← sectors_of drive;
  _ ← ide_write_sectors drive 0 [];
  mret tt.

Definition write_eucalypt_fs (drive : Z) : ST D unit :=
  n ← sectors_of drive;
  super_block ← lift (new n);
  sb_bytes ← lift (to_bytes super_block);
  _ ← ide_write_sectors drive 1 sb_bytes;
  mret tt.
End disk.

(** ** The layout is sound *)

Lemma div_up_spec a b : 0 ≤ a < 2 ^ 62 → 0 < b < 2 ^ 62 → ∃ q, div_up a b = Some q ∧ a ≤ q * b < a + b.
Proof.
  intros Ha Hb. exists ((a + b - 1) / b). split.
  - unfold div_up. rewrite !checked_ok by lia. cbn [mbind option_bind]. by rewrite checked_ok by lia.
  - pose proof (Z.div_mod (a + b - 1) b ltac:(lia)). pose proof (Z.mod_pos_bound (a + b - 1) b ltac:(lia)). lia.
Qed.

Lemma block_size_cases n : ∃ k, calculate_block_size n = 512 * 2 ^ k ∧ 3 ≤ k ≤ 12.
Proof.
  unfold calculate_block_size. repeat (destruct (_ <=? _); [first [by exists 3|by exists 4|by exists 5|by exists 6|by exists 7|by exists 8]|]). by exists 12.
Qed.

(** The regions of a disk follow each other; the blocks have the size for the disk
    and are as many as fit; the inode table has room for all inodes and the bitmap
    a bit for each block, and neither has a block more than it needs. *)
Record sound_layout (n : Z) (sb : SuperBlock) : Prop := {
  sl_head : magic sb = MAGIC ∧ version sb = VERSION ∧ inodes sb = DEFAULT_INODES ∧ sb_reserved sb = RESERVED;
  sl_size : sb_size sb = n * 512 ∧ blocks sb * block_size sb ≤ sb_size sb < (blocks sb + 1) * block_size sb;
  sl_block : block_size sb = calculate_block_size (sb_size sb) ∧ ∃ k, block_size sb = 512 * 2 ^ k ∧ 3 ≤ k ≤ 12;
  sl_order : inode_table_start sb = superblock_blocks sb ∧ block_bitmap_start sb = inode_table_start sb + inode_table_blocks sb ∧
    reserved_start sb = block_bitmap_start sb + block_bitmap_blocks sb ∧ data_region_start sb = reserved_start sb + reserved_blocks sb;
  sl_first : superblock_blocks sb = 1 ∧ reserved_blocks sb = RESERVED;
  sl_inodes : DEFAULT_INODES * INODE_SIZE ≤ inode_table_blocks sb * block_size sb < DEFAULT_INODES * INODE_SIZE + block_size sb;
  sl_bitmap : blocks sb ≤ 8 * (block_bitmap_blocks sb * block_size sb) < blocks sb + 8 * block_size sb;
  sl_end : data_region_start sb < 2 ^ 52;
}.

Lemma new_sound n : 0 ≤ n < 2 ^ 55 → ∃ sb, new n = Some sb ∧ sound_layout n sb.
Proof.
  intros Hn. destruct (block_size_cases (n * 512)) as (k & Hk & Hkr). assert (2 ^ 3 ≤ 2 ^ k ≤ 2 ^ 12) as Hp by (split; apply Z.pow_le_mono_r; lia).
  change (2 ^ 3) with 8 in Hp. change (2 ^ 12) with 4096 in Hp. set (bs := calculate_block_size (n * 512)) in *.
  pose proof (Z.div_mod (n * 512) bs ltac:(lia)) as Hdm. pose proof (Z.mod_pos_bound (n * 512) bs ltac:(lia)) as Hmb. set (bl := n * 512 / bs) in *.
  assert (0 ≤ bl < 2 ^ 52) as Hbl by nia.
  destruct (div_up_spec (DEFAULT_INODES * INODE_SIZE) bs) as (q1 & E1 & H1); [unfold DEFAULT_INODES, INODE_SIZE; lia|lia|].
  destruct (div_up_spec ((bl + 7) / 8) bs) as (q2 & E2 & H2); [divlia|lia|].
  unfold DEFAULT_INODES, INODE_SIZE in *. assert (0 ≤ q1 < 64) by nia. assert (0 ≤ (bl + 7) / 8 < 2 ^ 50) as Hb8 by divlia.
  assert (0 ≤ q2) by (clear - H2 Hb8 Hp Hk; destruct (Z.neg_nonneg_cases q2); [exfalso; nia|done]).
  assert (q2 * 4096 ≤ q2 * bs) by (apply Z.mul_le_mono_nonneg_l; lia). assert (q2 < 2 ^ 40) by lia.
  eexists. split.
  - unfold new, SECTOR_SIZE. rewrite (checked_ok 64 (n * 512)) by lia. cbn [mbind option_bind]. fold bs bl.
    unfold calculate_inode_table_blocks, calculate_bitmap_blocks, DEFAULT_INODES, INODE_SIZE. rewrite E1. cbn [mbind option_bind].
    rewrite (checked_ok 64 (1 + q1)) by lia. cbn [mbind option_bind]. rewrite (checked_ok 64 (bl + 7)) by lia. cbn [mbind option_bind]. rewrite E2. cbn [mbind option_bind].
    rewrite (checked_ok 64 (1 + q1 + q2)) by lia. cbn [mbind option_bind]. unfold RESERVED. rewrite (checked_ok 64 (1 + q1 + q2 + 500)) by lia. reflexivity.
  - split; cbn [magic version inodes sb_reserved sb_size blocks block_size inode_table_start superblock_blocks block_bitmap_start inode_table_blocks
      reserved_start block_bitmap_blocks data_region_start reserved_blocks]; unfold DEFAULT_INODES, INODE_SIZE, RESERVED;
      [done|lia|by split; [|exists k]|done|done|lia|divlia|lia].
Qed.

(** ** Bytes and back *)

Definition u64_ok (v : Z) : Prop := 0 ≤ v < 2 ^ 64.

Record wf_super_block (sb : SuperBlock) : Prop := {
  ws_head : magic sb = MAGIC ∧ is_byte (version sb) ∧ 0 ≤ inodes sb < 2 ^ 16 ∧ 0 ≤ sb_reserved sb < 2 ^ 16;
  ws_size : u64_ok (sb_size sb) ∧ u64_ok (block_size sb) ∧ u64_ok (blocks sb) ∧ u64_ok (superblock_blocks sb);
  ws_inodes : u64_ok (inode_table_start sb) ∧ u64_ok (inode_table_blocks sb);
  ws_bitmap : u64_ok (block_bitmap_start sb) ∧ u64_ok (block_bitmap_blocks sb);
  ws_data : u64_ok (data_region_start sb) ∧ u64_ok (reserved_start sb) ∧ u64_ok (reserved_blocks sb);
}.

(** The bytes of the super block, field after field. *)
Definition layout_bytes (sb : SuperBlock) : list Z :=
  to_le 2 (magic sb) ++ [version sb] ++ replicate 5 0 ++ to_le 8 (sb_size sb) ++ to_le 8 (block_size sb) ++ to_le 8 (blocks sb)
  ++ to_le 2 (inodes sb) ++ to_le 2 (sb_reserved sb) ++ replicate 4 0 ++ to_le 8 (superblock_blocks sb) ++ to_le 8 (inode_table_start sb)
  ++ to_le 8 (inode_table_blocks sb) ++ to_le 8 (block_bitmap_start sb) ++ to_le 8 (block_bitmap_blocks sb) ++ to_le 8 (data_region_start sb)
  ++ to_le 8 (reserved_start sb) ++ to_le 8 (reserved_blocks sb) ++ replicate 408 0.

Lemma to_bytes_layout sb : to_bytes sb = Some (layout_bytes sb).
Proof. destruct sb. cbv -[Z.modulo Z.div]. reflexivity. Qed.

Lemma layout_bytes_ok sb : is_byte (version sb) → length (layout_bytes sb) = 512%nat ∧ Forall is_byte (layout_bytes sb).
Proof.
  intros Hv. unfold layout_bytes. split; [rewrite !length_app, !length_to_le, !length_replicate; done|].
  rewrite !Forall_app. split_and!; try apply to_le_bytes; try (apply Forall_replicate; unfold is_byte; lia). by constructor.
Qed.

Lemma from_layout_bytes sb : wf_super_block sb → from_bytes (layout_bytes sb) = Some (Ok sb).
Proof.
  intros [(H1 & H2 & H3 & H4) (H5 & H6 & H7 & H8) (H9 & H10) (H11 & H12) (H13 & H14 & H15)]. unfold u64_ok in *.
  destruct sb as [m v s bs bl i r sbb its itb bbs bbb drs rs rb]. cbn [magic version inodes sb_reserved sb_size blocks block_size inode_table_start
    superblock_blocks block_bitmap_start inode_table_blocks reserved_start block_bitmap_blocks data_region_start reserved_blocks] in *.
  assert (from_bytes (layout_bytes (MkSuperBlock m v s bs bl i r sbb its itb bbs bbb drs rs rb)) =
    let le n x := from_le (to_le n x) in
    if negb (le 2%nat m =? MAGIC) then Some (Err "Invalid magic number"%string)
    else Some (Ok (MkSuperBlock (le 2%nat m) v (le 8%nat s) (le 8%nat bs) (le 8%nat bl) (le 2%nat i) (le 2%nat r) (le 8%nat sbb) (le 8%nat its) (le 8%nat itb)
      (le 8%nat bbs) (le 8%nat bbb) (le 8%nat drs) (le 8%nat rs) (le 8%nat rb)))) as ->.
  { cbv -[Z.modulo Z.div Z.add Z.mul Z.eqb]. reflexivity. }
  cbn beta zeta. rewrite !from_to_le_small by (rewrite ?H1; done). by rewrite H1.
Qed.

Lemma sound_wf n sb : 0 ≤ n < 2 ^ 55 → sound_layout n sb → wf_super_block sb.
Proof.
  intros Hn [(H1 & H2 & H3 & H4) [H5 H6] (_ & k & H7 & Hk) (H8 & H9 & H10 & H11) [H12 H13] H14 H15 H16].
  assert (2 ^ 3 ≤ 2 ^ k ≤ 2 ^ 12) as Hp by (split; apply Z.pow_le_mono_r; lia). change (2 ^ 3) with 8 in Hp. change (2 ^ 12) with 4096 in Hp.
  unfold DEFAULT_INODES, INODE_SIZE, RESERVED, VERSION, MAGIC, u64_ok, is_byte in *.
  assert (0 ≤ blocks sb < 2 ^ 60) as Hb by (clear - H5 H6 H7 Hp Hn; nia).
  assert (0 < inode_table_blocks sb) as Hi by (clear - H14 H7 Hp; nia).
  assert (0 ≤ block_bitmap_blocks sb) as Hbb by (clear - H15 Hb H7 Hp; nia).
  split; unfold u64_ok, is_byte, MAGIC; lia.
Qed.

Section format.
Context {D : Type} `{!Disk D} `{!DiskLaws D}.

(** C22. Formatting a disk of less than 2^55 sectors, whose sector 1 can be written
    and read: the super block that [new] makes for the disk is written and read back
    as it was made. Its regions follow each other, the inode table has room for all
    inodes and the bitmap a bit for each block of the disk, neither with a block to
    spare; and no sector but the one of the super block changes. *)
Theorem format_correct (δ : D) drive : 0 ≤ drive < 4 → ready δ drive 1 → 0 ≤ device_size δ drive < 2 ^ 55 →
  ∃ sb δ', new (device_size δ drive) = Some sb ∧ (_ ← write_eucalypt_fs drive; read_super_block drive) δ = Some (Ok sb, δ') ∧
    sound_layout (device_size δ drive) sb ∧
    ∀ d l, (d, l) ≠ (drive, 1) → sector δ' d l = sector δ d l.
Proof.
  intros Hd Hr Hn. destruct (new_sound _ Hn) as (sb & Enew & Hs). pose proof (sound_wf _ _ Hn Hs) as Hwf.
  destruct (layout_bytes_ok sb) as [Hl Hb]; [apply Hwf|].
  cut (wp (_ ← write_eucalypt_fs drive; read_super_block drive) (λ r δ', r = Ok sb ∧ ∀ d l, (d, l) ≠ (drive, 1) → sector δ' d l = sector δ d l) δ);
    [intros (? & δ' & E & -> & H)%wp_result; by exists sb, δ'|].
  apply wp_bind. unfold write_eucalypt_fs, sectors_of. rewrite (proj2 (Z.ltb_lt _ _)) by lia. wp_steps. apply (wp_lift _ _ _ _ Enew). wp_steps.
  apply (wp_lift _ _ _ _ (to_bytes_layout sb)). wp_steps. eapply wp_mono; [by apply write_law|]. intros r δ1 (Hs1 & Hr1 & Hw1 & H01). apply wp_ret.
  unfold read_super_block. apply wp_bind. eapply wp_mono; [by apply read_law|]. intros [e s] δ2 (Hs2 & _ & Hw2 & H02). cbn [fst snd] in *.
  rewrite H02 by (by apply Hr1). cbn [Z.eqb negb]. rewrite (Hw2 ltac:(by apply H02, Hr1)), (Hw1 (H01 Hr)), from_layout_bytes by done. apply wp_ret.
  split; [done|]. intros d l Hne. by rewrite Hs2, Hs1.
Qed.
End format.

Lemma format_correct_witness : ∃ sb δ', (_ ← write_eucalypt_fs 0; read_super_block 0) (RamDisk ∅ 65536) = Some (Ok sb, δ') ∧ sound_layout 65536 sb.
Proof.
  destruct (format_correct (RamDisk ∅ 65536) 0) as (sb & δ' & _ & E & Hs & _); [lia|cbn; lia|cbn; lia|]. exists sb, δ'. split; [exact E|exact Hs].
Defined.
