(* ===== verification/Console.v ===== *)
(** * The text console

    Models framebuffer/src/lib.rs: a ring of text lines with a cursor, scrolling,
    the parser of font headers, the drawing of lines whose text changed into the
    pixels of the frame buffer, and the buffer the printing macros write to.

    The pixels are a map from addresses to 32-bit words; a store to an address that
    is not in it, or not aligned, fails. Loops with a break are [find_range]. *)
From Stdlib Require Import Ascii.
From S2P Require Import Prelude Rust.

Definition MAX_COLS : Z := 80.
Definition MAX_LINES : Z := 30.

Record ConsoleChar := MkConsoleChar { ch : Z; fg_color : Z; bg_color : Z }.

Definition blank_char (bg : Z) : ConsoleChar := MkConsoleChar 32 0xFFFFFFFF bg.

Record ConsoleLine := MkConsoleLine { chars : list ConsoleChar; cl_width : Z; dirty : bool }.

Definition new_line (bg : Z) : ConsoleLine := MkConsoleLine (replicate (Z.to_nat MAX_COLS) (blank_char bg)) MAX_COLS false.

Definition set_width (w : Z) (l : ConsoleLine) : ConsoleLine :=
  MkConsoleLine (chars l) (if w <? MAX_COLS then w else MAX_COLS) (dirty l).

(** The first [width] characters become blank; there have to be as many. *)
Definition clear_line (bg : Z) (l : ConsoleLine) : option ConsoleLine :=
  if cl_width l <=? len (chars l) then
    Some (MkConsoleLine (replicate (Z.to_nat (cl_width l)) (blank_char bg) ++ drop (Z.to_nat (cl_width l)) (chars l)) (cl_width l) true)
  else None.

Definition set_char (col : Z) (c : ConsoleChar) (l : ConsoleLine) : option ConsoleLine :=
  if col <? cl_width l then
    if col <? len (chars l) then Some (MkConsoleLine (<[Z.to_nat col := c]> (chars l)) (cl_width l) true) else None
  else Some l.

Definition get_char (l : ConsoleLine) (col : Z) : option (option ConsoleChar) :=
  if col <? cl_width l then c ← chars l !! Z.to_nat col; Some (Some c) else Some None.

Definition set_dirty (b : bool) (l : ConsoleLine) : ConsoleLine := MkConsoleLine (chars l) (cl_width l) b.

Record renderer := Renderer {
  lines : list ConsoleLine;
  line_count : Z;
  start_line : Z;
  visible_lines : Z;
  cursor_col : Z;
  cursor_line : Z;
  cols : Z;
  fb_addr : Z;
  fb_pitch : Z;
  fb_width : Z;
  fb_height : Z;
  line_height : Z;
  char_width : Z;
  cur_fg : Z;
  cur_bg : Z;
  left_margin : Z;
  top_margin : Z;
  line_spacing : Z;
  font_data : list Z;
  bytes_per_glyph : Z;
  header_size : Z;
}.

(** The statics of the crate, and the memory of the frame buffer. *)
Record console := Console {
  con_lock : bool;
  RENDERER : option renderer;
  LINE_WRITER_BUFFER : list Z;
  LINE_WRITER_POS : Z;
  pixels : gmap Z Z;
}.

Definition set_lines (ls : list ConsoleLine) (r : renderer) : renderer :=
  Renderer ls (line_count r) (start_line r) (visible_lines r) (cursor_col r) (cursor_line r) (cols r) (fb_addr r) (fb_pitch r) (fb_width r)
    (fb_height r) (line_height r) (char_width r) (cur_fg r) (cur_bg r) (left_margin r) (top_margin r) (line_spacing r) (font_data r)
    (bytes_per_glyph r) (header_size r).
Definition set_ring (count start : Z) (r : renderer) : renderer :=
  Renderer (lines r) count start (visible_lines r) (cursor_col r) (cursor_line r) (cols r) (fb_addr r) (fb_pitch r) (fb_width r)
    (fb_height r) (line_height r) (char_width r) (cur_fg r) (cur_bg r) (left_margin r) (top_margin r) (line_spacing r) (font_data r)
    (bytes_per_glyph r) (header_size r).
Definition set_cursor (col line : Z) (r : renderer) : renderer :=
  Renderer (lines r) (line_count r) (start_line r) (visible_lines r) col line (cols r) (fb_addr r) (fb_pitch r) (fb_width r)
    (fb_height r) (line_height r) (char_width r) (cur_fg r) (cur_bg r) (left_margin r) (top_margin r) (line_spacing r) (font_data r)
    (bytes_per_glyph r) (header_size r).
Definition set_colors (fg bg : Z) (r : renderer) : renderer :=
  Renderer (lines r) (line_count r) (start_line r) (visible_lines r) (cursor_col r) (cursor_line r) (cols r) (fb_addr r) (fb_pitch r) (fb_width r)
    (fb_height r) (line_height r) (char_width r) fg bg (left_margin r) (top_margin r) (line_spacing r) (font_data r)
    (bytes_per_glyph r) (header_size r).

(** ** Fonts *)

(** The integer of [n] bytes at an offset. *)
Definition le_field (l : list Z) (off n : nat) : Z := from_le (take n (drop off l)).

(** Width and height of a character, bytes of a glyph and of the header. *)
Definition parse_psf (data : list Z) : Z * Z * Z * Z :=
  if (32 <=? len data) && bool_decide (take 4 data = [0x72; 0xb5; 0x4a; 0x86]) then
    (le_field data 28 4, le_field data 24 4, le_field data 20 4, le_field data 8 4)
  else if (4 <=? len data) && bool_decide (take 2 data = [0x36; 0x04]) then
    let height := le_field data 3 1 in (8, height, height, 4)
  else (8, 16, 16, 4).

(** ** The ring of lines *)

Definition physical_index (r : renderer) (logical_line : Z) : option Z := i ← checked 64 (start_line r + logical_line); Some (i mod MAX_LINES).

Definition get_line (r : renderer) (logical_line : Z) : option (option ConsoleLine) :=
  if logical_line <? line_count r then
    i ← physical_index r logical_line;
    l ← lines r !! Z.to_nat i;
    Some (Some l)
  else Some None.

(** A change of the line at a place in the ring. *)
Definition change_line (i : Z) (f : ConsoleLine → option ConsoleLine) (r : renderer) : option renderer :=
  l ← lines r !! Z.to_nat i;
  l' ← f l;
  Some (set_lines (<[Z.to_nat i := l']> (lines r)) r).

(** The loop that marks the lines [i..i + n] as changed. *)
Fixpoint mark_dirty (i : Z) (n : nat) (r : renderer) : option renderer :=
  match n with
  | O => Some r
  | S n =>
      r' ← (if i <? line_count r then p ← physical_index r i; change_line p (λ l, Some (set_dirty true l)) r else Some r);
      mark_dirty (i + 1) n r'
  end.

Definition scroll_up (r : renderer) : option renderer :=
  let count := line_count r in
  if count <? MAX_LINES then
    let new_count := count + 1 in
    let r := set_ring new_count (start_line r) r in
    new_line_idx ← physical_index r (new_count - 1);
    r ← change_line new_line_idx (clear_line (cur_bg r)) r;
    let r := set_cursor (cursor_col r) (new_count - 1) r in
    mark_dirty 0 (Z.to_nat new_count) r
  else
    let old_start := start_line r in
    r ← change_line old_start (clear_line (cur_bg r)) r;
    next ← checked 64 (old_start + 1);
    let r := set_ring count (next mod MAX_LINES) r in
    let r := set_cursor (cursor_col r) (count - 1) r in
    mark_dirty 0 (Z.to_nat count) r.

(** The steps after a newline, and after the last column. *)
Definition next_line (r : renderer) : option renderer :=
  line ← checked 64 (cursor_line r + 1);
  let r := set_cursor 0 line r in
  if line_count r <=? line then scroll_up r else Some r.

(** [write_char] of a character that is not a control character. *)
Definition put_char (c : Z) (r : renderer) : option renderer :=
  let console_char := MkConsoleChar c (cur_fg r) (cur_bg r) in
  let col := cursor_col r in
  r ← (if cursor_line r <? line_count r then
         i ← physical_index r (cursor_line r); change_line i (set_char col console_char) r
       else Some r);
  col ← checked 64 (cursor_col r + 1);
  let r := set_cursor col (cursor_line r) r in
  if cols r <=? col then next_line r else Some r.

Fixpoint put_chars (c : Z) (n : nat) (r : renderer) : option renderer :=
  match n with
  | O => Some r
  | S n => r ← put_char c r; put_chars c n r
  end.

Definition write_char (c : Z) (r : renderer) : option renderer :=
  if c =? 10 then next_line r
  else if c =? 13 then Some (set_cursor 0 (cursor_line r) r)
  else if c =? 9 then put_chars 32 (Z.to_nat (4 - Z.land (cursor_col r) 3)) r
  else put_char c r.

Fixpoint write_chars (text : list Z) (r : renderer) : option renderer :=
  match text with
  | [] => Some r
  | c :: text => r ← write_char c r; write_chars text r
  end.

(** ** Drawing *)

(** [*p = color] for a pointer to a pixel. *)
Definition put_pixel (a color : Z) : ST (gmap Z Z) unit :=
  λ m, if a mod 4 =? 0 then match m !! a with Some _ => Some (tt, <[a := color]> m) | None => None end else None.

(** Where the row [py] of a glyph starts: the offset of the glyph, and in the glyph. *)
Definition glyph_offset (r : renderer) (max_glyphs c : Z) : option Z :=
  let glyph_idx := if c <? max_glyphs then c else 0 in
  g ← checked 64 (glyph_idx * bytes_per_glyph r);
  checked 64 (header_size r + g).

(** The color of the pixel [gx] of a character, from the bytes of its glyph. *)
Definition glyph_color (r : renderer) (c : ConsoleChar) (glyph_offset line_offset gx : Z) : option Z :=
  o ← checked 64 (glyph_offset + line_offset);
  byte_idx ← checked 64 (o + Z.shiftr gx 3);
  let bit_idx := 7 - Z.land gx 7 in
  Some (match font_data r !! Z.to_nat byte_idx with
        | Some b => if Z.land (Z.shiftr b bit_idx) 1 =? 1 then fg_color c else bg_color c
        | None => bg_color c
        end).

(** The loop over the pixels of a row of one character, for a way to color them. *)
Definition draw_cell (r : renderer) (row_ptr x_offset : Z) (color : Z → option Z) : ST (gmap Z Z) unit :=
  _ ← find_range 0 (Z.to_nat (char_width r)) (λ gx,
    x ← lift (checked 64 (x_offset + gx));
    room ← lift (checked 64 (fb_width r - left_margin r));
    if room <=? x then mret (Some tt)
    else
      c ← lift (color gx);
      _ ← put_pixel (row_ptr + 4 * x) c;
      mret None);
  mret tt.

Definition render_line (r : renderer) (screen_row : Z) (text : list ConsoleChar) (width : Z) : ST (gmap Z Z) unit :=
  stride ← lift (checked 64 (line_height r + line_spacing r));
  off ← lift (checked 64 (screen_row * stride));
  y ← lift (checked 64 (top_margin r + off));
  if fb_height r <=? y then mret tt
  else
    let fb_base := fb_addr r in
    let pixels_per_row := Z.shiftr (fb_pitch r) 2 in
    glyph_bytes ← lift (checked 64 (len (font_data r) - header_size r));
    if bytes_per_glyph r =? 0 then panic
    else
      let max_glyphs := glyph_bytes / bytes_per_glyph r in
      w ← lift (checked 64 (char_width r + 7));
      let bytes_per_line := Z.shiftr w 3 in
      _ ← find_range 0 (Z.to_nat (line_height r)) (λ py,
        row_y ← lift (checked 64 (y + py));
        if fb_height r <=? row_y then mret (Some tt)
        else
          words ← lift (checked 64 (row_y * pixels_per_row));
          bytes ← lift (checked 64 (words * 4));
          row ← lift (checked 64 (fb_base + bytes));
          margin ← lift (checked 64 (left_margin r * 4));
          row_ptr ← lift (checked 64 (row + margin));
          _ ← for_range 0 (Z.to_nat (cols r)) (λ col,
            x_offset ← lift (checked 64 (col * char_width r));
            if col <? width then
              console_char ← lift (text !! Z.to_nat col);
              glyph ← lift (glyph_offset r max_glyphs (ch console_char));
              line_offset ← lift (checked 64 (py * bytes_per_line));
              draw_cell r row_ptr x_offset (glyph_color r console_char glyph line_offset)
            else draw_cell r row_ptr x_offset (λ _, Some (cur_bg r)));
          mret None);
      mret tt.

(** The copy of a line [render_dirty] makes. *)
Fixpoint copy_chars (l : ConsoleLine) (i : Z) (n : nat) (text : list ConsoleChar) : option (list ConsoleChar) :=
  match n with
  | O => Some text
  | S n =>
      c ← get_char l i;
      text ← (match c with
              | Some c => if i <? len text then Some (<[Z.to_nat i := c]> text) else None
              | None => Some text
              end);
      copy_chars l (i + 1) n text
  end.

(** The loop of [render_dirty], over the renderer and the pixels. *)
Fixpoint render_lines (display_start logical_line : Z) (n : nat) (r : renderer) (m : gmap Z Z) : option (renderer * gmap Z Z) :=
  match n with
  | O => Some (r, m)
  | S n =>
      screen_row ← checked 64 (logical_line - display_start);
      l ← get_line r logical_line;
      rm ← (match l with
            | Some l =>
                if dirty l then
                  text ← copy_chars l 0 (Z.to_nat (cl_width l)) (replicate (Z.to_nat MAX_COLS) (blank_char 0));
                  d ← render_line r screen_row text (cl_width l) m;
                  p ← physical_index r logical_line;
                  r ← change_line p (λ l, Some (set_dirty false l)) r;
                  Some (r, snd d)
                else Some (r, m)
            | None => Some (r, m)
            end);
      render_lines display_start (logical_line + 1) n (fst rm) (snd rm)
  end.

Definition render_dirty (r : renderer) (m : gmap Z Z) : option (renderer * gmap Z Z) :=
  let count := line_count r in
  let visible_count := if visible_lines r <? count then visible_lines r else count in
  let display_start := if visible_count <? count then count - visible_count else 0 in
  render_lines display_start display_start (Z.to_nat (count - display_start)) r m.

Definition write_text (text : list Z) (r : renderer) (m : gmap Z Z) : option (renderer * gmap Z Z) :=
  r ← write_chars text r;
  render_dirty r m.

(** ** The statics *)

Definition set_renderer (r : option renderer) (m : gmap Z Z) (κ : console) : console :=
  Console (con_lock κ) r (LINE_WRITER_BUFFER κ) (LINE_WRITER_POS κ) m.

(** [ScrollingTextRenderer::init]. *)
Definition init (addr width height pitch : Z) (font : list Z) : ST console unit :=
  let '(char_width, charsize, bytes_per_glyph, header_size) := parse_psf font in
  let line_height := charsize in
  let left_margin := 10 in
  let top_margin := 10 in
  let line_spacing := 2 in
  line_stride ← lift (checked 64 (line_height + line_spacing));
  let available_height := saturating_sub height top_margin in
  let rows := if 0 <? line_stride then available_height / line_stride else 0 in
  let available_width := saturating_sub width left_margin in
  let cols := if 0 <? char_width then available_width / char_width else 80 in
  let bg := 0 in
  let cols_clamped := if cols <? MAX_COLS then cols else MAX_COLS in
  let lines := replicate (Z.to_nat MAX_LINES) (set_width cols_clamped (new_line bg)) in
  let initial_lines := if rows <? MAX_LINES then rows else MAX_LINES in
  let visible := if rows <? MAX_LINES then rows else MAX_LINES in
  let r := Renderer lines initial_lines 0 visible 0 0 (if cols <? MAX_COLS then cols else MAX_COLS) addr pitch width height line_height char_width
    0xFFFFFFFF bg left_margin top_margin line_spacing font bytes_per_glyph header_size in
  locked ← get con_lock;
  if locked : bool then panic else modify (λ κ, set_renderer (Some r) (pixels κ) κ).

(** [write_global]: the lock, the renderer, which has to be there, and the text. *)
Definition write_global (text : list Z) : ST console unit :=
  λ κ, if con_lock κ then None
       else
         r ← RENDERER κ;
         rm ← write_text text r (pixels κ);
         Some (tt, set_renderer (Some (fst rm)) (snd rm) κ).

(** [LineWriter]. *)
Definition line_writer_new : ST console unit :=
  modify (λ κ, Console (con_lock κ) (RENDERER κ) (LINE_WRITER_BUFFER κ) 0 (pixels κ)).

Definition write_str (s : list Z) : ST console unit :=
  buf ← get LINE_WRITER_BUFFER;
  pos ← get LINE_WRITER_POS;
  remaining ← lift (checked 64 (len buf - pos));
  let to_copy := if len s <? remaining then len s else remaining in
  buf ← lift (patch buf pos (take (Z.to_nat to_copy) s));
  pos ← lift (checked 64 (pos + to_copy));
  modify (λ κ, Console (con_lock κ) (RENDERER κ) buf pos (pixels κ)).

Definition finish : ST console (list Z) :=
  buf ← get LINE_WRITER_BUFFER;
  pos ← get LINE_WRITER_POS;
  lift (slice buf 0 pos).

(** [kprint!]: the pieces the formatter writes, then the screen. *)
Fixpoint write_pieces (pieces : list (list Z)) : ST console unit :=
  match pieces with
  | [] => mret tt
  | s :: pieces => _ ← write_str s; write_pieces pieces
  end.

Definition kprint (pieces : list (list Z)) : ST console unit :=
  _ ← line_writer_new;
  _ ← write_pieces pieces;
  text ← finish;
  write_global text.
