(* ===== verification/ConsoleRing.v ===== *)
(** * The console as a terminal

    The ring of lines of framebuffer/src/lib.rs implements a terminal: rows of
    characters in order, a cursor, and a scroll that drops the first row. *)
From S2P Require Import Prelude Rust Console.

(** ** The terminal *)

Record terminal := Terminal {
  t_rows : list (list ConsoleChar);
  t_col : Z;
  t_line : Z;
  t_cols : Z;
  t_fg : Z;
  t_bg : Z;
}.

(** A blank row is added at the end; when there are [MAX_LINES], the first one goes. *)
Definition t_scroll (t : terminal) : terminal :=
  let rows := (if len (t_rows t) <? MAX_LINES then t_rows t else tail (t_rows t)) ++ [replicate (Z.to_nat (t_cols t)) (blank_char (t_bg t))] in
  Terminal rows (t_col t) (len rows - 1) (t_cols t) (t_fg t) (t_bg t).

Definition t_move (col line : Z) (t : terminal) : terminal := Terminal (t_rows t) col line (t_cols t) (t_fg t) (t_bg t).

Definition t_next (t : terminal) : terminal :=
  let t := t_move 0 (t_line t + 1) t in
  if len (t_rows t) <=? t_line t then t_scroll t else t.

(** A character at the cursor, which moves on. *)
Definition t_put (c : Z) (t : terminal) : terminal :=
  let x := MkConsoleChar c (t_fg t) (t_bg t) in
  let t := Terminal (alter (λ row, <[Z.to_nat (t_col t) := x]> row) (Z.to_nat (t_line t)) (t_rows t)) (t_col t) (t_line t) (t_cols t) (t_fg t) (t_bg t) in
  let t := t_move (t_col t + 1) (t_line t) t in
  if t_cols t <=? t_col t then t_next t else t.

Definition t_write (c : Z) (t : terminal) : terminal :=
  if c =? 10 then t_next t
  else if c =? 13 then t_move 0 (t_line t) t
  else if c =? 9 then Nat.iter (Z.to_nat (4 - t_col t mod 4)) (t_put 32) t
  else t_put c t.

Definition t_writes (text : list Z) (t : terminal) : terminal := fold_left (λ t c, t_write c t) text t.

(** ** The ring *)

Record wf_ring (r : renderer) : Prop := {
  w_lines : length (lines r) = 30%nat;
  w_line : Forall (λ l, length (chars l) = 80%nat ∧ cl_width l = cols r) (lines r);
  w_cols : 0 ≤ cols r ≤ 80;
  w_count : 0 ≤ line_count r ≤ 30;
  w_start : 0 ≤ start_line r < 30;
}.

Definition wf_cursor (r : renderer) : Prop :=
  0 ≤ cursor_col r ∧ (cursor_col r < cols r ∨ cursor_col r = 0) ∧ 0 ≤ cursor_line r ∧ (cursor_line r < line_count r ∨ cursor_line r = 0).

(** The place of a row in the ring, its line, and its text. *)
Definition place (r : renderer) (i : Z) : nat := Z.to_nat ((start_line r + i) mod 30).
Definition line_at (r : renderer) (i : Z) : ConsoleLine := default (new_line 0) (lines r !! place r i).
Definition row (r : renderer) (i : Z) : list ConsoleChar := take (Z.to_nat (cols r)) (chars (line_at r i)).
Definition rows (r : renderer) : list (list ConsoleChar) := row r <$> seqZ 0 (line_count r).

Definition term (r : renderer) : terminal := Terminal (rows r) (cursor_col r) (cursor_line r) (cols r) (cur_fg r) (cur_bg r).

Lemma place_lt r i : (place r i < 30)%nat.
Proof. unfold place. pose proof (Z.mod_pos_bound (start_line r + i) 30 ltac:(lia)). lia. Qed.

Lemma place_inj r i j : 0 ≤ i < 30 → 0 ≤ j < 30 → place r i = place r j → i = j.
Proof. unfold place. intros Hi Hj E. divlia. Qed.

Lemma line_at_ok r i : wf_ring r → lines r !! place r i = Some (line_at r i) ∧ length (chars (line_at r i)) = 80%nat ∧ cl_width (line_at r i) = cols r.
Proof.
  intros Hw. unfold line_at. destruct (lookup_lt_is_Some_2 (lines r) (place r i)) as [l E]; [rewrite (w_lines _ Hw); apply place_lt|].
  rewrite E. cbn. split; [done|]. pose proof (w_line _ Hw) as Hl. rewrite Forall_forall in Hl. apply Hl. by eapply list_elem_of_lookup_2.
Qed.

Lemma len_rows r : wf_ring r → len (rows r) = line_count r.
Proof. intros [_ _ _ Hc _]. unfold len, rows. rewrite length_fmap, length_seqZ. lia. Qed.

Lemma rows_lookup r i : wf_ring r → (i < Z.to_nat (line_count r))%nat → rows r !! i = Some (row r (Z.of_nat i)).
Proof. intros Hw Hi. unfold rows. rewrite list_lookup_fmap, lookup_seqZ_lt by lia. cbn. by rewrite Z.add_0_l. Qed.

Lemma physical_ok r i : wf_ring r → 0 ≤ i ≤ 30 → physical_index r i = Some (Z.of_nat (place r i)).
Proof.
  intros [_ _ _ _ Hs] Hi. unfold physical_index, place, MAX_LINES. rewrite checked_ok by lia. cbn [mbind option_bind]. f_equal.
  pose proof (Z.mod_pos_bound (start_line r + i) 30 ltac:(lia)). lia.
Qed.

(** ** Steps

    What the operations leave alone, and which lines they mark. *)

(** The fields of a renderer that writing does not change. *)
Definition fixed (r : renderer) :=
  (visible_lines r, cols r, fb_addr r, fb_pitch r, fb_width r, fb_height r, line_height r, char_width r, (cur_fg r, cur_bg r, left_margin r, top_margin r,
    line_spacing r, font_data r, bytes_per_glyph r, header_size r)).

(** A line that is not marked is the one that was there. *)
Definition keeps (r r' : renderer) : Prop :=
  fixed r' = fixed r ∧
  ∀ i, 0 ≤ i < line_count r' → dirty (line_at r' i) = true ∨ line_count r' = line_count r ∧ line_at r' i = line_at r i.

Lemma keeps_refl r : keeps r r.
Proof. split; auto. Qed.

Lemma ring_keeps_trans r1 r2 r3 : keeps r1 r2 → keeps r2 r3 → keeps r1 r3.
Proof.
  intros [F1 K1] [F2 K2]. split; [congruence|]. intros i Hi. destruct (K2 i Hi) as [|[E1 E2]]; [by left|].
  destruct (K1 i ltac:(lia)) as [|[E3 E4]]; [left; congruence|right; split; congruence].
Qed.

(** One step of the ring: it returns, and is a step of the terminal. *)
Definition steps (o : option renderer) (r : renderer) (t : terminal) : Prop :=
  ∃ r', o = Some r' ∧ wf_ring r' ∧ wf_cursor r' ∧ term r' = t ∧ keeps r r'.

(** A line replaced in the ring. *)
Definition put_line (r : renderer) (i : Z) (l : ConsoleLine) : renderer := set_lines (<[place r i := l]> (lines r)) r.

Lemma put_line_at r i l j : wf_ring r → 0 ≤ i < 30 → 0 ≤ j < 30 → line_at (put_line r i l) j = if decide (j = i) then l else line_at r j.
Proof.
  intros Hw Hi Hj. unfold line_at. change (place (put_line r i l) j) with (place r j). cbn [put_line set_lines lines].
  destruct (decide (j = i)) as [->|Hn].
  - rewrite list_lookup_insert_eq by (rewrite (w_lines _ Hw); apply place_lt). done.
  - rewrite list_lookup_insert_ne; [done|]. intros E. by apply place_inj in E.
Qed.

Lemma put_line_wf r i l : wf_ring r → length (chars l) = 80%nat → cl_width l = cols r → wf_ring (put_line r i l).
Proof.
  intros [H1 H2 H3 H4 H5] Hl Hc. split; cbn [put_line set_lines lines cols line_count start_line]; try done.
  - by rewrite length_insert.
  - by apply Forall_insert.
Qed.

Lemma change_ok r i f l : wf_ring r → f (line_at r i) = Some l → change_line (Z.of_nat (place r i)) f r = Some (put_line r i l).
Proof.
  intros Hw Hf. unfold change_line. rewrite Nat2Z.id. destruct (line_at_ok r i Hw) as (-> & _ & _). cbn [mbind option_bind]. by rewrite Hf.
Qed.

(** The rows of a renderer, from those of another. *)
Lemma rows_eq r l : wf_ring r → len l = line_count r → (∀ i, 0 ≤ i < line_count r → l !! Z.to_nat i = Some (row r i)) → rows r = l.
Proof.
  intros Hw Hl Hr. pose proof (len_rows r Hw). apply list_eq. intros i. destruct (decide (i < Z.to_nat (line_count r))%nat).
  - rewrite rows_lookup by done. by rewrite <- (Hr (Z.of_nat i)), Nat2Z.id by lia.
  - unfold len in *. rewrite !lookup_ge_None_2 by lia. done.
Qed.

Lemma rows_at r i : wf_ring r → 0 ≤ i < line_count r → rows r !! Z.to_nat i = Some (row r i).
Proof. intros Hw Hi. rewrite rows_lookup by (done || lia). by rewrite Z2Nat.id by lia. Qed.

Lemma set_lines_id r : set_lines (lines r) r = r.
Proof. by destruct r. Qed.

(** The marking loop changes the marks, of all lines from [i] on. *)
Lemma mark_dirty_ok n i r : wf_ring r → 0 ≤ i → i + Z.of_nat n = line_count r →
  ∃ ls, let r' := set_lines ls r in mark_dirty i n r = Some r' ∧ wf_ring r' ∧
    ∀ j, 0 ≤ j < line_count r → line_at r' j = if decide (i ≤ j) then set_dirty true (line_at r j) else line_at r j.
Proof.
  revert i r. induction n as [|n IH]; intros i r Hw Hi Hn; cbn [mark_dirty].
  - exists (lines r). rewrite set_lines_id. split; [done|]. split; [done|]. intros j Hj. destruct (decide (i ≤ j)); [lia|done].
  - pose proof (w_count _ Hw). replace (i <? line_count r) with true by lia. rewrite physical_ok by (done || lia). cbn [mbind option_bind].
    destruct (line_at_ok r i Hw) as (_ & Hl & Hc). rewrite (change_ok r i _ (set_dirty true (line_at r i))) by done. cbn [mbind option_bind].
    set (r1 := put_line r i (set_dirty true (line_at r i))). assert (Hw1 : wf_ring r1) by by apply put_line_wf.
    destruct (IH (i + 1) r1 Hw1 ltac:(lia)) as (ls & E & Hw2 & Hj); [cbn; lia|].
    exists ls. split; [exact E|]. split; [exact Hw2|]. intros j Hr. specialize (Hj j Hr). change (set_lines ls r1) with (set_lines ls r) in Hj. rewrite Hj.
    unfold r1. rewrite put_line_at by (done || lia). repeat destruct decide; try lia; subst; done.
Qed.

Lemma row_eq r r' i j : cols r' = cols r → chars (line_at r' i) = chars (line_at r j) → row r' i = row r j.
Proof. unfold row. by intros -> ->. Qed.

(** All lines marked. *)
Lemma mark_all r : wf_ring r → ∃ ls, let r' := set_lines ls r in mark_dirty 0 (Z.to_nat (line_count r)) r = Some r' ∧ wf_ring r' ∧ rows r' = rows r ∧
  ∀ i, 0 ≤ i < line_count r → dirty (line_at r' i) = true.
Proof.
  intros Hw. pose proof (w_count _ Hw). destruct (mark_dirty_ok (Z.to_nat (line_count r)) 0 r) as (ls & E & Hw' & Hl); [done|lia..|].
  exists ls. split; [exact E|]. split; [exact Hw'|]. split.
  - apply rows_eq; [done|by rewrite len_rows|]. intros i Hi. rewrite rows_at by done. f_equal. apply row_eq; [done|].
    rewrite Hl by done. by destruct (decide (0 ≤ i)).
  - intros i Hi. rewrite Hl by done. by destruct (decide (0 ≤ i)); [|lia].
Qed.

Definition cleared (bg : Z) (l : ConsoleLine) : ConsoleLine :=
  MkConsoleLine (replicate (Z.to_nat (cl_width l)) (blank_char bg) ++ drop (Z.to_nat (cl_width l)) (chars l)) (cl_width l) true.

Lemma clear_ok r i bg : wf_ring r → let l := cleared bg (line_at r i) in
  clear_line bg (line_at r i) = Some l ∧ length (chars l) = 80%nat ∧ cl_width l = cols r ∧ take (Z.to_nat (cols r)) (chars l) = replicate (Z.to_nat (cols r)) (blank_char bg).
Proof.
  intros Hw. destruct (line_at_ok r i Hw) as (_ & Hl & Hc). pose proof (w_cols _ Hw). unfold clear_line, cleared, len. rewrite Hc, Hl. cbn [chars cl_width].
  change (Z.of_nat 80) with 80. replace (cols r <=? 80) with true by lia. split; [done|]. split; [rewrite length_app, length_replicate, length_drop; lia|]. split; [done|].
  apply take_app_length'. by rewrite length_replicate.
Qed.

(** ** The operations *)

(** The end of a scroll: every line is marked. *)
Lemma mark_steps r r' t : wf_ring r' → wf_cursor r' → fixed r' = fixed r → term r' = t → steps (mark_dirty 0 (Z.to_nat (line_count r')) r') r t.
Proof.
  intros Hw Hc Hf <-. destruct (mark_all r' Hw) as (ls & E & Hw' & Hr & Hd). eexists. split; [exact E|]. split; [exact Hw'|]. split; [exact Hc|].
  split; [unfold term; by rewrite Hr|]. split; [exact Hf|]. intros i Hi. left. by apply Hd.
Qed.

(** A line more, cleared. *)
Definition grown (r : renderer) : renderer :=
  let r1 := set_ring (line_count r + 1) (start_line r) r in put_line r1 (line_count r) (cleared (cur_bg r) (line_at r1 (line_count r))).

Lemma grown_ok r : wf_ring r → line_count r < 30 →
  wf_ring (grown r) ∧ rows (grown r) = rows r ++ [replicate (Z.to_nat (cols r)) (blank_char (cur_bg r))].
Proof.
  intros Hw Hc. pose proof (w_count _ Hw). unfold grown. set (r1 := set_ring _ _ r). assert (Hw1 : wf_ring r1) by (destruct Hw; split; cbn; done || lia).
  destruct (clear_ok r1 (line_count r) (cur_bg r) Hw1) as (_ & Hl & Hn & Ht). set (l := cleared _ _) in *.
  assert (Hw2 : wf_ring (put_line r1 (line_count r) l)) by by apply put_line_wf. split; [done|].
  pose proof (len_rows r Hw) as Hr. apply rows_eq; [done|rewrite len_app, Hr; done|]. intros i Hi. change (0 ≤ i < line_count r + 1) in Hi. unfold row.
  rewrite put_line_at by (done || lia). unfold len in Hr. destruct (decide (i = line_count r)) as [->|Hn'].
  - rewrite lookup_app_r by lia. replace (_ - _)%nat with 0%nat by lia. cbn [list_lookup lookup]. f_equal. by symmetry.
  - rewrite lookup_app_l by lia. by apply rows_at; [|lia].
Qed.

(** The first line, cleared, is the last one. *)
Definition rolled (r : renderer) : renderer :=
  set_ring 30 ((start_line r + 1) mod 30) (put_line r 0 (cleared (cur_bg r) (line_at r 0))).

Lemma rolled_ok r : wf_ring r → line_count r = 30 →
  wf_ring (rolled r) ∧ rows (rolled r) = tail (rows r) ++ [replicate (Z.to_nat (cols r)) (blank_char (cur_bg r))].
Proof.
  intros Hw Hc. pose proof (w_start _ Hw). unfold rolled.
  destruct (clear_ok r 0 (cur_bg r) Hw) as (_ & Hl & Hn & Ht). set (l := cleared _ _) in *.
  assert (Hw1 : wf_ring (put_line r 0 l)) by by apply put_line_wf. set (r2 := set_ring _ _ _).
  assert (Hw2 : wf_ring r2) by (destruct Hw1; split; cbn; done || divlia). split; [done|].
  assert (Hat : ∀ i, line_at r2 i = line_at (put_line r 0 l) (i + 1)).
  { intros i. unfold line_at. do 2 f_equal. unfold place. cbn [r2 set_ring start_line put_line set_lines]. f_equal.
    rewrite Zplus_mod_idemp_l. f_equal. lia. }
  pose proof (len_rows r Hw) as Hr. assert (Htl : length (tail (rows r)) = 29%nat). { unfold len in Hr. destruct (rows r); cbn [length tail] in *; lia. }
  apply rows_eq; [done|rewrite len_app; unfold len; rewrite Htl; done|]. intros i Hi. change (0 ≤ i < 30) in Hi. unfold row. rewrite Hat.
  destruct (decide (i = 29)) as [->|Hn'].
  - rewrite lookup_app_r by lia. replace (Z.to_nat 29 - _)%nat with 0%nat by lia. cbn [list_lookup lookup]. f_equal.
    replace (line_at (put_line r 0 l) (29 + 1)) with l; [by symmetry|]. symmetry. unfold line_at.
    replace (place (put_line r 0 l) (29 + 1)) with (place r 0) by (unfold place; cbn; f_equal; divlia). cbn [put_line set_lines lines].
    by rewrite list_lookup_insert_eq by (rewrite (w_lines _ Hw); apply place_lt).
  - rewrite lookup_app_l by lia. rewrite put_line_at by (done || lia). destruct (decide (i + 1 = 0)); [lia|].
    rewrite lookup_tail. replace (S (Z.to_nat i)) with (Z.to_nat (i + 1)) by lia. by apply rows_at; [|lia].
Qed.

Lemma scroll_up_ok r : wf_ring r → 0 ≤ cursor_col r ∧ (cursor_col r < cols r ∨ cursor_col r = 0) → steps (scroll_up r) r (t_scroll (term r)).
Proof.
  intros Hw Hx. pose proof (w_count _ Hw). pose proof (w_start _ Hw). unfold scroll_up, t_scroll, MAX_LINES. cbn [term t_rows]. rewrite len_rows by done.
  destruct (line_count r <? 30) eqn:Ec.
  - destruct (grown_ok r Hw ltac:(lia)) as [Hw' Hr]. set (r1 := set_ring (line_count r + 1) (start_line r) r) in *.
    assert (Hw1 : wf_ring r1) by (destruct Hw; split; cbn; done || lia).
    rewrite (physical_ok r1) by (done || lia). cbn [mbind option_bind]. destruct (clear_ok r1 (line_count r) (cur_bg r1) Hw1) as (Ef & _).
    replace (line_count r + 1 - 1) with (line_count r) by lia. rewrite (change_ok r1 _ _ _ Hw1 Ef). cbn [mbind option_bind].
    apply (mark_steps r (set_cursor (cursor_col r) (line_count r) (grown r))); [by destruct Hw'; split|split; cbn; lia|done|].
    change (term (set_cursor ?x ?y ?z)) with (Terminal (rows z) x y (cols r) (cur_fg r) (cur_bg r)). rewrite Hr, len_app, len_rows by done. cbn [len length t_col t_cols t_fg t_bg term].
    unfold len. cbn [length]. f_equal. lia.
  - assert (line_count r = 30) as Hc by lia. destruct (rolled_ok r Hw Hc) as [Hw' Hr]. destruct (clear_ok r 0 (cur_bg r) Hw) as (Ef & _).
    replace (start_line r) with (Z.of_nat (place r 0)) at 1 by (unfold place; divlia). rewrite (change_ok r _ _ _ Hw Ef). cbn [mbind option_bind].
    rewrite checked_ok by lia. cbn [mbind option_bind]. rewrite Hc.
    apply (mark_steps r (set_cursor (cursor_col r) 29 (rolled r))); [by destruct Hw'; split|split; cbn; lia|done|].
    change (term (set_cursor ?x ?y ?z)) with (Terminal (rows z) x y (cols r) (cur_fg r) (cur_bg r)).
    cbn [term t_rows t_col t_cols t_fg t_bg]. rewrite <- Hr. rewrite len_rows by done. done.
Qed.

Lemma steps_trans r r1 o t : wf_ring r1 → wf_cursor r1 → keeps r r1 → steps o r1 t → steps o r t.
Proof. intros Hw Hc Hk (r' & E & Hw' & Hc' & Ht & Hk'). exists r'. split_and!; try done. by eapply ring_keeps_trans. Qed.

Lemma steps_done r r' t : wf_ring r' → wf_cursor r' → term r' = t → keeps r r' → steps (Some r') r t.
Proof. exists r'. done. Qed.

Lemma next_line_ok r : wf_ring r → 0 ≤ cursor_line r ≤ 30 → steps (next_line r) r (t_next (term r)).
Proof.
  intros Hw Hl. pose proof (w_count _ Hw). unfold next_line, t_next. rewrite checked_ok by lia. cbn [mbind option_bind].
  set (r1 := set_cursor 0 (cursor_line r + 1) r). assert (Hw1 : wf_ring r1) by by destruct Hw; split.
  change (t_move 0 (t_line (term r) + 1) (term r)) with (term r1). change (t_line (term r1)) with (cursor_line r + 1). cbn [term t_rows]. rewrite len_rows by done.
  change (line_count r1) with (line_count r). destruct (line_count r <=? cursor_line r + 1) eqn:E.
  - destruct (scroll_up_ok r1 Hw1) as (r' & E' & Hw' & Hc' & Ht & Hk); [cbn; lia|]. exists r'. by split_and!.
  - apply steps_done; [done|split; cbn; lia|done|]. split; [done|]. intros i Hi. by right.
Qed.

(** A character stored in a line. *)
Lemma set_char_ok r i col c : wf_ring r → 0 ≤ i < line_count r → 0 ≤ col → (col < cols r ∨ col = 0) →
  ∃ l, set_char col c (line_at r i) = Some l ∧ length (chars l) = 80%nat ∧ cl_width l = cols r ∧
    take (Z.to_nat (cols r)) (chars l) = <[Z.to_nat col := c]> (row r i) ∧ (dirty l = true ∨ l = line_at r i).
Proof.
  intros Hw Hi Hc Hx. destruct (line_at_ok r i Hw) as (_ & Hl & Hn). pose proof (w_cols _ Hw). unfold set_char. rewrite Hn. destruct (col <? cols r) eqn:E.
  - unfold len. rewrite Hl. change (Z.of_nat 80) with 80. replace (col <? 80) with true by lia. eexists. split; [done|]. cbn [chars cl_width dirty].
    split; [by rewrite length_insert|]. split; [done|]. split; [|by left]. unfold row. by rewrite take_insert_lt by lia.
  - eexists. split; [done|]. split_and!; try done; [|by right]. unfold row. rewrite list_insert_ge; [done|]. rewrite length_take. lia.
Qed.

Lemma put_line_keeps r i l : wf_ring r → 0 ≤ i < line_count r → dirty l = true ∨ l = line_at r i → keeps r (put_line r i l).
Proof.
  intros Hw Hi Hl. pose proof (w_count _ Hw). split; [done|]. intros j Hj. change (0 ≤ j < line_count r) in Hj. rewrite put_line_at by (done || lia).
  destruct (decide (j = i)) as [->|]; [destruct Hl as [|Hl]; [by left|by right]|by right].
Qed.

Lemma put_line_rows r i l : wf_ring r → wf_ring (put_line r i l) → 0 ≤ i < line_count r →
  rows (put_line r i l) = <[Z.to_nat i := take (Z.to_nat (cols r)) (chars l)]> (rows r).
Proof.
  intros Hw Hw' Hi. pose proof (w_count _ Hw). pose proof (len_rows r Hw) as Hr. unfold len in Hr. apply rows_eq; [done|unfold len; by rewrite length_insert|].
  intros j Hj. change (0 ≤ j < line_count r) in Hj. unfold row at 1. rewrite put_line_at by (done || lia). destruct (decide (j = i)) as [->|].
  - by rewrite list_lookup_insert_eq by lia.
  - rewrite list_lookup_insert_ne by lia. by apply rows_at.
Qed.

Lemma alter_insert {A} (f : A → A) (l : list A) i x : l !! i = Some x → alter f i l = <[i := f x]> l.
Proof. intros E. rewrite list_insert_alter. apply list_alter_ext; [|done]. intros y Ey. by rewrite E in Ey; injection Ey as ->. Qed.

(** The store of [put_char] changes a row of the terminal. *)
Lemma put_store_ok r c : wf_ring r → wf_cursor r →
  let x := MkConsoleChar c (cur_fg r) (cur_bg r) in
  ∃ ls, let r' := set_lines ls r in
    (if cursor_line r <? line_count r then i ← physical_index r (cursor_line r); change_line i (set_char (cursor_col r) x) r else Some r) = Some r' ∧
    wf_ring r' ∧ rows r' = alter (λ row, <[Z.to_nat (cursor_col r) := x]> row) (Z.to_nat (cursor_line r)) (rows r) ∧ keeps r r'.
Proof.
  intros Hw (Hx & Hx' & Hy & Hy') x. pose proof (w_count _ Hw). destruct (cursor_line r <? line_count r) eqn:E.
  - destruct (set_char_ok r (cursor_line r) (cursor_col r) x) as (l & El & Hl & Hc & Ht & Hd); [done|lia..|].
    rewrite physical_ok by (done || lia). cbn [mbind option_bind]. rewrite (change_ok r _ _ _ Hw El). eexists. split; [done|].
    change (set_lines _ r) with (put_line r (cursor_line r) l). assert (Hw' : wf_ring (put_line r (cursor_line r) l)) by by apply put_line_wf.
    split; [done|]. split; [|apply put_line_keeps; done || lia]. rewrite put_line_rows by (done || lia). rewrite Ht.
    symmetry. apply (alter_insert (λ row, <[Z.to_nat (cursor_col r) := x]> row)). apply rows_at; done || lia.
  - exists (lines r). rewrite set_lines_id. split; [done|]. split; [done|]. split; [|apply keeps_refl]. pose proof (len_rows r Hw) as Hr.
    destruct (rows r); [done|]. unfold len in Hr. cbn [length] in Hr. lia.
Qed.

Lemma put_char_ok c r : wf_ring r → wf_cursor r → steps (put_char c r) r (t_put c (term r)).
Proof.
  intros Hw Hc. pose proof (w_count _ Hw). pose proof (w_cols _ Hw). unfold put_char, t_put. destruct (put_store_ok r c Hw Hc) as (ls & E & Hw1 & Hr & Hk).
  rewrite E. cbn [mbind option_bind]. destruct Hc as (Hx & Hx' & Hy & Hy'). rewrite checked_ok by (cbn; lia). cbn [mbind option_bind].
  set (r1 := set_lines ls r) in *. set (r2 := set_cursor (cursor_col r1 + 1) (cursor_line r1) r1). assert (Hw2 : wf_ring r2) by by destruct Hw1; split.
  cbn [term t_col t_line t_cols t_fg t_bg t_rows]. rewrite <- Hr. change (t_move _ _ _) with (term r2). cbn [t_move t_cols t_col].
  assert (Hk2 : keeps r r2) by exact Hk. change (cols r2) with (cols r). change (t_cols (term r2)) with (cols r). change (t_col (term r2)) with (cursor_col r + 1).
  change (cursor_col r1) with (cursor_col r). destruct (cols r <=? cursor_col r + 1) eqn:Ec.
  - destruct (next_line_ok r2 Hw2) as (r' & E' & Hw' & Hc' & Ht & Hk'); [cbn; lia|]. exists r'. split_and!; try done. by eapply ring_keeps_trans.
  - apply steps_done; [done| |done..]. split; cbn; lia.
Qed.

Lemma put_chars_ok c n r : wf_ring r → wf_cursor r → steps (put_chars c n r) r (Nat.iter n (t_put c) (term r)).
Proof.
  revert r. induction n as [|n IH]; intros r Hw Hc; cbn [put_chars].
  - by apply steps_done; [..|apply keeps_refl].
  - destruct (put_char_ok c r Hw Hc) as (r' & -> & Hw' & Hc' & Ht & Hk). cbn [mbind option_bind]. rewrite Nat.iter_succ_r, <- Ht.
    eapply steps_trans; [exact Hw'|exact Hc'|exact Hk|]. by apply IH.
Qed.

Lemma write_char_ok c r : wf_ring r → wf_cursor r → steps (write_char c r) r (t_write c (term r)).
Proof.
  intros Hw Hc. pose proof (w_count _ Hw). unfold write_char, t_write. destruct (c =? 10); [apply next_line_ok; [done|]; destruct Hc as (? & ? & ? & ?); lia|].
  destruct (c =? 13). { apply steps_done; [by destruct Hw; split|destruct Hc; split; cbn; lia|done|apply (keeps_refl r)]. }
  destruct (c =? 9); [|by apply put_char_ok]. replace (Z.land (cursor_col r) 3) with (cursor_col r mod 4) by (symmetry; apply (Z.land_ones _ 2); lia).
  by apply put_chars_ok.
Qed.

Lemma write_chars_ok text r : wf_ring r → wf_cursor r → steps (write_chars text r) r (t_writes text (term r)).
Proof.
  revert r. induction text as [|c text IH]; intros r Hw Hc; cbn [write_chars t_writes fold_left].
  - by apply steps_done; [..|apply keeps_refl].
  - destruct (write_char_ok c r Hw Hc) as (r' & -> & Hw' & Hc' & Ht & Hk). cbn [mbind option_bind]. rewrite <- Ht.
    eapply steps_trans; [exact Hw'|exact Hc'|exact Hk|]. by apply IH.
Qed.
