(* ===== verification/ConsoleDraw.v ===== *)
(** * The pixels of the console

    What the drawing of framebuffer/src/lib.rs leaves in the frame buffer: every
    row of the text area shows its line, pixel by pixel, and nothing else changes. *)
From S2P Require Import Prelude Rust Console ConsoleRing.

(** ** Pixels *)

Definition stride (r : renderer) : Z := line_height r + line_spacing r.
Definition row_pixels (r : renderer) : Z := Z.shiftr (fb_pitch r) 2.

(** The address of a pixel of the text row [k]. *)
Definition pixel_addr (r : renderer) (k py x : Z) : Z :=
  fb_addr r + 4 * ((top_margin r + k * stride r + py) * row_pixels r + (left_margin r + x)).

(** The pixel of a glyph: a bit of the font. *)
Definition glyph_pixel (r : renderer) (c : ConsoleChar) (py gx : Z) : Z :=
  let glyphs := (len (font_data r) - header_size r) / bytes_per_glyph r in
  let g := if ch c <? glyphs then ch c else 0 in
  match font_data r !! Z.to_nat (header_size r + g * bytes_per_glyph r + py * ((char_width r + 7) / 8) + gx / 8) with
  | Some b => if Z.testbit b (7 - gx mod 8) then fg_color c else bg_color c
  | None => bg_color c
  end.

Definition text_pixel (r : renderer) (text : list ConsoleChar) (py x : Z) : Z :=
  match text !! Z.to_nat (x / char_width r) with
  | Some c => glyph_pixel r c py (x mod char_width r)
  | None => 0
  end.

(** The pixels of a text row. *)
Definition in_row (r : renderer) (py x : Z) : Prop := 0 ≤ py < line_height r ∧ 0 ≤ x < cols r * char_width r.

Definition shows (r : renderer) (m : gmap Z Z) (k : Z) (text : list ConsoleChar) : Prop :=
  ∀ py x, in_row r py x → m !! pixel_addr r k py x = Some (text_pixel r text py x).

(** The text rows are in the frame buffer, and the font is one. *)
Record layout (r : renderer) : Prop := {
  l_addr : 0 ≤ fb_addr r ∧ fb_addr r mod 4 = 0;
  l_end : fb_addr r + 4 * (fb_height r * row_pixels r) < 2 ^ 64;
  l_margins : 0 ≤ left_margin r ∧ 0 ≤ top_margin r;
  l_width : left_margin r + cols r * char_width r ≤ fb_width r ≤ row_pixels r;
  l_height : top_margin r + visible_lines r * stride r ≤ fb_height r < 2 ^ 32;
  l_cols : 0 ≤ cols r ≤ 80;
  l_visible : 0 ≤ visible_lines r ≤ 30;
  l_cell : 0 ≤ char_width r < 2 ^ 32 ∧ 0 ≤ line_height r < 2 ^ 32 ∧ 0 ≤ line_spacing r;
  l_font : 0 ≤ header_size r ≤ len (font_data r) ∧ len (font_data r) < 2 ^ 60 ∧ 0 < bytes_per_glyph r;
}.

Definition mapped (r : renderer) (m : gmap Z Z) : Prop :=
  ∀ y x, 0 ≤ y < fb_height r → 0 ≤ x < fb_width r → is_Some (m !! (fb_addr r + 4 * (y * row_pixels r + x))).

Section draw.
Context (r : renderer) (Hl : layout r).

Lemma stride_nonneg : 0 ≤ stride r.
Proof. pose proof (l_cell _ Hl). unfold stride. lia. Qed.

(** A pixel of a text row is one of the frame buffer. *)
Lemma pixel_in k py x : 0 ≤ k < visible_lines r → in_row r py x →
  0 ≤ top_margin r + k * stride r + py < fb_height r ∧ 0 ≤ left_margin r + x < fb_width r.
Proof.
  intros Hk [Hy Hx]. pose proof (l_height _ Hl). pose proof (l_cell _ Hl). pose proof (l_margins _ Hl). pose proof (l_width _ Hl). pose proof stride_nonneg as Hs.
  assert ((k + 1) * stride r ≤ visible_lines r * stride r) by (apply Z.mul_le_mono_nonneg_r; lia). assert (0 ≤ k * stride r) by (apply Z.mul_nonneg_nonneg; lia).
  unfold stride in *. lia.
Qed.

Lemma pixel_inj k py x k' py' x' : 0 ≤ k < visible_lines r → 0 ≤ k' < visible_lines r → in_row r py x → in_row r py' x' →
  pixel_addr r k py x = pixel_addr r k' py' x' → k = k' ∧ py = py' ∧ x = x'.
Proof.
  intros Hk Hk' Hp Hp' E. destruct (pixel_in k py x Hk Hp) as [Hy Hx]. destruct (pixel_in k' py' x' Hk' Hp') as [Hy' Hx'].
  pose proof (l_width _ Hl). pose proof (l_cell _ Hl). unfold pixel_addr in E.
  set (y := top_margin r + k * stride r + py) in *. set (y' := top_margin r + k' * stride r + py') in *.
  destruct (Z.div_mod_unique (row_pixels r) y y' (left_margin r + x) (left_margin r + x')) as [E1 E2]; [lia..|].
  destruct Hp as [Hpy _], Hp' as [Hpy' _]. subst y y'. destruct (Z.div_mod_unique (stride r) k k' py py') as [-> ->]; [unfold stride; lia|unfold stride; lia|lia|]. lia.
Qed.

(** ** What is drawn

    The pixels of [P] show the text, the others are as before. *)
Definition drawn (k : Z) (text : list ConsoleChar) (P : Z → Z → Prop) (m0 m : gmap Z Z) : Prop :=
  (∀ py x, in_row r py x → P py x → m !! pixel_addr r k py x = Some (text_pixel r text py x)) ∧
  (∀ a, (∀ py x, in_row r py x → P py x → a ≠ pixel_addr r k py x) → m !! a = m0 !! a) ∧ mapped r m.

Lemma drawn_ext k text (P P' : Z → Z → Prop) m0 m : (∀ py x, in_row r py x → P py x ↔ P' py x) → drawn k text P m0 m → drawn k text P' m0 m.
Proof.
  intros HP (H1 & H2 & H3). split_and!; [|intros a Ha; apply H2|done].
  - intros py x Hr Hp. apply H1; [done|]. by apply HP.
  - intros py x Hr Hp. apply Ha; [done|]. by apply HP.
Qed.

Lemma wp_pixel k text P m0 m py x Q : 0 ≤ k < visible_lines r → in_row r py x → drawn k text P m0 m →
  (∀ m', drawn k text (λ py' x', P py' x' ∨ py' = py ∧ x' = x) m0 m' → Q tt m') → wp (put_pixel (pixel_addr r k py x) (text_pixel r text py x)) Q m.
Proof.
  intros Hk Hr (H1 & H2 & H3) HQ. destruct (pixel_in k py x Hk Hr) as [Hy Hx]. unfold wp, put_pixel.
  replace (pixel_addr r k py x mod 4 =? 0) with true by (pose proof (l_addr _ Hl); unfold pixel_addr; divlia).
  destruct (H3 _ _ Hy Hx) as [v Hv]. fold (pixel_addr r k py x) in Hv. rewrite Hv. apply HQ. split_and!.
  - intros py' x' Hr' Hp. destruct (decide (pixel_addr r k py' x' = pixel_addr r k py x)) as [E|E].
    + apply pixel_inj in E as (_ & -> & ->); [|done..]. by rewrite lookup_insert_eq.
    + rewrite lookup_insert_ne by done. apply H1; [done|]. destruct Hp as [|[-> ->]]; done.
  - intros a Ha. rewrite lookup_insert_ne; [apply H2; auto|]. intros E. by apply (Ha py x Hr); [right|].
  - intros y' x' Hy' Hx'. destruct (decide (pixel_addr r k py x = fb_addr r + 4 * (y' * row_pixels r + x'))) as [<-|]; [by rewrite lookup_insert_eq|].
    rewrite lookup_insert_ne by done. by apply H3.
Qed.

(** The pixels before one, in the order of the loops. *)
Definition before (py x py' x' : Z) : Prop := py' < py ∨ py' = py ∧ x' < x.

Lemma draw_cell_ok k text py col color m0 m : 0 ≤ k < visible_lines r → 0 ≤ py < line_height r → 0 ≤ col < cols r →
  (∀ gx, 0 ≤ gx < char_width r → color gx = Some (text_pixel r text py (col * char_width r + gx))) →
  drawn k text (before py (col * char_width r)) m0 m →
  wp (draw_cell r (pixel_addr r k py 0) (col * char_width r) color) (λ _, drawn k text (before py ((col + 1) * char_width r)) m0) m.
Proof.
  intros Hk Hy Hc Hcol Hm. pose proof (l_width _ Hl). pose proof (l_cell _ Hl). pose proof (l_cols _ Hl). pose proof (l_margins _ Hl).
  assert (0 ≤ col * char_width r) by (apply Z.mul_nonneg_nonneg; lia).
  assert ((col + 1) * char_width r ≤ cols r * char_width r) by (apply Z.mul_le_mono_nonneg_r; lia).
  unfold draw_cell. wp_step. apply (wp_find_range (λ gx, drawn k text (before py (col * char_width r + gx)) m0)).
  - by rewrite Z.add_0_r.
  - intros gx m1 Hgx Hm1. destruct (pixel_in k py (col * char_width r + gx)) as [Hin Hin']; [done|split; lia|]. pose proof (l_end _ Hl). pose proof (l_addr _ Hl).
    assert (fb_width r ≤ fb_height r * row_pixels r). { transitivity (1 * row_pixels r); [lia|]. apply Z.mul_le_mono_nonneg_r; lia. }
    rewrite checked_ok by lia. wp_steps. rewrite checked_ok by lia. wp_steps. replace (_ <=? _) with false by lia. rewrite Hcol by lia. wp_steps.
    replace (pixel_addr r k py 0 + _) with (pixel_addr r k py (col * char_width r + gx)) by (unfold pixel_addr; lia).
    eapply wp_pixel; [done|split; lia|exact Hm1|]. intros m' Hm'. wp_steps. eapply drawn_ext; [|exact Hm']. intros py' x' _. unfold before. lia.
  - intros m' Hm'. wp_steps. eapply drawn_ext; [|exact Hm']. intros py' x' _. unfold before. lia.
Qed.

Lemma land_bit b k : 0 ≤ k → (Z.land (Z.shiftr b k) 1 =? 1) = Z.testbit b k.
Proof.
  intros Hk. rewrite (Z.land_ones _ 1), Z.shiftr_div_pow2, <- Z.testbit_spec' by lia. by destruct (Z.testbit b k).
Qed.

(** The glyph the code looks up is the one of the font. *)
Lemma glyph_ok c py : 0 ≤ ch c → 0 ≤ py < line_height r →
  ∃ g, glyph_offset r ((len (font_data r) - header_size r) / bytes_per_glyph r) (ch c) = Some g ∧
    checked 64 (py * Z.shiftr (char_width r + 7) 3) = Some (py * Z.shiftr (char_width r + 7) 3) ∧
    ∀ gx, 0 ≤ gx < char_width r → glyph_color r c g (py * Z.shiftr (char_width r + 7) 3) gx = Some (glyph_pixel r c py gx).
Proof.
  intros Hc Hy. pose proof (l_font _ Hl) as (Hh & Hlen & Hb). pose proof (l_cell _ Hl). unfold glyph_offset, glyph_color, glyph_pixel.
  set (n := (len (font_data r) - header_size r) / bytes_per_glyph r). set (g := if ch c <? n then ch c else 0). set (w := (char_width r + 7) / 8).
  assert (0 ≤ g * bytes_per_glyph r ≤ len (font_data r) - header_size r) as Hg.
  { assert (n * bytes_per_glyph r ≤ len (font_data r) - header_size r) by (subst n; rewrite Z.mul_comm; apply Z.mul_div_le; lia).
    split; [apply Z.mul_nonneg_nonneg; subst g; destruct (ch c <? n); lia|]. subst g. destruct (ch c <? n) eqn:E; [|lia].
    etransitivity; [|eassumption]. apply Z.mul_le_mono_nonneg_r; lia. }
  replace (Z.shiftr (char_width r + 7) 3) with w by (by rewrite Z.shiftr_div_pow2 by lia). assert (0 ≤ w < 2 ^ 30) as Hw by (subst w; divlia).
  assert (0 ≤ py * w < 2 ^ 62). { split; [apply Z.mul_nonneg_nonneg; lia|]. change (2 ^ 62) with (2 ^ 32 * 2 ^ 30). apply Z.mul_lt_mono_nonneg; lia. }
  clearbody n w g. rewrite (checked_ok 64 (g * _)) by lia. cbn [mbind option_bind]. rewrite checked_ok by lia. eexists. split; [done|]. split; [apply checked_ok; lia|]. intros gx Hx.
  rewrite checked_ok by lia. cbn [mbind option_bind]. rewrite Z.shiftr_div_pow2 by lia. rewrite checked_ok by divlia. cbn [mbind option_bind].
  change (Z.land gx 7) with (Z.land gx (Z.ones 3)). rewrite Z.land_ones by lia. change (2 ^ 3) with 8. destruct (font_data r !! _); [|done]. by rewrite land_bit by divlia.
Qed.

Lemma text_pixel_at text py col gx c : 0 ≤ col → 0 ≤ gx < char_width r → text !! Z.to_nat col = Some c →
  text_pixel r text py (col * char_width r + gx) = glyph_pixel r c py gx.
Proof.
  intros Hc Hx E. unfold text_pixel. rewrite (Z.add_comm (col * _)), Z.div_add, Z.mod_add, Z.div_small, Z.mod_small by lia. by rewrite Z.add_0_l, E.
Qed.

(** A text of characters that covers the columns. *)
Definition covers (text : list ConsoleChar) : Prop := ∀ col, 0 ≤ col < cols r → ∃ c, text !! Z.to_nat col = Some c ∧ 0 ≤ ch c.

(** One row of pixels. *)
Lemma draw_row_ok k text py m0 m : 0 ≤ k < visible_lines r → 0 ≤ py < line_height r → covers text → drawn k text (before py 0) m0 m →
  wp (for_range 0 (Z.to_nat (cols r)) (λ col,
        x_offset ← lift (checked 64 (col * char_width r));
        if col <? cols r then
          console_char ← lift (text !! Z.to_nat col);
          glyph ← lift (glyph_offset r ((len (font_data r) - header_size r) / bytes_per_glyph r) (ch console_char));
          line_offset ← lift (checked 64 (py * Z.shiftr (char_width r + 7) 3));
          draw_cell r (pixel_addr r k py 0) x_offset (glyph_color r console_char glyph line_offset)
        else draw_cell r (pixel_addr r k py 0) x_offset (λ _, Some (cur_bg r)))) (λ _, drawn k text (before (py + 1) 0) m0) m.
Proof.
  intros Hk Hy Ht Hm. pose proof (l_cell _ Hl). pose proof (l_cols _ Hl).
  apply (wp_for_range (λ col, drawn k text (before py (col * char_width r)) m0)); [done| |].
  - intros col m1 Hc Hm1. assert (0 ≤ col * char_width r < 2 ^ 64) by (split; [apply Z.mul_nonneg_nonneg; lia|nia]).
    rewrite (checked_ok 64 (col * _)) by done. wp_steps. replace (col <? cols r) with true by lia. destruct (Ht col ltac:(lia)) as (c & Ec & Hch). rewrite Ec. wp_steps.
    destruct (glyph_ok c py Hch Hy) as (g & -> & -> & Hg). wp_steps. apply draw_cell_ok; [done|done|lia| |done].
    intros gx Hx. rewrite Hg by done. by rewrite (text_pixel_at _ _ _ _ c) by (done || lia).
  - intros m1 Hm1. eapply drawn_ext; [|exact Hm1]. intros py' x' [_ Hx]. unfold before. rewrite Z.add_0_l, Z2Nat.id by lia. lia.
Qed.

(** The line is drawn. *)
Lemma render_line_ok k text m : 0 ≤ k < visible_lines r → covers text → mapped r m →
  wp (render_line r k text (cols r)) (λ _ m', drawn k text (λ _ _, True) m m') m.
Proof.
  intros Hk Ht Hm. pose proof (l_cell _ Hl). pose proof (l_visible _ Hl). pose proof (l_height _ Hl). pose proof (l_margins _ Hl). pose proof (l_font _ Hl).
  pose proof (l_width _ Hl). pose proof (l_end _ Hl). pose proof (l_addr _ Hl). pose proof (l_cols _ Hl). pose proof stride_nonneg.
  assert (0 ≤ k * stride r ∧ (k + 1) * stride r ≤ visible_lines r * stride r) as [Hk0 Hk1]
    by (split; [apply Z.mul_nonneg_nonneg|apply Z.mul_le_mono_nonneg_r]; lia).
  unfold render_line. fold (stride r). fold (row_pixels r). rewrite (checked_ok 64 (stride r)) by lia. wp_steps. rewrite (checked_ok 64 (k * _)) by lia. wp_steps.
  rewrite (checked_ok 64 (top_margin r + _)) by lia. wp_steps. destruct (fb_height r <=? top_margin r + k * stride r) eqn:Ey.
  { apply wp_ret. split_and!; [|done..]. intros py x Hin. destruct (pixel_in k py x Hk Hin). destruct Hin. lia. }
  rewrite (checked_ok 64 (len _ - _)) by lia. wp_steps. replace (bytes_per_glyph r =? 0) with false by lia. wp_steps.
  rewrite (checked_ok 64 (char_width r + 7)) by lia. wp_steps.
  apply (wp_find_range (λ py, drawn k text (before py 0) m)).
  - split_and!; [|done..]. intros py x [Hy Hx]. unfold before. lia.
  - intros py m1 Hpy Hm1. rewrite (checked_ok 64 (_ + py)) by (unfold stride in *; lia). wp_steps.
    assert (top_margin r + k * stride r + py < fb_height r) by (unfold stride in *; lia). replace (fb_height r <=? _) with false by lia.
    set (y := top_margin r + k * stride r + py) in *. assert (0 ≤ y) by lia.
    assert (0 ≤ y * row_pixels r ∧ (y + 1) * row_pixels r ≤ fb_height r * row_pixels r) as [Hy0 Hy1]
      by (split; [apply Z.mul_nonneg_nonneg|apply Z.mul_le_mono_nonneg_r]; lia).
    rewrite (checked_ok 64 (y * _)) by lia. wp_steps. rewrite (checked_ok 64 (_ * 4)) by lia. wp_steps. rewrite (checked_ok 64 (fb_addr r + _)) by lia. wp_steps.
    rewrite (checked_ok 64 (left_margin r * 4)) by lia. wp_steps. rewrite (checked_ok 64 (_ + left_margin r * 4)) by lia. wp_steps.
    replace (fb_addr r + _ + _) with (pixel_addr r k py 0) by (unfold pixel_addr; fold y; lia).
    wp_call draw_row_ok; [done|lia|done|exact Hm1|]. intros [] m2 Hm2. wp_steps. exact Hm2.
  - intros m1 Hm1. wp_steps. eapply drawn_ext; [|exact Hm1]. intros py x [Hy Hx]. unfold before. lia.
Qed.
End draw.

(** ** The lines that changed *)

(** What is shown depends on the fixed part of a renderer. *)
Lemma fixed_eq r r' : fixed r' = fixed r → ∃ ls n s x y,
  r' = set_cursor x y (set_ring n s (set_lines ls r)).
Proof.
  intros E. exists (lines r'), (line_count r'), (start_line r'), (cursor_col r'), (cursor_line r'). destruct r, r'. unfold fixed in E. cbn in *. by simplify_eq.
Qed.

Lemma shows_fixed r r' m k text : fixed r' = fixed r → shows r m k text → shows r' m k text.
Proof. intros (ls & n & s & x & y & ->)%fixed_eq. exact id. Qed.

Lemma layout_fixed r r' : fixed r' = fixed r → layout r → layout r'.
Proof. intros (ls & n & s & x & y & ->)%fixed_eq Hl. by destruct Hl; split. Qed.

Lemma mapped_fixed r r' m : fixed r' = fixed r → mapped r m → mapped r' m.
Proof. intros (ls & n & s & x & y & ->)%fixed_eq. exact id. Qed.

(** The copy of a line. *)
Lemma copy_chars_ok l n i text : length (chars l) = 80%nat → length text = 80%nat → 0 ≤ i → i + Z.of_nat n ≤ cl_width l → cl_width l ≤ 80 →
  ∃ text', copy_chars l i n text = Some text' ∧ length text' = 80%nat ∧
    ∀ j : nat, text' !! j = if decide (i ≤ Z.of_nat j < i + Z.of_nat n) then chars l !! j else text !! j.
Proof.
  revert i text. induction n as [|n IH]; intros i text Hl Ht Hi Hn Hw; cbn [copy_chars].
  - exists text. split_and!; [done..|]. intros j. destruct decide; [lia|done].
  - unfold get_char. replace (i <? cl_width l) with true by lia. destruct (lookup_lt_is_Some_2 (chars l) (Z.to_nat i)) as [c Ec]; [lia|].
    rewrite Ec. cbn [mbind option_bind]. replace (i <? len text) with true by (unfold len; lia). cbn [mbind option_bind].
    destruct (IH (i + 1) (<[Z.to_nat i := c]> text)) as (text' & E & Ht' & Hj); [done|by rewrite length_insert|lia..|]. exists text'. split_and!; [done..|].
    intros j. rewrite Hj. destruct (decide (j = Z.to_nat i)) as [->|Hne].
    + rewrite list_lookup_insert_eq by lia. repeat destruct decide; try lia. by symmetry.
    + rewrite list_lookup_insert_ne by lia. repeat destruct decide; try lia; done.
Qed.

(** The characters of the rows are characters. *)
Definition good_rows (r : renderer) : Prop := ∀ i, 0 ≤ i < line_count r → Forall (λ c, 0 ≤ ch c) (row r i).

Lemma copy_row r i : wf_ring r → good_rows r → 0 ≤ i < line_count r → ∃ text,
  copy_chars (line_at r i) 0 (Z.to_nat (cl_width (line_at r i))) (replicate (Z.to_nat MAX_COLS) (blank_char 0)) = Some text ∧ covers r text ∧
  ∀ py x, in_row r py x → text_pixel r text py x = text_pixel r (row r i) py x.
Proof.
  intros Hw Hg Hi. destruct (line_at_ok r i Hw) as (_ & Hl & Hc). pose proof (w_cols _ Hw).
  destruct (copy_chars_ok (line_at r i) (Z.to_nat (cl_width (line_at r i))) 0 (replicate (Z.to_nat MAX_COLS) (blank_char 0))) as (text & E & Ht & Hj); [done|done|lia..|].
  exists text. split; [exact E|].
  assert (Hrow : ∀ col, 0 ≤ col < cols r → text !! Z.to_nat col = row r i !! Z.to_nat col).
  { intros col Hcol. rewrite Hj. destruct decide; [|lia]. unfold row. by rewrite lookup_take_lt by lia. }
  split.
  - intros col Hcol. rewrite Hrow by done. destruct (lookup_lt_is_Some_2 (row r i) (Z.to_nat col)) as [c Ec].
    { unfold row. rewrite length_take. lia. }
    exists c. split; [done|]. specialize (Hg i Hi). rewrite Forall_lookup in Hg. by eapply Hg.
  - intros py x [_ Hx]. unfold text_pixel. rewrite Hrow; [done|]. split; [apply Z.div_pos; nia|apply Z.div_lt_upper_bound; nia].
Qed.

(** Addresses outside the text rows. *)
Definition outside (r : renderer) (a : Z) : Prop := ∀ k py x, 0 ≤ k < visible_lines r → in_row r py x → a ≠ pixel_addr r k py x.

(** One line: it is shown, the other lines are as before. *)
Lemma render_one r i k m : wf_ring r → layout r → good_rows r → mapped r m → 0 ≤ i < line_count r → 0 ≤ k < visible_lines r →
  ∃ text m', copy_chars (line_at r i) 0 (Z.to_nat (cl_width (line_at r i))) (replicate (Z.to_nat MAX_COLS) (blank_char 0)) = Some text ∧
    render_line r k text (cl_width (line_at r i)) m = Some (tt, m') ∧ mapped r m' ∧ shows r m' k (row r i) ∧
    (∀ k' text, 0 ≤ k' < visible_lines r → k' ≠ k → shows r m k' text → shows r m' k' text) ∧ (∀ a, outside r a → m' !! a = m !! a).
Proof.
  intros Hw Hl Hg Hm Hi Hk. destruct (copy_row r i Hw Hg Hi) as (text & E & Hc & Hp). destruct (line_at_ok r i Hw) as (_ & _ & Ew). rewrite Ew in E |- *.
  destruct (wp_result _ _ _ (render_line_ok r Hl k text m Hk Hc Hm)) as ([] & m' & Er & H1 & H2 & H3). exists text, m'. split; [exact E|]. split; [exact Er|]. split; [done|].
  split; [|split].
  - intros py x Hin. rewrite <- Hp by done. by apply H1.
  - intros k' text' Hk' Hne Hs py x Hin. rewrite H2; [by apply Hs|]. intros py' x' Hin' _ Ea. apply (pixel_inj r Hl) in Ea as (-> & _); done.
  - intros a Ha. apply H2. intros py x Hin _. by apply Ha.
Qed.

(** The first row on the screen. *)
Definition first_row (r : renderer) : Z := Z.max 0 (line_count r - visible_lines r).

(** A line on the screen is marked, or it is shown. *)
Definition displayed (r : renderer) (m : gmap Z Z) : Prop :=
  ∀ i, first_row r ≤ i < line_count r → dirty (line_at r i) = true ∨ shows r m (i - first_row r) (row r i).

Definition clean (r : renderer) (i : Z) : renderer := put_line r i (set_dirty false (line_at r i)).

Lemma clean_ok r i : wf_ring r → 0 ≤ i < line_count r →
  wf_ring (clean r i) ∧ (∀ j, 0 ≤ j < line_count r → row (clean r i) j = row r j) ∧
  (∀ j, 0 ≤ j < line_count r → j ≠ i → line_at (clean r i) j = line_at r j).
Proof.
  intros Hw Hi. destruct (line_at_ok r i Hw) as (_ & Hl & Hc). pose proof (w_count _ Hw). split; [by apply put_line_wf|]. unfold clean.
  split; intros j Hj; [apply row_eq; [done|]|intros Hn]; rewrite put_line_at by (done || lia); destruct (decide (j = i)) as [->|]; done.
Qed.

(** The loop of [render_dirty] from the line [i] on. *)
Lemma render_lines_ok n i r m : wf_ring r → layout r → good_rows r → mapped r m → first_row r ≤ i → i + Z.of_nat n = line_count r →
  (∀ j, first_row r ≤ j < i → shows r m (j - first_row r) (row r j)) → displayed r m →
  ∃ ls m', let r' := set_lines ls r in render_lines (first_row r) i n r m = Some (r', m') ∧ wf_ring r' ∧ mapped r m' ∧
    (∀ j, 0 ≤ j < line_count r → row r' j = row r j) ∧ (∀ j, first_row r ≤ j < line_count r → shows r m' (j - first_row r) (row r j)) ∧
    (∀ a, outside r a → m' !! a = m !! a).
Proof.
  revert i r m. induction n as [|n IH]; intros i r m Hw Hl Hg Hm Hi Hn Hs Hd; cbn [render_lines].
  { exists (lines r), m. rewrite set_lines_id. split_and!; try done. intros j Hj. apply Hs. lia. }
  pose proof (w_count _ Hw). pose proof (l_visible _ Hl). assert (Hf : first_row r = Z.max 0 (line_count r - visible_lines r)) by done.
  rewrite checked_ok by lia. cbn [mbind option_bind]. unfold get_line. replace (i <? line_count r) with true by lia.
  rewrite physical_ok by (done || lia). cbn [mbind option_bind]. rewrite Nat2Z.id. destruct (line_at_ok r i Hw) as (-> & _ & _). cbn [mbind option_bind].
  destruct (dirty (line_at r i)) eqn:Ed.
  - destruct (render_one r i (i - first_row r) m Hw Hl Hg Hm) as (text & m1 & -> & E & Hm1 & Hs1 & Ho1 & Ha1); [lia..|]. cbn [mbind option_bind]. rewrite E.
    cbn [mbind option_bind fst snd]. rewrite (change_ok r i _ (set_dirty false (line_at r i)) Hw eq_refl). cbn [mbind option_bind fst snd]. fold (clean r i).
    destruct (clean_ok r i Hw ltac:(lia)) as (Hw' & Hr & Ho).
    assert (Hs' : ∀ j, first_row r ≤ j < i + 1 → shows r m1 (j - first_row r) (row (clean r i) j)).
    { intros j Hj. rewrite Hr by lia. destruct (decide (j = i)) as [->|]; [done|]. apply Ho1; [lia..|]. apply Hs. lia. }
    destruct (IH (i + 1) (clean r i) m1) as (ls & m' & E' & Hw2 & Hm2 & Hr2 & Hs2 & Ha2); [done|by apply (layout_fixed r)| |done|change (first_row (clean r i)) with (first_row r); lia|cbn; lia|exact Hs'| |].
    + intros j Hj. rewrite Hr by done. by apply Hg.
    + intros j Hj. change (first_row r ≤ j < line_count r) in Hj. destruct (decide (j < i + 1)) as [|Hge]; [right; apply Hs'; lia|].
      rewrite Hr by lia. rewrite Ho by lia. destruct (Hd j Hj) as [|Hsj]; [by left|]. right.
      change (first_row (clean r i)) with (first_row r). apply Ho1; [lia..|done].
    + exists ls, m'. change (set_lines ls (clean r i)) with (set_lines ls r) in *. split; [exact E'|]. split; [done|]. split; [done|]. split_and!.
      * intros j Hj. rewrite Hr2, Hr by done. done.
      * intros j Hj. rewrite <- Hr by lia. by apply Hs2.
      * intros a Ha. rewrite Ha2, Ha1 by done. done.
  - cbn [mbind option_bind fst snd]. apply IH; try done; [lia..|]. intros j Hj. destruct (decide (j = i)) as [->|]; [|apply Hs; lia].
    destruct (Hd i) as [E|]; [lia|congruence|done].
Qed.

(** After [render_dirty] every line on the screen is shown. *)
Lemma render_dirty_ok r m : wf_ring r → layout r → good_rows r → mapped r m → displayed r m →
  ∃ ls m', let r' := set_lines ls r in render_dirty r m = Some (r', m') ∧ wf_ring r' ∧ mapped r m' ∧ rows r' = rows r ∧
    (∀ j, first_row r ≤ j < line_count r → shows r m' (j - first_row r) (row r' j)) ∧ (∀ a, outside r a → m' !! a = m !! a).
Proof.
  intros Hw Hl Hg Hm Hd. pose proof (w_count _ Hw). pose proof (l_visible _ Hl). unfold render_dirty.
  replace (if _ <? line_count r then line_count r - _ else 0) with (first_row r).
  2:{ unfold first_row. destruct (visible_lines r <? line_count r) eqn:E; [rewrite E; lia|]. rewrite Z.ltb_irrefl. lia. }
  destruct (render_lines_ok (Z.to_nat (line_count r - first_row r)) (first_row r) r m) as (ls & m' & E & Hw' & Hm' & Hr & Hs & Ha); try done; [unfold first_row; lia|lia|].
  exists ls, m'. split; [exact E|]. split; [done|]. split; [done|]. split_and!.
  - apply rows_eq; [done|by rewrite len_rows|]. intros j Hj. rewrite rows_at by done. f_equal. symmetry. by apply Hr.
  - intros j Hj. rewrite Hr by (unfold first_row in *; lia). by apply Hs.
  - done.
Qed.
