(* ===== verification/ConsoleSpec.v ===== *)
(** * What the console shows

    The crate framebuffer as a whole: after [init] and any calls of the printing
    macros, the screen shows the last rows of a terminal that got all the text, as
    far as it fits the buffer of each call. *)
From S2P Require Import Prelude Rust Console ConsoleRing ConsoleDraw.

(** ** Characters *)

Definition t_good (t : terminal) : Prop := Forall (Forall (λ c, 0 ≤ ch c)) (t_rows t).

Lemma t_scroll_good t : t_good t → t_good (t_scroll t).
Proof.
  intros Hg. unfold t_good, t_scroll. cbn [t_rows]. apply Forall_app_2; [|by repeat constructor; apply Forall_replicate].
  destruct (_ <? _); [done|]. by destruct Hg.
Qed.

Lemma t_next_good t : t_good t → t_good (t_next t).
Proof. intros Hg. unfold t_next. destruct (_ <=? _); [by apply t_scroll_good|done]. Qed.

Lemma t_put_good c t : 0 ≤ c → t_good t → t_good (t_put c t).
Proof.
  intros Hc Hg. unfold t_put. set (t' := t_move _ _ _). assert (t_good t').
  { unfold t_good, t', t_move. cbn [t_rows]. apply Forall_alter; [done|]. intros row _ Hr. by apply Forall_insert. }
  destruct (_ <=? _); [by apply t_next_good|done].
Qed.

Lemma t_writes_good text t : Forall (λ c, 0 ≤ c) text → t_good t → t_good (t_writes text t).
Proof.
  intros Ht. revert t. induction Ht as [|c text Hc Ht IH]; intros t Hg; [done|]. cbn [t_writes fold_left]. apply IH. unfold t_write.
  destruct (c =? 10); [by apply t_next_good|]. destruct (c =? 13); [done|]. destruct (c =? 9); [|by apply t_put_good].
  apply Nat.iter_invariant; [|done]. intros t' Hg'. by apply t_put_good.
Qed.

Lemma good_rows_term r : wf_ring r → good_rows r ↔ t_good (term r).
Proof.
  intros Hw. unfold t_good. cbn [term t_rows]. rewrite Forall_lookup. pose proof (len_rows r Hw) as Hl. split.
  - intros Hg i l Hi. pose proof (lookup_lt_Some _ _ _ Hi). unfold len in Hl. rewrite rows_lookup in Hi by (done || lia). injection Hi as <-. apply Hg. lia.
  - intros Hf i Hi. by eapply Hf, rows_at.
Qed.

(** ** The renderer *)

(** A renderer that works, with the pixels. *)
Record ready (r : renderer) (m : gmap Z Z) : Prop := {
  r_ring : wf_ring r;
  r_cursor : wf_cursor r;
  r_layout : layout r;
  r_good : good_rows r;
  r_mapped : mapped r m;
  r_displayed : displayed r m;
}.

(** The screen shows the last rows. *)
Definition on_screen (r : renderer) (m : gmap Z Z) : Prop :=
  ∀ k text, drop (length (rows r) - Z.to_nat (visible_lines r)) (rows r) !! k = Some text → shows r m (Z.of_nat k) text.

Lemma on_screen_intro r m : wf_ring r → layout r → (∀ j, first_row r ≤ j < line_count r → shows r m (j - first_row r) (row r j)) → on_screen r m.
Proof.
  intros Hw Hl Hs k text Hk. pose proof (len_rows r Hw) as Hn. unfold len in Hn. pose proof (l_visible _ Hl). rewrite lookup_drop in Hk.
  pose proof (lookup_lt_Some _ _ _ Hk). rewrite rows_lookup in Hk by (done || lia). injection Hk as <-.
  replace (Z.of_nat k) with (Z.of_nat (length (rows r) - Z.to_nat (visible_lines r) + k) - first_row r) by (unfold first_row; lia).
  apply Hs. unfold first_row. lia.
Qed.

Lemma displayed_keeps r r' m : keeps r r' → displayed r m → displayed r' m.
Proof.
  intros [Hf Hk] Hd i Hi. destruct (Hk i) as [|[Ec El]]; [unfold first_row in Hi; lia|by left|].
  assert (visible_lines r' = visible_lines r ∧ cols r' = cols r) as [Hv Hc] by by (destruct (fixed_eq _ _ Hf) as (? & ? & ? & ? & ? & ->)).
  assert (first_row r' = first_row r) as Hfr by (unfold first_row; by rewrite Ec, Hv). rewrite Hfr, Ec in Hi. destruct (Hd i Hi) as [|Hs]; [left; by rewrite El|].
  right. rewrite Hfr. replace (row r' i) with (row r i) by (unfold row; by rewrite Hc, El). by apply (shows_fixed r).
Qed.

(** [write_text]: the terminal gets the text, and the screen shows it. *)
Lemma write_text_ok text r m : ready r m → Forall (λ c, 0 ≤ c) text →
  ∃ r' m', write_text text r m = Some (r', m') ∧ ready r' m' ∧ term r' = t_writes text (term r) ∧ on_screen r' m' ∧ fixed r' = fixed r ∧
    (∀ a, outside r a → m' !! a = m !! a).
Proof.
  intros [Hw Hc Hl Hg Hm Hd] Ht. unfold write_text. destruct (write_chars_ok text r Hw Hc) as (r1 & -> & Hw1 & Hc1 & Et & Hk). cbn [mbind option_bind].
  pose proof Hk as [Hf _]. assert (Hl1 : layout r1) by by apply (layout_fixed r). assert (Hm1 : mapped r1 m) by by apply (mapped_fixed r).
  assert (Hg1 : good_rows r1). { apply good_rows_term; [done|]. rewrite Et. apply t_writes_good; [done|]. by apply good_rows_term. }
  destruct (render_dirty_ok r1 m) as (ls & m' & -> & Hw' & Hm' & Hr & Hs & Ha); [done..|by eapply displayed_keeps|].
  set (r' := set_lines ls r1) in *. assert (Ht' : term r' = term r1) by (unfold term; by rewrite Hr).
  exists r', m'. split; [done|]. split.
  { split; [done|exact Hc1|by apply (layout_fixed r1)| |exact Hm'|]. 
    - apply good_rows_term; [done|]. rewrite Ht'. by apply good_rows_term.
    - intros i Hi. right. by apply Hs. }
  split; [congruence|]. split; [by apply on_screen_intro; [|apply (layout_fixed r1)|]|]. split; [exact Hf|].
  intros a Ho. apply Ha. destruct (fixed_eq _ _ Hf) as (? & ? & ? & ? & ? & ->). exact Ho.
Qed.

(** ** The printing macros *)

(** The buffer holds the start of the text. *)
Definition buffered (κ : console) (text : list Z) : Prop :=
  length (LINE_WRITER_BUFFER κ) = 512%nat ∧ LINE_WRITER_POS κ = len (take 512 text) ∧
  take (Z.to_nat (LINE_WRITER_POS κ)) (LINE_WRITER_BUFFER κ) = take 512 text.

(** The parts of the state the buffer is not. *)
Definition rest (κ : console) := (con_lock κ, RENDERER κ, pixels κ).

Lemma take_more {A} (l k : list A) n : take n (l ++ k) = take n l ++ take (n - length (take n l)) k.
Proof. rewrite take_app, length_take. f_equal. destruct (decide (n ≤ length l)%nat); [|by rewrite Nat.min_r by lia]. by replace (n - min n (length l))%nat with (n - length l)%nat by lia. Qed.

Lemma write_str_ok s text κ : buffered κ text → wp (write_str s) (λ _ κ', buffered κ' (text ++ s) ∧ rest κ' = rest κ) κ.
Proof.
  intros (Hb & Hp & Ht). unfold buffered. rewrite take_more. set (l := take 512 text) in *. assert (length l ≤ 512)%nat by (subst l; rewrite length_take; lia).
  clearbody l. unfold write_str, len in *. wp_steps. rewrite Hp, Hb in *. change (Z.of_nat 512) with 512 in *. rewrite Nat2Z.id in Ht. rewrite checked_ok by lia. wp_steps.
  set (n := if _ <? _ then _ else _). assert (Hn : n = Z.of_nat (length (take (512 - length l) s))).
  { rewrite length_take. subst n. destruct (_ <? _) eqn:E; lia. }
  replace (take (Z.to_nat n) s) with (take (512 - length l) s).
  2:{ rewrite Hn, Nat2Z.id, length_take. destruct (decide (512 - length l ≤ length s)%nat); [by rewrite Nat.min_l by lia|]. by rewrite !take_ge by lia. }
  assert (length (take (512 - length l) s) ≤ 512 - length l)%nat by (rewrite length_take; lia). set (s' := take _ s) in *. clearbody s' n. subst n.
  unfold patch, len. rewrite Hb. change (Z.of_nat 512) with 512. replace (_ && _) with true by lia. wp_steps. rewrite checked_ok by lia. wp_steps. split; [|done].
  cbn [LINE_WRITER_BUFFER LINE_WRITER_POS]. rewrite Nat2Z.id, Ht. split_and!.
  - rewrite !length_app, length_drop. lia.
  - rewrite length_app. lia.
  - rewrite app_assoc. apply take_app_length'. rewrite length_app. lia.
Qed.

Lemma write_pieces_ok pieces text κ : buffered κ text → wp (write_pieces pieces) (λ _ κ', buffered κ' (text ++ concat pieces) ∧ rest κ' = rest κ) κ.
Proof.
  revert text κ. induction pieces as [|s pieces IH]; intros text κ Hb; cbn [write_pieces concat].
  - wp_steps. by rewrite app_nil_r.
  - wp_steps. wp_call write_str_ok; [done|]. intros [] κ1 [Hb1 Hr1]. wp_call IH; [done|]. intros [] κ2 [Hb2 Hr2]. rewrite app_assoc. split; [done|congruence].
Qed.

(** A console that works. *)
Definition working (κ : console) (r : renderer) : Prop :=
  con_lock κ = false ∧ RENDERER κ = Some r ∧ ready r (pixels κ) ∧ length (LINE_WRITER_BUFFER κ) = 512%nat.

(** The text a call of a macro prints. *)
Definition printed (pieces : list (list Z)) : list Z := take 512 (concat pieces).

Lemma kprint_ok pieces κ r : working κ r → Forall (Forall is_byte) pieces →
  wp (kprint pieces) (λ _ κ', ∃ r', working κ' r' ∧ term r' = t_writes (printed pieces) (term r) ∧ on_screen r' (pixels κ') ∧ fixed r' = fixed r ∧
    ∀ a, outside r a → pixels κ' !! a = pixels κ !! a) κ.
Proof.
  intros (Hk & Hr & Hy & Hb) Hp. unfold kprint, line_writer_new. wp_steps. wp_call (write_pieces_ok pieces []); [by split_and!|].
  cbn [app]. intros [] κ1 [(Hb1 & Hp1 & Ht1) Hr1]. unfold finish. wp_steps. fold (printed pieces) in *. unfold rest in Hr1. cbn in Hr1. injection Hr1 as E1 E2 E3.
  assert (length (printed pieces) ≤ 512)%nat by (unfold printed; rewrite length_take; lia).
  rewrite slice_ok by (unfold len in *; lia). rewrite Z.sub_0_r. change (Z.to_nat 0) with 0%nat. rewrite drop_0, Ht1. wp_steps.
  assert (Forall (λ c, 0 ≤ c) (printed pieces)).
  { apply Forall_take, Forall_concat. eapply Forall_impl; [exact Hp|]. intros l Hl. eapply Forall_impl; [exact Hl|]. unfold is_byte. lia. }
  destruct (write_text_ok (printed pieces) r (pixels κ) Hy) as (r' & m' & E & Hy' & Ht & Hs & Hf & Ha); [done|].
  apply (wp_intro _ _ _ tt (set_renderer (Some r') m' κ1)).
  { unfold write_global. rewrite E1, Hk, E2, Hr. cbn [mbind option_bind]. by rewrite E3, E. }
  exists r'. split; [|by split_and!]. split_and!; cbn; congruence || done.
Qed.

Fixpoint kprints (calls : list (list (list Z))) : ST console unit :=
  match calls with
  | [] => mret tt
  | pieces :: calls => _ ← kprint pieces; kprints calls
  end.

(** ** Start *)

(** The rows and columns that fit the screen, outside the margins. *)
Definition text_rows (height line_height : Z) : Z := Z.min 30 ((height - 10) / (line_height + 2)).
Definition text_cols (width char_width : Z) : Z := if char_width =? 0 then 80 else Z.min 80 ((width - 10) / char_width).

(** The renderer of [init]. *)
Definition first_renderer (addr width height pitch : Z) (font : list Z) : renderer :=
  let '(cw, lh, bpg, hs) := parse_psf font in
  let rows := text_rows height lh in
  let cols := text_cols width cw in
  Renderer (replicate 30 (MkConsoleLine (replicate 80 (blank_char 0)) cols false)) rows 0 rows 0 0 cols addr pitch width height lh cw
    0xFFFFFFFF 0 10 10 2 font bpg hs.

(** A black frame buffer in memory, and a font whose space is blank. *)
Record bootable (addr width height pitch : Z) (font : list Z) (m : gmap Z Z) : Prop := {
  b_addr : 0 ≤ addr ∧ addr mod 4 = 0;
  b_end : addr + 4 * (height * Z.shiftr pitch 2) < 2 ^ 64;
  b_size : 10 ≤ width ≤ Z.shiftr pitch 2 ∧ 10 ≤ height < 2 ^ 32;
  b_black : ∀ y x, 0 ≤ y < height → 0 ≤ x < width → m !! (addr + 4 * (y * Z.shiftr pitch 2 + x)) = Some 0;
  b_bytes : Forall is_byte font ∧ len font < 2 ^ 60;
  b_font : let '(cw, lh, bpg, hs) := parse_psf font in hs ≤ len font ∧ 0 < bpg;
  b_blank : let r := first_renderer addr width height pitch font in
    ∀ py gx, 0 ≤ py < line_height r → 0 ≤ gx < char_width r → glyph_pixel r (blank_char 0) py gx = 0;
}.

Lemma le_field_range l off n : Forall is_byte l → (n ≤ 4)%nat → 0 ≤ le_field l off n < 2 ^ 32.
Proof.
  intros Hl Hn. unfold le_field. assert (Forall is_byte (take n (drop off l))) as Hf by by apply Forall_take, Forall_drop.
  pose proof (from_le_range _ Hf) as Hr. split; [lia|]. eapply Z.lt_le_trans; [apply Hr|]. apply Z.pow_le_mono_r; [lia|].
  unfold len. rewrite length_take. lia.
Qed.

Lemma parse_psf_range font : Forall is_byte font → let '(cw, lh, bpg, hs) := parse_psf font in
  0 ≤ cw < 2 ^ 32 ∧ 0 ≤ lh < 2 ^ 32 ∧ 0 ≤ hs.
Proof.
  intros Hf. unfold parse_psf. destruct (_ && _); [|destruct (_ && _); [|lia]].
  - pose proof (le_field_range font 28 4 Hf). pose proof (le_field_range font 24 4 Hf). pose proof (le_field_range font 8 4 Hf). lia.
  - pose proof (le_field_range font 3 1 Hf). lia.
Qed.

(** The terminal at the start: all rows blank, the cursor in the first. *)
Definition blank_terminal (rows cols : Z) : terminal :=
  Terminal (replicate (Z.to_nat rows) (replicate (Z.to_nat cols) (blank_char 0))) 0 0 cols 0xFFFFFFFF 0.

Section start.
Context (addr width height pitch : Z) (font : list Z) (m : gmap Z Z) (Hb : bootable addr width height pitch font m).
Abbreviation r0 := (first_renderer addr width height pitch font).

Lemma first_ready : ready r0 m ∧ on_screen r0 m ∧ term r0 = blank_terminal (line_count r0) (cols r0).
Proof.
  destruct Hb as [Ha He Hs Hk [Hf Hn] Hp Hg]. pose proof (parse_psf_range font Hf) as Hr. unfold first_renderer in *.
  destruct (parse_psf font) as [[[cw lh] bpg] hs].
  assert (Hrows : 0 ≤ text_rows height lh ≤ 30 ∧ 10 + text_rows height lh * (lh + 2) ≤ height).
  { unfold text_rows. pose proof (Z.div_pos (height - 10) (lh + 2)). pose proof (Z.mul_div_le (height - 10) (lh + 2)). nia. }
  assert (Hcols : 0 ≤ text_cols width cw ≤ 80 ∧ 10 + text_cols width cw * cw ≤ width).
  { unfold text_cols. destruct (cw =? 0) eqn:E; [lia|]. pose proof (Z.div_pos (width - 10) cw). pose proof (Z.mul_div_le (width - 10) cw). nia. }
  set (rows := text_rows height lh) in *. set (cs := text_cols width cw) in *. clearbody rows cs.
  set (r := Renderer _ _ _ _ _ _ _ _ _ _ _ _ _ _ _ _ _ _ _ _ _) in *.
  assert (Hw : wf_ring r). { split; unfold r; cbn [lines cols line_count start_line]; [done|by apply Forall_replicate|lia..]. }
  assert (Hl : layout r). { split; unfold row_pixels, stride; cbn; lia. }
  assert (Hrow : ∀ i, row r i = replicate (Z.to_nat cs) (blank_char 0)).
  { intros i. unfold row, line_at. pose proof (place_lt r i). cbn [r lines]. rewrite lookup_replicate_2 by done. 
    change (take (Z.to_nat cs) (replicate 80 (blank_char 0)) = replicate (Z.to_nat cs) (blank_char 0)). rewrite take_replicate. f_equal. lia. }
  assert (Hsh : ∀ i, first_row r ≤ i < line_count r → shows r m (i - first_row r) (row r i)).
  { intros i Hi py x Hin. destruct (pixel_in r Hl (i - first_row r) py x) as [Hy Hx]; [unfold first_row in *; cbn in *; lia|done|].
    etransitivity; [exact (Hk _ _ Hy Hx)|]. f_equal. symmetry. rewrite Hrow. unfold text_pixel. destruct Hin as [Hpy Hpx]. cbn in Hpx.
    assert (0 < cw) by nia. rewrite lookup_replicate_2; [apply Hg; [done|apply Z.mod_pos_bound; done]|].
    cbn. apply Z2Nat.inj_lt; [apply Z.div_pos; lia|lia|]. apply Z.div_lt_upper_bound; lia. }
  split; [split; [done|split; cbn; lia|done| | |]|split; [by apply on_screen_intro|]].
  - intros i _. rewrite Hrow. by apply Forall_replicate.
  - intros y x Hy Hx. eexists. by apply Hk.
  - intros i Hi. right. by apply Hsh.
  - unfold term, blank_terminal. f_equal; try done. apply rows_eq; [done|unfold len; rewrite length_replicate; cbn; lia|]. intros i Hi. rewrite Hrow. apply lookup_replicate_2. cbn in *. lia.
Qed.

Lemma console_init_ok κ : con_lock κ = false → init addr width height pitch font κ = Some (tt, set_renderer (Some r0) (pixels κ) κ).
Proof.
  intros Hk. destruct Hb as [_ _ Hs _ [Hf _] _ _]. pose proof (parse_psf_range font Hf) as Hr. unfold init, first_renderer. destruct (parse_psf font) as [[[cw lh] bpg] hs].
  apply wp_intro_eq. rewrite checked_ok by lia. wp_steps. rewrite Hk. apply wp_modify. split; [done|]. unfold saturating_sub, text_rows, text_cols, set_width, new_line.
  replace (0 <? lh + 2) with true by lia. rewrite !Z.max_r by lia. cbn [chars cl_width dirty].
  assert (Hm : ∀ a b, (if a <? b then a else b) = Z.min b a) by (intros a b; destruct (a <? b) eqn:E; lia).
  rewrite !Hm. unfold MAX_COLS, MAX_LINES. rewrite (Z.min_assoc 80 80), Z.min_id.
  replace (Z.min 80 _) with (if cw =? 0 then 80 else Z.min 80 ((width - 10) / cw)); [done|]. destruct (cw =? 0) eqn:E, (0 <? cw) eqn:E'; lia.
Qed.
End start.

Lemma kprints_ok calls κ r : working κ r → Forall (Forall (Forall is_byte)) calls →
  wp (kprints calls) (λ _ κ', ∃ r', working κ' r' ∧ term r' = t_writes (concat (map printed calls)) (term r) ∧ fixed r' = fixed r ∧
    (on_screen r (pixels κ) → on_screen r' (pixels κ')) ∧ ∀ a, outside r a → pixels κ' !! a = pixels κ !! a) κ.
Proof.
  intros Hw Hc. revert κ r Hw. induction Hc as [|pieces calls Hp Hc IH]; intros κ r Hw; cbn [kprints].
  - wp_steps. exists r. by split_and!.
  - wp_steps. wp_call kprint_ok; [done..|]. intros [] κ1 (r1 & Hw1 & Ht1 & Hs1 & Hf1 & Ha1). wp_call IH; [done|].
    intros [] κ2 (r2 & Hw2 & Ht2 & Hf2 & Hs2 & Ha2). exists r2. split; [done|]. split.
    { cbn [map concat]. unfold t_writes in *. rewrite fold_left_app. congruence. }
    split; [congruence|]. split; [auto|]. intros a Ha. rewrite Ha2, Ha1; [done..|]. destruct (fixed_eq _ _ Hf1) as (? & ? & ? & ? & ? & ->). exact Ha.
Qed.

(** C12. The console shows what was printed, up to 512 bytes a call: after [init] on a
    black frame buffer of at least 10 by 10 pixels, with a font whose space is blank
    ([bootable]), and any calls of the printing macros, whatever bytes they print,
    nothing panicked, no store missed the frame buffer, the lines are those of a
    terminal that got the first 512 bytes of text of each call ([printed]), and each of
    the last rows is on the screen, pixel by pixel as the font has it. The pixels
    outside the rows of text are unchanged. *)
Theorem console_shows addr width height pitch font calls κ :
  bootable addr width height pitch font (pixels κ) → con_lock κ = false → length (LINE_WRITER_BUFFER κ) = 512%nat → Forall (Forall (Forall is_byte)) calls →
  ∃ κ' r, (_ ← init addr width height pitch font; kprints calls) κ = Some (tt, κ') ∧ RENDERER κ' = Some r ∧
    let '(cw, lh, _, _) := parse_psf font in
    term r = t_writes (concat (map printed calls)) (blank_terminal (text_rows height lh) (text_cols width cw)) ∧
    on_screen r (pixels κ') ∧ ∀ a, outside r a → pixels κ' !! a = pixels κ !! a.
Proof.
  intros Hb Hk Hl Hc. destruct (first_ready _ _ _ _ _ _ Hb) as (Hr & Hs0 & Ht). pose proof (console_init_ok _ _ _ _ _ _ Hb κ Hk) as Ei.
  set (κ1 := set_renderer _ _ κ) in *. assert (Hw : working κ1 (first_renderer addr width height pitch font)) by by split_and!.
  destruct (wp_result _ _ _ (kprints_ok calls κ1 _ Hw Hc)) as ([] & κ' & Ek & r & Hw' & Ht' & Hf & Hs & Ha). exists κ', r.
  split. { unfold mbind, ST_bind. by rewrite Ei. }
  split; [by apply Hw'|]. rewrite Ht' , Ht in *. revert Hf Ha Hs Hs0. unfold first_renderer. destruct (parse_psf font) as [[[cw lh] bpg] hs]. intros Hf Ha Hs Hs0.
  split; [done|]. split; [by apply Hs|]. intros a Ho. apply (Ha a). destruct (fixed_eq _ _ Hf) as (? & ? & ? & ? & ? & ->). exact Ho.
Qed.

(** A font of one pixel row a character, and a screen of two rows of two characters. *)
Definition demo_font : list Z := [0x36; 0x04; 0; 1] ++ map (λ c, if c =? 32 then 0 else c) (seqZ 0 256).
Definition demo_screen : gmap Z Z := gset_to_gmap 0 (list_to_set ((λ i, 4096 + 4 * i) <$> seqZ 0 416)).
Definition demo_console : console := Console false None (replicate 512 0) 0 demo_screen.

Lemma demo_bootable : bootable 4096 26 16 104 demo_font demo_screen.
Proof.
  split; [done|done|done| |split; [by apply (bool_decide_unpack _); vm_compute|done]|done|].
  - intros y x Hy Hx. change (Z.shiftr 104 2) with 26. apply lookup_gset_to_gmap_Some. split; [|done]. apply elem_of_list_to_set, list_elem_of_fmap.
    exists (y * 26 + x). split; [done|]. apply elem_of_seqZ. lia.
  - intros r py gx Hy Hx. change (0 ≤ py < 1) in Hy. change (0 ≤ gx < 8) in Hx. assert (py = 0) as -> by lia.
    assert (gx = 0 ∨ gx = 1 ∨ gx = 2 ∨ gx = 3 ∨ gx = 4 ∨ gx = 5 ∨ gx = 6 ∨ gx = 7) as Hg by lia. by destruct_or! Hg; subst gx; vm_compute.
Qed.

(** The text of three lines on the two rows: the first is gone. *)
Lemma console_shows_witness : ∃ κ' r,
  (_ ← init 4096 26 16 104 demo_font; kprints [[[65; 66]; [67]]; [[10; 68]]]) demo_console = Some (tt, κ') ∧ RENDERER κ' = Some r ∧
  map (map ch) (rows r) = [[65; 66]; [67; 32]; [68; 32]] ∧ on_screen r (pixels κ').
Proof.
  destruct (console_shows 4096 26 16 104 demo_font [[[65; 66]; [67]]; [[10; 68]]] demo_console demo_bootable eq_refl eq_refl) as (κ' & r & E & Hr & Ht & Hs & _).
  { by repeat constructor. }
  exists κ', r. split; [exact E|]. split; [exact Hr|]. split; [|exact Hs]. change (rows r) with (t_rows (term r)). rewrite Ht. by vm_compute.
Defined.
